(* ===== verification/_CoqProject ===== *)
-Q . S2P
Prelude.v
ElementQueue.v
Bitmap.v
Pool.v
FixedHash.v
Lru.v
MetricStore.v
DnsRequests.v
Dns.v
PerfRing.v
PerfReader.v
IpAddress.v
NatHandler.v
Tables.v
PollerBase.v
PollerTcp.v
PollerUdp.v
CgroupHandler.v
Agent.v
Poller.v
ProbeUdp.v
UdpSystem.v
Probes.v
ProbeTcp.v
ProbeTask.v
ProbeDns.v
AllProbes.v
TcpSystem.v
Lookup3.v
TcpProcessor.v
KernelHttp.v
TcpData.v
DataSystem.v
RpcQueue.v
ReducerCore.v
CgroupParser.v
Matching.v
FlowSpan.v
Ingest.v
FlowSystem.v
