(* ===== verification/Prelude.v ===== *)
(** Verification of the OpenTelemetry eBPF collector (open-telemetry/opentelemetry-ebpf).

    * The program

    Probes in the kernel (collector/kernel/bpf_src) observe sockets, processes, control
    groups and address translations.  They write messages to one perf ring per CPU.
    The kernel collector (collector/kernel) merges the rings by time, keeps tables of
    sockets, requests and translations, accumulates statistics, and writes messages to
    the server.  The server (reducer) aggregates them, on several cores that send messages
    to each other.  This development models the probes, the path from the rings to the
    messages for the server with the containers it uses, and of the reducer the loop of
    its cores, the sockets of its ingest cores, the flows of its matching cores and one
    cache.  Other probes (bpf_src/tcp-processor) copy the data of TCP connections to a
    second ring per CPU, in which the collector recognises HTTP; it tells the probes
    through a map which streams it still wants.

    * Files

    - [Prelude]: words of fixed width, memory with checked accesses, shared lemmas.
    - [ElementQueue]: util/element_queue.{h,c}, element_queue_cpp.h; the queue between
      threads, with its private and shared offsets.
    - [Bitmap]: util/iterable_bitmap.h.  [Pool]: util/pool.h, pool_allocator.{h,c}.
      [FixedHash]: util/fixed_hash.h on the pool.  [Lru]: util/LRU.h and
      reducer/dns_cache.h.  [MetricStore]: util/metric_store.h, fast_div.h.
    - [PerfRing]: util/perf_ring.{h,c}, perf_ring_cpp.h.  [PerfReader]:
      collector/kernel/perf_reader.{h,cc}, the merge of the rings.
    - [Dns]: collector/kernel/dns.  [DnsRequests]: dns_requests.{h,cc}.
    - [IpAddress]: util/ip_address.{h,cc}.  [NatHandler]: nat_handler.{h,cc}.
    - [Tables]: the interfaces [SocketTable] and [StatStore] between the poller and its
      containers, and their implementation by [FixedHash] and [MetricStore].
    - [PollerBase], [PollerTcp], [PollerUdp]: the handlers of buffered_poller.cc for
      TCP, for UDP and for DNS.  [CgroupHandler]: cgroup_handler.{h,cc} and
      process_handler.{h,cc}.  [Agent]: the messages of the probes
      (render/ebpf_net.render, application agent_internal).
    - [Poller]: the assembled class BufferedPoller.
    - [ProbeUdp]: the UDP probes of bpf_src/render_bpf.c, and the log of
      tcp-processor/bpf_types.h.  [UdpSystem]: these probes and the UDP handlers of the
      poller together.
    - [Probes]: probes as programs over shared maps, run to their end or interleaved.
      [ProbeTcp], [ProbeTask], [ProbeDns]: the probes of render_bpf.c for TCP sockets,
      for processes, control groups and address translation, and for DNS packets.
      [AllProbes]: these probes interleaved.  [TcpSystem]: the TCP probes and the TCP
      handlers of the poller together.
    - [TcpProcessor]: the probes of bpf_src/tcp-processor, their table of connections and
      the data channel.  [KernelHttp]: HTTP recognised by these probes themselves, in the
      build without the data stream.  [TcpData]: tcp_data_handler.{h,cc} and protocols,
      the handlers of the data in the collector.  [DataSystem]: the probes, the data ring
      and these handlers together.
    - [Lookup3]: util/lookup3.c and lookup3_hasher.h.  [CgroupParser]:
      util/cgroup_parser.{h,cc} and parser_utils.h.
    - [RpcQueue]: the interface of the queues between the cores of the reducer, and its
      implementation by [ElementQueue] and util/element_queue_writer.cc.  [ReducerCore]:
      reducer/core.cc and reducer/util/virtual_clock.{h,cc}.
    - [Matching]: reducer/uid_key.{h,cc}, reducer/util/docker_image.{h,inl} and the spans of
      pods, containers and cloud addresses of reducer/matching.  [FlowSpan]:
      reducer/matching/flow_span.{h,cc}, the two sides of a flow.
    - [Ingest]: reducer/ingest/{flow_updater,socket_span,udp_socket_span}.{h,cc} and
      container_updater.h, the sockets of the agents and the messages for their flows.
      [FlowSystem]: these sockets and [FlowSpan] together.

    * Conventions

    An integer of width w is a [Z] whose wrap-around is written out ([u8] to [u64],
    [s32], [s64]).  Memory is a list of bytes; an access out of range, a failing
    assertion or another undefined behaviour is [None], or [Undef] in the handlers,
    where an exception is [Throw].  State is passed explicitly.  A finite map stands
    for a hash map of a library.  Each component is named as in the source.

    Code outside of the repository is an argument or a type class with documented
    behaviour as its laws: the hash map under [FixedHash] ([FlatHashMap]), the linked
    lists ([CcanList]), the heap of the C++ library ([StdHeap]) and the order of its
    multimaps ([MultimapOrder]), the accessors of the fields of a DNS packet in a header of
    c-ares ([AresDns]), the hash maps of the kernel ([BpfMap]), the generated sizes of
    messages and tables of log locations (arguments of [Poller]).  Each has an instance, used by the witnesses.

    * What is shown

    - Containers: each operation refines an abstract container (queue, set, map,
      bounded map in the order of use, pool, window of epochs, list of requests) through
      any history, with its answers and its error results, and in whatever order a
      multimap keeps its entries.
    - Rings: events come out once, whole, in order; the reader merges all rings by
      time and stops at its limit.
    - DNS: parsers are exact on any bytes, well formed or not, and stay in bounds.
    - Statistics: what the handlers report plus what is pending is what was observed,
      modulo the width of the counter, through any history.  So for TCP; for UDP as long
      as the address of a socket does not change, since a change reports once more what
      was pending, and the theorems count that.
    - Assembly: [Poller] lifts this to every interleaving of all messages, losses and
      timeouts; nothing throws or is undefined on records the probes can send, and
      exactly the lost samples are reported.
    - Probes: every packet of a tracked UDP socket is sent once or still held, and any
      delivery of these messages, in any order, keeps the promises [PollerUdp] relies on.
      The sockets of these probes are assumed to have a port, as the kernel ensures
      before it calls the probed functions.
    - Probes at the same time: under every interleaving of the accesses to the maps, and
      whatever the kernel answers, the announcements of sockets and of processes balance
      with the tables, up to the reads that failed, and the end of a process is announced
      only after the exit of the last thread of a group was seen.
    - TCP end to end: what the collector reports for a connection is what the kernel
      counted between its announcement and its end.  There the probes run one after the
      other, their reads succeed, and the messages arrive in order and without loss.
    - DNS capture: the message of a packet holds its payload, in the form [PollerUdp]
      relies on.
    - TCP data: what is sent on a connection is carried whole and in order, or up to a
      bound; the tail calls end; the handlers return on every ring and report at most one
      response per connection.  End to end, a request and its response in one buffer each
      become one message with the code and the time between them.
    - Hashes: every way to read a key, by its alignment, the order of bytes and the build,
      computes one reference function of its bytes.
    - Names of control groups: every documented format is read as what it says, except
      services whose names begin like another format, and what is read of any name is
      well formed.
    - Cores: through any history of writes and reads, with 16-bit timeslots that wrap, the
      messages of all clients, each of which writes in order, are handled in the order of
      their timeslots, and once nothing more is written all that can be handled is.
    - Flows: however the messages of the two sides of a flow follow each other, every metric
      is counted once in each direction, and one agent is enough to report the flow: through
      any history, all that is sent on after the first socket was described reaches the
      aggregation, once and under described nodes.  The key of a flow does not depend on
      which side is the first.
    - Sockets of the agents: the span of a flow lives as long as a socket holds it.  A UDP
      socket that sends to several addresses tells only the first flow about its
      container.  End to end, the two sockets of a connection, reported by two agents, feed
      one flow, whose counters are those of one of the agents.  There the sockets are no proxies and keep
      their addresses, and the maps of the ingest cores are not full.
    - Some behaviours that differ from what the code or its comments intend are theorems
      too; their comments say so.

    * Bounds and fuel

    Loops over a queue of slots take the number of slots as fuel, since a slot is
    queued at most once.  The loops over a DNS name take (MAX_INDIRS + 1) times the
    length of the packet plus one: one pass over the packet for every compression
    pointer the code follows.  The loops that walk a bitmap or drain a reader are
    of the statements, and take the number of elements.  The return probes of TCP data
    take the depth of tail calls that the code admits; the loop over the data ring takes
    one more than the records of the ring; the state machines of HTTP take the number of
    their states; the loops of a hash take the length of the key.  The theorems show that the
    fuel is enough: the outcome is a result, never [NoFuel] or [OutOfFuel].

    * Not modelled

    - Of the UDP probes, those for kernels that inline udp_send_skb; of render_bpf.c,
      the functions that no probe calls.  [Poller] takes the messages of all probes as
      inputs, constrained by [message_ok]: only [UdpSystem], [TcpSystem] and [DataSystem]
      compose probes with handlers.
    - The encoding of messages and the spans of the reducer, which are generated by the
      compiler in renderc from render/ebpf_net.render.
    - The JSON of docker answers, and the probers that read /proc: input and output of
      other systems.
    - The channels to the server, the scheduling of timers, the collectors for
      Kubernetes and clouds, and the reducer other than its DNS cache, its cores, its
      sockets and its flows: what the spans of an agent, of its processes and of its
      control groups answer is an argument of [Ingest].
    - Logging of the collector, and concurrency beyond the two ends of a queue or a ring
      and the probes of [AllProbes]; the UDP probes run to their end one by one. *)
From stdpp Require Export prelude list gmap.
From Stdlib Require Export ZArith Lia.

#[global] Open Scope Z_scope.

(** * Machine integers

    A C unsigned integer of width [w] is a [Z] in [0, 2^w); every arithmetic
    expression of the source is followed by the conversion to its type. *)

Definition u8 (x : Z) : Z := x mod 2 ^ 8.
Definition u16 (x : Z) : Z := x mod 2 ^ 16.
Definition u32 (x : Z) : Z := x mod 2 ^ 32.
Definition u64 (x : Z) : Z := x mod 2 ^ 64.

(** The conversion of an unsigned value to [int] (two's complement). *)
Definition s32 (x : Z) : Z := (x + 2 ^ 31) mod 2 ^ 32 - 2 ^ 31.

(** [~x] on a [u32]. *)
Definition not32 (x : Z) : Z := u32 (Z.lnot x).

(** Errno values returned, negated, by the C code. *)
Definition ENOENT : Z := 2.
Definition EAGAIN : Z := 11.
Definition ENOMEM : Z := 12.
Definition EEXIST : Z := 17.
Definition EINVAL : Z := 22.
Definition ENOSPC : Z := 28.
Definition ENOSYS : Z := 38.
Definition E2BIG : Z := 7.

(** * Memory blocks

    A C array is a list of cells; an access outside the block is undefined
    behaviour and is [None]. *)

Definition rd {A} (l : list A) (i : Z) : option A :=
  if 0 <=? i then l !! Z.to_nat i else None.

Definition wr {A} (l : list A) (i : Z) (x : A) : option (list A) :=
  if (0 <=? i) && (i <? Z.of_nat (length l)) then Some (<[Z.to_nat i := x]> l) else None.

(** [memcpy] out of and into a block. *)
Definition mem_read {A} (l : list A) (off len : Z) : option (list A) :=
  if (0 <=? off) && (0 <=? len) && (off + len <=? Z.of_nat (length l))
  then Some (take (Z.to_nat len) (drop (Z.to_nat off) l)) else None.

Definition mem_write {A} (l : list A) (off : Z) (bs : list A) : option (list A) :=
  if (0 <=? off) && (off + Z.of_nat (length bs) <=? Z.of_nat (length l))
  then Some (take (Z.to_nat off) l ++ bs ++ drop (Z.to_nat off + length bs) l) else None.

(** The length of a list as an integer. *)
Definition zlen {A} (l : list A) : Z := Z.of_nat (length l).

(** * Facts on machine integers *)

Lemma pow2_pos (k : Z) : 0 <= k -> 0 < 2 ^ k.
Proof. intros. apply Z.pow_pos_nonneg; lia. Qed.

Lemma u32_range (x : Z) : 0 <= u32 x < 2 ^ 32.
Proof. apply Z.mod_pos_bound. lia. Qed.

Lemma u64_range (x : Z) : 0 <= u64 x < 2 ^ 64.
Proof. apply Z.mod_pos_bound. lia. Qed.

Lemma u16_range (x : Z) : 0 <= u16 x < 2 ^ 16.
Proof. apply Z.mod_pos_bound. lia. Qed.

Lemma u8_range (x : Z) : 0 <= u8 x < 2 ^ 8.
Proof. apply Z.mod_pos_bound. lia. Qed.

Lemma u32_small (x : Z) : 0 <= x < 2 ^ 32 -> u32 x = x.
Proof. apply Z.mod_small. Qed.

Lemma u64_small (x : Z) : 0 <= x < 2 ^ 64 -> u64 x = x.
Proof. apply Z.mod_small. Qed.

Lemma u16_small (x : Z) : 0 <= x < 2 ^ 16 -> u16 x = x.
Proof. apply Z.mod_small. Qed.

Lemma u32_u32 (x : Z) : u32 (u32 x) = u32 x.
Proof. apply Z.mod_mod. lia. Qed.

Lemma u32_add_l (x y : Z) : u32 (u32 x + y) = u32 (x + y).
Proof. apply Zplus_mod_idemp_l. Qed.

Lemma u32_add_r (x y : Z) : u32 (x + u32 y) = u32 (x + y).
Proof. apply Zplus_mod_idemp_r. Qed.

Lemma u32_sub_l (x y : Z) : u32 (u32 x - y) = u32 (x - y).
Proof. apply Zminus_mod_idemp_l. Qed.

Lemma u32_sub_r (x y : Z) : u32 (x - u32 y) = u32 (x - y).
Proof. apply Zminus_mod_idemp_r. Qed.

Lemma s32_small (x : Z) : - 2 ^ 31 <= x < 2 ^ 31 -> s32 x = x.
Proof. intros. unfold s32. rewrite Z.mod_small; lia. Qed.

Lemma s32_u32 (x : Z) : s32 (u32 x) = s32 x.
Proof. unfold s32, u32. by rewrite Zplus_mod_idemp_l. Qed.

Create Rewrite HintDb wrap.
Create Rewrite HintDb zlen.
#[export] Hint Rewrite u32_u32 u32_add_l u32_add_r u32_sub_l u32_sub_r : wrap.

(** Removes the conversions inside a [u32] expression. *)
Ltac wrap32 := autorewrite with wrap.

Lemma u32_eq_small (x y : Z) : u32 x = u32 y -> Z.abs (x - y) < 2 ^ 32 -> x = y.
Proof.
  unfold u32. intros Hm Hb.
  assert (H : (x - y) mod 2 ^ 32 = 0) by (rewrite Zminus_mod, Hm, Z.sub_diag; done).
  apply Z.mod_divide in H as [c Hc]; [|lia]. nia.
Qed.

(** ** Masks *)

Lemma land_mask (x k : Z) : 0 <= k -> Z.land x (2 ^ k - 1) = x mod 2 ^ k.
Proof.
  intros Hk. replace (2 ^ k - 1) with (Z.ones k) by (rewrite Z.ones_equiv; lia).
  by apply Z.land_ones.
Qed.

Lemma mod_pow2_mod (x j k : Z) : 0 <= j <= k -> (x mod 2 ^ k) mod 2 ^ j = x mod 2 ^ j.
Proof.
  intros H. apply Z.mod_mod_divide. exists (2 ^ (k - j)).
  rewrite <- Z.pow_add_r by lia. f_equal. lia.
Qed.

Lemma land_mask_u32 (x k : Z) : 0 <= k <= 32 -> Z.land (u32 x) (2 ^ k - 1) = x mod 2 ^ k.
Proof. intros. rewrite land_mask by lia. unfold u32. by apply mod_pow2_mod. Qed.

Lemma land_not_mask (x k : Z) :
  0 <= k <= 32 -> 0 <= x < 2 ^ 32 -> Z.land x (not32 (2 ^ k - 1)) = x - x mod 2 ^ k.
Proof.
  intros Hk Hx. unfold not32, u32.
  rewrite <- (Z.land_ones _ 32) by lia.
  rewrite (Z.land_comm (Z.lnot _)), Z.land_assoc, Z.land_ones, Z.mod_small by lia.
  rewrite <- Z.ldiff_land.
  replace (2 ^ k - 1) with (Z.ones k) by (rewrite Z.ones_equiv; lia).
  rewrite Z.ldiff_ones_r, Z.shiftr_div_pow2, Z.shiftl_mul_pow2 by lia.
  pose proof (Z.div_mod x (2 ^ k)). pose proof (pow2_pos k). lia.
Qed.

Lemma land_not_mask_u32 (x k : Z) :
  0 <= k <= 32 -> Z.land (u32 x) (not32 (2 ^ k - 1)) = u32 x - x mod 2 ^ k.
Proof.
  intros Hk. rewrite land_not_mask by (try lia; apply u32_range).
  f_equal. unfold u32. by apply mod_pow2_mod.
Qed.

(** The test [n & (n - 1)] of the initialisers: zero exactly on [0] and on the
    powers of two. *)
Definition is_pow2_or_0 (n : Z) : bool := Z.land n (u32 (n - 1)) =? 0.

Lemma is_pow2_or_0_pow2 (k : Z) : 0 <= k < 32 -> is_pow2_or_0 (2 ^ k) = true.
Proof.
  intros Hk. unfold is_pow2_or_0. pose proof (pow2_pos k).
  pose proof (Z.pow_lt_mono_r 2 k 32).
  rewrite u32_small, land_mask, Z.mod_same by lia. done.
Qed.

Lemma is_pow2_or_0_inv (n : Z) :
  0 < n < 2 ^ 32 -> is_pow2_or_0 n = true -> exists k, 0 <= k < 32 /\ n = 2 ^ k.
Proof.
  intros Hn H. unfold is_pow2_or_0 in H. apply Z.eqb_eq in H.
  rewrite u32_small in H by lia.
  pose proof (Z.log2_spec n) as [Hl Hu]; [lia|].
  pose proof (Z.log2_nonneg n). exists (Z.log2 n).
  assert (Z.log2 n < 32) by (apply Z.log2_lt_pow2; lia). split; [lia|].
  destruct (decide (n = 2 ^ Z.log2 n)) as [|Hne]; [done|exfalso].
  assert (Hb : Z.testbit (Z.land n (n - 1)) (Z.log2 n) = true).
  { rewrite Z.land_spec, Z.bit_log2 by lia. simpl.
    replace (Z.log2 n) with (Z.log2 (n - 1)); [apply Z.bit_log2; lia|].
    apply Z.log2_unique; lia. }
  by rewrite H, Z.bits_0 in Hb.
Qed.

(** [(len + 7) & ~7] on a [u32]: the length rounded up to a multiple of 8. *)
Definition align8 (len : Z) : Z := Z.land (u32 (len + 7)) (not32 7).

Lemma align8_eq (len : Z) : 0 <= len < 2 ^ 32 - 7 -> align8 len = 8 * ((len + 7) / 8).
Proof.
  intros H. unfold align8. change 7 with (2 ^ 3 - 1) at 2.
  rewrite land_not_mask_u32, u32_small by lia. change (2 ^ 3) with 8.
  pose proof (Z.div_mod (len + 7) 8). lia.
Qed.

Lemma align8_nonneg (len : Z) : 0 <= align8 len.
Proof. apply Z.land_nonneg. left. apply u32_range. Qed.

Lemma align8_mod8 (len : Z) : align8 len mod 8 = 0.
Proof.
  unfold align8. change 7 with (2 ^ 3 - 1) at 2.
  rewrite land_not_mask_u32 by lia. change (2 ^ 3) with 8.
  unfold u32. rewrite Zminus_mod, (mod_pow2_mod _ 3 32) by lia.
  change (2 ^ 3) with 8. rewrite Z.mod_mod, Z.sub_diag by lia. done.
Qed.

Lemma align8_bounds (len : Z) :
  0 <= len < 2 ^ 32 - 7 -> len <= align8 len <= len + 7.
Proof.
  intros H. rewrite align8_eq by lia.
  pose proof (Z.div_mod (len + 7) 8). pose proof (Z.mod_pos_bound (len + 7) 8). lia.
Qed.

(** * Facts on memory blocks *)

Section memory.
Context {A : Type}.
Implicit Types (l bs : list A) (off len i : Z).

Lemma rd_Some l i x : rd l i = Some x <-> 0 <= i /\ l !! Z.to_nat i = Some x.
Proof. unfold rd. destruct (Z.leb_spec 0 i); naive_solver lia. Qed.

Lemma rd_is_Some l i : 0 <= i < zlen l -> is_Some (rd l i).
Proof.
  intros H. unfold rd, zlen in *. destruct (Z.leb_spec 0 i); [|lia].
  apply lookup_lt_is_Some. lia.
Qed.

Lemma wr_Some l i x l' :
  wr l i x = Some l' <-> 0 <= i < zlen l /\ l' = <[Z.to_nat i := x]> l.
Proof.
  unfold wr, zlen. destruct (Z.leb_spec 0 i), (Z.ltb_spec i (Z.of_nat (length l)));
    simpl; naive_solver lia.
Qed.

Lemma wr_in_range l i x : 0 <= i < zlen l -> wr l i x = Some (<[Z.to_nat i := x]> l).
Proof. intros. apply wr_Some. done. Qed.

Lemma rd_wr l l' i j x :
  wr l i x = Some l' -> rd l' j = if decide (i = j) then Some x else rd l j.
Proof.
  intros [Hi ->]%wr_Some. unfold rd, zlen in *. case_decide; subst.
  - destruct (Z.leb_spec 0 j); [|lia]. apply list_lookup_insert_eq. lia.
  - destruct (Z.leb_spec 0 j); [|done]. apply list_lookup_insert_ne. lia.
Qed.

Lemma zlen_insert l n x : zlen (<[n := x]> l) = zlen l.
Proof. unfold zlen. by rewrite length_insert. Qed.

Lemma zlen_app l bs : zlen (l ++ bs) = zlen l + zlen bs.
Proof. unfold zlen. rewrite length_app. lia. Qed.

Lemma zlen_nonneg l : 0 <= zlen l.
Proof. unfold zlen. lia. Qed.

(** [memcpy] out of a block, cell by cell. *)
Lemma mem_read_spec l off len bs :
  mem_read l off len = Some bs <->
  0 <= off /\ zlen bs = len /\ off + len <= zlen l /\
  (forall k, 0 <= k < len -> rd l (off + k) = rd bs k).
Proof.
  unfold mem_read, zlen.
  destruct (Z.leb_spec 0 off), (Z.leb_spec 0 len), (Z.leb_spec (off + len) (Z.of_nat (length l)));
    simpl; [|naive_solver lia..].
  split.
  - intros [= <-]. rewrite length_take, length_drop. split_and!; try lia.
    intros k Hk. unfold rd. destruct (Z.leb_spec 0 (off + k)), (Z.leb_spec 0 k); try lia.
    rewrite lookup_take_lt, lookup_drop by lia. f_equal. lia.
  - intros (_ & Hlen & _ & Hk). f_equal. apply list_eq. intros n.
    destruct (decide (n < Z.to_nat len)%nat).
    + rewrite lookup_take_lt, lookup_drop by lia. specialize (Hk (Z.of_nat n)).
      unfold rd in Hk.
      destruct (Z.leb_spec 0 (off + Z.of_nat n)), (Z.leb_spec 0 (Z.of_nat n)); try lia.
      rewrite Nat2Z.id in Hk. rewrite <- Hk by lia. f_equal. lia.
    + rewrite lookup_take_ge, lookup_ge_None_2 by lia. done.
Qed.

Lemma mem_write_spec l off bs :
  0 <= off -> off + zlen bs <= zlen l ->
  exists l', mem_write l off bs = Some l' /\ zlen l' = zlen l /\
    forall k, rd l' k =
      if decide (off <= k < off + zlen bs) then rd bs (k - off) else rd l k.
Proof.
  intros Ho Hl. unfold mem_write, zlen in *.
  destruct (Z.leb_spec 0 off); [|lia].
  destruct (Z.leb_spec (off + Z.of_nat (length bs)) (Z.of_nat (length l))); [|lia]. simpl.
  eexists. split; [done|]. split.
  { rewrite !length_app, length_take, length_drop. lia. }
  intros k. unfold rd. destruct (Z.leb_spec 0 k).
  2:{ case_decide; [lia|done]. }
  case_decide as Hk.
  - destruct (Z.leb_spec 0 (k - off)); [|lia].
    rewrite lookup_app_r by (rewrite length_take; lia).
    rewrite length_take, lookup_app_l by lia. f_equal. lia.
  - destruct (decide (k < off)).
    + rewrite lookup_app_l by (rewrite length_take; lia).
      apply lookup_take_lt. lia.
    + rewrite lookup_app_r by (rewrite length_take; lia).
      rewrite length_take, lookup_app_r, lookup_drop by lia. f_equal. lia.
Qed.

Lemma mem_write_out l off bs :
  off < 0 \/ zlen l < off + zlen bs -> mem_write l off bs = None.
Proof.
  intros H. unfold mem_write, zlen in *.
  destruct (Z.leb_spec 0 off); [|done].
  destruct (Z.leb_spec (off + Z.of_nat (length bs)) (Z.of_nat (length l))); [lia|done].
Qed.

(** Reading back what was just copied in. *)
Lemma mem_read_write_eq l l' off bs :
  mem_write l off bs = Some l' -> mem_read l' off (zlen bs) = Some bs.
Proof.
  intros Hw. destruct (decide (0 <= off /\ off + zlen bs <= zlen l)) as [[H1 H2]|H];
    [|rewrite mem_write_out in Hw by lia; done].
  destruct (mem_write_spec l off bs H1 H2) as (l2 & Hw2 & Hlen & Hrd).
  rewrite Hw in Hw2. injection Hw2 as <-.
  apply mem_read_spec. split_and!; [lia|done|lia|].
  intros k Hk. rewrite Hrd, decide_True by lia. f_equal. lia.
Qed.

(** A copy into a disjoint range does not disturb what is read. *)
Lemma mem_read_write_disjoint l l' off off' len bs :
  mem_write l off bs = Some l' ->
  off' + len <= off \/ off + zlen bs <= off' ->
  mem_read l' off' len = mem_read l off' len.
Proof.
  intros Hw Hdis. destruct (decide (0 <= off /\ off + zlen bs <= zlen l)) as [[H1 H2]|H];
    [|rewrite mem_write_out in Hw by lia; done].
  destruct (mem_write_spec l off bs H1 H2) as (l2 & Hw2 & Hlen & Hrd).
  rewrite Hw in Hw2. injection Hw2 as <-.
  apply option_eq. intros x. rewrite !mem_read_spec, Hlen.
  apply and_iff_compat_l, and_iff_compat_l, and_iff_compat_l.
  apply forall_proper. intros k. split; intros Hk Hr; specialize (Hk Hr); revert Hk;
    rewrite Hrd, decide_False by lia; done.
Qed.

Lemma mem_write_zlen l l' off bs : mem_write l off bs = Some l' -> zlen l' = zlen l.
Proof.
  intros Hw. destruct (decide (0 <= off /\ off + zlen bs <= zlen l)) as [[H1 H2]|H];
    [|rewrite mem_write_out in Hw by lia; done].
  destruct (mem_write_spec l off bs H1 H2) as (l2 & Hw2 & Hlen & _).
  rewrite Hw in Hw2. by injection Hw2 as <-.
Qed.

Lemma mem_read_zlen l off len bs : mem_read l off len = Some bs -> zlen bs = len.
Proof. by intros (_ & ? & _)%mem_read_spec. Qed.
End memory.

#[export] Hint Rewrite @zlen_insert @zlen_app : zlen.

Lemma mod_neq (a b n : Z) : 0 < b - a < n -> a mod n <> b mod n.
Proof.
  intros H Heq. assert (H0 : (b - a) mod n = 0).
  { rewrite Zminus_mod, Heq, Z.sub_diag. apply Z.mod_0_l. lia. }
  rewrite Z.mod_small in H0 by lia. lia.
Qed.

(** * Little-endian integers *)

Fixpoint le_encode (n : nat) (v : Z) : list Z :=
  match n with
  | O => []
  | S n => v mod 256 :: le_encode n (v / 256)
  end.

Fixpoint le_decode (bs : list Z) : Z :=
  match bs with
  | [] => 0
  | b :: bs => b + 256 * le_decode bs
  end.

Lemma length_le_encode (n : nat) (v : Z) : length (le_encode n v) = n.
Proof. revert v. induction n as [|n IH]; intros v; simpl; [done|]. by rewrite IH. Qed.

Lemma le_roundtrip (n : nat) (v : Z) : le_decode (le_encode n v) = v mod 256 ^ Z.of_nat n.
Proof.
  revert v. induction n as [|n IH]; intros v; cbn [le_encode le_decode].
  - by rewrite Z.mod_1_r.
  - rewrite IH, Nat2Z.inj_succ, Z.pow_succ_r by lia.
    pose proof (Z.pow_pos_nonneg 256 (Z.of_nat n)). rewrite Z.rem_mul_r by lia. lia.
Qed.

(** * Facts on lists *)

Lemma filter_all {A} (P : A -> Prop) `{forall x, Decision (P x)} (l : list A) :
  (forall x, x ∈ l -> P x) -> filter P l = l.
Proof.
  induction l as [|x l IH]; intros Hl; [done|].
  rewrite filter_cons_True by (apply Hl; left). f_equal. apply IH. intros y Hy. apply Hl. by right.
Qed.

Lemma filter_none {A} (P : A -> Prop) `{forall x, Decision (P x)} (l : list A) :
  (forall x, x ∈ l -> ~ P x) -> filter P l = [].
Proof.
  induction l as [|x l IH]; intros Hl; [done|].
  rewrite filter_cons_False by (apply Hl; left). apply IH. intros y Hy. apply Hl. by right.
Qed.

(** Filtering an image is the image of a filtering. *)
Lemma filter_fmap {A B} (f : A -> B) (P : B -> Prop) `{forall x, Decision (P x)} (l : list A) :
  filter P (f <$> l) = f <$> filter (fun x => P (f x)) l.
Proof.
  induction l as [|x l IH]; [done|]. rewrite fmap_cons. destruct (decide (P (f x))).
  - rewrite !filter_cons_True by done. rewrite fmap_cons. by f_equal.
  - rewrite !filter_cons_False by done. done.
Qed.
