(* ===== verification/ElementQueue.v ===== *)
(** The element queue: [util/element_queue.h], [util/element_queue.c] and the
    C++ wrapper [util/element_queue_cpp.h].

    A queue of variable-length byte strings over a shared memory area, with one
    writer struct and one reader struct.  The free-running counters are [u32]
    and wrap around; the area holds an array of element lengths and a byte
    ring in which an element never straddles the end.

    Definitions first, then the placement arithmetic on unbounded ghost
    counters, the invariant of a writer, a reader and the area between them,
    and the refinement of a five-segment FIFO. *)
From S2P Require Import Prelude.

Module ElementQueue.

(** ** Data *)

(** [struct element_queue_shared]. *)
Record element_queue_shared := mk_shared {
  sh_elem_head : Z;
  sh_buf_head : Z;
  sh_elem_tail : Z;
  sh_buf_tail : Z;
}.

(** [struct element_queue] without its three pointers, which all point into
    one [storage]. *)
Record element_queue := mk_eq {
  elem_mask : Z;
  buf_mask : Z;
  elem_head : Z;
  buf_head : Z;
  elem_tail : Z;
  buf_tail : Z;
}.

(** The contiguous memory area: the shared counters, [u32 elem[n_elems]] and
    [char buf[buf_len]]. *)
Record storage := mk_storage {
  shared : element_queue_shared;
  elems : list Z;
  data : list Z;
}.

Definition set_shared (st : storage) (sh : element_queue_shared) : storage :=
  mk_storage sh (elems st) (data st).
Definition set_data (st : storage) (d : list Z) : storage :=
  mk_storage (shared st) (elems st) d.

(** ** [element_queue.c] *)

(** [__eq_next_offset_by_len]: an element that would cross the end of the ring
    starts at the beginning of the ring. *)
Definition eq_next_offset_by_len (buf_offset mask len : Z) : Z :=
  let last := Z.land (u32 (buf_offset + len - 1)) (not32 mask) in
  if 0 <? s32 (u32 (last - Z.land buf_offset (not32 mask))) then last else buf_offset.

Definition eq_init_shared (st : storage) : storage := set_shared st (mk_shared 0 0 0 0).

(** The masks and the counters of a struct attached to [st]. *)
Definition eq_attach (n_elems buf_len : Z) (st : storage) : element_queue :=
  let sh := shared st in
  mk_eq (u32 (n_elems - 1)) (u32 (buf_len - 1))
        (sh_elem_head sh) (sh_buf_head sh) (sh_elem_tail sh) (sh_buf_tail sh).

(** [eq_init_contig]; a NULL pointer is [None].  Returns the code and the
    initialised struct. *)
Definition eq_init_contig (eq : option element_queue) (n_elems buf_len : Z)
    (st : option storage) : Z * option element_queue :=
  match eq, st with
  | None, _ | _, None => (- EINVAL, eq)
  | Some _, Some st =>
      if negb (is_pow2_or_0 n_elems) then (- EINVAL, eq)
      else if negb (is_pow2_or_0 buf_len) then (- EINVAL, eq)
      else (0, Some (eq_attach n_elems buf_len st))
  end.

(** [eq_contig_size]: 16 bytes of counters, the lengths and the ring,
    truncated to [u32]. *)
Definition eq_contig_size (n_elems buf_len : Z) : Z := u32 (16 + 4 * n_elems + buf_len).

(** [eq_write] past its NULL check. *)
Definition eq_write_nn (q : element_queue) (st : storage) (len : Z)
    : option (Z * element_queue * storage) :=
  let aligned_len := align8 len in
  if buf_mask q <? aligned_len then Some (- EINVAL, q, st)
  else if u32 (elem_mask q + 1) <=? u32 (elem_tail q - elem_head q) then Some (- ENOSPC, q, st)
  else
    let tail := eq_next_offset_by_len (buf_tail q) (buf_mask q) aligned_len in
    if u32 (buf_mask q + 1) <? u32 (tail + aligned_len - buf_head q) then Some (- ENOSPC, q, st)
    else
      elems' ← wr (elems st) (Z.land (elem_tail q) (elem_mask q)) len;
      Some (s32 (Z.land tail (buf_mask q)),
            mk_eq (elem_mask q) (buf_mask q) (elem_head q) (buf_head q)
                  (u32 (elem_tail q + 1)) (u32 (tail + aligned_len)),
            mk_storage (shared st) elems' (data st)).

Definition eq_write (eq : option element_queue) (st : storage) (len : Z)
    : option (Z * option element_queue * storage) :=
  match eq with
  | None => Some (- EINVAL, None, st)
  | Some q =>
      '(r, q', st') ← eq_write_nn q st len;
      Some (r, Some q', st')
  end.

Definition eq_peek (q : element_queue) (st : storage) : option Z :=
  if elem_tail q =? elem_head q then Some (- ENOENT)
  else s32 <$> rd (elems st) (Z.land (elem_head q) (elem_mask q)).

(** [eq_peek_offset]: the offset and the length stored through [lenp]. *)
Definition eq_peek_offset (q : element_queue) (st : storage) : option (Z * option Z) :=
  if elem_tail q =? elem_head q then Some (- ENOENT, None)
  else
    len ← rd (elems st) (Z.land (elem_head q) (elem_mask q));
    let offset := eq_next_offset_by_len (buf_head q) (buf_mask q) (align8 len) in
    Some (s32 (Z.land offset (buf_mask q)), Some len).

(** [eq_read] past its NULL checks: the offset, [*lenp] and the struct. *)
Definition eq_read_nn (q : element_queue) (st : storage)
    : option (Z * option Z * element_queue) :=
  if elem_tail q =? elem_head q then Some (- EAGAIN, None, q)
  else
    len ← rd (elems st) (Z.land (elem_head q) (elem_mask q));
    let aligned_len := align8 len in
    let offset := eq_next_offset_by_len (buf_head q) (buf_mask q) aligned_len in
    Some (s32 (Z.land offset (buf_mask q)), Some len,
          mk_eq (elem_mask q) (buf_mask q) (u32 (elem_head q + 1)) (u32 (offset + aligned_len))
                (elem_tail q) (buf_tail q)).

(** [eq_read]; [lenp] says whether the caller passed a length pointer. *)
Definition eq_read (eq : option element_queue) (lenp : bool) (st : storage)
    : option (Z * option Z * option element_queue) :=
  match eq, lenp with
  | None, _ | _, false => Some (- EINVAL, None, eq)
  | Some q, true =>
      '(r, len, q') ← eq_read_nn q st;
      Some (r, len, Some q')
  end.

(** [eq_move], in a build without assertions: the code, the two structs and
    the storage of the destination. *)
Definition eq_move (to : element_queue) (tst : storage) (from : element_queue) (fst_ : storage)
    : option (Z * element_queue * storage * element_queue) :=
  peek_len ← eq_peek from fst_;
  if peek_len <? 0 then Some (- ENOENT, to, tst, from)
  else
    '(write_offset, to', tst') ← eq_write_nn to tst (u32 peek_len);
    if write_offset =? - ENOSPC then Some (- ENOSPC, to', tst', from)
    else if write_offset <? 0 then Some (- ENOSYS, to', tst', from)
    else
      '(read_offset, olen, from') ← eq_read_nn from fst_;
      let len := default 0 olen in
      if (read_offset <? 0) || negb (len =? u32 peek_len) then Some (- ENOSYS, to', tst', from')
      else
        bs ← mem_read (data fst_) read_offset len;
        d ← mem_write (data tst') write_offset bs;
        Some (s32 len, to', set_data tst' d, from').

(** ** [element_queue.h]: batches *)

Definition eq_start_write_batch (q : element_queue) (st : storage) : element_queue :=
  mk_eq (elem_mask q) (buf_mask q) (sh_elem_head (shared st)) (sh_buf_head (shared st))
        (elem_tail q) (buf_tail q).

Definition eq_finish_write_batch (q : element_queue) (st : storage) : storage :=
  set_shared st (mk_shared (sh_elem_head (shared st)) (sh_buf_head (shared st))
                           (elem_tail q) (buf_tail q)).

Definition eq_start_read_batch (q : element_queue) (st : storage) : element_queue :=
  mk_eq (elem_mask q) (buf_mask q) (elem_head q) (buf_head q)
        (sh_elem_tail (shared st)) (buf_tail q).

Definition eq_finish_read_batch (q : element_queue) (st : storage) : storage :=
  set_shared st (mk_shared (elem_head q) (buf_head q)
                           (sh_elem_tail (shared st)) (sh_buf_tail (shared st))).

(** The condition [(int)tail - head >= 0] of the batch assertions: the [int]
    is converted back to [u32] by the subtraction. *)
Definition batch_assert (tail head : Z) : bool := 0 <=? u32 (s32 tail - head).

Definition eq_elem_count (q : element_queue) : Z := u32 (elem_tail q - elem_head q).
Definition eq_elem_capacity (q : element_queue) : Z := u32 (elem_mask q + 1).
Definition eq_buf_used (q : element_queue) : Z := u32 (buf_tail q - buf_head q).
Definition eq_buf_capacity (q : element_queue) : Z := u32 (buf_mask q + 1).

(** ** [element_queue_cpp.h] *)

(** [MemElementQueueStorage]: a zeroed area with initialised counters; [None]
    when the allocated size, truncated to 32 bits, is not the size used. *)
Definition MemElementQueueStorage (n_elems buf_len : Z) : option storage :=
  if eq_contig_size n_elems buf_len =? 16 + 4 * n_elems + buf_len
  then Some (eq_init_shared (mk_storage (mk_shared 0 0 0 0)
               (replicate (Z.to_nat n_elems) 0) (replicate (Z.to_nat buf_len) 0)))
  else None.

(** The constructor [ElementQueue]: throws ([None]) when the initialiser fails. *)
Definition ElementQueue_new (n_elems buf_len : Z) (st : storage) : option element_queue :=
  match eq_init_contig (Some (mk_eq 0 0 0 0 0 0)) n_elems buf_len (Some st) with
  | (r, Some q) => if r =? 0 then Some q else None
  | (_, None) => None
  end.

(** [ElementQueue::write]: the code, the writer and the storage. *)
Definition write (q : element_queue) (st : storage) (elem : list Z)
    : option (Z * element_queue * storage) :=
  '(offset, q', st') ← eq_write_nn q st (u32 (zlen elem));
  if offset <? 0 then Some (offset, q', st')
  else
    d ← mem_write (data st') offset elem;
    Some (0, q', set_data st' d).

(** What [ElementQueue::read] does: an element, or one of its exceptions. *)
Inductive read_result :=
| ReadElem (elem : list Z)
| ThrowInvalidArgument
| ThrowOutOfRange
| ThrowRuntimeError.

Definition read (q : element_queue) (st : storage) : option (read_result * element_queue) :=
  '(offset, olen, q') ← eq_read_nn q st;
  if offset =? - EINVAL then Some (ThrowInvalidArgument, q')
  else if offset =? - EAGAIN then Some (ThrowOutOfRange, q')
  else if offset <? 0 then Some (ThrowRuntimeError, q')
  else
    bs ← mem_read (data st) offset (default 0 olen);
    Some (ReadElem bs, q').

(** [ElementQueue::peek(char *&)]: the code and the bytes pointed to. *)
Definition peek (q : element_queue) (st : storage) : option (Z * option (list Z)) :=
  '(offset, olen) ← eq_peek_offset q st;
  if offset <? 0 then Some (offset, None)
  else
    bs ← mem_read (data st) offset (default 0 olen);
    Some (s32 (default 0 olen), Some bs).

(** ** Specification

    The abstract queue is one sequence of elements cut into five segments by
    the counters, from the oldest to the newest:
    [s_rel] released by the reader, not yet noticed by the writer;
    [s_done] read in the current read batch;
    [s_avail] available to the reader;
    [s_pub] published, not yet noticed by the reader;
    [s_pend] written in the current write batch. *)
Record fifo := mk_fifo {
  s_rel : list (list Z);
  s_done : list (list Z);
  s_avail : list (list Z);
  s_pub : list (list Z);
  s_pend : list (list Z);
}.

Definition fifo_all (f : fifo) : list (list Z) :=
  s_rel f ++ s_done f ++ s_avail f ++ s_pub f ++ s_pend f.

Definition fifo_empty : fifo := mk_fifo [] [] [] [] [].

(** The bytes of an element in the ring. *)
Definition al (e : list Z) : Z := align8 (zlen e).

(** Where an element of [alen] bytes goes when the byte counter is [b], on
    unbounded counters. *)
Definition place (sz b alen : Z) : Z :=
  if b / sz <? (b + alen - 1) / sz then sz * ((b + alen - 1) / sz) else b.

(** The byte counter after the elements [es]. *)
Fixpoint bend (sz b : Z) (es : list (list Z)) : Z :=
  match es with
  | [] => b
  | e :: es => bend sz (place sz b (al e) + al e) es
  end.

(** An element the ring accepts. *)
Definition elem_ok (sz : Z) (e : list Z) : Prop := zlen e < 2 ^ 32 - 7 /\ al e < sz.

(** The elements [es] are in the area from the counters [eh] and [b] on. *)
Fixpoint stored (ne sz : Z) (st : storage) (eh b : Z) (es : list (list Z)) : Prop :=
  match es with
  | [] => True
  | e :: es =>
      elem_ok sz e /\
      rd (elems st) (eh mod ne) = Some (zlen e) /\
      mem_read (data st) (place sz b (al e) mod sz) (zlen e) = Some e /\
      stored ne sz st (eh + 1) (place sz b (al e) + al e) es
  end.

(** A queue of [2^a] elements over a ring of [2^k] bytes.  Rings of 2 GiB are
    excluded: see [eq_next_offset_2GiB]. *)
Definition geometry (ne sz : Z) : Prop :=
  exists a k, 0 <= a < 32 /\ 0 <= k <= 30 /\ ne = 2 ^ a /\ sz = 2 ^ k.

(** The writer [w], the reader [r] and the area [st] implement [f]; [eh] and
    [bh] are the unbounded counters of the oldest element. *)
Record eq_rep (ne sz : Z) (w r : element_queue) (st : storage) (f : fifo) (eh bh : Z) : Prop := {
  rep_geo : geometry ne sz;
  rep_wm : elem_mask w = ne - 1 /\ buf_mask w = sz - 1;
  rep_rm : elem_mask r = ne - 1 /\ buf_mask r = sz - 1;
  rep_elems : zlen (elems st) = ne;
  rep_data : zlen (data st) = sz;
  rep_wh : elem_head w = u32 eh /\ buf_head w = u32 bh;
  rep_sh : sh_elem_head (shared st) = u32 (eh + zlen (s_rel f)) /\
           sh_buf_head (shared st) = u32 (bend sz bh (s_rel f));
  rep_rh : elem_head r = u32 (eh + zlen (s_rel f ++ s_done f)) /\
           buf_head r = u32 (bend sz bh (s_rel f ++ s_done f));
  rep_rt : elem_tail r = u32 (eh + zlen (s_rel f ++ s_done f ++ s_avail f));
  rep_st : sh_elem_tail (shared st) = u32 (eh + zlen (s_rel f ++ s_done f ++ s_avail f ++ s_pub f)) /\
           sh_buf_tail (shared st) = u32 (bend sz bh (s_rel f ++ s_done f ++ s_avail f ++ s_pub f));
  rep_wt : elem_tail w = u32 (eh + zlen (fifo_all f)) /\
           buf_tail w = u32 (bend sz bh (fifo_all f));
  rep_count : zlen (fifo_all f) <= ne;
  rep_bytes : bend sz bh (fifo_all f) <= bh + sz;
  rep_stored : stored ne sz st eh bh (fifo_all f);
}.

(** ** Placement *)

Section placement.
Context (sz k : Z) (Hk : 0 <= k <= 30) (Hsz : sz = 2 ^ k).

Lemma sz_range : 0 < sz <= 2 ^ 30.
Proof. subst. pose proof (pow2_pos k). pose proof (Z.pow_le_mono_r 2 k 30). lia. Qed.

(** An element crosses at most one boundary of the ring. *)
Lemma block_step b alen :
  0 <= alen < sz -> b / sz - 1 <= (b + alen - 1) / sz <= b / sz + 1.
Proof.
  intros H. pose proof sz_range.
  pose proof (Z.div_mod b sz). pose proof (Z.div_mod (b + alen - 1) sz).
  pose proof (Z.mod_pos_bound b sz). pose proof (Z.mod_pos_bound (b + alen - 1) sz). nia.
Qed.

Lemma u32_sub_mod x : u32 x - x mod sz = u32 (sz * (x / sz)).
Proof.
  pose proof sz_range.
  assert (Hm : u32 x mod sz = x mod sz).
  { unfold u32. subst sz. apply mod_pow2_mod. lia. }
  pose proof (u32_range x). pose proof (Z.div_mod x sz). pose proof (Z.mod_pos_bound x sz).
  pose proof (Z.mod_le (u32 x) sz).
  rewrite <- (u32_small (u32 x - x mod sz)) by lia.
  wrap32. f_equal. lia.
Qed.

(** The C computation of the next offset on wrapped counters is the
    placement on unbounded ones. *)
Lemma next_offset_place b alen :
  0 <= alen < sz ->
  eq_next_offset_by_len (u32 b) (sz - 1) alen = u32 (place sz b alen).
Proof.
  intros Ha. unfold eq_next_offset_by_len, place.
  pose proof sz_range. pose proof (block_step b alen Ha).
  replace (u32 (u32 b + alen - 1)) with (u32 (b + alen - 1))
    by (rewrite <- !Z.add_sub_assoc; by wrap32).
  rewrite Hsz. rewrite !land_not_mask_u32 by lia. rewrite <- Hsz, !u32_sub_mod.
  wrap32. set (q1 := (b + alen - 1) / sz) in *. set (q0 := b / sz) in *.
  assert (Hs : s32 (sz * q1 - sz * q0) = sz * q1 - sz * q0) by (apply s32_small; nia).
  rewrite s32_u32, Hs. destruct (Z.ltb_spec 0 (sz * q1 - sz * q0)), (Z.ltb_spec q0 q1); nia || done.
Qed.

Lemma place_ge b alen : 0 <= alen < sz -> b <= place sz b alen.
Proof.
  intros. unfold place. pose proof sz_range. pose proof (block_step b alen).
  pose proof (Z.div_mod b sz). pose proof (Z.mod_pos_bound b sz).
  destruct (Z.ltb_spec (b / sz) ((b + alen - 1) / sz)); nia.
Qed.

Lemma place_lt b alen : 0 <= alen < sz -> place sz b alen + alen < b + 2 * sz.
Proof.
  intros. unfold place. pose proof sz_range.
  pose proof (Z.div_mod (b + alen - 1) sz). pose proof (Z.mod_pos_bound (b + alen - 1) sz).
  destruct (Z.ltb_spec (b / sz) ((b + alen - 1) / sz)); nia.
Qed.

(** A placed element does not straddle the end of the ring. *)
Lemma place_fits b alen : 0 <= alen < sz -> place sz b alen mod sz + alen <= sz.
Proof.
  intros Ha. pose proof sz_range as Hr.
  pose proof (Z.mod_pos_bound (place sz b alen) sz) as Hp.
  unfold place in *.
  destruct (Z.ltb_spec (b / sz) ((b + alen - 1) / sz)) as [Hlt|Hge].
  - rewrite (Z.mul_comm sz), Z.mod_mul in * by lia. lia.
  - destruct (decide (alen = 0)); [lia|].
    pose proof (Z.div_mod b sz). pose proof (Z.div_mod (b + alen - 1) sz).
    pose proof (Z.mod_pos_bound (b + alen - 1) sz). pose proof (Z.mod_pos_bound b sz).
    assert ((b + alen - 1) / sz = b / sz); [|nia].
    apply Z.le_antisymm; [lia|]. apply Z.div_le_mono; lia.
Qed.

(** Two elements placed in one window of [sz] bytes occupy disjoint parts of
    the ring. *)
Lemma window_disjoint p lp q lq :
  0 <= lp -> 0 <= lq ->
  p mod sz + lp <= sz -> q mod sz + lq <= sz ->
  p + lp <= q -> q + lq <= p + sz ->
  p mod sz + lp <= q mod sz \/ q mod sz + lq <= p mod sz.
Proof.
  intros Hlp Hlq Hp Hq Hpq Hw. pose proof sz_range as Hr.
  pose proof (Z.div_mod p sz). pose proof (Z.div_mod q sz).
  pose proof (Z.mod_pos_bound p sz). pose proof (Z.mod_pos_bound q sz).
  set (dp := p / sz) in *. set (dq := q / sz) in *.
  assert (dq = dp \/ dq = dp + 1) as [-> | ->] by nia; lia.
Qed.
End placement.

Lemma bend_app sz b xs ys : bend sz b (xs ++ ys) = bend sz (bend sz b xs) ys.
Proof. revert b. induction xs as [|e xs IH]; intros b; [done|]. apply IH. Qed.

Lemma al_nonneg e : 0 <= al e.
Proof. apply align8_nonneg. Qed.

Lemma geometry_range ne sz : geometry ne sz -> 0 < ne < 2 ^ 32 /\ 0 < sz <= 2 ^ 30.
Proof.
  intros (a & k & Ha & Hk & -> & ->).
  pose proof (pow2_pos a). pose proof (Z.pow_lt_mono_r 2 a 32).
  pose proof (sz_range (2 ^ k) k Hk eq_refl). lia.
Qed.

(** ** What is stored *)

Section stored.
Context (ne sz : Z) (Hgeo : geometry ne sz).

Lemma bend_ge st eh b es : stored ne sz st eh b es -> b <= bend sz b es.
Proof.
  destruct Hgeo as (a & k & Ha & Hk & -> & Hsz). revert eh b.
  induction es as [|e es IH]; intros eh b; simpl; [lia|].
  intros ([_ Hal] & _ & _ & Hst). apply IH in Hst.
  pose proof (al_nonneg e). pose proof (place_ge sz k Hk Hsz b (al e)). lia.
Qed.

Lemma stored_app st eh b xs ys :
  stored ne sz st eh b (xs ++ ys) <->
  stored ne sz st eh b xs /\ stored ne sz st (eh + zlen xs) (bend sz b xs) ys.
Proof.
  revert eh b. induction xs as [|e xs IH]; intros eh b; simpl.
  { unfold zlen. simpl. rewrite Z.add_0_r. naive_solver. }
  rewrite IH. replace (eh + zlen (e :: xs)) with (eh + 1 + zlen xs)
    by (unfold zlen; simpl; lia). naive_solver.
Qed.

(** [stored] depends only on the two arrays. *)
Lemma stored_ext st st' eh b es :
  elems st' = elems st -> data st' = data st ->
  stored ne sz st eh b es -> stored ne sz st' eh b es.
Proof.
  intros He Hd. revert eh b. induction es as [|e es IH]; intros eh b; simpl; [done|].
  rewrite He, Hd. naive_solver.
Qed.

(** Writing one more length and one more element leaves the elements of the
    same window in place. *)
Lemma stored_frame st st' eh0 b0 et len p bs eh b es :
  elems st' = <[Z.to_nat (et mod ne) := len]> (elems st) ->
  mem_write (data st) (p mod sz) bs = Some (data st') ->
  p mod sz + zlen bs <= sz -> p + zlen bs <= b0 + sz -> et < eh0 + ne ->
  eh0 <= eh -> b0 <= b -> eh + zlen es <= et -> bend sz b es <= p ->
  stored ne sz st eh b es -> stored ne sz st' eh b es.
Proof.
  intros He Hd Hfit Hwin Hcnt. destruct (geometry_range _ _ Hgeo) as [Hne Hszr].
  revert eh b. induction es as [|e es IH]; intros eh b Heh Hb Het Hp; simpl in *; [done|].
  intros (Hok & Hrd & Hmr & Hst). pose proof Hok as [Hzs Hal].
  assert (Hz : zlen (e :: es) = 1 + zlen es) by (unfold zlen; simpl; lia).
  pose proof (zlen_nonneg es). pose proof (zlen_nonneg bs). pose proof (zlen_nonneg e).
  pose proof Hgeo as (a & k & Ha & Hk & Hna & Hsz).
  pose proof (al_nonneg e) as Hal0.
  pose proof (place_ge sz k Hk Hsz b (al e) (conj Hal0 Hal)).
  pose proof (place_fits sz k Hk Hsz b (al e) (conj Hal0 Hal)).
  pose proof (bend_ge _ _ _ _ Hst).
  pose proof (align8_bounds (zlen e)) as Hzl. fold (al e) in Hzl.
  split_and!; [done| | |].
  - rewrite He. unfold rd in *. pose proof (Z.mod_pos_bound eh ne).
    pose proof (Z.mod_pos_bound et ne). pose proof (mod_neq eh et ne).
    destruct (Z.leb_spec 0 (eh mod ne)); [|lia].
    rewrite list_lookup_insert_ne; [done|]. lia.
  - rewrite <- Hmr. eapply mem_read_write_disjoint; [done|].
    destruct (window_disjoint sz k Hk Hsz (place sz b (al e)) (zlen e) p (zlen bs)); lia.
  - apply IH; [lia..|]. done.
Qed.
End stored.

(** ** Operations refine the five-segment queue *)

Definition fifo_write (f : fifo) (e : list Z) : fifo :=
  mk_fifo (s_rel f) (s_done f) (s_avail f) (s_pub f) (s_pend f ++ [e]).
Definition fifo_start_write (f : fifo) : fifo :=
  mk_fifo [] (s_done f) (s_avail f) (s_pub f) (s_pend f).
Definition fifo_finish_write (f : fifo) : fifo :=
  mk_fifo (s_rel f) (s_done f) (s_avail f) (s_pub f ++ s_pend f) [].
Definition fifo_start_read (f : fifo) : fifo :=
  mk_fifo (s_rel f) (s_done f) (s_avail f ++ s_pub f) [] (s_pend f).
Definition fifo_read (f : fifo) (e : list Z) (rest : list (list Z)) : fifo :=
  mk_fifo (s_rel f) (s_done f ++ [e]) rest (s_pub f) (s_pend f).
Definition fifo_finish_read (f : fifo) : fifo :=
  mk_fifo (s_rel f ++ s_done f) [] (s_avail f) (s_pub f) (s_pend f).

(** The writer sees room for [e]. *)
Definition fits (ne sz bh : Z) (f : fifo) (e : list Z) : Prop :=
  zlen (fifo_all f) < ne /\ place sz (bend sz bh (fifo_all f)) (al e) + al e <= bh + sz.

Lemma fifo_all_write f e : fifo_all (fifo_write f e) = fifo_all f ++ [e].
Proof. unfold fifo_all. simpl. by rewrite <- !app_assoc. Qed.

Section operations.
Context {ne sz : Z} {w r : element_queue} {st : storage} {f : fifo} {eh bh : Z}.
Context (Hrep : eq_rep ne sz w r st f eh bh).

Lemma write_counts :
  u32 (elem_mask w + 1) = ne /\ u32 (elem_tail w - elem_head w) = zlen (fifo_all f) /\
  u32 (buf_mask w + 1) = sz /\ Z.land (elem_tail w) (elem_mask w) = (eh + zlen (fifo_all f)) mod ne.
Proof.
  destruct Hrep as [Hgeo [Hem Hbm] _ _ _ [Heh _] _ _ _ _ [Het _] Hc _ _].
  pose proof (geometry_range _ _ Hgeo) as [Hne Hsz]. pose proof (zlen_nonneg (fifo_all f)).
  rewrite Hem, Hbm, Het, Heh, !Z.sub_add. wrap32.
  replace (eh + zlen (fifo_all f) - eh) with (zlen (fifo_all f)) by lia.
  rewrite !u32_small by lia. split_and!; try done.
  destruct Hgeo as (a & k & Ha & Hk & -> & ->). apply land_mask_u32. lia.
Qed.

(** The byte-space check of [eq_write] computes without overflow. *)
Lemma write_space e :
  al e < sz ->
  let p := place sz (bend sz bh (fifo_all f)) (al e) in
  eq_next_offset_by_len (buf_tail w) (buf_mask w) (al e) = u32 p /\
  u32 (u32 p + al e - buf_head w) = p + al e - bh /\
  s32 (Z.land (u32 p) (buf_mask w)) = p mod sz /\ bh <= p.
Proof.
  intros Hal p. destruct Hrep as [Hgeo [_ Hbm] _ _ _ [_ Hbh] _ _ _ _ [_ Hbt] _ Hb Hst].
  pose proof (bend_ge _ _ Hgeo _ _ _ _ Hst). pose proof (al_nonneg e) as Ha0.
  destruct Hgeo as (a & k & Ha & Hk & Hna & Hsz).
  pose proof (sz_range _ k Hk Hsz).
  pose proof (place_ge sz k Hk Hsz (bend sz bh (fifo_all f)) (al e) (conj Ha0 Hal)) as Hge.
  pose proof (place_lt sz k Hk Hsz (bend sz bh (fifo_all f)) (al e) (conj Ha0 Hal)) as Hlt.
  fold p in Hge, Hlt.
  rewrite Hbt, Hbm, Hbh, (next_offset_place sz k Hk Hsz) by lia. fold p.
  split_and!; [done| |
    rewrite Hsz, land_mask_u32 by lia; rewrite <- Hsz; apply s32_small;
    pose proof (Z.mod_pos_bound p sz); lia|lia].
  wrap32. rewrite <- Z.add_sub_assoc. wrap32. rewrite Z.add_sub_assoc. apply u32_small. lia.
Qed.

(** A successful write keeps the representation. *)
Lemma write_rep e d :
  zlen e < 2 ^ 32 - 7 -> al e < sz -> fits ne sz bh f e ->
  let p := place sz (bend sz bh (fifo_all f)) (al e) in
  mem_write (data st) (p mod sz) e = Some d ->
  eq_rep ne sz
    (mk_eq (elem_mask w) (buf_mask w) (elem_head w) (buf_head w)
           (u32 (elem_tail w + 1)) (u32 (u32 p + al e)))
    r (mk_storage (shared st)
         (<[Z.to_nat ((eh + zlen (fifo_all f)) mod ne) := zlen e]> (elems st)) d)
    (fifo_write f e) eh bh.
Proof.
  intros Hz Hal [Hfit1 Hfit2] p Hmw.
  pose proof (al_nonneg e) as Ha0. pose proof (align8_bounds (zlen e)) as Hzl. fold (al e) in Hzl.
  pose proof (zlen_nonneg e). pose proof (zlen_nonneg (fifo_all f)).
  destruct Hrep as [Hgeo Hwm Hrm Hel Hda Hwh Hsh Hrh Hrt Hst_ [Het Hbt] Hc Hb Hst].
  pose proof (geometry_range _ _ Hgeo) as [Hne Hszr].
  pose proof Hgeo as (a & k & Ha & Hk & Hna & Hsz).
  pose proof (place_fits sz k Hk Hsz (bend sz bh (fifo_all f)) (al e) (conj Ha0 Hal)) as Hfits.
  pose proof (place_ge sz k Hk Hsz (bend sz bh (fifo_all f)) (al e) (conj Ha0 Hal)) as Hge.
  fold p in Hfits, Hge, Hfit2.
  split; simpl; try done.
  - by rewrite zlen_insert.
  - rewrite <- Hda. eapply mem_write_zlen. done.
  - rewrite fifo_all_write, zlen_app, bend_app, Het. simpl. fold p.
    wrap32. split; [|done]. f_equal. unfold zlen at 3. simpl. lia.
  - rewrite fifo_all_write, zlen_app. unfold zlen at 2. simpl. lia.
  - rewrite fifo_all_write, bend_app. simpl. fold p. lia.
  - rewrite fifo_all_write, stored_app by done. split.
    + eapply (stored_frame ne sz Hgeo st _ eh bh (eh + zlen (fifo_all f)) (zlen e) p e);
        simpl; try done; lia.
    + simpl. fold p. split_and!; try done.
      * unfold rd. pose proof (Z.mod_pos_bound (eh + zlen (fifo_all f)) ne).
        destruct (Z.leb_spec 0 ((eh + zlen (fifo_all f)) mod ne)); [|lia].
        apply list_lookup_insert_eq. unfold zlen in *. lia.
      * eapply mem_read_write_eq. done.
Qed.

(** [eq_write]: the three outcomes, and what filling the returned buffer
    with the element gives. *)
Lemma eq_write_cases e :
  zlen e < 2 ^ 32 - 7 ->
  (sz <= al e /\ eq_write_nn w st (zlen e) = Some (- EINVAL, w, st)) \/
  (al e < sz /\ ~ fits ne sz bh f e /\ eq_write_nn w st (zlen e) = Some (- ENOSPC, w, st)) \/
  (al e < sz /\ fits ne sz bh f e /\ exists off w' st' d,
     eq_write_nn w st (zlen e) = Some (off, w', st') /\ 0 <= off /\
     mem_write (data st') off e = Some d /\
     eq_rep ne sz w' r (set_data st' d) (fifo_write f e) eh bh).
Proof.
  intros Hz. pose proof (zlen_nonneg e). unfold eq_write_nn. fold (al e).
  destruct write_counts as (-> & -> & -> & ->).
  destruct (rep_wm _ _ _ _ _ _ _ _ Hrep) as [_ Hbm]. rewrite Hbm.
  destruct (Z.ltb_spec (sz - 1) (al e)); [left; split; [lia|done]|right].
  rewrite <- Hbm. destruct (write_space e) as (-> & Hsp & Hoff & Hge); [lia|].
  set (p := place sz (bend sz bh (fifo_all f)) (al e)) in *. rewrite Hsp.
  destruct (Z.leb_spec ne (zlen (fifo_all f))).
  { left. unfold fits. split_and!; done || lia. }
  destruct (Z.ltb_spec sz (p + al e - bh)).
  { left. unfold fits. fold p. split_and!; done || lia. }
  right. assert (Hfit : fits ne sz bh f e) by (unfold fits; fold p; lia).
  split_and!; [lia|done|].
  pose proof (geometry_range _ _ (rep_geo _ _ _ _ _ _ _ _ Hrep)) as [Hne Hszr].
  rewrite wr_in_range by
    (rewrite (rep_elems _ _ _ _ _ _ _ _ Hrep); apply Z.mod_pos_bound; lia).
  simpl. rewrite Hoff. pose proof (Z.mod_pos_bound p sz).
  destruct (rep_geo _ _ _ _ _ _ _ _ Hrep) as (a & k & Ha & Hk & Hna & Hsz).
  pose proof (place_fits sz k Hk Hsz (bend sz bh (fifo_all f)) (al e)
                ltac:(pose proof (al_nonneg e); lia)) as Hpf. fold p in Hpf.
  pose proof (align8_bounds (zlen e)) as Hab. fold (al e) in Hab.
  destruct (mem_write_spec (data st) (p mod sz) e) as (d & Hd & _ & _);
    [lia|rewrite (rep_data _ _ _ _ _ _ _ _ Hrep); lia|].
  eexists _, _, _, d. split_and!; [done|lia|done|]. apply write_rep; done || lia.
Qed.

(** [ElementQueue::write] never leaves the area, and its three outcomes are
    exactly: accepted, too long, no room. *)
Lemma write_refines e :
  zlen e < 2 ^ 32 - 7 ->
  exists code w' st', write w st e = Some (code, w', st') /\
    ((code = 0 /\ al e < sz /\ fits ne sz bh f e /\
      eq_rep ne sz w' r st' (fifo_write f e) eh bh) \/
     (code = - EINVAL /\ sz <= al e /\ w' = w /\ st' = st) \/
     (code = - ENOSPC /\ al e < sz /\ ~ fits ne sz bh f e /\ w' = w /\ st' = st)).
Proof.
  intros Hz. pose proof (zlen_nonneg e). unfold write. rewrite (u32_small (zlen e)) by lia.
  destruct (eq_write_cases e Hz) as
    [(Hb & ->) | [(Hb & Hnf & ->) | (Hb & Hf & off & w' & st' & d & -> & Hoff & Hd & Hr)]];
    simpl; [eexists _, _, _; split; [done|]; naive_solver..|].
  destruct (Z.ltb_spec off 0); [lia|]. rewrite Hd. simpl.
  eexists _, _, _. split; [done|]. by left.
Qed.

(** The reader's emptiness test is exact. *)
Lemma read_empty : elem_tail r = elem_head r <-> s_avail f = [].
Proof.
  destruct Hrep as [Hgeo _ _ _ _ _ _ [Hrh _] Hrt _ _ Hc _ _].
  pose proof (geometry_range _ _ Hgeo) as [Hne _].
  rewrite Hrh, Hrt. unfold fifo_all in Hc. rewrite !zlen_app in *.
  pose proof (zlen_nonneg (s_rel f)). pose proof (zlen_nonneg (s_done f)).
  pose proof (zlen_nonneg (s_avail f)). pose proof (zlen_nonneg (s_pub f)).
  pose proof (zlen_nonneg (s_pend f)). split.
  - intros Heq%u32_eq_small; [|lia]. apply nil_length_inv. unfold zlen in *. lia.
  - intros ->. f_equal. unfold zlen. simpl. lia.
Qed.

(** The oldest available element, as the reader finds it. *)
Lemma read_head e rest :
  s_avail f = e :: rest ->
  let p := place sz (bend sz bh (s_rel f ++ s_done f)) (al e) in
  rd (elems st) (Z.land (elem_head r) (elem_mask r)) = Some (zlen e) /\
  eq_next_offset_by_len (buf_head r) (buf_mask r) (al e) = u32 p /\
  s32 (Z.land (u32 p) (buf_mask r)) = p mod sz /\ 0 <= p mod sz /\
  mem_read (data st) (p mod sz) (zlen e) = Some e.
Proof.
  intros Hav p. pose proof (al_nonneg e).
  destruct Hrep as [Hgeo _ [Hem Hbm] _ _ _ _ [Hrh Hrb] _ _ _ _ _ Hst].
  unfold fifo_all in Hst. rewrite app_assoc, Hav in Hst. simpl in Hst.
  apply stored_app in Hst as [_ Hst]. simpl in Hst.
  destruct Hst as ([_ Hal] & Hlen & Hbytes & _). fold p in Hbytes.
  destruct Hgeo as (a & k & Ha & Hk & Hna & Hsz). pose proof (sz_range _ k Hk Hsz).
  pose proof (Z.mod_pos_bound p sz).
  rewrite Hem, Hbm, Hrh, Hrb, (next_offset_place sz k Hk Hsz) by lia. fold p.
  rewrite Hna, land_mask_u32, <- Hna by lia.
  rewrite Hsz, land_mask_u32, <- Hsz by lia.
  split_and!; try done; try apply s32_small; lia.
Qed.

Lemma read_rep e rest :
  s_avail f = e :: rest ->
  let p := place sz (bend sz bh (s_rel f ++ s_done f)) (al e) in
  eq_rep ne sz w
    (mk_eq (elem_mask r) (buf_mask r) (u32 (elem_head r + 1)) (u32 (u32 p + al e))
           (elem_tail r) (buf_tail r))
    st (fifo_read f e rest) eh bh.
Proof.
  intros Hav p.
  assert (Hall : fifo_all (fifo_read f e rest) = fifo_all f).
  { unfold fifo_all. simpl. rewrite Hav. by rewrite <- !app_assoc. }
  destruct Hrep as [Hgeo Hwm Hrm Hel Hda Hwh Hsh [Hrh Hrb] Hrt Hst_ Hwt Hc Hb Hst].
  split; rewrite ?Hall; simpl; try done.
  - rewrite app_assoc, zlen_app, bend_app, Hrh. simpl. fold p. wrap32. split; [|done].
    f_equal. unfold zlen at 3. simpl. lia.
  - rewrite Hrt, Hav. simpl. by rewrite <- !app_assoc.
  - rewrite Hav in Hst_. by rewrite <- !app_assoc.
Qed.

(** [ElementQueue::read] delivers the oldest available element, intact. *)
Lemma read_refines :
  match s_avail f with
  | [] => read r st = Some (ThrowOutOfRange, r)
  | e :: rest => exists r', read r st = Some (ReadElem e, r') /\
                   eq_rep ne sz w r' st (fifo_read f e rest) eh bh
  end.
Proof.
  unfold read, eq_read_nn. destruct (Z.eqb_spec (elem_tail r) (elem_head r)) as [Heq|Hne].
  { apply read_empty in Heq. rewrite Heq. done. }
  destruct (s_avail f) as [|e rest] eqn:Hav; [by apply read_empty in Hav|].
  destruct (read_head e rest Hav) as (-> & Hoff & Hs & Hp & Hmr).
  simpl. fold (al e). rewrite Hoff, Hs.
  set (p := place sz (bend sz bh (s_rel f ++ s_done f)) (al e)) in *.
  destruct (Z.eqb_spec (p mod sz) (- EINVAL)); [unfold EINVAL in *; lia|].
  destruct (Z.eqb_spec (p mod sz) (- EAGAIN)); [unfold EAGAIN in *; lia|].
  destruct (Z.ltb_spec (p mod sz) 0); [lia|]. rewrite Hmr. simpl.
  eexists. split; [done|]. by apply read_rep.
Qed.

Lemma zlen_elem_small e rest : s_avail f = e :: rest -> zlen e < 2 ^ 30.
Proof.
  intros Hav. destruct Hrep as [Hgeo _ _ _ _ _ _ _ _ _ _ _ _ Hst].
  pose proof (geometry_range _ _ Hgeo) as [_ Hsz].
  unfold fifo_all in Hst. rewrite app_assoc, Hav in Hst.
  apply stored_app in Hst as [_ ([Hz Hal] & _)].
  pose proof (align8_bounds (zlen e)) as Hb. fold (al e) in Hb. pose proof (zlen_nonneg e). lia.
Qed.

(** [ElementQueue::peek] shows that element without consuming it. *)
Lemma peek_refines :
  peek r st = match s_avail f with
              | [] => Some (- ENOENT, None)
              | e :: _ => Some (zlen e, Some e)
              end /\
  eq_peek r st = match s_avail f with
                 | [] => Some (- ENOENT)
                 | e :: _ => Some (zlen e)
                 end.
Proof.
  unfold peek, eq_peek_offset, eq_peek.
  destruct (Z.eqb_spec (elem_tail r) (elem_head r)) as [Heq|Hne].
  { apply read_empty in Heq. rewrite Heq. done. }
  destruct (s_avail f) as [|e rest] eqn:Hav; [by apply read_empty in Hav|].
  destruct (read_head e rest Hav) as (-> & Hoff & Hs & Hp & Hmr).
  pose proof (zlen_elem_small e rest Hav). pose proof (zlen_nonneg e).
  simpl. fold (al e). rewrite Hoff, Hs, (s32_small (zlen e)) by lia.
  split; [|done].
  destruct (Z.ltb_spec (place sz (bend sz bh (s_rel f ++ s_done f)) (al e) mod sz) 0); [lia|].
  by rewrite Hmr.
Qed.
End operations.

(** ** Batches *)

Section batches.
Context {ne sz : Z} {w r : element_queue} {st : storage} {f : fifo} {eh bh : Z}.
Context (Hrep : eq_rep ne sz w r st f eh bh).

Lemma start_write_rep :
  eq_rep ne sz (eq_start_write_batch w st) r st (fifo_start_write f)
    (eh + zlen (s_rel f)) (bend sz bh (s_rel f)).
Proof.
  destruct Hrep as [Hgeo Hwm Hrm Hel Hda Hwh Hsh Hrh Hrt Hst_ [Het Hbt] Hc Hb Hst].
  unfold fifo_all in *. pose proof Hst as [Hs1 Hs2]%stored_app.
  pose proof (bend_ge _ _ Hgeo _ _ _ _ Hs1). pose proof (zlen_nonneg (s_rel f)).
  assert (Hz : forall xs, eh + zlen (s_rel f ++ xs) = eh + zlen (s_rel f) + zlen xs)
    by (intros; rewrite zlen_app; lia).
  rewrite Hz, bend_app in *. rewrite zlen_app in Hc.
  split; simpl; try done; [|unfold fifo_all; simpl; lia..].
  by rewrite Z.add_0_r.
Qed.

Lemma finish_write_rep :
  eq_rep ne sz w r (eq_finish_write_batch w st) (fifo_finish_write f) eh bh.
Proof.
  destruct Hrep as [Hgeo Hwm Hrm Hel Hda Hwh Hsh Hrh Hrt Hst_ [Het Hbt] Hc Hb Hst].
  assert (Hall : fifo_all (fifo_finish_write f) = fifo_all f).
  { unfold fifo_all. simpl. by rewrite app_nil_r. }
  split; rewrite ?Hall; simpl; try done. by apply (stored_ext _ _ st).
Qed.

Lemma start_read_rep :
  eq_rep ne sz w (eq_start_read_batch r st) st (fifo_start_read f) eh bh.
Proof.
  destruct Hrep as [Hgeo Hwm Hrm Hel Hda Hwh Hsh Hrh Hrt [Het Hbt] Hwt Hc Hb Hst].
  assert (Hall : fifo_all (fifo_start_read f) = fifo_all f).
  { unfold fifo_all. simpl. by rewrite <- app_assoc. }
  split; rewrite ?Hall; simpl; rewrite ?app_nil_r; try done.
Qed.

Lemma finish_read_rep :
  eq_rep ne sz w r (eq_finish_read_batch r st) (fifo_finish_read f) eh bh.
Proof.
  destruct Hrep as [Hgeo Hwm Hrm Hel Hda Hwh Hsh Hrh Hrt Hst_ Hwt Hc Hb Hst].
  assert (Hall : fifo_all (fifo_finish_read f) = fifo_all f).
  { unfold fifo_all. simpl. by rewrite <- app_assoc. }
  split; rewrite ?Hall; simpl; rewrite ?app_nil_r, <- ?app_assoc; try done.
  by apply (stored_ext _ _ st).
Qed.
End batches.

(** ** The queue as a system

    One producer and one consumer, each with its own struct over the shared
    area; their operations interleave freely. *)
Record sys := mk_sys { sw : element_queue; sr : element_queue; sst : storage }.

Inductive op :=
| StartWrite
| Write (e : list Z)
| FinishWrite
| StartRead
| Read
| FinishRead.

Inductive event :=
| Accepted (e : list Z)
| Delivered (e : list Z)
| Quiet.

Definition sys_step (s : sys) (o : op) : option (sys * event) :=
  match o with
  | StartWrite => Some (mk_sys (eq_start_write_batch (sw s) (sst s)) (sr s) (sst s), Quiet)
  | Write e =>
      '(code, w', st') ← write (sw s) (sst s) e;
      Some (mk_sys w' (sr s) st', if code =? 0 then Accepted e else Quiet)
  | FinishWrite => Some (mk_sys (sw s) (sr s) (eq_finish_write_batch (sw s) (sst s)), Quiet)
  | StartRead => Some (mk_sys (sw s) (eq_start_read_batch (sr s) (sst s)) (sst s), Quiet)
  | Read =>
      '(res, r') ← read (sr s) (sst s);
      Some (mk_sys (sw s) r' (sst s), match res with ReadElem e => Delivered e | _ => Quiet end)
  | FinishRead => Some (mk_sys (sw s) (sr s) (eq_finish_read_batch (sr s) (sst s)), Quiet)
  end.

Fixpoint sys_run (s : sys) (ops : list op) : option (sys * list event) :=
  match ops with
  | [] => Some (s, [])
  | o :: ops =>
      '(s', ev) ← sys_step s o;
      '(s'', evs) ← sys_run s' ops;
      Some (s'', ev :: evs)
  end.

Definition accepted (evs : list event) : list (list Z) :=
  flat_map (fun ev => match ev with Accepted e => [e] | _ => [] end) evs.
Definition delivered (evs : list event) : list (list Z) :=
  flat_map (fun ev => match ev with Delivered e => [e] | _ => [] end) evs.

(** Writes are shorter than 4 GiB minus 7 bytes. *)
Definition op_ok (o : op) : Prop :=
  match o with Write e => zlen e < 2 ^ 32 - 7 | _ => True end.

(** The elements that were accepted and not yet delivered. *)
Definition in_flight (f : fifo) : list (list Z) := s_avail f ++ s_pub f ++ s_pend f.

Abbreviation sys_rep ne sz s f eh bh := (eq_rep ne sz (sw s) (sr s) (sst s) f eh bh).

(** One step: no access outside the area, and the accounting of elements. *)
Lemma sys_step_rep ne sz s f eh bh o :
  sys_rep ne sz s f eh bh -> op_ok o ->
  exists s' ev f' eh' bh', sys_step s o = Some (s', ev) /\
    sys_rep ne sz s' f' eh' bh' /\
    in_flight f ++ accepted [ev] = delivered [ev] ++ in_flight f'.
Proof.
  intros Hrep Hok. destruct o as [|e| | | |]; simpl in *.
  - eexists _, _, _, _, _. split; [done|]. split; [apply (start_write_rep Hrep)|].
    unfold in_flight. simpl. by rewrite app_nil_r.
  - destruct (write_refines Hrep e Hok) as (code & w' & st' & Hw & Hcases).
    rewrite Hw. simpl.
    destruct Hcases as [(-> & _ & _ & Hrep') | [(-> & _ & -> & ->) | (-> & _ & _ & -> & ->)]].
    + eexists _, _, _, _, _. split; [done|]. split; [done|].
      unfold in_flight. simpl. by rewrite <- !app_assoc.
    + eexists _, _, f, eh, bh. split; [done|]. split; [by destruct s|]. by rewrite app_nil_r.
    + eexists _, _, f, eh, bh. split; [done|]. split; [by destruct s|]. by rewrite app_nil_r.
  - eexists _, _, _, _, _. split; [done|]. split; [apply (finish_write_rep Hrep)|].
    unfold in_flight. simpl. by rewrite !app_nil_r.
  - eexists _, _, _, _, _. split; [done|]. split; [apply (start_read_rep Hrep)|].
    unfold in_flight. simpl. by rewrite app_nil_r, <- app_assoc.
  - pose proof (read_refines Hrep) as Hr.
    destruct (s_avail f) as [|e rest] eqn:Hav.
    + rewrite Hr. eexists _, _, f, eh, bh. split; [done|]. split; [by destruct s|]. by rewrite app_nil_r.
    + destruct Hr as (r' & -> & Hrep'). eexists _, _, _, _, _. split; [done|]. split; [done|].
      unfold in_flight. rewrite Hav. simpl. by rewrite app_nil_r.
  - eexists _, _, _, _, _. split; [done|]. split; [apply (finish_read_rep Hrep)|].
    unfold in_flight. simpl. by rewrite app_nil_r.
Qed.

Lemma accepted_app xs ys : accepted (xs ++ ys) = accepted xs ++ accepted ys.
Proof. apply flat_map_app. Qed.

Lemma sys_run_rep ne sz ops s f eh bh :
  sys_rep ne sz s f eh bh -> Forall op_ok ops ->
  exists s' evs f' eh' bh', sys_run s ops = Some (s', evs) /\
    sys_rep ne sz s' f' eh' bh' /\
    in_flight f ++ accepted evs = delivered evs ++ in_flight f'.
Proof.
  intros Hrep Hok. revert s f eh bh Hrep.
  induction Hok as [|o ops Ho Hok IH]; intros s f eh bh Hrep; simpl.
  { eexists _, _, f, eh, bh. split; [done|]. split; [done|]. by rewrite app_nil_r. }
  destruct (sys_step_rep _ _ _ _ _ _ _ Hrep Ho) as (s1 & ev & f1 & eh1 & bh1 & -> & Hrep1 & Hacc).
  simpl. destruct (IH _ _ _ _ Hrep1) as (s2 & evs & f2 & eh2 & bh2 & -> & Hrep2 & Hacc2).
  simpl. eexists _, _, f2, eh2, bh2. split; [done|]. split; [done|].
  change (ev :: evs) with ([ev] ++ evs). unfold accepted, delivered in *.
  rewrite !flat_map_app, app_assoc, Hacc, <- !app_assoc, Hacc2. done.
Qed.

(** A fresh queue: the storage is zeroed, and both ends attach to it. *)
Lemma attach_rep ne sz st q :
  geometry ne sz -> MemElementQueueStorage ne sz = Some st -> ElementQueue_new ne sz st = Some q ->
  eq_rep ne sz q q st fifo_empty 0 0.
Proof.
  intros Hgeo Hst Hq. pose proof (geometry_range _ _ Hgeo) as [Hne Hsz].
  unfold MemElementQueueStorage in Hst.
  destruct (Z.eqb_spec (eq_contig_size ne sz) (16 + 4 * ne + sz)); [|done].
  injection Hst as <-. destruct Hgeo as (a & k & Ha & Hk & -> & ->).
  unfold ElementQueue_new, eq_init_contig in Hq.
  rewrite !is_pow2_or_0_pow2 in Hq by lia. injection Hq as <-.
  unfold eq_attach. simpl.
  split; simpl; rewrite ?u32_small by lia; try done; unfold zlen; rewrite ?length_replicate;
    simpl; try lia. by exists a, k.
Qed.

(** ** Draining *)

Lemma sys_run_app s ops1 ops2 :
  sys_run s (ops1 ++ ops2) =
    '(s1, evs1) ← sys_run s ops1; '(s2, evs2) ← sys_run s1 ops2; Some (s2, evs1 ++ evs2).
Proof.
  revert s. induction ops1 as [|o ops1 IH]; intros s; simpl.
  { by destruct (sys_run s ops2) as [[]|]. }
  destruct (sys_step s o) as [[s1 ev]|]; simpl; [|done]. rewrite IH.
  destruct (sys_run s1 ops1) as [[s2 evs]|]; simpl; [|done].
  by destruct (sys_run s2 ops2) as [[]|].
Qed.

Lemma reads_drain ne sz n s f eh bh :
  sys_rep ne sz s f eh bh -> s_pub f = [] -> s_pend f = [] -> (length (s_avail f) <= n)%nat ->
  exists s' evs, sys_run s (replicate n Read) = Some (s', evs) /\
    delivered evs = s_avail f /\ accepted evs = [].
Proof.
  revert s f. induction n as [|n IH]; intros s f Hrep Hpub Hpend Hn; simpl.
  { destruct (s_avail f); simpl in *; [|lia]. by eexists _, _. }
  pose proof (read_refines Hrep) as Hr. destruct (s_avail f) as [|e rest] eqn:Hav.
  - rewrite Hr. simpl.
    destruct (IH (mk_sys (sw s) (sr s) (sst s)) f) as (s' & evs & -> & Hd & Ha);
      [by destruct s|done|done|rewrite Hav; simpl; lia|].
    eexists _, _. split; [done|]. rewrite Hav in Hd. simpl. by rewrite Hd.
  - destruct Hr as (r' & -> & Hrep'). simpl.
    destruct (IH (mk_sys (sw s) r' (sst s)) (fifo_read f e rest)) as (s' & evs & -> & Hd & Ha);
      [done..|simpl in *; lia|].
    eexists _, _. split; [done|]. simpl in *. by rewrite Hd.
Qed.

(** ** Properties *)

(** The queue is a FIFO for one producer and one consumer.

    C24: whatever the interleaving of the two sides' operations on a freshly
    created queue, no operation touches memory outside the shared area, and
    the elements the consumer reads are, in order and byte for byte, the first
    of the elements the producer's writes accepted; at most [n_elems] elements
    are in flight.  The 32-bit counters may wrap any number of times.  The queue has a
    ring of at most 2^30 bytes ([geometry]) and the elements written are shorter than
    2^32 - 7 bytes ([op_ok]). *)
Theorem queue_fifo (ne sz : Z) (st : storage) (q : element_queue) (ops : list op) :
  geometry ne sz ->
  MemElementQueueStorage ne sz = Some st -> ElementQueue_new ne sz st = Some q ->
  Forall op_ok ops ->
  exists s' evs rest, sys_run (mk_sys q q st) ops = Some (s', evs) /\
    accepted evs = delivered evs ++ rest /\ zlen rest <= ne.
Proof.
  intros Hgeo Hst Hq Hok. pose proof (attach_rep _ _ _ _ Hgeo Hst Hq) as Hrep.
  destruct (sys_run_rep _ _ ops (mk_sys q q st) _ _ _ Hrep Hok)
    as (s' & evs & f' & eh' & bh' & Hrun & Hrep' & Hacc).
  exists s', evs, (in_flight f'). split_and!; [done|exact Hacc|].
  pose proof (rep_count _ _ _ _ _ _ _ _ Hrep') as Hc. unfold fifo_all, in_flight in *.
  rewrite !zlen_app in *. pose proof (zlen_nonneg (s_rel f')). pose proof (zlen_nonneg (s_done f')).
  lia.
Qed.

(** Nothing accepted is ever lost.

    After any interleaving on a fresh queue, finishing the write batch,
    starting a read batch and reading [n_elems] times has delivered every
    accepted element, in order. *)
Theorem queue_drains (ne sz : Z) (st : storage) (q : element_queue) (ops : list op) :
  geometry ne sz ->
  MemElementQueueStorage ne sz = Some st -> ElementQueue_new ne sz st = Some q ->
  Forall op_ok ops ->
  exists s' evs,
    sys_run (mk_sys q q st) (ops ++ [FinishWrite; StartRead] ++ replicate (Z.to_nat ne) Read)
      = Some (s', evs) /\
    delivered evs = accepted evs.
Proof.
  intros Hgeo Hst Hq Hok. pose proof (attach_rep _ _ _ _ Hgeo Hst Hq) as Hrep.
  destruct (sys_run_rep _ _ ops (mk_sys q q st) _ _ _ Hrep Hok)
    as (s1 & evs1 & f1 & eh1 & bh1 & Hrun1 & Hrep1 & Hacc1).
  rewrite sys_run_app, Hrun1. simpl.
  pose proof (start_read_rep (finish_write_rep Hrep1)) as Hrep2.
  pose proof (rep_count _ _ _ _ _ _ _ _ Hrep1) as Hc. unfold fifo_all in Hc. rewrite !zlen_app in Hc.
  pose proof (zlen_nonneg (s_rel f1)). pose proof (zlen_nonneg (s_done f1)).
  edestruct (reads_drain ne sz (Z.to_nat ne) (mk_sys _ _ _) _ _ _ Hrep2)
    as (s2 & evs2 & -> & Hd & Ha); [done..| |].
  { simpl. unfold zlen in *. rewrite !length_app. lia. }
  simpl. eexists _, _. split; [done|].
  unfold delivered, accepted in *. rewrite !flat_map_app. simpl. rewrite Hd, Ha, app_nil_r.
  simpl in *. rewrite Hacc1. by unfold in_flight.
Qed.

(** The writer's outcomes.

    A write on a queue in any reachable state is accepted exactly when the
    element, rounded up to 8 bytes, is smaller than the ring and the writer
    sees room for it; otherwise it reports -EINVAL or -ENOSPC and changes
    nothing. *)
Theorem write_outcomes (ne sz : Z) (w r : element_queue) (st : storage) (f : fifo)
    (eh bh : Z) (e : list Z) :
  eq_rep ne sz w r st f eh bh -> zlen e < 2 ^ 32 - 7 ->
  exists code w' st', write w st e = Some (code, w', st') /\
    ((code = 0 /\ al e < sz /\ fits ne sz bh f e /\
      eq_rep ne sz w' r st' (fifo_write f e) eh bh) \/
     (code = - EINVAL /\ sz <= al e /\ w' = w /\ st' = st) \/
     (code = - ENOSPC /\ al e < sz /\ ~ fits ne sz bh f e /\ w' = w /\ st' = st)).
Proof. intros Hrep. apply (write_refines Hrep). Qed.

(** An empty queue has room for anything up to half of the ring. *)
Lemma place_half sz b alen : 0 < sz -> 0 <= alen -> 2 * alen <= sz -> place sz b alen + alen <= b + sz.
Proof.
  intros. unfold place. destruct (Z.ltb_spec (b / sz) ((b + alen - 1) / sz)); [|lia].
  pose proof (Z.mul_div_le (b + alen - 1) sz). lia.
Qed.

(** Whatever its counters, an empty queue accepts every element that,
    rounded up to 8 bytes, is at most half of the ring. *)
Theorem empty_accepts_half (ne sz : Z) (w r : element_queue) (st : storage) (f : fifo)
    (eh bh : Z) (e : list Z) :
  eq_rep ne sz w r st f eh bh -> fifo_all f = [] -> zlen e < 2 ^ 32 - 7 -> 2 * al e <= sz ->
  exists w' st', write w st e = Some (0, w', st').
Proof.
  intros Hrep Hnil Hz Hhalf. pose proof (al_nonneg e).
  pose proof (geometry_range _ _ (rep_geo _ _ _ _ _ _ _ _ Hrep)) as [Hne Hsz].
  destruct (write_refines Hrep e Hz) as (code & w' & st' & Hw & Hcases).
  destruct Hcases as [(-> & _) | [(_ & Hbig & _) | (_ & _ & Hnf & _)]]; [by eexists _, _|lia|].
  destruct Hnf. unfold fits. rewrite Hnil. simpl. split; [unfold zlen; simpl; lia|].
  apply place_half; lia.
Qed.

(** ** An empty queue that refuses forever *)

(** The operations of a client that keeps trying to write [e]. *)
Definition retry_op (e : list Z) (o : op) : Prop :=
  match o with Write e' => e' = e | _ => True end.

Lemma stuck_step ne sz s f eh bh e o :
  sys_rep ne sz s f eh bh -> fifo_all f = [] -> ~ fits ne sz bh f e -> zlen e < 2 ^ 32 - 7 ->
  retry_op e o ->
  exists s' ev f', sys_step s o = Some (s', ev) /\ accepted [ev] = [] /\
    sys_rep ne sz s' f' eh bh /\ fifo_all f' = [].
Proof.
  intros Hrep Hnil Hnf Hz Ho. unfold fifo_all in Hnil.
  destruct (s_rel f) eqn:Hr1, (s_done f) eqn:Hr2, (s_avail f) eqn:Hr3, (s_pub f) eqn:Hr4,
    (s_pend f) eqn:Hr5; try done.
  destruct o as [|e'| | | |]; simpl in *.
  - pose proof (start_write_rep Hrep) as H. rewrite Hr1 in H. simpl in H. rewrite Z.add_0_r in H.
    eexists _, _, _. split_and!; [done|done|exact H|]. unfold fifo_all. simpl.
    by rewrite Hr2, Hr3, Hr4, Hr5.
  - subst e'. destruct (write_refines Hrep e Hz) as (code & w' & st' & -> & Hcases). simpl.
    destruct Hcases as [(_ & _ & Hf & _) | [(-> & _ & -> & ->) | (-> & _ & _ & -> & ->)]]; [done| |];
      eexists _, _, f; (split_and!; [done|done|by destruct s|]); unfold fifo_all;
      by rewrite Hr1, Hr2, Hr3, Hr4, Hr5.
  - eexists _, _, _. split_and!; [done|done|apply (finish_write_rep Hrep)|].
    unfold fifo_all. simpl. by rewrite Hr1, Hr2, Hr3, Hr4, Hr5.
  - eexists _, _, _. split_and!; [done|done|apply (start_read_rep Hrep)|].
    unfold fifo_all. simpl. by rewrite Hr1, Hr2, Hr3, Hr4, Hr5.
  - pose proof (read_refines Hrep) as Hr. rewrite Hr3 in Hr. rewrite Hr.
    eexists _, _, f. split_and!; [done|done|by destruct s|].
    unfold fifo_all. by rewrite Hr1, Hr2, Hr3, Hr4, Hr5.
  - eexists _, _, _. split_and!; [done|done|apply (finish_read_rep Hrep)|].
    unfold fifo_all. simpl. by rewrite Hr1, Hr2, Hr3, Hr4, Hr5.
Qed.

(** When the queue is empty and the element does not fit at the current
    position of the counters, no amount of retrying, reading or batch
    refreshing makes a write of it succeed: [-ENOSPC] is permanent. *)
Theorem empty_refuses_forever (ne sz : Z) (s : sys) (f : fifo) (eh bh : Z) (e : list Z)
    (ops : list op) :
  sys_rep ne sz s f eh bh -> fifo_all f = [] -> ~ fits ne sz bh f e -> zlen e < 2 ^ 32 - 7 ->
  Forall (retry_op e) ops ->
  exists s' evs, sys_run s ops = Some (s', evs) /\ accepted evs = [].
Proof.
  intros Hrep Hnil Hnf Hz Hops. revert s f Hrep Hnil Hnf.
  induction Hops as [|o ops Ho Hops IH]; intros s f Hrep Hnil Hnf; simpl; [by eexists _, _|].
  destruct (stuck_step _ _ _ _ _ _ _ _ Hrep Hnil Hnf Hz Ho) as (s1 & ev & f1 & -> & Hev & Hrep1 & Hnil1).
  simpl. destruct (IH s1 f1) as (s2 & evs & -> & Hevs); [done|done| |].
  { unfold fits in *. by rewrite Hnil1, <- Hnil. }
  simpl. eexists _, _. split; [done|].
  change (accepted ([ev] ++ evs) = []). by rewrite accepted_app, Hev, Hevs.
Qed.

(** ** Moving an element between queues *)

(** [eq_move] takes the oldest available element of the source to the end
    of the destination's batch, byte for byte; when the source is empty, the
    destination has no room, or the element is too long for it, both queues
    are unchanged and the code says which. *)
Theorem eq_move_refines (ne sz : Z) (w r : element_queue) (st : storage) (f : fifo) (eh bh : Z)
    (ne' sz' : Z) (w' r' : element_queue) (st' : storage) (f' : fifo) (eh' bh' : Z) :
  eq_rep ne sz w r st f eh bh -> eq_rep ne' sz' w' r' st' f' eh' bh' ->
  match s_avail f' with
  | [] => eq_move w st r' st' = Some (- ENOENT, w, st, r')
  | e :: rest =>
      (sz <= al e /\ eq_move w st r' st' = Some (- ENOSYS, w, st, r')) \/
      (al e < sz /\ ~ fits ne sz bh f e /\ eq_move w st r' st' = Some (- ENOSPC, w, st, r')) \/
      (al e < sz /\ fits ne sz bh f e /\ exists w2 st2 r2,
         eq_move w st r' st' = Some (zlen e, w2, st2, r2) /\
         eq_rep ne sz w2 r st2 (fifo_write f e) eh bh /\
         eq_rep ne' sz' w' r2 st' (fifo_read f' e rest) eh' bh')
  end.
Proof.
  intros Hrep Hrep'. unfold eq_move. destruct (peek_refines Hrep') as [_ ->].
  destruct (s_avail f') as [|e rest] eqn:Hav; [done|]. simpl.
  pose proof (zlen_nonneg e). pose proof (zlen_elem_small Hrep' e rest Hav).
  destruct (Z.ltb_spec (zlen e) 0); [lia|]. rewrite (u32_small (zlen e)) by lia.
  destruct (eq_write_cases Hrep e) as
    [(Hb & ->) | [(Hb & Hnf & ->) | (Hb & Hf & off & w2 & st2 & d & -> & Hoff & Hd & Hr)]];
    [lia|left; by split|right; left; by split_and!|right; right].
  split_and!; [done|done|]. simpl.
  destruct (Z.eqb_spec off (- ENOSPC)); [unfold ENOSPC in *; lia|].
  destruct (Z.ltb_spec off 0); [lia|].
  unfold eq_read_nn. destruct (Z.eqb_spec (elem_tail r') (elem_head r')) as [Heq|_].
  { apply (read_empty Hrep') in Heq. congruence. }
  destruct (read_head Hrep' e rest Hav) as (-> & Hro & Hs & Hp & Hmr).
  simpl. fold (al e). rewrite Hro, Hs, Z.eqb_refl.
  destruct (Z.ltb_spec (place sz' (bend sz' bh' (s_rel f' ++ s_done f')) (al e) mod sz') 0); [lia|].
  simpl. rewrite Hmr. simpl. rewrite Hd. simpl. rewrite s32_small by lia.
  eexists _, _, _. split_and!; [done|done|]. by apply (read_rep Hrep').
Qed.

(** ** Inputs outside the contract *)

(** The batch assertions [(int)tail - head >= 0] cannot fail. *)
Lemma batch_assert_vacuous tail head : batch_assert tail head = true.
Proof. unfold batch_assert. apply Z.leb_le, u32_range. Qed.

(** [eq_write] accepts lengths of 4 GiB minus 7 bytes and more on a queue
    with a free slot and room for nothing: the rounded-up length wraps to 0,
    and the recorded length is larger than the ring. *)
Theorem overlong_accepted (ne sz : Z) (w r : element_queue) (st : storage) (f : fifo)
    (eh bh len : Z) :
  eq_rep ne sz w r st f eh bh -> zlen (fifo_all f) < ne -> 2 ^ 32 - 7 <= len < 2 ^ 32 ->
  exists off w' st', eq_write_nn w st len = Some (off, w', st') /\ 0 <= off < sz /\
    rd (elems st') ((eh + zlen (fifo_all f)) mod ne) = Some len /\ sz < len.
Proof.
  intros Hrep Hroom Hlen.
  pose proof (geometry_range _ _ (rep_geo _ _ _ _ _ _ _ _ Hrep)) as [Hne Hszr].
  assert (Hal : align8 len = 0).
  { unfold align8. change 7 with (2 ^ 3 - 1) at 2. rewrite land_not_mask_u32 by lia.
    assert (Hu : u32 (len + 7) = len + 7 - 2 ^ 32) by (symmetry; apply (Z.mod_unique _ _ 1); lia).
    rewrite Hu, <- (mod_pow2_mod _ 3 32) by lia. fold (u32 (len + 7)).
    rewrite Hu, Z.mod_small; lia. }
  unfold eq_write_nn. rewrite Hal.
  destruct (write_counts Hrep) as (-> & -> & -> & ->).
  destruct (write_space Hrep []) as (Hno & Hsp & Hoff & Hge); [change (0 < sz); lia|].
  change (al []) with 0 in *.
  assert (Hpl : place sz (bend sz bh (fifo_all f)) 0 = bend sz bh (fifo_all f)).
  { unfold place. rewrite (proj2 (Z.ltb_ge _ _)); [done|]. apply Z.div_le_mono; lia. }
  pose proof (rep_bytes _ _ _ _ _ _ _ _ Hrep). rewrite Hpl in *. rewrite Hno, Hsp, Hoff.
  rewrite (proj2 (Z.ltb_ge _ _)) by (rewrite (proj2 (rep_wm _ _ _ _ _ _ _ _ Hrep)); lia).
  rewrite (proj2 (Z.leb_gt _ _)) by lia. rewrite (proj2 (Z.ltb_ge _ _)) by lia.
  pose proof (Z.mod_pos_bound (eh + zlen (fifo_all f)) ne).
  pose proof (rep_elems _ _ _ _ _ _ _ _ Hrep) as Hel.
  rewrite wr_in_range by lia. simpl. eexists _, _, _. split; [done|]. simpl.
  split; [apply Z.mod_pos_bound; lia|]. split; [|lia].
  erewrite rd_wr by (apply wr_in_range; lia). by rewrite decide_True.
Qed.

(** With a ring of 2 GiB, which [eq_init_contig] accepts, the crossing test is
    never positive: an 8-byte element placed at the last 4 bytes of the ring
    stays there. *)
Lemma eq_next_offset_2GiB :
  is_pow2_or_0 (2 ^ 31) = true /\
  eq_next_offset_by_len (2 ^ 31 - 4) (2 ^ 31 - 1) 8 = 2 ^ 31 - 4.
Proof. split; vm_compute; reflexivity. Qed.

(** ** Witnesses *)

Definition demo_storage : storage :=
  mk_storage (mk_shared 0 0 0 0) (replicate 4 0) (replicate 64 0).
Definition demo_queue : element_queue := mk_eq 3 63 0 0 0 0.
Definition demo_ops : list op :=
  [StartWrite; Write [1; 2; 3]; Write [4]; FinishWrite; StartRead; Read; FinishRead].

Lemma demo_geometry : geometry 4 64.
Proof. exists 2, 6. repeat split; lia. Qed.

Lemma demo_rep : eq_rep 4 64 demo_queue demo_queue demo_storage fifo_empty 0 0.
Proof. by apply attach_rep; [apply demo_geometry|..]. Qed.

Lemma queue_fifo_witness :
  exists s' evs rest, sys_run (mk_sys demo_queue demo_queue demo_storage) demo_ops = Some (s', evs) /\
    accepted evs = delivered evs ++ rest /\ zlen rest <= 4.
Proof.
  apply (queue_fifo 4 64 demo_storage demo_queue demo_ops);
    [apply demo_geometry|reflexivity|reflexivity|repeat constructor; simpl; unfold zlen; simpl; lia].
Defined.

Lemma queue_drains_witness :
  exists s' evs,
    sys_run (mk_sys demo_queue demo_queue demo_storage)
      (demo_ops ++ [FinishWrite; StartRead] ++ replicate 4 Read) = Some (s', evs) /\
    delivered evs = accepted evs.
Proof.
  apply (queue_drains 4 64 demo_storage demo_queue demo_ops);
    [apply demo_geometry|reflexivity|reflexivity|repeat constructor; simpl; unfold zlen; simpl; lia].
Defined.

Lemma write_outcomes_witness :
  exists code w' st', write demo_queue demo_storage [7] = Some (code, w', st') /\
    ((code = 0 /\ al [7] < 64 /\ fits 4 64 0 fifo_empty [7] /\
      eq_rep 4 64 w' demo_queue st' (fifo_write fifo_empty [7]) 0 0) \/
     (code = - EINVAL /\ 64 <= al [7] /\ w' = demo_queue /\ st' = demo_storage) \/
     (code = - ENOSPC /\ al [7] < 64 /\ ~ fits 4 64 0 fifo_empty [7] /\
      w' = demo_queue /\ st' = demo_storage)).
Proof.
  apply (write_outcomes 4 64 demo_queue demo_queue demo_storage fifo_empty 0 0 [7]);
    [apply demo_rep|reflexivity].
Defined.

Lemma empty_accepts_half_witness :
  exists w' st', write demo_queue demo_storage (replicate 32 5) = Some (0, w', st').
Proof.
  apply (empty_accepts_half 4 64 demo_queue demo_queue demo_storage fifo_empty 0 0);
    [apply demo_rep|reflexivity|reflexivity|vm_compute; discriminate].
Defined.

(** A 24-byte element was written and read: the counters are at 24 and the
    queue is empty, yet a 56-byte element never fits. *)
Definition stuck_queue : element_queue := mk_eq 3 63 1 24 1 24.
Definition stuck_storage : storage :=
  mk_storage (mk_shared 1 24 1 24) (replicate 4 0) (replicate 64 0).

Lemma stuck_rep : eq_rep 4 64 stuck_queue stuck_queue stuck_storage fifo_empty 1 24.
Proof.
  split; simpl; try done. apply demo_geometry.
Qed.

Lemma empty_refuses_forever_witness :
  exists s' evs,
    sys_run (mk_sys stuck_queue stuck_queue stuck_storage)
      [StartRead; Read; FinishRead; StartWrite; Write (replicate 56 1); StartWrite;
       Write (replicate 56 1)] = Some (s', evs) /\ accepted evs = [].
Proof.
  apply (empty_refuses_forever 4 64 (mk_sys stuck_queue stuck_queue stuck_storage)
           fifo_empty 1 24 (replicate 56 1));
    [apply stuck_rep|reflexivity| |reflexivity|repeat constructor].
  intros [_ H]. vm_compute in H. by apply H.
Defined.

(** A queue that holds one available element. *)
Definition source_reader : element_queue := mk_eq 3 63 0 0 1 0.
Definition source_writer : element_queue := mk_eq 3 63 0 0 1 8.
Definition source_storage : storage :=
  mk_storage (mk_shared 0 0 1 8) [3; 0; 0; 0] ([1; 2; 3] ++ replicate 61 0).
Definition source_fifo : fifo := mk_fifo [] [] [[1; 2; 3]] [] [].

Lemma source_rep : eq_rep 4 64 source_writer source_reader source_storage source_fifo 0 0.
Proof. by split; [apply demo_geometry|..]. Qed.

Lemma eq_move_refines_witness :
  (64 <= al [1; 2; 3] /\
   eq_move demo_queue demo_storage source_reader source_storage
     = Some (- ENOSYS, demo_queue, demo_storage, source_reader)) \/
  (al [1; 2; 3] < 64 /\ ~ fits 4 64 0 fifo_empty [1; 2; 3] /\
   eq_move demo_queue demo_storage source_reader source_storage
     = Some (- ENOSPC, demo_queue, demo_storage, source_reader)) \/
  (al [1; 2; 3] < 64 /\ fits 4 64 0 fifo_empty [1; 2; 3] /\ exists w2 st2 r2,
     eq_move demo_queue demo_storage source_reader source_storage
       = Some (zlen [1; 2; 3], w2, st2, r2) /\
     eq_rep 4 64 w2 demo_queue st2 (fifo_write fifo_empty [1; 2; 3]) 0 0 /\
     eq_rep 4 64 source_writer r2 source_storage (fifo_read source_fifo [1; 2; 3] []) 0 0).
Proof.
  apply (eq_move_refines 4 64 demo_queue demo_queue demo_storage fifo_empty 0 0
           4 64 source_writer source_reader source_storage source_fifo 0 0);
    [apply demo_rep|apply source_rep].
Defined.

Lemma overlong_accepted_witness :
  exists off w' st', eq_write_nn demo_queue demo_storage (2 ^ 32 - 1) = Some (off, w', st') /\
    0 <= off < 64 /\ rd (elems st') ((0 + zlen (fifo_all fifo_empty)) mod 4) = Some (2 ^ 32 - 1) /\
    64 < 2 ^ 32 - 1.
Proof.
  apply (overlong_accepted 4 64 demo_queue demo_queue demo_storage fifo_empty 0 0 (2 ^ 32 - 1));
    [apply demo_rep|reflexivity|lia].
Defined.

End ElementQueue.
