(* ===== verification/Bitmap.v ===== *)
(** The hierarchical bitmap of util/iterable_bitmap.h and the word-level bit
    operations of platform/generic.h and util/bits.h it is built on.

    A bitmap of [size] bits is a stack of at most five levels of 64-bit words.
    Level 0 holds the bits; bit [w] of level [k+1] says whether word [w] of
    level [k] is non-zero, so an iterator finds the next set bit by following
    one word per level.  The C++ code writes the levels out by hand with
    [if (l1 > 0)], [if (l2 > 0)], ...; here a level that does not exist is an
    absent entry of a list and the five cases are one recursion.

    Theorems: [set], [clear] and [get] behave as on a finite set and keep the
    summary invariant; [begin]/[++] enumerate exactly the set bits, each once,
    in increasing order, and stop. *)
From stdpp Require Import sorting.
From S2P Require Import Prelude.

Module Bitmap.

(** * 64-bit words *)

Definition BIT_WORD (nr : Z) : Z := nr / 64.
Definition BIT_MASK (nr : Z) : Z := Z.shiftl 1 (nr mod 64).

Definition set_bit64 (nr : Z) (addr : list Z) : option (list Z) :=
  w ← rd addr (BIT_WORD nr);
  wr addr (BIT_WORD nr) (Z.lor w (BIT_MASK nr)).

Definition clear_bit64 (nr : Z) (addr : list Z) : option (list Z) :=
  w ← rd addr (BIT_WORD nr);
  wr addr (BIT_WORD nr) (Z.land w (u64 (Z.lnot (BIT_MASK nr)))).

Definition test_bit (nr : Z) (addr : list Z) : option Z :=
  w ← rd addr (BIT_WORD nr);
  Some (Z.land 1 (Z.shiftr w (Z.land nr 63))).

(** The positions of the set bits of a word, in increasing order. *)
Definition bits (m : Z) : list Z := filter (fun n => Z.testbit m n = true) (seqZ 0 64).

(** [__builtin_ctzll], undefined on 0. *)
Definition ctzll (m : Z) : option Z := head (bits m).

(** [m &= m - 1]. *)
Definition disable_least_significant_bit (m : Z) : Z := Z.land m (u64 (m - 1)).

(** * The bitmap *)

(** The number of words of a level from the number of words of the one below;
    0 when the level below is the root (or does not exist). *)
Definition up (l : Z) : Z := if l =? 1 then 0 else (l + 63) / 64.

Definition l0 (size : Z) : Z := (size + 63) / 64.
Definition l1 (size : Z) : Z := up (l0 size).
Definition l2 (size : Z) : Z := up (l1 size).
Definition l3 (size : Z) : Z := up (l2 size).
Definition l4 (size : Z) : Z := up (l3 size).

Definition levels (size : Z) : nat :=
  if 0 <? l4 size then 5 else if 0 <? l3 size then 4 else
  if 0 <? l2 size then 3 else if 0 <? l1 size then 2 else 1.

(** The masks, level 0 first. *)
Definition IterableBitmap := list (list Z).

Definition IterableBitmap_new (size : Z) : IterableBitmap :=
  (fun l => replicate (Z.to_nat l) 0) <$>
    take (levels size) [l0 size; l1 size; l2 size; l3 size; l4 size].

(** [set]: the bit, and the bit of its word at each level above. *)
Fixpoint set (b : IterableBitmap) (index : Z) : option IterableBitmap :=
  match b with
  | [] => Some []
  | m :: b' =>
      m' ← set_bit64 index m;
      b'' ← set b' (Z.shiftr index 6);
      Some (m' :: b'')
  end.

(** The part of [clear] above a level whose masks are [below]: the bit of the
    word is cleared where that word has become 0. *)
Fixpoint clear_above (below : list Z) (b : IterableBitmap) (index : Z) : option IterableBitmap :=
  match b with
  | [] => Some []
  | m :: b' =>
      w ← rd below index;
      m' ← (if w =? 0 then clear_bit64 index m else Some m);
      b'' ← clear_above m' b' (Z.shiftr index 6);
      Some (m' :: b'')
  end.

Definition clear (b : IterableBitmap) (index : Z) : option IterableBitmap :=
  match b with
  | [] => None
  | m :: b' =>
      m' ← clear_bit64 index m;
      b'' ← clear_above m' b' (Z.shiftr index 6);
      Some (m' :: b'')
  end.

Definition get (b : IterableBitmap) (index : Z) : option Z :=
  m ← head b; test_bit index m.

(** * Iteration

    An iterator holds, for each level, the index [i] and the remaining [mask];
    level 0 first.  The index of a level above 0 is stored shifted left by 6
    once the word below has been loaded. *)

Record cursor := { i : Z; mask : Z }.
Definition iterator := list cursor.

Definition shift6 (it : iterator) : iterator :=
  match it with
  | c :: up => {| i := Z.shiftl c.(i) 6; mask := c.(mask) |} :: up
  | [] => []
  end.

(** [i[k+1]] (shifted), or 0 at the root. *)
Definition base (up : iterator) : Z := match up with c :: _ => c.(i) | [] => 0 end.

(** [begin] below the root: resolve the masks and indices on the path to the
    leaf.  [resolve] is given the levels from some level down to level 0. *)
Fixpoint resolve (down : list (list Z)) (it : iterator) : option iterator :=
  match down with
  | [] => Some it
  | m :: down' =>
      w ← rd m (base it);
      c ← ctzll w;
      let it := shift6 it in
      resolve down' ({| i := c + base it; mask := w |} :: it)
  end.

(** [begin]: [None] on undefined behaviour, [Some None] when the root mask is
    zero (the iterator then compares equal to [end]). *)
Definition begin (b : IterableBitmap) : option (option iterator) :=
  match rev b with
  | [] => None
  | root :: down =>
      w ← rd root 0;
      if w =? 0 then Some None
      else
        c ← ctzll w;
        it ← resolve down [{| i := c; mask := w |}];
        Some (Some it)
  end.

(** [operator++].  The recursion climbs while the mask of the level becomes 0;
    [Some None] is the early return with a zero root mask. *)
Fixpoint incr (b : list (list Z)) (it : iterator) : option (option iterator) :=
  match it, b with
  | c :: up, m :: b' =>
      let w := disable_least_significant_bit c.(mask) in
      if w =? 0 then
        match up with
        | [] => Some None
        | _ =>
            r ← incr b' up;
            match r with
            | None => Some None
            | Some up' =>
                w' ← rd m (base up');
                let up' := shift6 up' in
                n ← ctzll w';
                Some (Some ({| i := n + base up'; mask := w' |} :: up'))
            end
        end
      else
        n ← ctzll w;
        Some (Some ({| i := n + base up; mask := w |} :: up))
  | _, _ => None
  end.

(** [for (auto i : bitmap)]: the indices visited, in order.  Each step visits
    a new bit, so [size] steps are enough. *)
Fixpoint walk (fuel : nat) (b : IterableBitmap) (it : option iterator) : option (list Z) :=
  match it with
  | None => Some []
  | Some it =>
      match fuel with
      | O => None
      | S fuel =>
          it' ← incr b it;
          rest ← walk fuel b it';
          Some (base it :: rest)
      end
  end.

Definition elements (size : Z) (b : IterableBitmap) : option (list Z) :=
  it ← begin b; walk (Z.to_nat size) b it.

(** * Bits of words and of levels *)

(** Bit [n] of a level; [false] outside. *)
Definition tb (m : list Z) (n : Z) : bool :=
  match rd m (n / 64) with Some w => Z.testbit w (n mod 64) | None => false end.

Definition word_ok (w : Z) : Prop := 0 <= w < 2 ^ 64.

Lemma testbit_above (w n : Z) : word_ok w -> 64 <= n -> Z.testbit w n = false.
Proof.
  intros Hw Hn. rewrite <- (Z.mod_small w (2 ^ 64)) by apply Hw.
  rewrite Z.mod_pow2_bits_high by lia. done.
Qed.

Lemma elem_of_bits (m n : Z) : n ∈ bits m <-> 0 <= n < 64 /\ Z.testbit m n = true.
Proof. unfold bits. rewrite list_elem_of_filter, elem_of_seqZ. lia || naive_solver. Qed.

Lemma bits_nil (m : Z) : word_ok m -> bits m = [] -> m = 0.
Proof.
  intros Hm Hb. apply Z.bits_inj'. intros n Hn. rewrite Z.bits_0.
  destruct (decide (n < 64)); [|apply testbit_above; [done|lia]].
  destruct (Z.testbit m n) eqn:E; [|done].
  assert (Hin : n ∈ bits m) by (apply elem_of_bits; split; [lia|done]).
  rewrite Hb in Hin. by apply elem_of_nil in Hin.
Qed.

Lemma bits_0 : bits 0 = [].
Proof. reflexivity. Qed.

Lemma sorted_seqZ (n : nat) (a : Z) : StronglySorted Z.lt (seqZ a (Z.of_nat n)).
Proof.
  revert a. induction n as [|n IH]; intros a; [constructor|].
  rewrite seqZ_cons by lia. replace (Z.pred (Z.of_nat (S n))) with (Z.of_nat n) by lia.
  constructor; [apply IH|]. apply Forall_forall. intros x Hx%elem_of_seqZ. lia.
Qed.

Lemma sorted_filter (P : Z -> Prop) `{forall x, Decision (P x)} (l : list Z) :
  StronglySorted Z.lt l -> StronglySorted Z.lt (filter P l).
Proof.
  induction 1 as [|x l _ IH Hx]; [constructor|]. rewrite filter_cons. case_decide; [|done].
  constructor; [done|]. apply Forall_forall. intros y [_ Hy]%list_elem_of_filter.
  by eapply Forall_forall in Hx.
Qed.

Lemma bits_sorted (m : Z) : StronglySorted Z.lt (bits m).
Proof. apply sorted_filter, (sorted_seqZ 64). Qed.

(** Two strictly increasing lists with the same members are equal. *)
Lemma sorted_ext (l k : list Z) :
  StronglySorted Z.lt l -> StronglySorted Z.lt k ->
  (forall x, x ∈ l <-> x ∈ k) -> l = k.
Proof.
  intros Hl Hk Hm. apply (StronglySorted_unique_strong Z.lt); [|done..|].
  - intros x y _ _ ? ?. lia.
  - apply NoDup_Permutation; [| |done].
    + clear Hm Hk. induction Hl as [|x l _ IH Hx]; constructor; [|done].
      intros Hin. eapply Forall_forall in Hx; [|done]. lia.
    + clear Hm Hl. induction Hk as [|x k _ IH Hx]; constructor; [|done].
      intros Hin. eapply Forall_forall in Hx; [|done]. lia.
Qed.

Lemma land_pred_testbit (m c n : Z) :
  0 <= c -> 0 <= n -> Z.testbit m c = true -> (forall j, 0 <= j < c -> Z.testbit m j = false) ->
  Z.testbit (Z.land m (m - 1)) n = Z.testbit m n && negb (n =? c).
Proof.
  intros Hc Hn Hb Hlow. rewrite Z.land_spec.
  assert (Hm : m mod 2 ^ c = 0).
  { apply Z.bits_inj'. intros j Hj. rewrite Z.bits_0, Z.testbit_mod_pow2 by lia.
    destruct (Z.ltb_spec j c); [|done]. simpl. apply Hlow. lia. }
  pose proof (pow2_pos c Hc). set (q := m / 2 ^ c).
  assert (Hq : m = q * 2 ^ c) by (pose proof (Z.div_mod m (2 ^ c)); lia).
  assert (Hodd : Z.odd q = true).
  { rewrite <- Z.bit0_odd. unfold q. by rewrite Z.div_pow2_bits by lia. }
  destruct (Z.odd_spec q) as [[r Hr] _]; [done|].
  assert (Hdiv : (m - 1) / 2 ^ c = 2 * r).
  { replace (m - 1) with ((2 ^ c - 1) + (2 * r) * 2 ^ c) by (rewrite Hq, Hr; ring).
    rewrite Z.div_add, Z.div_small by lia. lia. }
  assert (Hhigh : forall d, 0 <= d -> Z.testbit (m - 1) (d + c) = Z.testbit (2 * r) d).
  { intros d Hd. rewrite <- Z.div_pow2_bits by lia. by rewrite Hdiv. }
  destruct (Z.eqb_spec n c) as [->|Hnc].
  - rewrite Hb. simpl. rewrite <- (Z.add_0_l c) at 1. rewrite Hhigh by lia.
    apply Z.testbit_even_0.
  - rewrite andb_true_r. destruct (decide (n < c)); [rewrite Hlow by lia; done|].
    replace n with (Z.succ (n - c - 1) + c) by lia.
    rewrite Hhigh, Z.double_bits_succ by lia. rewrite Hq, Z.add_comm, Z.mul_pow2_bits_add by lia.
    rewrite Hr, Z.testbit_odd_succ by lia. apply andb_diag.
Qed.

Lemma word_ok_land (m y : Z) : word_ok m -> word_ok (Z.land m y).
Proof.
  intros Hm. unfold word_ok in *. rewrite <- (Z.mod_small m (2 ^ 64)) by done.
  rewrite <- Z.land_ones, <- Z.land_assoc, (Z.land_comm _ y), Z.land_assoc, Z.land_ones by lia.
  apply Z.mod_pos_bound. lia.
Qed.

(** [m & (m - 1)] drops the lowest set bit. *)
Lemma bits_disable (m : Z) :
  word_ok m -> m <> 0 ->
  word_ok (disable_least_significant_bit m) /\
  bits (disable_least_significant_bit m) = tail (bits m).
Proof.
  intros Hm Hne. unfold disable_least_significant_bit. unfold word_ok in *.
  rewrite u64_small by lia. pose proof (bits_sorted m) as Hs.
  destruct (bits m) as [|c t] eqn:Hb; [apply bits_nil in Hb; done|].
  inversion_clear Hs as [|? ? Ht Hct].
  assert (Hc : c ∈ bits m) by (rewrite Hb; left). apply elem_of_bits in Hc as [Hc Hbc].
  assert (Hlow : forall j, 0 <= j < c -> Z.testbit m j = false).
  { intros j Hj. destruct (Z.testbit m j) eqn:E; [|done].
    assert (Hin : j ∈ bits m) by (apply elem_of_bits; split; [lia|done]).
    rewrite Hb in Hin. apply elem_of_cons in Hin as [->|Hin]; [lia|].
    eapply Forall_forall in Hct; [|done]. lia. }
  split.
  - by apply word_ok_land.
  - apply sorted_ext; [apply bits_sorted|done|]. intros x. simpl.
    rewrite elem_of_bits. split.
    + intros [Hx Hbx]. rewrite (land_pred_testbit m c) in Hbx by (done || lia).
      apply andb_prop in Hbx as [Hbx Hxc].
      assert (Hin : x ∈ bits m) by (apply elem_of_bits; done).
      rewrite Hb in Hin. apply elem_of_cons in Hin as [->|Hin]; [|done].
      by rewrite Z.eqb_refl in Hxc.
    + intros Hin. assert (Hin' : x ∈ bits m) by (rewrite Hb; by right).
      apply elem_of_bits in Hin' as [Hx Hbx]. split; [done|].
      rewrite (land_pred_testbit m c) by (done || lia). rewrite Hbx. simpl.
      eapply Forall_forall in Hct; [|done]. destruct (Z.eqb_spec x c); [lia|done].
Qed.

(** ** Single levels *)

Lemma div_mod_64_eq (j nr : Z) : j = nr <-> j / 64 = nr / 64 /\ j mod 64 = nr mod 64.
Proof.
  split; [by intros ->|]. intros [H1 H2].
  rewrite (Z.div_mod j 64), (Z.div_mod nr 64) by lia. lia.
Qed.

(** The shared reasoning of the two word updates: a word rewritten by a
    function that acts bitwise at [nr mod 64]. *)
Lemma word_update (m : list Z) (nr : Z) (f : Z -> Z) (b : bool) :
  0 <= nr < 64 * zlen m -> Forall word_ok m ->
  (forall w, word_ok w -> word_ok (f w)) ->
  (forall w n, word_ok w -> 0 <= n < 64 ->
     Z.testbit (f w) n = if decide (n = nr mod 64) then b else Z.testbit w n) ->
  exists m', (w ← rd m (BIT_WORD nr); wr m (BIT_WORD nr) (f w)) = Some m' /\
    zlen m' = zlen m /\ Forall word_ok m' /\
    (forall k, k <> nr / 64 -> rd m' k = rd m k) /\
    (forall j, tb m' j = if decide (j = nr) then b else tb m j).
Proof.
  intros Hnr Hok Hf Hbit. unfold BIT_WORD.
  assert (Hr : 0 <= nr / 64 < zlen m).
  { split; [apply Z.div_pos; lia|]. apply Z.div_lt_upper_bound; lia. }
  destruct (rd_is_Some m (nr / 64) Hr) as [w Hw]. rewrite Hw. simpl.
  assert (Hwok : word_ok w).
  { apply rd_Some in Hw as [_ Hw]. by eapply Forall_lookup_1 in Hok. }
  pose proof (wr_in_range m (nr / 64) (f w) Hr) as Hwr.
  eexists. split; [exact Hwr|]. split; [apply zlen_insert|].
  split; [apply Forall_insert; auto|]. split.
  { intros k Hk. rewrite (rd_wr _ _ _ k _ Hwr), decide_False; done. }
  intros j. unfold tb. rewrite (rd_wr _ _ _ (j / 64) _ Hwr).
  pose proof (Z.mod_pos_bound j 64). destruct (decide (nr / 64 = j / 64)) as [He|Hne].
  - rewrite <- He, Hw, Hbit by (done || lia).
    destruct (decide (j mod 64 = nr mod 64)), (decide (j = nr)) as [|Hj]; try done.
    + exfalso. apply Hj, div_mod_64_eq. done.
    + subst. done.
  - rewrite decide_False; [done|]. by intros ->.
Qed.

Lemma set_bit64_spec (m : list Z) (nr : Z) :
  0 <= nr < 64 * zlen m -> Forall word_ok m ->
  exists m', set_bit64 nr m = Some m' /\ zlen m' = zlen m /\ Forall word_ok m' /\
    (forall k, k <> nr / 64 -> rd m' k = rd m k) /\
    (forall j, tb m' j = if decide (j = nr) then true else tb m j).
Proof.
  intros Hnr Hok. pose proof (Z.mod_pos_bound nr 64) as Hmod.
  apply (word_update m nr (fun w => Z.lor w (BIT_MASK nr)) true Hnr Hok).
  - unfold word_ok, BIT_MASK. intros w Hw. rewrite Z.shiftl_1_l.
    pose proof (Z.pow_lt_mono_r 2 (nr mod 64) 64). pose proof (pow2_pos (nr mod 64)).
    split; [apply Z.lor_nonneg; lia|].
    apply Z.log2_lt_cancel. rewrite Z.log2_lor, Z.log2_pow2, Z.log2_pow2 by lia.
    assert (Z.log2 w < 64); [|lia]. destruct (decide (w = 0)) as [->|]; [by simpl|].
    apply Z.log2_lt_pow2; lia.
  - unfold BIT_MASK. intros w n Hw Hn. rewrite Z.lor_spec, Z.shiftl_1_l, Z.pow2_bits_eqb by lia.
    case_decide; subst; [rewrite Z.eqb_refl, orb_true_r; done|].
    destruct (Z.eqb_spec (nr mod 64) n); [congruence|by rewrite orb_false_r].
Qed.

Lemma clear_bit64_spec (m : list Z) (nr : Z) :
  0 <= nr < 64 * zlen m -> Forall word_ok m ->
  exists m', clear_bit64 nr m = Some m' /\ zlen m' = zlen m /\ Forall word_ok m' /\
    (forall k, k <> nr / 64 -> rd m' k = rd m k) /\
    (forall j, tb m' j = if decide (j = nr) then false else tb m j).
Proof.
  intros Hnr Hok. pose proof (Z.mod_pos_bound nr 64) as Hmod.
  apply (word_update m nr (fun w => Z.land w (u64 (Z.lnot (BIT_MASK nr)))) false Hnr Hok).
  - intros w Hw. by apply word_ok_land.
  - unfold BIT_MASK, u64. intros w n Hw Hn.
    rewrite Z.land_spec, Z.mod_pow2_bits_low, Z.lnot_spec, Z.shiftl_1_l, Z.pow2_bits_eqb by lia.
    case_decide; subst; [rewrite Z.eqb_refl, andb_false_r; done|].
    destruct (Z.eqb_spec (nr mod 64) n); [congruence|by rewrite andb_true_r].
Qed.

Lemma test_bit_spec (m : list Z) (nr : Z) :
  0 <= nr < 64 * zlen m -> test_bit nr m = Some (if tb m nr then 1 else 0).
Proof.
  intros Hnr. unfold test_bit, tb, BIT_WORD.
  assert (Hr : 0 <= nr / 64 < zlen m).
  { split; [apply Z.div_pos; lia|]. apply Z.div_lt_upper_bound; lia. }
  destruct (rd_is_Some m (nr / 64) Hr) as [w Hw]. rewrite Hw. simpl. f_equal.
  change 63 with (2 ^ 6 - 1). rewrite land_mask by lia. change (2 ^ 6) with 64.
  pose proof (Z.mod_pos_bound nr 64).
  rewrite Z.land_comm, (Z.land_ones _ 1), <- Z.bit0_mod, Z.shiftr_spec, Z.add_0_l by lia.
  by destruct (Z.testbit w (nr mod 64)).
Qed.

(** A word is non-zero exactly when one of its bits is set. *)
Lemma word_zero (m : list Z) (k w : Z) :
  Forall word_ok m -> rd m k = Some w ->
  (w = 0 <-> forall j, j / 64 = k -> tb m j = false).
Proof.
  intros Hok Hw. split.
  - intros -> j <-. unfold tb. rewrite Hw. apply Z.bits_0.
  - intros Hj. apply rd_Some in Hw as Hw'. destruct Hw' as [Hk Hlk].
    assert (Hwok : word_ok w) by (by eapply Forall_lookup_1 in Hok).
    apply bits_nil; [done|]. destruct (bits w) as [|n t] eqn:E; [done|].
    assert (Hin : n ∈ bits w) by (rewrite E; left). apply elem_of_bits in Hin as [Hn Hb].
    specialize (Hj (64 * k + n)). unfold tb in Hj.
    rewrite Z.mul_comm, Z.div_add_l, Z.div_small, Z.add_0_r, Hw in Hj by lia.
    rewrite Z.add_comm, Z.mod_add, Z.mod_small, Hb in Hj by lia. by specialize (Hj eq_refl).
Qed.

(** * The summary invariant *)

(** [wf n b]: the levels [b] of a bitmap with [n] bits at the lowest of them.
    The root has one word, and bit [w] of the level above says whether word
    [w] of this one is non-zero. *)
Fixpoint wf (n : Z) (b : IterableBitmap) : Prop :=
  match b with
  | [] => False
  | m :: b' =>
      zlen m = (n + 63) / 64 /\ Forall word_ok m /\
      (forall j, tb m j = true -> 0 <= j < n) /\
      match b' with
      | [] => zlen m = 1
      | m' :: _ =>
          wf (zlen m) b' /\ forall k w, rd m k = Some w -> tb m' k = negb (w =? 0)
      end
  end.

(** The set of bits of a bitmap. *)
Definition mem (b : IterableBitmap) (j : Z) : bool :=
  match b with m :: _ => tb m j | [] => false end.

Lemma wf_tail (n : Z) (m m1 : list Z) (b : IterableBitmap) :
  wf n (m :: m1 :: b) -> wf (zlen m) (m1 :: b).
Proof. by intros (_ & _ & _ & Hwf & _). Qed.

Lemma words_cover (n j : Z) : 0 <= j < n -> 0 <= j < 64 * ((n + 63) / 64).
Proof.
  intros H. pose proof (Z.div_mod (n + 63) 64). pose proof (Z.mod_pos_bound (n + 63) 64). lia.
Qed.

Lemma word_index (n j : Z) : 0 <= j < n -> 0 <= j / 64 < (n + 63) / 64.
Proof.
  intros H%words_cover. split; [apply Z.div_pos; lia|]. apply Z.div_lt_upper_bound; lia.
Qed.

Lemma shiftr_6 (j : Z) : Z.shiftr j 6 = j / 64.
Proof. by rewrite Z.shiftr_div_pow2 by lia. Qed.

Lemma set_spec (b : IterableBitmap) (n index : Z) :
  wf n b -> 0 <= index < n ->
  exists b', set b index = Some b' /\ wf n b' /\ length b' = length b /\
    forall j, mem b' j = if decide (j = index) then true else mem b j.
Proof.
  revert n index. induction b as [|m b IH]; intros n index Hwf Hi; [done|].
  destruct Hwf as (Hlen & Hok & Hrange & Hup). simpl.
  destruct (set_bit64_spec m index) as (m' & -> & Hlen' & Hok' & Hrd & Htb); [|done|].
  { rewrite Hlen. by apply words_cover. }
  simpl. rewrite shiftr_6.
  assert (Hrange' : forall j, tb m' j = true -> 0 <= j < n).
  { intros j. rewrite Htb. case_decide; [by subst|apply Hrange]. }
  destruct b as [|m1 b1].
  { exists [m']. split_and!; try done. simpl. split_and!; try done; lia. }
  destruct Hup as [Hwf' Hsum].
  destruct (IH (zlen m) (index / 64) Hwf') as (b2 & -> & Hwf2 & Hl2 & Hmem).
  { rewrite Hlen. by apply word_index. }
  simpl. destruct b2 as [|m2 b2]; [done|]. eexists. split; [done|].
  split; [|split; [simpl in *; lia|apply Htb]].
  split_and!; [lia|done|done|by rewrite Hlen'|].
  intros k w Hw. simpl in Hmem. rewrite Hmem. case_decide as Hk.
  - subst k. destruct (Z.eqb_spec w 0) as [->|]; [|done]. exfalso.
    pose proof (proj1 (word_zero m' (index / 64) 0 Hok' Hw) eq_refl index eq_refl) as Hb.
    specialize (Htb index). rewrite decide_True in Htb by done. congruence.
  - rewrite Hrd in Hw by done. by apply Hsum.
Qed.

(** When bits of a level are only cleared, a word that is still non-zero was
    non-zero before, so its summary bit is set. *)
Lemma summary_shrink (m m' m1 : list Z) (k : Z) :
  Forall word_ok m -> Forall word_ok m' -> zlen m' = zlen m ->
  (forall j, tb m' j = true -> tb m j = true) ->
  (forall k w, rd m k = Some w -> tb m1 k = negb (w =? 0)) ->
  0 <= k < zlen m' ->
  forall v, rd m' k = Some v -> v <> 0 -> tb m1 k = true.
Proof.
  intros Hok Hok' Hlen Hsub Hsum Hk v Hv Hv0.
  destruct (rd_is_Some m k) as [u Hu]; [by rewrite <- Hlen|].
  rewrite (Hsum _ _ Hu). destruct (Z.eqb_spec u 0) as [->|]; [exfalso|done].
  apply Hv0, (word_zero m' k v Hok' Hv). intros j Hj.
  destruct (tb m' j) eqn:E; [|done]. apply Hsub in E.
  pose proof (proj1 (word_zero m k 0 Hok Hu) eq_refl j Hj). congruence.
Qed.

Lemma clear_above_spec (b : IterableBitmap) (below : list Z) (index : Z) :
  wf (zlen below) b -> Forall word_ok below -> 0 <= index < zlen below ->
  (forall k w, rd below k = Some w -> k <> index -> mem b k = negb (w =? 0)) ->
  (forall w, rd below index = Some w -> w <> 0 -> mem b index = true) ->
  exists b', clear_above below b index = Some b' /\ wf (zlen below) b' /\ length b' = length b /\
    forall k w, rd below k = Some w -> mem b' k = negb (w =? 0).
Proof.
  revert below index. induction b as [|m b IH]; intros below index Hwf Hbok Hi Hne Hat; [done|].
  destruct Hwf as (Hlen & Hok & Hrange & Hup). simpl.
  destruct (rd_is_Some below index Hi) as [w Hw]. rewrite Hw. simpl.
  assert (Hm : exists m', (if w =? 0 then clear_bit64 index m else Some m) = Some m' /\
    zlen m' = zlen m /\ Forall word_ok m' /\ (forall k, k <> index / 64 -> rd m' k = rd m k) /\
    (forall j, tb m' j = if decide (j = index) then negb (w =? 0) else tb m j)).
  { destruct (Z.eqb_spec w 0) as [->|Hw0].
    - apply clear_bit64_spec; [rewrite Hlen; by apply words_cover|done].
    - exists m. split_and!; try done. intros j. case_decide; [subst|done]. by apply (Hat w). }
  destruct Hm as (m' & -> & Hlen' & Hok' & Hrd & Htb). simpl. rewrite shiftr_6.
  assert (Hsum0 : forall k w, rd below k = Some w -> tb m' k = negb (w =? 0)).
  { intros k v Hv. rewrite Htb. case_decide as Hk; [subst; congruence|]. by apply Hne. }
  assert (Hsub : forall j, tb m' j = true -> tb m j = true).
  { intros j. rewrite Htb. case_decide as Hj; [subst|done].
    destruct (Z.eqb_spec w 0); [done|]. intros _. by apply (Hat w). }
  destruct b as [|m1 b1].
  { exists [m']. split_and!; try done. simpl. split_and!; auto; lia. }
  destruct Hup as [Hwf' Hsum].
  assert (Hi6 : 0 <= index / 64 < zlen m') by (rewrite Hlen', Hlen; by apply word_index).
  rewrite <- Hlen' in Hwf'.
  destruct (IH m' (index / 64) Hwf' Hok' Hi6) as (b2 & -> & Hwf2 & Hl2 & Hmem).
  { intros k v Hv Hk. rewrite Hrd in Hv by done. by apply Hsum. }
  { by apply (summary_shrink m m' m1). }
  simpl. destruct b2 as [|m2 b2]; [done|]. eexists. split; [done|].
  split; [|split; [simpl in *; lia|done]].
  split_and!; [lia|done|intros j Hj; auto|done|done].
Qed.

Lemma clear_spec (b : IterableBitmap) (n index : Z) :
  wf n b -> 0 <= index < n ->
  exists b', clear b index = Some b' /\ wf n b' /\ length b' = length b /\
    forall j, mem b' j = if decide (j = index) then false else mem b j.
Proof.
  intros Hwf Hi. destruct b as [|m b]; [done|].
  destruct Hwf as (Hlen & Hok & Hrange & Hup). simpl.
  destruct (clear_bit64_spec m index) as (m' & -> & Hlen' & Hok' & Hrd & Htb); [|done|].
  { rewrite Hlen. by apply words_cover. }
  simpl. rewrite shiftr_6.
  assert (Hsub : forall j, tb m' j = true -> tb m j = true).
  { intros j. rewrite Htb. by case_decide. }
  destruct b as [|m1 b1].
  { exists [m']. split_and!; try done. simpl. split_and!; auto; lia. }
  destruct Hup as [Hwf' Hsum].
  assert (Hi6 : 0 <= index / 64 < zlen m') by (rewrite Hlen', Hlen; by apply word_index).
  rewrite <- Hlen' in Hwf'.
  destruct (clear_above_spec (m1 :: b1) m' (index / 64) Hwf' Hok' Hi6)
    as (b2 & -> & Hwf2 & Hl2 & Hmem).
  { intros k v Hv Hk. rewrite Hrd in Hv by done. by apply Hsum. }
  { by apply (summary_shrink m m' m1). }
  simpl. destruct b2 as [|m2 b2]; [done|]. eexists. split; [done|].
  split; [|split; [simpl in *; lia|apply Htb]].
  split_and!; [lia|done|intros j Hj; auto|done|done].
Qed.

(** ** The empty bitmap *)

(** The level sizes by recursion: a level per round until one word is left. *)
Fixpoint level_sizes (fuel : nat) (n : Z) : list Z :=
  match fuel with
  | O => []
  | S fuel =>
      let l := (n + 63) / 64 in l :: (if l =? 1 then [] else level_sizes fuel l)
  end.

Lemma words_pos (n : Z) : 0 < n -> 1 <= (n + 63) / 64.
Proof. intros. apply Z.div_le_lower_bound; lia. Qed.

Lemma levels_sizes (size : Z) :
  0 < size -> take (levels size) [l0 size; l1 size; l2 size; l3 size; l4 size] = level_sizes 5 size.
Proof.
  intros Hs. unfold levels, l4, l3, l2, l1, l0. cbn [level_sizes].
  pose proof (words_pos size Hs) as H0. set (a := (size + 63) / 64) in *. unfold up at 4 5 6 7 8 9 10.
  unfold up.
  destruct (Z.eqb_spec a 1) as [->|Ha]; [reflexivity|].
  pose proof (words_pos a ltac:(lia)) as H1. set (b := (a + 63) / 64) in *.
  destruct (Z.eqb_spec b 1) as [->|Hb]; [reflexivity|].
  pose proof (words_pos b ltac:(lia)) as H2. set (c := (b + 63) / 64) in *.
  destruct (Z.eqb_spec c 1) as [->|Hc]; [reflexivity|].
  pose proof (words_pos c ltac:(lia)) as H3. set (d := (c + 63) / 64) in *.
  destruct (Z.eqb_spec d 1) as [->|Hd]; [reflexivity|].
  pose proof (words_pos d ltac:(lia)) as H4. set (e := (d + 63) / 64) in *.
  destruct (Z.ltb_spec 0 e); [|lia]. destruct (e =? 1); reflexivity.
Qed.

Lemma rd_replicate (n k w : Z) : rd (replicate (Z.to_nat n) 0) k = Some w -> w = 0.
Proof. intros [_ H]%rd_Some. by apply lookup_replicate in H as [-> _]. Qed.

Lemma tb_replicate (n j : Z) : tb (replicate (Z.to_nat n) 0) j = false.
Proof.
  unfold tb. destruct (rd _ _) as [w|] eqn:E; [|done].
  apply rd_replicate in E as ->. apply Z.bits_0.
Qed.

Lemma wf_sizes (fuel : nat) (n : Z) :
  0 < n -> n <= 64 ^ Z.of_nat (S fuel) ->
  wf n ((fun l => replicate (Z.to_nat l) 0) <$> level_sizes (S fuel) n).
Proof.
  revert n. induction fuel as [|fuel IH]; intros n Hn Hmax.
  all: remember (S _) as f eqn:Hf in |- *; destruct f as [|f]; [done|]; injection Hf as ->.
  all: cbn [level_sizes fmap list_fmap]; pose proof (words_pos n Hn) as Hw.
  all: set (l := (n + 63) / 64) in *.
  all: assert (Hlen : zlen (replicate (Z.to_nat l) 0) = l)
         by (unfold zlen; rewrite length_replicate; lia).
  all: assert (Hok : Forall word_ok (replicate (Z.to_nat l) 0))
         by (apply Forall_replicate; unfold word_ok; lia).
  all: assert (Hn64 : 64 * l <= n + 63) by (unfold l; apply Z.mul_div_le; lia).
  - change (64 ^ Z.of_nat 1) with 64 in Hmax.
    destruct (Z.eqb_spec l 1); [|lia]. cbn [fmap list_fmap wf]. split_and!; [done|done| |lia].
    intros j. by rewrite tb_replicate.
  - destruct (Z.eqb_spec l 1) as [Hl|Hl]; cbn [fmap list_fmap wf].
    { split_and!; [done|done| |lia]. intros j. by rewrite tb_replicate. }
    assert (Hl64 : l <= 64 ^ Z.of_nat (S fuel)).
    { rewrite (Nat2Z.inj_succ (S fuel)), Z.pow_succ_r in Hmax by lia. lia. }
    specialize (IH l ltac:(lia) Hl64).
    cbn [level_sizes fmap list_fmap] in *. rewrite Hlen.
    split; [done|]. split; [done|]. split; [intros j; by rewrite tb_replicate|].
    split; [exact IH|]. intros k w ->%rd_replicate. by rewrite tb_replicate.
Qed.

Lemma wf_new (size : Z) : 0 < size <= 2 ^ 30 -> wf size (IterableBitmap_new size).
Proof.
  intros Hs. unfold IterableBitmap_new. rewrite levels_sizes by lia. apply (wf_sizes 4); [lia|].
  change (64 ^ Z.of_nat 5) with (2 ^ 30). lia.
Qed.

Lemma mem_new (size j : Z) : mem (IterableBitmap_new size) j = false.
Proof.
  unfold IterableBitmap_new, levels.
  repeat case_match; cbn [take fmap list_fmap mem]; apply tb_replicate.
Qed.

(** * Enumeration *)

Definition word (m : list Z) (k : Z) : Z := default 0 (rd m k).

(** The bit indices of word [k] of a level that are set. *)
Definition cells (m : list Z) (k : Z) : list Z := (fun n => 64 * k + n) <$> bits (word m k).

(** All set bits of the lowest level, found from the root down. *)
Fixpoint full (b : IterableBitmap) : list Z :=
  match b with
  | [] => []
  | [m] => cells m 0
  | m :: b' => full b' ≫= cells m
  end.

Lemma elem_of_cells (m : list Z) (k x : Z) :
  0 <= k < zlen m -> x ∈ cells m k <-> x / 64 = k /\ tb m x = true.
Proof.
  intros Hk. unfold cells, word, tb. rewrite list_elem_of_fmap.
  destruct (rd_is_Some m k Hk) as [w Hw]. rewrite Hw. simpl. split.
  - intros (n & -> & [Hn Hb]%elem_of_bits).
    rewrite Z.mul_comm, Z.div_add_l, Z.div_small, Z.add_0_r, Hw by lia. split; [done|].
    by rewrite Z.add_comm, Z.mod_add, Z.mod_small by lia.
  - intros [<- Hb]. rewrite Hw in Hb. exists (x mod 64).
    rewrite elem_of_bits. pose proof (Z.mod_pos_bound x 64). pose proof (Z.div_mod x 64).
    split; [lia|]. split; [lia|done].
Qed.

Lemma elem_of_full (b : IterableBitmap) (n x : Z) : wf n b -> x ∈ full b <-> mem b x = true.
Proof.
  revert n x. induction b as [|m b IH]; intros n x Hwf; [done|].
  destruct Hwf as (Hlen & Hok & Hrange & Hup).
  assert (Hx : mem (m :: b) x = true -> 0 <= x / 64 < zlen m).
  { intros H%Hrange. rewrite Hlen. by apply word_index. }
  destruct b as [|m1 b1].
  - simpl full. rewrite elem_of_cells by lia. simpl. split; [tauto|].
    intros H. specialize (Hx H). split; [lia|done].
  - destruct Hup as [Hwf' Hsum]. cbn [full]. rewrite list_elem_of_bind. split.
    + intros (k & Hc & Hk). apply (IH _ _ Hwf') in Hk.
      destruct Hwf' as (_ & _ & Hr' & _). apply Hr' in Hk.
      by apply elem_of_cells in Hc as [_ ?].
    + intros H. specialize (Hx H). exists (x / 64). rewrite elem_of_cells by done.
      split; [done|]. rewrite (IH _ _ Hwf'). cbn [mem].
      destruct (rd_is_Some m (x / 64) Hx) as [w Hw]. rewrite (Hsum _ _ Hw).
      destruct (Z.eqb_spec w 0) as [->|]; [|done].
      pose proof (proj1 (word_zero m _ 0 Hok Hw) eq_refl x eq_refl). simpl in H. congruence.
Qed.

Lemma sorted_app (l k : list Z) :
  StronglySorted Z.lt l -> StronglySorted Z.lt k ->
  (forall x y, x ∈ l -> y ∈ k -> x < y) -> StronglySorted Z.lt (l ++ k).
Proof.
  intros Hl Hk Hlk. induction Hl as [|x l _ IH Hx]; [done|]. simpl. constructor.
  - apply IH. intros. apply Hlk; [by right|done].
  - apply Forall_app. split; [done|]. apply Forall_forall. intros. apply Hlk; [by left|done].
Qed.

Lemma cells_range (m : list Z) (k x : Z) : x ∈ cells m k -> 64 * k <= x < 64 * k + 64.
Proof. unfold cells. intros (n & -> & [? _]%elem_of_bits)%list_elem_of_fmap. lia. Qed.

Lemma cells_sorted (m : list Z) (k : Z) : StronglySorted Z.lt (cells m k).
Proof.
  unfold cells. generalize (bits_sorted (word m k)).
  induction 1 as [|x l _ IH Hx]; [constructor|]. simpl. constructor; [done|].
  apply Forall_fmap, Forall_forall. intros y Hy. eapply Forall_forall in Hx; [|done]. simpl. lia.
Qed.

Lemma full_sorted (b : IterableBitmap) : StronglySorted Z.lt (full b).
Proof.
  induction b as [|m b IH]; [constructor|]. destruct b as [|m1 b1]; [apply cells_sorted|].
  change (full (m :: m1 :: b1)) with (full (m1 :: b1) ≫= cells m).
  revert IH. generalize (full (m1 :: b1)). clear.
  induction 1 as [|k l _ IH Hk]; [constructor|]. simpl.
  apply sorted_app; [apply cells_sorted|done|].
  intros x y Hx%cells_range (k' & Hy%cells_range & Hk')%list_elem_of_bind.
  eapply Forall_forall in Hk; [|done]. lia.
Qed.

(** The bit indices of the lowest level an iterator has yet to visit, the
    current one included. *)
Fixpoint pend (b : IterableBitmap) (it : iterator) : list Z :=
  match it, b with
  | [c], _ => bits c.(mask)
  | c :: up, m :: b' =>
      match pend b' up with
      | [] => []
      | k :: ks => ((fun n => 64 * k + n) <$> bits c.(mask)) ++ (ks ≫= cells m)
      end
  | _, _ => []
  end.

(** Every mask of the path is non-zero, the pending bits are set, and every
    index is that of the first pending bit, scaled by [s] at the lowest level
    and by 64 above. *)
Fixpoint it_ok (s : Z) (b : IterableBitmap) (it : iterator) : Prop :=
  match it, b with
  | c :: up, m :: b' =>
      word_ok c.(mask) /\ c.(mask) <> 0 /\
      (exists x, head (pend b it) = Some x /\ c.(i) = s * x) /\
      Forall (fun k => tb m k = true) (pend b it) /\
      match up, b' with [], [] => True | [], _ | _, [] => False | _, _ => it_ok 64 b' up end
  | _, _ => False
  end.

Lemma bits_head (w : Z) : word_ok w -> w <> 0 -> exists c t, bits w = c :: t.
Proof. intros Hw H0. destruct (bits w) eqn:E; [by apply bits_nil in E|eauto]. Qed.

Lemma it_ok_shift (b : IterableBitmap) (it : iterator) :
  it_ok 1 b it -> it_ok 64 b (shift6 it) /\ pend b (shift6 it) = pend b it.
Proof.
  destruct it as [|c up], b as [|m b']; try done.
  assert (Hp : pend (m :: b') (shift6 (c :: up)) = pend (m :: b') (c :: up)) by (destruct up; done).
  intros (Hok & Hne & (x & Hx & Hi) & Hall & Hup). split; [|done]. cbn [shift6] in *. cbn [it_ok].
  rewrite Hp. split; [done|]. split; [done|]. split; [|done].
  exists x. split; [done|]. simpl. rewrite Z.shiftl_mul_pow2, Hi by lia. lia.
Qed.

Lemma it_ok_base (s : Z) (b : IterableBitmap) (it : iterator) :
  it_ok s b it -> exists x t, pend b it = x :: t /\ base it = s * x.
Proof.
  destruct it as [|c up], b as [|m b']; try done. intros (_ & _ & (x & Hx & Hi) & _).
  destruct (pend (m :: b') (c :: up)) as [|y t]; [done|]. injection Hx as ->. eauto.
Qed.

Lemma it_ok_all (s : Z) (b : IterableBitmap) (it : iterator) :
  it_ok s b it -> Forall (fun k => mem b k = true) (pend b it).
Proof. destruct it as [|c up], b as [|m b']; try done. by intros (_ & _ & _ & Hall & _). Qed.

(** A pending word of a well-formed bitmap is inside the level below and is
    not zero. *)
Lemma summary_word (n : Z) (m m1 : list Z) (b : IterableBitmap) (k : Z) :
  wf n (m :: m1 :: b) -> tb m1 k = true ->
  exists w, rd m k = Some w /\ word_ok w /\ w <> 0.
Proof.
  intros (Hlen & Hok & _ & Hwf' & Hsum) Hk.
  destruct Hwf' as (_ & _ & Hr & _). specialize (Hr _ Hk).
  destruct (rd_is_Some m k Hr) as [w Hw]. exists w. split; [done|].
  rewrite (Hsum _ _ Hw) in Hk. split.
  - apply rd_Some in Hw as [_ Hw]. by eapply Forall_lookup_1 in Hok.
  - intros ->. done.
Qed.

Lemma cells_set (n : Z) (m m1 : list Z) (b : IterableBitmap) (ks : list Z) :
  wf n (m :: m1 :: b) -> Forall (fun k => tb m1 k = true) ks ->
  Forall (fun x => tb m x = true) (ks ≫= cells m).
Proof.
  intros Hwf Hks. apply Forall_forall. intros x (k & Hx & Hk)%list_elem_of_bind.
  eapply Forall_forall in Hks; [|done].
  destruct Hwf as (_ & _ & _ & (_ & _ & Hr & _) & _). specialize (Hr _ Hks).
  by apply elem_of_cells in Hx as [_ ?].
Qed.

(** Loading the word of the first pending bit of the level above. *)
Lemma descend (n : Z) (m m1 : list Z) (b : IterableBitmap) (up : iterator) :
  wf n (m :: m1 :: b) -> it_ok 1 (m1 :: b) up ->
  exists w c, rd m (base up) = Some w /\ ctzll w = Some c /\
    it_ok 1 (m :: m1 :: b) ({| i := c + base (shift6 up); mask := w |} :: shift6 up) /\
    pend (m :: m1 :: b) ({| i := c + base (shift6 up); mask := w |} :: shift6 up)
      = pend (m1 :: b) up ≫= cells m.
Proof.
  intros Hwf Hit. destruct (it_ok_base 1 _ _ Hit) as (x & t & Hp & Hb).
  pose proof (it_ok_all _ _ _ Hit) as Hall. rewrite Hp in Hall.
  pose proof (Forall_inv Hall) as Hx. rewrite Z.mul_1_l in Hb.
  destruct (summary_word _ _ _ _ _ Hwf Hx) as (w & Hw & Hwok & Hw0).
  destruct (bits_head w Hwok Hw0) as (c & r & Hbits).
  destruct (it_ok_shift _ _ Hit) as [Hit64 Hp64].
  destruct (it_ok_base 64 _ _ Hit64) as (x' & t' & Hp' & Hb').
  rewrite Hp64, Hp in Hp'. injection Hp' as <- <-.
  exists w, c. rewrite Hb. split; [done|]. split; [unfold ctzll; by rewrite Hbits|].
  rewrite Hp. rewrite Hp in Hp64.
  assert (Hcells : cells m x = (64 * x + c) :: ((fun n => 64 * x + n) <$> r)).
  { unfold cells, word. rewrite Hw. simpl. by rewrite Hbits. }
  destruct (shift6 up) as [|c0 u0] eqn:Hs; [by destruct up|].
  assert (Hpend : pend (m :: m1 :: b) ({| i := c + base (c0 :: u0); mask := w |} :: c0 :: u0)
    = (x :: t) ≫= cells m).
  { cbn [pend]. cbn [pend] in Hp64. rewrite Hp64. simpl. rewrite Hbits, Hcells. done. }
  split; [|done]. cbn [it_ok]. rewrite Hpend.
  split; [done|]. split; [done|]. split; [|split; [by eapply cells_set|done]].
  simpl. rewrite Hcells. eexists. split; [done|]. simpl in Hb' |- *. lia.
Qed.

Lemma incr_spec (s n : Z) (b : IterableBitmap) (it : iterator) :
  wf n b -> it_ok s b it ->
  match tail (pend b it) with
  | [] => incr b it = Some None
  | rest => exists it', incr b it = Some (Some it') /\ it_ok 1 b it' /\ pend b it' = rest
  end.
Proof.
  revert s n b. induction it as [|c up IH]; intros s n b Hwf Hit; [by destruct b|].
  destruct b as [|m b']; [done|].
  destruct Hit as (Hcok & Hc0 & (x & Hx & Hi) & Hall & Hup).
  destruct (bits_disable c.(mask) Hcok Hc0) as [Hdok Hdb].
  destruct (bits_head _ Hcok Hc0) as (a & r & Hbits).
  set (d := disable_least_significant_bit c.(mask)) in *. rewrite Hbits in Hdb. simpl in Hdb.
  cbn [incr]. fold d. destruct (Z.eqb_spec d 0) as [Hd0|Hd0].
  - rewrite Hd0, bits_0 in Hdb. subst r.
    destruct up as [|c1 up1].
    { cbn [pend]. rewrite Hbits. done. }
    destruct b' as [|m1 b1]; [done|].
    destruct (it_ok_base _ _ _ Hup) as (k & ks & Hp & _).
    specialize (IH 64 _ _ (wf_tail _ _ _ _ Hwf) Hup). rewrite Hp in IH. cbn [tail] in IH.
    assert (Hpend : pend (m :: m1 :: b1) (c :: c1 :: up1) = (64 * k + a) :: (ks ≫= cells m)).
    { cbn [pend]. cbn [pend] in Hp. rewrite Hp, Hbits. done. }
    rewrite Hpend. cbn [tail]. destruct ks as [|k2 ks].
    { change ([] ≫= cells m) with (@nil Z). by rewrite IH. }
    destruct IH as (up' & Hinc & Hit' & Hp'). 
    destruct (descend _ _ _ _ up' Hwf Hit') as (w & n0 & Hw & Hn0 & Hok & Hpd).
    rewrite Hp' in Hpd.
    destruct (it_ok_base _ _ _ Hok) as (y & t & Hy & _). rewrite Hpd in Hy.
    rewrite Hy, Hinc. cbn [mbind option_bind]. rewrite Hw. cbn [mbind option_bind]. rewrite Hn0. cbn [mbind option_bind].
    eexists. split; [done|]. split; [done|]. by rewrite Hpd.
  - destruct r as [|a2 r]; [apply bits_nil in Hdb; done|].
    unfold ctzll. rewrite Hdb. cbn [head mbind option_bind].
    assert (Hpd : pend (m :: b') ({| i := a2 + base up; mask := d |} :: up)
                = tail (pend (m :: b') (c :: up)) /\
              head (tail (pend (m :: b') (c :: up))) = Some (a2 + base up)).
    { destruct up as [|c1 up1].
      - cbn [pend]. rewrite Hbits. simpl. rewrite Hdb. split; [done|]. f_equal. lia.
      - destruct b' as [|m1 b1]; [done|].
        destruct (it_ok_base _ _ _ Hup) as (k & ks & Hp & Hbase).
        cbn [pend]. cbn [pend] in Hp. rewrite Hp. rewrite Hbits. simpl. rewrite Hdb.
        split; [done|]. f_equal. simpl in Hbase. lia. }
    destruct Hpd as [Hpd Hhd].
    destruct (tail (pend (m :: b') (c :: up))) as [|y t] eqn:Ht; [done|].
    eexists. split; [done|]. split; [|done]. cbn [it_ok]. rewrite Hpd.
    split; [done|]. split; [done|]. split; [exists y; injection Hhd as ->; split; [done|cbn [i]; lia]|].
    split; [|done]. rewrite <- Ht. destruct (pend (m :: b') (c :: up)); [constructor|].
    by inversion Hall.
Qed.

(** [begin] below a level whose path is resolved. *)
Lemma resolve_spec (lower : list (list Z)) (m1 : list Z) (b : IterableBitmap) (it : iterator) (n : Z) :
  wf n (lower ++ m1 :: b) -> it_ok 1 (m1 :: b) it -> pend (m1 :: b) it = full (m1 :: b) ->
  exists it', resolve (rev lower) it = Some it' /\ it_ok 1 (lower ++ m1 :: b) it' /\
    pend (lower ++ m1 :: b) it' = full (lower ++ m1 :: b).
Proof.
  revert m1 b it. induction lower as [|m lower IH] using rev_ind; intros m1 b it Hwf Hit Hp.
  { exists it. done. }
  rewrite <- app_assoc in *. cbn [app] in *.
  assert (Hwf' : exists n', wf n' (m :: m1 :: b)).
  { clear - Hwf. revert n Hwf. induction lower as [|m0 lower IH]; intros n Hwf; [eauto|].
    destruct (lower ++ m :: m1 :: b) as [|z r] eqn:E; [by destruct lower|].
    simpl in Hwf. rewrite E in Hwf. apply wf_tail in Hwf. eauto. }
  destruct Hwf' as [n' Hwf']. rewrite rev_app_distr. cbn [rev app resolve].
  destruct (descend n' m m1 b it Hwf' Hit) as (w & c & Hw & Hc & Hok & Hpd).
  rewrite Hw. cbn [mbind option_bind]. rewrite Hc. cbn [mbind option_bind].
  apply IH; [done|done|]. by rewrite Hpd, Hp.
Qed.

Lemma wf_root (n : Z) (lower : list (list Z)) (root : list Z) :
  wf n (lower ++ [root]) -> exists w, root = [w] /\ word_ok w.
Proof.
  revert n. induction lower as [|m lower IH]; intros n Hwf.
  - destruct Hwf as (_ & Hok & _ & Hlen). destruct root as [|w [|? ?]]; try done.
    + exists w. split; [done|]. by inversion Hok.
    + unfold zlen in Hlen. simpl in Hlen. lia.
  - simpl in Hwf. destruct (lower ++ [root]) as [|z r] eqn:E; [by destruct lower|].
    apply wf_tail in Hwf. by apply (IH (zlen m)).
Qed.

Lemma cells_root (w : Z) : cells [w] 0 = bits w.
Proof. unfold cells, word, rd. simpl. apply list_fmap_id. Qed.

Lemma full_nil (lower : list (list Z)) (b : IterableBitmap) :
  b <> [] -> full b = [] -> full (lower ++ b) = [].
Proof.
  intros Hb Hf. induction lower as [|m lower IH]; [done|]. simpl.
  destruct (lower ++ b) eqn:E; [by destruct lower, b|]. by rewrite IH.
Qed.

Lemma begin_spec (n : Z) (b : IterableBitmap) :
  wf n b ->
  match full b with
  | [] => begin b = Some None
  | _ => exists it, begin b = Some (Some it) /\ it_ok 1 b it /\ pend b it = full b
  end.
Proof.
  intros Hwf. destruct b as [|root lower _] using rev_ind; [done|].
  destruct (wf_root _ _ _ Hwf) as (w & -> & Hwok).
  unfold begin. rewrite rev_app_distr. simpl. unfold rd. simpl.
  destruct (Z.eqb_spec w 0) as [->|Hw0].
  { rewrite full_nil; done. }
  destruct (bits_head w Hwok Hw0) as (c & r & Hbits).
  unfold ctzll. rewrite Hbits. simpl.
  destruct (resolve_spec lower [w] [] [{| i := c; mask := w |}] n Hwf) as (it & Hr & Hok & Hp).
  - cbn [it_ok pend]. simpl. rewrite Hbits.
    split; [done|]. split; [done|]. split; [exists c; split; [done|lia]|]. split; [|done].
    apply Forall_forall. intros x Hx. assert (Hin : x ∈ full [[w]]).
    { simpl. rewrite cells_root, Hbits. done. }
    clear - Hin Hwf Hwok. revert Hin. simpl full. rewrite elem_of_cells by (unfold zlen; simpl; lia).
    tauto.
  - simpl. by rewrite cells_root.
  - rewrite Hr. simpl. destruct (full (lower ++ [[w]])) eqn:E.
    + destruct (it_ok_base _ _ _ Hok) as (x & t & Hx & _). congruence.
    + eauto.
Qed.

Lemma walk_spec (fuel : nat) (n : Z) (b : IterableBitmap) (it : iterator) :
  wf n b -> it_ok 1 b it -> (length (pend b it) <= fuel)%nat ->
  walk fuel b (Some it) = Some (pend b it).
Proof.
  revert it. induction fuel as [|fuel IH]; intros it Hwf Hit Hf.
  all: destruct (it_ok_base _ _ _ Hit) as (x & t & Hp & Hb).
  { rewrite Hp in Hf. simpl in Hf. lia. }
  pose proof (incr_spec 1 n b it Hwf Hit) as Hinc. rewrite Hp in *. simpl in *.
  destruct t as [|y t].
  - rewrite Hinc. simpl. destruct fuel; simpl; do 2 f_equal; lia.
  - destruct Hinc as (it' & Hi & Hok & Hp'). rewrite Hi. cbn [mbind option_bind].
    rewrite IH; [|done|done|by rewrite Hp'; simpl in *; lia].
    rewrite Hp'. simpl. do 2 f_equal. lia.
Qed.

Lemma sorted_length (l : list Z) (n : Z) :
  StronglySorted Z.lt l -> (forall x, x ∈ l -> 0 <= x < n) -> Z.of_nat (length l) <= Z.max 0 n.
Proof.
  intros Hs Hb. assert (Hle : (length l <= length (seqZ 0 n))%nat).
  { apply submseteq_length, NoDup_submseteq.
    - clear Hb. induction Hs as [|x l _ IH Hx]; constructor; [|done].
      intros Hin. eapply Forall_forall in Hx; [|done]. lia.
    - intros x Hx%Hb. apply elem_of_seqZ. lia. }
  rewrite length_seqZ in Hle. lia.
Qed.

Lemma mem_range (n : Z) (b : IterableBitmap) (x : Z) : wf n b -> mem b x = true -> 0 <= x < n.
Proof. destruct b as [|m b']; [done|]. intros (_ & _ & Hr & _). apply Hr. Qed.

(** The iteration, as a function of the set of bits alone. *)
Lemma elements_spec (n : Z) (b : IterableBitmap) :
  wf n b -> elements n b = Some (filter (fun j => mem b j = true) (seqZ 0 n)).
Proof.
  intros Hwf.
  assert (Hfull : full b = filter (fun j => mem b j = true) (seqZ 0 n)).
  { apply sorted_ext; [apply full_sorted| |].
    - destruct (decide (0 <= n)).
      + apply sorted_filter. rewrite <- (Z2Nat.id n) by lia. apply sorted_seqZ.
      + rewrite seqZ_nil by lia. constructor.
    - intros x. rewrite (elem_of_full b n x Hwf), list_elem_of_filter, elem_of_seqZ.
      split; [|tauto]. intros H. pose proof (mem_range n b x Hwf H). split; [done|lia]. }
  rewrite <- Hfull. unfold elements. pose proof (begin_spec n b Hwf) as Hb.
  destruct (full b) as [|x t] eqn:E.
  { rewrite Hb. simpl. by destruct (Z.to_nat n). }
  destruct Hb as (it & Hb & Hok & Hp). rewrite Hb. simpl. rewrite <- Hp.
  apply (walk_spec _ n); [done|done|]. rewrite Hp, <- E.
  pose proof (sorted_length (full b) n (full_sorted b)) as Hl.
  assert (forall x, x ∈ full b -> 0 <= x < n) as Hin.
  { intros y Hy. apply (mem_range n b y Hwf). by apply (elem_of_full b n). }
  specialize (Hl Hin). lia.
Qed.

Lemma get_spec (n : Z) (b : IterableBitmap) (j : Z) :
  wf n b -> 0 <= j < n -> get b j = Some (if mem b j then 1 else 0).
Proof.
  destruct b as [|m b']; [done|]. intros (Hlen & _) Hj. unfold get. simpl.
  apply test_bit_spec. rewrite Hlen. by apply words_cover.
Qed.

(** * Histories of updates *)

Inductive op := Set_ (index : Z) | Clear_ (index : Z).

Definition op_index (o : op) : Z := match o with Set_ n | Clear_ n => n end.

Definition step (b : IterableBitmap) (o : op) : option IterableBitmap :=
  match o with Set_ n => set b n | Clear_ n => clear b n end.

Fixpoint run (b : IterableBitmap) (ops : list op) : option IterableBitmap :=
  match ops with
  | [] => Some b
  | o :: ops => b' ← step b o; run b' ops
  end.

(** The finite set the bitmap stands for. *)
Definition set_step (X : gset Z) (o : op) : gset Z :=
  match o with Set_ n => {[ n ]} ∪ X | Clear_ n => X ∖ {[ n ]} end.

Definition represents (n : Z) (b : IterableBitmap) (X : gset Z) : Prop :=
  wf n b /\ forall j, mem b j = bool_decide (j ∈ X).

Lemma step_represents (n : Z) (b : IterableBitmap) (X : gset Z) (o : op) :
  represents n b X -> 0 <= op_index o < n ->
  exists b', step b o = Some b' /\ represents n b' (set_step X o).
Proof.
  intros [Hwf Hmem] Ho. destruct o as [k|k]; simpl in *.
  - destruct (set_spec b n k Hwf Ho) as (b' & -> & Hwf' & _ & Hm). exists b'. split; [done|].
    split; [done|]. intros j. rewrite Hm, Hmem. case_decide; [subst|].
    + by rewrite bool_decide_true by set_solver.
    + apply bool_decide_ext. set_solver.
  - destruct (clear_spec b n k Hwf Ho) as (b' & -> & Hwf' & _ & Hm). exists b'. split; [done|].
    split; [done|]. intros j. rewrite Hm, Hmem. case_decide; [subst|].
    + by rewrite bool_decide_false by set_solver.
    + apply bool_decide_ext. set_solver.
Qed.

Lemma run_represents (n : Z) (b : IterableBitmap) (X : gset Z) (ops : list op) :
  represents n b X -> Forall (fun o => 0 <= op_index o < n) ops ->
  exists b', run b ops = Some b' /\ represents n b' (foldl set_step X ops).
Proof.
  intros Hr Hops. revert b X Hr. induction Hops as [|o ops Ho _ IH]; intros b X Hr; [by eauto|].
  destruct (step_represents n b X o Hr Ho) as (b' & Hs & Hr').
  destruct (IH b' _ Hr') as (b2 & Hrun & Hr2). exists b2. simpl. by rewrite Hs.
Qed.

Lemma represents_new (n : Z) : 0 < n <= 2 ^ 30 -> represents n (IterableBitmap_new n) ∅.
Proof.
  intros Hn. split; [by apply wf_new|]. intros j. rewrite mem_new. by rewrite bool_decide_false by set_solver.
Qed.

(** After any history of [set] and [clear] calls with indices in range, a
    bitmap of up to 2^30 bits is memory safe, [get] answers membership in the
    finite set the history builds, and a [for] loop over the bitmap
    terminates and visits exactly the members, in increasing order. *)
Theorem bitmap_refines_set (size : Z) (ops : list op) :
  0 < size <= 2 ^ 30 -> Forall (fun o => 0 <= op_index o < size) ops ->
  let X := foldl set_step ∅ ops in
  exists b, run (IterableBitmap_new size) ops = Some b /\
    (forall j, 0 <= j < size -> get b j = Some (if decide (j ∈ X) then 1 else 0)) /\
    elements size b = Some (filter (fun j => j ∈ X) (seqZ 0 size)).
Proof.
  intros Hs Hops X.
  destruct (run_represents _ _ _ ops (represents_new size Hs) Hops) as (b & Hrun & Hwf & Hmem).
  fold X in Hmem. exists b. split; [done|]. split.
  - intros j Hj. rewrite (get_spec size b j Hwf Hj), Hmem. do 2 f_equal.
    by destruct (decide (j ∈ X)) eqn:E; [rewrite bool_decide_true|rewrite bool_decide_false].
  - rewrite (elements_spec size b Hwf). f_equal. apply list_filter_iff. intros j.
    rewrite Hmem. apply bool_decide_eq_true.
Qed.

Lemma bitmap_refines_set_witness :
  exists b, run (IterableBitmap_new 5000) [Set_ 4999; Set_ 7; Set_ 70; Clear_ 7] = Some b /\
    elements 5000 b = Some [70; 4999].
Proof.
  destruct (bitmap_refines_set 5000 [Set_ 4999; Set_ 7; Set_ 70; Clear_ 7]) as (b & Hrun & _ & Hel).
  - lia.
  - repeat constructor; simpl; lia.
  - exists b. split; [exact Hrun|]. rewrite Hel. vm_compute. reflexivity.
Defined.
End Bitmap.
