(* ===== verification/Pool.v ===== *)
(** The fixed-size element pool: util/pool_allocator.{h,c} (the free list) and
    util/pool.h (the C++ template on top of it).

    A free element holds, in its first four bytes, the index of the next free
    element; elements that were never allocated are not on any list but start
    at [alloc_end].  The storage of an element is therefore shared between the
    user's object and the free list, which the class [Poolable] states: a
    storage cell of type [T] has a first 32-bit word that can be read and
    overwritten.

    Theorems: allocation returns an index that is not in use, as long as there
    is one; every other cell keeps its contents; freeing makes the index
    available again; [Pool] refines a partial map from indices to objects. *)
From S2P Require Import Prelude Bitmap.

(** Storage of an object: its first 32-bit word, and its all-zero contents. *)
Class Poolable (T : Type) := {
  first_u32 : T -> Z;
  set_first_u32 : Z -> T -> T;
  zeroed : T;
  first_set : forall v x, 0 <= v < 2 ^ 32 -> first_u32 (set_first_u32 v x) = v;
}.

Module PoolAllocator.
Section pool_allocator.
Context {T : Type} `{Poolable T}.

Definition NULL_ELEM : Z := u32 (Z.lnot 0).

Record pool_allocator := {
  pool : list T;
  free_list : Z;
  alloc_end : Z;
  elem_size : Z;
  n_elems : Z;
}.

(** The cell [__pool_allocator_elem] points to: the byte offset is computed in
    32 bits. *)
Definition elem (map : pool_allocator) (index : Z) : option Z :=
  let off := u32 (index * map.(elem_size)) in
  if off mod map.(elem_size) =? 0 then Some (off / map.(elem_size)) else None.

(** A failed assertion is [None]. *)
Definition alloc (map : pool_allocator) : option (pool_allocator * Z) :=
  if negb (map.(free_list) <=? map.(alloc_end)) then None
  else if map.(free_list) =? NULL_ELEM then Some (map, u32 (Z.lnot 0))
  else
    let id := map.(free_list) in
    k ← elem map id;
    x ← rd map.(pool) k;
    let '(next, alloc_end') :=
      if id =? map.(alloc_end) then
        let next := if id <? u32 (map.(n_elems) - 1) then u32 (id + 1) else NULL_ELEM in
        (next, next)
      else (first_u32 x, map.(alloc_end)) in
    pool' ← wr map.(pool) k zeroed;
    Some ({| pool := pool'; free_list := next; alloc_end := alloc_end';
             elem_size := map.(elem_size); n_elems := map.(n_elems) |}, id).

Definition free (map : pool_allocator) (id : Z) : option pool_allocator :=
  if negb (id <? map.(n_elems)) then None
  else
    k ← elem map id;
    x ← rd map.(pool) k;
    pool' ← wr map.(pool) k (set_first_u32 map.(free_list) x);
    Some {| pool := pool'; free_list := id; alloc_end := map.(alloc_end);
            elem_size := map.(elem_size); n_elems := map.(n_elems) |}.

(** [pool_allocator_init] on non-null pointers; the pool is [pool0] as it was
    allocated. *)
Definition init (pool0 : list T) (elem_size n_elems : Z) : Z + pool_allocator :=
  if (n_elems =? 0) || (elem_size <? 4) then inl (- EINVAL)
  else inr {| pool := pool0; free_list := 0; alloc_end := 0;
              elem_size := elem_size; n_elems := n_elems |}.

(** * Invariant *)

(** The free list [fl] runs through [free] and ends at [stop]. *)
Fixpoint chain (p : list T) (fl : Z) (frees : list Z) (stop : Z) : Prop :=
  match frees with
  | [] => fl = stop
  | x :: xs => fl = x /\ exists c, rd p x = Some c /\ chain p (first_u32 c) xs stop
  end.

(** The number of elements that were ever allocated. *)
Definition high (map : pool_allocator) : Z :=
  if map.(alloc_end) =? NULL_ELEM then map.(n_elems) else map.(alloc_end).

Record pa_inv (map : pool_allocator) (frees : list Z) : Prop := {
  pa_n : 0 < map.(n_elems) < 2 ^ 32 - 1;
  pa_size : 0 < map.(elem_size) /\ map.(n_elems) * map.(elem_size) <= 2 ^ 32;
  pa_len : zlen map.(pool) = map.(n_elems);
  pa_end : map.(alloc_end) = NULL_ELEM \/ 0 <= map.(alloc_end) < map.(n_elems);
  pa_chain : chain map.(pool) map.(free_list) frees map.(alloc_end);
  pa_nodup : NoDup frees;
  pa_range : Forall (fun x => 0 <= x < high map) frees;
}.

(** An index is in use when it was allocated and is not on the free list. *)
Definition used (map : pool_allocator) (frees : list Z) (id : Z) : Prop :=
  0 <= id < high map /\ id ∉ frees.

Lemma elem_in_range (map : pool_allocator) (frees : list Z) (id : Z) :
  pa_inv map frees -> 0 <= id < map.(n_elems) -> elem map id = Some id.
Proof.
  intros Hinv Hid. destruct (pa_size _ _ Hinv) as [Hs Hm]. unfold elem.
  rewrite u32_small by nia. rewrite Z.mod_mul, Z.div_mul by lia. done.
Qed.

Lemma high_le (map : pool_allocator) (frees : list Z) :
  pa_inv map frees -> 0 <= high map <= map.(n_elems).
Proof.
  intros Hinv. pose proof (pa_n _ _ Hinv). unfold high.
  destruct (Z.eqb_spec (alloc_end map) NULL_ELEM); [lia|].
  destruct (pa_end _ _ Hinv); [done|lia].
Qed.

(** A write to a cell off the list does not disturb the chain. *)
Lemma pool_chain_frame (p p' : list T) (fl stop : Z) (frees : list Z) :
  (forall x, x ∈ frees -> rd p' x = rd p x) -> chain p fl frees stop -> chain p' fl frees stop.
Proof.
  revert fl. induction frees as [|x xs IH]; intros fl Hrd Hc; [done|].
  destruct Hc as (-> & c & Hx & Hc). split; [done|]. exists c.
  rewrite Hrd by left. split; [done|]. apply IH; [|done]. intros y Hy. apply Hrd. by right.
Qed.

Lemma NULL_ELEM_eq : NULL_ELEM = 2 ^ 32 - 1.
Proof. reflexivity. Qed.

Lemma init_inv (pool0 : list T) (es n : Z) :
  0 < n < 2 ^ 32 - 1 -> 4 <= es -> n * es <= 2 ^ 32 -> zlen pool0 = n ->
  exists map, init pool0 es n = inr map /\ pa_inv map [] /\ map.(pool) = pool0 /\
    map.(n_elems) = n /\ high map = 0.
Proof.
  intros Hn Hes Hm Hl. unfold init.
  destruct (Z.eqb_spec n 0); [lia|]. destruct (Z.ltb_spec es 4); [lia|]. simpl.
  eexists. split; [done|]. split; [|done].
  split; simpl; [done|lia|done|right; lia|done|constructor|constructor].
Qed.

Lemma chain_head (map : pool_allocator) (frees : list Z) :
  pa_inv map frees ->
  map.(free_list) = match frees with [] => map.(alloc_end) | x :: _ => x end.
Proof. intros Hinv. pose proof (pa_chain _ _ Hinv) as Hc. by destruct frees as [|x xs], Hc. Qed.

Lemma free_list_range (map : pool_allocator) (frees : list Z) :
  pa_inv map frees -> 0 <= map.(free_list) < 2 ^ 32 /\ map.(free_list) <= map.(alloc_end).
Proof.
  intros Hinv. rewrite (chain_head _ _ Hinv). pose proof (pa_n _ _ Hinv).
  pose proof (pa_end _ _ Hinv) as He. rewrite NULL_ELEM_eq in He.
  destruct frees as [|x xs]; [lia|].
  pose proof (Forall_inv (pa_range _ _ Hinv)) as Hx. simpl in Hx. unfold high in Hx.
  rewrite NULL_ELEM_eq in Hx. destruct (Z.eqb_spec (alloc_end map) (2 ^ 32 - 1)); lia.
Qed.

(** The allocator is exhausted exactly when every index is in use. *)
Lemma alloc_full (map : pool_allocator) :
  pa_inv map [] -> map.(alloc_end) = NULL_ELEM -> alloc map = Some (map, NULL_ELEM).
Proof.
  intros Hinv He. unfold alloc. rewrite (chain_head _ _ Hinv), Z.leb_refl. simpl.
  by rewrite He, Z.eqb_refl.
Qed.

Lemma alloc_spec (map : pool_allocator) (frees : list Z) :
  pa_inv map frees -> frees <> [] \/ map.(alloc_end) <> NULL_ELEM ->
  exists map' id frees', alloc map = Some (map', id) /\ pa_inv map' frees' /\
    0 <= id < map.(n_elems) /\ ~ used map frees id /\
    (forall x, used map' frees' x <-> used map frees x \/ x = id) /\
    rd map'.(pool) id = Some zeroed /\
    (forall x, x <> id -> rd map'.(pool) x = rd map.(pool) x) /\
    map'.(n_elems) = map.(n_elems) /\ id = map.(free_list).
Proof.
  intros Hinv Hne. destruct (free_list_range _ _ Hinv) as [Hfr Hfe].
  pose proof (high_le _ _ Hinv) as Hh. pose proof (pa_n _ _ Hinv) as Hn.
  pose proof (chain_head _ _ Hinv) as Hhd.
  assert (Hid : 0 <= map.(free_list) < map.(n_elems)).
  { rewrite Hhd. destruct frees as [|x xs].
    - destruct (pa_end _ _ Hinv) as [He|He]; [destruct Hne; congruence|lia].
    - pose proof (Forall_inv (pa_range _ _ Hinv)) as Hx. simpl in Hx. lia. }
  unfold alloc. destruct (Z.leb_spec map.(free_list) map.(alloc_end)); [|lia]. simpl.
  destruct (Z.eqb_spec map.(free_list) NULL_ELEM) as [E|_]; [rewrite NULL_ELEM_eq in E; lia|].
  rewrite (elem_in_range _ _ _ Hinv Hid). simpl.
  destruct (rd_is_Some map.(pool) map.(free_list)) as [c Hc]; [by rewrite (pa_len _ _ Hinv)|].
  rewrite Hc. simpl.
  pose proof (wr_in_range map.(pool) map.(free_list) zeroed
    ltac:(by rewrite (pa_len _ _ Hinv))) as Hwr.
  assert (Hrd : forall x, rd (<[Z.to_nat map.(free_list) := zeroed]> map.(pool)) x
                = if decide (map.(free_list) = x) then Some zeroed else rd map.(pool) x)
    by (intros x; apply (rd_wr _ _ _ _ _ Hwr)).
  destruct (Z.eqb_spec map.(free_list) map.(alloc_end)) as [Hend|Hend].
  - assert (Hf : frees = []).
    { destruct frees as [|x xs]; [done|]. exfalso.
      pose proof (Forall_inv (pa_range _ _ Hinv)) as Hx. simpl in Hx.
      unfold high in Hx. destruct (Z.eqb_spec (alloc_end map) NULL_ELEM) as [E|_]; [|lia].
      rewrite Hhd, E, NULL_ELEM_eq in Hend. lia. }
    subst frees. rewrite Hwr. simpl.
    rewrite u32_small by lia.
    assert (Hhigh : high map = map.(free_list)).
    { unfold high. rewrite <- Hend. destruct (Z.eqb_spec (free_list map) NULL_ELEM) as [E|_]; [|done].
      rewrite NULL_ELEM_eq in E. lia. }
    set (next := if _ <? _ then _ else _). eexists _, _, []. split; [done|].
    assert (Hhigh' : high {| pool := <[Z.to_nat map.(free_list) := zeroed]> map.(pool);
        free_list := next; alloc_end := next; elem_size := elem_size map; n_elems := n_elems map |}
        = map.(free_list) + 1).
    { unfold high, next. simpl. rewrite NULL_ELEM_eq.
      destruct (Z.ltb_spec map.(free_list) (map.(n_elems) - 1)).
      - rewrite u32_small by lia. destruct (Z.eqb_spec (free_list map + 1) (2 ^ 32 - 1)); lia.
      - rewrite Z.eqb_refl. lia. }
    split.
    { split; simpl; [done|apply (pa_size _ _ Hinv)|rewrite zlen_insert; apply (pa_len _ _ Hinv)
        | |done|constructor|constructor].
      unfold next. destruct (Z.ltb_spec map.(free_list) (map.(n_elems) - 1)); [right|by left].
      rewrite u32_small by lia. lia. }
    split; [done|]. unfold used. rewrite Hhigh, Hhigh'.
    split; [lia|]. split; [intros x; rewrite !elem_of_nil; lia|].
    simpl. split; [by rewrite Hrd, decide_True|]. split; [|done].
    intros x Hx. by rewrite Hrd, decide_False.
  - destruct frees as [|y ys]; [done|]. rewrite Hwr. simpl. subst y.
    pose proof (pa_nodup _ _ Hinv) as Hnd. apply NoDup_cons in Hnd as [Hnin Hnd].
    pose proof (pa_range _ _ Hinv) as Hr. inversion_clear Hr as [|? ? Hx Hxs].
    destruct (pa_chain _ _ Hinv) as (_ & c' & Hc' & Hch). rewrite Hc in Hc'. injection Hc' as <-.
    eexists _, _, ys. split; [done|]. split.
    { split; simpl; [done|apply (pa_size _ _ Hinv)|rewrite zlen_insert; apply (pa_len _ _ Hinv)
        |apply (pa_end _ _ Hinv)| |done|done].
      eapply pool_chain_frame; [|done]. intros x Hxin. rewrite Hrd, decide_False; [done|].
      intros <-. done. }
    split; [done|]. unfold used, high in *. simpl.
    split; [intros [_ Hn']; apply Hn'; left|]. split.
    { intros x. rewrite not_elem_of_cons. split.
      - intros [Hx1 Hx2]. destruct (decide (x = free_list map)); [by right|left; tauto].
      - intros [[Hx1 [Hx2 Hx3]]| ->]; done. }
    split; [by rewrite Hrd, decide_True|]. split; [|done].
    intros x Hxn. by rewrite Hrd, decide_False.
Qed.

Lemma free_spec (map : pool_allocator) (frees : list Z) (id : Z) (c : T) :
  pa_inv map frees -> used map frees id -> rd map.(pool) id = Some c ->
  exists map', free map id = Some map' /\ pa_inv map' (id :: frees) /\
    (forall x, used map' (id :: frees) x <-> used map frees x /\ x <> id) /\
    rd map'.(pool) id = Some (set_first_u32 map.(free_list) c) /\
    (forall x, x <> id -> rd map'.(pool) x = rd map.(pool) x) /\
    map'.(n_elems) = map.(n_elems) /\ map'.(free_list) = id.
Proof.
  intros Hinv [Hid Hnf] Hc. pose proof (high_le _ _ Hinv) as Hh.
  destruct (free_list_range _ _ Hinv) as [Hfr _].
  unfold free. destruct (Z.ltb_spec id map.(n_elems)); [|lia]. simpl.
  rewrite (elem_in_range _ _ _ Hinv) by lia. simpl. rewrite Hc. simpl.
  pose proof (wr_in_range map.(pool) id (set_first_u32 map.(free_list) c)
    ltac:(rewrite (pa_len _ _ Hinv); lia)) as Hwr.
  rewrite Hwr. simpl.
  assert (Hrd : forall x, rd (<[Z.to_nat id := set_first_u32 map.(free_list) c]> map.(pool)) x
     = if decide (id = x) then Some (set_first_u32 map.(free_list) c) else rd map.(pool) x)
    by (intros x; apply (rd_wr _ _ _ _ _ Hwr)).
  eexists. split; [done|]. split.
  { split; simpl; [apply (pa_n _ _ Hinv)|apply (pa_size _ _ Hinv)
      |rewrite zlen_insert; apply (pa_len _ _ Hinv)|apply (pa_end _ _ Hinv)| | |].
    - split; [done|]. eexists. rewrite Hrd, decide_True by done. split; [done|].
      rewrite first_set by done. eapply pool_chain_frame; [|apply (pa_chain _ _ Hinv)].
      intros x Hx. rewrite Hrd, decide_False; [done|]. by intros ->.
    - apply NoDup_cons. split; [done|apply (pa_nodup _ _ Hinv)].
    - constructor; [done|apply (pa_range _ _ Hinv)]. }
  split; [intros x; unfold used, high; simpl; rewrite not_elem_of_cons; tauto|].
  simpl. split; [by rewrite Hrd, decide_True|]. split; [|done].
  intros x Hx. by rewrite Hrd, decide_False.
Qed.

(** Writing an object into a cell that is off the free list. *)
Lemma write_inv (map : pool_allocator) (frees : list Z) (k : Z) (x : T) (cells : list T) :
  pa_inv map frees -> k ∉ frees -> wr map.(pool) k x = Some cells ->
  let map' := {| pool := cells; free_list := map.(free_list); alloc_end := map.(alloc_end);
                 elem_size := map.(elem_size); n_elems := map.(n_elems) |} in
  pa_inv map' frees /\ (forall y, used map' frees y <-> used map frees y).
Proof.
  intros Hinv Hk Hw map'. split; [|done].
  split; simpl; [apply (pa_n _ _ Hinv)|apply (pa_size _ _ Hinv)| |apply (pa_end _ _ Hinv)| 
    |apply (pa_nodup _ _ Hinv)|apply (pa_range _ _ Hinv)].
  - apply wr_Some in Hw as [_ ->]. rewrite zlen_insert. apply (pa_len _ _ Hinv).
  - eapply pool_chain_frame; [|apply (pa_chain _ _ Hinv)].
    intros y Hy. rewrite (rd_wr _ _ _ y _ Hw), decide_False; [done|]. by intros ->.
Qed.
End pool_allocator.
Arguments pool_allocator : clear implicits.
End PoolAllocator.

Module Pool.
Import PoolAllocator.
Section pool.
Context {T : Type} `{Poolable T}.
(** [SIZE] and [sizeof(poolable_type)]; [destroy_obj] is what the destructor of
    an element leaves in its storage. *)
Context (SIZE sizeof_elem : Z) (destroy_obj : T -> T).

Record Pool := {
  allocated : Bitmap.IterableBitmap;
  pool_alloc : pool_allocator T;
  elem_count : Z;
  max_elem_count : Z;
}.

(** [(index_type)x]: 16 bits unless the pool has 2^16 - 1 elements or more. *)
Definition to_index (x : Z) : Z := if 2 ^ 16 - 1 <=? SIZE then u32 x else u16 x.
Definition invalid : Z := if 2 ^ 16 - 1 <=? SIZE then 2 ^ 32 - 1 else 2 ^ 16 - 1.

(** The constructor over freshly allocated storage; the return value of
    [pool_allocator_init] is not looked at. *)
Definition Pool_new (elements0 : list T) : option Pool :=
  match init elements0 sizeof_elem SIZE with
  | inl _ => None
  | inr pa => Some {| allocated := Bitmap.IterableBitmap_new SIZE; pool_alloc := pa;
                      elem_count := 0; max_elem_count := 0 |}
  end.

Definition size (p : Pool) : Z := p.(elem_count).
Definition capacity : Z := SIZE.
Definition empty (p : Pool) : bool := size p =? 0.
Definition full (p : Pool) : bool := size p =? capacity.

(** [operator[]]; both assertions must hold. *)
Definition at_ (p : Pool) (index : Z) : option T :=
  if negb (index <? SIZE) then None
  else
    b ← Bitmap.get p.(allocated) index;
    if b =? 0 then None else rd p.(pool_alloc).(pool) index.

(** Assigning through the reference [operator[]] returns. *)
Definition assign (p : Pool) (index : Z) (x : T) : option Pool :=
  _ ← at_ p index;
  cells ← wr p.(pool_alloc).(pool) index x;
  Some {| allocated := p.(allocated);
          pool_alloc := {| pool := cells; free_list := p.(pool_alloc).(free_list);
            alloc_end := p.(pool_alloc).(alloc_end); elem_size := p.(pool_alloc).(elem_size);
            n_elems := p.(pool_alloc).(n_elems) |};
          elem_count := p.(elem_count); max_elem_count := p.(max_elem_count) |}.

(** What [emplace] yields: [{invalid, nullptr}], an exception of the element's
    constructor, or the index of the new element. *)
Inductive emplaced := Invalid | Threw | At (index : Z).

(** [ctor] is the object the constructor builds, or [None] when it throws; the
    guard then returns the element to the free list. *)
Definition emplace (p : Pool) (ctor : option T) : option (Pool * emplaced) :=
  if full p then Some (p, Invalid)
  else
    '(pa, index) ← alloc p.(pool_alloc);
    if index =? u32 (Z.lnot 0) then None
    else
      match ctor with
      | None =>
          pa' ← free pa index;
          Some ({| allocated := p.(allocated); pool_alloc := pa';
                   elem_count := p.(elem_count); max_elem_count := p.(max_elem_count) |}, Threw)
      | Some x =>
          cells ← wr pa.(pool) index x;
          bits ← Bitmap.set p.(allocated) index;
          let count := u64 (p.(elem_count) + 1) in
          Some ({| allocated := bits;
                   pool_alloc := {| pool := cells; free_list := pa.(free_list);
                     alloc_end := pa.(alloc_end); elem_size := pa.(elem_size);
                     n_elems := pa.(n_elems) |};
                   elem_count := count; max_elem_count := Z.max p.(max_elem_count) count |},
                At (to_index index))
      end.

(** [remove]: assertions, destructor, free list, count, bitmap. *)
Definition remove (p : Pool) (index : Z) : option Pool :=
  x ← at_ p index;
  cells ← wr p.(pool_alloc).(pool) index (destroy_obj x);
  pa ← free {| pool := cells; free_list := p.(pool_alloc).(free_list);
               alloc_end := p.(pool_alloc).(alloc_end); elem_size := p.(pool_alloc).(elem_size);
               n_elems := p.(pool_alloc).(n_elems) |} index;
  bits ← Bitmap.clear p.(allocated) index;
  Some {| allocated := bits; pool_alloc := pa; elem_count := u64 (p.(elem_count) - 1);
          max_elem_count := p.(max_elem_count) |}.

(** * Refinement of a partial map *)

(** Sizes for which indices fit and the allocator's 32-bit offsets are exact. *)
Definition size_ok : Prop := 0 < SIZE <= 2 ^ 30 /\ 4 <= sizeof_elem /\ SIZE * sizeof_elem <= 2 ^ 32.

(** The pool holds the objects [A], by index. *)
Record pool_rep (p : Pool) (A : gmap Z T) : Prop := {
  rep_alloc : exists frees, pa_inv p.(pool_alloc) frees /\
    forall x, used p.(pool_alloc) frees x <-> is_Some (A !! x);
  rep_n : p.(pool_alloc).(n_elems) = SIZE;
  rep_bits : Bitmap.represents SIZE p.(allocated) (dom A);
  rep_cells : forall k x, A !! k = Some x -> rd p.(pool_alloc).(pool) k = Some x;
  rep_count : p.(elem_count) = Z.of_nat (base.size A);
}.

Hypothesis Hsize : size_ok.

Lemma rep_range (p : Pool) (A : gmap Z T) (k : Z) :
  pool_rep p A -> is_Some (A !! k) -> 0 <= k < SIZE.
Proof.
  intros Hr Hk. destruct (rep_alloc _ _ Hr) as (frees & Hinv & Hu).
  destruct (proj2 (Hu k) Hk) as [Hk2 _]. pose proof (high_le _ _ Hinv). rewrite (rep_n _ _ Hr) in *. lia.
Qed.

Lemma rep_dom (p : Pool) (A : gmap Z T) :
  pool_rep p A -> dom A ⊆ list_to_set (C := gset Z) (seqZ 0 SIZE).
Proof.
  intros Hr k Hk%elem_of_dom. apply (rep_range p A k Hr) in Hk.
  rewrite elem_of_list_to_set, elem_of_seqZ. lia.
Qed.

Lemma rep_size_le (p : Pool) (A : gmap Z T) : pool_rep p A -> Z.of_nat (base.size A) <= SIZE.
Proof.
  intros Hr. pose proof (rep_dom p A Hr) as Hd. apply subseteq_size in Hd.
  rewrite size_dom, size_list_to_set, length_seqZ in Hd by apply NoDup_seqZ.
  destruct Hsize. lia.
Qed.

Lemma pool_new_rep (elements0 : list T) :
  zlen elements0 = SIZE -> exists p, Pool_new elements0 = Some p /\ pool_rep p ∅.
Proof.
  intros Hl. destruct Hsize as (Hs & He & Hm).
  destruct (init_inv elements0 sizeof_elem SIZE) as (pa & Hi & Hinv & Hp & Hn & Hh); [lia..|done|].
  unfold Pool_new. rewrite Hi. eexists. split; [done|]. split; simpl.
  - exists []. split; [done|]. intros x. unfold used. rewrite Hh, lookup_empty.
    split; [lia|]. by intros [? ?].
  - done.
  - rewrite dom_empty_L. by apply Bitmap.represents_new.
  - intros k x. by rewrite lookup_empty.
  - by rewrite map_size_empty.
Qed.

Lemma at_spec (p : Pool) (A : gmap Z T) (k : Z) :
  pool_rep p A -> 0 <= k < SIZE -> at_ p k = A !! k.
Proof.
  intros Hr Hk. unfold at_. destruct (Z.ltb_spec k SIZE); [|lia]. simpl.
  destruct (rep_bits _ _ Hr) as [Hwf Hmem].
  rewrite (Bitmap.get_spec SIZE _ _ Hwf Hk), Hmem. simpl.
  destruct (A !! k) as [x|] eqn:E.
  - rewrite bool_decide_true by (apply elem_of_dom; eauto). simpl. by apply (rep_cells _ _ Hr).
  - rewrite bool_decide_false by (by apply not_elem_of_dom). done.
Qed.

Lemma to_index_id (k : Z) : 0 <= k < SIZE -> to_index k = k.
Proof.
  intros Hk. destruct Hsize as (Hs & _). unfold to_index.
  destruct (Z.leb_spec (2 ^ 16 - 1) SIZE); [apply u32_small|apply u16_small]; lia.
Qed.

Lemma to_index_valid (k : Z) : 0 <= k < SIZE -> to_index k <> invalid.
Proof.
  intros Hk. rewrite to_index_id by done. destruct Hsize as (Hs & _). unfold invalid.
  destruct (Z.leb_spec (2 ^ 16 - 1) SIZE); lia.
Qed.

(** A pool that is not full has an element to allocate. *)
Lemma rep_not_full (p : Pool) (A : gmap Z T) (frees : list Z) :
  pool_rep p A -> pa_inv p.(pool_alloc) frees ->
  (forall x, used p.(pool_alloc) frees x <-> is_Some (A !! x)) ->
  Z.of_nat (base.size A) < SIZE -> frees <> [] \/ p.(pool_alloc).(alloc_end) <> NULL_ELEM.
Proof.
  intros Hr Hinv Hu Hlt.
  destruct frees as [|y ys]; [right|by left]. intros He.
  assert (Hd : list_to_set (C := gset Z) (seqZ 0 SIZE) ⊆ dom A).
  { intros x. rewrite elem_of_list_to_set, elem_of_seqZ, elem_of_dom, <- Hu. intros Hx.
    unfold used, high. rewrite He, Z.eqb_refl, (rep_n _ _ Hr). split; [lia|]. apply not_elem_of_nil. }
  apply subseteq_size in Hd.
  rewrite size_dom, size_list_to_set, length_seqZ in Hd by apply NoDup_seqZ. lia.
Qed.

(** A full pool has an empty free list. *)
Lemma full_free_list (p : Pool) (A : gmap Z T) :
  pool_rep p A -> Z.of_nat (base.size A) = SIZE -> p.(pool_alloc).(free_list) = NULL_ELEM.
Proof.
  intros Hr Hs. destruct (rep_alloc _ _ Hr) as (frees & Hinv & Hu).
  pose proof (rep_dom p A Hr) as Hd. pose proof (high_le _ _ Hinv) as Hh.
  rewrite (rep_n _ _ Hr) in Hh.
  assert (Hall : forall x, 0 <= x < SIZE -> used p.(pool_alloc) frees x).
  { intros x Hx. apply Hu, elem_of_dom.
    apply set_subseteq_size_eq in Hd.
    - rewrite Hd, elem_of_list_to_set, elem_of_seqZ. lia.
    - rewrite size_dom, size_list_to_set, length_seqZ by apply NoDup_seqZ. lia. }
  rewrite (chain_head _ _ Hinv). destruct frees as [|y ys].
  - destruct (pa_end _ _ Hinv) as [He|He]; [done|]. rewrite (rep_n _ _ Hr) in He.
    destruct (Hall _ He) as [Hx _]. unfold high in Hx.
    destruct (Z.eqb_spec (alloc_end (pool_alloc p)) NULL_ELEM); [done|lia].
  - pose proof (Forall_inv (pa_range _ _ Hinv)) as Hy. simpl in Hy.
    destruct (Hall y) as [_ Hn]; [lia|]. destruct Hn. left.
Qed.

Lemma emplace_full (p : Pool) (A : gmap Z T) (ctor : option T) :
  pool_rep p A -> Z.of_nat (base.size A) = SIZE -> emplace p ctor = Some (p, Invalid).
Proof.
  intros Hr Hs. unfold emplace, full, size, capacity. by rewrite (rep_count _ _ Hr), Hs, Z.eqb_refl.
Qed.

Lemma emplace_spec (p : Pool) (A : gmap Z T) (x : T) :
  pool_rep p A -> Z.of_nat (base.size A) < SIZE ->
  exists p' k, emplace p (Some x) = Some (p', At k) /\ 0 <= k < SIZE /\ A !! k = None /\
    pool_rep p' (<[k := x]> A) /\ k = p.(pool_alloc).(free_list).
Proof.
  clear destroy_obj.
  intros Hr Hlt. destruct (rep_alloc _ _ Hr) as (frees & Hinv & Hu).
  pose proof (rep_not_full p A frees Hr Hinv Hu Hlt) as Hne. pose proof (rep_n _ _ Hr) as Hn.
  destruct (alloc_spec _ _ Hinv Hne)
    as (pa & k & frees' & Ha & Hinv' & Hk & Hnu & Hu' & Hz & Hrd & Hn' & Hid). rewrite Hn in *.
  destruct Hsize as (Hs & _).
  unfold emplace, full, size, capacity. rewrite (rep_count _ _ Hr).
  destruct (Z.eqb_spec (Z.of_nat (base.size A)) SIZE); [lia|].
  rewrite Ha. simpl. change (u32 (Z.lnot 0)) with (2 ^ 32 - 1).
  destruct (Z.eqb_spec k (2 ^ 32 - 1)); [lia|].
  pose proof (wr_in_range pa.(pool) k x ltac:(rewrite (pa_len _ _ Hinv'); lia)) as Hw.
  rewrite Hw. simpl.
  destruct (Bitmap.step_represents SIZE _ _ (Bitmap.Set_ k) (rep_bits _ _ Hr) Hk)
    as (bs & Hset & Hbits). simpl in Hset. rewrite Hset. simpl.
  rewrite to_index_id by done. eexists _, _. split; [done|]. split; [done|].
  assert (HAk : A !! k = None).
  { apply eq_None_not_Some. intros Hs'. by apply Hnu, Hu. }
  split; [done|].
  assert (Hnf : k ∉ frees') by (apply (Hu' k); by right).
  destruct (write_inv _ _ _ _ _ Hinv' Hnf Hw) as [Hinv2 Hu2].
  split; [|done]. split; simpl.
  - exists frees'. split; [done|]. intros y. rewrite Hu2, Hu', Hu, lookup_insert_is_Some'.
    naive_solver.
  - done.
  - rewrite dom_insert_L. done.
  - intros y z Hy. rewrite (rd_wr _ _ _ y _ Hw). case_decide as Hyk.
    + subst y. by rewrite lookup_insert_eq in Hy.
    + rewrite lookup_insert_ne in Hy by done. rewrite Hrd by done. by apply (rep_cells _ _ Hr).
  - rewrite map_size_insert_None by done. rewrite u64_small by lia. lia.
Qed.

(** When the constructor throws nothing is left behind. *)
Lemma emplace_throw (p : Pool) (A : gmap Z T) :
  pool_rep p A -> Z.of_nat (base.size A) < SIZE ->
  exists p', emplace p None = Some (p', Threw) /\ pool_rep p' A.
Proof.
  intros Hr Hlt. destruct (rep_alloc _ _ Hr) as (frees & Hinv & Hu).
  pose proof (rep_not_full p A frees Hr Hinv Hu Hlt) as Hne. pose proof (rep_n _ _ Hr) as Hn.
  destruct (alloc_spec _ _ Hinv Hne)
    as (pa & k & frees' & Ha & Hinv' & Hk & Hnu & Hu' & Hz & Hrd & Hn' & Hid). rewrite Hn in *.
  destruct Hsize as (Hs & _).
  unfold emplace, full, size, capacity. rewrite (rep_count _ _ Hr).
  destruct (Z.eqb_spec (Z.of_nat (base.size A)) SIZE); [lia|].
  rewrite Ha. simpl. change (u32 (Z.lnot 0)) with (2 ^ 32 - 1).
  destruct (Z.eqb_spec k (2 ^ 32 - 1)); [lia|].
  destruct (free_spec pa frees' k zeroed Hinv') as (pa2 & Hf & Hinv2 & Hu2 & _ & Hrd2 & Hn2 & _);
    [apply Hu'; by right|done|].
  rewrite Hf. simpl. eexists. split; [done|]. split; simpl.
  - exists (k :: frees'). split; [done|]. intros y. rewrite Hu2, Hu', Hu.
    split; [naive_solver|]. intros Hy. split; [by left|]. intros ->. by apply Hnu, Hu.
  - congruence.
  - apply (rep_bits _ _ Hr).
  - intros y z Hy. assert (y <> k).
    { intros ->. apply Hnu, Hu. eauto. }
    rewrite Hrd2, Hrd by done. by apply (rep_cells _ _ Hr).
  - done.
Qed.

Lemma assign_spec (p : Pool) (A : gmap Z T) (k : Z) (x : T) :
  pool_rep p A -> is_Some (A !! k) ->
  exists p', assign p k x = Some p' /\ pool_rep p' (<[k := x]> A).
Proof.
  intros Hr Hk. pose proof (rep_range p A k Hr Hk) as Hrk.
  destruct (rep_alloc _ _ Hr) as (frees & Hinv & Hu). destruct Hk as [c Hc].
  unfold assign. rewrite (at_spec p A k Hr Hrk), Hc. simpl.
  pose proof (wr_in_range p.(pool_alloc).(pool) k x
    ltac:(rewrite (pa_len _ _ Hinv), (rep_n _ _ Hr); lia)) as Hw.
  rewrite Hw. simpl. eexists. split; [done|].
  assert (Hnf : k ∉ frees) by (apply (Hu k); eauto).
  destruct (write_inv _ _ _ _ _ Hinv Hnf Hw) as [Hinv2 Hu2].
  split; simpl.
  - exists frees. split; [done|]. intros y. rewrite Hu2, Hu, lookup_insert_is_Some'.
    split; [by right|]. intros [<-|]; eauto.
  - apply (rep_n _ _ Hr).
  - rewrite dom_insert_lookup_L by eauto. apply (rep_bits _ _ Hr).
  - intros y z Hy. rewrite (rd_wr _ _ _ y _ Hw). case_decide as Hyk.
    + subst y. by rewrite lookup_insert_eq in Hy.
    + rewrite lookup_insert_ne in Hy by done. by apply (rep_cells _ _ Hr).
  - rewrite map_size_insert_Some by eauto. apply (rep_count _ _ Hr).
Qed.

(** [remove] leaves, in the freed cell, the destroyed object with its first
    word overwritten by the head of the free list; the cell is the next one to
    be allocated. *)
Lemma pool_remove_spec (p : Pool) (A : gmap Z T) (k : Z) (x : T) :
  pool_rep p A -> A !! k = Some x ->
  exists p', remove p k = Some p' /\ pool_rep p' (delete k A) /\
    rd p'.(pool_alloc).(pool) k
      = Some (set_first_u32 p.(pool_alloc).(free_list) (destroy_obj x)) /\
    p'.(pool_alloc).(free_list) = k.
Proof.
  intros Hr Hx. pose proof (rep_range p A k Hr ltac:(eauto)) as Hrk.
  destruct (rep_alloc _ _ Hr) as (frees & Hinv & Hu). destruct Hsize as (Hs & _).
  unfold remove. rewrite (at_spec p A k Hr Hrk), Hx. simpl.
  pose proof (wr_in_range p.(pool_alloc).(pool) k (destroy_obj x)
    ltac:(rewrite (pa_len _ _ Hinv), (rep_n _ _ Hr); lia)) as Hw.
  rewrite Hw. simpl.
  assert (Hnf : k ∉ frees) by (apply (Hu k); eauto).
  destruct (write_inv _ _ _ _ _ Hinv Hnf Hw) as [Hinv2 Hu2].
  destruct (free_spec _ _ k (destroy_obj x) Hinv2)
    as (pa & Hf & Hinv3 & Hu3 & Hc3 & Hrd3 & Hn3 & Hfl3).
  { apply Hu2, Hu. eauto. }
  { simpl. by rewrite (rd_wr _ _ _ k _ Hw), decide_True. }
  rewrite Hf. simpl.
  destruct (Bitmap.step_represents SIZE _ _ (Bitmap.Clear_ k) (rep_bits _ _ Hr) Hrk)
    as (bs & Hclr & Hbits). simpl in Hclr. rewrite Hclr. simpl.
  eexists. split; [done|]. split; [|done]. split; simpl.
  - exists (k :: frees). split; [done|]. intros y.
    rewrite Hu3, Hu2, Hu, lookup_delete_is_Some. naive_solver.
  - rewrite Hn3. apply (rep_n _ _ Hr).
  - rewrite dom_delete_L. done.
  - intros y z [Hy Hz]%lookup_delete_Some. rewrite Hrd3 by done. simpl.
    rewrite (rd_wr _ _ _ y _ Hw), decide_False by done. by apply (rep_cells _ _ Hr).
  - rewrite map_size_delete_Some by eauto. pose proof (rep_size_le p A Hr).
    assert (base.size A <> 0%nat).
    { intros Hz%map_size_empty_inv. subst A. by rewrite lookup_empty in Hx. }
    rewrite (rep_count _ _ Hr), u64_small by lia. lia.
Qed.

(** ** One step *)

Inductive op := Emplace (ctor : option T) | Remove (index : Z).

Definition step (p : Pool) (o : op) : option (Pool * emplaced) :=
  match o with
  | Emplace c => emplace p c
  | Remove k => p' ← remove p k; Some (p', Invalid)
  end.

(** The abstract pool: a partial map from indices below [SIZE] to objects, in
    which a new object gets an index that is not in use. *)
Inductive abs_step : gmap Z T -> op -> emplaced -> gmap Z T -> Prop :=
| abs_full A c :
    Z.of_nat (base.size A) = SIZE -> abs_step A (Emplace c) Invalid A
| abs_new A x k :
    Z.of_nat (base.size A) < SIZE -> 0 <= k < SIZE -> A !! k = None ->
    abs_step A (Emplace (Some x)) (At k) (<[k := x]> A)
| abs_throw A :
    Z.of_nat (base.size A) < SIZE -> abs_step A (Emplace None) Threw A
| abs_remove A k :
    is_Some (A !! k) -> abs_step A (Remove k) Invalid (delete k A).

(** The client's obligation: only indices in use are removed. *)
Definition step_ok (A : gmap Z T) (o : op) : Prop :=
  match o with Remove k => is_Some (A !! k) | _ => True end.

Lemma pool_step_refines (p : Pool) (A : gmap Z T) (o : op) :
  pool_rep p A -> step_ok A o ->
  exists p' r A', step p o = Some (p', r) /\ abs_step A o r A' /\ pool_rep p' A'.
Proof.
  intros Hr Ho. pose proof (rep_size_le p A Hr) as Hle. destruct o as [c|k]; simpl.
  - destruct (decide (Z.of_nat (base.size A) = SIZE)) as [He|Hne].
    { rewrite (emplace_full p A c Hr He). eauto 10 using abs_step. }
    destruct c as [x|].
    + destruct (emplace_spec p A x Hr) as (p' & k & -> & Hk & Hn & Hr' & _); [lia|].
      eexists _, _, _. split; [done|]. split; [|done]. constructor; [lia|done|done].
    + destruct (emplace_throw p A Hr) as (p' & -> & Hr'); [lia|].
      eexists _, _, _. split; [done|]. split; [|done]. constructor. lia.
  - destruct Ho as [x Hx]. destruct (pool_remove_spec p A k x Hr Hx) as (p' & -> & Hr' & _).
    eexists _, _, _. split; [done|]. split; [|done]. constructor. eauto.
Qed.
End pool.
End Pool.
