(* ===== verification/FixedHash.v ===== *)
(** The fixed-capacity hash table of util/fixed_hash.h: an
    [absl::flat_hash_map] from keys to slot indices over a [Pool] of objects.

    The hash map is third-party code, so it is a parameter: the class
    [FlatHashMap] states what its documentation promises for the operations
    the table calls.  The client-visible contract of the table is a bounded
    finite map in which every key has a slot index that stays the same until
    the key is erased, which the collector relies on to index its statistics
    arrays. *)
From S2P Require Import Prelude Bitmap Pool.

(** What the table uses of [absl::flat_hash_map<K, V>]. *)
Class FlatHashMap (K V M : Type) `{EqDecision K} := {
  fm_empty : M;
  fm_find : M -> K -> option V;
  fm_insert : M -> K -> V -> M * bool;
  fm_assign : M -> K -> V -> M;
  fm_erase : M -> K -> M;
  fm_find_empty k : fm_find fm_empty k = None;
  fm_insert_old m k v v0 : fm_find m k = Some v0 -> fm_insert m k v = (m, false);
  fm_insert_new m k v : fm_find m k = None ->
    (fm_insert m k v).2 = true /\
    forall k', fm_find (fm_insert m k v).1 k' = if decide (k = k') then Some v else fm_find m k';
  fm_find_assign m k v k' : is_Some (fm_find m k) ->
    fm_find (fm_assign m k v) k' = if decide (k = k') then Some v else fm_find m k';
  fm_find_erase m k k' :
    fm_find (fm_erase m k) k' = if decide (k = k') then None else fm_find m k';
}.

(** Finite maps have these properties. *)
#[export] Program Instance gmap_flat_hash_map {K V} `{Countable K} : FlatHashMap K V (gmap K V) := {
  fm_empty := ∅;
  fm_find m k := m !! k;
  fm_insert m k v := match m !! k with Some _ => (m, false) | None => (<[k := v]> m, true) end;
  fm_assign m k v := <[k := v]> m;
  fm_erase m k := delete k m;
}.
Next Obligation. intros. apply lookup_empty. Qed.
Next Obligation. intros K V ? ? m k v v0 Hk. simpl in *. by rewrite Hk. Qed.
Next Obligation.
  intros K V ? ? m k v Hk. simpl in *. rewrite Hk. split; [done|]. intros k'. apply lookup_insert.
Qed.
Next Obligation. intros K V ? ? m k v k' _. apply lookup_insert. Qed.
Next Obligation. intros K V ? ? m k k'. apply lookup_delete. Qed.

Module FixedHash.
Import PoolAllocator.
Section fixed_hash.
Context {K T M : Type} `{EqDecision K} `{Poolable T} `{!FlatHashMap K Z M}.
Context (SIZE sizeof_elem : Z) (destroy_obj : T -> T).

Record FixedHash := { map_ : M; pool_ : Pool.Pool (T := T) }.

Definition FixedHash_new (elements0 : list T) : option FixedHash :=
  p ← Pool.Pool_new SIZE sizeof_elem elements0;
  Some {| map_ := fm_empty; pool_ := p |}.

Definition full (h : FixedHash) : bool := Pool.full SIZE h.(pool_).
Definition size (h : FixedHash) : Z := Pool.size h.(pool_).

Definition contains (h : FixedHash) (key : K) : bool :=
  match fm_find h.(map_) key with Some _ => true | None => false end.

(** [find]: [Some None] is [{invalid, nullptr}]; otherwise the index and the
    object the returned pointer designates. *)
Definition find (h : FixedHash) (key : K) : option (option (Z * T)) :=
  match fm_find h.(map_) key with
  | None => Some None
  | Some index => x ← Pool.at_ SIZE h.(pool_) index; Some (Some (Pool.to_index SIZE index, x))
  end.

(** [insert]: [ctor] is the constructed object, or [None] when its constructor
    throws; the guard then erases the key again. *)
Definition insert (h : FixedHash) (key : K) (ctor : option T)
    : option (FixedHash * Pool.emplaced) :=
  if full h then Some (h, Pool.Invalid)
  else
    let '(m, inserted) := fm_insert h.(map_) key (Pool.to_index SIZE (-1)) in
    if negb inserted then Some ({| map_ := m; pool_ := h.(pool_) |}, Pool.Invalid)
    else
      '(p, pos) ← Pool.emplace SIZE h.(pool_) ctor;
      Some (match pos with
            | Pool.At index => ({| map_ := fm_assign m key index; pool_ := p |}, pos)
            | _ => ({| map_ := fm_erase m key; pool_ := p |}, pos)
            end).

(** The argument of [erase] is a reference: to a key of the caller, or to a
    key inside the storage of a pool element. *)
Inductive keyref := Val (key : K) | Ref (index : Z) (proj : T -> K).

Definition deref (h : FixedHash) (r : keyref) : option K :=
  match r with
  | Val key => Some key
  | Ref index proj => proj <$> rd h.(pool_).(Pool.pool_alloc).(pool) index
  end.

(** [erase]: the reference is read for the lookup, and again, after the element
    has been returned to the pool, to erase the key from the hash map. *)
Definition erase (h : FixedHash) (r : keyref) : option (FixedHash * bool) :=
  key ← deref h r;
  match fm_find h.(map_) key with
  | None => Some (h, false)
  | Some index =>
      p ← Pool.remove SIZE destroy_obj h.(pool_) index;
      let h' := {| map_ := h.(map_); pool_ := p |} in
      key' ← deref h' r;
      Some ({| map_ := fm_erase h'.(map_) key'; pool_ := p |}, true)
  end.

(** The client writes through the pointer [find] returned. *)
Definition update (h : FixedHash) (key : K) (x : T) : option (FixedHash * bool) :=
  match fm_find h.(map_) key with
  | None => Some (h, false)
  | Some index =>
      p ← Pool.assign SIZE h.(pool_) index x;
      Some ({| map_ := h.(map_); pool_ := p |}, true)
  end.
End fixed_hash.
Arguments FixedHash T M : clear implicits.

(** * Contract: a bounded map with stable slot indices *)

Section contract.
Context {K T M : Type} `{Countable K} `{Poolable T} `{!FlatHashMap K Z M}.
Context (SIZE sizeof_elem : Z) (destroy_obj : T -> T).

(** The table holds [C]: for each key, its slot and its object. *)
Record fh_rep (h : FixedHash T M) (C : gmap K (Z * T)) (B : gmap Z T) : Prop := {
  fh_pool : Pool.pool_rep SIZE h.(pool_) B;
  fh_map : forall k, fm_find h.(map_) k = fst <$> C !! k;
  fh_obj : forall k i x, C !! k = Some (i, x) -> B !! i = Some x;
  fh_inj : forall k k' i x x', C !! k = Some (i, x) -> C !! k' = Some (i, x') -> k = k';
  fh_size : base.size B = base.size C;
}.

Inductive op := Find (key : K) | Insert (key : K) (ctor : option T) | Erase (key : K)
  | Update (key : K) (x : T).

Inductive result :=
  | RFind (r : option (Z * T)) | RInsert (r : Pool.emplaced) | RBool (b : bool).

Definition step (h : FixedHash T M) (o : op) : option (FixedHash T M * result) :=
  match o with
  | Find k => r ← find SIZE h k; Some (h, RFind r)
  | Insert k c => '(h', r) ← insert SIZE h k c; Some (h', RInsert r)
  | Erase k => '(h', r) ← erase SIZE destroy_obj h (Val k); Some (h', RBool r)
  | Update k x => '(h', r) ← update SIZE h k x; Some (h', RBool r)
  end.

Fixpoint run (h : FixedHash T M) (ops : list op) : option (FixedHash T M * list result) :=
  match ops with
  | [] => Some (h, [])
  | o :: ops => '(h', r) ← step h o; '(h'', rs) ← run h' ops; Some (h'', r :: rs)
  end.

(** The abstract table.  A new key gets a slot that no other key has. *)
Inductive abs_step : gmap K (Z * T) -> op -> result -> gmap K (Z * T) -> Prop :=
| abs_find C k : abs_step C (Find k) (RFind (C !! k)) C
| abs_full C k c :
    Z.of_nat (base.size C) = SIZE -> abs_step C (Insert k c) (RInsert Pool.Invalid) C
| abs_dup C k c :
    Z.of_nat (base.size C) < SIZE -> is_Some (C !! k) ->
    abs_step C (Insert k c) (RInsert Pool.Invalid) C
| abs_throw C k :
    Z.of_nat (base.size C) < SIZE -> C !! k = None ->
    abs_step C (Insert k None) (RInsert Pool.Threw) C
| abs_insert C k x i :
    Z.of_nat (base.size C) < SIZE -> C !! k = None -> 0 <= i < SIZE ->
    (forall k' j y, C !! k' = Some (j, y) -> j <> i) ->
    abs_step C (Insert k (Some x)) (RInsert (Pool.At i)) (<[k := (i, x)]> C)
| abs_erase C k i x :
    C !! k = Some (i, x) -> abs_step C (Erase k) (RBool true) (delete k C)
| abs_erase_none C k : C !! k = None -> abs_step C (Erase k) (RBool false) C
| abs_update C k i x y :
    C !! k = Some (i, y) -> abs_step C (Update k x) (RBool true) (<[k := (i, x)]> C)
| abs_update_none C k x : C !! k = None -> abs_step C (Update k x) (RBool false) C.

Inductive abs_run : gmap K (Z * T) -> list op -> list result -> gmap K (Z * T) -> Prop :=
| abs_nil C : abs_run C [] [] C
| abs_cons C C' C'' o r ops rs :
    abs_step C o r C' -> abs_run C' ops rs C'' -> abs_run C (o :: ops) (r :: rs) C''.

Hypothesis Hsize : Pool.size_ok SIZE sizeof_elem.

Lemma rep_le (h : FixedHash T M) (C : gmap K (Z * T)) (B : gmap Z T) :
  fh_rep h C B -> Z.of_nat (base.size C) <= SIZE.
Proof.
  intros Hr. rewrite <- (fh_size _ _ _ Hr).
  apply (Pool.rep_size_le SIZE sizeof_elem Hsize h.(pool_)), (fh_pool _ _ _ Hr).
Qed.

Lemma full_spec (h : FixedHash T M) (C : gmap K (Z * T)) (B : gmap Z T) :
  fh_rep h C B -> full SIZE h = bool_decide (Z.of_nat (base.size C) = SIZE).
Proof.
  intros Hr. unfold full, Pool.full, Pool.size, Pool.capacity.
  rewrite (Pool.rep_count _ _ _ (fh_pool _ _ _ Hr)), (fh_size _ _ _ Hr).
  by destruct (Z.eqb_spec (Z.of_nat (base.size C)) SIZE);
    [rewrite bool_decide_true|rewrite bool_decide_false].
Qed.

Lemma slot_range (h : FixedHash T M) (C : gmap K (Z * T)) (B : gmap Z T) (k : K) (i : Z) (x : T) :
  fh_rep h C B -> C !! k = Some (i, x) -> 0 <= i < SIZE.
Proof.
  intros Hr Hk. apply (Pool.rep_range SIZE h.(pool_) B); [apply (fh_pool _ _ _ Hr)|].
  exists x. by apply (fh_obj _ _ _ Hr k).
Qed.

Lemma find_spec (h : FixedHash T M) (C : gmap K (Z * T)) (B : gmap Z T) (k : K) :
  fh_rep h C B -> find SIZE h k = Some (C !! k).
Proof.
  intros Hr. unfold find. rewrite (fh_map _ _ _ Hr). destruct (C !! k) as [[i x]|] eqn:E; [|done].
  simpl. pose proof (slot_range _ _ _ _ _ _ Hr E) as Hi.
  rewrite (Pool.at_spec SIZE _ _ _ (fh_pool _ _ _ Hr) Hi), (fh_obj _ _ _ Hr _ _ _ E). simpl.
  by rewrite (Pool.to_index_id SIZE sizeof_elem Hsize).
Qed.

Lemma insert_full (h : FixedHash T M) (C : gmap K (Z * T)) (B : gmap Z T) (k : K) (c : option T) :
  fh_rep h C B -> Z.of_nat (base.size C) = SIZE -> insert SIZE h k c = Some (h, Pool.Invalid).
Proof. intros Hr Hs. unfold insert. by rewrite (full_spec _ _ _ Hr), bool_decide_true. Qed.

Lemma insert_dup (h : FixedHash T M) (C : gmap K (Z * T)) (B : gmap Z T) (k : K) (c : option T) :
  fh_rep h C B -> is_Some (C !! k) -> insert SIZE h k c = Some (h, Pool.Invalid).
Proof.
  intros Hr [[i x] Hk]. unfold insert. destruct (full SIZE h); [done|].
  rewrite (fm_insert_old _ _ _ i) by (by rewrite (fh_map _ _ _ Hr), Hk). simpl.
  by destruct h.
Qed.

Lemma insert_spec (h : FixedHash T M) (C : gmap K (Z * T)) (B : gmap Z T) (k : K) (x : T) :
  fh_rep h C B -> Z.of_nat (base.size C) < SIZE -> C !! k = None ->
  exists h' i, insert SIZE h k (Some x) = Some (h', Pool.At i) /\ 0 <= i < SIZE /\
    (forall k' j y, C !! k' = Some (j, y) -> j <> i) /\
    fh_rep h' (<[k := (i, x)]> C) (<[i := x]> B) /\
    i = h.(pool_).(Pool.pool_alloc).(PoolAllocator.free_list).
Proof.
  intros Hr Hs Hk. unfold insert. rewrite (full_spec _ _ _ Hr), bool_decide_false by lia.
  destruct (fm_insert_new h.(map_) k (Pool.to_index SIZE (-1))) as [Hins Hfind];
    [by rewrite (fh_map _ _ _ Hr), Hk|].
  destruct (fm_insert _ _ _) as [m b]. simpl in Hins, Hfind. subst b. simpl.
  destruct (Pool.emplace_spec SIZE sizeof_elem Hsize h.(pool_) B x) as (p & i & He & Hi & HBi & Hp & Hf);
    [apply (fh_pool _ _ _ Hr)|by rewrite (fh_size _ _ _ Hr)|].
  rewrite He. simpl. eexists _, i. split; [done|]. split; [done|].
  assert (Hfresh : forall k' j y, C !! k' = Some (j, y) -> j <> i).
  { intros k' j y Hk' ->. apply (fh_obj _ _ _ Hr) in Hk'. congruence. }
  split; [done|]. split; [|done]. split; simpl.
  - done.
  - intros k'. rewrite fm_find_assign by (rewrite Hfind, decide_True; eauto).
    rewrite lookup_insert. case_decide; [by subst|].
    by rewrite Hfind, decide_False, (fh_map _ _ _ Hr).
  - intros k' j y. rewrite !lookup_insert_Some. intros [[<- [= <- <-]]|[Hne Hk']]; [by left|right].
    split; [|by apply (fh_obj _ _ _ Hr k')]. intros <-. by eapply Hfresh.
  - intros k1 k2 j y1 y2. rewrite !lookup_insert_Some.
    intros [[<- [= <- <-]]|[Hne1 H1]] [[<- Heq]|[Hne2 H2]]; try done.
    + exfalso. by eapply Hfresh.
    + injection Heq as <- <-. exfalso. by eapply Hfresh.
    + by eapply (fh_inj _ _ _ Hr).
  - rewrite !map_size_insert_None by done. by rewrite (fh_size _ _ _ Hr).
Qed.

Lemma insert_throw (h : FixedHash T M) (C : gmap K (Z * T)) (B : gmap Z T) (k : K) :
  fh_rep h C B -> Z.of_nat (base.size C) < SIZE -> C !! k = None ->
  exists h', insert SIZE h k None = Some (h', Pool.Threw) /\ fh_rep h' C B.
Proof.
  intros Hr Hs Hk. unfold insert. rewrite (full_spec _ _ _ Hr), bool_decide_false by lia.
  destruct (fm_insert_new h.(map_) k (Pool.to_index SIZE (-1))) as [Hins Hfind];
    [by rewrite (fh_map _ _ _ Hr), Hk|].
  destruct (fm_insert _ _ _) as [m b]. simpl in Hins, Hfind. subst b. simpl.
  destruct (Pool.emplace_throw SIZE sizeof_elem Hsize h.(pool_) B) as (p & He & Hp);
    [apply (fh_pool _ _ _ Hr)|by rewrite (fh_size _ _ _ Hr)|].
  rewrite He. simpl. eexists. split; [done|].
  split; simpl; [done| |apply (fh_obj _ _ _ Hr)|apply (fh_inj _ _ _ Hr)|apply (fh_size _ _ _ Hr)].
  intros k'. rewrite fm_find_erase. case_decide; [subst; by rewrite Hk|].
  by rewrite Hfind, decide_False, (fh_map _ _ _ Hr).
Qed.

Lemma erase_spec (h : FixedHash T M) (C : gmap K (Z * T)) (B : gmap Z T) (k : K) (i : Z) (x : T) :
  fh_rep h C B -> C !! k = Some (i, x) ->
  exists h', erase SIZE destroy_obj h (Val k) = Some (h', true) /\
    fh_rep h' (delete k C) (delete i B).
Proof.
  intros Hr Hk. unfold erase. simpl. rewrite (fh_map _ _ _ Hr), Hk. simpl.
  destruct (Pool.pool_remove_spec SIZE sizeof_elem destroy_obj Hsize h.(pool_) B i x) as (p & Hrm & Hp & _);
    [apply (fh_pool _ _ _ Hr)|by apply (fh_obj _ _ _ Hr k)|].
  rewrite Hrm. simpl. eexists. split; [done|]. split; simpl.
  - done.
  - intros k'. rewrite fm_find_erase, lookup_delete. case_decide; [done|]. apply (fh_map _ _ _ Hr).
  - intros k' j y [Hne Hk']%lookup_delete_Some. apply lookup_delete_Some.
    split; [|by apply (fh_obj _ _ _ Hr k')]. intros <-. apply Hne. by eapply (fh_inj _ _ _ Hr).
  - intros k1 k2 j y1 y2 [_ H1]%lookup_delete_Some [_ H2]%lookup_delete_Some.
    by eapply (fh_inj _ _ _ Hr).
  - pose proof (fh_obj _ _ _ Hr _ _ _ Hk). rewrite !map_size_delete_Some by eauto.
    by rewrite (fh_size _ _ _ Hr).
Qed.

Lemma update_spec (h : FixedHash T M) (C : gmap K (Z * T)) (B : gmap Z T) (k : K) (i : Z) (x y : T) :
  fh_rep h C B -> C !! k = Some (i, y) ->
  exists h', update SIZE h k x = Some (h', true) /\ fh_rep h' (<[k := (i, x)]> C) (<[i := x]> B).
Proof.
  intros Hr Hk. unfold update. rewrite (fh_map _ _ _ Hr), Hk. simpl.
  pose proof (fh_obj _ _ _ Hr _ _ _ Hk) as HB.
  destruct (Pool.assign_spec SIZE h.(pool_) B i x) as (p & Ha & Hp);
    [apply (fh_pool _ _ _ Hr)|eauto|].
  rewrite Ha. simpl. eexists. split; [done|]. split; simpl.
  - done.
  - intros k'. rewrite lookup_insert, (fh_map _ _ _ Hr). case_decide; [subst|done]. by rewrite Hk.
  - intros k' j z. rewrite !lookup_insert_Some. intros [[<- [= <- <-]]|[Hne Hk']]; [by left|right].
    split; [|by apply (fh_obj _ _ _ Hr k')]. intros <-. apply Hne. by eapply (fh_inj _ _ _ Hr).
  - intros k1 k2 j y1 y2. rewrite !lookup_insert_Some.
    intros [[<- [= <- <-]]|[Hne1 H1]] [[<- Heq]|[Hne2 H2]]; try done.
    + by eapply (fh_inj _ _ _ Hr).
    + injection Heq as <- <-. by eapply (fh_inj _ _ _ Hr).
    + by eapply (fh_inj _ _ _ Hr).
  - rewrite !map_size_insert_Some by eauto. apply (fh_size _ _ _ Hr).
Qed.

Lemma fh_step_refines (h : FixedHash T M) (C : gmap K (Z * T)) (B : gmap Z T) (o : op) :
  fh_rep h C B ->
  exists h' r C' B', step h o = Some (h', r) /\ abs_step C o r C' /\ fh_rep h' C' B'.
Proof.
  intros Hr. pose proof (rep_le _ _ _ Hr) as Hle.
  destruct o as [k|k c|k|k x]; simpl.
  - rewrite (find_spec _ _ _ k Hr). simpl. eauto 10 using abs_step.
  - destruct (decide (Z.of_nat (base.size C) = SIZE)) as [Hs|Hs].
    { rewrite (insert_full _ _ _ k c Hr Hs). simpl. eauto 10 using abs_step. }
    destruct (C !! k) as [v|] eqn:Hk.
    { rewrite (insert_dup _ _ _ k c Hr) by eauto. simpl. eexists _, _, _, _.
      split; [done|]. split; [|done]. apply abs_dup; [lia|eauto]. }
    destruct c as [x|].
    + destruct (insert_spec h C B k x Hr) as (h' & i & -> & Hi & Hf & Hr' & _); [lia|done|].
      simpl. eexists _, _, _, _. split; [done|]. split; [|done]. apply abs_insert; [lia|done..].
    + destruct (insert_throw h C B k Hr) as (h' & -> & Hr'); [lia|done|].
      simpl. eexists _, _, _, _. split; [done|]. split; [|done]. apply abs_throw; [lia|done].
  - destruct (C !! k) as [[i x]|] eqn:Hk.
    + destruct (erase_spec h C B k i x Hr Hk) as (h' & -> & Hr'). simpl. eauto 10 using abs_step.
    + unfold erase. simpl. rewrite (fh_map _ _ _ Hr), Hk. simpl. eauto 10 using abs_step.
  - destruct (C !! k) as [[i y]|] eqn:Hk.
    + destruct (update_spec h C B k i x y Hr Hk) as (h' & -> & Hr'). simpl. eauto 10 using abs_step.
    + unfold update. rewrite (fh_map _ _ _ Hr), Hk. simpl. eauto 10 using abs_step.
Qed.

Lemma fh_new_rep (elements0 : list T) :
  zlen elements0 = SIZE ->
  exists h, FixedHash_new SIZE sizeof_elem elements0 = Some h /\ fh_rep h ∅ ∅.
Proof.
  intros Hl. unfold FixedHash_new.
  destruct (Pool.pool_new_rep SIZE sizeof_elem Hsize elements0 Hl) as (p & -> & Hp). simpl.
  eexists. split; [done|]. split; simpl.
  - done.
  - intros k. by rewrite fm_find_empty, lookup_empty.
  - intros k i x. by rewrite lookup_empty.
  - intros k k' i x x'. by rewrite lookup_empty.
  - by rewrite !map_size_empty.
Qed.
End contract.

(** C32: over any [flat_hash_map] that behaves as documented, a table of [SIZE]
    slots executes every history of [find], [insert] (whose element constructor
    may throw), [erase] by a key of the caller, and writes through the returned
    pointer without violating an assertion, and answers as a finite map of at
    most [SIZE] keys in which each key keeps its slot until it is erased and no
    two keys share a slot; [insert] fails exactly when the table is full or the
    key is present. *)
Theorem fixed_hash_refines {K T M : Type} `{Countable K} `{Poolable T} `{!FlatHashMap K Z M}
    (SIZE sizeof_elem : Z) (destroy_obj : T -> T) (elements0 : list T) (ops : list op) :
  Pool.size_ok SIZE sizeof_elem -> zlen elements0 = SIZE ->
  exists (h0 h : FixedHash T M) rs C,
    FixedHash_new SIZE sizeof_elem elements0 = Some h0 /\
    run SIZE destroy_obj h0 ops = Some (h, rs) /\
    abs_run SIZE ∅ ops rs C /\
    (forall k : K, find SIZE h k = Some (C !! k)) /\
    size h = Z.of_nat (base.size C).
Proof.
  intros Hsize Hl. destruct (fh_new_rep SIZE sizeof_elem Hsize elements0 Hl) as (h0 & Hnew & Hr).
  exists h0. cut (exists h rs C B, run SIZE destroy_obj h0 ops = Some (h, rs) /\
    abs_run SIZE ∅ ops rs C /\ fh_rep SIZE h C B).
  { intros (h & rs & C & B & Hrun & Habs & Hr'). exists h, rs, C. split_and!; try done.
    - intros k. by apply (find_spec SIZE sizeof_elem Hsize h C B).
    - unfold size, Pool.size. rewrite (Pool.rep_count _ _ _ (fh_pool _ _ _ _ Hr')).
      by rewrite (fh_size _ _ _ _ Hr'). }
  clear Hnew Hl. revert h0 Hr. generalize (∅ : gmap K (Z * T)) as C, (∅ : gmap Z T) as B.
  induction ops as [|o ops IH]; intros C B h0 Hr; [eauto 10 using abs_run|].
  destruct (fh_step_refines SIZE sizeof_elem destroy_obj Hsize h0 C B o Hr)
    as (h1 & r & C1 & B1 & Hs & Ha & Hr1).
  destruct (IH C1 B1 h1 Hr1) as (h2 & rs & C2 & B2 & Hrun & Habs & Hr2).
  exists h2, (r :: rs), C2, B2. simpl. rewrite Hs. simpl. rewrite Hrun. simpl.
  split; [done|]. split; [by econstructor|done].
Qed.

(** A 64-bit integer as storage: its low word comes first. *)
#[export] Program Instance poolable_u64 : Poolable Z := {
  first_u32 x := x mod 2 ^ 32;
  set_first_u32 v x := (x / 2 ^ 32) * 2 ^ 32 + v;
  zeroed := 0;
}.
Next Obligation. intros v x Hv. simpl. rewrite Z.add_comm, Z.mod_add, Z.mod_small by lia. done. Qed.

Definition demo_ops : list (op (K := Z) (T := Z)) :=
  [Insert 10 (Some 111); Insert 10 (Some 112); Insert 20 None; Insert 20 (Some 222);
   Insert 30 (Some 333); Erase 10; Find 10; Insert 30 (Some 333); Find 20; Update 30 7; Find 30].

Lemma fixed_hash_refines_witness :
  exists (h0 h : FixedHash Z (gmap Z Z)) rs C,
    FixedHash_new 2 8 [0; 0] = Some h0 /\
    run 2 (fun x => x) h0 demo_ops = Some (h, rs) /\
    abs_run 2 ∅ demo_ops rs C /\
    (forall k : Z, find 2 h k = Some (C !! k)) /\
    size h = Z.of_nat (base.size C) /\
    rs = [RInsert (Pool.At 0); RInsert Pool.Invalid; RInsert Pool.Threw; RInsert (Pool.At 1);
          RInsert Pool.Invalid; RBool true; RFind None; RInsert (Pool.At 0);
          RFind (Some (1, 222)); RBool true; RFind (Some (0, 7))].
Proof.
  destruct (fixed_hash_refines (K := Z) (T := Z) (M := gmap Z Z) 2 8 (fun x => x) [0; 0] demo_ops)
    as (h0 & h & rs & C & Hnew & Hrun & Habs & Hfind & Hsz).
  - unfold Pool.size_ok. lia.
  - reflexivity.
  - exists h0, h, rs, C. split_and!; try done. vm_compute in Hnew. injection Hnew as <-.
    vm_compute in Hrun. injection Hrun as _ <-. reflexivity.
Defined.
End FixedHash.
