(* ===== verification/Lru.v ===== *)
(** The least-recently-used cache of util/LRU.h, and its one use, the reducer's
    per-agent DNS cache (reducer/dns_cache.h and [map_ip_to_domain],
    [find_dns_for_ip] of reducer/ingest/agent_span.cc).

    The intrusive list that keeps the entries in order of use is third-party
    code (ccan/list), so it is a parameter: the class [CcanList] states the
    documented effect of the operations on the sequence of nodes.  A node is
    named by the slot index of the entry that contains it.

    Theorems: as long as no entry has to be evicted the cache is the ideal
    least-recently-used map and keeps its entries in the order of their use; the
    eviction path erases the wrong key, because the key it passes to
    [FixedHash::erase] lives in the storage [erase] has just returned to the pool. *)
From S2P Require Import Prelude Bitmap Pool FixedHash.

(** What the cache uses of ccan/list: [l_nodes] is the sequence of nodes from
    head to tail. *)
Class CcanList (L : Type) := {
  l_nodes : L -> list Z;
  list_head_init : L;
  list_add_tail : L -> Z -> L;
  list_del : L -> Z -> L;
  list_pop : L -> option (L * Z);
  l_nodes_init : l_nodes list_head_init = [];
  l_nodes_add_tail l n : n ∉ l_nodes l -> l_nodes (list_add_tail l n) = l_nodes l ++ [n];
  l_nodes_del l n : n ∈ l_nodes l -> NoDup (l_nodes l) ->
    l_nodes (list_del l n) = filter (fun m => m <> n) (l_nodes l);
  list_pop_nil l : l_nodes l = [] -> list_pop l = None;
  list_pop_cons l n ns : l_nodes l = n :: ns ->
    exists l', list_pop l = Some (l', n) /\ l_nodes l' = ns;
}.

#[export] Program Instance ccan_list_list : CcanList (list Z) := {
  l_nodes l := l;
  list_head_init := [];
  list_add_tail l n := l ++ [n];
  list_del l n := filter (fun m => m <> n) l;
  list_pop l := match l with [] => None | n :: ns => Some (ns, n) end;
}.
Solve All Obligations with naive_solver.

Module LRU.
Import FixedHash.

(** An entry; the key is its first member, so its first word is the key's.
    The [list_node] member is the node of the intrusive list. *)
Record value_type (K V : Type) := mk_value { key : K; value : V }.
Arguments mk_value {K V}. Arguments key {K V}. Arguments value {K V}.

Section lru.
Context {K V M L : Type} `{Countable K} `{Poolable K} `{Inhabited V}.
Context `{!FlatHashMap K Z M} `{!CcanList L}.
Context (SIZE sizeof_elem : Z).

#[local] Abbreviation T := (value_type K V).

#[export] Program Instance poolable_value : Poolable T := {
  first_u32 x := first_u32 x.(key);
  set_first_u32 v x := mk_value (set_first_u32 v x.(key)) x.(value);
  zeroed := mk_value zeroed inhabitant;
}.
Next Obligation. intros. by apply first_set. Qed.

(** Keys and values are trivially destructible. *)
Definition destroy (x : T) : T := x.

Record LRU := { map_ : FixedHash T M; lru_ : L }.

Definition LRU_new (elements0 : list T) : option LRU :=
  h ← FixedHash_new SIZE sizeof_elem elements0;
  Some {| map_ := h; lru_ := list_head_init |}.

Definition contains (l : LRU) (k : K) : bool := FixedHash.contains l.(map_) k.
Definition full (l : LRU) : bool := FixedHash.full SIZE l.(map_).

(** [find]: the value the returned pointer designates; the entry becomes the
    most recently used one. *)
Definition find (l : LRU) (k : K) : option (LRU * option V) :=
  pos ← FixedHash.find SIZE l.(map_) k;
  match pos with
  | None => Some (l, None)
  | Some (i, x) =>
      Some ({| map_ := l.(map_); lru_ := list_add_tail (list_del l.(lru_) i) i |}, Some x.(value))
  end.

(** [insert]: evicts the least recently used entry when the table is full; the
    key given to [erase] is a reference into that entry. *)
Definition insert (l : LRU) (k : K) (v : V) : option (LRU * option V) :=
  l1 ← (if full l then
          '(lru, i) ← list_pop l.(lru_);
          '(h, _) ← FixedHash.erase SIZE destroy l.(map_) (Ref i key);
          Some {| map_ := h; lru_ := lru |}
        else Some l);
  '(h, pos) ← FixedHash.insert SIZE l1.(map_) k (Some (mk_value k v));
  Some (match pos with
        | Pool.At i => ({| map_ := h; lru_ := list_add_tail l1.(lru_) i |}, Some v)
        | _ => ({| map_ := h; lru_ := l1.(lru_) |}, None)
        end).

Definition remove (l : LRU) (k : K) : option LRU :=
  pos ← FixedHash.find SIZE l.(map_) k;
  match pos with
  | None => Some l
  | Some (i, _) =>
      '(h, _) ← FixedHash.erase SIZE destroy l.(map_) (Val k);
      Some {| map_ := h; lru_ := list_del l.(lru_) i |}
  end.

(** * The ideal cache: a list of key-value pairs, least recently used first *)

Inductive op := Find (k : K) | Insert (k : K) (v : V) | Remove (k : K) | Contains (k : K) | Full.
Inductive answer := Value (r : option V) | Is (b : bool) | Done.

#[local] Abbreviation ideal := (list (K * V)).

Definition without (E : ideal) (k : K) : ideal := filter (fun e => e.1 <> k) E.

Definition lookup_key (E : ideal) (k : K) : option V := list_to_map (M := gmap K V) E !! k.

Definition ideal_step (E : ideal) (o : op) : ideal * answer :=
  match o with
  | Find k =>
      match lookup_key E k with
      | Some v => (without E k ++ [(k, v)], Value (Some v))
      | None => (E, Value None)
      end
  | Insert k v =>
      let E1 := if decide (Z.of_nat (length E) = SIZE) then tail E else E in
      match lookup_key E1 k with
      | Some _ => (E1, Value None)
      | None => (E1 ++ [(k, v)], Value (Some v))
      end
  | Remove k => (without E k, Done)
  | Contains k => (E, Is (bool_decide (is_Some (lookup_key E k))))
  | Full => (E, Is (bool_decide (Z.of_nat (length E) = SIZE)))
  end.

Definition step (l : LRU) (o : op) : option (LRU * answer) :=
  match o with
  | Find k => '(l, r) ← find l k; Some (l, Value r)
  | Insert k v => '(l, r) ← insert l k v; Some (l, Value r)
  | Remove k => l ← remove l k; Some (l, Done)
  | Contains k => Some (l, Is (contains l k))
  | Full => Some (l, Is (full l))
  end.

Fixpoint run (l : LRU) (ops : list op) : option (LRU * list answer) :=
  match ops with
  | [] => Some (l, [])
  | o :: ops => '(l', r) ← step l o; '(l'', rs) ← run l' ops; Some (l'', r :: rs)
  end.

Fixpoint ideal_run (E : ideal) (ops : list op) : ideal * list answer :=
  match ops with
  | [] => (E, [])
  | o :: ops =>
      let '(E', r) := ideal_step E o in
      let '(E'', rs) := ideal_run E' ops in (E'', r :: rs)
  end.

(** The entries of the cache in the order of its list, the next to be evicted first. *)
Definition entries (l : LRU) : option ideal :=
  mapM (fun i => x ← Pool.at_ SIZE l.(map_).(FixedHash.pool_) i; Some (x.(key), x.(value))) (l_nodes l.(lru_)).

(** There is room for every insertion. *)
Fixpoint has_room (E : ideal) (ops : list op) : Prop :=
  match ops with
  | [] => True
  | o :: ops =>
      match o with Insert _ _ => Z.of_nat (length E) < SIZE | _ => True end /\ has_room (ideal_step E o).1 ops
  end.

(** * Representation *)

(** Entries in order of use, with the slot of each. *)
#[local] Abbreviation slots := (list (K * (Z * V))).

Definition conv (e : K * (Z * V)) : K * (Z * T) := (e.1, (e.2.1, mk_value e.1 e.2.2)).
Definition table (E : slots) : gmap K (Z * T) := list_to_map (conv <$> E).
Definition forget (E : slots) : ideal := (fun e => (e.1, e.2.2)) <$> E.
Definition order (E : slots) : list Z := (fun e => e.2.1) <$> E.

Record lru_rep (l : LRU) (E : slots) (B : gmap Z T) : Prop := {
  lr_nodup : NoDup (E.*1);
  lr_map : fh_rep SIZE l.(map_) (table E) B;
  lr_list : l_nodes l.(lru_) = order E;
}.

Lemma table_lookup (E : slots) (k : K) (i : Z) (x : T) :
  NoDup (E.*1) ->
  table E !! k = Some (i, x) <-> exists v, (k, (i, v)) ∈ E /\ x = mk_value k v.
Proof.
  intros Hnd. unfold table. rewrite <- elem_of_list_to_map.
  2:{ rewrite <- list_fmap_compose. exact Hnd. }
  rewrite list_elem_of_fmap. split.
  - intros ([k' [i' v]] & [= -> -> ->] & Hin). eauto.
  - intros (v & Hin & ->). by exists (k, (i, v)).
Qed.

Lemma table_None (E : slots) (k : K) :
  NoDup (E.*1) -> table E !! k = None <-> k ∉ E.*1.
Proof.
  intros Hnd. split.
  - intros Hn ([k' [i v]] & Hk & Hin)%list_elem_of_fmap. simpl in Hk. subst k'.
    assert (table E !! k = Some (i, mk_value k v)) by (apply table_lookup; eauto). congruence.
  - intros Hn. destruct (table E !! k) as [[i x]|] eqn:Hk; [|done].
    apply table_lookup in Hk as (v & Hin & _); [|done]. destruct Hn.
    apply list_elem_of_fmap. by exists (k, (i, v)).
Qed.

Lemma table_size (E : slots) : NoDup (E.*1) -> base.size (table E) = length E.
Proof.
  intros Hnd. unfold table. rewrite map_size_list_to_map, length_fmap; [done|].
  rewrite <- list_fmap_compose. exact Hnd.
Qed.

Lemma forget_lookup (E : slots) (k : K) :
  NoDup (E.*1) -> lookup_key (forget E) k = (fun p => p.2.(value)) <$> table E !! k.
Proof.
  intros Hnd. unfold lookup_key. apply option_eq. intros v.
  rewrite <- elem_of_list_to_map.
  2:{ unfold forget. rewrite <- list_fmap_compose. exact Hnd. }
  unfold forget. rewrite list_elem_of_fmap, fmap_Some. split.
  - intros ([k' [i v']] & [= -> ->] & Hin). exists (i, mk_value k' v').
    split; [|done]. apply table_lookup; eauto.
  - intros ([i x] & (v' & Hin & ->)%table_lookup & ->); [|done]. by exists (k, (i, v')).
Qed.

Lemma forget_filter (E : slots) (k : K) :
  forget (filter (fun e => e.1 <> k) E) = without (forget E) k.
Proof.
  unfold forget, without. induction E as [|e E IH]; [done|].
  rewrite fmap_cons. destruct (decide (e.1 = k)) as [He|He].
  - rewrite !filter_cons_False by (simpl; naive_solver). done.
  - rewrite !filter_cons_True by done. by rewrite fmap_cons, IH.
Qed.

Lemma nodup_filter (E : slots) (k : K) :
  NoDup (E.*1) -> NoDup ((filter (fun e => e.1 <> k) E).*1) /\
  k ∉ (filter (fun e => e.1 <> k) E).*1.
Proof.
  intros Hnd. split.
  - eapply sublist_NoDup; [exact Hnd|]. apply fmap_sublist, sublist_filter.
  - intros (e & -> & [He _]%list_elem_of_filter)%list_elem_of_fmap. done.
Qed.

Lemma table_delete (E : slots) (k : K) :
  NoDup (E.*1) -> table (filter (fun e => e.1 <> k) E) = delete k (table E).
Proof.
  intros Hnd. destruct (nodup_filter E k Hnd) as [Hnd' _].
  apply map_eq. intros k'. apply option_eq. intros [i x].
  rewrite lookup_delete_Some, !table_lookup by done.
  setoid_rewrite list_elem_of_filter. simpl. naive_solver.
Qed.

Lemma nodup_snoc (E : slots) (k : K) (p : Z * V) :
  NoDup (E.*1) -> k ∉ E.*1 -> NoDup ((E ++ [(k, p)]).*1).
Proof.
  intros Hnd Hk. rewrite fmap_app. apply NoDup_app. split; [done|]. split.
  - intros k' Hk' Hin. apply list_elem_of_singleton in Hin. simpl in Hin. by subst.
  - apply NoDup_singleton.
Qed.

Lemma table_snoc (E : slots) (k : K) (i : Z) (v : V) :
  NoDup (E.*1) -> k ∉ E.*1 -> table (E ++ [(k, (i, v))]) = <[k := (i, mk_value k v)]> (table E).
Proof.
  intros Hnd Hk. pose proof (nodup_snoc E k (i, v) Hnd Hk) as Hnd'.
  apply map_eq. intros k'. apply option_eq. intros [j x].
  rewrite lookup_insert_Some, !table_lookup by done.
  setoid_rewrite elem_of_app. setoid_rewrite list_elem_of_singleton. split.
  - intros (v' & [Hin|[= -> -> ->]] & ->); [right|by left].
    split; [|eauto]. intros ->. apply Hk, list_elem_of_fmap. by exists (k', (j, v')).
  - intros [[-> [= -> <-]]|[Hne (v' & Hin & ->)]]; [exists v; naive_solver|eauto].
Qed.

(** The slot of an entry identifies it, so removing the slot from the order is
    removing the entry. *)
Lemma order_filter (E : slots) (k : K) (i : Z) (v : V) :
  (forall k' v', (k', (i, v')) ∈ E -> k' = k) -> (forall p, (k, p) ∈ E -> p.1 = i) ->
  filter (fun n => n <> i) (order E) = order (filter (fun e => e.1 <> k) E).
Proof.
  intros Hi Hk. unfold order. induction E as [|[k' [j w]] E IH]; [done|].
  assert (HE : forall e, e ∈ E -> e ∈ (k', (j, w)) :: E) by (intros; by right).
  rewrite fmap_cons. cbn [snd fst].
  destruct (decide (k' = k)) as [->|Hk'].
  - assert (j = i) as -> by (apply (Hk (j, w)); left).
    rewrite !filter_cons_False by (simpl; naive_solver). apply IH; eauto.
  - assert (j <> i) by (intros ->; apply Hk'; eapply Hi; left).
    rewrite !filter_cons_True by done. rewrite fmap_cons. cbn [snd fst]. f_equal. apply IH; eauto.
Qed.

Hypothesis Hsize : Pool.size_ok SIZE sizeof_elem.

(** Distinct entries have distinct slots. *)
Lemma slot_inj (l : LRU) (E : slots) (B : gmap Z T) (k k' : K) (i : Z) (v v' : V) :
  lru_rep l E B -> (k, (i, v)) ∈ E -> (k', (i, v')) ∈ E -> k = k'.
Proof.
  intros Hr Hk Hk'. pose proof (lr_nodup _ _ _ Hr) as Hnd.
  eapply (fh_inj _ _ _ _ (lr_map _ _ _ Hr)); apply table_lookup; eauto.
Qed.

Lemma slot_fun (E : slots) (k : K) (p p' : Z * V) :
  NoDup (E.*1) -> (k, p) ∈ E -> (k, p') ∈ E -> p = p'.
Proof.
  intros Hnd Hk Hk'. assert (Hp : list_to_map (M := gmap K _) E !! k = Some p)
    by (by apply elem_of_list_to_map_1).
  assert (Hp' : list_to_map (M := gmap K _) E !! k = Some p')
    by (by apply elem_of_list_to_map_1). congruence.
Qed.

Lemma order_nodup (l : LRU) (E : slots) (B : gmap Z T) : lru_rep l E B -> NoDup (order E).
Proof.
  intros Hr. pose proof (lr_nodup _ _ _ Hr) as Hnd. unfold order.
  apply NoDup_fmap_2_strong.
  - intros [k [i v]] [k' [i' v']] Hk Hk' Hi. simpl in Hi. subst i'.
    pose proof (slot_inj _ _ _ _ _ _ _ _ Hr Hk Hk'). subst k'.
    by rewrite (slot_fun _ _ _ _ Hnd Hk Hk').
  - by apply NoDup_fmap_1 in Hnd.
Qed.

Lemma list_del_spec (l : LRU) (E : slots) (B : gmap Z T) (k : K) (i : Z) (v : V) :
  lru_rep l E B -> (k, (i, v)) ∈ E ->
  l_nodes (list_del l.(lru_) i) = order (filter (fun e => e.1 <> k) E).
Proof.
  intros Hr Hk. rewrite l_nodes_del; rewrite (lr_list _ _ _ Hr).
  - apply (order_filter E k i v).
    + intros k' v' Hk'. by eapply slot_inj.
    + intros p Hp. by rewrite (slot_fun _ _ _ _ (lr_nodup _ _ _ Hr) Hp Hk).
  - apply list_elem_of_fmap. by exists (k, (i, v)).
  - by eapply order_nodup.
Qed.

Lemma slot_gone (l : LRU) (E : slots) (B : gmap Z T) (k : K) (i : Z) (v : V) :
  lru_rep l E B -> (k, (i, v)) ∈ E -> i ∉ order (filter (fun e => e.1 <> k) E).
Proof.
  intros Hr Hk ([k' [j w]] & Hj & [Hne Hin]%list_elem_of_filter)%list_elem_of_fmap.
  simpl in *. subst j. apply Hne. by eapply slot_inj.
Qed.

Lemma find_refines (l : LRU) (E : slots) (B : gmap Z T) (k : K) :
  lru_rep l E B ->
  exists l' E' r, find l k = Some (l', r) /\ lru_rep l' E' B /\
    ideal_step (forget E) (Find k) = (forget E', Value r).
Proof.
  intros Hr. pose proof (lr_nodup _ _ _ Hr) as Hnd. unfold find.
  rewrite (find_spec SIZE sizeof_elem Hsize _ _ _ k (lr_map _ _ _ Hr)). simpl.
  rewrite (forget_lookup E k Hnd). destruct (table E !! k) as [[i x]|] eqn:Hk; simpl.
  2:{ eauto 10. }
  apply table_lookup in Hk as (v & Hin & ->); [|done]. simpl.
  destruct (nodup_filter E k Hnd) as [Hnd' Hnk].
  exists {| map_ := l.(map_); lru_ := list_add_tail (list_del l.(lru_) i) i |},
    (filter (fun e => e.1 <> k) E ++ [(k, (i, v))]), (Some v).
  split; [done|]. split.
  - split; simpl.
    + by apply nodup_snoc.
    + rewrite table_snoc, table_delete by done. rewrite insert_delete_eq.
      rewrite insert_id by (apply table_lookup; eauto). apply (lr_map _ _ _ Hr).
    + pose proof (list_del_spec _ _ _ _ _ _ Hr Hin) as Hd.
      rewrite l_nodes_add_tail; rewrite Hd.
      * unfold order. by rewrite fmap_app.
      * by eapply slot_gone.
  - rewrite <- forget_filter. unfold forget. by rewrite fmap_app.
Qed.

Lemma insert_refines (l : LRU) (E : slots) (B : gmap Z T) (k : K) (v : V) :
  lru_rep l E B -> Z.of_nat (length E) < SIZE ->
  exists l' E' B' r, insert l k v = Some (l', r) /\ lru_rep l' E' B' /\
    ideal_step (forget E) (Insert k v) = (forget E', Value r).
Proof.
  intros Hr Hlt. pose proof (lr_nodup _ _ _ Hr) as Hnd. unfold insert, full.
  pose proof (table_size E Hnd) as Hts.
  rewrite (full_spec SIZE _ _ _ (lr_map _ _ _ Hr)), Hts, bool_decide_false by lia. simpl.
  assert (Hlen : length (forget E) = length E) by apply length_fmap.
  rewrite decide_False by (rewrite Hlen; lia). rewrite (forget_lookup E k Hnd).
  destruct (table E !! k) as [[i x]|] eqn:Hk; simpl.
  - rewrite (insert_dup SIZE _ _ _ k _ (lr_map _ _ _ Hr)) by eauto. simpl.
    eexists _, E, B, _. split; [done|]. split; [by destruct l, Hr|done].
  - destruct (insert_spec SIZE sizeof_elem Hsize l.(map_) (table E) B k (mk_value k v) (lr_map _ _ _ Hr))
      as (h & i & -> & Hi & Hfresh & Hrep & _); [by rewrite Hts|done|]. simpl.
    apply table_None in Hk; [|done].
    eexists _, (E ++ [(k, (i, v))]), _, _. split; [done|]. split.
    + split; simpl.
      * by apply nodup_snoc.
      * by rewrite table_snoc.
      * rewrite l_nodes_add_tail; rewrite (lr_list _ _ _ Hr); [unfold order; by rewrite fmap_app|].
        intros ([k' [j w]] & Hj & Hin)%list_elem_of_fmap. simpl in Hj. subst j.
        eapply (Hfresh k' i (mk_value k' w)); [|done]. apply table_lookup; eauto.
    + unfold forget. by rewrite fmap_app.
Qed.

Lemma remove_refines (l : LRU) (E : slots) (B : gmap Z T) (k : K) :
  lru_rep l E B ->
  exists l' E' B', remove l k = Some l' /\ lru_rep l' E' B' /\
    ideal_step (forget E) (Remove k) = (forget E', Done).
Proof.
  intros Hr. pose proof (lr_nodup _ _ _ Hr) as Hnd. unfold remove.
  rewrite (find_spec SIZE sizeof_elem Hsize _ _ _ k (lr_map _ _ _ Hr)). simpl.
  destruct (nodup_filter E k Hnd) as [Hnd' Hnk]. rewrite <- forget_filter.
  destruct (table E !! k) as [[i x]|] eqn:Hk; simpl.
  - destruct (erase_spec SIZE sizeof_elem destroy Hsize l.(map_) (table E) B k i x (lr_map _ _ _ Hr) Hk)
      as (h & -> & Hrep). simpl.
    apply table_lookup in Hk as (v & Hin & ->); [|done].
    eexists _, (filter (fun e => e.1 <> k) E), _. split; [done|]. split; [|done].
    split; simpl; [done|by rewrite table_delete|by eapply list_del_spec].
  - exists l, E, B. split; [done|]. split; [done|]. do 2 f_equal.
    apply table_None in Hk; [|done]. clear - Hk. induction E as [|e E IH]; [done|].
    rewrite fmap_cons, not_elem_of_cons in Hk. destruct Hk as [Hne Hk].
    rewrite filter_cons_True by congruence. f_equal. by apply IH.
Qed.

Lemma contains_refines (l : LRU) (E : slots) (B : gmap Z T) (k : K) :
  lru_rep l E B -> contains l k = bool_decide (is_Some (lookup_key (forget E) k)).
Proof.
  intros Hr. unfold contains, FixedHash.contains. rewrite (fh_map _ _ _ _ (lr_map _ _ _ Hr)), (forget_lookup E k (lr_nodup _ _ _ Hr)).
  by destruct (table E !! k).
Qed.

Lemma full_refines (l : LRU) (E : slots) (B : gmap Z T) :
  lru_rep l E B -> full l = bool_decide (Z.of_nat (length (forget E)) = SIZE).
Proof.
  intros Hr. unfold full. rewrite (full_spec SIZE _ _ _ (lr_map _ _ _ Hr)), (table_size E (lr_nodup _ _ _ Hr)).
  unfold forget. by rewrite length_fmap.
Qed.

Lemma entries_forget (l : LRU) (E : slots) (B : gmap Z T) : lru_rep l E B -> entries l = Some (forget E).
Proof.
  intros Hr. unfold entries. rewrite (lr_list _ _ _ Hr). apply mapM_Some. unfold order, forget. rewrite Forall2_fmap.
  apply Forall_Forall2_diag, Forall_forall. intros [k [i v]] Hin. cbn [fst snd].
  assert (Hk : table E !! k = Some (i, mk_value k v)) by (apply table_lookup; [apply (lr_nodup _ _ _ Hr)|eauto]).
  pose proof (lr_map _ _ _ Hr) as Hm. pose proof (FixedHash.slot_range SIZE _ _ _ _ _ _ Hm Hk) as Hi.
  by rewrite (Pool.at_spec SIZE _ _ _ (fh_pool _ _ _ _ Hm) Hi), (fh_obj _ _ _ _ Hm _ _ _ Hk).
Qed.

Lemma lru_step_refines (l : LRU) (E : slots) (B : gmap Z T) (o : op) :
  lru_rep l E B -> match o with Insert _ _ => Z.of_nat (length (forget E)) < SIZE | _ => True end ->
  exists l' E' B' r, step l o = Some (l', r) /\ lru_rep l' E' B' /\ ideal_step (forget E) o = (forget E', r).
Proof.
  intros Hr Hroom. destruct o as [k|k v|k|k|]; unfold step.
  - destruct (find_refines l E B k Hr) as (l' & E' & r & -> & Hr' & Hi). by eexists _, _, _, _.
  - unfold forget in Hroom. rewrite length_fmap in Hroom.
    destruct (insert_refines l E B k v Hr Hroom) as (l' & E' & B' & r & -> & Hr' & Hi). by eexists _, _, _, _.
  - destruct (remove_refines l E B k Hr) as (l' & E' & B' & -> & Hr' & Hi). by eexists _, _, _, _.
  - eexists _, _, _, _. split; [done|]. split; [exact Hr|]. by rewrite (contains_refines l E B k Hr).
  - eexists _, _, _, _. split; [done|]. split; [exact Hr|]. by rewrite (full_refines l E B Hr).
Qed.

Lemma lru_run_refines (ops : list op) (l : LRU) (E : slots) (B : gmap Z T) :
  lru_rep l E B -> has_room (forget E) ops ->
  exists l', run l ops = Some (l', (ideal_run (forget E) ops).2) /\ entries l' = Some (ideal_run (forget E) ops).1.
Proof.
  revert l E B. induction ops as [|o ops IH]; intros l E B Hr Hroom.
  { exists l. split; [done|]. by eapply entries_forget. }
  destruct Hroom as [Ho Hroom]. destruct (lru_step_refines l E B o Hr Ho) as (l' & E' & B' & r & Hs & Hr' & Hi).
  rewrite Hi in Hroom. destruct (IH l' E' B' Hr' Hroom) as (l2 & Hrun & He). exists l2.
  cbn [run ideal_run]. rewrite Hs, Hi. cbn [mbind option_bind]. rewrite Hrun. by destruct (ideal_run (forget E') ops).
Qed.

Lemma lru_new_rep (elements0 : list T) :
  zlen elements0 = SIZE -> exists l, LRU_new elements0 = Some l /\ lru_rep l [] ∅.
Proof.
  intros Hl. unfold LRU_new.
  destruct (FixedHash.fh_new_rep (K := K) SIZE sizeof_elem Hsize elements0 Hl) as (h & -> & Hr). simpl.
  eexists. split; [done|]. split; simpl; [constructor|done|apply l_nodes_init].
Qed.

(** The key [erase] reads after the element is back in the pool: the evicted
    key with its first word overwritten by the end-of-list marker. *)
Definition clobbered (k : K) : K := set_first_u32 PoolAllocator.NULL_ELEM k.

Lemma evict_stale (l : LRU) (E : slots) (B : gmap Z T) (k0 k : K) (i0 : Z) (v0 v : V) :
  lru_rep l ((k0, (i0, v0)) :: E) B -> Z.of_nat (S (length E)) = SIZE ->
  k ∉ ((k0, (i0, v0)) :: E).*1 -> clobbered k0 <> k0 ->
  exists l', insert l k v = Some (l', Some v) /\
    fm_find l'.(map_).(FixedHash.map_) k0 = Some i0 /\
    exists l'', find l' k0 = Some (l'', Some v).
Proof.
  intros Hr Hs Hk Hc. pose proof (lr_nodup _ _ _ Hr) as Hnd. pose proof (lr_map _ _ _ Hr) as Hm.
  assert (Hk0 : table ((k0, (i0, v0)) :: E) !! k0 = Some (i0, mk_value k0 v0))
    by (apply table_lookup; [done|exists v0; split; [left|done]]).
  pose proof (fh_obj _ _ _ _ Hm _ _ _ Hk0) as HB. pose proof (fh_pool _ _ _ _ Hm) as Hp.
  pose proof (table_size _ Hnd) as Hts. simpl in Hts.
  pose proof (fh_size _ _ _ _ Hm) as Hsz. apply table_None in Hk; [|done].
  assert (Hkn : k0 <> k) by congruence.
  unfold insert, full. rewrite (full_spec SIZE _ _ _ Hm), Hts, bool_decide_true by done.
  destruct (list_pop_cons l.(lru_) i0 (order E)) as (lr & Hpop & Hlr);
    [by rewrite (lr_list _ _ _ Hr)|]. rewrite Hpop. cbn [mbind option_bind].
  unfold erase, deref. rewrite (Pool.rep_cells _ _ _ Hp _ _ HB). simpl.
  rewrite (fh_map _ _ _ _ Hm), Hk0. simpl.
  destruct (Pool.pool_remove_spec SIZE sizeof_elem destroy Hsize _ B i0 (mk_value k0 v0) Hp HB)
    as (p' & -> & Hp' & Hcell & Hfl). simpl. rewrite Hcell. simpl.
  rewrite (Pool.full_free_list SIZE _ B Hp) by lia. fold (clobbered k0).
  set (m := fm_erase _ _).
  assert (Hfm : forall k', fm_find m k' = if decide (clobbered k0 = k') then None
    else fst <$> table ((k0, (i0, v0)) :: E) !! k').
  { intros k'. unfold m. by rewrite fm_find_erase, (fh_map _ _ _ _ Hm). }
  unfold FixedHash.insert, FixedHash.full, Pool.full, Pool.size, Pool.capacity. simpl.
  assert (Hsd : Z.of_nat (base.size (delete i0 B)) = SIZE - 1).
  { rewrite map_size_delete_Some by eauto. lia. }
  rewrite (Pool.rep_count _ _ _ Hp'), Hsd.
  destruct (Z.eqb_spec (SIZE - 1) SIZE); [lia|].
  destruct (fm_insert_new m k (Pool.to_index SIZE (-1))) as [Hins Hfind].
  { rewrite Hfm, Hk. by case_decide. }
  destruct (fm_insert m k _) as [m' b]. simpl in Hins, Hfind. subst b. simpl.
  destruct (Pool.emplace_spec SIZE sizeof_elem Hsize p' _ (mk_value k v) Hp')
    as (p2 & j & He & Hj & _ & Hp2 & Hjf); [lia|].
  rewrite He. simpl. rewrite Hfl in Hjf. subst j.
  eexists. split; [done|]. simpl.
  assert (Hstale : fm_find (fm_assign m' k i0) k0 = Some i0).
  { rewrite fm_find_assign by (rewrite Hfind, decide_True; eauto).
    rewrite decide_False, Hfind, decide_False, Hfm, decide_False, Hk0 by done. done. }
  split; [done|]. unfold find, FixedHash.find. simpl. rewrite Hstale.
  rewrite (Pool.at_spec SIZE _ _ _ Hp2 Hj), lookup_insert_eq. simpl. by eexists.
Qed.
End lru.
Arguments LRU K V M L : clear implicits.

(** C34: in every history in which there is room for each key that is inserted, however
    many are inserted and removed in all, the cache violates no assertion and answers as
    the ideal least-recently-used map does; and its list holds the entries of that map from
    the least to the most recently used one, where finding an entry uses it, so that the
    entry the next eviction takes is the one that was not used for the longest time. *)
Theorem lru_refines_ideal {K V M L : Type} `{Countable K} `{Poolable K} `{Inhabited V}
    `{!FlatHashMap K Z M} `{!CcanList L} (SIZE sizeof_elem : Z)
    (elements0 : list (value_type K V)) (ops : list op) :
  Pool.size_ok SIZE sizeof_elem -> zlen elements0 = SIZE -> has_room SIZE [] ops ->
  exists (l0 l : LRU K V M L),
    LRU_new SIZE sizeof_elem elements0 = Some l0 /\
    run SIZE l0 ops = Some (l, (ideal_run SIZE [] ops).2) /\
    entries SIZE l = Some (ideal_run SIZE [] ops).1.
Proof.
  intros Hsize Hl Hi. destruct (lru_new_rep SIZE sizeof_elem Hsize elements0 Hl) as (l0 & Hnew & Hr).
  destruct (lru_run_refines SIZE sizeof_elem Hsize ops l0 [] ∅ Hr Hi) as (l & Hrun). by exists l0, l.
Qed.

(** More insertions than slots; the entry that was found last is last in the list. *)
Definition demo_ops : list (op (K := Z) (V := Z)) :=
  [Insert 1 10; Insert 2 20; Full; Remove 1; Insert 3 30; Find 2; Contains 1; Insert 2 21].

Lemma lru_refines_ideal_witness :
  exists (l0 l : LRU Z Z (gmap Z Z) (list Z)),
    LRU_new 3 16 [mk_value 0 0; mk_value 0 0; mk_value 0 0] = Some l0 /\
    run 3 l0 demo_ops
      = Some (l, [Value (Some 10); Value (Some 20); Is false; Done; Value (Some 30); Value (Some 20); Is false; Value None]) /\
    entries 3 l = Some [(3, 30); (2, 20)].
Proof.
  destruct (lru_refines_ideal (K := Z) (V := Z) (M := gmap Z Z) (L := list Z) 3 16
    [mk_value 0 0; mk_value 0 0; mk_value 0 0] demo_ops) as (l0 & l & Hnew & Hrun & He).
  - unfold Pool.size_ok. lia.
  - reflexivity.
  - vm_compute. repeat split.
  - exists l0, l. split; [exact Hnew|]. rewrite Hrun, He. split; vm_compute; reflexivity.
Defined.
End LRU.

(** * The reducer's DNS cache *)

Module DnsCache.
Import LRU.

(** [IPv6Address]: the hextets, the first two apart.  They are the first 32-bit
    word of the object on a little-endian machine. *)
Definition IPv6Address : Type := Z * Z * list Z.

#[export] Instance IPv6Address_eq_dec : EqDecision IPv6Address := _.
#[export] Instance IPv6Address_countable : Countable IPv6Address := _.
#[export] Program Instance IPv6Address_poolable : Poolable IPv6Address := {
  first_u32 a := a.1.1 + 2 ^ 16 * a.1.2;
  set_first_u32 v a := (v mod 2 ^ 16, v / 2 ^ 16, a.2);
  zeroed := (0, 0, [0; 0; 0; 0; 0; 0]);
}.
Next Obligation. intros v a _. simpl. pose proof (Z.div_mod v (2 ^ 16)). lia. Qed.

(** [short_string<256>]: the characters. *)
Definition dns_record : Type := list Z.

Section dns_cache.
Context {M L : Type} `{!FlatHashMap IPv6Address Z M} `{!CcanList L}.
Context (SIZE sizeof_elem : Z).

Definition DnsCache : Type := LRU IPv6Address dns_record M L.

(** [AgentSpan::map_ip_to_domain]; the boolean says that
    [failed_to_insert_dns_record] is logged. *)
Definition map_ip_to_domain (c : DnsCache) (addr : IPv6Address) (rec : dns_record)
    : option (DnsCache * bool) :=
  '(c, found) ← find SIZE c addr;
  c ← match found with Some _ => remove SIZE c addr | None => Some c end;
  '(c, inserted) ← insert SIZE c addr rec;
  Some (c, match inserted with None => true | Some _ => false end).

(** [AgentSpan::find_dns_for_ip]. *)
Definition find_dns_for_ip (c : DnsCache) (addr : IPv6Address)
    : option (DnsCache * option dns_record) := find SIZE c addr.

Fixpoint map_all (c : DnsCache) (rs : list (IPv6Address * dns_record)) : option DnsCache :=
  match rs with
  | [] => Some c
  | (a, r) :: rs => '(c', _) ← map_ip_to_domain c a r; map_all c' rs
  end.

Hypothesis Hsize : Pool.size_ok SIZE sizeof_elem.

Lemma find_absent (c : DnsCache) E B (a : IPv6Address) :
  lru_rep SIZE c E B -> a ∉ E.*1 -> find SIZE c a = Some (c, None).
Proof.
  intros Hr Ha. unfold find.
  rewrite (FixedHash.find_spec SIZE sizeof_elem Hsize _ _ _ a (lr_map _ _ _ _ Hr)).
  rewrite (proj2 (table_None E a (lr_nodup _ _ _ _ Hr)) Ha). done.
Qed.

(** Mapping a new address while there is room appends it. *)
Lemma map_new (c : DnsCache) E B (a : IPv6Address) (r : dns_record) :
  lru_rep SIZE c E B -> a ∉ E.*1 -> Z.of_nat (length E) < SIZE ->
  exists c' E' B', map_ip_to_domain c a r = Some (c', false) /\ lru_rep SIZE c' E' B' /\
    forget E' = forget E ++ [(a, r)].
Proof.
  intros Hr Ha Hlt. unfold map_ip_to_domain. rewrite (find_absent c E B a Hr Ha).
  cbn [mbind option_bind].
  destruct (insert_refines SIZE sizeof_elem Hsize c E B a r Hr Hlt)
    as (c' & E' & B' & o & Hi & Hr' & Hid).
  rewrite Hi. simpl.
  pose proof (lr_nodup _ _ _ _ Hr) as Hnd. simpl in Hid.
  assert (Hlen : length (forget E) = length E) by apply length_fmap.
  rewrite decide_False in Hid by (rewrite Hlen; lia).
  rewrite (forget_lookup E a Hnd), (proj2 (table_None E a Hnd) Ha) in Hid. simpl in Hid.
  injection Hid as Hf <-. eauto 10.
Qed.

Lemma forget_keys {K V} (E : list (K * (Z * V))) : (forget E).*1 = E.*1.
Proof. unfold forget. rewrite <- list_fmap_compose. by apply list_fmap_ext. Qed.

Lemma map_all_new (c : DnsCache) E B (rs : list (IPv6Address * dns_record)) :
  lru_rep SIZE c E B -> NoDup (E.*1 ++ rs.*1) -> Z.of_nat (length E + length rs) <= SIZE ->
  exists c' E' B', map_all c rs = Some c' /\ lru_rep SIZE c' E' B' /\ forget E' = forget E ++ rs.
Proof.
  revert c E B. induction rs as [|[a r] rs IH]; intros c E B Hr Hnd Hle.
  { exists c, E, B. split; [done|]. split; [done|]. by rewrite app_nil_r. }
  simpl in Hle. assert (Ha : a ∉ E.*1).
  { intros Hin. apply NoDup_app in Hnd as (_ & Hd & _). apply (Hd a Hin). left. }
  destruct (map_new c E B a r Hr Ha) as (c1 & E1 & B1 & Hm & Hr1 & Hf); [lia|].
  assert (HE1 : E1.*1 = E.*1 ++ [a]).
  { by rewrite <- !forget_keys, Hf, fmap_app. }
  assert (Hlen : length E1 = S (length E)).
  { rewrite <- (length_fmap fst E1), HE1, length_app, length_fmap. simpl. lia. }
  destruct (IH c1 E1 B1 Hr1) as (c2 & E2 & B2 & Hm2 & Hr2 & Hf2).
  - rewrite HE1, <- app_assoc. exact Hnd.
  - lia.
  - exists c2, E2, B2. simpl. rewrite Hm. simpl. split; [done|]. split; [done|].
    by rewrite Hf2, Hf, <- app_assoc.
Qed.
End dns_cache.

(** C39: a cache that has been filled serves wrong names.  After [SIZE] + 1 distinct
    addresses have been mapped, the first of which does not begin with the two
    hextets ffff:ffff, the least recently used address is not forgotten: looking
    it up returns the record of the last address. *)
Theorem dns_cache_serves_wrong_name {M L : Type} `{!FlatHashMap IPv6Address Z M} `{!CcanList L}
    (SIZE sizeof_elem : Z) (elements0 : list (value_type IPv6Address dns_record))
    (a0 a : IPv6Address) (r0 r : dns_record) (rs : list (IPv6Address * dns_record)) :
  Pool.size_ok SIZE sizeof_elem -> zlen elements0 = SIZE ->
  zlen ((a0, r0) :: rs) = SIZE -> NoDup (((a0, r0) :: rs ++ [(a, r)]).*1) ->
  a0.1 <> (2 ^ 16 - 1, 2 ^ 16 - 1) ->
  exists (c0 c c' : DnsCache (M := M) (L := L)),
    LRU_new SIZE sizeof_elem elements0 = Some c0 /\
    map_all SIZE c0 ((a0, r0) :: rs ++ [(a, r)]) = Some c /\
    find_dns_for_ip SIZE c a0 = Some (c', Some r).
Proof.
  intros Hsize Hl Hlen Hnd Ha0.
  destruct (lru_new_rep SIZE sizeof_elem Hsize elements0 Hl) as (c0 & Hnew & Hr0). exists c0.
  assert (Hnd1 : NoDup (((a0, r0) :: rs).*1) /\ a ∉ ((a0, r0) :: rs).*1).
  { change ((a0, r0) :: rs ++ [(a, r)]) with (((a0, r0) :: rs) ++ [(a, r)]) in Hnd.
    rewrite fmap_app in Hnd. apply NoDup_app in Hnd as (Hnd & Hd & _). split; [done|].
    intros Hin. apply (Hd a Hin). left. }
  destruct Hnd1 as [Hnd1 Ha].
  destruct (map_all_new SIZE sizeof_elem Hsize c0 [] ∅ ((a0, r0) :: rs) Hr0) as (c1 & E & B & Hm & Hr & Hf).
  { exact Hnd1. }
  { unfold zlen in Hlen. simpl in *. lia. }
  assert (Hall : map_all SIZE c0 (((a0, r0) :: rs) ++ [(a, r)]) = '(c', _) ← map_ip_to_domain SIZE c1 a r; Some c').
  { revert Hm. generalize ((a0, r0) :: rs) as xs. clear. revert c0.
    intros c0 xs. revert c0. induction xs as [|[b q] xs IH]; intros c0; simpl.
    - intros [= ->]. done.
    - destruct (map_ip_to_domain SIZE c0 b q) as [[c2 bo]|]; [|done]. simpl. apply IH. }
  destruct E as [|[k0 [i0 v0]] E]; [done|]. simpl in Hf. injection Hf as -> -> Hf.
  assert (HaE : a ∉ ((a0, (i0, r0)) :: E).*1).
  { rewrite <- forget_keys. simpl. rewrite Hf. exact Ha. }
  destruct (evict_stale SIZE sizeof_elem Hsize c1 E B a0 a i0 r0 r Hr) as (c2 & Hi & _ & c3 & Hfind).
  - unfold zlen in Hlen. rewrite <- Hf in Hlen. simpl in Hlen. unfold forget in Hlen.
    rewrite length_fmap in Hlen. lia.
  - exact HaE.
  - unfold clobbered. simpl. intros Heq. apply Ha0. destruct a0 as [[x y] z]. simpl in *.
    injection Heq as <- <-. reflexivity.
  - exists c2, c3. split; [done|]. split; [|exact Hfind].
    change ((a0, r0) :: rs ++ [(a, r)]) with (((a0, r0) :: rs) ++ [(a, r)]). rewrite Hall.
    unfold map_ip_to_domain. rewrite (find_absent SIZE sizeof_elem Hsize c1 _ B a Hr HaE). simpl.
    by rewrite Hi.
Qed.

(** Addresses 10.0.0.[n] as IPv4-mapped addresses. *)
Definition demo_addr (n : Z) : IPv6Address := (0, 0, [0; 0; 0; 65535; 10; 256 * n]).

Lemma dns_cache_serves_wrong_name_witness :
  exists (c0 c c' : DnsCache (M := gmap IPv6Address Z) (L := list Z)),
    LRU_new 2 300 [mk_value (demo_addr 0) []; mk_value (demo_addr 0) []] = Some c0 /\
    map_all 2 c0 [(demo_addr 1, [97]); (demo_addr 2, [98]); (demo_addr 3, [99])] = Some c /\
    find_dns_for_ip 2 c (demo_addr 1) = Some (c', Some [99]).
Proof.
  apply (dns_cache_serves_wrong_name (M := gmap IPv6Address Z) (L := list Z) 2 300
    [mk_value (demo_addr 0) []; mk_value (demo_addr 0) []]
    (demo_addr 1) (demo_addr 3) [97] [99] [(demo_addr 2, [98])]).
  - unfold Pool.size_ok. lia.
  - reflexivity.
  - reflexivity.
  - apply (bool_decide_unpack _). vm_compute. exact I.
  - vm_compute. discriminate.
Defined.
End DnsCache.
