(* ===== verification/MetricStore.v ===== *)
(** Statistics that are accumulated per slot and flushed per time slot:
    util/fast_div.h (the division of a timestamp by the slot length),
    util/histogram.h (the clamping of a relative slot to the store's epochs)
    and util/metric_store.h.

    The store keeps, for every slot index and every epoch, one metric and one
    list link.  The links of an epoch form a stack of the indices whose metric
    changed in that epoch: [invalid] marks an index that is not on the stack,
    [list_end] its bottom.

    Theorems: the stacks never hold an index twice and never get lost links;
    looking a metric up enqueues its index exactly when it is not queued; every
    call of the interface answers as a window of epochs does, each with its own
    metrics and its stack of queued indices; [histogram_bin] clamps. *)
From S2P Require Import Prelude.

(** The conversion of an integer to [s16]. *)
Definition s16 (x : Z) : Z := (x + 2 ^ 15) mod 2 ^ 16 - 2 ^ 15.

Module FastDiv.
Record fast_div := { mul : Z; shift : Z }.

(** [operator/(uint64_t, fast_div)]. *)
Definition div (x : Z) (d : fast_div) : Z := u32 (Z.shiftr (u64 (x * d.(mul))) d.(shift)).

(** The division of a timestamp by [2^shift / mul], as long as the product
    does not overflow 64 bits. *)
Lemma div_spec (x : Z) (d : fast_div) :
  0 <= x -> 0 <= d.(mul) -> 0 <= d.(shift) -> x * d.(mul) < 2 ^ 64 ->
  div x d = u32 (x * d.(mul) / 2 ^ d.(shift)).
Proof.
  intros. unfold div. rewrite u64_small by nia. by rewrite Z.shiftr_div_pow2 by lia.
Qed.
End FastDiv.

Module Histogram.
(** [int] arithmetic with the conversions to [unsigned int] written out; [>>] on
    a negative [int] is the arithmetic shift. *)
Definition histogram_bin (n_bins item : Z) : Z :=
  let mask := u32 (n_bins - 1) in
  let overflow_mask := u32 (Z.shiftr (s32 (s32 mask - item)) 31) in
  let neg_mask := u32 (Z.shiftr item 31) in
  let clasped := Z.lor (Z.land (u32 item) (not32 neg_mask)) overflow_mask in
  Z.land clasped mask.

Lemma shiftr31_sign (x : Z) :
  - 2 ^ 31 <= x < 2 ^ 31 -> u32 (Z.shiftr x 31) = if decide (x < 0) then 2 ^ 32 - 1 else 0.
Proof.
  intros Hx. rewrite Z.shiftr_div_pow2 by lia. case_decide.
  - replace (x / 2 ^ 31) with (-1); [done|].
    apply Z.div_unique with (x + 2 ^ 31); lia.
  - rewrite Z.div_small by lia. done.
Qed.

(** For a power of two number of bins, [histogram_bin] is the item clamped to
    the range of the bins. *)
Lemma histogram_bin_clamps (k item : Z) :
  0 <= k < 31 -> - 2 ^ 30 <= item < 2 ^ 31 ->
  histogram_bin (2 ^ k) item = Z.max 0 (Z.min item (2 ^ k - 1)).
Proof.
  intros Hk Hi. unfold histogram_bin. pose proof (pow2_pos k).
  assert (H2 : 2 ^ k <= 2 ^ 30) by (apply Z.pow_le_mono_r; lia).
  rewrite (u32_small (2 ^ k - 1)), (s32_small (2 ^ k - 1)), s32_small by lia.
  rewrite !shiftr31_sign by lia.
  destruct (decide (item < 0)) as [Hn|Hn], (decide (2 ^ k - 1 - item < 0)) as [Ho|Ho]; try lia.
  - replace (not32 (2 ^ 32 - 1)) with 0 by done. rewrite Z.land_0_r, Z.lor_0_l, Z.land_0_l. lia.
  - replace (Z.lor _ (2 ^ 32 - 1)) with (2 ^ 32 - 1).
    + rewrite land_mask by lia. change (2 ^ 32 - 1) with (Z.ones 32).
      rewrite Z.ones_mod_pow2, Z.ones_equiv by lia. lia.
    + symmetry. change (not32 0) with (Z.ones 32). change (2 ^ 32 - 1) with (Z.ones 32).
      rewrite Z.land_ones by lia. pose proof (Z.mod_pos_bound (u32 item) (2 ^ 32)).
      apply Z.lor_ones_low; [lia|].
      destruct (decide (u32 item mod 2 ^ 32 = 0)) as [->|]; [done|].
      apply Z.log2_lt_pow2; lia.
  - change (not32 0) with (Z.ones 32).
    rewrite Z.land_ones, Z.lor_0_r, u32_small, Z.mod_small, land_mask, Z.mod_small by lia. lia.
Qed.

End Histogram.

Module MetricStore.
Section metric_store.
Context {Metric : Type} (default_metric : Metric).
(** [SIZE], [N_EPOCHS] = 2^[log_epochs], and the divisor of the constructor. *)
Context (SIZE log_epochs : Z) (t_to_timeslot_ : FastDiv.fast_div).

Definition n_epochs : Z := 2 ^ log_epochs.

Definition index_max : Z := if 2 ^ 16 - 2 <=? SIZE then 2 ^ 32 - 1 else 2 ^ 16 - 1.
Definition invalid : Z := index_max.
Definition list_end : Z := index_max - 1.

Record element_type := { m : list Metric; next : list Z }.

(** [heads] are the [head_] members of the queues.  The lazily constructed
    array is the array of default-constructed elements. *)
Record MetricStore := {
  arr_ : list element_type;
  heads : list Z;
  current_timeslot_ : option Z;
  current_queue_ : Z;
}.

Definition element_new : element_type :=
  {| m := replicate (Z.to_nat n_epochs) default_metric;
     next := replicate (Z.to_nat n_epochs) invalid |}.

Definition MetricStore_new : MetricStore :=
  {| arr_ := replicate (Z.to_nat SIZE) element_new;
     heads := replicate (Z.to_nat n_epochs) list_end;
     current_timeslot_ := None; current_queue_ := 0 |}.

(** Assignments to one link, one head and one metric. *)
Definition set_next (st : MetricStore) (index epoch v : Z) : option MetricStore :=
  e ← rd st.(arr_) index;
  next' ← wr e.(next) epoch v;
  arr' ← wr st.(arr_) index {| m := e.(m); next := next' |};
  Some {| arr_ := arr'; heads := st.(heads); current_timeslot_ := st.(current_timeslot_);
          current_queue_ := st.(current_queue_) |}.

Definition set_head (st : MetricStore) (epoch v : Z) : option MetricStore :=
  heads' ← wr st.(heads) epoch v;
  Some {| arr_ := st.(arr_); heads := heads'; current_timeslot_ := st.(current_timeslot_);
          current_queue_ := st.(current_queue_) |}.

Definition set_metric (st : MetricStore) (index epoch : Z) (x : Metric) : option MetricStore :=
  e ← rd st.(arr_) index;
  m' ← wr e.(m) epoch x;
  arr' ← wr st.(arr_) index {| m := m'; next := e.(next) |};
  Some {| arr_ := arr'; heads := st.(heads); current_timeslot_ := st.(current_timeslot_);
          current_queue_ := st.(current_queue_) |}.

Definition get_next (st : MetricStore) (index epoch : Z) : option Z :=
  e ← rd st.(arr_) index; rd e.(next) epoch.

Definition metric (st : MetricStore) (index epoch : Z) : option Metric :=
  e ← rd st.(arr_) index; rd e.(m) epoch.

(** [relative_timeslot] fixes the current time slot on its first call. *)
Definition relative_timeslot (st : MetricStore) (t : Z) : MetricStore * Z :=
  let timeslot := u16 (FastDiv.div t t_to_timeslot_) in
  let cur := default timeslot st.(current_timeslot_) in
  ({| arr_ := st.(arr_); heads := st.(heads); current_timeslot_ := Some cur;
      current_queue_ := st.(current_queue_) |},
   s16 (s16 timeslot - cur)).

(** The epoch of a bin relative to the current queue. *)
Definition epoch_of (st : MetricStore) (bin : Z) : Z :=
  Z.land (u32 (bin + st.(current_queue_))) (n_epochs - 1).

(** [lookup_relative]: whether the index was queued, and the epoch of the metric
    the returned reference designates. *)
Definition lookup_relative (st : MetricStore) (index bin : Z) (enqueue : bool)
    : option (MetricStore * bool * Z) :=
  if negb ((index <? SIZE) && (bin <? n_epochs)) then None
  else
    let epoch := epoch_of st bin in
    nx ← get_next st index epoch;
    let was_queued := negb (nx =? invalid) in
    if enqueue && negb was_queued then
      h ← rd st.(heads) epoch;
      st ← set_next st index epoch h;
      st ← set_head st epoch index;
      Some (st, was_queued, epoch)
    else Some (st, was_queued, epoch).

Definition lookup (st : MetricStore) (index t : Z) (enqueue : bool)
    : option (MetricStore * bool * Z) :=
  let '(st, rel) := relative_timeslot st t in
  lookup_relative st index (Histogram.histogram_bin n_epochs rel) enqueue.

(** The operations of the current queue. *)
Definition queue_empty (st : MetricStore) : option bool :=
  h ← rd st.(heads) st.(current_queue_); Some (h =? list_end).

Definition queue_peek (st : MetricStore) : option Z :=
  h ← rd st.(heads) st.(current_queue_); if h =? list_end then None else Some h.

Definition queue_pop (st : MetricStore) : option MetricStore :=
  dequeued ← queue_peek st;
  nx ← get_next st dequeued st.(current_queue_);
  st ← set_next st dequeued st.(current_queue_) invalid;
  set_head st st.(current_queue_) nx.

Definition advance (st : MetricStore) : MetricStore :=
  {| arr_ := st.(arr_); heads := st.(heads);
     current_timeslot_ := (fun s => u16 (s + 1)) <$> st.(current_timeslot_);
     current_queue_ := Z.land (st.(current_queue_) + 1) (n_epochs - 1) |}.

(** * Invariant *)

(** The links of [epoch] from [h] run through the indices [q]. *)
Fixpoint chain (st : MetricStore) (epoch h : Z) (q : list Z) : Prop :=
  match q with
  | [] => h = list_end
  | x :: xs => h = x /\ 0 <= x < SIZE /\
      exists nx, get_next st x epoch = Some nx /\ chain st epoch nx xs
  end.

Record shape (st : MetricStore) : Prop := {
  sh_len : zlen st.(arr_) = SIZE;
  sh_elem : Forall (fun e => zlen e.(m) = n_epochs /\ zlen e.(next) = n_epochs) st.(arr_);
  sh_heads : zlen st.(heads) = n_epochs;
  sh_cur : 0 <= st.(current_queue_) < n_epochs;
}.

(** [q epoch] is the stack of an epoch. *)
Record ms_inv (st : MetricStore) (q : Z -> list Z) : Prop := {
  ms_shape : shape st;
  ms_chain : forall e, 0 <= e < n_epochs ->
    NoDup (q e) /\ exists h, rd st.(heads) e = Some h /\ chain st e h (q e);
  ms_queued : forall e i nx, 0 <= e < n_epochs -> get_next st i e = Some nx ->
    (nx <> invalid <-> i ∈ q e);
}.

Definition params_ok : Prop := 0 < SIZE < 2 ^ 31 /\ 0 <= log_epochs < 15.

Hypothesis Hp : params_ok.

Lemma n_epochs_range : 1 <= n_epochs <= 2 ^ 14.
Proof.
  destruct Hp as [_ Hl]. unfold n_epochs. pose proof (pow2_pos log_epochs).
  split; [lia|]. apply Z.pow_le_mono_r; lia.
Qed.

Lemma index_bounds : SIZE <= list_end /\ list_end <> invalid.
Proof.
  destruct Hp as [Hs _]. unfold list_end, invalid, index_max.
  destruct (Z.leb_spec (2 ^ 16 - 2) SIZE); lia.
Qed.

Lemma epoch_of_mod (st : MetricStore) (bin : Z) :
  0 <= bin < n_epochs -> shape st -> epoch_of st bin = (bin + st.(current_queue_)) mod n_epochs.
Proof.
  intros Hb Hsh. pose proof n_epochs_range. pose proof (sh_cur _ Hsh). destruct Hp as [_ Hl].
  unfold epoch_of. rewrite u32_small by lia. unfold n_epochs. apply land_mask. lia.
Qed.

Lemma epoch_of_range (st : MetricStore) (bin : Z) :
  0 <= bin < n_epochs -> shape st -> 0 <= epoch_of st bin < n_epochs.
Proof.
  intros Hb Hsh. rewrite epoch_of_mod by done. pose proof n_epochs_range.
  apply Z.mod_pos_bound. lia.
Qed.

Lemma elem_shape (st : MetricStore) (k : Z) (e : element_type) :
  shape st -> rd st.(arr_) k = Some e -> zlen e.(m) = n_epochs /\ zlen e.(next) = n_epochs.
Proof. intros Hsh [_ Hk]%rd_Some. by eapply (Forall_lookup_1 _ _ _ _ (sh_elem _ Hsh)). Qed.

Lemma get_next_is_Some (st : MetricStore) (k e : Z) :
  shape st -> 0 <= k < SIZE -> 0 <= e < n_epochs -> is_Some (get_next st k e).
Proof.
  intros Hsh Hk He. unfold get_next.
  destruct (rd_is_Some st.(arr_) k) as [x Hx]; [by rewrite (sh_len _ Hsh)|].
  rewrite Hx. simpl. apply rd_is_Some. by destruct (elem_shape _ _ _ Hsh Hx) as [_ ->].
Qed.

Lemma metric_is_Some (st : MetricStore) (k e : Z) :
  shape st -> 0 <= k < SIZE -> 0 <= e < n_epochs -> is_Some (metric st k e).
Proof.
  intros Hsh Hk He. unfold metric.
  destruct (rd_is_Some st.(arr_) k) as [x Hx]; [by rewrite (sh_len _ Hsh)|].
  rewrite Hx. simpl. apply rd_is_Some. by destruct (elem_shape _ _ _ Hsh Hx) as [-> _].
Qed.

(** What an update leaves alone. *)
Definition same_frame (st st' : MetricStore) : Prop :=
  st'.(current_timeslot_) = st.(current_timeslot_) /\
  st'.(current_queue_) = st.(current_queue_).

Lemma set_next_spec (st : MetricStore) (k e v : Z) :
  shape st -> 0 <= k < SIZE -> 0 <= e < n_epochs ->
  exists st', set_next st k e v = Some st' /\ shape st' /\ same_frame st st' /\
    st'.(heads) = st.(heads) /\
    (forall j f, get_next st' j f = if decide (k = j /\ e = f) then Some v else get_next st j f) /\
    (forall j f, metric st' j f = metric st j f).
Proof.
  intros Hsh Hk He. unfold set_next.
  destruct (rd_is_Some st.(arr_) k) as [x Hx]; [by rewrite (sh_len _ Hsh)|].
  destruct (elem_shape _ _ _ Hsh Hx) as [Hm Hn]. rewrite Hx. simpl.
  pose proof (wr_in_range x.(next) e v ltac:(lia)) as Hw. rewrite Hw. simpl.
  pose proof (wr_in_range st.(arr_) k {| m := x.(m); next := <[Z.to_nat e := v]> x.(next) |}
    ltac:(by rewrite (sh_len _ Hsh))) as Hw2. rewrite Hw2. simpl.
  eexists. split; [done|]. split; [|split; [done|split; [done|]]].
  { split; simpl; [rewrite zlen_insert; apply (sh_len _ Hsh)| |apply (sh_heads _ Hsh)|apply (sh_cur _ Hsh)].
    apply Forall_insert; [apply (sh_elem _ Hsh)|]. simpl. by rewrite zlen_insert. }
  split; intros j f; unfold get_next, metric; simpl; rewrite (rd_wr _ _ _ j _ Hw2);
    destruct (decide (k = j)) as [<-|Hkj]; simpl.
  - rewrite (rd_wr _ _ _ f _ Hw), Hx. simpl. destruct (decide (e = f)) as [<-|Hef].
    + by rewrite decide_True.
    + rewrite decide_False by tauto. done.
  - rewrite decide_False by tauto. done.
  - by rewrite Hx.
  - done.
Qed.

Lemma set_metric_spec (st : MetricStore) (k e : Z) (x : Metric) :
  shape st -> 0 <= k < SIZE -> 0 <= e < n_epochs ->
  exists st', set_metric st k e x = Some st' /\ shape st' /\ same_frame st st' /\
    st'.(heads) = st.(heads) /\
    (forall j f, metric st' j f = if decide (k = j /\ e = f) then Some x else metric st j f) /\
    (forall j f, get_next st' j f = get_next st j f).
Proof.
  intros Hsh Hk He. unfold set_metric.
  destruct (rd_is_Some st.(arr_) k) as [y Hx]; [by rewrite (sh_len _ Hsh)|].
  destruct (elem_shape _ _ _ Hsh Hx) as [Hm Hn]. rewrite Hx. simpl.
  pose proof (wr_in_range y.(m) e x ltac:(lia)) as Hw. rewrite Hw. simpl.
  pose proof (wr_in_range st.(arr_) k {| m := <[Z.to_nat e := x]> y.(m); next := y.(next) |}
    ltac:(by rewrite (sh_len _ Hsh))) as Hw2. rewrite Hw2. simpl.
  eexists. split; [done|]. split; [|split; [done|split; [done|]]].
  { split; simpl; [rewrite zlen_insert; apply (sh_len _ Hsh)| |apply (sh_heads _ Hsh)|apply (sh_cur _ Hsh)].
    apply Forall_insert; [apply (sh_elem _ Hsh)|]. simpl. by rewrite zlen_insert. }
  split; intros j f; unfold get_next, metric; simpl; rewrite (rd_wr _ _ _ j _ Hw2);
    destruct (decide (k = j)) as [<-|Hkj]; simpl.
  - rewrite (rd_wr _ _ _ f _ Hw), Hx. simpl. destruct (decide (e = f)) as [<-|Hef].
    + by rewrite decide_True.
    + rewrite decide_False by tauto. done.
  - rewrite decide_False by tauto. done.
  - by rewrite Hx.
  - done.
Qed.

Lemma set_head_spec (st : MetricStore) (e v : Z) :
  shape st -> 0 <= e < n_epochs ->
  exists st', set_head st e v = Some st' /\ shape st' /\ same_frame st st' /\
    st'.(arr_) = st.(arr_) /\
    (forall f, rd st'.(heads) f = if decide (e = f) then Some v else rd st.(heads) f).
Proof.
  intros Hsh He. unfold set_head.
  pose proof (wr_in_range st.(heads) e v ltac:(by rewrite (sh_heads _ Hsh))) as Hw.
  rewrite Hw. simpl. eexists. split; [done|]. split; [|split; [done|split; [done|]]].
  - split; simpl; [apply (sh_len _ Hsh)|apply (sh_elem _ Hsh)| |apply (sh_cur _ Hsh)].
    rewrite zlen_insert. apply (sh_heads _ Hsh).
  - intros f. apply (rd_wr _ _ _ _ _ Hw).
Qed.

Lemma ms_chain_frame (st st' : MetricStore) (e h : Z) (q : list Z) :
  (forall x, x ∈ q -> get_next st' x e = get_next st x e) -> chain st e h q -> chain st' e h q.
Proof.
  revert h. induction q as [|x xs IH]; intros h Hf Hc; [done|].
  destruct Hc as (-> & Hx & nx & Hn & Hc). split; [done|]. split; [done|]. exists nx.
  rewrite Hf by left. split; [done|]. apply IH; [|done]. intros y Hy. apply Hf. by right.
Qed.

(** The stacks with one of them replaced. *)
Definition upd (q : Z -> list Z) (e : Z) (l : list Z) (f : Z) : list Z :=
  if decide (e = f) then l else q f.

Lemma push_inv (st st1 st2 : MetricStore) (q : Z -> list Z) (k e h : Z) :
  ms_inv st q -> 0 <= k < SIZE -> 0 <= e < n_epochs -> k ∉ q e -> rd st.(heads) e = Some h ->
  set_next st k e h = Some st1 -> set_head st1 e k = Some st2 ->
  ms_inv st2 (upd q e (k :: q e)) /\ same_frame st st2 /\
  (forall j f, metric st2 j f = metric st j f).
Proof.
  intros Hinv Hk He Hnq Hh H1 H2. pose proof (ms_shape _ _ Hinv) as Hsh.
  destruct (set_next_spec st k e h Hsh Hk He) as (s1 & E1 & Hsh1 & Hf1 & Hh1 & Hn1 & Hm1).
  rewrite H1 in E1. injection E1 as <-.
  destruct (set_head_spec st1 e k Hsh1 He) as (s2 & E2 & Hsh2 & Hf2 & Ha2 & Hd2).
  rewrite H2 in E2. injection E2 as <-.
  assert (Hgn : forall j f, get_next st2 j f = get_next st1 j f) by (intros; unfold get_next; by rewrite Ha2).
  split; [|split].
  - split; [done| |].
    + intros f Hf. destruct (ms_chain _ _ Hinv f Hf) as (Hnd & h0 & Hh0 & Hc).
      rewrite Hd2, Hh1. unfold upd. case_decide as Hef.
      * subst f. rewrite Hh in Hh0. injection Hh0 as <-. split; [by constructor|].
        eexists. split; [done|]. split; [done|]. split; [done|]. exists h.
        rewrite Hgn, Hn1, decide_True by done. split; [done|].
        eapply ms_chain_frame; [|done]. intros x Hx. rewrite Hgn, Hn1, decide_False; [done|].
        intros [-> _]. done.
      * split; [done|]. exists h0. split; [done|].
        eapply ms_chain_frame; [|done]. intros x Hx. rewrite Hgn, Hn1, decide_False by tauto. done.
    + intros f j nx Hf. rewrite Hgn, Hn1. unfold upd.
      destruct (decide (e = f)) as [<-|Hef].
      * destruct (decide (k = j)) as [<-|Hkj].
        -- rewrite decide_True by done. intros [= <-]. split; [left|intros _].
           destruct (ms_chain _ _ Hinv e He) as (_ & h0 & Hh0 & Hc). rewrite Hh in Hh0.
           injection Hh0 as <-. pose proof index_bounds as [Hb Hli].
           revert Hc. destruct (q e) as [|x xs]; [by intros ->|]. intros (-> & Hx & _).
           unfold list_end in *. fold invalid in *. lia.
        -- rewrite decide_False by tauto. intros Hnx. rewrite elem_of_cons.
           rewrite (ms_queued _ _ Hinv e j nx He Hnx). naive_solver.
      * rewrite decide_False by tauto. intros Hnx. by apply (ms_queued _ _ Hinv).
  - destruct Hf1, Hf2. split; congruence.
  - intros j f. rewrite <- Hm1. unfold metric. by rewrite Ha2.
Qed.

Lemma lookup_relative_spec (st : MetricStore) (q : Z -> list Z) (k bin : Z) (enqueue : bool) :
  ms_inv st q -> 0 <= k < SIZE -> 0 <= bin < n_epochs ->
  let e := epoch_of st bin in
  exists st', lookup_relative st k bin enqueue = Some (st', bool_decide (k ∈ q e), e) /\
    ms_inv st' (if enqueue && negb (bool_decide (k ∈ q e)) then upd q e (k :: q e) else q) /\
    same_frame st st' /\ (forall j f, metric st' j f = metric st j f).
Proof.
  intros Hinv Hk Hb e. pose proof (ms_shape _ _ Hinv) as Hsh.
  pose proof (epoch_of_range st bin Hb Hsh : 0 <= e < n_epochs) as He.
  unfold lookup_relative. destruct (Z.ltb_spec k SIZE); [|lia].
  destruct (Z.ltb_spec bin n_epochs); [|lia]. simpl. fold e.
  destruct (get_next_is_Some st k e Hsh Hk He) as [nx Hnx]. rewrite Hnx. simpl.
  pose proof (ms_queued _ _ Hinv e k nx He Hnx) as Hq.
  destruct (Z.eqb_spec nx invalid) as [Hi|Hi]; simpl.
  - rewrite (bool_decide_false (k ∈ q e)) by naive_solver.
    destruct enqueue; simpl; [|by exists st].
    destruct (ms_chain _ _ Hinv e He) as (_ & h & Hh & _). rewrite Hh. simpl.
    destruct (set_next_spec st k e h Hsh Hk He) as (s1 & E1 & Hsh1 & _). rewrite E1. simpl.
    destruct (set_head_spec s1 e k Hsh1 He) as (s2 & E2 & _). rewrite E2. simpl.
    exists s2. split; [done|]. eapply push_inv; eauto. naive_solver.
  - rewrite (bool_decide_true (k ∈ q e)) by naive_solver. simpl. rewrite andb_false_r.
    by exists st.
Qed.

(** Only the epoch's own stack is touched by [pop]. *)
Lemma queue_pop_spec (st : MetricStore) (q : Z -> list Z) (x : Z) (xs : list Z) :
  ms_inv st q -> q st.(current_queue_) = x :: xs ->
  queue_empty st = Some false /\ queue_peek st = Some x /\ 0 <= x < SIZE /\
  exists st', queue_pop st = Some st' /\ ms_inv st' (upd q st.(current_queue_) xs) /\
    same_frame st st' /\ (forall j f, metric st' j f = metric st j f).
Proof.
  intros Hinv Hq. pose proof (ms_shape _ _ Hinv) as Hsh. pose proof (sh_cur _ Hsh) as He.
  set (e := st.(current_queue_)) in *.
  destruct (ms_chain _ _ Hinv e He) as (Hnd & h & Hh & Hc). rewrite Hq in Hnd, Hc.
  destruct Hc as (-> & Hx & nx & Hnx & Hc). pose proof index_bounds as [Hb Hli].
  apply NoDup_cons in Hnd as [Hnin Hnd].
  unfold queue_pop, queue_empty, queue_peek. fold e. rewrite Hh. simpl.
  destruct (Z.eqb_spec x list_end); [lia|]. split; [done|]. split; [done|]. split; [done|].
  simpl. rewrite Hnx. simpl.
  destruct (set_next_spec st x e invalid Hsh Hx He) as (s1 & -> & Hsh1 & [Ht1 Hc1] & Hh1 & Hn1 & Hm1).
  simpl. rewrite Hc1. fold e.
  destruct (set_head_spec s1 e nx Hsh1 He) as (s2 & -> & Hsh2 & [Ht2 Hc2] & Ha2 & Hd2).
  exists s2. split; [done|].
  assert (Hgn : forall j f, get_next s2 j f = get_next s1 j f) by (intros; unfold get_next; by rewrite Ha2).
  split; [|split].
  - split; [done| |].
    + intros f Hf. destruct (ms_chain _ _ Hinv f Hf) as (Hnd0 & h0 & Hh0 & Hc0).
      rewrite Hd2, Hh1. unfold upd. case_decide as Hef.
      * split; [done|]. eexists. split; [done|]. subst f. eapply ms_chain_frame; [|done].
        intros y Hy. rewrite Hgn, Hn1, decide_False; [done|]. intros [-> _]. done.
      * split; [done|]. exists h0. split; [done|].
        eapply ms_chain_frame; [|done]. intros y Hy. rewrite Hgn, Hn1, decide_False by tauto. done.
    + intros f j ny Hf. rewrite Hgn, Hn1. unfold upd.
      destruct (decide (e = f)) as [<-|Hef].
      * destruct (decide (x = j)) as [<-|Hxj].
        -- rewrite decide_True by done. intros [= <-]. split; [done|]. intros Hin. done.
        -- rewrite decide_False by tauto. intros Hny.
           rewrite (ms_queued _ _ Hinv e j ny He Hny), Hq, elem_of_cons. naive_solver.
      * rewrite decide_False by tauto. intros Hny. by apply (ms_queued _ _ Hinv).
  - split; congruence.
  - intros j f. rewrite <- Hm1. unfold metric. by rewrite Ha2.
Qed.

Lemma queue_empty_spec (st : MetricStore) (q : Z -> list Z) :
  ms_inv st q -> q st.(current_queue_) = [] -> queue_empty st = Some true.
Proof.
  intros Hinv Hq. pose proof (sh_cur _ (ms_shape _ _ Hinv)) as He.
  destruct (ms_chain _ _ Hinv _ He) as (_ & h & Hh & Hc). rewrite Hq in Hc. simpl in Hc. subst h.
  unfold queue_empty. rewrite Hh. simpl. by rewrite Z.eqb_refl.
Qed.

(** Writing a metric does not touch the queues. *)
Lemma set_metric_inv (st st' : MetricStore) (q : Z -> list Z) (k e : Z) (x : Metric) :
  ms_inv st q -> 0 <= k < SIZE -> 0 <= e < n_epochs -> set_metric st k e x = Some st' ->
  ms_inv st' q.
Proof.
  intros Hinv Hk He Hs. pose proof (ms_shape _ _ Hinv) as Hsh.
  destruct (set_metric_spec st k e x Hsh Hk He) as (s1 & E1 & Hsh1 & _ & Hh1 & _ & Hn1).
  rewrite Hs in E1. injection E1 as <-. split; [done| |].
  - intros f Hf. rewrite Hh1. destruct (ms_chain _ _ Hinv f Hf) as (Hnd & h & Hh & Hc).
    split; [done|]. exists h. split; [done|]. eapply ms_chain_frame; [|done]. intros. apply Hn1.
  - intros f j nx Hf. rewrite Hn1. by apply (ms_queued _ _ Hinv).
Qed.

(** The time slot and the position of the current queue can be set freely. *)
Lemma ms_inv_clock (st st' : MetricStore) (q : Z -> list Z) :
  ms_inv st q -> st'.(arr_) = st.(arr_) -> st'.(heads) = st.(heads) ->
  0 <= st'.(current_queue_) < n_epochs -> ms_inv st' q.
Proof.
  intros Hinv Ha Hh Hc. pose proof (ms_shape _ _ Hinv) as Hsh.
  assert (Hg : forall j f, get_next st' j f = get_next st j f) by (intros; unfold get_next; by rewrite Ha).
  split.
  - split; rewrite ?Ha, ?Hh; [apply (sh_len _ Hsh)|apply (sh_elem _ Hsh)|apply (sh_heads _ Hsh)|done].
  - intros e He. rewrite Hh. destruct (ms_chain _ _ Hinv e He) as (Hnd & h & Hh0 & Hch).
    split; [done|]. exists h. split; [done|]. eapply ms_chain_frame; [|done]. intros. apply Hg.
  - intros e j nx He. rewrite Hg. by apply (ms_queued _ _ Hinv).
Qed.

Lemma advance_inv (st : MetricStore) (q : Z -> list Z) : ms_inv st q -> ms_inv (advance st) q.
Proof.
  intros Hinv. pose proof n_epochs_range. destruct Hp as [_ Hl].
  eapply ms_inv_clock; [done|done|done|]. simpl.
  unfold n_epochs. rewrite land_mask by lia. apply Z.mod_pos_bound. fold n_epochs. lia.
Qed.

Lemma relative_timeslot_inv (st : MetricStore) (q : Z -> list Z) (t : Z) :
  ms_inv st q -> ms_inv (relative_timeslot st t).1 q.
Proof.
  intros Hinv. eapply ms_inv_clock; [done|done|done|]. apply (sh_cur _ (ms_shape _ _ Hinv)).
Qed.

Lemma ms_new_inv : ms_inv MetricStore_new (fun _ => []).
Proof.
  pose proof n_epochs_range. destruct Hp as [Hs Hl].
  assert (Hlen : forall A (x : A), zlen (replicate (Z.to_nat n_epochs) x) = n_epochs).
  { intros. unfold zlen. rewrite length_replicate. lia. }
  split.
  - split; simpl; [| |apply Hlen|lia].
    + unfold zlen. rewrite length_replicate. lia.
    + apply Forall_replicate. split; apply Hlen.
  - intros e He. split; [constructor|]. exists list_end. split; [|done]. simpl.
    apply rd_Some. split; [lia|]. apply lookup_replicate. split; [done|]. lia.
  - intros e k nx He. unfold get_next. simpl.
    destruct (rd _ k) as [x|] eqn:E; [|done]. simpl.
    apply rd_Some in E as [_ E]. apply lookup_replicate in E as [-> _].
    intros [_ Hn]%rd_Some. simpl in Hn. apply lookup_replicate in Hn as [-> _].
    split; [done|]. intros Hin. by apply elem_of_nil in Hin.
Qed.

(** * Rotation of the epochs *)

Lemma queue_length (st : MetricStore) (q : Z -> list Z) (e : Z) :
  ms_inv st q -> 0 <= e < n_epochs ->
  Forall (fun x => 0 <= x < SIZE) (q e) /\ (length (q e) <= Z.to_nat SIZE)%nat.
Proof.
  intros Hinv He. destruct (ms_chain _ _ Hinv e He) as (Hnd & h & _ & Hc).
  assert (Hr : Forall (fun x => 0 <= x < SIZE) (q e)).
  { revert h Hc. induction (q e) as [|x xs IH]; intros h Hc; [constructor|].
    destruct Hc as (_ & Hx & nx & _ & Hc). constructor; [done|]. apply NoDup_cons in Hnd as [_ Hnd].
    by apply (IH Hnd nx). }
  split; [done|]. rewrite <- (length_seqZ 0 SIZE). apply submseteq_length, NoDup_submseteq; [done|].
  intros x Hx. eapply Forall_forall in Hr; [|done]. apply elem_of_seqZ. lia.
Qed.

(** The abstract store: a time slot and, from the current one on, the [n_epochs]
    epochs, each with the indices that are queued, the last one first, and its metrics. *)
Record epoch := { queued : list Z; metrics : Z -> Metric }.
Record window := { slot : option Z; epochs : list epoch }.

Definition window_new : window :=
  {| slot := None;
     epochs := replicate (Z.to_nat n_epochs) {| queued := []; metrics := fun _ => default_metric |} |}.

(** Where a timestamp falls in the window, and that clamped to its ends. *)
Definition rel_of (w : window) (t : Z) : Z :=
  let timeslot := u16 (FastDiv.div t t_to_timeslot_) in s16 (s16 timeslot - default timeslot w.(slot)).
Definition bin_of (w : window) (t : Z) : Z := Z.max 0 (Z.min (rel_of w t) (n_epochs - 1)).

(** The calls of the interface; [f] is what the client does to the metric through the
    reference a lookup returns.  [queue_empty] and so on are of the current queue. *)
Inductive op :=
  | Lookup (index t : Z) (enqueue : bool) (f : Metric -> Metric)
  | LookupRelative (index bin : Z) (enqueue : bool) (f : Metric -> Metric)
  | RelativeTimeslot (t : Z)
  | Empty
  | Peek
  | Pop
  | Advance.

Inductive answer :=
  | Found (was_queued : bool) (x : Metric)
  | Timeslot (rel : Z)
  | IsEmpty (b : bool)
  | Index (k : Z)
  | Nothing.

Definition through (f : Metric -> Metric) (k : Z) (r : option (MetricStore * bool * Z)) : option (MetricStore * answer) :=
  '(st, was_queued, e) ← r; x ← metric st k e; st ← set_metric st k e (f x); Some (st, Found was_queued x).

Definition step (st : MetricStore) (o : op) : option (MetricStore * answer) :=
  match o with
  | Lookup k t enqueue f => through f k (lookup st k t enqueue)
  | LookupRelative k bin enqueue f => through f k (lookup_relative st k bin enqueue)
  | RelativeTimeslot t => let '(st, rel) := relative_timeslot st t in Some (st, Timeslot rel)
  | Empty => b ← queue_empty st; Some (st, IsEmpty b)
  | Peek => k ← queue_peek st; Some (st, Index k)
  | Pop => st ← queue_pop st; Some (st, Nothing)
  | Advance => Some (advance st, Nothing)
  end.

Fixpoint run (st : MetricStore) (ops : list op) : option (list answer) :=
  match ops with
  | [] => Some []
  | o :: ops => '(st, a) ← step st o; l ← run st ops; Some (a :: l)
  end.

(** The same calls on the window. *)
Definition window_at (w : window) (t : Z) : window :=
  {| slot := Some (default (u16 (FastDiv.div t t_to_timeslot_)) w.(slot)); epochs := w.(epochs) |}.

Definition visit (k : Z) (enqueue : bool) (f : Metric -> Metric) (e : epoch) : epoch :=
  {| queued := if enqueue && negb (bool_decide (k ∈ queued e)) then k :: queued e else queued e;
     metrics := fun j => if decide (k = j) then f (metrics e j) else metrics e j |}.

Definition window_lookup (w : window) (k bin : Z) (enqueue : bool) (f : Metric -> Metric) : option (window * answer) :=
  if (k <? SIZE) && (bin <? n_epochs) then
    e ← rd w.(epochs) bin;
    Some ({| slot := w.(slot); epochs := alter (visit k enqueue f) (Z.to_nat bin) w.(epochs) |},
          Found (bool_decide (k ∈ queued e)) (metrics e k))
  else None.

Definition window_step (w : window) (o : op) : option (window * answer) :=
  match o with
  | Lookup k t enqueue f => window_lookup (window_at w t) k (bin_of w t) enqueue f
  | LookupRelative k bin enqueue f => window_lookup w k bin enqueue f
  | RelativeTimeslot t => Some (window_at w t, Timeslot (rel_of w t))
  | Empty => e ← head w.(epochs); Some (w, IsEmpty (bool_decide (queued e = [])))
  | Peek => e ← head w.(epochs); k ← head (queued e); Some (w, Index k)
  | Pop =>
      e ← head w.(epochs); _ ← head (queued e);
      Some ({| slot := w.(slot); epochs := {| queued := tail (queued e); metrics := metrics e |} :: tail w.(epochs) |}, Nothing)
  | Advance =>
      e ← head w.(epochs);
      Some ({| slot := (fun s => u16 (s + 1)) <$> w.(slot); epochs := tail w.(epochs) ++ [e] |}, Nothing)
  end.

Fixpoint window_run (w : window) (ops : list op) : option (list answer) :=
  match ops with
  | [] => Some []
  | o :: ops => '(w, a) ← window_step w o; l ← window_run w ops; Some (a :: l)
  end.

(** Indices and bins are unsigned. *)
Definition op_ok (o : op) : Prop :=
  match o with Lookup k _ _ _ => 0 <= k | LookupRelative k bin _ _ => 0 <= k /\ 0 <= bin | _ => True end.

Definition window_rep (st : MetricStore) (q : Z -> list Z) (w : window) : Prop :=
  ms_inv st q /\ st.(current_timeslot_) = w.(slot) /\ zlen w.(epochs) = n_epochs /\
  forall bin e, rd w.(epochs) bin = Some e ->
    q (epoch_of st bin) = queued e /\ forall k, 0 <= k < SIZE -> metric st k (epoch_of st bin) = Some (metrics e k).

Lemma s16_range (x : Z) : - 2 ^ 15 <= s16 x < 2 ^ 15.
Proof. unfold s16. pose proof (Z.mod_pos_bound (x + 2 ^ 15) (2 ^ 16)). lia. Qed.

Lemma bin_of_range (w : window) (t : Z) : 0 <= bin_of w t < n_epochs.
Proof. pose proof n_epochs_range. unfold bin_of. lia. Qed.

Lemma epoch_of_inj (st : MetricStore) (b b' : Z) :
  shape st -> 0 <= b < n_epochs -> 0 <= b' < n_epochs -> epoch_of st b = epoch_of st b' -> b = b'.
Proof.
  intros Hsh Hb Hb'. rewrite !epoch_of_mod by done. intros He.
  destruct (decide (b = b')) as [|Hne]; [done|exfalso].
  destruct (decide (b < b')); [apply (mod_neq (b + current_queue_ st) (b' + current_queue_ st) n_epochs)
    |apply (mod_neq (b' + current_queue_ st) (b + current_queue_ st) n_epochs)]; lia || done.
Qed.

Lemma rd_alter {A} (f : A -> A) (l : list A) (k j : Z) :
  0 <= k -> rd (alter f (Z.to_nat k) l) j = if decide (k = j) then f <$> rd l j else rd l j.
Proof.
  intros Hk. unfold rd. destruct (Z.leb_spec 0 j); [|by case_decide; [lia|]].
  rewrite list_lookup_alter. destruct (decide (k = j)) as [->|Hne].
  - by rewrite decide_True.
  - rewrite decide_False by lia. done.
Qed.

Lemma rd_range {A} (l : list A) (k : Z) (x : A) : rd l k = Some x -> 0 <= k < zlen l.
Proof. intros [H0 Hk]%rd_Some. apply lookup_lt_Some in Hk. unfold zlen. lia. Qed.

Lemma epoch_of_frame (st st' : MetricStore) (b : Z) : same_frame st st' -> epoch_of st' b = epoch_of st b.
Proof. intros [_ Hc]. unfold epoch_of. by rewrite Hc. Qed.

(** The epoch that is current comes first in the window. *)
Lemma window_head (st : MetricStore) (q : Z -> list Z) (w : window) :
  window_rep st q w -> exists e es, w.(epochs) = e :: es /\ q st.(current_queue_) = queued e /\ epoch_of st 0 = st.(current_queue_).
Proof.
  intros (Hinv & _ & Hl & Hrep). pose proof n_epochs_range. pose proof (ms_shape _ _ Hinv) as Hsh. pose proof (sh_cur _ Hsh).
  destruct w.(epochs) as [|e es] eqn:He; [unfold zlen in Hl; cbn in Hl; lia|].
  assert (Hcur : epoch_of st 0 = current_queue_ st).
  { rewrite epoch_of_mod by (done || lia). rewrite Z.add_0_l, Z.mod_small by lia. done. }
  exists e, es. split; [done|]. split; [|done]. rewrite <- Hcur. by apply (Hrep 0 e).
Qed.

Lemma window_at_rep (st : MetricStore) (q : Z -> list Z) (w : window) (t : Z) :
  window_rep st q w ->
  window_rep (relative_timeslot st t).1 q (window_at w t) /\ (relative_timeslot st t).2 = rel_of w t.
Proof.
  intros (Hinv & Hs & Hl & Hrep). split; [|unfold rel_of; cbn; by rewrite Hs].
  split; [by apply relative_timeslot_inv|]. split; [cbn; by rewrite Hs|]. done.
Qed.

Lemma window_lookup_refines (st : MetricStore) (q : Z -> list Z) (w : window) (k bin : Z) (enqueue : bool) (f : Metric -> Metric) :
  window_rep st q w -> 0 <= k -> 0 <= bin ->
  match through f k (lookup_relative st k bin enqueue), window_lookup w k bin enqueue f with
  | Some (st', a), Some (w', b) => a = b /\ exists q', window_rep st' q' w'
  | None, None => True
  | _, _ => False
  end.
Proof.
  intros (Hinv & Hs & Hl & Hrep) Hk Hb. unfold window_lookup.
  destruct ((k <? SIZE) && (bin <? n_epochs)) eqn:Hr; [|unfold lookup_relative; by rewrite Hr].
  apply andb_true_iff in Hr as [Hk2 Hb2]. apply Z.ltb_lt in Hk2, Hb2. pose proof (ms_shape _ _ Hinv) as Hsh.
  destruct (rd_is_Some w.(epochs) bin) as [e He]; [lia|]. destruct (Hrep bin e He) as [Hq Hm]. rewrite He. cbn [mbind option_bind].
  destruct (lookup_relative_spec st q k bin enqueue Hinv) as (st1 & -> & Hinv1 & Hf1 & Hm1); [done|done|].
  pose proof (epoch_of_range st bin ltac:(done) Hsh) as Her. cbn [through mbind option_bind]. rewrite Hm1, Hm by done. cbn [mbind option_bind].
  destruct (set_metric_spec st1 k (epoch_of st bin) (f (metrics e k)) (ms_shape _ _ Hinv1)) as (st2 & E2 & _ & Hf2 & _ & Hm2 & _); [done|done|].
  rewrite E2. cbn [mbind option_bind]. split; [by rewrite Hq|].
  pose proof (set_metric_inv _ _ _ _ _ _ Hinv1 (conj Hk Hk2) Her E2) as Hinv2. eexists. split; [exact Hinv2|]. cbn [slot epochs].
  split; [destruct Hf1, Hf2; congruence|]. split; [unfold zlen; by rewrite length_alter|].
  intros b' e'. rewrite rd_alter, (epoch_of_frame _ _ _ Hf2), (epoch_of_frame _ _ _ Hf1) by done.
  destruct (decide (bin = b')) as [<-|Hne].
  - rewrite He. intros [= <-]. cbn [visit queued metrics]. split.
    + rewrite Hq. destruct (enqueue && negb (bool_decide (k ∈ queued e))); [|done]. unfold upd. by rewrite decide_True.
    + intros j Hj. rewrite Hm2, Hm1, Hm by done. destruct (decide (k = j)) as [<-|]; [by rewrite decide_True|].
      by rewrite decide_False by tauto.
  - intros He'. destruct (Hrep b' e' He') as [Hq' Hm']. apply rd_range in He' as Hb'. rewrite Hl in Hb'.
    assert (Hep : epoch_of st bin <> epoch_of st b') by (intros E; by apply (epoch_of_inj st) in E). split.
    + rewrite <- Hq', Hq. destruct (enqueue && negb (bool_decide (k ∈ queued e))); [|done]. unfold upd. by rewrite decide_False.
    + intros j Hj. rewrite Hm2, Hm1, Hm', decide_False by (done || tauto). done.
Qed.

Lemma advance_rep (st : MetricStore) (q : Z -> list Z) (w : window) (e : epoch) (es : list epoch) :
  window_rep st q w -> w.(epochs) = e :: es ->
  window_rep (advance st) q {| slot := (fun s => u16 (s + 1)) <$> w.(slot); epochs := es ++ [e] |}.
Proof.
  intros (Hinv & Hs & Hl & Hrep) He. pose proof (ms_shape _ _ Hinv) as Hsh. pose proof n_epochs_range. pose proof (sh_cur _ Hsh).
  rewrite He in Hl. unfold zlen in Hl. cbn in Hl.
  split; [by apply advance_inv|]. cbn [slot epochs current_timeslot_ advance]. split; [by rewrite Hs|].
  split; [unfold zlen; rewrite length_app; cbn; lia|]. intros b x Hx. apply rd_range in Hx as Hb. unfold zlen in Hb.
  rewrite length_app in Hb. cbn in Hb. apply rd_Some in Hx as [_ Hx].
  assert (Hep : epoch_of (advance st) b = if decide (b + 1 = n_epochs) then epoch_of st 0 else epoch_of st (b + 1)).
  { assert (Hadv : current_queue_ (advance st) = (current_queue_ st + 1) mod n_epochs).
    { cbn. unfold n_epochs. apply land_mask. destruct Hp. lia. }
    rewrite (epoch_of_mod (advance st)), Hadv, Zplus_mod_idemp_r by (lia || apply (ms_shape _ _ (advance_inv _ _ Hinv))).
    case_decide; rewrite epoch_of_mod by (lia || done).
    - replace (b + (current_queue_ st + 1)) with (0 + current_queue_ st + 1 * n_epochs) by lia. by rewrite Z.mod_add by lia.
    - f_equal. lia. }
  rewrite Hep. case_decide as Hbe.
  - rewrite lookup_app_r in Hx by lia. replace (Z.to_nat b - length es)%nat with 0%nat in Hx by lia. injection Hx as <-.
    apply (Hrep 0 e). by rewrite He.
  - rewrite lookup_app_l in Hx by lia. apply (Hrep (b + 1) x). rewrite He. apply rd_Some. split; [lia|].
    by replace (Z.to_nat (b + 1)) with (S (Z.to_nat b)) by lia.
Qed.

Lemma pop_shrinks (st : MetricStore) (q : Z -> list Z) (w : window) (e : epoch) (es : list epoch) (k : Z) (ks : list Z) :
  window_rep st q w -> w.(epochs) = e :: es -> queued e = k :: ks -> q st.(current_queue_) = queued e ->
  epoch_of st 0 = st.(current_queue_) ->
  exists st' q', queue_pop st = Some st' /\
    window_rep st' q' {| slot := w.(slot); epochs := {| queued := ks; metrics := metrics e |} :: es |}.
Proof.
  intros (Hinv & Hs & Hl & Hrep) He Hk Hq Hcur. rewrite Hk in Hq. pose proof (ms_shape _ _ Hinv) as Hsh. pose proof n_epochs_range.
  destruct (queue_pop_spec st q k ks Hinv Hq) as (_ & _ & _ & st1 & E & Hinv1 & Hf1 & Hm1).
  exists st1. eexists. split; [done|]. split; [exact Hinv1|]. rewrite He in Hl. cbn [slot epochs].
  split; [destruct Hf1; congruence|]. split; [exact Hl|]. intros b x Hx. apply rd_range in Hx as Hb.
  rewrite (epoch_of_frame _ _ _ Hf1). unfold upd. change (zlen (_ :: es)) with (zlen (e :: es)) in Hb. rewrite Hl in Hb.
  assert (Hx' : exists y, rd w.(epochs) b = Some y /\ metrics y = metrics x /\ (b <> 0 -> y = x)).
  { rewrite He. apply rd_Some in Hx as [_ Hx]. destruct (decide (b = 0)) as [->|Hne].
    - exists e. injection Hx as <-. done.
    - exists x. split; [|done]. apply rd_Some. split; [lia|]. destruct (Z.to_nat b) eqn:Eb; [lia|]. done. }
  destruct Hx' as (y & Hy & Hym & Hyx). destruct (Hrep b y Hy) as [Hqy Hmy]. split.
  - destruct (decide (b = 0)) as [->|Hne].
    + rewrite Hcur, decide_True by done. by injection Hx as <-.
    + rewrite decide_False, Hqy, Hyx; [done|done|]. rewrite <- Hcur. intros E0. apply (epoch_of_inj st) in E0; lia || done.
  - intros j Hj. rewrite Hm1, <- Hym. by apply Hmy.
Qed.

(** One call on the store and on the window: both fail, or both give the same answer. *)
Lemma ms_step_refines (st : MetricStore) (q : Z -> list Z) (w : window) (o : op) :
  window_rep st q w -> op_ok o ->
  match step st o, window_step w o with
  | Some (st', a), Some (w', b) => a = b /\ exists q', window_rep st' q' w'
  | None, None => True
  | _, _ => False
  end.
Proof.
  intros Hr Ho. destruct (window_head st q w Hr) as (e & es & He & Hq & Hcur). pose proof Hr as (Hinv & _).
  assert (Hem : queued e = [] -> queue_empty st = Some true) by (rewrite <- Hq; by apply queue_empty_spec).
  destruct o as [k t enqueue f|k bin enqueue f|t| | | |]; cbn [step window_step].
  - destruct (window_at_rep st q w t Hr) as [Hr1 Hrel]. unfold lookup. destruct (relative_timeslot st t) as [st1 rel]. cbn in Hr1, Hrel.
    assert (Hbin : Histogram.histogram_bin n_epochs rel = bin_of w t).
    { unfold n_epochs. rewrite Histogram.histogram_bin_clamps; [by rewrite Hrel|by destruct Hp; lia|].
      rewrite Hrel. unfold rel_of. pose proof (s16_range (s16 (u16 (FastDiv.div t t_to_timeslot_)) - default (u16 (FastDiv.div t t_to_timeslot_)) (slot w))). lia. }
    rewrite Hbin. apply (window_lookup_refines st1 q); [done|done|]. apply bin_of_range.
  - by apply (window_lookup_refines st q); [|apply Ho..].
  - destruct (window_at_rep st q w t Hr) as [Hr1 Hrel]. destruct (relative_timeslot st t) as [st1 rel]. cbn in *. subst rel. eauto.
  - rewrite He. cbn [head mbind option_bind]. destruct (queued e) as [|k ks] eqn:Hk; [rewrite Hem by done; cbn; eauto|].
    destruct (queue_pop_spec st q k ks Hinv Hq) as (-> & _). cbn. eauto.
  - rewrite He. cbn [head mbind option_bind]. destruct (queued e) as [|k ks] eqn:Hk.
    + specialize (Hem eq_refl). unfold queue_empty, queue_peek in *. destruct (rd _ _) as [h|]; [|done]. cbn in *. by injection Hem as ->.
    + destruct (queue_pop_spec st q k ks Hinv Hq) as (_ & -> & _). cbn. eauto.
  - rewrite He. cbn [head mbind option_bind]. destruct (queued e) as [|k ks] eqn:Hk.
    + specialize (Hem eq_refl). unfold queue_empty, queue_pop, queue_peek in *. destruct (rd _ _) as [h|]; [|done]. cbn in *. by injection Hem as ->.
    + rewrite <- Hk in Hq. destruct (pop_shrinks st q w e es k ks Hr He Hk Hq Hcur) as (st' & q' & -> & Hr'). cbn. eauto.
  - rewrite He. cbn [head mbind option_bind]. split; [done|]. exists q. by apply advance_rep.
Qed.

Lemma ms_new_rep : window_rep MetricStore_new (fun _ => []) window_new.
Proof.
  pose proof n_epochs_range. split; [apply ms_new_inv|]. split; [done|]. cbn. split.
  - unfold zlen. rewrite length_replicate. lia.
  - intros b x Hx. apply rd_range in Hx as Hb. unfold zlen in Hb. rewrite length_replicate in Hb.
    apply rd_Some in Hx as [_ Hx]. apply lookup_replicate in Hx as [-> _]. split; [done|]. intros k Hk. cbn [metrics].
    pose proof (epoch_of_range MetricStore_new b ltac:(lia) (ms_shape _ _ ms_new_inv)) as He. unfold metric. cbn.
    assert (rd (replicate (Z.to_nat SIZE) element_new) k = Some element_new) as ->.
    { apply rd_Some. split; [lia|]. apply lookup_replicate. split; [done|lia]. }
    cbn. apply rd_Some. split; [lia|]. apply lookup_replicate. split; [done|lia].
Qed.

Lemma ms_run_refines (ops : list op) (st : MetricStore) (q : Z -> list Z) (w : window) :
  window_rep st q w -> Forall op_ok ops -> run st ops = window_run w ops.
Proof.
  intros Hr Hops. revert st q w Hr. induction Hops as [|o ops Ho _ IH]; intros st q w Hr; [done|].
  pose proof (ms_step_refines st q w o Hr Ho) as Hstep. cbn [run window_run].
  destruct (step st o) as [[st1 a]|], (window_step w o) as [[w1 b]|]; try done.
  destruct Hstep as [-> [q1 Hr1]]. cbn [mbind option_bind]. by rewrite (IH st1 q1 w1 Hr1).
Qed.
End metric_store.
Arguments MetricStore : clear implicits.

(** C28: a store of up to 2^31 slots and 2^14 epochs is a sliding window of epochs, each
    with its own metric for every slot and its own stack of queued slots.  Every history of
    calls of its interface gives the same answers as the window: a lookup says whether the
    slot was queued in the epoch its time falls into, clamped to the window, gives that
    epoch's metric of the slot, which the client may change, and queues the slot if it is
    asked to and the slot is not queued; the current queue is taken from in the reverse
    order; advancing makes the next epoch current and puts the old one at the end, with
    its metrics and what is still queued.  A call is out of the contract of the store,
    and an assertion of it, exactly when a slot or bin is out of range or an empty queue
    is taken from. *)
Theorem metric_store_refines {Metric : Type} (default_metric : Metric)
    (SIZE log_epochs : Z) (t_to_timeslot : FastDiv.fast_div) (ops : list (op (Metric := Metric))) :
  params_ok SIZE log_epochs -> Forall op_ok ops ->
  run SIZE log_epochs t_to_timeslot (MetricStore_new default_metric SIZE log_epochs) ops
  = window_run SIZE log_epochs t_to_timeslot (window_new default_metric log_epochs) ops.
Proof. intros Hp Hops. eapply (ms_run_refines SIZE log_epochs t_to_timeslot Hp); [|done]. by apply ms_new_rep. Qed.

(** Four slots and two epochs: a metric that is ahead of its time is found again when its
    epoch is current. *)
Definition demo_ops : list (op (Metric := Z)) :=
  [Lookup 2 5 true (fun x => x + 7); Lookup 1 1030 true (fun x => x + 40); Lookup 2 7 true (fun x => x + 1);
   Lookup 3 900 true id; Peek; Pop; Peek; Pop; Empty; Advance; LookupRelative 1 0 false id; RelativeTimeslot 1030; Peek].

Lemma metric_store_refines_witness :
  run 4 1 {| FastDiv.mul := 1; FastDiv.shift := 10 |} (MetricStore_new 0 4 1) demo_ops
  = window_run 4 1 {| FastDiv.mul := 1; FastDiv.shift := 10 |} (window_new 0 1) demo_ops /\
  window_run 4 1 {| FastDiv.mul := 1; FastDiv.shift := 10 |} (window_new 0 1) demo_ops
  = Some [Found false 0; Found false 0; Found true 7; Found false 0; Index 3; Nothing; Index 2; Nothing; IsEmpty true;
          Nothing; Found true 40; Timeslot 0; Index 1].
Proof.
  split; [|by vm_compute]. apply (metric_store_refines 0 4 1 {| FastDiv.mul := 1; FastDiv.shift := 10 |} demo_ops).
  - unfold params_ok. lia.
  - unfold demo_ops. repeat constructor; cbn; lia.
Defined.
End MetricStore.
