(* ===== verification/DnsRequests.v ===== *)
(** The table of outstanding DNS requests: collector/kernel/dns_requests.{h,cc}.

    A request is a node of a list in arrival order; two multimaps index the
    nodes by key and by socket, and hold iterators to them.  An iterator is the
    identity of a node, and following one to a node that is no longer in the
    list is undefined behaviour ([None]).  Where [std::unordered_multimap] puts
    an element is left to the implementation: the class [MultimapOrder] stands
    for that choice.

    Theorems: the three structures always describe the same requests, so no
    iterator of a lookup dangles; lookups by key and by socket return exactly the
    matching requests, in an order the multimap chooses, and removal takes out
    exactly what it names; with requests arriving in time order,
    [lookup_older_than] returns exactly the older ones, in arrival order. *)
From stdpp Require Import sorting.
From S2P Require Import Prelude.

Module DnsRequests.

Record dns_request_key := { qid : Z; type_ : Z; name : list Z; is_rx : bool }.
Record dns_request_value := { timestamp_ns : Z; sk : Z }.

(** [dns_request_key_equal_to]. *)
Definition key_eq (k k2 : dns_request_key) : bool :=
  (k.(qid) =? k2.(qid)) && (k.(type_) =? k2.(type_)) && bool_decide (k.(name) = k2.(name)).

(** An iterator into the request list. *)
Abbreviation Request := Z.

(** A [std::unordered_multimap] is the list of its elements in the order of its
    iteration.  Where an insertion puts the element, and how a rehash it causes
    rearranges the others, is not specified: [um_insert] is any function that
    adds the element, and it may depend on [n], the number of elements that were
    inserted before. *)
Class UnorderedMultimap (K V : Type) := {
  um_insert : forall (n : Z) (k : K) (v : V) (l : list (K * V)), list (K * V);
  um_insert_perm : forall n k v l, um_insert n k v l ≡ₚ (k, v) :: l;
}.

(** The orders of the two multimaps of the table. *)
Class MultimapOrder := {
  order_by_key :: UnorderedMultimap dns_request_key Request;
  order_by_sock :: UnorderedMultimap Z Request;
}.

(** One implementation: an element is put in front of all others. *)
Definition um_newest_first (K V : Type) : UnorderedMultimap K V :=
  {| um_insert _ k v l := (k, v) :: l; um_insert_perm _ _ _ _ := Permutation_refl _ |}.
Definition newest_first : MultimapOrder :=
  {| order_by_key := um_newest_first _ _; order_by_sock := um_newest_first _ _ |}.

(** [next_node] names the next node to be allocated. *)
Record DnsRequests := {
  dns_requests_by_key_ : list (dns_request_key * Request);
  dns_requests_ : list (Request * (dns_request_key * dns_request_value));
  dns_requests_by_sock_ : list (Z * Request);
  next_node : Z;
}.

Definition DnsRequests_new : DnsRequests :=
  {| dns_requests_by_key_ := []; dns_requests_ := []; dns_requests_by_sock_ := []; next_node := 0 |}.

(** [*iter]. *)
Fixpoint node (l : list (Request * (dns_request_key * dns_request_value))) (r : Request)
    : option (dns_request_key * dns_request_value) :=
  match l with
  | [] => None
  | (r', kv) :: l => if r' =? r then Some kv else node l r
  end.

Definition add `{MultimapOrder} (d : DnsRequests) (key : dns_request_key) (value : dns_request_value) : DnsRequests :=
  {| dns_requests_by_key_ := um_insert (next_node d) key (next_node d) (dns_requests_by_key_ d);
     dns_requests_ := dns_requests_ d ++ [(next_node d, (key, value))];
     dns_requests_by_sock_ := um_insert (next_node d) value.(sk) (next_node d) (dns_requests_by_sock_ d);
     next_node := next_node d + 1 |}.

(** [equal_range]: the elements with an equal key, in the order of the iteration. *)
Definition key_range (d : DnsRequests) (key : dns_request_key) : list (dns_request_key * Request) :=
  filter (fun e => key_eq e.1 key = true) (dns_requests_by_key_ d).

Definition lookup (d : DnsRequests) (key : dns_request_key) : list Request := (key_range d key).*2.

(** The loop stops at the first request that is not older. *)
Fixpoint older (l : list (Request * (dns_request_key * dns_request_value))) (t : Z) : list Request :=
  match l with
  | [] => []
  | (r, (_, v)) :: l => if t <=? v.(timestamp_ns) then [] else r :: older l t
  end.

Definition lookup_older_than (d : DnsRequests) (t : Z) : list Request := older (dns_requests_ d) t.

Definition lookup_socket (d : DnsRequests) (s : Z) : list Request :=
  (filter (fun e => e.1 = s) (dns_requests_by_sock_ d)).*2.

(** Erase the first entry of an equal range whose iterator is [r]. *)
Fixpoint erase_first {A} (p : A -> bool) (l : list (A * Request)) (r : Request) : list (A * Request) :=
  match l with
  | [] => []
  | e :: l => if p e.1 && (e.2 =? r) then l else e :: erase_first p l r
  end.

(** [list::erase]; the iterator must be valid. *)
Definition erase_node (l : list (Request * (dns_request_key * dns_request_value))) (r : Request)
    : option (list (Request * (dns_request_key * dns_request_value))) :=
  match node l r with None => None | Some _ => Some (filter (fun e => e.1 <> r) l) end.

Definition remove (d : DnsRequests) (req : Request) : option DnsRequests :=
  kv ← node (dns_requests_ d) req;
  let by_key := erase_first (fun k => key_eq k kv.1) (dns_requests_by_key_ d) req in
  let by_sock := erase_first (fun s => s =? kv.2.(sk)) (dns_requests_by_sock_ d) req in
  l ← erase_node (dns_requests_ d) req;
  Some {| dns_requests_by_key_ := by_key; dns_requests_ := l; dns_requests_by_sock_ := by_sock;
          next_node := next_node d |}.

(** The loop of [remove_all_with_key] over the equal range. *)
Fixpoint remove_range (range : list (dns_request_key * Request)) (d : DnsRequests)
    : option DnsRequests :=
  match range with
  | [] => Some d
  | (k, req) :: range =>
      kv ← node (dns_requests_ d) req;
      let by_sock := erase_first (fun s => s =? kv.2.(sk)) (dns_requests_by_sock_ d) req in
      l ← erase_node (dns_requests_ d) req;
      remove_range range
        {| dns_requests_by_key_ :=
             erase_first (fun k' => key_eq k' k) (dns_requests_by_key_ d) req;
           dns_requests_ := l; dns_requests_by_sock_ := by_sock; next_node := next_node d |}
  end.

Definition remove_all_with_key (d : DnsRequests) (key : dns_request_key) : option DnsRequests :=
  remove_range (key_range d key) d.

(** * Invariant *)

#[local] Abbreviation nodes := (list (Request * (dns_request_key * dns_request_value))).

Definition key_entries (l : nodes) : list (dns_request_key * Request) := (fun e => (e.2.1, e.1)) <$> l.
Definition sock_entries (l : nodes) : list (Z * Request) := (fun e => (e.2.2.(sk), e.1)) <$> l.

Record dr_inv (d : DnsRequests) : Prop := {
  dr_nodup : NoDup ((dns_requests_ d).*1);
  dr_fresh : Forall (fun e => e.1 < next_node d) (dns_requests_ d);
  dr_key : dns_requests_by_key_ d ≡ₚ key_entries (dns_requests_ d);
  dr_sock : dns_requests_by_sock_ d ≡ₚ sock_entries (dns_requests_ d);
}.

Lemma node_Some (l : nodes) (r : Request) (kv : dns_request_key * dns_request_value) :
  NoDup (l.*1) -> node l r = Some kv <-> (r, kv) ∈ l.
Proof.
  induction l as [|[r' kv'] l IH]; simpl; intros Hnd.
  { split; [done|]. intros H. by apply elem_of_nil in H. }
  apply NoDup_cons in Hnd as [Hn Hnd]. rewrite elem_of_cons.
  destruct (Z.eqb_spec r' r) as [->|Hne].
  - split; [intros [= ->]; by left|]. intros [[= ->]|Hin]; [done|]. destruct Hn.
    apply list_elem_of_fmap. by exists (r, kv).
  - rewrite IH by done. naive_solver.
Qed.

(** In the lists the invariant describes, a request occurs once, so erasing the
    first match is filtering the request out. *)
Lemma erase_first_filter {A} (p : A -> bool) (l : list (A * Request)) (r : Request) :
  NoDup (l.*2) -> (forall a, (a, r) ∈ l -> p a = true) ->
  erase_first p l r = filter (fun e => e.2 <> r) l.
Proof.
  induction l as [|[a r'] l IH]; intros Hnd Hp; [done|].
  apply NoDup_cons in Hnd as [Hn Hnd]. cbn [erase_first fst snd].
  destruct (Z.eqb_spec r' r) as [->|Hne].
  - rewrite (Hp a) by left. cbn [andb]. rewrite filter_cons_False by naive_solver.
    rewrite filter_all; [done|]. intros e Hin Hr. subst r. apply Hn, list_elem_of_fmap. by exists e.
  - rewrite andb_false_r, filter_cons_True by done. f_equal. apply IH; [done|].
    intros a' Ha'. apply Hp. by right.
Qed.

(** An index, in whatever order, after the erasure of a request. *)
Lemma erase_first_perm {A} (f : Request * (dns_request_key * dns_request_value) -> A) (p : A -> bool)
    (index : list (A * Request)) (l : nodes) (r : Request) :
  index ≡ₚ ((fun e => (f e, e.1)) <$> l) -> NoDup (l.*1) -> (forall kv, (r, kv) ∈ l -> p (f (r, kv)) = true) ->
  erase_first p index r ≡ₚ (fun e => (f e, e.1)) <$> filter (fun e => e.1 <> r) l.
Proof.
  intros Hi Hnd Hp. rewrite erase_first_filter.
  - rewrite Hi. by rewrite filter_fmap.
  - rewrite Hi, <- list_fmap_compose. exact Hnd.
  - intros a Ha. rewrite Hi in Ha. apply list_elem_of_fmap in Ha as ([r' kv] & [= -> ->] & Hin). by apply Hp.
Qed.

Lemma nodup_filter_nodes (P : _ -> Prop) `{forall x, Decision (P x)} (l : nodes) :
  NoDup (l.*1) -> NoDup ((filter P l).*1).
Proof. intros Hnd. eapply sublist_NoDup; [exact Hnd|]. apply fmap_sublist, sublist_filter. Qed.

Lemma key_eq_refl (k : dns_request_key) : key_eq k k = true.
Proof. unfold key_eq. by rewrite !Z.eqb_refl, bool_decide_true. Qed.

Lemma add_inv `{MultimapOrder} (d : DnsRequests) (k : dns_request_key) (v : dns_request_value) :
  dr_inv d -> dr_inv (add d k v).
Proof.
  intros Hd. split; unfold add; cbn [dns_requests_ dns_requests_by_key_ dns_requests_by_sock_ next_node].
  - rewrite fmap_app. apply NoDup_app. split; [apply (dr_nodup _ Hd)|].
    split; [|apply NoDup_singleton]. intros r Hr Hr2. apply list_elem_of_singleton in Hr2. simpl in Hr2.
    subst r. apply list_elem_of_fmap in Hr as (e & He & Hin).
    pose proof (dr_fresh _ Hd) as Hf. eapply Forall_forall in Hf; [|exact Hin]. simpl in Hf. lia.
  - apply Forall_app. split; [|constructor; [simpl; lia|constructor]].
    eapply Forall_impl; [apply (dr_fresh _ Hd)|]. simpl. intros. lia.
  - rewrite um_insert_perm, (dr_key _ Hd). unfold key_entries. rewrite fmap_app. apply Permutation_cons_append.
  - rewrite um_insert_perm, (dr_sock _ Hd). unfold sock_entries. rewrite fmap_app. apply Permutation_cons_append.
Qed.

Lemma erase_node_spec (l : nodes) (r : Request) (kv : dns_request_key * dns_request_value) :
  node l r = Some kv -> erase_node l r = Some (filter (fun e => e.1 <> r) l).
Proof. intros Hr. unfold erase_node. by rewrite Hr. Qed.

(** One removal, by any key that equals the request's. *)
Lemma erase_all_inv (d : DnsRequests) (r : Request) (kv : dns_request_key * dns_request_value)
    (pk : dns_request_key -> bool) :
  dr_inv d -> node (dns_requests_ d) r = Some kv -> pk kv.1 = true ->
  let l := filter (fun e => e.1 <> r) (dns_requests_ d) in
  dr_inv {| dns_requests_by_key_ := erase_first pk (dns_requests_by_key_ d) r;
            dns_requests_ := l;
            dns_requests_by_sock_ := erase_first (fun s => s =? kv.2.(sk)) (dns_requests_by_sock_ d) r;
            next_node := next_node d |}.
Proof.
  intros Hd Hr Hpk l. pose proof (dr_nodup _ Hd) as Hnd. apply node_Some in Hr as Hin; [|done].
  assert (Hkv : forall kv', (r, kv') ∈ dns_requests_ d -> kv' = kv).
  { intros kv' H'%node_Some; [|done]. congruence. }
  split; simpl.
  - by apply nodup_filter_nodes.
  - apply Forall_forall. intros e [_ He]%list_elem_of_filter.
    pose proof (dr_fresh _ Hd) as Hf. by eapply Forall_forall in Hf.
  - apply (erase_first_perm (fun e => e.2.1)); [apply (dr_key _ Hd)|done|]. by intros kv' ->%Hkv.
  - apply (erase_first_perm (fun e => e.2.2.(sk))); [apply (dr_sock _ Hd)|done|].
    intros kv' ->%Hkv. simpl. apply Z.eqb_refl.
Qed.

Lemma dr_remove_spec (d : DnsRequests) (r : Request) :
  dr_inv d -> r ∈ (dns_requests_ d).*1 ->
  exists d', remove d r = Some d' /\ dr_inv d' /\
    dns_requests_ d' = filter (fun e => e.1 <> r) (dns_requests_ d).
Proof.
  intros Hd ([r' kv] & -> & Hin)%list_elem_of_fmap. simpl.
  apply node_Some in Hin as Hn; [|apply (dr_nodup _ Hd)].
  unfold remove. rewrite Hn. simpl. rewrite (erase_node_spec _ _ kv Hn). simpl.
  eexists. split; [done|]. split; [|done].
  apply (erase_all_inv d r' kv (fun k => key_eq k kv.1)); [done|done|apply key_eq_refl].
Qed.

Lemma remove_range_spec (range : list (dns_request_key * Request)) (d : DnsRequests) :
  dr_inv d -> NoDup (range.*2) ->
  (forall k r, (k, r) ∈ range -> exists v, (r, (k, v)) ∈ dns_requests_ d) ->
  exists d', remove_range range d = Some d' /\ dr_inv d' /\
    dns_requests_ d' = filter (fun e => e.1 ∉ range.*2) (dns_requests_ d).
Proof.
  revert d. induction range as [|[k r] range IH]; intros d Hd Hnd Hin.
  { exists d. split; [done|]. split; [done|]. symmetry. apply filter_all. intros e _.
    simpl. apply not_elem_of_nil. }
  apply NoDup_cons in Hnd as [Hnr Hnd]. simpl in Hnr.
  destruct (Hin k r) as [v Hv]; [left|].
  apply node_Some in Hv as Hn; [|apply (dr_nodup _ Hd)].
  cbn [remove_range]. rewrite Hn. cbn [mbind option_bind].
  rewrite (erase_node_spec _ _ _ Hn). cbn [mbind option_bind].
  pose proof (erase_all_inv d r (k, v) (fun k' => key_eq k' k) Hd Hn (key_eq_refl k)) as Hd1.
  cbv zeta in Hd1.
  destruct (IH _ Hd1 Hnd) as (d' & Hr & Hd' & Hl).
  { intros k' r' Hk'. simpl. destruct (Hin k' r') as [v' Hv']; [by right|].
    exists v'. apply list_elem_of_filter. split; [|done]. simpl. intros ->.
    apply Hnr, list_elem_of_fmap. by exists (k', r). }
  exists d'. split; [exact Hr|]. split; [done|]. rewrite Hl. simpl.
  rewrite list_filter_filter. apply list_filter_iff. intros e. rewrite not_elem_of_cons. tauto.
Qed.

Lemma lookup_perm (d : DnsRequests) (key : dns_request_key) :
  dr_inv d ->
  lookup d key ≡ₚ (filter (fun e => key_eq e.2.1 key = true) (dns_requests_ d)).*1.
Proof.
  intros Hd. unfold lookup, key_range. rewrite (dr_key _ Hd). unfold key_entries.
  rewrite filter_fmap, <- list_fmap_compose. done.
Qed.

Lemma lookup_socket_perm (d : DnsRequests) (s : Z) :
  dr_inv d -> lookup_socket d s ≡ₚ (filter (fun e => e.2.2.(sk) = s) (dns_requests_ d)).*1.
Proof.
  intros Hd. unfold lookup_socket. rewrite (dr_sock _ Hd). unfold sock_entries.
  rewrite filter_fmap, <- list_fmap_compose. done.
Qed.

(** Taking out the nodes that a filter selects. *)
Lemma filter_unselected (P : _ -> Prop) `{forall x, Decision (P x)} (l : nodes) :
  NoDup (l.*1) -> filter (fun e => e.1 ∉ (filter P l).*1) l = filter (fun e => ~ P e) l.
Proof.
  intros Hnd. assert (Hiff : forall e, e ∈ l -> (e.1 ∉ (filter P l).*1 <-> ~ P e)).
  { intros [r kv] He. simpl. split.
    - intros Hn HP. apply Hn, list_elem_of_fmap. exists (r, kv). split; [done|].
      by apply list_elem_of_filter.
    - intros HP ([r' kv'] & Hr' & [HP' He']%list_elem_of_filter)%list_elem_of_fmap.
      simpl in *. subst r'. apply node_Some in He, He'; [|done..]. congruence. }
  clear Hnd. revert Hiff. generalize ((filter P l).*1) as ids.
  intros ids. induction l as [|e l IH]; intros Hiff; [done|].
  assert (HIH := IH ltac:(intros e' He'; apply Hiff; by right)).
  destruct (decide (P e)) as [HP|HP].
  - rewrite !filter_cons_False; [done|tauto|]. rewrite Hiff by left. tauto.
  - rewrite !filter_cons_True; [by f_equal|done|]. by apply Hiff; [left|].
Qed.

Lemma remove_all_with_key_spec (d : DnsRequests) (key : dns_request_key) :
  dr_inv d ->
  exists d', remove_all_with_key d key = Some d' /\ dr_inv d' /\
    dns_requests_ d' = filter (fun e => key_eq e.2.1 key <> true) (dns_requests_ d).
Proof.
  intros Hd. pose proof (dr_nodup _ Hd) as Hnd. unfold remove_all_with_key.
  destruct (remove_range_spec (key_range d key) d Hd) as (d' & Hr & Hd' & Hl).
  - change ((key_range d key).*2) with (lookup d key). rewrite lookup_perm by done.
    by apply nodup_filter_nodes.
  - intros k r [_ Hin]%list_elem_of_filter. rewrite (dr_key _ Hd) in Hin.
    apply list_elem_of_fmap in Hin as ([r' [k' v]] & [= -> ->] & Hin). eauto.
  - exists d'. split; [done|]. split; [done|]. rewrite Hl.
    rewrite <- (filter_unselected (fun e => key_eq e.2.1 key = true)) by done.
    change ((key_range d key).*2) with (lookup d key).
    apply list_filter_iff. intros e. by rewrite lookup_perm.
Qed.

(** The clients' loops [for (auto &req : reqs) { ...; remove(req); }]. *)
Fixpoint remove_each (d : DnsRequests) (reqs : list Request) : option DnsRequests :=
  match reqs with [] => Some d | r :: reqs => d' ← remove d r; remove_each d' reqs end.

Lemma remove_each_spec (reqs : list Request) (d : DnsRequests) :
  dr_inv d -> NoDup reqs -> (forall r, r ∈ reqs -> r ∈ (dns_requests_ d).*1) ->
  exists d', remove_each d reqs = Some d' /\ dr_inv d' /\
    dns_requests_ d' = filter (fun e => e.1 ∉ reqs) (dns_requests_ d).
Proof.
  revert d. induction reqs as [|r reqs IH]; intros d Hd Hnd Hin.
  { exists d. split; [done|]. split; [done|]. symmetry. apply filter_all. intros e _. apply not_elem_of_nil. }
  apply NoDup_cons in Hnd as [Hnr Hnd].
  destruct (dr_remove_spec d r Hd) as (d1 & Hr & Hd1 & Hl1); [apply Hin; left|].
  destruct (IH d1 Hd1 Hnd) as (d2 & Hr2 & Hd2 & Hl2).
  { intros r' Hr'. rewrite Hl1. assert (Hin' : r' ∈ (dns_requests_ d).*1) by (apply Hin; by right).
    apply list_elem_of_fmap in Hin' as (e & -> & He). apply list_elem_of_fmap. exists e.
    split; [done|]. apply list_elem_of_filter. split; [|done]. intros <-. done. }
  exists d2. simpl. rewrite Hr. split; [done|]. split; [done|]. rewrite Hl2, Hl1.
  rewrite list_filter_filter. apply list_filter_iff. intros e. rewrite not_elem_of_cons. tauto.
Qed.

(** Arrival in time order makes the early exit of [lookup_older_than] exact. *)
Definition arrival_ordered (d : DnsRequests) : Prop :=
  StronglySorted (fun e e' => e.2.2.(timestamp_ns) <= e'.2.2.(timestamp_ns)) (dns_requests_ d).

Lemma lookup_older_than_eq (d : DnsRequests) (t : Z) :
  arrival_ordered d ->
  lookup_older_than d t = (filter (fun e => e.2.2.(timestamp_ns) < t) (dns_requests_ d)).*1.
Proof.
  unfold arrival_ordered, lookup_older_than. induction 1 as [|[r [k v]] l _ IH Hle]; [done|].
  cbn [older]. destruct (Z.leb_spec t v.(timestamp_ns)).
  - rewrite filter_none; [done|]. intros e [->|He]%elem_of_cons; simpl; [lia|].
    eapply Forall_forall in Hle; [|exact He]. simpl in Hle. lia.
  - rewrite filter_cons_True by (simpl; lia). rewrite fmap_cons. cbn [fst]. by f_equal.
Qed.

(** * Histories *)

(** The calls of the interface.  [Remove] takes an iterator, as a lookup gave it. *)
Inductive op :=
  | Add (k : dns_request_key) (v : dns_request_value)
  | LookupKey (k : dns_request_key)
  | LookupSocket (s : Z)
  | LookupOlder (t : Z)
  | Remove (r : Request)
  | RemoveKey (k : dns_request_key).

#[local] Abbreviation request := (dns_request_key * dns_request_value)%type.

(** What the client reads through the iterators it was given. *)
Definition deref (d : DnsRequests) (reqs : list Request) : option (list request) :=
  mapM (node (dns_requests_ d)) reqs.

(** The iterators of a lookup, with what they point to. *)
Definition read (d : DnsRequests) (reqs : list Request) : option (list (Request * request)) :=
  rs ← deref d reqs; Some (zip reqs rs).

Definition step `{MultimapOrder} (d : DnsRequests) (o : op) : option (DnsRequests * list (Request * request)) :=
  match o with
  | Add k v => Some (add d k v, [])
  | LookupKey k => out ← read d (lookup d k); Some (d, out)
  | LookupSocket s => out ← read d (lookup_socket d s); Some (d, out)
  | LookupOlder t => out ← read d (lookup_older_than d t); Some (d, out)
  | Remove r => d' ← remove d r; Some (d', [])
  | RemoveKey k => d' ← remove_all_with_key d k; Some (d', [])
  end.

Fixpoint run `{MultimapOrder} (d : DnsRequests) (ops : list op) : option (DnsRequests * list (list (Request * request))) :=
  match ops with
  | [] => Some (d, [])
  | o :: ops => '(d, r) ← step d o; '(d, rs) ← run d ops; Some (d, r :: rs)
  end.

(** The specification: one list of requests in arrival order.  Removing through an
    iterator whose request is gone is undefined. *)
Definition spec_step (l : nodes) (n : Z) (o : op) : option (nodes * Z * list (Request * request)) :=
  match o with
  | Add k v => Some (l ++ [(n, (k, v))], n + 1, [])
  | LookupKey k => Some (l, n, filter (fun e => key_eq e.2.1 k = true) l)
  | LookupSocket s => Some (l, n, filter (fun e => e.2.2.(sk) = s) l)
  | LookupOlder t => Some (l, n, filter (fun e => e.2.2.(timestamp_ns) < t) l)
  | Remove r => if decide (r ∈ l.*1) then Some (filter (fun e => e.1 <> r) l, n, []) else None
  | RemoveKey k => Some (filter (fun e => key_eq e.2.1 k <> true) l, n, [])
  end.

Fixpoint spec_run (l : nodes) (n : Z) (ops : list op) : option (nodes * list (list (Request * request))) :=
  match ops with
  | [] => Some (l, [])
  | o :: ops => '(l, n, r) ← spec_step l n o; '(l, rs) ← spec_run l n ops; Some (l, r :: rs)
  end.

(** The answers of the table: by age in arrival order, otherwise in any order. *)
Definition answers (o : op) (out expected : list (Request * request)) : Prop :=
  match o with LookupKey _ | LookupSocket _ => out ≡ₚ expected | _ => out = expected end.

(** Requests are added in time order. *)
Fixpoint in_time_order (last : Z) (ops : list op) : Prop :=
  match ops with
  | [] => True
  | Add _ v :: ops => last <= v.(timestamp_ns) /\ in_time_order v.(timestamp_ns) ops
  | _ :: ops => in_time_order last ops
  end.

Lemma deref_nodes (d : DnsRequests) (l : nodes) :
  dr_inv d -> l ⊆ dns_requests_ d -> deref d l.*1 = Some l.*2.
Proof.
  intros Hd Hl. unfold deref. apply mapM_Some. rewrite Forall2_fmap. apply Forall_Forall2_diag, Forall_forall.
  intros [r kv] He. apply node_Some; [apply (dr_nodup _ Hd)|]. by apply Hl.
Qed.

Lemma mapM_perm {A B} (f : A -> option B) (l l' : list A) (k : list B) :
  mapM f l = Some k -> l' ≡ₚ l -> exists k', mapM f l' = Some k' /\ zip l' k' ≡ₚ zip l k /\ k' ≡ₚ k.
Proof.
  intros Hk Hl. revert k Hk. symmetry in Hl. induction Hl as [|x l l' _ IH|x y l|l1 l2 l3 _ IH1 _ IH2]; intros k Hk.
  - exists k. done.
  - cbn in Hk. destruct (f x) as [b|] eqn:Eb; [|done]. cbn in Hk. destruct (mapM f l) as [k1|] eqn:E1; [|done].
    injection Hk as <-. destruct (IH k1 eq_refl) as (k' & Ek & Hz & Hp). exists (b :: k'). cbn. rewrite Eb. cbn.
    rewrite Ek. cbn. split; [done|]. split; by constructor.
  - cbn in *. destruct (f y) as [b|] eqn:Eb; [|done]. destruct (f x) as [c|] eqn:Ec; [|done]. cbn in *.
    destruct (mapM f l) as [k1|]; [|done]. injection Hk as <-. exists (c :: b :: k1).
    split; [done|]. split; constructor.
  - destruct (IH1 k Hk) as (k1 & E1 & Hz1 & Hp1). destruct (IH2 k1 E1) as (k2 & E2 & Hz2 & Hp2).
    exists k2. split; [done|]. by rewrite Hz2, Hp2.
Qed.

Lemma zip_fmap {A B} (l : list (A * B)) : zip l.*1 l.*2 = l.
Proof. induction l as [|[a b] l IH]; [done|]. cbn. by rewrite IH. Qed.

Lemma deref_selected (d : DnsRequests) (P : Request * request -> Prop) `{forall x, Decision (P x)} (ids : list Request) :
  dr_inv d -> ids ≡ₚ (filter P (dns_requests_ d)).*1 ->
  exists rs, deref d ids = Some rs /\ zip ids rs ≡ₚ filter P (dns_requests_ d) /\ rs ≡ₚ (filter P (dns_requests_ d)).*2.
Proof.
  intros Hd Hids. assert (Hin : filter P (dns_requests_ d) ⊆ dns_requests_ d) by by intros e [_ He]%list_elem_of_filter.
  destruct (mapM_perm _ _ ids _ (deref_nodes d _ Hd Hin) Hids) as (rs & E & Hz & Hp). exists rs. by rewrite zip_fmap in Hz.
Qed.

(** Selecting by a property of requests and removing the selected ones, in any order. *)
Lemma take_spec (d : DnsRequests) (P : request -> Prop) `{forall x, Decision (P x)} (ids : list Request) :
  dr_inv d -> ids ≡ₚ (filter (fun e => P e.2) (dns_requests_ d)).*1 ->
  exists rs d', deref d ids = Some rs /\ rs ≡ₚ filter P (dns_requests_ d).*2 /\
    remove_each d ids = Some d' /\ dr_inv d' /\
    (dns_requests_ d').*2 = filter (fun e => ~ P e) (dns_requests_ d).*2.
Proof.
  intros Hd Hids. pose proof (dr_nodup _ Hd) as Hnd.
  destruct (deref_selected d (fun e => P e.2) ids Hd Hids) as (rs & Hde & _ & Hrs).
  destruct (remove_each_spec ids d Hd) as (d' & Hr & Hd' & Hl).
  - rewrite Hids. by apply nodup_filter_nodes.
  - intros r. rewrite Hids. intros (e & -> & [_ He]%list_elem_of_filter)%list_elem_of_fmap.
    apply list_elem_of_fmap. eauto.
  - exists rs, d'. split; [done|]. split; [by rewrite filter_fmap|]. split; [done|]. split; [done|].
    rewrite Hl, filter_fmap. f_equal. rewrite <- (filter_unselected (fun e => P e.2)) by done.
    apply list_filter_iff. intros e. by rewrite Hids.
Qed.

Definition times_ok (last : Z) (d : DnsRequests) : Prop :=
  arrival_ordered d /\ Forall (fun e => e.2.2.(timestamp_ns) <= last) (dns_requests_ d).

(** Time order survives removals. *)
Lemma times_ok_sublist (last : Z) (d d' : DnsRequests) :
  times_ok last d -> sublist (dns_requests_ d') (dns_requests_ d) -> times_ok last d'.
Proof.
  unfold times_ok, arrival_ordered. generalize (dns_requests_ d), (dns_requests_ d'). clear. intros l l' [Hs Hf] Hl.
  assert (Hsub : forall (Q : _ -> Prop) (k k' : nodes), sublist k' k -> Forall Q k -> Forall Q k').
  { intros Q k k' Hk. induction Hk; rewrite ?Forall_cons; naive_solver. }
  split; [|by eapply Hsub]. revert Hs. clear Hf. induction Hl as [|e l' l Hl IH|e l' l _ IH]; intros Hs; [constructor|..].
  - apply StronglySorted_cons in Hs as [He Hs]. constructor; [auto|]. by eapply Hsub.
  - apply StronglySorted_cons in Hs as [_ Hs]. auto.
Qed.

Lemma remove_next (d : DnsRequests) (r : Request) (d' : DnsRequests) : remove d r = Some d' -> next_node d' = next_node d.
Proof.
  unfold remove. destruct (node _ r); [|done]. cbn. destruct (erase_node _ r); [|done]. by intros [= <-].
Qed.

Lemma remove_range_next (range : list (dns_request_key * Request)) (d d' : DnsRequests) :
  remove_range range d = Some d' -> next_node d' = next_node d.
Proof.
  revert d. induction range as [|[k r] range IH]; intros d; [by intros [= <-]|]. cbn [remove_range].
  destruct (node _ r); [|done]. cbn. destruct (erase_node _ r); [|done]. cbn. intros E. by rewrite (IH _ E).
Qed.

Lemma times_ok_add `{MultimapOrder} (last : Z) (d : DnsRequests) (k : dns_request_key) (v : dns_request_value) :
  times_ok last d -> last <= v.(timestamp_ns) -> times_ok v.(timestamp_ns) (add d k v).
Proof.
  intros [Hs Hf] Hv. unfold times_ok, arrival_ordered in *. simpl. split.
  - revert Hf. induction Hs as [|e l _ IH Hle]; intros Hf; [repeat constructor|].
    inversion_clear Hf as [|? ? He Hl]. simpl. constructor; [auto|].
    apply Forall_app. split; [done|]. constructor; [|constructor]. simpl. lia.
  - apply Forall_app. split; [|constructor; [simpl; lia|constructor]].
    eapply Forall_impl; [exact Hf|]. simpl. lia.
Qed.

Lemma read_selected (d : DnsRequests) (P : Request * request -> Prop) `{forall x, Decision (P x)} (ids : list Request) :
  dr_inv d -> ids ≡ₚ (filter P (dns_requests_ d)).*1 ->
  exists out, read d ids = Some out /\ out ≡ₚ filter P (dns_requests_ d).
Proof.
  intros Hd Hids. destruct (deref_selected d P ids Hd Hids) as (rs & E & Hz & _). exists (zip ids rs).
  unfold read. rewrite E. done.
Qed.

Lemma read_older (d : DnsRequests) (t : Z) :
  dr_inv d -> arrival_ordered d ->
  read d (lookup_older_than d t) = Some (filter (fun e => e.2.2.(timestamp_ns) < t) (dns_requests_ d)).
Proof.
  intros Hd Ht. rewrite lookup_older_than_eq by done. unfold read. rewrite deref_nodes; [cbn; by rewrite zip_fmap|done|].
  by intros e [_ He]%list_elem_of_filter.
Qed.

Lemma remove_absent (d : DnsRequests) (r : Request) :
  dr_inv d -> r ∉ (dns_requests_ d).*1 -> remove d r = None.
Proof.
  intros Hd Hr. unfold remove. destruct (node (dns_requests_ d) r) as [kv|] eqn:E; [|done].
  apply node_Some in E; [|apply (dr_nodup _ Hd)]. destruct Hr. apply list_elem_of_fmap. by exists (r, kv).
Qed.

Section histories.
Context `{MultimapOrder}.

(** One call: the table and the list both fail, or both give their answers. *)
Lemma dr_step_refines (last : Z) (d : DnsRequests) (o : op) :
  dr_inv d -> times_ok last d -> in_time_order last [o] ->
  (step d o = None /\ spec_step (dns_requests_ d) (next_node d) o = None) \/
  exists d' out expected, step d o = Some (d', out) /\ dr_inv d' /\
    spec_step (dns_requests_ d) (next_node d) o = Some (dns_requests_ d', next_node d', expected) /\ answers o out expected /\
    times_ok (match o with Add _ v => v.(timestamp_ns) | _ => last end) d'.
Proof using.
  intros Hd Ht Ho. destruct o as [k v|k|s|t|r|k]; unfold step, spec_step.
  - right. eexists _, _, _. split; [done|]. split; [by apply add_inv|]. split; [done|]. split; [done|].
    by destruct Ho; eapply times_ok_add.
  - right. destruct (read_selected d (fun e => key_eq e.2.1 k = true) (lookup d k) Hd) as (out & -> & Hp); [by apply lookup_perm|].
    by eexists _, _, _.
  - right. destruct (read_selected d (fun e => e.2.2.(sk) = s) (lookup_socket d s) Hd) as (out & -> & Hp); [by apply lookup_socket_perm|].
    by eexists _, _, _.
  - right. rewrite read_older by (done || apply Ht). by eexists _, _, _.
  - case_decide as Hr; [right|left; by rewrite remove_absent].
    destruct (dr_remove_spec d r Hd Hr) as (d' & E & Hd' & Hl). pose proof (remove_next d r d' E) as Hn.
    rewrite E. eexists _, _, _. split; [done|]. split; [done|]. rewrite Hl, Hn. split; [done|]. split; [done|].
    apply (times_ok_sublist last d); [done|]. rewrite Hl. apply sublist_filter.
  - right. destruct (remove_all_with_key_spec d k Hd) as (d' & E & Hd' & Hl). pose proof (remove_range_next _ _ _ E) as Hn.
    rewrite E. eexists _, _, _. split; [done|]. split; [done|]. rewrite Hl, Hn. split; [done|]. split; [done|].
    apply (times_ok_sublist last d); [done|]. rewrite Hl. apply sublist_filter.
Qed.

Lemma dr_run_refines (ops : list op) (last : Z) (d : DnsRequests) :
  dr_inv d -> times_ok last d -> in_time_order last ops ->
  match run d ops, spec_run (dns_requests_ d) (next_node d) ops with
  | Some (d', outs), Some (l, expected) => dr_inv d' /\ dns_requests_ d' = l /\ Forall3 answers ops outs expected
  | None, None => True
  | _, _ => False
  end.
Proof using.
  revert last d. induction ops as [|o ops IH]; intros last d Hd Ht Ho; [repeat split; constructor || apply Hd|].
  destruct (dr_step_refines last d o Hd Ht) as [[E1 E2]|(d1 & out & ex & E1 & Hd1 & E2 & Ha & Ht1)];
    [by destruct o; cbn in *; tauto|by cbn [run spec_run]; rewrite E1, E2|].
  cbn [run spec_run]. rewrite E1, E2. cbn [mbind option_bind].
  assert (HIH := IH _ d1 Hd1 Ht1 ltac:(destruct o; cbn in *; tauto)).
  destruct (run d1 ops) as [[d2 outs]|], (spec_run _ _ ops) as [[l exs]|]; cbn; try done.
  destruct HIH as (Hd2 & Hl & Hf). split; [done|]. split; [done|]. by constructor.
Qed.

Lemma dr_new_inv : dr_inv DnsRequests_new /\ times_ok 0 DnsRequests_new.
Proof using. repeat constructor. Qed.

(** C33: the table of requests, wherever its multimaps put their elements.  For requests
    that arrive in time order, every history of calls of the interface answers as one list
    in arrival order does: a lookup by key or socket gives an iterator to each request with
    an equal key or of the socket, once, in some order, and one by age those older than the
    given time, in arrival order; a lookup changes nothing, and a removal takes out exactly
    the request of the iterator, or those with an equal key.  The call is undefined exactly
    when an iterator is removed whose request was removed before, and at the end the list
    and the two indices hold the same requests. *)
Theorem dns_requests_refine (ops : list op) :
  in_time_order 0 ops ->
  match run DnsRequests_new ops, spec_run [] 0 ops with
  | Some (d, outs), Some (l, expected) =>
    Forall3 answers ops outs expected /\ dns_requests_ d = l /\
    dns_requests_by_key_ d ≡ₚ key_entries l /\ dns_requests_by_sock_ d ≡ₚ sock_entries l
  | None, None => True
  | _, _ => False
  end.
Proof using.
  intros Ho. destruct dr_new_inv as [Hd Ht]. pose proof (dr_run_refines ops 0 DnsRequests_new Hd Ht Ho) as Hrun.
  cbn [dns_requests_ next_node DnsRequests_new] in Hrun.
  destruct (run DnsRequests_new ops) as [[d outs]|], (spec_run [] 0 ops) as [[l ex]|]; try done.
  destruct Hrun as (Hi & <- & Hf). split; [done|]. split; [done|]. split; apply Hi.
Qed.
End histories.

Definition demo_key (n : Z) : dns_request_key :=
  {| qid := n; type_ := 1; name := [97]; is_rx := false |}.

Definition demo_ops : list op :=
  [Add (demo_key 1) {| timestamp_ns := 10; sk := 7 |}; Add (demo_key 2) {| timestamp_ns := 20; sk := 8 |};
   Add (demo_key 1) {| timestamp_ns := 30; sk := 8 |}; LookupOlder 25; LookupKey (demo_key 1); LookupSocket 8;
   Remove 0; LookupKey (demo_key 1); RemoveKey (demo_key 1); LookupSocket 8].

(** With the newest first, the lookup by key gives the two requests in the other order. *)
Lemma dns_requests_refine_witness :
  exists d outs l expected, @run newest_first DnsRequests_new demo_ops = Some (d, outs) /\ spec_run [] 0 demo_ops = Some (l, expected) /\
    Forall3 answers demo_ops outs expected /\ dns_requests_ d = l /\
    map (map fst) outs = [[]; []; []; [0; 1]; [2; 0]; [2; 1]; []; [2]; []; [1]].
Proof.
  assert (Ho : in_time_order 0 demo_ops) by (cbn; lia).
  pose proof (@dns_requests_refine newest_first demo_ops Ho) as Hw.
  destruct (@run newest_first DnsRequests_new demo_ops) as [[d outs]|] eqn:E1; [|by vm_compute in E1].
  destruct (spec_run [] 0 demo_ops) as [[l ex]|] eqn:E2; [|by vm_compute in E2].
  destruct Hw as (Hf & Hl & _). exists d, outs, l, ex. do 4 (split; [done|]).
  vm_compute in E1. injection E1 as <- <-. reflexivity.
Defined.

(** The direction stored in a key plays no part in a lookup. *)
Lemma lookup_ignores_direction (d : DnsRequests) (k : dns_request_key) (b : bool) :
  lookup d {| qid := k.(qid); type_ := k.(type_); name := k.(name); is_rx := b |} = lookup d k.
Proof. reflexivity. Qed.
End DnsRequests.
