(* ===== verification/Dns.v ===== *)
(** The DNS packet parser of the collector: collector/kernel/dns/
    ares_expand_name.c, ares_parse_query.c and ares_parse_a_aaaa_reply.c.

    The packet is a block of exactly [alen] bytes and a pointer into it is an
    offset; a read outside the block, or a write outside an output buffer, is
    [Undefined].  The loops that follow compression pointers take fuel;
    running out of it is [OutOfFuel], and the theorems show that the fuel the
    callers give is always enough.

    The field accessors of the header and of resource records come from the
    c-ares header ares_dns.h, which is not part of the repository: they are the
    class [AresDns].

    Theorems: names are accepted exactly when they are encoded as RFC 1035
    says, with at most 50 indirections; the expansion that follows never leaves
    the packet nor the caller's buffer and writes exactly the labels, escaped
    and separated by periods; the two message parsers are memory safe and
    total on every packet. *)
From S2P Require Import Prelude.

Module Dns.

(** * Results *)

Inductive run (A : Type) := Done (a : A) | Undefined | OutOfFuel.
Arguments Done {A}. Arguments Undefined {A}. Arguments OutOfFuel {A}.

Definition run_bind {A B} (r : run A) (f : A -> run B) : run B :=
  match r with Done a => f a | Undefined => Undefined | OutOfFuel => OutOfFuel end.

(** A memory access in a computation. *)
Definition access {A} (o : option A) : run A :=
  match o with Some a => Done a | None => Undefined end.

Declare Scope run_scope.
Delimit Scope run_scope with run.
Notation "'let!' x := r 'in' k" := (run_bind r (fun x => k))
  (at level 10, x binder, k at level 200) : run_scope.
#[local] Open Scope run_scope.

(** * Constants *)

Definition INDIR_MASK : Z := 192.
Definition MAX_INDIRS : Z := 50.
Definition DNS_NAME_MAX_LENGTH : Z := 256.
Definition HFIXEDSZ : Z := 12.
Definition QFIXEDSZ : Z := 4.
Definition RRFIXEDSZ : Z := 10.

Definition ARES_SUCCESS : Z := 0.
Definition ARES_ENODATA : Z := 1.
Definition ARES_EBADQUERY : Z := 7.
Definition ARES_EBADNAME : Z := 8.
Definition ARES_EBADRESP : Z := 10.
Definition ARES_ENOMEM : Z := 15.

(** The characters that are escaped: a period or a backslash. *)
Definition escaped (c : Z) : bool := (c =? 46) || (c =? 92).

(** * Names: ares_expand_name.c *)

(** [while (offset--) n += ...]. *)
Fixpoint label_length (abuf : list Z) (encoded : Z) (offset : nat) (n : Z) : run Z :=
  match offset with
  | O => Done n
  | S offset =>
      let! c := access (rd abuf encoded) in
      label_length abuf (encoded + 1) offset (n + if escaped c then 2 else 1)
  end.

Definition indirection (b0 b1 : Z) : Z := Z.lor (Z.shiftl (Z.land b0 (Z.lnot INDIR_MASK)) 8) b1.

(** The outer loop of [dns_name_length]. *)
Fixpoint name_length_loop (fuel : nat) (abuf : list Z) (alen encoded n indir : Z) : run Z :=
  let! b := access (rd abuf encoded) in
  if b =? 0 then Done (if n =? 0 then n else n - 1)
  else
    match fuel with
    | O => OutOfFuel
    | S fuel =>
        let top := Z.land b INDIR_MASK in
        if top =? INDIR_MASK then
          if alen <=? encoded + 1 then Done (-1)
          else
            let! b1 := access (rd abuf (encoded + 1)) in
            let offset := indirection b b1 in
            if alen <=? offset then Done (-1)
            else
              let indir := indir + 1 in
              if (alen <? indir) || (MAX_INDIRS <? indir) then Done (-1)
              else name_length_loop fuel abuf alen offset n indir
        else if top =? 0 then
          if alen <=? encoded + b + 1 then Done (-1)
          else
            let! n' := label_length abuf (encoded + 1) (Z.to_nat b) n in
            name_length_loop fuel abuf alen (encoded + 1 + b) (n' + 1) indir
        else Done (-1)
    end.

(** Enough for [MAX_INDIRS] + 1 passes over the packet. *)
Definition name_fuel (alen : Z) : nat := Z.to_nat ((MAX_INDIRS + 1) * (alen + 1)).

Definition dns_name_length (encoded : Z) (abuf : list Z) (alen : Z) : run Z :=
  if alen <=? encoded then Done (-1)
  else name_length_loop (name_fuel alen) abuf alen encoded 0 0.

Definition aresx_uztosl (x : Z) : Z := Z.land x 2147483647.

(** [while (len--) { if (...) *q++ = '\\'; *q++ = *p; p++; }]. *)
Fixpoint copy_label (abuf : list Z) (p : Z) (len : nat) (s : list Z) (q : Z) : run (list Z * Z) :=
  match len with
  | O => Done (s, q)
  | S len =>
      let! c := access (rd abuf p) in
      let! sq := (if escaped c then let! s := access (wr s q 92) in Done (s, q + 1)
                  else Done (s, q)) in
      let! s := access (wr sq.1 sq.2 c) in
      copy_label abuf (p + 1) len s (sq.2 + 1)
  end.

(** The outer loop of [dns_expand_name]; [enclen] is set at the first
    indirection. *)
Fixpoint expand_loop (fuel : nat) (abuf : list Z) (encoded p : Z) (s : list Z) (q : Z)
    (enclen : option Z) : run (list Z * Z * Z) :=
  let! b := access (rd abuf p) in
  if b =? 0 then Done (s, q, default (aresx_uztosl (p + 1 - encoded)) enclen)
  else
    match fuel with
    | O => OutOfFuel
    | S fuel =>
        if Z.land b INDIR_MASK =? INDIR_MASK then
          let enclen := Some (default (aresx_uztosl (p + 2 - encoded)) enclen) in
          let! b1 := access (rd abuf (p + 1)) in
          expand_loop fuel abuf encoded (indirection b b1) s q enclen
        else
          let! sq := copy_label abuf (p + 1) (Z.to_nat b) s q in
          let! s := access (wr sq.1 sq.2 46) in
          expand_loop fuel abuf encoded (p + 1 + b) s (sq.2 + 1) enclen
    end.

(** The buffer [s] after the call, and [*enclen]. *)
Definition dns_expand_name (encoded : Z) (abuf : list Z) (alen : Z) (s : list Z)
    : run (list Z * Z) :=
  let! r := expand_loop (name_fuel alen) abuf encoded encoded s 0 None in
  let '(s, q, enclen) := r in
  let! s := access (wr s (if 0 <? q then q - 1 else q) 0) in
  Done (s, enclen).

(** The status, and on success the buffer, [*enclen] and [*expanded_len]. *)
Definition dns_expand_name_maxlen (encoded : Z) (abuf : list Z) (alen : Z) (s : list Z)
    : run (Z + list Z * Z * Z) :=
  let! len := dns_name_length encoded abuf alen in
  if len <? 0 then Done (inl ARES_EBADNAME)
  else if DNS_NAME_MAX_LENGTH <? len + 1 then Done (inl ARES_ENOMEM)
  else
    let! r := dns_expand_name encoded abuf alen s in
    Done (inr (r.1, r.2, len)).

(** * Messages *)

(** The accessors of ares_dns.h: a field of the header, of a question or of a
    resource record, read from the packet at an offset.  What the parsers rely
    on: a field is read from within its fixed-size header, and has its width. *)
Class AresDns := {
  DNS_HEADER_QR : list Z -> option Z;
  DNS_HEADER_QID : list Z -> option Z;
  DNS_HEADER_QDCOUNT : list Z -> option Z;
  DNS_HEADER_ANCOUNT : list Z -> option Z;
  DNS_HEADER_NSCOUNT : list Z -> option Z;
  DNS_QUESTION_TYPE : list Z -> Z -> option Z;
  DNS_QUESTION_CLASS : list Z -> Z -> option Z;
  DNS_RR_TYPE : list Z -> Z -> option Z;
  DNS_RR_CLASS : list Z -> Z -> option Z;
  DNS_RR_LEN : list Z -> Z -> option Z;
  DNS_RR_TTL : list Z -> Z -> option Z
}.

Definition byte_ok (b : Z) : Prop := 0 <= b < 256.

Definition field (bits : Z) (o : option Z) : Prop := exists v, o = Some v /\ 0 <= v < 2 ^ bits.

Class AresDnsLaws `{AresDns} := {
  header_fields abuf :
    Forall byte_ok abuf -> HFIXEDSZ <= zlen abuf ->
    field 1 (DNS_HEADER_QR abuf) /\ field 16 (DNS_HEADER_QID abuf) /\
    field 16 (DNS_HEADER_QDCOUNT abuf) /\ field 16 (DNS_HEADER_ANCOUNT abuf) /\
    field 16 (DNS_HEADER_NSCOUNT abuf);
  question_fields abuf p :
    Forall byte_ok abuf -> 0 <= p -> p + QFIXEDSZ <= zlen abuf ->
    field 16 (DNS_QUESTION_TYPE abuf p) /\ field 16 (DNS_QUESTION_CLASS abuf p);
  rr_fields abuf p :
    Forall byte_ok abuf -> 0 <= p -> p + RRFIXEDSZ <= zlen abuf ->
    field 16 (DNS_RR_TYPE abuf p) /\ field 16 (DNS_RR_CLASS abuf p) /\
    field 16 (DNS_RR_LEN abuf p) /\ field 32 (DNS_RR_TTL abuf p)
}.

Definition ns_c_in : Z := 1.
Definition T_A : Z := 1.
Definition T_CNAME : Z := 5.
Definition T_AAAA : Z := 28.
Definition INT_MAX : Z := 2 ^ 31 - 1.

(** [if (out) *out = v], for a pointer that may be null. *)
Definition store (out : option Z) (v : Z) : option Z := (fun _ => v) <$> out.

Section messages.
Context `{AresDns}.

(** ** ares_parse_query.c *)

(** What the out-parameters point to; [None] is a null pointer. *)
Record query_out := mk_query_out {
  is_response : option Z;
  type_out : option Z;
  qid_out : option Z;
  question_out : list Z;
  question_len : option Z
}.

Definition dns_parse_query (abuf : list Z) (alen : Z) (o : query_out) : run (Z * query_out) :=
  if alen <? HFIXEDSZ then Done (ARES_EBADQUERY, o)
  else
    let! qr := access (DNS_HEADER_QR abuf) in
    let! qid := access (DNS_HEADER_QID abuf) in
    let! qdcount := access (DNS_HEADER_QDCOUNT abuf) in
    let! ancount := access (DNS_HEADER_ANCOUNT abuf) in
    let! nscount := access (DNS_HEADER_NSCOUNT abuf) in
    if (if qr =? 0 then negb (qdcount =? 1) || negb (ancount =? 0) || negb (nscount =? 0)
        else negb (qdcount =? 1))
    then Done (ARES_EBADQUERY, o)
    else
      let o := mk_query_out (store (is_response o) (if qr =? 0 then 0 else 1)) (type_out o)
                 (store (qid_out o) qid) (question_out o) (question_len o) in
      let aptr := HFIXEDSZ in
      let! e := dns_expand_name_maxlen aptr abuf alen (question_out o) in
      match e with
      | inl status => Done (status, o)
      | inr (name, len, expanded_len) =>
          let o := mk_query_out (is_response o) (type_out o) (qid_out o) name
                     (store (question_len o) expanded_len) in
          if alen <? aptr + len + QFIXEDSZ then Done (ARES_EBADQUERY, o)
          else
            let aptr := aptr + len in
            let! q_type := access (DNS_QUESTION_TYPE abuf aptr) in
            let! q_class := access (DNS_QUESTION_CLASS abuf aptr) in
            if negb (q_class =? ns_c_in) then Done (ARES_EBADQUERY, o)
            else Done (ARES_SUCCESS,
                   mk_query_out (is_response o) (store (type_out o) q_type) (qid_out o)
                     (question_out o) (question_len o))
      end.

(** ** ares_parse_a_aaaa_reply.c *)

Definition tolower (c : Z) : Z := if (65 <=? c) && (c <=? 90) then c + 32 else c.

(** [strcasecmp(s1, s2) == 0]; a string that is not terminated within its
    buffer is read beyond it. *)
Fixpoint strcasecmp (s1 s2 : list Z) : option bool :=
  match s1, s2 with
  | c1 :: s1, c2 :: s2 =>
      if tolower c1 =? tolower c2 then if c1 =? 0 then Some true else strcasecmp s1 s2
      else Some false
  | _, _ => None
  end.

(** The locals of the loop over the answers.  [hostname] points either to
    [hostname_out] or, once a CNAME was seen, to [rr_data]. *)
Record reply := mk_reply {
  aptr : Z;
  naddrs : Z;
  n6addrs : Z;
  naliases : Z;
  cname_ttl : Z;
  hostname_is_rr_data : bool;
  rr_name : list Z;
  rr_data : list Z;
  in_addrs_out : list (list Z);
  in6_addrs_out : list (list Z)
}.

Definition set_aptr (r : reply) (p : Z) : reply :=
  mk_reply p (naddrs r) (n6addrs r) (naliases r) (cname_ttl r) (hostname_is_rr_data r)
    (rr_name r) (rr_data r) (in_addrs_out r) (in6_addrs_out r).

Definition set_rr_name (r : reply) (s : list Z) : reply :=
  mk_reply (aptr r) (naddrs r) (n6addrs r) (naliases r) (cname_ttl r) (hostname_is_rr_data r)
    s (rr_data r) (in_addrs_out r) (in6_addrs_out r).

Section answers.
Context (abuf : list Z) (alen : Z) (hostname_out : list Z) (max_in_addrs max_in6_addrs : Z).

Definition hostname (r : reply) : list Z :=
  if hostname_is_rr_data r then rr_data r else hostname_out.

(** The A and AAAA branches: the status and whether the loop is left. *)
Definition answer_address (r : reply) (rr_type rr_class rr_len : Z) : run (reply * bool) :=
  let! a := (if (rr_class =? ns_c_in) && (rr_type =? T_A) && (rr_len =? 4)
             then access (strcasecmp (rr_name r) (hostname r)) else Done false) in
  if a : bool then
    let! at_ := (if naddrs r <? max_in_addrs then
                   if alen <? aptr r + 4 then Done None
                   else
                     let! addr := access (mem_read abuf (aptr r) 4) in
                     let! arr := access (wr (in_addrs_out r) (naddrs r) addr) in
                     Done (Some arr)
                 else Done (Some (in_addrs_out r))) in
    match at_ with
    | None => Done (r, true)
    | Some arr =>
        Done (mk_reply (aptr r) (naddrs r + 1) (n6addrs r) (naliases r) (cname_ttl r)
                (hostname_is_rr_data r) (rr_name r) (rr_data r) arr (in6_addrs_out r), false)
    end
  else
    let! a := (if (rr_class =? ns_c_in) && (rr_type =? T_AAAA) && (rr_len =? 16)
               then access (strcasecmp (rr_name r) (hostname r)) else Done false) in
    if a : bool then
      let! at_ := (if n6addrs r <? max_in6_addrs then
                     if alen <? aptr r + 16 then Done None
                     else
                       let! addr := access (mem_read abuf (aptr r) 16) in
                       let! arr := access (wr (in6_addrs_out r) (n6addrs r) addr) in
                       Done (Some arr)
                   else Done (Some (in6_addrs_out r))) in
      match at_ with
      | None => Done (r, true)
      | Some arr =>
          Done (mk_reply (aptr r) (naddrs r) (n6addrs r + 1) (naliases r) (cname_ttl r)
                  (hostname_is_rr_data r) (rr_name r) (rr_data r) (in_addrs_out r) arr, false)
      end
    else Done (r, false).

(** The CNAME branch: [inl] is a failed expansion. *)
Definition answer_cname (r : reply) (rr_type rr_class rr_ttl : Z) : run (reply * Z) :=
  if (rr_class =? ns_c_in) && (rr_type =? T_CNAME) then
    let r := mk_reply (aptr r) (naddrs r) (n6addrs r) (naliases r + 1) (cname_ttl r)
               (hostname_is_rr_data r) (rr_name r) (rr_data r) (in_addrs_out r) (in6_addrs_out r) in
    let! e := dns_expand_name_maxlen (aptr r) abuf alen (rr_data r) in
    match e with
    | inl status => Done (r, status)
    | inr (data, _, _) =>
        Done (mk_reply (aptr r) (naddrs r) (n6addrs r) (naliases r)
                (if rr_ttl <? cname_ttl r then rr_ttl else cname_ttl r) true
                (rr_name r) data (in_addrs_out r) (in6_addrs_out r), ARES_SUCCESS)
    end
  else Done (r, ARES_SUCCESS).

(** One answer: the state and the status with which the loop is left, or
    [ARES_SUCCESS] to go on. *)
Definition answer_step (r : reply) : run (reply * Z) :=
  let! e := dns_expand_name_maxlen (aptr r) abuf alen (rr_name r) in
  match e with
  | inl status => Done (r, status)
  | inr (name, len, _) =>
      let r := set_aptr (set_rr_name r name) (aptr r + len) in
      if alen <? aptr r + RRFIXEDSZ then Done (r, ARES_EBADRESP)
      else
        let! rr_type := access (DNS_RR_TYPE abuf (aptr r)) in
        let! rr_class := access (DNS_RR_CLASS abuf (aptr r)) in
        let! rr_len := access (DNS_RR_LEN abuf (aptr r)) in
        let! rr_ttl := access (DNS_RR_TTL abuf (aptr r)) in
        let r := set_aptr r (aptr r + RRFIXEDSZ) in
        if alen <? aptr r + rr_len then Done (r, ARES_EBADRESP)
        else
          let! rb := answer_address r rr_type rr_class rr_len in
          if rb.2 then Done (rb.1, ARES_EBADRESP)
          else
            let! rs := answer_cname rb.1 rr_type rr_class (s32 rr_ttl) in
            if negb (rs.2 =? ARES_SUCCESS) then Done rs
            else
              let r := set_aptr rs.1 (aptr rs.1 + rr_len) in
              if alen <? aptr r then Done (r, ARES_EBADRESP) else Done (r, ARES_SUCCESS)
  end.

(** [for (i = 0; i < (int)ancount; i++)]. *)
Fixpoint answers (n : nat) (r : reply) : run (reply * Z) :=
  match n with
  | O => Done (r, ARES_SUCCESS)
  | S n =>
      let! rs := answer_step r in
      if rs.2 =? ARES_SUCCESS then answers n rs.1 else Done rs
  end.
End answers.

(** What the out-parameters point to; [None] is a null pointer. *)
Record reply_out := mk_reply_out {
  out_hostname : list Z;
  hostname_len : option Z;
  out_in_addrs : option (list (list Z));
  num_in_addrs : option Z;
  out_in6_addrs : option (list (list Z));
  num_in6_addrs : option Z
}.

(** [(addrs && num) ? *num : 0]. *)
Definition max_addrs (addrs : option (list (list Z))) (num : option Z) : Z :=
  match addrs, num with Some _, Some n => n | _, _ => 0 end.

(** [stack_name] and [stack_data] are what the two local buffers hold on entry. *)
Definition dns_parse_a_aaaa_reply (stack_name stack_data : list Z) (abuf : list Z) (alen : Z)
    (o : reply_out) : run (Z * reply_out) :=
  let max_in_addrs := max_addrs (out_in_addrs o) (num_in_addrs o) in
  let max_in6_addrs := max_addrs (out_in6_addrs o) (num_in6_addrs o) in
  let o := mk_reply_out (out_hostname o) (hostname_len o) (out_in_addrs o) (store (num_in_addrs o) 0)
             (out_in6_addrs o) (store (num_in6_addrs o) 0) in
  if alen <? HFIXEDSZ then Done (ARES_EBADRESP, o)
  else
    let! qr := access (DNS_HEADER_QR abuf) in
    if negb (qr =? 1) then Done (ARES_EBADRESP, o)
    else
      let! qdcount := access (DNS_HEADER_QDCOUNT abuf) in
      let! ancount := access (DNS_HEADER_ANCOUNT abuf) in
      if negb (qdcount =? 1) then Done (ARES_EBADRESP, o)
      else
        let! e := dns_expand_name_maxlen HFIXEDSZ abuf alen (out_hostname o) in
        match e with
        | inl status => Done (status, o)
        | inr (name, len, expanded_len) =>
            let o := mk_reply_out name (store (hostname_len o) expanded_len) (out_in_addrs o)
                       (num_in_addrs o) (out_in6_addrs o) (num_in6_addrs o) in
            if alen <? HFIXEDSZ + len + QFIXEDSZ then Done (ARES_EBADRESP, o)
            else
              let r := mk_reply (HFIXEDSZ + len + QFIXEDSZ) 0 0 0 INT_MAX false stack_name stack_data
                         (default [] (out_in_addrs o)) (default [] (out_in6_addrs o)) in
              let! rs := answers abuf alen (out_hostname o) max_in_addrs max_in6_addrs
                           (Z.to_nat (s32 ancount)) r in
              let '(r, status) := rs in
              let o := mk_reply_out (out_hostname o) (hostname_len o)
                         ((fun _ => in_addrs_out r) <$> out_in_addrs o)
                         (store (num_in_addrs o)
                            (if naddrs r <? max_in_addrs then naddrs r else max_in_addrs))
                         ((fun _ => in6_addrs_out r) <$> out_in6_addrs o)
                         (store (num_in6_addrs o)
                            (if n6addrs r <? max_in6_addrs then n6addrs r else max_in6_addrs)) in
              Done (if (status =? ARES_SUCCESS) && (naddrs r =? 0) && (n6addrs r =? 0) && (naliases r =? 0)
                    then ARES_ENODATA else status, o)
        end.
End messages.

(** * RFC 1035 names *)

(** [encodes abuf pos ls k e]: at [pos] the packet encodes the labels [ls], using
    [k] indirections; what follows the name starts at [e]. *)
Inductive encodes (abuf : list Z) : Z -> list (list Z) -> Z -> Z -> Prop :=
| enc_root pos :
    rd abuf pos = Some 0 -> encodes abuf pos [] 0 (pos + 1)
| enc_label pos len l ls k e :
    rd abuf pos = Some len -> 0 < len < 64 -> mem_read abuf (pos + 1) len = Some l ->
    encodes abuf (pos + 1 + len) ls k e -> encodes abuf pos (l :: ls) k e
| enc_pointer pos b0 b1 ls k e :
    rd abuf pos = Some b0 -> 192 <= b0 < 256 -> rd abuf (pos + 1) = Some b1 ->
    encodes abuf (256 * (b0 - 192) + b1) ls k e -> encodes abuf pos ls (k + 1) (pos + 2).

(** A label as it is written, and a name: the labels, separated by periods. *)
Definition escape (l : list Z) : list Z := l ≫= fun c => if escaped c then [92; c] else [c].
Definition dotted (ls : list (list Z)) : list Z := ls ≫= fun l => escape l ++ [46].
Definition expanded (ls : list (list Z)) : list Z := take (length (dotted ls) - 1) (dotted ls).

Lemma dotted_cons (l : list Z) (ls : list (list Z)) : dotted (l :: ls) = escape l ++ 46 :: dotted ls.
Proof. unfold dotted. simpl. by rewrite <- app_assoc. Qed.

(** ** Bytes *)

Lemma land_192 (b : Z) :
  byte_ok b ->
  Z.land b 192 = 64 * (b / 64) /\ Z.land b (Z.lnot 192) = b mod 64.
Proof.
  intros Hb. assert (H : forall n, (n < 256)%nat ->
    Z.land (Z.of_nat n) 192 = 64 * (Z.of_nat n / 64) /\
    Z.land (Z.of_nat n) (Z.lnot 192) = Z.of_nat n mod 64).
  { intros n Hn. do 256 (destruct n as [|n]; [vm_compute; done|]). lia. }
  specialize (H (Z.to_nat b)). rewrite Z2Nat.id in H by (unfold byte_ok in Hb; lia). apply H.
  unfold byte_ok in Hb. lia.
Qed.

Lemma indirection_eq (b0 b1 : Z) :
  192 <= b0 < 256 -> byte_ok b1 -> indirection b0 b1 = 256 * (b0 - 192) + b1.
Proof.
  intros H0 H1. unfold indirection, INDIR_MASK.
  destruct (land_192 b0) as [_ ->]; [unfold byte_ok; lia|].
  replace (b0 mod 64) with (b0 - 192) by (apply Z.mod_unique with 3; lia).
  rewrite Z.shiftl_mul_pow2 by lia. unfold byte_ok in H1.
  assert (Hl : Z.land ((b0 - 192) * 2 ^ 8) b1 = 0).
  { apply Z.bits_inj'. intros n Hn. rewrite Z.land_spec, Z.bits_0.
    destruct (decide (n < 8)).
    - rewrite Z.mul_pow2_bits_low by lia. done.
    - rewrite <- (Z.mod_small b1 (2 ^ 8)) by lia. rewrite Z.mod_pow2_bits_high by lia. apply andb_false_r. }
  pose proof (Z.add_lor_land ((b0 - 192) * 2 ^ 8) b1) as Ha. lia.
Qed.

Section names.
Context (abuf : list Z) (alen : Z).
Hypothesis Hlen : zlen abuf = alen.
Hypothesis Hbytes : Forall byte_ok abuf.

Lemma rd_byte (pos : Z) : 0 <= pos < alen -> exists b, rd abuf pos = Some b /\ byte_ok b.
Proof.
  intros Hp. destruct (rd_is_Some abuf pos) as [b Hb]; [by rewrite Hlen|]. exists b. split; [done|].
  apply rd_Some in Hb as [_ Hb]. by eapply Forall_lookup_1 in Hbytes.
Qed.

Lemma rd_Some_range (pos b : Z) : rd abuf pos = Some b -> 0 <= pos < alen /\ byte_ok b.
Proof.
  intros Hb. apply rd_Some in Hb as [H0 Hb]. split.
  - apply lookup_lt_Some in Hb. unfold zlen in Hlen. lia.
  - by eapply Forall_lookup_1 in Hbytes.
Qed.

Lemma encodes_range (pos e k : Z) (ls : list (list Z)) :
  encodes abuf pos ls k e -> 0 <= pos < alen /\ 0 <= k /\ pos < e <= alen.
Proof.
  induction 1 as [pos Hr|pos len l ls k e Hr Hl Hm _ IH|pos b0 b1 ls k e Hr Hb Hr1 _ IH].
  - apply rd_Some_range in Hr as [? _]. lia.
  - apply rd_Some_range in Hr as [? _]. lia.
  - apply rd_Some_range in Hr as [? _]. apply rd_Some_range in Hr1 as [? _]. lia.
Qed.

(** The encoding at a position is unique. *)
Lemma encodes_fun (pos e e' k k' : Z) (ls ls' : list (list Z)) :
  encodes abuf pos ls k e -> encodes abuf pos ls' k' e' -> ls = ls' /\ k = k' /\ e = e'.
Proof.
  intros H. revert ls' k' e'.
  induction H as [pos Hr|pos len l ls k e Hr Hl Hm _ IH|pos b0 b1 ls k e Hr Hb Hr1 _ IH];
    intros ls' k' e'; inversion 1 as [? Hr'|? len' l' ? ? ? Hr' Hl' Hm' H'|? c0 c1 ? ? ? Hr' Hb' Hr1' H'];
    subst; rewrite Hr in Hr'; simplify_eq; try lia.
  - done.
  - destruct (IH _ _ _ H') as (-> & -> & ->). done.
  - destruct (IH _ _ _ H') as (-> & -> & _). done.
Qed.

(** ** Lengths *)

Lemma length_escape_cons (c : Z) (l : list Z) :
  zlen (escape (c :: l)) = (if escaped c then 2 else 1) + zlen (escape l).
Proof.
  change (escape (c :: l)) with ((if escaped c then [92; c] else [c]) ++ escape l).
  rewrite zlen_app. by destruct (escaped c).
Qed.

Lemma mem_read_S (pos : Z) (len : nat) (l : list Z) :
  mem_read abuf pos (Z.of_nat (S len)) = Some l ->
  exists c l', l = c :: l' /\ rd abuf pos = Some c /\ mem_read abuf (pos + 1) (Z.of_nat len) = Some l'.
Proof.
  intros (Hp & Hl & Hb & Hk)%mem_read_spec.
  destruct l as [|c l]; [unfold zlen in Hl; simpl in Hl; lia|]. exists c, l. split; [done|].
  pose proof (Hk 0 ltac:(lia)) as H0. rewrite Z.add_0_r in H0. split; [by rewrite H0|].
  apply mem_read_spec. unfold zlen in *. simpl in Hl. split_and!; [lia|lia|lia|].
  intros k Hk'. specialize (Hk (k + 1) ltac:(lia)). rewrite Z.add_assoc, (Z.add_shuffle0 pos) in Hk.
  rewrite Hk. unfold rd. destruct (Z.leb_spec 0 (k + 1)), (Z.leb_spec 0 k); try lia.
  replace (Z.to_nat (k + 1)) with (S (Z.to_nat k)) by lia. done.
Qed.

Lemma label_length_spec (len : nat) (pos n : Z) (l : list Z) :
  mem_read abuf pos (Z.of_nat len) = Some l ->
  label_length abuf pos len n = Done (n + zlen (escape l)).
Proof.
  revert pos n l. induction len as [|len IH]; intros pos n l Hm.
  - apply mem_read_zlen in Hm. destruct l; [|unfold zlen in Hm; simpl in Hm; lia].
    simpl. f_equal. unfold zlen. simpl. lia.
  - apply mem_read_S in Hm as (c & l' & -> & Hc & Hm). cbn [label_length]. rewrite Hc.
    cbn [access run_bind]. rewrite (IH _ _ l' Hm), length_escape_cons. f_equal. lia.
Qed.

Lemma encodes_inv (pos b e k : Z) (ls : list (list Z)) :
  rd abuf pos = Some b -> encodes abuf pos ls k e ->
  (b = 0 /\ ls = [] /\ k = 0 /\ e = pos + 1) \/
  (0 < b < 64 /\ exists l ls', ls = l :: ls' /\ mem_read abuf (pos + 1) b = Some l /\
     encodes abuf (pos + 1 + b) ls' k e) \/
  (192 <= b < 256 /\ e = pos + 2 /\ exists b1 k' e', rd abuf (pos + 1) = Some b1 /\ k = k' + 1 /\
     encodes abuf (256 * (b - 192) + b1) ls k' e').
Proof.
  intros Hb. inversion 1 as [? Hr|? len l ls' k' e' Hr Hl Hm H'|? b0 b1 ls' k' e' Hr Hb0 Hr1 H'];
    subst; rewrite Hb in Hr; injection Hr as ->.
  - by left.
  - right. left. eauto 10.
  - right. right. eauto 10.
Qed.

(** The most indirections [dns_name_length] follows. *)
Definition max_indirs : Z := Z.min MAX_INDIRS alen.

Definition finish (n : Z) : Z := if n =? 0 then n else n - 1.

Lemma zlen_dotted_cons (l : list Z) (ls : list (list Z)) :
  zlen (dotted (l :: ls)) = zlen (escape l) + 1 + zlen (dotted ls).
Proof. rewrite dotted_cons, zlen_app. unfold zlen. simpl. lia. Qed.

Lemma name_length_loop_spec (fuel : nat) (pos n indir : Z) :
  0 <= pos < alen -> 0 <= indir <= max_indirs ->
  (max_indirs - indir) * (alen + 1) + (alen - pos) <= Z.of_nat fuel ->
  (exists ls k e, encodes abuf pos ls k e /\ indir + k <= max_indirs /\
     name_length_loop fuel abuf alen pos n indir = Done (finish (n + zlen (dotted ls)))) \/
  ((forall ls k e, encodes abuf pos ls k e -> max_indirs < indir + k) /\
     name_length_loop fuel abuf alen pos n indir = Done (-1)).
Proof.
  revert pos n indir. induction fuel as [|fuel IH]; intros pos n indir Hpos Hind Hfuel;
    [nia|].
  destruct (rd_byte pos Hpos) as (b & Hb & Hbok). unfold byte_ok in Hbok.
  cbn [name_length_loop]. rewrite Hb. cbn [access run_bind].
  destruct (Z.eqb_spec b 0) as [->|Hb0].
  { left. exists [], 0, (pos + 1). split; [by constructor|]. split; [lia|].
    unfold dotted. simpl. unfold finish. by rewrite Z.add_0_r. }
  unfold INDIR_MASK. destruct (land_192 b Hbok) as [-> _].
  assert (Hdiv : b = 64 * (b / 64) + b mod 64) by (apply Z.div_mod; lia).
  pose proof (Z.mod_pos_bound b 64 ltac:(lia)) as Hmod.
  destruct (Z.eqb_spec (64 * (b / 64)) 192) as [Htop|Htop]; [|destruct (Z.eqb_spec (64 * (b / 64)) 0) as [Hz|Hz]].
  - assert (Hbr : 192 <= b < 256) by lia.
    destruct (Z.leb_spec alen (pos + 1)) as [Hp1|Hp1].
    { right. split; [|done]. intros ls k e He.
      destruct (encodes_inv _ _ _ _ _ Hb He) as [?|[?|(_ & _ & b1 & k' & e' & Hr1 & _)]]; [lia|lia|].
      apply rd_Some_range in Hr1 as [? _]. lia. }
    destruct (rd_byte (pos + 1) ltac:(lia)) as (b1 & Hb1 & Hb1ok). rewrite Hb1. cbn [access run_bind].
    rewrite indirection_eq by done. unfold byte_ok in Hb1ok.
    destruct (Z.leb_spec alen (256 * (b - 192) + b1)) as [Ho|Ho].
    { right. split; [|done]. intros ls k e He.
      destruct (encodes_inv _ _ _ _ _ Hb He) as [?|[?|(_ & _ & c1 & k' & e' & Hr1 & _ & He')]]; [lia|lia|].
      rewrite Hb1 in Hr1. injection Hr1 as ->. apply encodes_range in He'. lia. }
    destruct (Z.ltb_spec alen (indir + 1)) as [Hi1|Hi1], (Z.ltb_spec MAX_INDIRS (indir + 1)) as [Hi2|Hi2];
      cbn [orb].
    1-3: right; split; [|done]; intros ls k e He;
      destruct (encodes_inv _ _ _ _ _ Hb He) as [?|[?|(_ & _ & c1 & k' & e' & Hr1 & -> & He')]];
      [lia|lia|]; apply encodes_range in He'; unfold max_indirs, MAX_INDIRS in *; lia.
    destruct (IH (256 * (b - 192) + b1) n (indir + 1)) as [(ls & k & e & He & Hk & Hr)|[Hno Hr]].
    + lia.
    + unfold max_indirs in *. lia.
    + nia.
    + left. exists ls, (k + 1), (pos + 2). split; [by econstructor|]. split; [lia|done].
    + right. split; [|done]. intros ls k e He.
      destruct (encodes_inv _ _ _ _ _ Hb He) as [?|[?|(_ & _ & c1 & k' & e' & Hr1 & -> & He')]]; [lia|lia|].
      rewrite Hb1 in Hr1. injection Hr1 as ->. apply Hno in He'. lia.
  - assert (Hbr : 0 < b < 64) by lia.
    destruct (Z.leb_spec alen (pos + b + 1)) as [Hp1|Hp1].
    { right. split; [|done]. intros ls k e He.
      destruct (encodes_inv _ _ _ _ _ Hb He) as [?|[(_ & l & ls' & _ & _ & He')|?]]; [lia| |lia].
      apply encodes_range in He'. lia. }
    destruct (mem_read abuf (pos + 1) b) as [l|] eqn:Hm.
    2:{ unfold mem_read in Hm. destruct (Z.leb_spec 0 (pos + 1)), (Z.leb_spec 0 b),
        (Z.leb_spec (pos + 1 + b) (Z.of_nat (length abuf))); simpl in Hm; try done; unfold zlen in Hlen; lia. }
    rewrite (label_length_spec _ _ _ l) by (rewrite Z2Nat.id; [done|lia]). cbn [run_bind].
    destruct (IH (pos + 1 + b) (n + zlen (escape l) + 1) indir) as [(ls & k & e & He & Hk & Hr)|[Hno Hr]];
      [lia|done|lia| |].
    + left. exists (l :: ls), k, e. split; [by eapply enc_label|]. split; [done|].
      rewrite Hr, zlen_dotted_cons. do 2 f_equal. lia.
    + right. split; [|done]. intros ls k e He.
      destruct (encodes_inv _ _ _ _ _ Hb He) as [?|[(_ & l' & ls' & _ & _ & He')|?]]; [lia| |lia].
      by apply Hno in He'.
  - right. split; [|done]. intros ls k e He.
    destruct (encodes_inv _ _ _ _ _ Hb He) as [?|[?|?]]; lia.
Qed.

(** ** Expansion *)

Lemma wr_app (pre rest : list Z) (c x : Z) :
  wr (pre ++ c :: rest) (zlen pre) x = Some (pre ++ x :: rest).
Proof.
  rewrite wr_in_range.
  - unfold zlen. rewrite Nat2Z.id, insert_app_r_alt, Nat.sub_diag by lia. done.
  - rewrite zlen_app. unfold zlen. simpl. lia.
Qed.

Lemma zlen_snoc (pre : list Z) (x : Z) : zlen (pre ++ [x]) = zlen pre + 1.
Proof. by rewrite zlen_app. Qed.

Lemma copy_label_spec (len : nat) (p : Z) (l pre rest : list Z) :
  mem_read abuf p (Z.of_nat len) = Some l -> zlen (escape l) <= zlen rest ->
  copy_label abuf p len (pre ++ rest) (zlen pre) =
  Done ((pre ++ escape l) ++ drop (length (escape l)) rest, zlen (pre ++ escape l)).
Proof.
  revert p l pre rest. induction len as [|len IH]; intros p l pre rest Hm Hr.
  - apply mem_read_zlen in Hm. destruct l; [|unfold zlen in Hm; simpl in Hm; lia].
    simpl. by rewrite app_nil_r, drop_0.
  - apply mem_read_S in Hm as (c & l' & -> & Hc & Hm).
    cbn [copy_label]. rewrite Hc. cbn [access run_bind].
    rewrite length_escape_cons in Hr. pose proof (zlen_nonneg (escape l')) as Hn.
    change (escape (c :: l')) with ((if escaped c then [92; c] else [c]) ++ escape l').
    destruct (escaped c).
    + destruct rest as [|r0 [|r1 rest]]; [unfold zlen in *; simpl in *; lia..|].
      rewrite wr_app. cbn [access run_bind fst snd].
      replace (pre ++ 92 :: r1 :: rest) with ((pre ++ [92]) ++ r1 :: rest) by by rewrite <- app_assoc.
      rewrite <- (zlen_snoc pre 92), wr_app. cbn [access run_bind].
      replace ((pre ++ [92]) ++ c :: rest) with ((pre ++ [92; c]) ++ rest) by by rewrite <- !app_assoc.
      replace (zlen (pre ++ [92]) + 1) with (zlen (pre ++ [92; c])) by (rewrite !zlen_app; unfold zlen; simpl; lia).
      rewrite (IH _ l') by (try done; unfold zlen in *; simpl in *; lia). by rewrite <- !app_assoc.
    + destruct rest as [|r0 rest]; [unfold zlen in *; simpl in *; lia|].
      cbn [run_bind fst snd]. rewrite wr_app. cbn [access run_bind].
      replace (pre ++ c :: rest) with ((pre ++ [c]) ++ rest) by by rewrite <- app_assoc.
      rewrite <- (zlen_snoc pre c).
      rewrite (IH _ l') by (try done; unfold zlen in *; simpl in *; lia). by rewrite <- !app_assoc.
Qed.

Lemma encodes_steps (pos e k : Z) (ls : list (list Z)) :
  encodes abuf pos ls k e -> zlen ls <= k * alen + (alen - pos).
Proof.
  induction 1 as [pos Hr|pos len l ls k e Hr Hl Hm He IH|pos b0 b1 ls k e Hr Hb Hr1 He IH].
  - apply rd_Some_range in Hr as [? _]. unfold zlen. simpl. lia.
  - unfold zlen in *. simpl. lia.
  - apply encodes_range in He. apply rd_Some_range in Hr as [? _]. lia.
Qed.

Lemma expand_loop_spec (pos e k : Z) (ls : list (list Z)) :
  encodes abuf pos ls k e ->
  forall (fuel : nat) (encoded : Z) (pre rest : list Z) (enclen : option Z),
  zlen ls + k <= Z.of_nat fuel -> zlen (dotted ls) <= zlen rest ->
  expand_loop fuel abuf encoded pos (pre ++ rest) (zlen pre) enclen =
  Done ((pre ++ dotted ls) ++ drop (length (dotted ls)) rest, zlen (pre ++ dotted ls),
    default (aresx_uztosl (e - encoded)) enclen).
Proof.
  induction 1 as [pos Hr|pos b l ls k e Hr Hl Hm He IH|pos b0 b1 ls k e Hr Hb Hr1 He IH];
    intros fuel encoded pre rest enclen Hfuel Hroom.
  - destruct fuel; cbn [expand_loop]; rewrite Hr; simpl; by rewrite app_nil_r, drop_0.
  - pose proof (proj1 (proj2 (encodes_range _ _ _ _ He))) as Hk.
    destruct fuel as [|fuel]; [unfold zlen in Hfuel; simpl in Hfuel; lia|].
    cbn [expand_loop]. rewrite Hr. cbn [access run_bind].
    destruct (Z.eqb_spec b 0) as [?|_]; [lia|].
    unfold INDIR_MASK. destruct (land_192 b ltac:(unfold byte_ok; lia)) as [-> _].
    rewrite (Z.div_small b 64) by lia. change (64 * 0 =? 192) with false. cbv iota.
    rewrite zlen_dotted_cons in Hroom.
    pose proof (zlen_nonneg (dotted ls)) as Hd.
    rewrite (copy_label_spec _ _ l) by (try (rewrite Z2Nat.id by lia; done); lia).
    cbn [run_bind fst snd]. rewrite dotted_cons.
    destruct (drop (length (escape l)) rest) as [|r rest'] eqn:Hdrop.
    { apply (f_equal zlen) in Hdrop. unfold zlen in *. rewrite length_drop in Hdrop. simpl in Hdrop. lia. }
    rewrite wr_app. cbn [access run_bind].
    replace ((pre ++ escape l) ++ 46 :: rest') with ((pre ++ escape l ++ [46]) ++ rest')
      by by rewrite <- !app_assoc.
    replace (zlen (pre ++ escape l) + 1) with (zlen (pre ++ escape l ++ [46]))
      by (rewrite !zlen_app; unfold zlen; simpl; lia).
    assert (Hr' : rest' = drop (length (escape l) + 1) rest).
    { rewrite <- drop_drop, Hdrop. done. }
    rewrite IH.
    + replace ((pre ++ escape l ++ [46]) ++ dotted ls) with (pre ++ escape l ++ 46 :: dotted ls)
        by by rewrite <- !app_assoc.
      replace (drop (length (escape l ++ 46 :: dotted ls)) rest) with (drop (length (dotted ls)) rest');
        [done|].
      rewrite Hr', drop_drop, length_app. f_equal. simpl. lia.
    + unfold zlen in Hfuel |- *. simpl in Hfuel. lia.
    + rewrite Hr'. unfold zlen in *. rewrite length_drop. lia.
  - pose proof (encodes_range _ _ _ _ He) as (_ & Hk & _).
    destruct fuel as [|fuel]; [unfold zlen in Hfuel; lia|].
    cbn [expand_loop]. rewrite Hr. cbn [access run_bind].
    destruct (Z.eqb_spec b0 0) as [?|_]; [lia|].
    unfold INDIR_MASK. destruct (land_192 b0 ltac:(unfold byte_ok; lia)) as [-> _].
    replace (64 * (b0 / 64)) with 192 by (assert (b0 / 64 = 3) as -> by (symmetry; apply Z.div_unique with (b0 - 192); lia); lia).
    rewrite Z.eqb_refl, Hr1. cbn [access run_bind].
    rewrite indirection_eq by (try done; by apply rd_Some_range in Hr1 as [_ ?]).
    rewrite IH by lia. done.
Qed.

Lemma finish_dotted (ls : list (list Z)) : finish (zlen (dotted ls)) = zlen (expanded ls).
Proof.
  unfold finish, expanded, zlen. rewrite length_take. destruct (Z.eqb_spec (Z.of_nat (length (dotted ls))) 0); lia.
Qed.

Lemma dns_expand_name_spec (pos e k : Z) (ls : list (list Z)) (s : list Z) :
  encodes abuf pos ls k e -> k <= max_indirs -> alen < 2 ^ 31 ->
  zlen (expanded ls) + 1 <= zlen s ->
  dns_expand_name pos abuf alen s =
  Done (expanded ls ++ 0 :: drop (length (expanded ls) + 1) s, e - pos).
Proof.
  intros He Hk Hal Hs. pose proof (encodes_range _ _ _ _ He) as (Hpos & Hk0 & Her).
  unfold dns_expand_name. change 0 with (zlen (@nil Z)) at 1. change s with ([] ++ s) at 1.
  rewrite <- finish_dotted in Hs. unfold finish in Hs.
  assert (Hd : zlen (dotted ls) <= zlen s) by (destruct (Z.eqb_spec (zlen (dotted ls)) 0); lia).
  rewrite (expand_loop_spec _ _ _ _ He); [| |done].
  2:{ pose proof (encodes_steps _ _ _ _ He). unfold name_fuel, max_indirs, MAX_INDIRS in *. nia. }
  cbn [run_bind app default]. unfold aresx_uztosl. change 2147483647 with (2 ^ 31 - 1).
  rewrite land_mask, Z.mod_small by lia.
  replace (length (dotted ls)) with (length (expanded ls) + (length (dotted ls) - length (expanded ls)))%nat
    by (unfold expanded; rewrite length_take; lia).
  destruct (decide (dotted ls = [])) as [Hnil|Hne].
  - unfold expanded. rewrite Hnil. destruct s as [|c s]; [unfold zlen in Hs; rewrite Hnil in Hs; simpl in Hs; lia|].
    change (wr (@app Z [] (drop (length (take (length []) []) + (length [] - length (take (length []) []))) (c :: s))) _ 0)
      with (wr (@app Z [] (c :: s)) (zlen (@nil Z)) 0).
    simpl. by rewrite drop_0.
  - assert (Hpos' : 0 < zlen (dotted ls)) by (unfold zlen; destruct (dotted ls); [done|simpl; lia]).
    destruct (Z.ltb_spec 0 (zlen (dotted ls))); [|lia].
    assert (Hlast : exists c, dotted ls = expanded ls ++ [c]).
    { destruct (dotted ls) as [|c l _] eqn:Hc using rev_ind; [done|].
      exists c. unfold expanded. rewrite Hc, length_app. simpl.
      by rewrite Nat.add_sub, take_app_length. }
    destruct Hlast as [c Hc].
    assert (Hlen1 : zlen (dotted ls) - 1 = zlen (expanded ls)) by (rewrite Hc, zlen_snoc; lia).
    rewrite Hlen1. rewrite Hc at 1. rewrite <- app_assoc. cbn [app]. rewrite wr_app. cbn [access run_bind].
    do 4 f_equal. f_equal. unfold zlen in Hlen1. lia.
Qed.

Lemma dns_name_length_spec (pos : Z) :
  0 <= pos ->
  (exists ls k e, encodes abuf pos ls k e /\ k <= max_indirs /\
     dns_name_length pos abuf alen = Done (zlen (expanded ls))) \/
  ((forall ls k e, encodes abuf pos ls k e -> max_indirs < k) /\
     dns_name_length pos abuf alen = Done (-1)).
Proof.
  intros Hpos. unfold dns_name_length. destruct (Z.leb_spec alen pos) as [Hle|Hlt].
  - right. split; [|done]. intros ls k e He%encodes_range. lia.
  - destruct (name_length_loop_spec (name_fuel alen) pos 0 0) as [(ls & k & e & He & Hk & ->)|[Hno ->]].
    + lia.
    + unfold max_indirs, MAX_INDIRS. lia.
    + unfold name_fuel, max_indirs, MAX_INDIRS. nia.
    + left. exists ls, k, e. by rewrite <- finish_dotted.
    + right. split; [|done]. intros ls k e He. by apply Hno in He.
Qed.

(** A name the parser accepts at [pos], and the end of its encoding. *)
Definition name_at (pos : Z) (ls : list (list Z)) (e : Z) : Prop :=
  exists k, encodes abuf pos ls k e /\ k <= max_indirs /\ zlen (expanded ls) < DNS_NAME_MAX_LENGTH.

(** What the buffer [s] holds when [ls] has been expanded into it. *)
Definition written (ls : list (list Z)) (s : list Z) : list Z :=
  expanded ls ++ 0 :: drop (length (expanded ls) + 1) s.

Lemma zlen_written (ls : list (list Z)) (s : list Z) :
  zlen (expanded ls) < zlen s -> zlen (written ls s) = zlen s.
Proof.
  clear Hlen Hbytes. intros Hs. unfold written, zlen in *. rewrite length_app. simpl. rewrite length_drop. lia.
Qed.

Lemma expand_ok (pos e : Z) (ls : list (list Z)) (s : list Z) :
  alen < 2 ^ 31 -> zlen s = DNS_NAME_MAX_LENGTH -> name_at pos ls e ->
  dns_expand_name_maxlen pos abuf alen s = Done (inr (written ls s, e - pos, zlen (expanded ls))).
Proof.
  intros Hal Hs (k & He & Hk & Hl). pose proof (encodes_range _ _ _ _ He) as (Hpos & _).
  unfold dns_expand_name_maxlen.
  destruct (dns_name_length_spec pos) as [(ls' & k' & e' & He' & Hk' & ->)|[Hno _]];
    [lia| |by apply Hno in He; lia].
  destruct (encodes_fun _ _ _ _ _ _ _ He He') as (<- & _ & _). cbn [run_bind].
  pose proof (zlen_nonneg (expanded ls)).
  destruct (Z.ltb_spec (zlen (expanded ls)) 0); [lia|].
  destruct (Z.ltb_spec DNS_NAME_MAX_LENGTH (zlen (expanded ls) + 1)); [lia|].
  by rewrite (dns_expand_name_spec _ _ _ _ _ He) by lia.
Qed.

Lemma expand_cases (pos : Z) (s : list Z) :
  0 <= pos -> alen < 2 ^ 31 -> zlen s = DNS_NAME_MAX_LENGTH ->
  (exists ls e, name_at pos ls e) \/
  ((forall ls e, ~ name_at pos ls e) /\
   exists status, dns_expand_name_maxlen pos abuf alen s = Done (inl status) /\
     (status = ARES_EBADNAME \/ status = ARES_ENOMEM)).
Proof.
  intros Hpos Hal Hs. unfold dns_expand_name_maxlen.
  destruct (dns_name_length_spec pos Hpos) as [(ls & k & e & He & Hk & ->)|[Hno ->]]; cbn [run_bind].
  - destruct (decide (zlen (expanded ls) < DNS_NAME_MAX_LENGTH)) as [Hl|Hl].
    + left. exists ls, e, k. done.
    + right. split.
      * intros ls' e' (k' & He' & _ & Hl'). destruct (encodes_fun _ _ _ _ _ _ _ He He') as (<- & _). done.
      * unfold DNS_NAME_MAX_LENGTH in *.
        destruct (Z.ltb_spec (zlen (expanded ls)) 0); [lia|].
        destruct (Z.ltb_spec 256 (zlen (expanded ls) + 1)); [|lia]. eauto.
  - right. split; [|by eauto]. intros ls e (k & He & Hk & _). apply Hno in He. lia.
Qed.
End names.

(** * Messages: what they say *)

(** The string a buffer holds, as the C functions read it. *)
Fixpoint cstr (s : list Z) : list Z :=
  match s with
  | [] => []
  | c :: s => if c =? 0 then [] else c :: cstr s
  end.

(** Equality of names, ignoring case. *)
Definition same_name (a b : list Z) : bool := bool_decide (tolower <$> cstr a = tolower <$> cstr b).

Lemma tolower_0 (c : Z) : tolower c = 0 <-> c = 0.
Proof. unfold tolower. destruct (Z.leb_spec 65 c), (Z.leb_spec c 90); simpl; lia. Qed.

Lemma strcasecmp_spec (a b x y : list Z) :
  strcasecmp (a ++ 0 :: x) (b ++ 0 :: y) = Some (same_name a b).
Proof.
  unfold same_name. revert b. induction a as [|c a IH]; intros [|d b];
    cbn [app strcasecmp cstr]; change (tolower 0) with 0.
  - done.
  - pose proof (tolower_0 d). destruct (Z.eqb_spec 0 (tolower d)), (Z.eqb_spec d 0); try done; lia.
  - pose proof (tolower_0 c). destruct (Z.eqb_spec (tolower c) 0), (Z.eqb_spec c 0); try done; lia.
  - pose proof (tolower_0 c). pose proof (tolower_0 d).
    destruct (Z.eqb_spec (tolower c) (tolower d)) as [Hcd|Hcd], (Z.eqb_spec c 0) as [Hc|Hc],
      (Z.eqb_spec d 0) as [Hd|Hd]; try done; try lia.
    + rewrite IH, !fmap_cons, Hcd. f_equal. apply bool_decide_ext. split; congruence.
    + rewrite !fmap_cons, bool_decide_eq_false_2 by congruence. done.
Qed.

(** A resource record of the answer section. *)
Record rr := mk_rr {
  owner : list (list Z);
  rtype : Z;
  rclass : Z;
  rdata : list Z;
  target : option (list (list Z))
}.

Definition is_cname (type class : Z) : bool := (class =? ns_c_in) && (type =? T_CNAME).

(** What the answers say of the name asked for: the current end of its CNAME
    chain, and its addresses. *)
Record found := mk_found {
  host : list Z;
  addrs : list (list Z);
  addrs6 : list (list Z);
  aliases : Z
}.

Definition address_of (type len : Z) (f : found) (r : rr) : list (list Z) :=
  if (rclass r =? ns_c_in) && (rtype r =? type) && (zlen (rdata r) =? len) &&
     same_name (expanded (owner r)) (host f)
  then [rdata r] else [].

Definition absorb (f : found) (r : rr) : found :=
  mk_found (match target r with Some ls => expanded ls | None => host f end)
    (addrs f ++ address_of T_A 4 f r) (addrs6 f ++ address_of T_AAAA 16 f r)
    (aliases f + match target r with Some _ => 1 | None => 0 end).

Section meaning.
Context `{AresDns} (abuf : list Z).

(** The record encoded at [pos]; what follows it starts at [next]. *)
Definition rr_at (pos : Z) (r : rr) (next : Z) : Prop :=
  exists e len, name_at abuf (zlen abuf) pos (owner r) e /\ e + RRFIXEDSZ <= zlen abuf /\
    DNS_RR_TYPE abuf e = Some (rtype r) /\ DNS_RR_CLASS abuf e = Some (rclass r) /\
    DNS_RR_LEN abuf e = Some len /\ mem_read abuf (e + RRFIXEDSZ) len = Some (rdata r) /\
    next = e + RRFIXEDSZ + len /\
    if is_cname (rtype r) (rclass r)
    then exists ls e', target r = Some ls /\ name_at abuf (zlen abuf) (e + RRFIXEDSZ) ls e'
    else target r = None.

(** An answer section of [n] records: the records before the first one that is
    malformed, and whether there is none. *)
Inductive answer_section : nat -> Z -> list rr -> bool -> Prop :=
| section_end pos : answer_section 0 pos [] true
| section_bad n pos : (forall r next, ~ rr_at pos r next) -> answer_section (S n) pos [] false
| section_rr n pos r next rs ok :
    rr_at pos r next -> answer_section n next rs ok -> answer_section (S n) pos (r :: rs) ok.

(** A packet with one question: [qr] is 0 for a request and 1 for a response. *)
Definition question_at (qr : Z) (ls : list (list Z)) (e : Z) : Prop :=
  HFIXEDSZ <= zlen abuf /\ DNS_HEADER_QR abuf = Some qr /\ DNS_HEADER_QDCOUNT abuf = Some 1 /\
  name_at abuf (zlen abuf) HFIXEDSZ ls e /\ e + QFIXEDSZ <= zlen abuf.
End meaning.

Section correctness.
Context `{AresDnsLaws} (abuf : list Z).
Hypothesis Hbytes : Forall byte_ok abuf.
Hypothesis Hsize : zlen abuf < 2 ^ 31.

(** ** Queries *)

Lemma name_at_range (pos e : Z) (ls : list (list Z)) :
  name_at abuf (zlen abuf) pos ls e ->
  0 <= pos < zlen abuf /\ pos < e <= zlen abuf /\ zlen (expanded ls) < DNS_NAME_MAX_LENGTH.
Proof.
  intros (k & He & _ & Hl).
  destruct (encodes_range abuf _ eq_refl Hbytes _ _ _ _ He) as (? & _ & ?). done.
Qed.

Lemma name_at_fun (pos e e' : Z) (ls ls' : list (list Z)) :
  name_at abuf (zlen abuf) pos ls e -> name_at abuf (zlen abuf) pos ls' e' -> ls = ls' /\ e = e'.
Proof.
  intros (k & He & _) (k' & He' & _).
  destruct (encodes_fun abuf _ _ _ _ _ _ _ He He') as (? & _ & ?). done.
Qed.

Lemma field_get (bits : Z) (o : option Z) :
  field bits o -> exists v, o = Some v /\ access o = Done v /\ 0 <= v < 2 ^ bits.
Proof. intros (v & -> & Hv). eauto. Qed.

(** A packet [dns_parse_query] accepts. *)
Definition query (qr qid type : Z) (ls : list (list Z)) : Prop :=
  exists e an ns, question_at abuf qr ls e /\ DNS_HEADER_QID abuf = Some qid /\
    DNS_HEADER_ANCOUNT abuf = Some an /\ DNS_HEADER_NSCOUNT abuf = Some ns /\
    (qr = 0 -> an = 0 /\ ns = 0) /\
    DNS_QUESTION_TYPE abuf e = Some type /\ DNS_QUESTION_CLASS abuf e = Some ns_c_in.

Ltac no_query := intros ?qr ?qid ?type ?ls
  (?e & ?an & ?ns & (?Hh & ?Hqr' & ?Hqd' & ?Hname' & ?Hend') & ?Hqid' & ?Han' & ?Hns' & ?H0' & ?Ht' & ?Hc').

(** What a call of [dns_parse_query] does. *)
Definition query_outcome (o : query_out) (result : run (Z * query_out)) : Prop :=
  (exists qr qid type ls, query qr qid type ls /\
     result =
     Done (ARES_SUCCESS, mk_query_out (store (is_response o) qr) (store (type_out o) type)
       (store (qid_out o) qid) (written ls (question_out o)) (store (question_len o) (zlen (expanded ls))))) \/
  ((forall qr qid type ls, ~ query qr qid type ls) /\
   exists status o', result = Done (status, o') /\
     zlen (question_out o') = DNS_NAME_MAX_LENGTH /\
     (status = ARES_EBADQUERY \/ status = ARES_EBADNAME \/ status = ARES_ENOMEM)).

Lemma parse_query_cases (o : query_out) :
  zlen (question_out o) = DNS_NAME_MAX_LENGTH ->
  query_outcome o (dns_parse_query abuf (zlen abuf) o).
Proof.
  intros Ho. unfold query_outcome, dns_parse_query. destruct (Z.ltb_spec (zlen abuf) HFIXEDSZ) as [Hh|Hh].
  { right. split; [no_query; lia|eauto 10]. }
  destruct (header_fields abuf Hbytes Hh) as (Hqr & Hqid & Hqd & Han & Hns).
  apply field_get in Hqr as (qr & Hqr & -> & Hqrr), Hqid as (qid & Hqid & -> & _),
    Hqd as (qd & Hqd & -> & _), Han as (an & Han & -> & _), Hns as (ns & Hns & -> & _).
  cbn [run_bind].
  destruct (if qr =? 0 then _ else _) eqn:Hcounts.
  { right. split; [|eauto 10]. no_query.
    rewrite Hqr in Hqr'. rewrite Hqd in Hqd'. rewrite Han in Han'. rewrite Hns in Hns'. simplify_eq.
    destruct (Z.eqb_spec qr0 0); [destruct (H0' ltac:(done)) as [-> ->]|]; done. }
  cbn [is_response type_out qid_out question_out question_len].
  destruct (expand_cases abuf _ eq_refl Hbytes HFIXEDSZ (question_out o)) as
    [(ls & e & Hname)|(Hno & st & -> & Hst)]; [done|done|done| |].
  2:{ cbn [run_bind]. right. split; [|naive_solver]. no_query. by eapply Hno. }
  rewrite (expand_ok abuf _ eq_refl Hbytes _ _ _ _ Hsize Ho Hname). cbn [run_bind question_out].
  pose proof (name_at_range _ _ _ Hname) as (_ & He & Hl).
  assert (Hw : zlen (written ls (question_out o)) = DNS_NAME_MAX_LENGTH) by (rewrite zlen_written; lia).
  replace (HFIXEDSZ + (e - HFIXEDSZ)) with e by lia.
  destruct (Z.ltb_spec (zlen abuf) (e + QFIXEDSZ)) as [Hq|Hq].
  { right. split; [|eauto 10]. no_query. destruct (name_at_fun _ _ _ _ _ Hname Hname') as [_ <-]. lia. }
  destruct (question_fields abuf e Hbytes ltac:(unfold HFIXEDSZ in *; lia) Hq) as (Ht & Hc).
  apply field_get in Ht as (ty & Ht & -> & _), Hc as (cl & Hc & -> & _). cbn [run_bind].
  destruct (Z.eqb_spec cl ns_c_in) as [->|Hcl]; cbn [negb].
  - left. exists qr, qid, ty, ls. split.
    + exists e, an, ns. destruct (Z.eqb_spec qr 0) as [->|?].
      * rewrite !orb_false_iff, !negb_false_iff, !Z.eqb_eq in Hcounts.
        destruct Hcounts as [[-> ->] ->]. done.
      * rewrite negb_false_iff, Z.eqb_eq in Hcounts. subst. done.
    + destruct (Z.eqb_spec qr 0) as [->|?]; [done|]. replace qr with 1 by lia. done.
  - right. split; [|eauto 10]. no_query. destruct (name_at_fun _ _ _ _ _ Hname Hname') as [_ <-].
    congruence.
Qed.

(** ** Replies *)

Section answers.
Context (hostname_out : list Z) (max max6 : Z).

(** The first [max] addresses found are in the caller's array. *)
Definition holds (m : Z) (arr found : list (list Z)) : Prop :=
  forall i a, found !! i = Some a -> Z.of_nat i < m -> arr !! i = Some a.

Record reply_rep (r : reply) (f : found) : Prop := {
  rep_name : zlen (rr_name r) = DNS_NAME_MAX_LENGTH;
  rep_data : zlen (rr_data r) = DNS_NAME_MAX_LENGTH;
  rep_host : exists rest, hostname hostname_out r = host f ++ 0 :: rest;
  rep_naddrs : naddrs r = zlen (addrs f);
  rep_n6addrs : n6addrs r = zlen (addrs6 f);
  rep_naliases : naliases r = aliases f;
  rep_room : max <= zlen (in_addrs_out r);
  rep_room6 : max6 <= zlen (in6_addrs_out r);
  rep_addrs : holds max (in_addrs_out r) (addrs f);
  rep_addrs6 : holds max6 (in6_addrs_out r) (addrs6 f)
}.

Lemma holds_snoc (m : Z) (arr A : list (list Z)) (a : list Z) :
  holds m arr A -> m <= zlen arr ->
  exists arr', (if zlen A <? m then wr arr (zlen A) a else Some arr) = Some arr' /\
    zlen arr' = zlen arr /\ holds m arr' (A ++ [a]).
Proof.
  intros Hh Hm. destruct (Z.ltb_spec (zlen A) m) as [Hlt|Hge].
  - rewrite wr_in_range by (pose proof (zlen_nonneg A); lia). eexists. split; [done|].
    split; [by rewrite zlen_insert|]. intros i b Hi Him. unfold zlen. rewrite Nat2Z.id.
    apply lookup_app_Some in Hi as [Hi|[Hi Hb]].
    + rewrite list_lookup_insert_ne; [by apply Hh|]. apply lookup_lt_Some in Hi. lia.
    + apply list_lookup_singleton_Some in Hb as [Hb <-].
      replace i with (length A) by lia. apply list_lookup_insert_eq. unfold zlen in *. lia.
  - exists arr. split; [done|]. split; [done|]. intros i b Hi Him. apply Hh; [|done].
    rewrite lookup_app_l in Hi; [done|]. unfold zlen in Hge. lia.
Qed.

#[local] Ltac unchanged :=
  eexists; split; [done|]; rewrite !app_nil_r; by repeat (split; [constructor; eauto|]).

#[local] Ltac stored arr len :=
  cbn [access run_bind]; eexists; (split; [done|]); rewrite app_nil_r;
  (split; [|done]); constructor; cbn; rewrite ?zlen_app, ?len; eauto.

Lemma answer_address_spec (r : reply) (f : found) (rc : rr) (rest : list Z) :
  reply_rep r f -> rr_name r = expanded (owner rc) ++ 0 :: rest ->
  mem_read abuf (aptr r) (zlen (rdata rc)) = Some (rdata rc) ->
  exists r', answer_address abuf (zlen abuf) hostname_out max max6 r (rtype rc) (rclass rc) (zlen (rdata rc))
      = Done (r', false) /\
    reply_rep r' (mk_found (host f) (addrs f ++ address_of T_A 4 f rc)
      (addrs6 f ++ address_of T_AAAA 16 f rc) (aliases f)) /\
    aptr r' = aptr r /\ cname_ttl r' = cname_ttl r.
Proof.
  intros [Hname Hdata [hrest Hhost] Hna Hn6 Hal Hroom Hroom6 Haddrs Haddrs6] Hrr Hm.
  unfold answer_address, address_of.
  assert (Hcmp : strcasecmp (rr_name r) (hostname hostname_out r) =
    Some (same_name (expanded (owner rc)) (host f))) by (rewrite Hrr, Hhost; apply strcasecmp_spec).
  rewrite Hcmp. cbn [access].
  pose proof Hm as (_ & _ & Hin & _)%mem_read_spec.
  destruct (rclass rc =? ns_c_in), (Z.eqb_spec (rtype rc) T_A) as [->|Hta];
    cbn [andb run_bind]; change (T_A =? T_AAAA) with false; cbn [andb run_bind].
  - destruct (Z.eqb_spec (zlen (rdata rc)) 4) as [H4|H4]; cbn [andb run_bind];
      [|unchanged].
    destruct (same_name _ _); [|unchanged].
    destruct (holds_snoc max (in_addrs_out r) (addrs f) (rdata rc) Haddrs Hroom) as (arr & Harr & Hlen' & Hh').
    rewrite H4 in Hm, Hin. destruct (Z.ltb_spec (zlen abuf) (aptr r + 4)); [lia|]. rewrite Hm, Hna.
    cbn [access run_bind]. destruct (zlen (addrs f) <? max); rewrite Harr || injection Harr as <-;
      stored arr Hlen'.
  - destruct ((rtype rc =? T_AAAA) && (zlen (rdata rc) =? 16)) eqn:H6; cbn [andb run_bind];
      [|unchanged].
    apply andb_true_iff in H6 as [_ H16%Z.eqb_eq].
    destruct (same_name _ _); [|unchanged].
    destruct (holds_snoc max6 (in6_addrs_out r) (addrs6 f) (rdata rc) Haddrs6 Hroom6) as (arr & Harr & Hlen' & Hh').
    rewrite H16 in Hm, Hin. destruct (Z.ltb_spec (zlen abuf) (aptr r + 16)); [lia|]. rewrite Hm, Hn6.
    cbn [access run_bind]. destruct (zlen (addrs6 f) <? max6); rewrite Harr || injection Harr as <-;
      stored arr Hlen'.
  - unchanged.
  - unchanged.
Qed.
Lemma answer_cname_spec (r : reply) (f : found) (type class ttl : Z) :
  reply_rep r f -> 0 <= aptr r ->
  (is_cname type class = false /\ answer_cname abuf (zlen abuf) r type class ttl = Done (r, ARES_SUCCESS)) \/
  (is_cname type class = true /\ exists r', aptr r' = aptr r /\
    ((exists ls e, name_at abuf (zlen abuf) (aptr r) ls e /\
       answer_cname abuf (zlen abuf) r type class ttl = Done (r', ARES_SUCCESS) /\
       reply_rep r' (mk_found (expanded ls) (addrs f) (addrs6 f) (aliases f + 1))) \/
     ((forall ls e, ~ name_at abuf (zlen abuf) (aptr r) ls e) /\ exists status,
       answer_cname abuf (zlen abuf) r type class ttl = Done (r', status) /\
       (status = ARES_EBADNAME \/ status = ARES_ENOMEM) /\
       reply_rep r' (mk_found (host f) (addrs f) (addrs6 f) (aliases f + 1))))).
Proof.
  intros [Hname Hdata Hhost Hna Hn6 Hal Hroom Hroom6 Haddrs Haddrs6] Hp.
  unfold answer_cname. fold (is_cname type class). destruct (is_cname type class); [right|by left].
  split; [done|]. cbn [aptr rr_data].
  destruct (expand_cases abuf _ eq_refl Hbytes (aptr r) (rr_data r)) as
    [(ls & e & Hat)|(Hno & st & -> & Hst)]; [done|done|done| |].
  - rewrite (expand_ok abuf _ eq_refl Hbytes _ _ _ _ Hsize Hdata Hat). cbn [run_bind].
    eexists. split; [|left; exists ls, e; split; [done|]; split; [done|]]; [done|].
    apply name_at_range in Hat as (_ & _ & Hl).
    constructor; cbn; rewrite ?zlen_written by lia; try done; [by eexists|lia].
  - cbn [run_bind]. eexists. split; [|right; split; [done|]; exists st; split; [done|]]; [done|].
    split; [done|]. constructor; cbn; try done. lia.
Qed.

(** What the loop leaves behind when it stops: it found [f]. *)
Lemma reply_rep_aptr (r : reply) (f : found) (p : Z) :
  reply_rep r f -> reply_rep (set_aptr r p) f.
Proof. intros []. by constructor. Qed.

(** The record whose fixed part has just been read, and whose data is at
    [aptr r]. *)
Definition rr_here (r : reply) (ls : list (list Z)) (type class len : Z) (rc : rr) : Prop :=
  ls = owner rc /\ type = rtype rc /\ class = rclass rc /\ mem_read abuf (aptr r) len = Some (rdata rc) /\
  if is_cname (rtype rc) (rclass rc)
  then exists ls' e', target rc = Some ls' /\ name_at abuf (zlen abuf) (aptr r) ls' e'
  else target rc = None.

Lemma address_of_cname (type len : Z) (f : found) (r : rr) :
  is_cname (rtype r) (rclass r) = true -> type <> T_CNAME -> address_of type len f r = [].
Proof.
  unfold is_cname, address_of. intros [_ ->%Z.eqb_eq]%andb_true_iff Ht.
  destruct (Z.eqb_spec T_CNAME type); [done|]. by rewrite andb_false_r.
Qed.

(** The part of [answer_step] after the fixed part of the record. *)
Lemma answer_rest (r : reply) (f : found) (ls : list (list Z)) (type class len ttl : Z) (rest : list Z) :
  let k := let! rb := answer_address abuf (zlen abuf) hostname_out max max6 r type class len in
     if rb.2 then Done (rb.1, ARES_EBADRESP)
     else
       let! rs := answer_cname abuf (zlen abuf) rb.1 type class ttl in
       if negb (rs.2 =? ARES_SUCCESS) then Done rs
       else
         let r := set_aptr rs.1 (aptr rs.1 + len) in
         if zlen abuf <? aptr r then Done (r, ARES_EBADRESP) else Done (r, ARES_SUCCESS) in
  reply_rep r f -> rr_name r = expanded ls ++ 0 :: rest ->
  0 <= aptr r -> 0 <= len -> aptr r + len <= zlen abuf ->
  (exists rc r', rr_here r ls type class len rc /\ k = Done (r', ARES_SUCCESS) /\
     aptr r' = aptr r + len /\ reply_rep r' (absorb f rc)) \/
  ((forall rc, ~ rr_here r ls type class len rc) /\ exists r' f' status,
     k = Done (r', status) /\ status <> ARES_SUCCESS /\
     reply_rep r' f' /\ addrs f' = addrs f /\ addrs6 f' = addrs6 f).
Proof.
  intros k Hrep Hname Hp Hl Hend.
  destruct (mem_read abuf (aptr r) len) as [d|] eqn:Hd.
  2:{ unfold mem_read, zlen in *. destruct (Z.leb_spec 0 (aptr r)), (Z.leb_spec 0 len),
      (Z.leb_spec (aptr r + len) (Z.of_nat (length abuf))); simpl in Hd; done || lia. }
  pose proof (mem_read_zlen _ _ _ _ Hd) as Hdl.
  set (rc0 := mk_rr ls type class d None).
  destruct (answer_address_spec r f rc0 rest Hrep Hname) as (r1 & Ha & Hrep1 & Hp1 & _);
    [cbn; by rewrite Hdl|].
  cbn [rc0 rtype rclass rdata] in Ha. rewrite Hdl in Ha. subst k. cbv zeta. rewrite Ha. cbn [run_bind fst snd].
  destruct (answer_cname_spec r1 _ type class ttl Hrep1 ltac:(lia)) as
    [[Hc ->]|(Hc & r2 & Hp2 & [(tg & e & Hat & -> & Hrep2)|(Hno & st & -> & Hst & Hrep2)])];
    cbn [run_bind fst snd negb].
  - left. exists rc0, (set_aptr r1 (aptr r1 + len)).
    unfold rr_here. cbn [rc0 owner rtype rclass rdata target]. rewrite Hc. split; [done|].
    change (negb (ARES_SUCCESS =? ARES_SUCCESS)) with false. cbv iota.
    change (aptr (set_aptr r1 (aptr r1 + len))) with (aptr r1 + len).
    destruct (Z.ltb_spec (zlen abuf) (aptr r1 + len)); [lia|].
    split; [done|]. split; [lia|]. unfold absorb. cbn [target rc0]. rewrite Z.add_0_r.
    by apply reply_rep_aptr.
  - left. exists (mk_rr ls type class d (Some tg)), (set_aptr r2 (aptr r2 + len)).
    unfold rr_here. cbn [owner rtype rclass rdata target]. rewrite Hc. rewrite Hp1 in Hat.
    split; [eauto 10|]. change (negb (ARES_SUCCESS =? ARES_SUCCESS)) with false. cbv iota.
    change (aptr (set_aptr r2 (aptr r2 + len))) with (aptr r2 + len).
    destruct (Z.ltb_spec (zlen abuf) (aptr r2 + len)); [lia|].
    split; [done|]. split; [lia|]. by apply reply_rep_aptr.
  - right. split.
    + intros rc (_ & -> & -> & _ & Htg). rewrite Hc in Htg. destruct Htg as (ls' & e' & _ & Hat).
      rewrite Hp1 in Hno. by eapply Hno.
    + destruct (Z.eqb_spec st ARES_SUCCESS) as [->|Hst0]; [by destruct Hst|]. cbn [negb].
      eexists _, _, _. split; [done|]. split; [done|]. split; [done|]. cbn [addrs addrs6].
      rewrite !(address_of_cname _ _ _ rc0 Hc) by done. by rewrite !app_nil_r.
Qed.

Lemma answer_step_spec (r : reply) (f : found) :
  reply_rep r f -> 0 <= aptr r ->
  (exists rc next r', rr_at abuf (aptr r) rc next /\
     answer_step abuf (zlen abuf) hostname_out max max6 r = Done (r', ARES_SUCCESS) /\
     aptr r' = next /\ reply_rep r' (absorb f rc)) \/
  ((forall rc next, ~ rr_at abuf (aptr r) rc next) /\ exists r' f' status,
     answer_step abuf (zlen abuf) hostname_out max max6 r = Done (r', status) /\ status <> ARES_SUCCESS /\
     reply_rep r' f' /\ addrs f' = addrs f /\ addrs6 f' = addrs6 f).
Proof.
  intros Hrep Hp. unfold answer_step.
  destruct (expand_cases abuf _ eq_refl Hbytes (aptr r) (rr_name r)) as
    [(ls & e & Hat)|(Hno & st & -> & Hst)]; [done|done|by destruct Hrep| |].
  2:{ cbn [run_bind]. right. split; [intros rc next (e & len & Hat & _); by eapply Hno|].
    exists r, f, st. split; [done|]. split; [by destruct Hst as [-> | ->]|done]. }
  rewrite (expand_ok abuf _ eq_refl Hbytes _ _ _ _ Hsize (rep_name _ _ Hrep) Hat).
  cbn [run_bind].
  pose proof (name_at_range _ _ _ Hat) as (_ & He & Hl).
  replace (aptr r + (e - aptr r)) with e by lia.
  set (r1 := set_aptr _ e). change (aptr r1) with e.
  assert (Hrep1 : reply_rep r1 f).
  { destruct Hrep. constructor; cbn; rewrite ?zlen_written by lia; done. }
  destruct (Z.ltb_spec (zlen abuf) (e + RRFIXEDSZ)) as [Hfix|Hfix].
  { right. split; [|by exists r1, f, ARES_EBADRESP].
    intros rc next (e' & len & Hat' & Hfix' & _). destruct (name_at_fun _ _ _ _ _ Hat Hat') as [_ <-]. lia. }
  destruct (rr_fields abuf e Hbytes ltac:(lia) Hfix) as (Ht & Hc & Hn & Httl).
  apply field_get in Ht as (ty & Ht & -> & _), Hc as (cl & Hc & -> & _),
    Hn as (len & Hn & -> & Hlen), Httl as (ttl & _ & -> & _). cbn [run_bind].
  apply (reply_rep_aptr _ _ (e + RRFIXEDSZ)) in Hrep1. set (r2 := set_aptr r1 _) in *.
  change (aptr r2) with (e + RRFIXEDSZ).
  destruct (Z.ltb_spec (zlen abuf) (e + RRFIXEDSZ + len)) as [Hdat|Hdat].
  { right. split; [|by exists r2, f, ARES_EBADRESP].
    intros rc next (e' & len' & Hat' & _ & _ & _ & Hn' & (_ & _ & ? & _)%mem_read_spec & _).
    destruct (name_at_fun _ _ _ _ _ Hat Hat') as [_ <-]. rewrite Hn in Hn'. simplify_eq. lia. }
  pose proof (answer_rest r2 f ls ty cl len (s32 ttl) (drop (length (expanded ls) + 1) (rr_name r))
    Hrep1 eq_refl ltac:(cbn; unfold RRFIXEDSZ; lia) ltac:(lia) Hdat) as Hk. cbv zeta in Hk |- *.
  destruct Hk as [(rc & r' & Hrc & -> & Hp' & Hrep')|(Hno & r' & f' & st & -> & Hst & Hf')].
  - left. exists rc, (e + RRFIXEDSZ + len), r'. split; [|done].
    destruct Hrc as (-> & -> & -> & Hd & Htg). exists e, len. done.
  - right. split; [|by exists r', f', st].
    intros rc next (e' & len' & Hat' & _ & Ht' & Hc' & Hn' & Hd' & _ & Htg').
    destruct (name_at_fun _ _ _ _ _ Hat Hat') as [Hls <-]. rewrite Hn in Hn'. rewrite Ht in Ht'.
    rewrite Hc in Hc'. simplify_eq. by apply (Hno rc).
Qed.

Lemma answers_spec (n : nat) (r : reply) (f : found) :
  reply_rep r f -> 0 <= aptr r ->
  exists rs ok r' f' status, answer_section abuf n (aptr r) rs ok /\
    answers abuf (zlen abuf) hostname_out max max6 n r = Done (r', status) /\ reply_rep r' f' /\
    addrs f' = addrs (foldl absorb f rs) /\ addrs6 f' = addrs6 (foldl absorb f rs) /\
    if ok then status = ARES_SUCCESS /\ aliases f' = aliases (foldl absorb f rs)
    else status <> ARES_SUCCESS.
Proof.
  revert r f. induction n as [|n IH]; intros r f Hrep Hp.
  { exists [], true, r, f, ARES_SUCCESS. split; [constructor|done]. }
  cbn [answers].
  destruct (answer_step_spec r f Hrep Hp) as [(rc & next & r1 & Hat & -> & Hp1 & Hrep1)|
    (Hno & r1 & f1 & st & -> & Hst & Hrep1 & Ha1 & Ha6)]; cbn [run_bind fst snd].
  - destruct (IH r1 (absorb f rc) Hrep1) as (rs & ok & r' & f' & st & Hsec & Heq & Hrest).
    { rewrite Hp1. destruct Hat as (e & len & Hname & _ & _ & _ & Hn & (? & <- & _)%mem_read_spec & -> & _).
      pose proof (zlen_nonneg (rdata rc)). lia. }
    exists (rc :: rs), ok, r', f', st. split; [|done]. apply section_rr with next; [done|].
    by rewrite <- Hp1.
  - destruct (Z.eqb_spec st ARES_SUCCESS); [done|].
    exists [], false, r1, f1, st. split; [by constructor|done].
Qed.
End answers.

Lemma holds_prefix (m : nat) (arr A : list (list Z)) :
  holds (Z.of_nat m) arr A -> take m A `prefix_of` arr.
Proof.
  revert m arr. induction A as [|a A IH]; intros m arr Hh; [rewrite take_nil; apply prefix_nil|].
  destruct m as [|m]; [apply prefix_nil|].
  destruct arr as [|b arr]; [by specialize (Hh 0%nat a eq_refl ltac:(lia))|].
  pose proof (Hh 0%nat a eq_refl ltac:(lia)) as [= ->]. cbn [take]. apply prefix_cons, IH.
  intros i x Hi Him. apply (Hh (S i)); [done|lia].
Qed.

(** The addresses [found], as the caller sees them: [num] is how many of them
    the array had room for, and the array starts with those. *)
Definition returned (m : Z) (arr0 arr : option (list (list Z))) (num0 num : option Z) (found : list (list Z)) : Prop :=
  num = store num0 (Z.min (zlen found) m) /\
  exists a, arr = (fun _ => a) <$> arr0 /\ take (Z.to_nat m) found `prefix_of` a.

Lemma returned_holds (m n : Z) (arr0 : option (list (list Z))) (arr found : list (list Z)) (num0 : option Z) :
  0 <= m -> holds m arr found -> n = zlen found ->
  returned m arr0 ((fun _ => arr) <$> arr0) num0 (store num0 (if n <? m then n else m)) found.
Proof.
  intros Hm Hh ->. split.
  - f_equal. destruct (Z.ltb_spec (zlen found) m); lia.
  - exists arr. split; [done|]. apply holds_prefix. by rewrite Z2Nat.id.
Qed.

Lemma store_store (o : option Z) (v w : Z) : store (store o v) w = store o w.
Proof. by destruct o. Qed.

(** A reply to one question, and what its answers say. *)
Definition is_reply (ls : list (list Z)) (rs : list rr) (ok : bool) (f : found) : Prop :=
  exists e an, question_at abuf 1 ls e /\ DNS_HEADER_ANCOUNT abuf = Some an /\
    answer_section abuf (Z.to_nat an) (e + QFIXEDSZ) rs ok /\
    f = foldl absorb (mk_found (expanded ls) [] [] 0) rs.

Definition room (arr : option (list (list Z))) (num : option Z) : Prop :=
  0 <= max_addrs arr num <= zlen (default [] arr).

(** The status the caller gets. *)
Lemma status_of (h : list Z) (m m6 : Z) (r : reply) (f' f : found) (ok : bool) (st : Z) :
  reply_rep h m m6 r f' ->
  (if ok then st = ARES_SUCCESS /\ aliases f' = aliases f else st <> ARES_SUCCESS) ->
  let status := if (st =? ARES_SUCCESS) && (naddrs r =? 0) && (n6addrs r =? 0) && (naliases r =? 0)
                then ARES_ENODATA else st in
  if ok then status = if bool_decide (addrs f' = [] /\ addrs6 f' = [] /\ aliases f = 0)
                      then ARES_ENODATA else ARES_SUCCESS
  else status <> ARES_SUCCESS.
Proof.
  intros Hrep Hok. cbv zeta. rewrite (rep_naddrs _ _ _ _ _ Hrep), (rep_n6addrs _ _ _ _ _ Hrep),
    (rep_naliases _ _ _ _ _ Hrep). destruct ok.
  - destruct Hok as [-> ->]. change (ARES_SUCCESS =? ARES_SUCCESS) with true. cbn [andb].
    unfold zlen. destruct (addrs f'), (addrs6 f'); cbn [length]; try (rewrite bool_decide_eq_false_2; [|naive_solver]).
    + destruct (Z.eqb_spec (aliases f) 0); [rewrite bool_decide_eq_true_2 by done|rewrite bool_decide_eq_false_2 by naive_solver]; done.
    + done.
    + done.
    + done.
  - destruct (Z.eqb_spec st ARES_SUCCESS); done.
Qed.

(** What a call of [dns_parse_a_aaaa_reply] does. *)
Definition reply_outcome (o : reply_out) (result : run (Z * reply_out)) : Prop :=
  exists status o', result = Done (status, o') /\
  ((exists ls rs ok f, is_reply ls rs ok f /\
      out_hostname o' = written ls (out_hostname o) /\
      hostname_len o' = store (hostname_len o) (zlen (expanded ls)) /\
      returned (max_addrs (out_in_addrs o) (num_in_addrs o)) (out_in_addrs o) (out_in_addrs o')
        (num_in_addrs o) (num_in_addrs o') (addrs f) /\
      returned (max_addrs (out_in6_addrs o) (num_in6_addrs o)) (out_in6_addrs o) (out_in6_addrs o')
        (num_in6_addrs o) (num_in6_addrs o') (addrs6 f) /\
      if ok then status = if bool_decide (addrs f = [] /\ addrs6 f = [] /\ aliases f = 0)
                          then ARES_ENODATA else ARES_SUCCESS
      else status <> ARES_SUCCESS) \/
   ((forall ls e, ~ question_at abuf 1 ls e) /\ status <> ARES_SUCCESS /\
      num_in_addrs o' = store (num_in_addrs o) 0 /\ num_in6_addrs o' = store (num_in6_addrs o) 0)).

Lemma parse_reply_cases (sname sdata : list Z) (o : reply_out) :
  zlen sname = DNS_NAME_MAX_LENGTH -> zlen sdata = DNS_NAME_MAX_LENGTH ->
  zlen (out_hostname o) = DNS_NAME_MAX_LENGTH ->
  room (out_in_addrs o) (num_in_addrs o) -> room (out_in6_addrs o) (num_in6_addrs o) ->
  reply_outcome o (dns_parse_a_aaaa_reply sname sdata abuf (zlen abuf) o).
Proof.
  intros Hsn Hsd Hh Hroom Hroom6. unfold reply_outcome, dns_parse_a_aaaa_reply.
  cbn [out_hostname hostname_len out_in_addrs num_in_addrs out_in6_addrs num_in6_addrs].
  destruct (Z.ltb_spec (zlen abuf) HFIXEDSZ) as [Hlen|Hlen].
  { eexists _, _. split; [done|]. right. split; [|done]. intros ls e (? & _). lia. }
  destruct (header_fields abuf Hbytes Hlen) as (Hqr & _ & Hqd & Han & _).
  apply field_get in Hqr as (qr & Hqr & -> & _), Hqd as (qd & Hqd & -> & _), Han as (an & Han & -> & Hanr).
  cbn [run_bind].
  destruct (Z.eqb_spec qr 1) as [->|Hqr1]; cbn [negb].
  2:{ eexists _, _. split; [done|]. right. split; [|done]. intros ls e (_ & ? & _). congruence. }
  destruct (Z.eqb_spec qd 1) as [->|Hqd1]; cbn [negb].
  2:{ eexists _, _. split; [done|]. right. split; [|done]. intros ls e (_ & _ & ? & _). congruence. }
  destruct (expand_cases abuf _ eq_refl Hbytes HFIXEDSZ (out_hostname o)) as
    [(ls & e & Hat)|(Hno & st & -> & Hst)]; [done|done|done| |].
  2:{ cbn [run_bind]. eexists _, _. split; [done|]. right. split.
    - intros ls e (_ & _ & _ & Hat & _). by eapply Hno.
    - split; [by destruct Hst as [-> | ->]|done]. }
  rewrite (expand_ok abuf _ eq_refl Hbytes _ _ _ _ Hsize Hh Hat).
  cbn [run_bind out_hostname hostname_len out_in_addrs num_in_addrs out_in6_addrs num_in6_addrs].
  replace (HFIXEDSZ + (e - HFIXEDSZ)) with e by lia.
  destruct (Z.ltb_spec (zlen abuf) (e + QFIXEDSZ)) as [Hq|Hq].
  { eexists _, _. split; [done|]. right. split; [|done]. intros ls' e' (_ & _ & _ & Hat' & ?).
    destruct (name_at_fun _ _ _ _ _ Hat Hat') as [_ <-]. lia. }
  set (r := mk_reply _ _ _ _ _ _ _ _ _ _). set (m := max_addrs _ (num_in_addrs o)). set (m6 := max_addrs _ _).
  set (f0 := mk_found (expanded ls) [] [] 0).
  assert (Hrep : reply_rep (written ls (out_hostname o)) m m6 r f0).
  { destruct Hroom, Hroom6. constructor; cbn; try done. by eexists. }
  rewrite s32_small by lia.
  destruct (answers_spec _ _ _ (Z.to_nat an) r f0 Hrep) as
    (rs & ok & r' & f' & st & Hsec & -> & Hrep' & Ha & Ha6 & Hok).
  { pose proof (name_at_range _ _ _ Hat) as (_ & ? & _). unfold HFIXEDSZ in *. cbn. unfold QFIXEDSZ. lia. }
  cbn [run_bind]. eexists _, _. split; [done|]. left.
  exists ls, rs, ok, (foldl absorb f0 rs). rewrite <- Ha, <- Ha6. destruct Hroom as [? _], Hroom6 as [? _].
  split; [by exists e, an|]. split; [done|]. split; [done|].
  cbn [out_in_addrs num_in_addrs out_in6_addrs num_in6_addrs]. rewrite !store_store.
  split; [apply returned_holds; [done|apply Hrep'|apply Hrep']|].
  split; [apply returned_holds; [done|apply Hrep'|apply Hrep']|].
  exact (status_of _ _ _ _ _ _ _ _ Hrep' Hok).
Qed.
End correctness.

(** * The accessors, as RFC 1035 lays the fields out *)

Definition be16 (abuf : list Z) (p : Z) : option Z :=
  a ← rd abuf p; b ← rd abuf (p + 1); Some (256 * a + b).

Definition be32 (abuf : list Z) (p : Z) : option Z :=
  a ← be16 abuf p; b ← be16 abuf (p + 2); Some (65536 * a + b).

#[export] Instance rfc1035 : AresDns := {
  DNS_HEADER_QR abuf := (fun b => b / 128) <$> rd abuf 2;
  DNS_HEADER_QID abuf := be16 abuf 0;
  DNS_HEADER_QDCOUNT abuf := be16 abuf 4;
  DNS_HEADER_ANCOUNT abuf := be16 abuf 6;
  DNS_HEADER_NSCOUNT abuf := be16 abuf 8;
  DNS_QUESTION_TYPE := be16;
  DNS_QUESTION_CLASS abuf p := be16 abuf (p + 2);
  DNS_RR_TYPE := be16;
  DNS_RR_CLASS abuf p := be16 abuf (p + 2);
  DNS_RR_LEN abuf p := be16 abuf (p + 8);
  DNS_RR_TTL abuf p := be32 abuf (p + 4)
}.

Lemma be16_field (abuf : list Z) (p : Z) :
  Forall byte_ok abuf -> 0 <= p -> p + 2 <= zlen abuf -> field 16 (be16 abuf p).
Proof.
  intros Hb Hp Hl. unfold be16, field.
  destruct (rd_byte abuf _ eq_refl Hb p) as (a & -> & Ha); [lia|].
  destruct (rd_byte abuf _ eq_refl Hb (p + 1)) as (b & -> & Hb'); [lia|].
  eexists. split; [done|]. unfold byte_ok in *. lia.
Qed.

Lemma be32_field (abuf : list Z) (p : Z) :
  Forall byte_ok abuf -> 0 <= p -> p + 4 <= zlen abuf -> field 32 (be32 abuf p).
Proof.
  intros Hb Hp Hl. destruct (be16_field abuf p Hb Hp ltac:(lia)) as (a & Ha & Har).
  destruct (be16_field abuf (p + 2) Hb ltac:(lia) ltac:(lia)) as (b & Hb' & Hbr).
  unfold be32. rewrite Ha. cbn [mbind option_bind]. rewrite Hb'. eexists. split; [done|]. lia.
Qed.

#[export] Instance rfc1035_laws : AresDnsLaws.
Proof.
  constructor; intros abuf; [intros Hb Hl|intros p Hb Hp Hl..]; unfold HFIXEDSZ, QFIXEDSZ, RRFIXEDSZ in *.
  - split.
    { change (field 1 ((fun b => b / 128) <$> rd abuf 2)).
      destruct (rd_byte abuf _ eq_refl Hb 2) as (a & -> & Ha); [lia|].
      eexists. split; [done|]. unfold byte_ok in Ha.
      split; [apply Z.div_pos; lia|apply Z.div_lt_upper_bound; lia]. }
    split_and!; apply be16_field; done || lia.
  - split; apply be16_field; done || lia.
  - split_and!; (apply be16_field || apply be32_field); done || lia.
Qed.

(** * Properties *)

(** C31: names are expanded exactly.  [dns_expand_name_maxlen] on any packet and at
    any position: if a name is encoded there as RFC 1035 says, with at most
    [MAX_INDIRS] indirections (and no more than the packet has bytes), then it is
    expanded into the caller's buffer, labels escaped and separated by periods,
    zero-terminated, nothing else changed, and its encoded and expanded lengths
    are returned, or [ARES_ENOMEM] if it does not fit; otherwise the result is
    [ARES_EBADNAME].  No access leaves the packet or the buffer, and the loops
    end. *)
Theorem expand_name_exact (abuf : list Z) (pos : Z) (s : list Z) :
  Forall byte_ok abuf -> zlen abuf < 2 ^ 31 -> zlen s = DNS_NAME_MAX_LENGTH -> 0 <= pos ->
  (forall ls k e, encodes abuf pos ls k e -> k <= Z.min MAX_INDIRS (zlen abuf) ->
     dns_expand_name_maxlen pos abuf (zlen abuf) s =
     Done (if zlen (expanded ls) <? DNS_NAME_MAX_LENGTH
           then inr (expanded ls ++ 0 :: drop (length (expanded ls) + 1) s, e - pos, zlen (expanded ls))
           else inl ARES_ENOMEM)) /\
  ((forall ls k e, encodes abuf pos ls k e -> Z.min MAX_INDIRS (zlen abuf) < k) ->
     dns_expand_name_maxlen pos abuf (zlen abuf) s = Done (inl ARES_EBADNAME)).
Proof.
  intros Hb Hl Hs Hp. pose proof (dns_name_length_spec abuf _ eq_refl Hb pos Hp) as Hlen. split.
  - intros ls k e He Hk. destruct (Z.ltb_spec (zlen (expanded ls)) DNS_NAME_MAX_LENGTH) as [Hf|Hf].
    + rewrite (expand_ok abuf _ eq_refl Hb pos e ls s Hl Hs); [done|]. by exists k.
    + destruct Hlen as [(ls' & k' & e' & He' & _ & Hlen)|[Hno _]]; [|apply Hno in He; unfold max_indirs in He; lia].
      unfold dns_expand_name_maxlen. rewrite Hlen. cbn [run_bind].
      destruct (encodes_fun abuf _ _ _ _ _ _ _ He He') as (<- & _). unfold DNS_NAME_MAX_LENGTH in *.
      destruct (Z.ltb_spec (zlen (expanded ls)) 0), (Z.ltb_spec 256 (zlen (expanded ls) + 1)); done || lia.
  - intros Hno. destruct Hlen as [(ls & k & e & He & Hk & _)|[_ Hlen]].
    + apply Hno in He. unfold max_indirs in Hk. lia.
    + unfold dns_expand_name_maxlen. by rewrite Hlen.
Qed.

(** A request for the addresses of a.b, and a reply: a.b is an alias of c.b, and
    c.b has the address 10.0.0.1.  The names use compression pointers. *)
Definition demo_request : list Z :=
  [18; 52; 1; 0; 0; 1; 0; 0; 0; 0; 0; 0; 1; 97; 1; 98; 0; 0; 1; 0; 1].

Definition demo_reply : list Z :=
  [18; 52; 129; 128; 0; 1; 0; 2; 0; 0; 0; 0; 1; 97; 1; 98; 0; 0; 1; 0; 1;
   192; 12; 0; 5; 0; 1; 0; 0; 0; 60; 0; 4; 1; 99; 192; 14;
   192; 33; 0; 1; 0; 1; 0; 0; 0; 60; 0; 4; 10; 0; 0; 1].

Definition blank : list Z := replicate 256 0.

Definition bytes_okb (l : list Z) : bool := forallb (fun b => (0 <=? b) && (b <? 256)) l.

Lemma bytes_okb_ok (l : list Z) : bytes_okb l = true -> Forall byte_ok l.
Proof.
  unfold bytes_okb. rewrite forallb_forall. intros Hl. apply Forall_forall. intros x Hx.
  apply list_elem_of_In, Hl in Hx. unfold byte_ok. lia.
Qed.

Lemma expand_name_exact_witness :
  encodes demo_reply 37 [[99]; [98]] 2 39 /\
  dns_expand_name_maxlen 37 demo_reply 53 blank = Done (inr ([99; 46; 98; 0] ++ replicate 252 0, 2, 3)).
Proof.
  assert (He : encodes demo_reply 37 [[99]; [98]] 2 39).
  { apply (enc_pointer _ 37 192 33 _ 1 37); [done|lia|done|].
    apply (enc_label _ 33 1 [99] [[98]] 1 37); [done|lia|done|].
    apply (enc_pointer _ 35 192 14 _ 0 17); [done|lia|done|].
    apply (enc_label _ 14 1 [98] [] 0 17); [done|lia|done|].
    by apply (enc_root _ 16). }
  split; [done|].
  refine (proj1 (expand_name_exact demo_reply 37 blank _ _ _ _) _ _ _ He _);
    [by apply bytes_okb_ok|done|done|lia|vm_compute; done].
Defined.

(** Queries are parsed exactly.  [dns_parse_query] accepts a packet if and only
    if it has a header, exactly one question, which is of class Internet and
    whose name is well formed, and, for a request, no other records; it then
    returns the direction, the transaction id, the type and the name of the
    question.  Any other packet is refused with a status; no packet makes the
    parser read or write out of bounds. *)
Theorem parse_query_exact `{AresDnsLaws} (abuf : list Z) (o : query_out) :
  Forall byte_ok abuf -> zlen abuf < 2 ^ 31 -> zlen (question_out o) = DNS_NAME_MAX_LENGTH ->
  query_outcome abuf o (dns_parse_query abuf (zlen abuf) o).
Proof. intros. by apply parse_query_cases. Qed.

Definition demo_query_out : query_out := mk_query_out (Some 7) (Some 7) (Some 7) blank (Some 7).

Lemma parse_query_exact_witness :
  query_outcome demo_request demo_query_out (dns_parse_query demo_request 21 demo_query_out) /\
  dns_parse_query demo_request 21 demo_query_out =
  Done (ARES_SUCCESS, mk_query_out (Some 0) (Some 1) (Some 4660) ([97; 46; 98; 0] ++ replicate 252 0) (Some 3)).
Proof.
  split; [|vm_compute; done].
  apply (parse_query_exact demo_request demo_query_out); [by apply bytes_okb_ok|done|done].
Defined.

(** C30: replies are parsed exactly.  [dns_parse_a_aaaa_reply] on any packet returns,
    never reading or writing out of bounds.  For a response to one question it
    returns the name of the question and the addresses that the answers before
    the first malformed one give it: those of the A and AAAA records for the name
    itself or for what the CNAME records seen so far make of it, compared without
    case, as many as the caller has room for.  The status is a success if and
    only if the whole answer section is well formed and said something.  For any
    other packet it is an error, and no addresses are returned. *)
Theorem parse_reply_exact `{AresDnsLaws} (abuf sname sdata : list Z) (o : reply_out) :
  Forall byte_ok abuf -> zlen abuf < 2 ^ 31 ->
  zlen sname = DNS_NAME_MAX_LENGTH -> zlen sdata = DNS_NAME_MAX_LENGTH ->
  zlen (out_hostname o) = DNS_NAME_MAX_LENGTH ->
  room (out_in_addrs o) (num_in_addrs o) -> room (out_in6_addrs o) (num_in6_addrs o) ->
  reply_outcome abuf o (dns_parse_a_aaaa_reply sname sdata abuf (zlen abuf) o).
Proof. intros. by apply parse_reply_cases. Qed.

Definition demo_reply_out : reply_out :=
  mk_reply_out blank (Some 0) (Some (replicate 2 [0; 0; 0; 0])) (Some 2) None None.

Lemma parse_reply_exact_witness :
  reply_outcome demo_reply demo_reply_out
    (dns_parse_a_aaaa_reply blank blank demo_reply 53 demo_reply_out) /\
  dns_parse_a_aaaa_reply blank blank demo_reply 53 demo_reply_out =
  Done (ARES_SUCCESS, mk_reply_out ([97; 46; 98; 0] ++ replicate 252 0) (Some 3)
    (Some [[10; 0; 0; 1]; [0; 0; 0; 0]]) (Some 1) None None).
Proof.
  split; [|vm_compute; done].
  apply (parse_reply_exact demo_reply blank blank demo_reply_out);
    [by apply bytes_okb_ok|done|done|done|done|done|done].
Defined.
End Dns.
