(* ===== verification/PerfRing.v ===== *)
(** The perf ring: [util/perf_ring.h], [util/perf_ring.c] and the C++ wrapper
    [util/perf_ring_cpp.h].

    A ring of events between the kernel (or a writer of this code) and a reader:
    every event is an 8-byte [perf_event_header] followed by its contents, padded
    to 8 bytes, and may wrap around the end of the ring; headers never do.  The
    counters are [u32] and wrap around; the shared page has [u64] counters, of
    which this code uses the low halves.

    The ring is a block of bytes and all accesses to it are byte accesses; an
    access outside the block, and a failed [assert], is [None].  The assertions
    of the form [(int)a - b >= 0] compare unsigned values and always hold, see
    [ElementQueue.batch_assert_vacuous].

    Theorems: one writer and one reader implement a FIFO, whatever the
    interleaving, with every access inside the ring; the sizes at which writes
    are accepted; what [pr_bytes_remaining] and over-long writes do. *)
From S2P Require Import Prelude ElementQueue.

Module PerfRing.

(** ** Data *)

Record perf_ring := mk_pr {
  buf_mask : Z;
  buf_head : Z;
  buf_tail : Z
}.

(** The [data_head] and [data_tail] of the shared page, and the data pages. *)
Record storage := mk_storage {
  data_head : Z;
  data_tail : Z;
  data : list Z
}.

(** [sizeof(struct perf_event_header)]: u32 type, u16 misc, u16 size. *)
Definition header_size : Z := 8.

(** ** [perf_ring.c] *)

Definition pr_init_contig (st : storage) (n_pages page_size : Z) : Z + perf_ring :=
  let buf_len := u64 (n_pages * page_size) in
  if negb (Z.land buf_len (u64 (buf_len - 1)) =? 0) || (buf_len <? 8) then inl (- EINVAL)
  else inr (mk_pr (u32 (buf_len - 1)) (u32 (data_tail st)) (u32 (data_head st))).

Definition pr_start_write_batch (eq : perf_ring) (st : storage) : perf_ring :=
  mk_pr (buf_mask eq) (u32 (data_tail st)) (buf_tail eq).

Definition pr_finish_write_batch (eq : perf_ring) (st : storage) : storage :=
  mk_storage (buf_tail eq) (data_tail st) (data st).

Definition pr_start_read_batch (eq : perf_ring) (st : storage) : perf_ring :=
  mk_pr (buf_mask eq) (buf_head eq) (u32 (data_head st)).

Definition pr_finish_read_batch (eq : perf_ring) (st : storage) : storage :=
  mk_storage (data_head st) (buf_head eq) (data st).

(** The offset at which the contents are to be written, or an error. *)
Definition pr_write (eq : perf_ring) (st : storage) (len type : Z)
    : option (Z + Z * perf_ring * storage) :=
  let aligned_len := Z.land (len + header_size + 7) (not32 7) in
  if buf_mask eq <? aligned_len then Some (inl (- EINVAL))
  else if 2 ^ 16 <=? aligned_len then Some (inl (- EINVAL))
  else if u32 (buf_mask eq + 1) <? u32 (buf_tail eq + aligned_len - buf_head eq) then Some (inl (- ENOSPC))
  else
    let header := Z.land (buf_tail eq) (buf_mask eq) in
    d ← mem_write (data st) (header + 6) (le_encode 2 aligned_len);
    d ← mem_write d header (le_encode 4 type);
    Some (inr (Z.land (u32 (buf_tail eq + header_size)) (buf_mask eq),
               mk_pr (buf_mask eq) (buf_head eq) (u32 (buf_tail eq + aligned_len)),
               mk_storage (data_head st) (data_tail st) d)).

(** [header->size] and [header->type] of the event at the head. *)
Definition head_size (eq : perf_ring) (st : storage) : option Z :=
  le_decode <$> mem_read (data st) (Z.land (buf_head eq) (buf_mask eq) + 6) 2.

Definition pr_peek_size (eq : perf_ring) (st : storage) : option Z :=
  if buf_tail eq =? buf_head eq then Some (- ENOENT)
  else if negb (Z.land (buf_head eq) 7 =? 0) then None
  else size ← head_size eq st; Some (size - header_size).

Definition pr_peek_type (eq : perf_ring) (st : storage) : option Z :=
  if buf_tail eq =? buf_head eq then None
  else le_decode <$> mem_read (data st) (Z.land (buf_head eq) (buf_mask eq)) 4.

(** The [bytes]-byte integer at [eq->data[total_offset & eq->buf_mask]]. *)
Definition peek_aligned (bytes : Z) (eq : perf_ring) (st : storage) (offset : Z) : option Z :=
  if negb (Z.land (u32 (buf_head eq + offset)) (bytes - 1) =? 0) then None
  else
    let total_offset := u32 (buf_head eq + header_size + offset) in
    le_decode <$> mem_read (data st) (Z.land total_offset (buf_mask eq)) bytes.

Definition pr_peek_aligned_u64 : perf_ring -> storage -> Z -> option Z := peek_aligned 8.
Definition pr_peek_aligned_u32 : perf_ring -> storage -> Z -> option Z := peek_aligned 4.
Definition pr_peek_aligned_u16 : perf_ring -> storage -> Z -> option Z := peek_aligned 2.

(** The [len] bytes from [begin_head] on: where they begin, how many of them are
    there and how many wrap around to the start of the ring. *)
Definition ring_span (eq : perf_ring) (begin_head len : Z) : Z * Z * Z :=
  let begin := Z.land begin_head (buf_mask eq) in
  let end_ := Z.land (u32 (begin_head + len - 1)) (buf_mask eq) in
  if end_ <? begin then (begin, s32 (u32 (buf_mask eq + 1 - begin)), end_ + 1) else (begin, len, 0).

(** What is copied to [buf]. *)
Definition pr_peek_copy (eq : perf_ring) (st : storage) (offset len : Z) : option (list Z) :=
  if len =? 0 then Some []
  else
    size ← pr_peek_size eq st;
    if size <? offset + len then None
    else
      let '(begin, first_len, second_len) :=
        ring_span eq (u32 (buf_head eq + header_size + offset)) len in
      first ← mem_read (data st) begin first_len;
      second ← mem_read (data st) 0 second_len;
      Some (first ++ second).

(** The two chunks of the view; the lengths of a [pr_data_view] are [u16]. *)
Definition pr_peek (eq : perf_ring) (st : storage) : option (list Z * list Z) :=
  unpadded_len ← pr_peek_aligned_u32 eq st 4;
  if unpadded_len =? 0 then Some ([], [])
  else
    size ← pr_peek_size eq st;
    if u32 size <? u32 (8 + unpadded_len) then None
    else
      let '(begin, first_len, second_len) :=
        ring_span eq (u32 (buf_head eq + header_size + 8)) unpadded_len in
      first ← mem_read (data st) begin (u16 first_len);
      second ← mem_read (data st) 0 (u16 second_len);
      Some (first, second).

(** [*lenp], the offset and the ring after the call, or an error. *)
Definition pr_read (eq : perf_ring) (st : storage) : option (Z + Z * Z * perf_ring) :=
  if buf_tail eq =? buf_head eq then Some (inl (- EAGAIN))
  else if negb (Z.land (buf_head eq) 7 =? 0) then None
  else
    size ← head_size eq st;
    Some (inr (u16 (size - header_size),
               Z.land (u32 (buf_head eq + header_size)) (buf_mask eq),
               mk_pr (buf_mask eq) (u32 (buf_head eq + size)) (buf_tail eq))).

Definition pr_bytes_remaining (eq : perf_ring) : Z :=
  let buf_size := u32 (buf_mask eq + 1) in
  let begin := Z.land (buf_head eq) (buf_mask eq) in
  let end_ := Z.land (buf_tail eq) (buf_mask eq) in
  if end_ <? begin then u32 (u32 (buf_size - begin) + end_) else u32 (end_ - begin).

(** ** [perf_ring_cpp.h] *)

(** [PerfRing::write]: the exception thrown, or the ring after the call. *)
Inductive write_result :=
| invalid_argument
| range_error
| Written (eq : perf_ring) (st : storage).

(** The part of [write] after [pr_write]: the one or two copies. *)
Definition copy_elem (eq : perf_ring) (st : storage) (offset : Z) (elem : list Z) : option write_result :=
  if zlen elem =? 0 then Some (Written eq st)
  else
    let end_ := s32 (Z.land (u64 (offset + zlen elem - 1)) (buf_mask eq)) in
    if end_ - offset <? 0 then
      let len_to_ring_end := s32 (u32 (buf_mask eq + 1 - offset)) in
      first ← mem_read elem 0 len_to_ring_end;
      d ← mem_write (data st) offset first;
      second ← mem_read elem len_to_ring_end (end_ + 1);
      d ← mem_write d 0 second;
      Some (Written eq (mk_storage (data_head st) (data_tail st) d))
    else
      d ← mem_write (data st) offset elem;
      Some (Written eq (mk_storage (data_head st) (data_tail st) d)).

Definition write (eq : perf_ring) (st : storage) (elem : list Z) (type : Z) : option write_result :=
  r ← pr_write eq st (u16 (zlen elem)) type;
  match r with
  | inl code => if code =? - EINVAL then Some invalid_argument else Some range_error
  | inr (offset, eq, st) => copy_elem eq st offset elem
  end.

Definition pop (eq : perf_ring) (st : storage) : option perf_ring :=
  r ← pr_read eq st;
  match r with inl _ => None | inr (_, _, eq) => Some eq end.

(** [PerfRing::read]; [None] in the result is the exception out_of_range. *)
Definition read (eq : perf_ring) (st : storage) : option (option (list Z) * perf_ring) :=
  size ← pr_peek_size eq st;
  if size =? - ENOENT then Some (None, eq)
  else
    ret ← pr_peek_copy eq st 0 (u16 size);
    eq ← pop eq st;
    Some (Some ret, eq).

(** The queue of events between the two sides, in the five segments of the
    element queue. *)
Abbreviation fifo := ElementQueue.fifo.
Abbreviation fifo_all := ElementQueue.fifo_all.
Abbreviation s_rel := ElementQueue.s_rel.
Abbreviation s_done := ElementQueue.s_done.
Abbreviation s_avail := ElementQueue.s_avail.
Abbreviation s_pub := ElementQueue.s_pub.
Abbreviation s_pend := ElementQueue.s_pend.

(** ** Bytes in the ring *)

Section ring.
Context (sz k : Z) (Hk : 3 <= k <= 31) (Hsz : sz = 2 ^ k).

Lemma ring_size : 8 <= sz <= 2 ^ 31 /\ (8 | sz).
Proof.
  subst. pose proof (Z.pow_le_mono_r 2 3 k). pose proof (Z.pow_le_mono_r 2 k 31). split; [lia|].
  exists (2 ^ (k - 3)). change 8 with (2 ^ 3). rewrite <- Z.pow_add_r by lia. f_equal. lia.
Qed.

(** On unbounded counters, the ring [d] holds [bs] from [p] on. *)
Definition at_ (d : list Z) (p : Z) (bs : list Z) : Prop :=
  forall i, 0 <= i < zlen bs -> rd d ((p + i) mod sz) = rd bs i.

(** The bytes outside of the [len] bytes from [p] on are the same. *)
Definition framed (d d' : list Z) (p len : Z) : Prop :=
  zlen d' = zlen d /\ forall n, p + len - sz <= n < p -> rd d' (n mod sz) = rd d (n mod sz).

Lemma rd_app_l (xs ys : list Z) (i : Z) : i < zlen xs -> rd (xs ++ ys) i = rd xs i.
Proof.
  intros Hi. unfold rd, zlen in *. destruct (Z.leb_spec 0 i); [|done]. apply lookup_app_l. lia.
Qed.

Lemma rd_app_r (xs ys : list Z) (i : Z) : 0 <= i -> rd (xs ++ ys) (zlen xs + i) = rd ys i.
Proof.
  intros Hi. unfold rd, zlen in *. destruct (Z.leb_spec 0 (Z.of_nat (length xs) + i)), (Z.leb_spec 0 i); try lia.
  rewrite lookup_app_r by lia. f_equal. lia.
Qed.

Lemma at_app (d : list Z) (p : Z) (xs ys : list Z) :
  at_ d p (xs ++ ys) <-> at_ d p xs /\ at_ d (p + zlen xs) ys.
Proof.
  unfold at_. rewrite zlen_app. pose proof (zlen_nonneg xs). pose proof (zlen_nonneg ys). split.
  - intros Ha. split; intros i Hi.
    + rewrite Ha by lia. apply rd_app_l. lia.
    + rewrite <- Z.add_assoc, Ha by lia. apply rd_app_r. lia.
  - intros [Hx Hy] i Hi. destruct (decide (i < zlen xs)).
    + rewrite Hx by lia. symmetry. apply rd_app_l. lia.
    + replace i with (zlen xs + (i - zlen xs)) by lia. rewrite rd_app_r by lia.
      rewrite Z.add_assoc. apply Hy. lia.
Qed.

Lemma mod_plus (p i : Z) : 0 <= i -> p mod sz + i < sz -> (p + i) mod sz = p mod sz + i.
Proof.
  intros Hi Hlt. pose proof ring_size as [? _]. pose proof (Z.mod_pos_bound p sz).
  rewrite <- Zplus_mod_idemp_l. apply Z.mod_small. lia.
Qed.

Lemma at_read (d : list Z) (p : Z) (bs : list Z) :
  zlen d = sz -> at_ d p bs -> p mod sz + zlen bs <= sz -> mem_read d (p mod sz) (zlen bs) = Some bs.
Proof.
  intros Hd Ha Hfit. pose proof ring_size as [? _]. pose proof (Z.mod_pos_bound p sz).
  apply mem_read_spec. split_and!; [lia|done|lia|]. intros i Hi. rewrite <- mod_plus by lia. by apply Ha.
Qed.

Lemma at_exists (d : list Z) (p len : Z) :
  zlen d = sz -> 0 <= len -> exists bs, zlen bs = len /\ at_ d p bs.
Proof.
  intros Hd Hlen. pose proof ring_size as [? _].
  exists ((fun i => default 0 (rd d ((p + Z.of_nat i) mod sz))) <$> seq 0 (Z.to_nat len)).
  assert (Hl : zlen ((fun i => default 0 (rd d ((p + Z.of_nat i) mod sz))) <$> seq 0 (Z.to_nat len)) = len)
    by (unfold zlen; rewrite length_fmap, length_seq; lia).
  split; [done|]. intros i Hi. rewrite Hl in Hi.
  unfold rd at 2. destruct (Z.leb_spec 0 i); [|lia].
  rewrite list_lookup_fmap, lookup_seq_lt by lia. cbn [fmap option_fmap option_map].
  replace (p + Z.of_nat (0 + Z.to_nat i)) with (p + i) by lia.
  destruct (rd_is_Some d ((p + i) mod sz)) as [b Hb];
    [pose proof (Z.mod_pos_bound (p + i) sz); lia|]. by rewrite Hb.
Qed.

(** Part of what is in the ring. *)
Lemma at_sub (d : list Z) (p o : Z) (e bs : list Z) :
  at_ d p e -> at_ d (p + o) bs -> 0 <= o -> o + zlen bs <= zlen e -> mem_read e o (zlen bs) = Some bs.
Proof.
  intros He Hb Ho Hl. apply mem_read_spec. split_and!; [done|done|done|]. intros i Hi.
  rewrite <- Hb, <- Z.add_assoc by done. symmetry. apply He. lia.
Qed.

Lemma at_part (d : list Z) (p o : Z) (e bs : list Z) :
  at_ d p e -> mem_read e o (zlen bs) = Some bs -> at_ d (p + o) bs.
Proof.
  intros He (Ho & _ & Hl & Hb)%mem_read_spec i Hi. rewrite <- Hb, <- Z.add_assoc by done. apply He. lia.
Qed.

Lemma at_framed (d d' : list Z) (p len q : Z) (bs : list Z) :
  framed d d' p len -> p + len - sz <= q -> q + zlen bs <= p -> at_ d q bs -> at_ d' q bs.
Proof. intros [_ Hf] Hq Hp Ha i Hi. rewrite Hf by lia. by apply Ha. Qed.

Lemma framed_trans (d d1 d2 : list Z) (p len q len' : Z) :
  framed d d1 q len' -> framed d1 d2 p len ->
  forall p0 len0, p0 <= p -> p + len <= p0 + len0 -> p0 <= q -> q + len' <= p0 + len0 -> len0 <= sz ->
  0 <= len -> 0 <= len' ->
  framed d d2 p0 len0.
Proof.
  intros [Hl1 Hf1] [Hl2 Hf2] p0 len0 H1 H2 H3 H4 H5 H6 H7. split; [congruence|].
  intros n Hn. rewrite Hf2 by lia. apply Hf1. lia.
Qed.

Lemma write_at (d : list Z) (p : Z) (bs : list Z) :
  zlen d = sz -> p mod sz + zlen bs <= sz ->
  exists d', mem_write d (p mod sz) bs = Some d' /\ framed d d' p (zlen bs) /\ at_ d' p bs.
Proof.
  intros Hd Hfit. pose proof ring_size as [? _]. pose proof (Z.mod_pos_bound p sz).
  destruct (mem_write_spec d (p mod sz) bs) as (d' & Hw & Hl & Hrd); [lia|lia|].
  exists d'. split; [done|]. split; [split; [done|]|].
  - intros n Hn. rewrite Hrd. destruct (decide _) as [Hin|]; [|done]. exfalso.
    set (j := n mod sz - p mod sz) in *.
    apply (mod_neq n (p + j) sz); [subst j; lia|]. rewrite mod_plus by (subst j; lia). subst j. lia.
  - intros i Hi. rewrite mod_plus, Hrd by lia. rewrite decide_True by lia. f_equal. lia.
Qed.

Lemma land_mask_sz (p : Z) : Z.land (u32 p) (sz - 1) = p mod sz.
Proof. subst sz. apply land_mask_u32. lia. Qed.

(** [ring_span] on unbounded counters. *)
Lemma ring_span_spec (eq : perf_ring) (p len : Z) :
  buf_mask eq = sz - 1 -> 0 < len <= sz ->
  ring_span eq (u32 p) len =
  (p mod sz, Z.min len (sz - p mod sz), len - Z.min len (sz - p mod sz)).
Proof.
  intros Hm Hlen. pose proof ring_size as [? _]. pose proof (Z.mod_pos_bound p sz).
  unfold ring_span. rewrite Hm.
  replace (u32 (u32 p + len - 1)) with (u32 (p + len - 1)) by (rewrite <- !Z.add_sub_assoc; by wrap32).
  rewrite !land_mask_sz.
  destruct (decide (p mod sz + len <= sz)) as [Hf|Hf].
  - replace ((p + len - 1) mod sz) with (p mod sz + (len - 1))
      by (rewrite <- Z.add_sub_assoc, mod_plus by lia; done).
    destruct (Z.ltb_spec (p mod sz + (len - 1)) (p mod sz)); [lia|]. rewrite Z.min_l, Z.sub_diag by lia. done.
  - assert (He : (p + len - 1) mod sz = p mod sz + len - 1 - sz).
    { rewrite <- Z.add_sub_assoc, <- Zplus_mod_idemp_l. symmetry. apply Z.mod_unique with 1; lia. }
    rewrite He. destruct (Z.ltb_spec (p mod sz + len - 1 - sz) (p mod sz)); [|lia].
    rewrite Z.min_r by lia. rewrite u32_small, s32_small by lia. f_equal; [f_equal|]; lia.
Qed.

(** Splitting at the end of the ring. *)
Lemma split_at (p : Z) (bs : list Z) :
  let l1 := Z.min (zlen bs) (sz - p mod sz) in
  exists xs ys, bs = xs ++ ys /\ zlen xs = l1 /\ zlen ys = zlen bs - l1 /\
    (0 < zlen ys -> (p + zlen xs) mod sz = 0).
Proof.
  intros l1. pose proof ring_size as [? _]. pose proof (Z.mod_pos_bound p sz). pose proof (zlen_nonneg bs).
  exists (take (Z.to_nat l1) bs), (drop (Z.to_nat l1) bs). rewrite take_drop.
  assert (Hx : zlen (take (Z.to_nat l1) bs) = l1) by (unfold zlen in *; rewrite length_take; lia).
  split_and!; [done|done|unfold zlen in *; rewrite length_drop; lia|].
  intros Hy. rewrite Hx.
  assert (l1 = sz - p mod sz) as -> by (unfold zlen in Hy; rewrite length_drop in Hy; unfold zlen in *; lia).
  pose proof (Z.div_mod p sz ltac:(lia)) as Hdm.
  replace (p + (sz - p mod sz)) with ((p / sz + 1) * sz) by lia. apply Z.mod_mul. lia.
Qed.

Lemma span_read (d : list Z) (p : Z) (bs : list Z) :
  zlen d = sz -> at_ d p bs -> zlen bs <= sz ->
  let l1 := Z.min (zlen bs) (sz - p mod sz) in
  exists xs ys, mem_read d (p mod sz) l1 = Some xs /\ mem_read d 0 (zlen bs - l1) = Some ys /\ xs ++ ys = bs.
Proof.
  intros Hd Ha Hl l1. pose proof ring_size as [? _]. pose proof (Z.mod_pos_bound p sz).
  destruct (split_at p bs) as (xs & ys & Hb & Hx & Hy & Hw). fold l1 in Hx, Hy.
  rewrite Hb in Ha. apply at_app in Ha as [Hax Hay]. exists xs, ys. split_and!; [| |done].
  - rewrite <- Hx. apply at_read; [done|done|]. lia.
  - rewrite <- Hy. destruct (decide (zlen ys = 0)) as [Hy0|Hy0].
    + assert (ys = []) as -> by (destruct ys; [done|unfold zlen in Hy0; simpl in Hy0; lia]).
      change (zlen []) with 0. apply mem_read_spec. split_and!; [lia|done|lia|lia].
    + pose proof (zlen_nonneg ys). rewrite <- (Hw ltac:(lia)). apply at_read; [done|done|].
      rewrite Hw by lia. pose proof (zlen_nonneg xs). rewrite Hb, zlen_app in Hl. lia.
Qed.

(** The two copies of [PerfRing::write]. *)
Lemma span_write (d : list Z) (p : Z) (bs : list Z) :
  zlen d = sz -> zlen bs <= sz -> sz < p mod sz + zlen bs ->
  exists xs ys d1 d2, mem_read bs 0 (sz - p mod sz) = Some xs /\ mem_write d (p mod sz) xs = Some d1 /\
    mem_read bs (sz - p mod sz) (p mod sz + zlen bs - sz) = Some ys /\ mem_write d1 0 ys = Some d2 /\
    framed d d2 p (zlen bs) /\ at_ d2 p bs.
Proof.
  intros Hd Hl Hwrap. pose proof ring_size as [? _]. pose proof (Z.mod_pos_bound p sz).
  destruct (split_at p bs) as (xs & ys & Hb & Hx & Hy & Hw). rewrite Z.min_r in Hx, Hy by lia.
  specialize (Hw ltac:(lia)).
  destruct (write_at d p xs) as (d1 & Hw1 & Hf1 & Ha1); [done|lia|].
  destruct (write_at d1 (p + zlen xs) ys) as (d2 & Hw2 & Hf2 & Ha2); [by rewrite (proj1 Hf1)|rewrite Hw; lia|].
  rewrite Hw in Hw2. exists xs, ys, d1, d2.
  assert (Hbs : zlen bs = zlen xs + zlen ys) by (rewrite Hb; apply zlen_app).
  split_and!.
  - apply mem_read_spec. split_and!; [lia|lia|lia|]. intros i Hi. rewrite Hb. apply rd_app_l. lia.
  - done.
  - apply mem_read_spec. split_and!; [lia|lia|lia|]. intros i Hi. rewrite Hb, <- Hx. apply rd_app_r. lia.
  - done.
  - eapply framed_trans; [exact Hf1|exact Hf2|lia..].
  - rewrite Hb. apply at_app. split; [|done]. eapply at_framed; [exact Hf2|lia..|done].
Qed.

(** ** Events *)

(** The bytes of one event in the ring. *)
Definition event_ok (e : list Z) : Prop :=
  8 <= zlen e < 2 ^ 16 /\ (8 | zlen e) /\ le_decode <$> mem_read e 6 2 = Some (zlen e).

(** The event with which [write elem type] fills the ring. *)
Definition carries (type : Z) (elem e : list Z) : Prop :=
  event_ok e /\ zlen e = align8 (zlen elem + 8) /\
  le_decode <$> mem_read e 0 4 = Some type /\ mem_read e 8 (zlen elem) = Some elem.

Definition blen (es : list (list Z)) : Z := zlen (concat es).

Lemma blen_app (xs ys : list (list Z)) : blen (xs ++ ys) = blen xs + blen ys.
Proof. unfold blen. by rewrite concat_app, zlen_app. Qed.

Lemma blen_cons (e : list Z) (es : list (list Z)) : blen (e :: es) = zlen e + blen es.
Proof. unfold blen. simpl. by rewrite zlen_app. Qed.

Lemma blen_nonneg (es : list (list Z)) : 0 <= blen es.
Proof. apply zlen_nonneg. Qed.

(** The writer [w] and the reader [r] of the ring implement the queue [f] of
    events; [bh] is the unbounded counter of the oldest. *)
Record pr_rep (w r : perf_ring) (st : storage) (f : fifo) (bh : Z) : Prop := {
  rep_wm : buf_mask w = sz - 1;
  rep_rm : buf_mask r = sz - 1;
  rep_data : zlen (data st) = sz;
  rep_wh : buf_head w = u32 bh;
  rep_st : u32 (data_tail st) = u32 (bh + blen (s_rel f));
  rep_rh : buf_head r = u32 (bh + blen (s_rel f ++ s_done f));
  rep_rt : buf_tail r = u32 (bh + blen (s_rel f ++ s_done f ++ s_avail f));
  rep_sh : u32 (data_head st) = u32 (bh + blen (s_rel f ++ s_done f ++ s_avail f ++ s_pub f));
  rep_wt : buf_tail w = u32 (bh + blen (fifo_all f));
  rep_room : blen (fifo_all f) <= sz;
  rep_align : (8 | bh);
  rep_bytes : at_ (data st) bh (concat (fifo_all f));
  rep_events : Forall event_ok (fifo_all f)
}.

Lemma blen_div (es : list (list Z)) : Forall event_ok es -> (8 | blen es).
Proof.
  induction 1 as [|e es (_ & He & _) _ IH]; [by exists 0|].
  rewrite blen_cons. by apply Z.divide_add_r.
Qed.

(** ** The writer *)

Section writer.
Context {w r : perf_ring} {st : storage} {f : fifo} {bh : Z} (Hrep : pr_rep w r st f bh).

Definition w_end : Z := bh + blen (fifo_all f).

Lemma w_end_align : (8 | w_end).
Proof. unfold w_end. apply Z.divide_add_r; [apply Hrep|apply blen_div, Hrep]. Qed.

(** An aligned piece of at most 8 bytes does not wrap around. *)
Lemma aligned_fits (p o n : Z) :
  (8 | p) -> 0 <= o -> 0 < n -> o + n <= 8 -> (p + o) mod sz = p mod sz + o /\ p mod sz + o + n <= sz.
Proof.
  intros Hp Ho Hn Hon. pose proof ring_size as [Hs [q Hq]]. pose proof (Z.mod_pos_bound p sz ltac:(lia)).
  assert (Hd : (8 | p mod sz)).
  { rewrite Z.mod_eq by lia. apply Z.divide_sub_r; [done|]. apply Z.divide_mul_l. by exists q. }
  assert (Hle : p mod sz + 8 <= sz) by (destruct Hd as [c Hc]; lia).
  rewrite mod_plus by lia. lia.
Qed.

Lemma aligned_len_eq (len : Z) : 0 <= len < 2 ^ 16 ->
  Z.land (len + header_size + 7) (not32 7) = align8 (len + 8) /\ len + 8 <= align8 (len + 8) <= len + 15 /\
  (8 | align8 (len + 8)).
Proof.
  intros Hl. unfold header_size, align8. rewrite u32_small by lia. split; [done|].
  pose proof (align8_bounds (len + 8)) as Hb. pose proof (align8_mod8 (len + 8)) as Hm.
  unfold align8 in *. rewrite u32_small in * by lia. split; [lia|]. by apply Z.mod_divide.
Qed.

Lemma pr_write_spec (len type : Z) :
  0 <= len < 2 ^ 16 ->
  let al := align8 (len + 8) in
  ((sz <= al \/ 2 ^ 16 <= al) /\ pr_write w st len type = Some (inl (- EINVAL))) \/
  (al < sz /\ al < 2 ^ 16 /\ sz < blen (fifo_all f) + al /\ pr_write w st len type = Some (inl (- ENOSPC))) \/
  (al < sz /\ al < 2 ^ 16 /\ blen (fifo_all f) + al <= sz /\ exists d,
     pr_write w st len type = Some (inr ((w_end + 8) mod sz, mk_pr (sz - 1) (buf_head w) (u32 (w_end + al)),
       mk_storage (data_head st) (data_tail st) d)) /\
     framed (data st) d w_end 8 /\ at_ d w_end (le_encode 4 type) /\ at_ d (w_end + 6) (le_encode 2 al)).
Proof.
  intros Hl al. destruct (aligned_len_eq len Hl) as (Hal & Hb & _). unfold pr_write. cbv zeta. rewrite Hal.
  fold al in Hb |- *. pose proof ring_size as [Hs _]. rewrite (rep_wm _ _ _ _ _ Hrep).
  destruct (Z.ltb_spec (sz - 1) al); [left; split; [lia|done]|].
  destruct (Z.leb_spec (2 ^ 16) al); [left; split; [lia|done]|]. right.
  rewrite (rep_wt _ _ _ _ _ Hrep), (rep_wh _ _ _ _ _ Hrep). fold w_end.
  replace (u32 (u32 w_end + al - u32 bh)) with (blen (fifo_all f) + al).
  2:{ rewrite <- (u32_small (blen (fifo_all f) + al)).
      - rewrite <- Z.add_sub_assoc, u32_add_l, Z.add_sub_assoc, u32_sub_r. unfold w_end. f_equal. lia.
      - pose proof (rep_room _ _ _ _ _ Hrep). pose proof (blen_nonneg (fifo_all f)). lia. }
  rewrite (u32_small (sz - 1 + 1)) by lia.
  destruct (Z.ltb_spec (sz - 1 + 1) (blen (fifo_all f) + al)); [left; split_and!; [lia..|done]|right].
  split_and!; [lia..|]. unfold header_size. wrap32. rewrite !land_mask_sz.
  destruct (aligned_fits w_end 6 2 w_end_align) as [H6 H6']; [lia..|].
  destruct (aligned_fits w_end 0 4 w_end_align) as [_ H0']; [lia..|].
  rewrite <- H6.
  destruct (write_at (data st) (w_end + 6) (le_encode 2 al)) as (d1 & -> & Hf1 & Ha1);
    [apply Hrep|unfold zlen; rewrite length_le_encode; lia|]. cbn [mbind option_bind].
  destruct (write_at d1 w_end (le_encode 4 type)) as (d2 & -> & Hf2 & Ha2);
    [rewrite (proj1 Hf1); apply Hrep|unfold zlen; rewrite length_le_encode; lia|]. cbn [mbind option_bind].
  exists d2. split; [done|]. unfold zlen in Hf1, Hf2. rewrite length_le_encode in Hf1, Hf2. split_and!; [|done|].
  - eapply framed_trans; [exact Hf1|exact Hf2|lia..].
  - intros i Hi. unfold zlen in Hi. rewrite length_le_encode in Hi.
    rewrite <- Ha1 by (unfold zlen; rewrite length_le_encode; lia).
    (* the positions after the type field *)
    replace ((w_end + 6 + i) mod sz) with ((w_end + 6 + i - sz) mod sz)
      by (rewrite <- (Z.mod_add (w_end + 6 + i - sz) 1 sz) by lia; f_equal; lia).
    apply Hf2. lia.
Qed.

(** The copy of the contents. *)
Lemma copy_spec (d : list Z) (elem : list Z) (eq : perf_ring) (dh dt : Z) :
  zlen d = sz -> buf_mask eq = sz - 1 -> zlen elem < 2 ^ 16 -> zlen elem <= sz ->
  let p := w_end + 8 in
  exists d', framed d d' p (zlen elem) /\ at_ d' p elem /\
    copy_elem eq (mk_storage dh dt d) (p mod sz) elem = Some (Written eq (mk_storage dh dt d')).
Proof.
  intros Hd Hm Hl Hle p. unfold copy_elem. cbn [data data_head data_tail].
  destruct (Z.eqb_spec (zlen elem) 0) as [H0|H0].
  { exists d. split; [done|]. split; [intros i Hi; lia|done]. }
  set (end_ := s32 (Z.land _ _)). pose proof (zlen_nonneg elem). pose proof ring_size as [Hs _]. pose proof (Z.mod_pos_bound p sz).
  assert (Hend : end_ = (p mod sz + zlen elem - 1) mod sz).
  { subst end_. rewrite Hm, u64_small by lia. rewrite Hsz at 2. rewrite land_mask by lia. rewrite <- Hsz.
    apply s32_small. pose proof (Z.mod_pos_bound (p mod sz + zlen elem - 1) sz). lia. }
  clearbody end_. subst end_.
  destruct (decide (p mod sz + zlen elem <= sz)) as [Hf|Hf].
  - rewrite Z.mod_small by lia. destruct (Z.ltb_spec (p mod sz + zlen elem - 1 - p mod sz) 0); [lia|].
    destruct (write_at d p elem) as (d' & -> & Hfr & Ha); [done|lia|]. by exists d'.
  - replace ((p mod sz + zlen elem - 1) mod sz) with (p mod sz + zlen elem - 1 - sz)
      by (apply Z.mod_unique with 1; lia).
    destruct (Z.ltb_spec (p mod sz + zlen elem - 1 - sz - p mod sz) 0); [|lia].
    rewrite Hm. replace (sz - 1 + 1 - p mod sz) with (sz - p mod sz) by lia.
    rewrite u32_small, s32_small by lia.
    destruct (span_write d p elem) as (xs & ys & d1 & d2 & Hx & Hw1 & Hy & Hw2 & Hfr & Ha); [done|lia|lia|].
    exists d2. split; [done|]. split; [done|]. cbv zeta.
    rewrite Hx. cbn [mbind option_bind]. rewrite Hw1. cbn [mbind option_bind].
    replace (p mod sz + zlen elem - 1 - sz + 1) with (p mod sz + zlen elem - sz) by lia.
    rewrite Hy. cbn [mbind option_bind]. by rewrite Hw2.
Qed.

Lemma append_rep (d e : list Z) :
  zlen e + blen (fifo_all f) <= sz -> event_ok e -> framed (data st) d w_end (zlen e) -> at_ d w_end e ->
  pr_rep (mk_pr (sz - 1) (buf_head w) (u32 (w_end + zlen e))) r (mk_storage (data_head st) (data_tail st) d)
    (ElementQueue.fifo_write f e) bh.
Proof.
  intros Hroom Hok Hfr Ha. destruct Hrep.
  assert (Hall : fifo_all (ElementQueue.fifo_write f e) = fifo_all f ++ [e]) by apply ElementQueue.fifo_all_write.
  constructor; cbn [buf_mask buf_head buf_tail data data_head data_tail]; try done.
  - by rewrite (proj1 Hfr).
  - rewrite Hall, blen_app, blen_cons. unfold w_end. f_equal. unfold blen at 3. simpl. change (zlen []) with 0. lia.
  - rewrite Hall, blen_app, blen_cons. change (blen []) with 0. lia.
  - rewrite Hall, concat_app. apply at_app. split.
    + eapply at_framed; [exact Hfr| | |done]; unfold w_end, blen in *; lia.
    + simpl. rewrite app_nil_r. exact Ha.
  - rewrite Hall. apply Forall_app. by split; [|constructor].
Qed.

(** A field of the event at [w_end]. *)
Lemma field_at (d e : list Z) (o v : Z) (n : nat) :
  at_ d w_end e -> at_ d (w_end + o) (le_encode n v) -> 0 <= o -> o + Z.of_nat n <= zlen e ->
  0 <= v < 256 ^ Z.of_nat n -> le_decode <$> mem_read e o (Z.of_nat n) = Some v.
Proof.
  intros He Hf Ho Hl Hv. assert (Hn : zlen (le_encode n v) = Z.of_nat n) by (unfold zlen; by rewrite length_le_encode).
  rewrite <- Hn at 1. rewrite (at_sub d w_end o e (le_encode n v)) by (rewrite ?Hn; done).
  cbn [fmap option_fmap option_map]. rewrite le_roundtrip. f_equal. by apply Z.mod_small.
Qed.

(** The event that is in the ring when its header and its contents are. *)
Lemma carries_at (d e elem : list Z) (type : Z) :
  let al := align8 (zlen elem + 8) in
  zlen elem < 2 ^ 16 -> al < 2 ^ 16 -> 0 <= type < 2 ^ 32 -> zlen e = al -> at_ d w_end e ->
  at_ d w_end (le_encode 4 type) -> at_ d (w_end + 6) (le_encode 2 al) -> at_ d (w_end + 8) elem ->
  carries type elem e.
Proof.
  intros al Hl Ha Hty Hel Hea Hat Has Hae. pose proof (zlen_nonneg elem).
  destruct (aligned_len_eq (zlen elem)) as (_ & Hb & Hdiv); [lia|]. fold al in Hb, Hdiv.
  split; [|split; [done|split]].
  - rewrite <- Hel in *. split; [lia|]. split; [done|]. by apply (field_at d e 6 (zlen e) 2); [..|lia|lia|lia].
  - apply (field_at d e 0 type 4); [done|by rewrite Z.add_0_r|lia|lia|lia].
  - by apply (at_sub d w_end 8 e elem); [..|lia|lia].
Qed.

(** [PerfRing::write] of an element shorter than 64 KiB. *)
Lemma pr_write_refines (elem : list Z) (type : Z) :
  zlen elem < 2 ^ 16 -> 0 <= type < 2 ^ 32 ->
  let al := align8 (zlen elem + 8) in
  ((sz <= al \/ 2 ^ 16 <= al) /\ write w st elem type = Some invalid_argument) \/
  (al < sz /\ al < 2 ^ 16 /\ sz < blen (fifo_all f) + al /\ write w st elem type = Some range_error) \/
  (al < sz /\ al < 2 ^ 16 /\ blen (fifo_all f) + al <= sz /\ exists e w' st',
     write w st elem type = Some (Written w' st') /\ carries type elem e /\
     pr_rep w' r st' (ElementQueue.fifo_write f e) bh).
Proof.
  intros Hl Hty al. pose proof (zlen_nonneg elem). pose proof ring_size as [Hs _].
  destruct (aligned_len_eq (zlen elem)) as (_ & Hb & _); [lia|]. fold al in Hb.
  unfold write. rewrite (u16_small (zlen elem)) by lia.
  destruct (pr_write_spec (zlen elem) type) as
    [[Hc ->]|[(H1 & H2 & H3 & ->)|(H1 & H2 & H3 & d & -> & Hfr & Hat & Has)]]; [lia|by left|by right; left|].
  right. right. split_and!; [done..|]. cbn [mbind option_bind]. fold al in H1, H2, H3, Has |- *.
  assert (Hdl : zlen d = sz) by (rewrite (proj1 Hfr); apply Hrep).
  destruct (copy_spec d elem (mk_pr (sz - 1) (buf_head w) (u32 (w_end + al))) (data_head st) (data_tail st))
    as (d' & Hf' & Ha' & ->); [done|done|lia|lia|].
  destruct (at_exists d' w_end al) as (e & Hel & Hea); [by rewrite (proj1 Hf')|lia|].
  assert (Hpre : forall o n v, 0 <= o -> o + Z.of_nat n <= 8 ->
    at_ d (w_end + o) (le_encode n v) -> at_ d' (w_end + o) (le_encode n v)).
  { intros o n v Ho Hn Hd. eapply at_framed; [exact Hf'|lia| |done].
    unfold zlen. rewrite length_le_encode. lia. }
  assert (Hc : carries type elem e).
  { apply (carries_at d'); try done; [|by apply Hpre].
    rewrite <- (Z.add_0_r w_end). apply Hpre; [lia|lia|by rewrite Z.add_0_r]. }
  eexists e, _, _. split; [done|]. split; [done|]. rewrite <- Hel. apply append_rep; [lia|apply Hc| |done].
  eapply framed_trans; [exact Hfr|exact Hf'|lia..].
Qed.
End writer.

(** ** The reader *)

Section reader.
Context {w r : perf_ring} {st : storage} {f : fifo} {bh : Z} (Hrep : pr_rep w r st f bh).

Definition r_pos : Z := bh + blen (s_rel f ++ s_done f).

Lemma r_tail : s_avail f = [] <-> buf_tail r = buf_head r.
Proof.
  rewrite (rep_rt _ _ _ _ _ Hrep), (rep_rh _ _ _ _ _ Hrep). rewrite app_assoc, (blen_app _ (s_avail f)).
  split; [intros ->; by rewrite Z.add_0_r|]. intros Heq.
  pose proof (rep_events _ _ _ _ _ Hrep) as Hev. pose proof (rep_room _ _ _ _ _ Hrep) as Hroom.
  pose proof ring_size as [Hs _].
  unfold ElementQueue.fifo_all in Hev, Hroom. rewrite !blen_app in Hroom.
  pose proof (blen_nonneg (s_rel f)). pose proof (blen_nonneg (s_done f)). pose proof (blen_nonneg (s_avail f)).
  pose proof (blen_nonneg (s_pub f)). pose proof (blen_nonneg (s_pend f)).
  apply u32_eq_small in Heq; [|lia].
  destruct (s_avail f) as [|e rest]; [done|]. rewrite !Forall_app, Forall_cons in Hev.
  destruct Hev as (_ & _ & [[Hlen _] _] & _). rewrite blen_cons in Heq, Hroom. pose proof (blen_nonneg rest). lia.
Qed.

Context {e : list Z} {rest : list (list Z)} (Hav : s_avail f = e :: rest).

Lemma r_event : event_ok e /\ at_ (data st) r_pos e /\ (8 | r_pos) /\ zlen e <= sz.
Proof.
  pose proof (rep_events _ _ _ _ _ Hrep) as Hev. pose proof (rep_bytes _ _ _ _ _ Hrep) as Hb.
  pose proof (rep_room _ _ _ _ _ Hrep) as Hroom.
  unfold ElementQueue.fifo_all in *. rewrite Hav, app_assoc in *. rewrite Forall_app in Hev.
  destruct Hev as [Hpre [He _]%Forall_cons]. rewrite concat_app in Hb. apply at_app in Hb as [_ Hb].
  simpl in Hb. apply at_app in Hb as [Hb _]. split; [done|]. split; [exact Hb|]. split.
  - apply Z.divide_add_r; [apply Hrep|by apply blen_div].
  - rewrite blen_app in Hroom. simpl in Hroom. rewrite blen_cons in Hroom.
    pose proof (blen_nonneg (s_rel f ++ s_done f)). pose proof (blen_nonneg (rest ++ s_pub f ++ s_pend f)). lia.
Qed.

Lemma r_nonempty : (buf_tail r =? buf_head r) = false.
Proof. apply Z.eqb_neq. rewrite <- r_tail, Hav. done. Qed.

Lemma r_aligned : Z.land (buf_head r) 7 = 0.
Proof.
  destruct r_event as (_ & _ & [c Hc] & _). rewrite (rep_rh _ _ _ _ _ Hrep). fold r_pos.
  change 7 with (2 ^ 3 - 1). rewrite land_mask_u32 by lia. rewrite Hc. by apply Z.mod_mul.
Qed.

(** A field of the event that lies in one aligned word. *)
Lemma read_word (j o n : Z) (bs : list Z) :
  0 <= j -> 0 <= o -> o + n <= 8 -> 0 < n -> mem_read e (8 * j + o) n = Some bs ->
  mem_read (data st) ((r_pos + 8 * j + o) mod sz) n = Some bs.
Proof.
  intros Hj Ho Hon Hn Hm. destruct r_event as (_ & Ha & Hd & _). pose proof (mem_read_zlen _ _ _ _ Hm) as Hl.
  destruct (aligned_fits (r_pos + 8 * j) o n) as [H1 H2];
    [apply Z.divide_add_r; [done|by apply Z.divide_factor_l]|lia..|].
  rewrite <- Hl. apply at_read; [apply Hrep| |lia].
  rewrite <- Z.add_assoc. eapply at_part; [done|]. by rewrite Hl.
Qed.

Lemma head_size_spec : head_size r st = Some (zlen e).
Proof.
  destruct r_event as ((_ & _ & Hsz') & _ & _). unfold head_size.
  rewrite (rep_rm _ _ _ _ _ Hrep), (rep_rh _ _ _ _ _ Hrep), land_mask_sz. fold r_pos.
  destruct (mem_read e 6 2) as [bs|] eqn:Hm; [|done].
  pose proof (read_word 0 6 2 bs ltac:(lia) ltac:(lia) ltac:(lia) ltac:(lia) Hm) as Hw.
  rewrite Z.mul_0_r, Z.add_0_r in Hw. destruct r_event as (_ & _ & Hd & _).
  destruct (aligned_fits r_pos 6 2 Hd) as [H6 _]; [lia..|]. rewrite H6 in Hw. by rewrite Hw.
Qed.

Lemma pr_peek_size_spec : pr_peek_size r st = Some (zlen e - 8).
Proof. unfold pr_peek_size. by rewrite r_nonempty, r_aligned, head_size_spec. Qed.

Lemma pr_peek_type_spec (type : Z) :
  le_decode <$> mem_read e 0 4 = Some type -> pr_peek_type r st = Some type.
Proof.
  intros Ht. unfold pr_peek_type. rewrite r_nonempty.
  rewrite (rep_rm _ _ _ _ _ Hrep), (rep_rh _ _ _ _ _ Hrep), land_mask_sz. fold r_pos.
  destruct (mem_read e 0 4) as [bs|] eqn:Hm; [|done].
  pose proof (read_word 0 0 4 bs ltac:(lia) ltac:(lia) ltac:(lia) ltac:(lia) Hm) as Hw.
  rewrite Z.mul_0_r, !Z.add_0_r in Hw. by rewrite Hw.
Qed.

Lemma peek_aligned_spec (b j o : Z) (bs : list Z) :
  0 <= b <= 3 -> 0 <= j -> 0 <= o -> o + 2 ^ b <= 8 -> (2 ^ b | o) ->
  mem_read e (8 + (8 * j + o)) (2 ^ b) = Some bs ->
  peek_aligned (2 ^ b) r st (8 * j + o) = Some (le_decode bs).
Proof.
  intros Hb Hj Ho Hon Hdiv Hm. pose proof (pow2_pos b). unfold peek_aligned.
  rewrite (rep_rm _ _ _ _ _ Hrep), (rep_rh _ _ _ _ _ Hrep). fold r_pos. wrap32.
  destruct r_event as (_ & _ & Hd & _).
  assert (H8 : (2 ^ b | 8)).
  { exists (2 ^ (3 - b)). rewrite <- Z.pow_add_r by lia. by replace (3 - b + b) with 3 by lia. }
  assert (H0 : (r_pos + (8 * j + o)) mod 2 ^ b = 0).
  { apply Z.mod_divide; [lia|]. apply Z.divide_add_r; [by transitivity 8|]. apply Z.divide_add_r; [by apply Z.divide_mul_l|done]. }
  rewrite land_mask_u32, H0 by lia. cbn [negb Z.eqb]. unfold header_size.
  replace (u32 (u32 r_pos + 8 + (8 * j + o))) with (u32 (r_pos + 8 * (j + 1) + o))
    by (rewrite <- (Z.add_assoc (u32 r_pos) 8), u32_add_l; f_equal; lia).
  rewrite land_mask_sz, (read_word (j + 1) o (2 ^ b) bs); [done|lia..|].
  rewrite <- Hm. f_equal. lia.
Qed.

(** Copying part of the contents. *)
Lemma span_at (o : Z) (bs : list Z) :
  mem_read e (8 + o) (zlen bs) = Some bs -> 0 < zlen bs ->
  exists xs ys l1 l2, ring_span r (u32 (buf_head r + header_size + o)) (zlen bs) = ((r_pos + 8 + o) mod sz, l1, l2) /\
    0 <= l1 <= zlen bs /\ 0 <= l2 <= zlen bs /\
    mem_read (data st) ((r_pos + 8 + o) mod sz) l1 = Some xs /\ mem_read (data st) 0 l2 = Some ys /\ xs ++ ys = bs.
Proof.
  intros Hm Hl. destruct r_event as (_ & Ha & _ & Hle). pose proof ring_size as [Hs _].
  pose proof Hm as (_ & _ & Hin & _)%mem_read_spec. pose proof Hm as (Ho & _)%mem_read_spec.
  rewrite (rep_rh _ _ _ _ _ Hrep). fold r_pos. unfold header_size.
  replace (u32 (u32 r_pos + 8 + o)) with (u32 (r_pos + 8 + o)) by (rewrite <- !Z.add_assoc; by wrap32).
  rewrite ring_span_spec by (try apply Hrep; lia).
  destruct (span_read (data st) (r_pos + 8 + o) bs) as (xs & ys & Hx & Hy & Hxy);
    [apply Hrep|rewrite <- Z.add_assoc; by eapply at_part|lia|].
  pose proof (Z.mod_pos_bound (r_pos + 8 + o) sz). pose proof (zlen_nonneg bs).
  eexists xs, ys, _, _. split; [done|]. split; [lia|]. split; [lia|done].
Qed.

Lemma pr_peek_copy_spec (o len : Z) (bs : list Z) :
  0 <= o -> mem_read e (8 + o) len = Some bs -> pr_peek_copy r st o len = Some bs.
Proof.
  intros Ho Hm. pose proof (mem_read_zlen _ _ _ _ Hm) as Hl. subst len. unfold pr_peek_copy.
  destruct (Z.eqb_spec (zlen bs) 0) as [H0|H0].
  { destruct bs; [done|unfold zlen in H0; simpl in H0; lia]. }
  pose proof (zlen_nonneg bs). pose proof Hm as (_ & _ & Hin & _)%mem_read_spec.
  rewrite pr_peek_size_spec. cbn [mbind option_bind].
  destruct (Z.ltb_spec (zlen e - 8) (o + zlen bs)); [lia|].
  destruct (span_at o bs Hm ltac:(lia)) as (xs & ys & l1 & l2 & -> & _ & _ & -> & Hy & Hxy).
  cbn [mbind option_bind]. rewrite Hy. cbn [mbind option_bind]. by rewrite Hxy.
Qed.

(** The view of the raw sample in the event: 4 bytes that are skipped, its
    length, and its bytes. *)
Lemma pr_peek_spec (bs : list Z) :
  le_decode <$> mem_read e 12 4 = Some (zlen bs) -> mem_read e 16 (zlen bs) = Some bs ->
  exists xs ys, pr_peek r st = Some (xs, ys) /\ xs ++ ys = bs.
Proof.
  intros Hlen Hm. destruct r_event as ((He & _) & _ & _ & _).
  pose proof Hm as (_ & _ & Hin & _)%mem_read_spec. pose proof (zlen_nonneg bs).
  destruct (mem_read e 12 4) as [lb|] eqn:Hl; [|done]. injection Hlen as Hlen.
  unfold pr_peek, pr_peek_aligned_u32. change (peek_aligned 4 r st 4) with (peek_aligned (2 ^ 2) r st (8 * 0 + 4)).
  rewrite (peek_aligned_spec 2 0 4 lb) by (try done; try lia; by exists 1). cbn [mbind option_bind]. rewrite Hlen.
  destruct (Z.eqb_spec (zlen bs) 0) as [H0|H0].
  { exists [], []. split; [done|]. destruct bs; [done|unfold zlen in H0; simpl in H0; lia]. }
  rewrite pr_peek_size_spec. cbn [mbind option_bind]. rewrite !u32_small by lia.
  destruct (Z.ltb_spec (zlen e - 8) (8 + zlen bs)); [lia|].
  destruct (span_at 8 bs Hm ltac:(lia)) as (xs & ys & l1 & l2 & -> & Hl1 & Hl2 & Hx & Hy & Hxy).
  rewrite !u16_small by lia. rewrite Hx. cbn [mbind option_bind]. rewrite Hy. by exists xs, ys.
Qed.

Lemma pop_refines : exists r', pop r st = Some r' /\ pr_rep w r' st (ElementQueue.fifo_read f e rest) bh.
Proof.
  unfold pop, pr_read. rewrite r_nonempty, r_aligned. cbn [negb Z.eqb]. rewrite head_size_spec.
  cbn [mbind option_bind]. eexists. split; [done|].
  assert (Hall : fifo_all (ElementQueue.fifo_read f e rest) = fifo_all f).
  { unfold ElementQueue.fifo_all. simpl. rewrite Hav. by rewrite <- !app_assoc. }
  assert (Hseg : forall xs, (s_done f ++ [e]) ++ rest ++ xs = s_done f ++ s_avail f ++ xs).
  { intros xs. rewrite Hav. by rewrite <- !app_assoc. }
  destruct Hrep. constructor; rewrite ?Hall; cbn [buf_mask buf_head buf_tail]; try done; simpl.
  - rewrite rep_rh0. wrap32. f_equal. rewrite app_assoc, (blen_app _ [e]), blen_cons. change (blen []) with 0. lia.
  - rewrite rep_rt0. do 3 f_equal. rewrite <- (app_nil_r rest), Hseg, app_nil_r. done.
  - rewrite rep_sh0. by rewrite Hseg.
Qed.

Lemma pr_read_refines :
  exists body r', mem_read e 8 (zlen e - 8) = Some body /\ read r st = Some (Some body, r') /\
    pr_rep w r' st (ElementQueue.fifo_read f e rest) bh.
Proof.
  destruct r_event as ((Hl & _) & _). destruct pop_refines as (r' & Hpop & Hrep').
  assert (Hm : mem_read e 8 (zlen e - 8) = Some (drop 8 e)).
  { apply mem_read_spec. unfold zlen in *. rewrite length_drop. split_and!; [lia..|].
    intros i Hi. unfold rd. destruct (Z.leb_spec 0 (8 + i)), (Z.leb_spec 0 i); try lia.
    rewrite lookup_drop. f_equal. lia. }
  exists (drop 8 e), r'. split; [done|]. split; [|done].
  unfold read. rewrite pr_peek_size_spec. cbn [mbind option_bind].
  destruct (Z.eqb_spec (zlen e - 8) (- ENOENT)); [unfold ENOENT in *; lia|].
  rewrite u16_small by lia. rewrite (pr_peek_copy_spec 0 (zlen e - 8) (drop 8 e)) by done.
  cbn [mbind option_bind]. by rewrite Hpop.
Qed.
End reader.

(** ** Batches *)

Section batches.
Context {w r : perf_ring} {st : storage} {f : fifo} {bh : Z} (Hrep : pr_rep w r st f bh).

Lemma pr_start_write_rep :
  pr_rep (pr_start_write_batch w st) r st (ElementQueue.fifo_start_write f) (bh + blen (s_rel f)).
Proof.
  destruct Hrep. unfold ElementQueue.fifo_all in *.
  assert (Hx : forall xs, bh + blen (s_rel f) + blen xs = bh + blen (s_rel f ++ xs))
    by (intros xs; rewrite blen_app; lia).
  assert (Hev : Forall event_ok (s_rel f) /\
    Forall event_ok (s_done f ++ s_avail f ++ s_pub f ++ s_pend f)) by by apply Forall_app.
  constructor; unfold ElementQueue.fifo_all; cbn [pr_start_write_batch buf_mask buf_head buf_tail
    ElementQueue.fifo_start_write ElementQueue.s_rel ElementQueue.s_done ElementQueue.s_avail
    ElementQueue.s_pub ElementQueue.s_pend app]; rewrite ?Hx; try done.
  - by rewrite app_nil_r.
  - rewrite (blen_app (s_rel f)) in rep_room0. pose proof (blen_nonneg (s_rel f)). lia.
  - apply Z.divide_add_r; [done|]. apply blen_div, Hev.
  - rewrite concat_app in rep_bytes0. by apply at_app in rep_bytes0 as [_ ?].
  - apply Hev.
Qed.

Lemma pr_finish_write_rep : pr_rep w r (pr_finish_write_batch w st) (ElementQueue.fifo_finish_write f) bh.
Proof.
  assert (Hall : fifo_all (ElementQueue.fifo_finish_write f) = fifo_all f).
  { unfold ElementQueue.fifo_all. simpl. by rewrite app_nil_r. }
  destruct Hrep. constructor; rewrite ?Hall; try done. simpl. rewrite rep_wt0. by rewrite u32_u32.
Qed.

Lemma pr_start_read_rep : pr_rep w (pr_start_read_batch r st) st (ElementQueue.fifo_start_read f) bh.
Proof.
  assert (Hall : fifo_all (ElementQueue.fifo_start_read f) = fifo_all f).
  { unfold ElementQueue.fifo_all. simpl. by rewrite <- app_assoc. }
  destruct Hrep. constructor; rewrite ?Hall; try done. simpl. by rewrite app_nil_r.
Qed.

Lemma pr_finish_read_rep : pr_rep w r (pr_finish_read_batch r st) (ElementQueue.fifo_finish_read f) bh.
Proof.
  assert (Hall : fifo_all (ElementQueue.fifo_finish_read f) = fifo_all f).
  { unfold ElementQueue.fifo_all. simpl. by rewrite <- app_assoc. }
  destruct Hrep. constructor; rewrite ?Hall; try done; simpl; rewrite ?app_nil_r, <- ?app_assoc; try done.
  rewrite rep_rh0. by rewrite u32_u32.
Qed.

Lemma bytes_remaining_rep :
  pr_bytes_remaining r = if decide (blen (s_avail f) < sz) then blen (s_avail f) else 0.
Proof.
  pose proof ring_size as [Hs _]. unfold pr_bytes_remaining.
  rewrite (rep_rm _ _ _ _ _ Hrep), (rep_rt _ _ _ _ _ Hrep), (rep_rh _ _ _ _ _ Hrep), !land_mask_sz.
  rewrite app_assoc, (blen_app _ (s_avail f)), Z.add_assoc. set (p := bh + _).
  pose proof (rep_room _ _ _ _ _ Hrep) as Hroom. unfold ElementQueue.fifo_all in Hroom. rewrite !blen_app in Hroom.
  pose proof (blen_nonneg (s_rel f)). pose proof (blen_nonneg (s_done f)). pose proof (blen_nonneg (s_avail f)).
  pose proof (blen_nonneg (s_pub f)). pose proof (blen_nonneg (s_pend f)).
  set (n := blen (s_avail f)) in *. pose proof (Z.mod_pos_bound p sz ltac:(lia)).
  rewrite (u32_small (sz - 1 + 1)) by lia. case_decide.
  - destruct (decide (p mod sz + n < sz)).
    + rewrite mod_plus by lia. destruct (Z.ltb_spec (p mod sz + n) (p mod sz)); [lia|].
      rewrite u32_small; lia.
    + assert (He : (p + n) mod sz = p mod sz + n - sz).
      { rewrite <- Zplus_mod_idemp_l. symmetry. apply Z.mod_unique with 1; lia. }
      rewrite He. destruct (Z.ltb_spec (p mod sz + n - sz) (p mod sz)); [|lia].
      rewrite (u32_small (sz - 1 + 1 - p mod sz)), u32_small; lia.
  - replace n with sz by lia.
    replace ((p + sz) mod sz) with (p mod sz) by (rewrite <- (Z.mod_add p 1 sz) by lia; f_equal; lia).
    destruct (Z.ltb_spec (p mod sz) (p mod sz)); [lia|]. by rewrite Z.sub_diag.
Qed.
End batches.

(** A ring attached to an empty storage, whose counters may have any aligned value. *)
Lemma attach_ring_rep (n_pages page_size x : Z) (d : list Z) (q : perf_ring) :
  n_pages * page_size = sz -> zlen d = sz -> (8 | x) ->
  pr_init_contig (mk_storage x x d) n_pages page_size = inr q ->
  pr_rep q q (mk_storage x x d) ElementQueue.fifo_empty x.
Proof.
  intros Hn Hd Hx Hq. pose proof ring_size as [Hs _]. unfold pr_init_contig in Hq.
  rewrite Hn, (u64_small sz) in Hq by lia. destruct (_ || _); [done|]. injection Hq as <-.
  constructor; cbn; rewrite ?Z.add_0_r; try done; try (rewrite u32_small; lia).
  - change (blen []) with 0. lia.
  - intros i Hi. change (zlen []) with 0 in Hi. lia.
Qed.
End ring.

(** ** One writer and one reader *)

Record sys := mk_sys { sw : perf_ring; sr : perf_ring; sst : storage }.

Inductive op :=
| StartWrite
| Write (type : Z) (elem : list Z)
| FinishWrite
| StartRead
| Read
| FinishRead.

Inductive event :=
| Accepted (type : Z) (elem : list Z)
| Delivered (type : Z) (body : list Z)
| Quiet.

(** The reader peeks at the type before it reads. *)
Definition read_event (r : perf_ring) (st : storage) : option (perf_ring * event) :=
  size ← pr_peek_size r st;
  if size =? - ENOENT then Some (r, Quiet)
  else
    type ← pr_peek_type r st;
    res ← read r st;
    Some (res.2, match res.1 with Some body => Delivered type body | None => Quiet end).

Definition sys_step (s : sys) (o : op) : option (sys * event) :=
  match o with
  | StartWrite => Some (mk_sys (pr_start_write_batch (sw s) (sst s)) (sr s) (sst s), Quiet)
  | Write type elem =>
      res ← write (sw s) (sst s) elem type;
      match res with
      | Written w st => Some (mk_sys w (sr s) st, Accepted type elem)
      | _ => Some (s, Quiet)
      end
  | FinishWrite => Some (mk_sys (sw s) (sr s) (pr_finish_write_batch (sw s) (sst s)), Quiet)
  | StartRead => Some (mk_sys (sw s) (pr_start_read_batch (sr s) (sst s)) (sst s), Quiet)
  | Read => re ← read_event (sr s) (sst s); Some (mk_sys (sw s) re.1 (sst s), re.2)
  | FinishRead => Some (mk_sys (sw s) (sr s) (pr_finish_read_batch (sr s) (sst s)), Quiet)
  end.

Fixpoint sys_run (s : sys) (ops : list op) : option (sys * list event) :=
  match ops with
  | [] => Some (s, [])
  | o :: ops =>
      '(s', ev) ← sys_step s o;
      '(s'', evs) ← sys_run s' ops;
      Some (s'', ev :: evs)
  end.

Definition accepted (evs : list event) : list (Z * list Z) :=
  flat_map (fun ev => match ev with Accepted t e => [(t, e)] | _ => [] end) evs.
Definition delivered (evs : list event) : list (Z * list Z) :=
  flat_map (fun ev => match ev with Delivered t b => [(t, b)] | _ => [] end) evs.

(** Elements are shorter than 64 KiB and types are [u32]. *)
Definition op_ok (o : op) : Prop :=
  match o with Write type elem => zlen elem < 2 ^ 16 /\ 0 <= type < 2 ^ 32 | _ => True end.

(** What is read of an element: its type, and its bytes followed by padding. *)
Definition received (te tb : Z * list Z) : Prop :=
  tb.1 = te.1 /\ zlen tb.2 = align8 (zlen te.2 + 8) - 8 /\ te.2 `prefix_of` tb.2.

Abbreviation carried := (Forall2 (fun te e => carries te.1 te.2 e)).

Lemma carries_body (type : Z) (elem e body : list Z) :
  carries type elem e -> mem_read e 8 (zlen e - 8) = Some body -> received (type, elem) (type, body).
Proof.
  intros (Hok & Hl & _ & He) Hb. pose proof (mem_read_zlen _ _ _ _ Hb) as Hbl.
  split; [done|]. split; [simpl; lia|]. simpl.
  apply mem_read_spec in He as (_ & _ & Hfit & He). apply mem_read_spec in Hb as (_ & _ & _ & Hb).
  exists (drop (length elem) body). rewrite <- (take_drop (length elem) body) at 1. f_equal.
  apply list_eq. intros i. destruct (decide (i < length elem)%nat) as [Hi|Hi].
  - rewrite lookup_take_lt by done. specialize (He (Z.of_nat i)). specialize (Hb (Z.of_nat i)).
    unfold zlen in *. rewrite He in Hb by lia. specialize (Hb ltac:(lia)). unfold rd in Hb.
    destruct (Z.leb_spec 0 (Z.of_nat i)); [|lia]. by rewrite Nat2Z.id in Hb.
  - rewrite !lookup_ge_None_2; [done|lia|]. rewrite length_take. lia.
Qed.

Section run.
Context (sz k : Z) (Hk : 3 <= k <= 31) (Hsz : sz = 2 ^ k).

Abbreviation sys_rep s f bh := (pr_rep sz (sw s) (sr s) (sst s) f bh).

Lemma read_event_rep (s : sys) (f : fifo) (bh : Z) (g : list (Z * list Z)) :
  sys_rep s f bh -> carried g (ElementQueue.in_flight f) ->
  exists r' ev f' g', read_event (sr s) (sst s) = Some (r', ev) /\ pr_rep sz (sw s) r' (sst s) f' bh /\
    carried g' (ElementQueue.in_flight f') /\ accepted [ev] = [] /\
    exists from, g = from ++ g' /\ Forall2 received from (delivered [ev]).
Proof.
  intros Hrep Hg. unfold read_event. destruct (s_avail f) as [|e rest] eqn:Hav.
  - apply (r_tail sz k Hk Hsz Hrep) in Hav. unfold pr_peek_size. rewrite Hav, Z.eqb_refl.
    cbn [mbind option_bind]. rewrite Z.eqb_refl. eexists _, _, f, g. split; [done|]. split; [done|].
    split; [done|]. split; [done|]. exists []. by split; [|constructor].
  - rewrite (pr_peek_size_spec sz k Hk Hsz Hrep Hav). cbn [mbind option_bind].
    destruct (r_event sz k Hk Hrep Hav) as ((Hl & _) & _).
    destruct (Z.eqb_spec (zlen e - 8) (- ENOENT)); [unfold ENOENT in *; lia|].
    unfold ElementQueue.in_flight in Hg. rewrite Hav in Hg. simpl in Hg.
    apply Forall2_cons_inv_r in Hg as ([type elem] & g' & Hc & Hg' & ->). simpl in Hc.
    rewrite (pr_peek_type_spec sz k Hk Hsz Hrep Hav type) by apply Hc. cbn [mbind option_bind].
    destruct (pr_read_refines sz k Hk Hsz Hrep Hav) as (body & r' & Hbody & -> & Hrep').
    cbn [mbind option_bind fst snd]. eexists _, _, _, g'. split; [done|]. split; [done|]. split; [done|].
    split; [done|]. exists [(type, elem)]. split; [done|]. constructor; [|constructor]. by eapply carries_body.
Qed.

Lemma pr_step_rep (s : sys) (f : fifo) (bh : Z) (g : list (Z * list Z)) (o : op) :
  sys_rep s f bh -> carried g (ElementQueue.in_flight f) -> op_ok o ->
  exists s' ev f' bh' g', sys_step s o = Some (s', ev) /\ sys_rep s' f' bh' /\
    carried g' (ElementQueue.in_flight f') /\
    exists from, g ++ accepted [ev] = from ++ g' /\ Forall2 received from (delivered [ev]).
Proof.
  intros Hrep Hg Hok. destruct o as [|type elem| | | |]; simpl in *.
  - eexists _, _, _, _, g. split; [done|]. split; [apply (pr_start_write_rep sz k Hk Hrep)|].
    split; [done|]. exists []. rewrite app_nil_r. by split; [|constructor].
  - destruct Hok as [Hl Hty]. destruct (pr_write_refines sz k Hk Hsz Hrep elem type Hl Hty) as
      [[_ ->]|[(_ & _ & _ & ->)|(_ & _ & _ & e & w' & st' & -> & Hc & Hrep')]]; cbn [mbind option_bind].
    1-2: eexists _, _, f, bh, g; split; [done|]; split; [by destruct s|]; split; [done|]; exists [];
      rewrite app_nil_r; by split; [|constructor].
    eexists _, _, _, _, (g ++ [(type, elem)]). split; [done|]. split; [done|]. split.
    + unfold ElementQueue.in_flight in *. simpl. rewrite !app_assoc. apply Forall2_app; [|by constructor].
      by rewrite <- app_assoc.
    + exists []. by split; [|constructor].
  - eexists _, _, _, _, g. split; [done|]. split; [apply (pr_finish_write_rep sz Hrep)|].
    split; [unfold ElementQueue.in_flight in *; simpl; by rewrite app_nil_r|].
    exists []. rewrite app_nil_r. by split; [|constructor].
  - eexists _, _, _, _, g. split; [done|]. split; [apply (pr_start_read_rep sz Hrep)|].
    split; [unfold ElementQueue.in_flight in *; simpl; by rewrite <- app_assoc|].
    exists []. rewrite app_nil_r. by split; [|constructor].
  - destruct (read_event_rep s f bh g Hrep Hg) as (r' & ev & f' & g' & -> & Hrep' & Hg' & Ha & from & Hfrom & Hd).
    cbn [mbind option_bind fst snd]. eexists _, _, f', bh, g'. split; [done|]. split; [done|]. split; [done|].
    exists from. rewrite <- Hfrom. split; [|done].
    change (g ++ accepted [ev] = g). by rewrite Ha, app_nil_r.
  - eexists _, _, _, _, g. split; [done|]. split; [apply (pr_finish_read_rep sz Hrep)|].
    split; [done|]. exists []. rewrite app_nil_r. by split; [|constructor].
Qed.

Lemma pr_run_rep (ops : list op) (s : sys) (f : fifo) (bh : Z) (g : list (Z * list Z)) :
  sys_rep s f bh -> carried g (ElementQueue.in_flight f) -> Forall op_ok ops ->
  exists s' evs f' bh' g', sys_run s ops = Some (s', evs) /\ sys_rep s' f' bh' /\
    carried g' (ElementQueue.in_flight f') /\
    exists from, g ++ accepted evs = from ++ g' /\ Forall2 received from (delivered evs).
Proof.
  intros Hrep Hg Hok. revert s f bh g Hrep Hg. induction Hok as [|o ops Ho Hok IH]; intros s f bh g Hrep Hg.
  { eexists _, _, f, bh, g. split; [done|]. split; [done|]. split; [done|]. exists [].
    rewrite app_nil_r. by split; [|constructor]. }
  cbn [sys_run].
  destruct (pr_step_rep s f bh g o Hrep Hg Ho) as (s1 & ev & f1 & bh1 & g1 & -> & Hrep1 & Hg1 & fr1 & Hf1 & Hd1).
  cbn [mbind option_bind].
  destruct (IH s1 f1 bh1 g1 Hrep1 Hg1) as (s2 & evs & f2 & bh2 & g2 & -> & Hrep2 & Hg2 & fr2 & Hf2 & Hd2).
  cbn [mbind option_bind]. eexists _, _, f2, bh2, g2. split; [done|]. split; [done|]. split; [done|].
  exists (fr1 ++ fr2). change (ev :: evs) with ([ev] ++ evs). unfold accepted, delivered in *.
  rewrite !flat_map_app, app_assoc, Hf1, <- !app_assoc, Hf2. split; [done|]. by apply Forall2_app.
Qed.
End run.

(** ** Properties *)

(** C25: the perf ring is a FIFO of events.  Whatever the interleaving of the
    operations of a writer and a reader attached to a ring of 2^k bytes, with any
    aligned counters, no access leaves the ring and no assertion fails, also
    when events wrap around its end; the events the reader gets are, in order,
    the first of those the writer's writes accepted, each with its type and its
    bytes, padded to a multiple of 8.  The elements written are shorter than 64 KiB
    ([op_ok]), which the code does not check: a longer one may be accepted and overruns
    the ring ([overlong_write_overruns]). *)
Theorem perf_ring_fifo (k n_pages page_size x : Z) (d : list Z) (q : perf_ring) (ops : list op) :
  3 <= k <= 31 -> n_pages * page_size = 2 ^ k -> zlen d = 2 ^ k -> (8 | x) ->
  pr_init_contig (mk_storage x x d) n_pages page_size = inr q -> Forall op_ok ops ->
  exists s evs from rest, sys_run (mk_sys q q (mk_storage x x d)) ops = Some (s, evs) /\
    accepted evs = from ++ rest /\ Forall2 received from (delivered evs).
Proof.
  intros Hk Hn Hd Hx Hq Hok.
  pose proof (attach_ring_rep _ k Hk eq_refl n_pages page_size x d q Hn Hd Hx Hq) as Hrep.
  destruct (pr_run_rep _ k Hk eq_refl ops (mk_sys q q (mk_storage x x d)) _ x [] Hrep (proj2 (Forall2_nil _) I) Hok)
    as (s & evs & f' & bh' & g' & Hrun & _ & _ & from & Hf & Hr).
  exists s, evs, from, g'. done.
Qed.

Definition demo_ring : perf_ring := mk_pr 31 16 16.
Definition demo_store : storage := mk_storage 16 16 (replicate 32 0).
Definition demo_ops : list op :=
  [StartWrite; Write 9 [1; 2; 3]; FinishWrite; StartRead; Read; FinishRead;
   StartWrite; Write 7 [4; 5; 6; 7; 8; 9; 10; 11; 12]; FinishWrite; StartRead; Read; FinishRead].

Lemma perf_ring_fifo_witness :
  exists s evs from rest, sys_run (mk_sys demo_ring demo_ring demo_store) demo_ops = Some (s, evs) /\
    accepted evs = from ++ rest /\ Forall2 received from (delivered evs) /\
    delivered evs = [(9, [1; 2; 3; 0; 0; 0; 0; 0]);
                     (7, [4; 5; 6; 7; 8; 9; 10; 11; 12; 0; 0; 0; 0; 0; 16; 0])].
Proof.
  destruct (perf_ring_fifo 5 1 32 16 (replicate 32 0) demo_ring demo_ops) as (s & evs & from & rest & Hrun & Ha & Hr).
  - lia.
  - done.
  - done.
  - by exists 2.
  - done.
  - repeat constructor; vm_compute; done.
  - exists s, evs, from, rest. split; [exact Hrun|]. split; [done|]. split; [done|].
    vm_compute in Hrun. by injection Hrun as _ <-.
Defined.

(** When a write is accepted.  [PerfRing::write] of an element shorter than
    64 KiB throws invalid_argument exactly if its event, header and padding
    included, is not smaller than the ring or than 64 KiB, throws range_error
    exactly if the event does not fit next to those the reader has not
    released, and otherwise adds the event at the end of the queue. *)
Theorem perf_write_outcomes (sz k : Z) (w r : perf_ring) (st : storage) (f : fifo) (bh : Z)
    (elem : list Z) (type : Z) :
  3 <= k <= 31 -> sz = 2 ^ k -> pr_rep sz w r st f bh -> zlen elem < 2 ^ 16 -> 0 <= type < 2 ^ 32 ->
  let al := align8 (zlen elem + 8) in
  ((sz <= al \/ 2 ^ 16 <= al) /\ write w st elem type = Some invalid_argument) \/
  (al < sz /\ al < 2 ^ 16 /\ sz < blen (fifo_all f) + al /\ write w st elem type = Some range_error) \/
  (al < sz /\ al < 2 ^ 16 /\ blen (fifo_all f) + al <= sz /\ exists e w' st',
     write w st elem type = Some (Written w' st') /\ carries type elem e /\
     pr_rep sz w' r st' (ElementQueue.fifo_write f e) bh).
Proof. intros Hk Hsz Hrep Hl Hty. by apply (pr_write_refines sz k Hk Hsz Hrep). Qed.

Lemma demo_ring_rep : pr_rep 32 demo_ring demo_ring demo_store ElementQueue.fifo_empty 16.
Proof.
  apply (attach_ring_rep 32 5 ltac:(lia) eq_refl 1 32 16 (replicate 32 0) demo_ring); [done|done| |done].
  by exists 2.
Qed.

Lemma perf_write_outcomes_witness :
  exists e w' st', write demo_ring demo_store [1; 2; 3] 9 = Some (Written w' st') /\
    carries 9 [1; 2; 3] e /\ pr_rep 32 w' demo_ring st' (ElementQueue.fifo_write ElementQueue.fifo_empty e) 16.
Proof.
  destruct (perf_write_outcomes 32 5 demo_ring demo_ring demo_store ElementQueue.fifo_empty 16 [1; 2; 3] 9)
    as [[[H|H] _]|[(_ & _ & H & _)|(_ & _ & _ & H)]].
  - lia.
  - done.
  - exact demo_ring_rep.
  - done.
  - lia.
  - vm_compute in H. done.
  - vm_compute in H. done.
  - vm_compute in H. done.
  - exact H.
Defined.

(** The fill level of the ring.  [pr_bytes_remaining] of a reader is the number
    of bytes of the events it may read, unless they fill the whole ring: then it
    is 0, as for an empty ring. *)
Theorem bytes_remaining_full (sz k : Z) (w r : perf_ring) (st : storage) (f : fifo) (bh : Z) :
  3 <= k <= 31 -> sz = 2 ^ k -> pr_rep sz w r st f bh ->
  pr_bytes_remaining r = if decide (blen (s_avail f) < sz) then blen (s_avail f) else 0.
Proof. intros Hk Hsz Hrep. by apply (bytes_remaining_rep sz k Hk Hsz Hrep). Qed.

(** A ring of 16 bytes with two events of 8 bytes. *)
Definition full_event : list Z := [5; 0; 0; 0; 0; 0; 8; 0].
Definition full_ring : perf_ring := mk_pr 15 0 16.
Definition full_store : storage := mk_storage 16 0 (full_event ++ full_event).
Definition full_fifo : fifo := ElementQueue.mk_fifo [] [] [full_event; full_event] [] [].

Lemma full_rep : pr_rep 16 full_ring full_ring full_store full_fifo 0.
Proof.
  assert (He : event_ok full_event) by (split; [done|]; split; [by exists 1|done]).
  constructor; try done.
  - by exists 0.
  - intros i Hi. change (zlen _) with 16 in Hi. rewrite Z.add_0_l, Z.mod_small by lia. done.
  - by repeat constructor.
Qed.

Lemma bytes_remaining_full_witness :
  blen (s_avail full_fifo) = 16 /\ pr_bytes_remaining full_ring = 0.
Proof.
  split; [done|].
  apply (bytes_remaining_full 16 4 full_ring full_ring full_store full_fifo 0); [lia|done|apply full_rep].
Defined.

(** Over-long elements overrun the ring.  [pr_write] takes the length as a
    [u16], but [PerfRing::write] then copies all of the element: on an empty ring
    smaller than 64 KiB whose next event would start 8 bytes before its end, a
    write of 64 KiB is accepted as an empty one and writes beyond the ring. *)
Theorem overlong_write_overruns (k n_pages page_size x type : Z) (d : list Z) (q : perf_ring) (elem : list Z) :
  4 <= k < 16 -> n_pages * page_size = 2 ^ k -> zlen d = 2 ^ k -> (8 | x) -> (x + 8) mod 2 ^ k = 0 ->
  pr_init_contig (mk_storage x x d) n_pages page_size = inr q -> zlen elem = 2 ^ 16 ->
  write q (mk_storage x x d) elem type = None.
Proof.
  intros Hk Hn Hd Hx Hx8 Hq Hl. assert (Hk' : 3 <= k <= 31) by lia.
  pose proof (attach_ring_rep _ k Hk' eq_refl n_pages page_size x d q Hn Hd Hx Hq) as Hrep.
  assert (H16 : 16 <= 2 ^ k < 2 ^ 16).
  { pose proof (Z.pow_le_mono_r 2 4 k). pose proof (Z.pow_lt_mono_r 2 k 16). lia. }
  unfold write. rewrite Hl. change (u16 (2 ^ 16)) with 0.
  destruct (pr_write_spec _ k Hk' eq_refl Hrep 0 type ltac:(lia)) as
    [[Hc _]|[(_ & _ & Hc & _)|(_ & _ & _ & d' & -> & Hfr & _)]].
  - change (align8 (0 + 8)) with 8 in Hc. lia.
  - change (align8 (0 + 8)) with 8 in Hc. change (blen (fifo_all ElementQueue.fifo_empty)) with 0 in Hc. lia.
  - cbn [mbind option_bind]. unfold w_end. change (blen (fifo_all ElementQueue.fifo_empty)) with 0.
    rewrite Z.add_0_r, Hx8. unfold copy_elem. rewrite Hl. change (2 ^ 16 =? 0) with false. cbn [buf_mask data].
    rewrite (u64_small (0 + 2 ^ 16 - 1)) by lia.
    destruct (Z.ltb_spec (s32 (Z.land (0 + 2 ^ 16 - 1) (2 ^ k - 1)) - 0) 0) as [Hneg|_].
    + rewrite land_mask, s32_small in Hneg by (try lia;
        pose proof (Z.mod_pos_bound (0 + 2 ^ 16 - 1) (2 ^ k)); rewrite ?land_mask by lia; lia).
      pose proof (Z.mod_pos_bound (0 + 2 ^ 16 - 1) (2 ^ k)). lia.
    + rewrite mem_write_out; [done|]. right. rewrite (proj1 Hfr). cbn [data]. lia.
Qed.

Lemma overlong_write_overruns_witness :
  write (mk_pr 15 8 8) (mk_storage 8 8 (replicate 16 0)) (replicate (Z.to_nat (2 ^ 16)) 1) 9 = None.
Proof.
  apply (overlong_write_overruns 4 1 16 8 9 (replicate 16 0) (mk_pr 15 8 8));
    [lia|done|done|by exists 1|done|done|].
  unfold zlen. rewrite length_replicate. lia.
Defined.
End PerfRing.
