(* ===== verification/PerfReader.v ===== *)
(** Reading the events of all CPUs in the order of their timestamps:
    collector/kernel/perf_reader.h and perf_reader.cc.

    A [PerfContainer] has one ring per CPU and a heap with one entry for every
    ring that has an event to read, ordered by the timestamp of that event.  A
    [PerfReader] is a session on it: its constructor starts a read batch on
    every ring and adds the missing entries, its operations look at or remove
    the event of the top entry, its destructor ends the batches.

    The container is modelled over the class [EventRing] of the operations it
    uses of a ring; [EventRingLaws] is what it relies on, and the perf ring
    satisfies it (last section).  [std::push_heap] and [std::pop_heap] are the
    class [StdHeap] with what the C++ standard says of them.

    Theorems: a session reads the events of the rings merged by timestamp, in
    the order of each ring, up to the given time and no further, whatever the
    kernel added before; lost-record notices come first. *)
From stdpp Require Import sorting.
From S2P Require Import Prelude ElementQueue PerfRing.

(** * Rings *)

Class EventRing (R : Type) := {
  start_read_batch : R -> R;
  finish_read_batch : R -> R;
  peek_size : R -> option Z;
  peek_type : R -> option Z;
  peek_aligned_u64 : R -> Z -> option Z;
  peek_aligned_u32 : R -> Z -> option Z;
  peek_aligned_u16 : R -> Z -> option Z;
  peek_copy : R -> Z -> Z -> option (list Z);
  ring_pop : R -> option R
}.

(** The integer of [n] bytes at offset [o] of an event, and its type. *)
Definition word (e : list Z) (o n : Z) : option Z := le_decode <$> mem_read e o n.
Definition event_type (e : list Z) : Z := default 0 (word e 0 4).

(** [ring_holds r av fr]: the events [av] can be read in the current batch, and
    the events [fr] after the next batch was started. *)
Class EventRingLaws (R : Type) `{EventRing R} := {
  ring_holds : R -> list (list Z) -> list (list Z) -> Prop;
  start_holds r av fr : ring_holds r av fr -> ring_holds (start_read_batch r) (av ++ fr) [];
  finish_holds r av fr : ring_holds r av fr -> ring_holds (finish_read_batch r) av fr;
  peek_size_empty r fr : ring_holds r [] fr -> peek_size r = Some (- ENOENT);
  peek_size_cons r e av fr : ring_holds r (e :: av) fr -> peek_size r = Some (zlen e - 8) /\ 8 <= zlen e < 2 ^ 16;
  peek_type_cons r e av fr : ring_holds r (e :: av) fr -> peek_type r = Some (event_type e);
  peek_u64_cons r e av fr j v :
    ring_holds r (e :: av) fr -> 0 <= j -> word e (8 + 8 * j) 8 = Some v -> peek_aligned_u64 r (8 * j) = Some v;
  peek_u32_cons r e av fr v :
    ring_holds r (e :: av) fr -> word e 12 4 = Some v -> peek_aligned_u32 r 4 = Some v;
  peek_u16_cons r e av fr v :
    ring_holds r (e :: av) fr -> word e 24 2 = Some v -> peek_aligned_u16 r 16 = Some v;
  peek_copy_cons r e av fr o len bs :
    ring_holds r (e :: av) fr -> 0 <= o -> mem_read e (8 + o) len = Some bs -> peek_copy r o len = Some bs;
  pop_cons r e av fr : ring_holds r (e :: av) fr -> exists r', ring_pop r = Some r' /\ ring_holds r' av fr
}.

(** * Heaps *)

(** [struct PerfEntry]; [operator<] compares the timestamps the other way round. *)
Record PerfEntry := mk_entry { timestamp : Z; reader_index : nat }.

Definition entry_lt (a b : PerfEntry) : Prop := timestamp b < timestamp a.

(** A heap: no parent is less than one of its children. *)
Definition is_heap (l : list PerfEntry) : Prop :=
  forall i a b, (0 < i)%nat -> l !! i = Some b -> l !! ((i - 1) / 2)%nat = Some a -> ~ entry_lt a b.

Class StdHeap := {
  push_heap : list PerfEntry -> list PerfEntry;
  pop_heap : list PerfEntry -> list PerfEntry
}.

(** Of C++ [alg.heap.operations]: [push_heap] makes a heap of a range whose all but
    last element are one; [pop_heap] moves the first element of a heap to the
    end and makes a heap of the others. *)
Class StdHeapLaws `{StdHeap} := {
  push_heap_perm l : push_heap l ≡ₚ l;
  push_heap_heap l x : is_heap l -> is_heap (push_heap (l ++ [x]));
  pop_heap_split x l : is_heap (x :: l) -> exists l', pop_heap (x :: l) = l' ++ [x] /\ l' ≡ₚ l /\ is_heap l'
}.

(** The first entry of a heap has the least timestamp. *)
Lemma heap_top (x : PerfEntry) (l : list PerfEntry) :
  is_heap (x :: l) -> forall y, y ∈ x :: l -> timestamp x <= timestamp y.
Proof.
  intros Hh y [i Hi]%list_elem_of_lookup. revert y Hi.
  induction (lt_wf i) as [i _ IH]. intros y Hi. destruct i as [|i]; [by injection Hi as ->|].
  assert (Hp : ((S i - 1) / 2 < S i)%nat) by (apply Nat.Div0.div_lt_upper_bound; lia).
  destruct (lookup_lt_is_Some_2 (x :: l) ((S i - 1) / 2)) as [a Ha];
    [apply lookup_lt_Some in Hi; lia|].
  specialize (IH _ Hp a Ha). specialize (Hh (S i) a y ltac:(lia) Hi Ha). unfold entry_lt in Hh. lia.
Qed.

Module PerfReader.

(** The readable and the added events of a ring. *)
Abbreviation queue := (list (list Z) * list (list Z))%type.

Section perf_reader.
Context {R : Type} `{EventRing R} `{StdHeap}.

Definition PERF_RECORD_LOST : Z := 2.
Definition PERF_RECORD_SAMPLE : Z := 9.
Definition BPF_MAX_CPUS : nat := Z.to_nat 1024.

(** * The container *)

(** [entries_] are the first [n_entries_] elements of the array;
    [readers_in_entries_] is a bitset. *)
Record PerfContainer := mk_container {
  readers_ : list R;
  data_readers_ : list R;
  entries_ : list PerfEntry;
  readers_in_entries_ : gset nat
}.

Definition PerfContainer_new : PerfContainer := mk_container [] [] [] ∅.

(** [None] is the exception runtime_error. *)
Definition add_ring (c : PerfContainer) (pr : R) : option PerfContainer :=
  if (BPF_MAX_CPUS <=? length (readers_ c))%nat then None
  else Some (mk_container (readers_ c ++ [pr]) (data_readers_ c) (entries_ c) (readers_in_entries_ c)).

Definition add_data_ring (c : PerfContainer) (pr : R) : option PerfContainer :=
  if (BPF_MAX_CPUS <=? length (data_readers_ c))%nat then None
  else Some (mk_container (readers_ c) (data_readers_ c ++ [pr]) (entries_ c) (readers_in_entries_ c)).

(** * The reader *)

(** Write a ring back. *)
Definition set_reader (c : PerfContainer) (i : nat) (r : R) : PerfContainer :=
  mk_container (<[i := r]> (readers_ c)) (data_readers_ c) (entries_ c) (readers_in_entries_ c).
Definition set_data_reader (c : PerfContainer) (i : nat) (r : R) : PerfContainer :=
  mk_container (readers_ c) (<[i := r]> (data_readers_ c)) (entries_ c) (readers_in_entries_ c).

(** [None] is undefined behaviour or a failed assertion. *)
Definition update_when_not_in_entries (c : PerfContainer) (idx : nat) : option PerfContainer :=
  reader ← readers_ c !! idx;
  size ← peek_size reader;
  if size =? - ENOENT then Some c
  else
    type ← peek_type reader;
    timestamp ← (if type =? PERF_RECORD_SAMPLE then
                   if size <? 16 then None else peek_aligned_u64 reader 8
                 else Some 0);
    if (BPF_MAX_CPUS <=? length (entries_ c))%nat then None
    else if (BPF_MAX_CPUS <=? idx)%nat then None
    else Some (mk_container (readers_ c) (data_readers_ c)
                 (push_heap (entries_ c ++ [mk_entry timestamp idx]))
                 ({[idx]} ∪ readers_in_entries_ c)).

(** The loop of the constructor over the rings from [i] on. *)
Fixpoint start_readers (n i : nat) (c : PerfContainer) : option PerfContainer :=
  match n with
  | O => Some c
  | S n =>
      reader ← readers_ c !! i;
      let c := set_reader c i (start_read_batch reader) in
      data_reader ← data_readers_ c !! i;
      let c := set_data_reader c i (start_read_batch data_reader) in
      c ← (if decide (i ∈ readers_in_entries_ c) then Some c else update_when_not_in_entries c i);
      start_readers n (S i) c
  end.

Definition PerfReader_new (c : PerfContainer) : option PerfContainer :=
  start_readers (length (readers_ c)) 0 c.

Definition empty (c : PerfContainer) (max_timestamp_ : Z) : bool :=
  match entries_ c with
  | [] => true
  | e :: _ => max_timestamp_ <? timestamp e
  end.

(** The index and the ring of the top entry. *)
Definition top (c : PerfContainer) : option (nat * R) :=
  e ← entries_ c !! 0%nat;
  r ← readers_ c !! reader_index e;
  Some (reader_index e, r).

Definition update_after_pop (c : PerfContainer) : option PerfContainer :=
  e ← entries_ c !! 0%nat;
  let idx := reader_index e in
  let l := pop_heap (entries_ c) in
  update_when_not_in_entries
    (mk_container (readers_ c) (data_readers_ c) (take (length l - 1) l) (readers_in_entries_ c ∖ {[idx]})) idx.

Definition pop (c : PerfContainer) : option PerfContainer :=
  t ← top c;
  r ← ring_pop t.2;
  update_after_pop (set_reader c t.1 r).

(** The bytes copied to [dest], and the container after the call. *)
Definition pop_and_copy_to (c : PerfContainer) : option (list Z * PerfContainer) :=
  t ← top c;
  unpadded ← peek_aligned_u32 t.2 4;
  bytes ← peek_copy t.2 8 (u16 unpadded);
  r ← ring_pop t.2;
  c ← update_after_pop (set_reader c t.1 r);
  Some (bytes, c).

Definition pop_unpadded_and_copy_to (c : PerfContainer) : option (list Z * PerfContainer) :=
  t ← top c;
  length ← peek_size t.2;
  bytes ← peek_copy t.2 0 (u16 length);
  r ← ring_pop t.2;
  c ← update_after_pop (set_reader c t.1 r);
  Some (bytes, c).

(** Peeking at the event of the top entry. *)
Definition reader_peek_type (c : PerfContainer) : option Z := t ← top c; peek_type t.2.
Definition peek_unpadded_length (c : PerfContainer) : option Z := t ← top c; u16 <$> peek_aligned_u32 t.2 4.
Definition peek_rpc_id (c : PerfContainer) : option Z := t ← top c; peek_aligned_u16 t.2 16.
Definition peek_n_lost (c : PerfContainer) : option Z := t ← top c; peek_aligned_u64 t.2 8.
Definition peek_index (c : PerfContainer) : option nat := reader_index <$> entries_ c !! 0%nat.

Definition stop (c : PerfContainer) : PerfContainer :=
  mk_container (finish_read_batch <$> readers_ c) (finish_read_batch <$> data_readers_ c)
    (entries_ c) (readers_in_entries_ c).

(** * Invariant *)

(** The time an event is sorted by. *)
Definition key (e : list Z) : Z :=
  if event_type e =? PERF_RECORD_SAMPLE then default 0 (word e 16 8) else 0.

(** A sample has a timestamp. *)
Definition event_good (e : list Z) : Prop := event_type e = PERF_RECORD_SAMPLE -> 24 <= zlen e.

Context `{!EventRingLaws R} `{!StdHeapLaws}.

(** The events [qs] of the rings. *)
Record cont_rep (c : PerfContainer) (qs : list queue) : Prop := {
  cr_rings : Forall2 (fun r q => ring_holds r q.1 q.2) (readers_ c) qs;
  cr_data : exists ds, Forall2 (fun r q => ring_holds r q.1 q.2) (data_readers_ c) ds;
  cr_paired : (length (readers_ c) <= length (data_readers_ c))%nat;
  cr_max : (length (readers_ c) <= BPF_MAX_CPUS)%nat;
  cr_heap : is_heap (entries_ c);
  cr_nodup : NoDup (reader_index <$> entries_ c);
  cr_set : readers_in_entries_ c = list_to_set (reader_index <$> entries_ c);
  cr_entry : forall x, x ∈ entries_ c -> exists e av fr,
    qs !! reader_index x = Some (e :: av, fr) /\ timestamp x = key e;
  cr_good : forall i q e, qs !! i = Some q -> e ∈ q.1 ++ q.2 -> event_good e
}.

(** Every ring before [n] with an event to read has an entry. *)
Definition settled (c : PerfContainer) (qs : list queue) (n : nat) : Prop :=
  forall i q, (i < n)%nat -> qs !! i = Some q -> q.1 <> [] -> i ∈ readers_in_entries_ c.

Lemma nodup_bound (l : list nat) (n : nat) :
  NoDup l -> (forall x, x ∈ l -> (x < n)%nat) -> (length l <= n)%nat.
Proof.
  intros Hnd Hl. rewrite <- (length_seq n 0). apply submseteq_length, NoDup_submseteq; [done|].
  intros x Hx. apply elem_of_seq. specialize (Hl x Hx). lia.
Qed.

Lemma ring_at (c : PerfContainer) (qs : list queue) (i : nat) (q : queue) :
  cont_rep c qs -> qs !! i = Some q -> exists r, readers_ c !! i = Some r /\ ring_holds r q.1 q.2.
Proof. intros Hc Hq. eapply Forall2_lookup_r in Hq; [|apply Hc]. naive_solver. Qed.

Lemma key_word (e : list Z) :
  event_good e -> event_type e = PERF_RECORD_SAMPLE -> word e 16 8 = Some (key e).
Proof.
  intros Hg Ht. unfold key. rewrite Ht, Z.eqb_refl. specialize (Hg Ht).
  unfold word. destruct (mem_read e 16 8) as [bs|] eqn:Hm; [done|].
  unfold mem_read, zlen in *. destruct (Z.leb_spec (16 + 8) (Z.of_nat (length e))); [done|lia].
Qed.

(** Adding the entry of a ring that has none. *)
Lemma update_when_not_in_entries_rep (c : PerfContainer) (qs : list queue) (idx : nat) (q : queue) :
  cont_rep c qs -> qs !! idx = Some q -> idx ∉ readers_in_entries_ c ->
  exists c', update_when_not_in_entries c idx = Some c' /\ cont_rep c' qs /\
    readers_ c' = readers_ c /\
    readers_in_entries_ c' = (if decide (q.1 = []) then ∅ else {[idx]}) ∪ readers_in_entries_ c.
Proof.
  intros Hc Hq Hidx. destruct (ring_at _ _ _ _ Hc Hq) as (r & Hr & Hh). destruct q as [av fr]. simpl in *.
  unfold update_when_not_in_entries. rewrite Hr. cbn [mbind option_bind].
  destruct av as [|e av].
  { rewrite (peek_size_empty _ _ Hh). cbn [mbind option_bind]. rewrite Z.eqb_refl.
    exists c. split; [done|]. split; [done|]. split; [done|]. rewrite decide_True by done. set_solver. }
  destruct (peek_size_cons _ _ _ _ Hh) as [-> Hlen]. cbn [mbind option_bind].
  destruct (Z.eqb_spec (zlen e - 8) (- ENOENT)); [unfold ENOENT in *; lia|].
  rewrite (peek_type_cons _ _ _ _ Hh). cbn [mbind option_bind].
  assert (Hgood : event_good e) by (eapply (cr_good _ _ Hc); [exact Hq|left]).
  replace (if event_type e =? PERF_RECORD_SAMPLE then _ else _) with (Some (key e)).
  2:{ unfold key. destruct (Z.eqb_spec (event_type e) PERF_RECORD_SAMPLE) as [Ht|Ht]; [|done].
      pose proof (Hgood Ht). destruct (Z.ltb_spec (zlen e - 8) 16); [lia|].
      change 8 with (8 * 1). rewrite (peek_u64_cons _ _ _ _ 1 (key e) Hh); [unfold key; by rewrite Ht, Z.eqb_refl|lia|].
      by apply key_word. }
  cbn [mbind option_bind].
  assert (Hin : idx ∉ reader_index <$> entries_ c) by (rewrite (cr_set _ _ Hc) in Hidx; set_solver).
  assert (Hb : (length (idx :: (reader_index <$> entries_ c)) <= length (readers_ c))%nat).
  { apply nodup_bound; [apply NoDup_cons; split; [done|apply Hc]|].
    intros x [->|(y & -> & Hy)%list_elem_of_fmap]%elem_of_cons; [by apply lookup_lt_Some in Hr|].
    destruct (cr_entry _ _ Hc y Hy) as (e' & av' & fr' & Hq' & _).
    rewrite (Forall2_length _ _ _ (cr_rings _ _ Hc)). by apply lookup_lt_Some in Hq'. }
  simpl in Hb. rewrite length_fmap in Hb. pose proof (cr_max _ _ Hc).
  destruct (Nat.leb_spec BPF_MAX_CPUS (length (entries_ c))); [lia|].
  destruct (Nat.leb_spec BPF_MAX_CPUS idx); [apply lookup_lt_Some in Hr; lia|].
  eexists. split; [done|]. split; [|split; [done|by rewrite decide_False by done]].
  destruct Hc. constructor; cbn; try done.
  - by apply push_heap_heap.
  - rewrite push_heap_perm, fmap_app. apply NoDup_app. split; [done|]. split; [|apply NoDup_singleton].
    intros x Hx ->%list_elem_of_singleton. done.
  - rewrite push_heap_perm, fmap_app, list_to_set_app_L. simpl. rewrite cr_set0. set_solver.
  - intros x. rewrite push_heap_perm, elem_of_app, list_elem_of_singleton. intros [Hx| ->]; [by apply cr_entry0|].
    exists e, av, fr. done.
Qed.

(** A ring whose readable events only grew keeps its entry. *)
Lemma set_reader_rep (c : PerfContainer) (qs : list queue) (i : nat) (r : R) (q q' : queue) :
  cont_rep c qs -> qs !! i = Some q -> ring_holds r q'.1 q'.2 ->
  (forall e av, q.1 = e :: av -> i ∈ readers_in_entries_ c -> exists av', q'.1 = e :: av') ->
  (forall e, e ∈ q'.1 ++ q'.2 -> e ∈ q.1 ++ q.2) ->
  cont_rep (set_reader c i r) (<[i := q']> qs).
Proof.
  intros Hc Hq Hr Hhead Hin. destruct Hc. constructor; cbn; try done.
  - by apply Forall2_insert.
  - by rewrite length_insert.
  - by rewrite length_insert.
  - intros x Hx. destruct (cr_entry0 x Hx) as (e & av & fr & Hqx & Ht).
    destruct (decide (reader_index x = i)) as [<-|Hne].
    + rewrite Hqx in Hq. injection Hq as <-. destruct (Hhead e av eq_refl) as [av' Hav'].
      { rewrite cr_set0. apply elem_of_list_to_set. by apply list_elem_of_fmap_2. }
      exists e, av', q'.2. split; [|done].
      rewrite list_lookup_insert_eq by (by apply lookup_lt_Some in Hqx). destruct q'. simpl in *. by subst.
    + exists e, av, fr. by rewrite list_lookup_insert_ne.
  - intros j p e Hj He. destruct (decide (j = i)) as [->|Hne].
    + rewrite list_lookup_insert_eq in Hj by (by apply lookup_lt_Some in Hq). injection Hj as <-.
      eapply cr_good0; [exact Hq|]. by apply Hin.
    + rewrite list_lookup_insert_ne in Hj by done. by eapply cr_good0.
Qed.

Lemma set_data_reader_rep (c : PerfContainer) (qs : list queue) (i : nat) (r r' : R) :
  cont_rep c qs -> data_readers_ c !! i = Some r ->
  (forall av fr, ring_holds r av fr -> exists av' fr', ring_holds r' av' fr') ->
  cont_rep (set_data_reader c i r') qs.
Proof.
  intros Hc Hr Hh. destruct Hc. constructor; cbn; try done.
  - destruct cr_data0 as [ds Hds]. destruct (Forall2_lookup_l _ _ _ _ _ Hds Hr) as ([av fr] & _ & Hd).
    destruct (Hh _ _ Hd) as (av' & fr' & Hr'). exists (<[i := (av', fr')]> ds). by apply Forall2_insert.
  - by rewrite length_insert.
Qed.

(** What the rings hold once their batches were started. *)
Definition started (q : queue) : queue := (q.1 ++ q.2, []).

Lemma start_readers_rep (n i : nat) (c : PerfContainer) (qs : list queue) :
  cont_rep c qs -> (i + n = length qs)%nat -> settled c qs i ->
  exists c', start_readers n i c = Some c' /\ cont_rep c' (take i qs ++ (started <$> drop i qs)) /\
    settled c' (take i qs ++ (started <$> drop i qs)) (length qs).
Proof.
  revert i c qs. induction n as [|n IH]; intros i c qs Hc Hn Hset.
  { exists c. rewrite take_ge, drop_ge by lia. rewrite app_nil_r. split; [done|]. split; [done|].
    by replace (length qs) with i by lia. }
  cbn [start_readers]. destruct (lookup_lt_is_Some_2 qs i) as [q Hq]; [lia|].
  destruct (ring_at _ _ _ _ Hc Hq) as (r & Hr & Hh). rewrite Hr. cbn [mbind option_bind].
  pose proof (lookup_lt_Some _ _ _ Hr) as Hil.
  destruct (lookup_lt_is_Some_2 (data_readers_ c) i) as [dr Hdr]; [pose proof (cr_paired _ _ Hc); lia|].
  change (data_readers_ (set_reader c i (start_read_batch r))) with (data_readers_ c).
  rewrite Hdr. cbn [mbind option_bind].
  set (c1 := set_data_reader _ _ _). set (qs1 := <[i := started q]> qs).
  assert (Hc1 : cont_rep c1 qs1).
  { apply (set_data_reader_rep _ _ _ dr); [|done|].
    - apply (set_reader_rep c qs i _ q (started q)); [done|done|by apply start_holds| |].
      + intros e av He _. exists (av ++ q.2). simpl. by rewrite He.
      + intros e. simpl. by rewrite app_nil_r.
    - intros av fr Hd. eexists _, _. by apply start_holds. }
  assert (Hq1 : qs1 !! i = Some (started q)) by (apply list_lookup_insert_eq; by apply lookup_lt_Some in Hq).
  assert (Hlen1 : length qs1 = length qs) by apply length_insert.
  assert (Htail : take (S i) qs1 ++ (started <$> drop (S i) qs1) = take i qs ++ (started <$> drop i qs)).
  { rewrite (take_S_r _ _ (started q)) by done. unfold qs1. rewrite take_insert_ge by lia.
    rewrite drop_insert_lt by lia. rewrite (drop_S qs q i) by done. by rewrite <- app_assoc. }
  assert (Hold : forall j p, (j < i)%nat -> qs1 !! j = Some p -> p.1 <> [] -> j ∈ readers_in_entries_ c).
  { intros j p Hj Hp. unfold qs1 in Hp. rewrite list_lookup_insert_ne in Hp by lia. by apply Hset. }
  destruct (decide (i ∈ readers_in_entries_ c1)) as [Hin|Hnin].
  - cbn [mbind option_bind]. rewrite <- Htail, <- Hlen1. apply IH; [done|lia|].
    intros j p Hj Hp Hne. destruct (decide (j = i)) as [->|]; [done|]. apply (Hold j p); [lia|done|done].
  - destruct (update_when_not_in_entries_rep c1 qs1 i _ Hc1 Hq1 Hnin) as (c2 & -> & Hc2 & Hr2 & Hset2).
    cbn [mbind option_bind]. rewrite <- Htail, <- Hlen1. apply IH; [done|lia|].
    intros j p Hj Hp Hne. rewrite Hset2. destruct (decide (j = i)) as [->|].
    + rewrite Hq1 in Hp. injection Hp as <-. rewrite decide_False by done. set_solver.
    + apply elem_of_union_r. apply (Hold j p); [lia|done|done].
Qed.

Lemma PerfReader_new_rep (c : PerfContainer) (qs : list queue) :
  cont_rep c qs ->
  exists c', PerfReader_new c = Some c' /\ cont_rep c' (started <$> qs) /\
    settled c' (started <$> qs) (length qs).
Proof.
  intros Hc. pose proof (Forall2_length _ _ _ (cr_rings _ _ Hc)) as Hl. unfold PerfReader_new. rewrite Hl.
  destruct (start_readers_rep (length qs) 0 c qs Hc) as (c' & Hs & Hc' & Hset); [lia|intros ? ? ?; lia|].
  exists c'. by rewrite drop_0 in Hc', Hset.
Qed.

(** * Popping *)

(** [e] is the first event of ring [idx], and no ring has an earlier one. *)
Definition least (qs : list queue) (idx : nat) (e : list Z) : Prop :=
  (exists av fr, qs !! idx = Some (e :: av, fr)) /\
  forall j e' av' fr', qs !! j = Some (e' :: av', fr') -> key e <= key e'.

(** Remove the first event of ring [idx]. *)
Definition drop_head (qs : list queue) (idx : nat) : list queue :=
  alter (fun q => (tail q.1, q.2)) idx qs.

(** No event can be read until [max]. *)
Definition exhausted (qs : list queue) (max : Z) : Prop :=
  forall j e av fr, qs !! j = Some (e :: av, fr) -> max < key e.

Lemma top_rep (c : PerfContainer) (qs : list queue) (x : PerfEntry) (l : list PerfEntry) :
  cont_rep c qs -> settled c qs (length qs) -> entries_ c = x :: l ->
  exists e av fr r, top c = Some (reader_index x, r) /\ qs !! reader_index x = Some (e :: av, fr) /\
    ring_holds r (e :: av) fr /\ timestamp x = key e /\ least qs (reader_index x) e.
Proof.
  intros Hc Hset Hx. destruct (cr_entry _ _ Hc x) as (e & av & fr & Hq & Ht); [rewrite Hx; left|].
  destruct (ring_at _ _ _ _ Hc Hq) as (r & Hr & Hh). exists e, av, fr, r.
  split; [unfold top; rewrite Hx; cbn; by rewrite Hr|]. split; [done|]. split; [done|]. split; [done|].
  split; [eauto|]. intros j e' av' fr' Hj. rewrite <- Ht.
  assert (Hin : j ∈ readers_in_entries_ c) by (eapply Hset; [by eapply lookup_lt_Some|exact Hj|done]).
  rewrite (cr_set _ _ Hc), elem_of_list_to_set in Hin. apply list_elem_of_fmap in Hin as (y & -> & Hy).
  destruct (cr_entry _ _ Hc y Hy) as (e2 & av2 & fr2 & Hq2 & Hty). rewrite Hj in Hq2. injection Hq2 as <- <- <-.
  rewrite <- Hty.
  rewrite Hx in Hy. eapply heap_top; [|exact Hy]. rewrite <- Hx. apply Hc.
Qed.

Lemma empty_rep (c : PerfContainer) (qs : list queue) (max : Z) :
  cont_rep c qs -> settled c qs (length qs) -> empty c max = true -> exhausted qs max.
Proof.
  intros Hc Hset He j e av fr Hj. unfold empty in He. destruct (entries_ c) as [|x l] eqn:Hx.
  - exfalso. assert (Hin : j ∈ readers_in_entries_ c) by (eapply Hset; [by eapply lookup_lt_Some|exact Hj|done]).
    rewrite (cr_set _ _ Hc), Hx in Hin. set_solver.
  - destruct (top_rep c qs x l Hc Hset Hx) as (e' & av' & fr' & r & _ & _ & _ & Ht & _ & Hleast).
    apply Hleast in Hj. apply Z.ltb_lt in He. lia.
Qed.

(** The entry of a popped ring is replaced. *)
Lemma update_after_pop_rep (c : PerfContainer) (qs : list queue) (x : PerfEntry) (l : list PerfEntry)
    (e : list Z) (av fr : list (list Z)) (r' : R) :
  cont_rep c qs -> settled c qs (length qs) -> entries_ c = x :: l ->
  qs !! reader_index x = Some (e :: av, fr) -> ring_holds r' av fr ->
  exists c', update_after_pop (set_reader c (reader_index x) r') = Some c' /\
    cont_rep c' (drop_head qs (reader_index x)) /\
    settled c' (drop_head qs (reader_index x)) (length (drop_head qs (reader_index x))).
Proof.
  intros Hc Hset Hx Hq Hr'. unfold update_after_pop. cbn [set_reader entries_ readers_ data_readers_
    readers_in_entries_]. rewrite Hx. cbn [lookup list_lookup mbind option_bind].
  pose proof (cr_heap _ _ Hc) as Hheap. pose proof (cr_nodup _ _ Hc) as Hnd. pose proof (cr_set _ _ Hc) as Hst.
  rewrite Hx in Hheap, Hnd, Hst. cbn [fmap list_fmap] in Hnd, Hst. apply NoDup_cons in Hnd as [Hnin Hnd].
  destruct (pop_heap_split x l Hheap) as (l' & Hpop & Hperm & Hheap').
  rewrite Hpop, length_app. simpl. rewrite Nat.add_sub, take_app_length.
  set (idx := reader_index x) in *. set (c1 := mk_container _ _ _ _). set (qs1 := drop_head qs idx).
  assert (Hq1 : qs1 !! idx = Some (av, fr)) by (unfold qs1, drop_head; by rewrite list_lookup_alter_eq, Hq).
  assert (Hset1 : readers_in_entries_ c1 = list_to_set (reader_index <$> l')).
  { cbn. rewrite Hst, Hperm. cbn [list_to_set]. set_solver. }
  assert (Hne : forall j, j <> idx -> qs1 !! j = qs !! j)
    by (intros j Hj; unfold qs1, drop_head; by apply list_lookup_alter_ne).
  assert (Hq1' : qs1 = <[idx := (av, fr)]> qs).
  { unfold qs1, drop_head. apply list_eq. intros j. destruct (decide (j = idx)) as [->|Hj].
    - rewrite list_lookup_alter_eq, Hq, list_lookup_insert_eq by (by eapply lookup_lt_Some). done.
    - by rewrite list_lookup_alter_ne, list_lookup_insert_ne. }
  assert (Hc1 : cont_rep c1 qs1).
  { destruct Hc. constructor; cbn; try done.
    - rewrite Hq1'. by apply Forall2_insert.
    - by rewrite length_insert.
    - by rewrite length_insert.
    - by rewrite Hperm.
    - intros y Hy. rewrite Hperm in Hy. destruct (cr_entry0 y) as (e2 & av2 & fr2 & Hq2 & Ht2); [rewrite Hx; by right|].
      exists e2, av2, fr2. split; [|done]. rewrite Hne; [done|]. intros Heq. apply Hnin.
      rewrite <- Heq. by apply list_elem_of_fmap_2.
    - intros j p e' Hj He'. destruct (decide (j = idx)) as [->|Hj'].
      + rewrite Hq1 in Hj. injection Hj as <-. eapply cr_good0; [exact Hq|]. simpl in *. by right.
      + rewrite Hne in Hj by done. by eapply cr_good0. }
  assert (Hn1 : idx ∉ readers_in_entries_ c1) by (rewrite Hset1, Hperm; set_solver).
  destruct (update_when_not_in_entries_rep c1 qs1 idx (av, fr) Hc1 Hq1 Hn1) as (c2 & -> & Hc2 & _ & Hset2).
  exists c2. split; [done|]. split; [done|]. intros j p Hj Hp Hpne. rewrite Hset2.
  destruct (decide (j = idx)) as [->|Hj'].
  - rewrite Hq1 in Hp. injection Hp as <-. rewrite decide_False by done. set_solver.
  - rewrite Hne in Hp by done. apply elem_of_union_r. cbn. apply elem_of_difference. split; [|set_solver].
    eapply Hset; [|exact Hp|done]. by apply lookup_lt_Some in Hp.
Qed.

Lemma pop_rep (c : PerfContainer) (qs : list queue) (max : Z) :
  cont_rep c qs -> settled c qs (length qs) -> empty c max = false ->
  exists idx e r c', top c = Some (idx, r) /\ least qs idx e /\ key e <= max /\ pop c = Some c' /\
    cont_rep c' (drop_head qs idx) /\ settled c' (drop_head qs idx) (length (drop_head qs idx)).
Proof.
  intros Hc Hset He. unfold empty in He. destruct (entries_ c) as [|x l] eqn:Hx; [done|].
  destruct (top_rep c qs x l Hc Hset Hx) as (e & av & fr & r & Htop & Hq & Hh & Ht & Hleast).
  destruct (pop_cons _ _ _ _ Hh) as (r' & Hpop & Hh').
  destruct (update_after_pop_rep c qs x l e av fr r' Hc Hset Hx Hq Hh') as (c' & Hu & Hc' & Hset').
  exists (reader_index x), e, r, c'. apply Z.ltb_ge in He. split; [done|]. split; [done|]. split; [lia|].
  split; [|done]. unfold pop. rewrite Htop. cbn [mbind option_bind fst snd]. by rewrite Hpop.
Qed.

(** The ring at the top, and the container once its event was popped. *)
Lemma top_pop_rep (c : PerfContainer) (qs : list queue) (idx : nat) (r : R) (e : list Z) :
  cont_rep c qs -> settled c qs (length qs) -> top c = Some (idx, r) -> least qs idx e ->
  exists av fr r' c', ring_holds r (e :: av) fr /\ ring_pop r = Some r' /\
    update_after_pop (set_reader c idx r') = Some c' /\
    cont_rep c' (drop_head qs idx) /\ settled c' (drop_head qs idx) (length (drop_head qs idx)).
Proof.
  intros Hc Hset Htop Hleast. pose proof Htop as Htop2. unfold top in Htop2.
  destruct (entries_ c) as [|x l] eqn:Hx; [done|].
  destruct (top_rep c qs x l Hc Hset Hx) as (e' & av & fr & r2 & Htop' & Hq & Hh & _ & _).
  rewrite Htop in Htop'. injection Htop' as -> ->.
  destruct Hleast as [(av2 & fr2 & Hq2) _]. rewrite Hq in Hq2. injection Hq2 as -> -> ->.
  destruct (pop_cons _ _ _ _ Hh) as (r' & Hpop & Hh').
  destruct (update_after_pop_rep c qs x l e av2 fr2 r' Hc Hset Hx Hq Hh') as (c' & Hu & Hc').
  by exists av2, fr2, r', c'.
Qed.

(** Popping a sample and copying it out. *)
Lemma pop_and_copy_to_rep (c : PerfContainer) (qs : list queue) (idx : nat) (r : R) (e bs : list Z) :
  cont_rep c qs -> settled c qs (length qs) -> top c = Some (idx, r) -> least qs idx e ->
  word e 12 4 = Some (zlen bs) -> mem_read e 16 (zlen bs) = Some bs ->
  exists c', pop_and_copy_to c = Some (bs, c') /\ pop c = Some c'.
Proof.
  intros Hc Hset Htop Hleast Hlen Hbs.
  destruct (top_pop_rep _ _ _ _ _ Hc Hset Htop Hleast) as (av & fr & r' & c' & Hh & Hpop & Hu & _).
  destruct (peek_size_cons _ _ _ _ Hh) as [_ Hsize].
  pose proof Hbs as (_ & _ & Hfit & _)%mem_read_spec. pose proof (zlen_nonneg bs).
  exists c'. unfold pop_and_copy_to, pop. rewrite Htop. cbn [mbind option_bind fst snd].
  rewrite (peek_u32_cons _ _ _ _ _ Hh Hlen). cbn [mbind option_bind]. rewrite u16_small by lia.
  rewrite (peek_copy_cons _ _ _ _ 8 _ bs Hh) by done. cbn [mbind option_bind].
  rewrite Hpop. cbn [mbind option_bind]. by rewrite Hu.
Qed.

Lemma pop_unpadded_rep (c : PerfContainer) (qs : list queue) (idx : nat) (r : R) (e : list Z) :
  cont_rep c qs -> settled c qs (length qs) -> top c = Some (idx, r) -> least qs idx e ->
  exists c', pop_unpadded_and_copy_to c = Some (drop 8 e, c') /\
    reader_peek_type c = Some (event_type e) /\ peek_index c = Some idx /\
    cont_rep c' (drop_head qs idx) /\ settled c' (drop_head qs idx) (length (drop_head qs idx)).
Proof.
  intros Hc Hset Htop Hleast.
  destruct (top_pop_rep _ _ _ _ _ Hc Hset Htop Hleast) as (av & fr & r' & c' & Hh & Hpop & Hu & Hc').
  destruct (peek_size_cons _ _ _ _ Hh) as [Hps Hsize].
  assert (Hm : mem_read e 8 (zlen e - 8) = Some (drop 8 e)).
  { unfold mem_read, zlen in *. destruct (Z.leb_spec 0 (Z.of_nat (length e) - 8)),
      (Z.leb_spec (8 + (Z.of_nat (length e) - 8)) (Z.of_nat (length e))); try lia. cbn [andb Z.leb].
    f_equal. apply take_ge. rewrite length_drop. lia. }
  exists c'. unfold pop_unpadded_and_copy_to, reader_peek_type, peek_index. rewrite Htop.
  cbn [mbind option_bind fst snd].
  rewrite Hps. cbn [mbind option_bind]. rewrite u16_small by lia.
  rewrite (peek_copy_cons _ _ _ _ 0 _ (drop 8 e) Hh) by done. cbn [mbind option_bind].
  rewrite Hpop. cbn [mbind option_bind]. rewrite Hu. split; [done|].
  split; [by apply (peek_type_cons _ _ _ _ Hh)|]. split; [|done].
  unfold top in Htop. destruct (entries_ c); [done|]. cbn in *. destruct (readers_ c !! _); [|done]. cbn in *. naive_solver.
Qed.

(** * A session *)

(** [while (!reader.empty())] with a body that reads and pops the top event: the
    CPU, the type and the bytes of the events read. *)
Fixpoint drain (fuel : nat) (c : PerfContainer) (max : Z) : option (list (nat * Z * list Z) * PerfContainer) :=
  if empty c max then Some ([], c)
  else
    match fuel with
    | O => None
    | S fuel =>
        idx ← peek_index c;
        type ← reader_peek_type c;
        bc ← pop_unpadded_and_copy_to c;
        rest ← drain fuel bc.2 max;
        Some ((idx, type, bc.1) :: rest.1, rest.2)
    end.

(** The merge of the queues by time, up to [max]; events at the same time come in
    any order. *)
Inductive merged (max : Z) : list queue -> list (nat * list Z) -> list queue -> Prop :=
| merged_done qs : exhausted qs max -> merged max qs [] qs
| merged_step qs idx e out qs' :
    least qs idx e -> key e <= max -> merged max (drop_head qs idx) out qs' ->
    merged max qs ((idx, e) :: out) qs'.

Definition total (qs : list queue) : nat := sum_list_with (fun q => length q.1) qs.

Lemma total_drop_head (qs : list queue) (idx : nat) (e : list Z) :
  least qs idx e -> total qs = S (total (drop_head qs idx)).
Proof.
  intros [(av & fr & Hq) _]. unfold total, drop_head. revert idx Hq.
  induction qs as [|q qs IH]; intros [|idx] Hq; simplify_eq/=; [done|].
  rewrite (IH idx Hq). lia.
Qed.

Definition event_of (ie : nat * list Z) : nat * Z * list Z := (ie.1, event_type ie.2, drop 8 ie.2).

Lemma drain_rep (fuel : nat) (c : PerfContainer) (qs : list queue) (max : Z) :
  cont_rep c qs -> settled c qs (length qs) -> (total qs <= fuel)%nat ->
  exists out c' qs', drain fuel c max = Some (event_of <$> out, c') /\ merged max qs out qs' /\
    cont_rep c' qs' /\ settled c' qs' (length qs').
Proof.
  revert c qs. induction fuel as [|fuel IH]; intros c qs Hc Hset Hf;
    destruct (empty c max) eqn:He; cbn [drain]; rewrite He.
  1,3: exists [], c, qs; split; [done|]; split; [by constructor; eapply empty_rep|done].
  all: destruct (pop_rep c qs max Hc Hset He) as (idx & e & r & c' & Htop & Hleast & Hmax & _).
  all: pose proof (total_drop_head qs idx e Hleast) as Htot.
  { lia. }
  destruct (pop_unpadded_rep c qs idx r e Hc Hset Htop Hleast) as (c1 & Hu & Ht & Hi & Hc1 & Hset1).
  rewrite Hi. cbn [mbind option_bind]. rewrite Ht. cbn [mbind option_bind]. rewrite Hu. cbn [mbind option_bind fst snd].
  destruct (IH c1 (drop_head qs idx) Hc1 Hset1) as (out & c2 & qs2 & -> & Hm & Hc2); [lia|].
  exists ((idx, e) :: out), c2, qs2. split; [done|]. split; [by econstructor|done].
Qed.

(** * Merges *)

Lemma drop_head_lookup (qs : list queue) (idx j : nat) (q : queue) :
  drop_head qs idx !! j = Some q ->
  exists q0, qs !! j = Some q0 /\ q = if decide (j = idx) then (tail q0.1, q0.2) else q0.
Proof.
  unfold drop_head. intros Hq. destruct (decide (j = idx)) as [->|Hne].
  - rewrite list_lookup_alter_eq in Hq. destruct (qs !! idx) as [q0|]; [|done]. simplify_eq/=. eauto.
  - rewrite list_lookup_alter_ne in Hq by done. eauto.
Qed.

(** Each ring's events come out in order, and what does not come out stays. *)
Lemma merged_rings (max : Z) (qs : list queue) (out : list (nat * list Z)) (qs' : list queue) :
  merged max qs out qs' ->
  exhausted qs' max /\ forall i av fr, qs !! i = Some (av, fr) -> exists rest, qs' !! i = Some (rest, fr) /\
    av = (filter (fun ie => ie.1 = i) out).*2 ++ rest.
Proof.
  induction 1 as [qs He|qs idx e out qs' Hl Hk Hm [IHe IH]].
  - split; [done|]. intros i av fr Hq. by exists av.
  - split; [done|]. intros i av fr Hq. destruct (decide (i = idx)) as [->|Hne].
    + destruct Hl as [(av0 & fr0 & Hq0) _]. rewrite Hq in Hq0. injection Hq0 as -> ->.
      destruct (IH idx av0 fr0) as (rest & Hrest & ->).
      { unfold drop_head. by rewrite list_lookup_alter_eq, Hq. }
      exists rest. split; [done|]. by rewrite filter_cons_True.
    + destruct (IH i av fr) as (rest & Hrest & ->).
      { unfold drop_head. by rewrite list_lookup_alter_ne. }
      exists rest. split; [done|]. rewrite filter_cons_False; [done|]. simpl. congruence.
Qed.

Definition in_order (es : list (list Z)) : Prop := StronglySorted (fun a b => key a <= key b) es.

(** If every ring is in time order, so is the merge. *)
Lemma merged_sorted (max : Z) (qs : list queue) (out : list (nat * list Z)) (qs' : list queue) :
  merged max qs out qs' -> (forall i q, qs !! i = Some q -> in_order q.1) -> in_order (out.*2).
Proof.
  assert (Hbound : forall qs out qs' t, merged max qs out qs' ->
    (forall i q, qs !! i = Some q -> forall e, e ∈ q.1 -> t <= key e) -> Forall (fun e => t <= key e) (out.*2)).
  { intros qs0 out0 qs0' t. induction 1 as [qs0 He|qs0 idx e out0 qs0' [(av & fr & Hq) _] Hk Hm IH]; intros Ht; [constructor|].
    constructor; [by eapply Ht; [exact Hq|left]|]. apply IH. intros i q Hq' e' He'.
    apply drop_head_lookup in Hq' as (q0 & Hq0 & ->). eapply Ht; [exact Hq0|].
    case_decide; [|done]. subst. rewrite Hq in Hq0. injection Hq0 as <-. by right. }
  induction 1 as [qs He|qs idx e out qs' Hl Hk Hm IH]; intros Hord; [constructor|].
  assert (Hord' : forall i q, drop_head qs idx !! i = Some q -> in_order q.1).
  { intros i q (q0 & Hq0 & ->)%drop_head_lookup. apply Hord in Hq0. case_decide; [|done].
    destruct q0 as [[|e0 av0] fr0]; [done|]. by apply StronglySorted_inv in Hq0 as [? _]. }
  constructor; [by apply IH|]. eapply Hbound; [exact Hm|]. intros i q Hq e' He'.
  apply drop_head_lookup in Hq as (q0 & Hq0 & ->). destruct Hl as [(av & fr & Hq) Hleast].
  pose proof (Hord _ _ Hq0) as Hso. case_decide as Hi.
  - subst. rewrite Hq in Hq0. injection Hq0 as <-. simpl in *. apply StronglySorted_inv in Hso as [_ Hall].
    rewrite Forall_forall in Hall. by apply Hall.
  - destruct q0 as [[|e0 av0] fr0]; [by apply elem_of_nil in He'|]. pose proof (Hleast _ _ _ _ Hq0) as Hle.
    simpl in *. apply elem_of_cons in He' as [->|He']; [done|].
    apply StronglySorted_inv in Hso as [_ Hall]. rewrite Forall_forall in Hall. specialize (Hall e' He'). lia.
Qed.

(** Ending a session. *)
Lemma stop_rep (c : PerfContainer) (qs : list queue) : cont_rep c qs -> cont_rep (stop c) qs.
Proof.
  intros []. constructor; cbn; rewrite ?length_fmap; try done.
  - apply Forall2_fmap_l. eapply Forall2_impl; [exact cr_rings0|]. intros r q. apply finish_holds.
  - destruct cr_data0 as [ds Hds]. exists ds. apply Forall2_fmap_l. eapply Forall2_impl; [exact Hds|].
    intros r q. apply finish_holds.
Qed.
End perf_reader.

(** * Properties *)

(** C21: a session merges the rings by time.  From any state between sessions,
    whatever events the kernel has added: the constructor, the loop that reads and
    pops until the reader is empty, and the destructor stay within all arrays and
    rings, and the loop ends.  The events of each ring that were readable or had
    been added come out in their order, the first events left have a time after
    [max], each event that comes out is one of the earliest left, and the merge is
    in time order if the rings are.  A record that is not a sample has time 0 and
    so comes out as soon as it is the first of its ring. *)
Theorem perf_reader_merges `{EventRingLaws R} `{StdHeapLaws} (c : PerfContainer) (qs : list queue) (max : Z) :
  cont_rep c qs ->
  exists c1 out c2 qs', PerfReader_new c = Some c1 /\
    drain (total (started <$> qs)) c1 max = Some (event_of <$> out, c2) /\
    merged max (started <$> qs) out qs' /\ cont_rep (stop c2) qs' /\
    exhausted qs' max /\
    (forall i av fr, qs !! i = Some (av, fr) -> exists rest, qs' !! i = Some (rest, []) /\
       av ++ fr = (filter (fun ie => ie.1 = i) out).*2 ++ rest) /\
    ((forall i av fr, qs !! i = Some (av, fr) -> in_order (av ++ fr)) -> in_order (out.*2)).
Proof.
  intros Hc. destruct (PerfReader_new_rep c qs Hc) as (c1 & Hnew & Hc1 & Hset).
  rewrite <- (length_fmap started) in Hset.
  destruct (drain_rep _ c1 (started <$> qs) max Hc1 Hset (le_n _)) as (out & c2 & qs' & Hd & Hm & Hc2 & _).
  exists c1, out, c2, qs'. destruct (merged_rings max _ _ _ Hm) as [Hex Hrings].
  split; [done|]. split; [done|]. split; [done|]. split; [by apply stop_rep|]. split; [done|]. split.
  - intros i av fr Hq. apply Hrings. by rewrite list_lookup_fmap, Hq.
  - intros Hord. eapply merged_sorted; [exact Hm|]. intros i q Hq. rewrite list_lookup_fmap in Hq.
    destruct (qs !! i) as [[av fr]|] eqn:Hqi; [|done]. injection Hq as <-. by apply (Hord i).
Qed.
End PerfReader.

(** * The perf ring is an event ring *)

Section perf_ring.
#[local] Abbreviation ring := (PerfRing.perf_ring * PerfRing.storage)%type.

#[export] Instance perf_ring_ops : EventRing ring := {
  start_read_batch r := (PerfRing.pr_start_read_batch r.1 r.2, r.2);
  finish_read_batch r := (r.1, PerfRing.pr_finish_read_batch r.1 r.2);
  peek_size r := PerfRing.pr_peek_size r.1 r.2;
  peek_type r := PerfRing.pr_peek_type r.1 r.2;
  peek_aligned_u64 r := PerfRing.pr_peek_aligned_u64 r.1 r.2;
  peek_aligned_u32 r := PerfRing.pr_peek_aligned_u32 r.1 r.2;
  peek_aligned_u16 r := PerfRing.pr_peek_aligned_u16 r.1 r.2;
  peek_copy r := PerfRing.pr_peek_copy r.1 r.2;
  ring_pop r := r' ← PerfRing.pop r.1 r.2; Some (r', r.2)
}.

(** Some writer, which may be the kernel, shares the ring. *)
Definition perf_ring_holds (r : ring) (av fr : list (list Z)) : Prop :=
  exists k w f bh, 3 <= k <= 31 /\ PerfRing.pr_rep (2 ^ k) w r.1 r.2 f bh /\
    ElementQueue.s_avail f = av /\ ElementQueue.s_pub f = fr.

Lemma word_at (e : list Z) (o n v : Z) :
  word e o n = Some v -> exists bs, mem_read e o n = Some bs /\ v = le_decode bs.
Proof. unfold word. destruct (mem_read e o n) as [bs|]; [|done]. intros [= <-]. eauto. Qed.

Lemma peek_word (b j o v : Z) (r : ring) (e : list Z) (av fr : list (list Z)) :
  perf_ring_holds r (e :: av) fr -> 0 <= b <= 3 -> 0 <= j -> 0 <= o -> o + 2 ^ b <= 8 -> (2 ^ b | o) ->
  word e (8 + (8 * j + o)) (2 ^ b) = Some v -> PerfRing.peek_aligned (2 ^ b) r.1 r.2 (8 * j + o) = Some v.
Proof.
  intros (k & w & f & bh & Hk & Hrep & Hav & _) Hb Hj Ho Hon Hd (bs & Hm & ->)%word_at.
  by apply (PerfRing.peek_aligned_spec (2 ^ k) k Hk eq_refl Hrep Hav).
Qed.

#[export, refine] Instance perf_ring_laws : EventRingLaws ring := {| ring_holds := perf_ring_holds |}.
Proof.
  - intros r av fr (k & w & f & bh & Hk & Hrep & Hav & Hfr). exists k, w, (ElementQueue.fifo_start_read f), bh.
    split; [done|]. split; [apply PerfRing.pr_start_read_rep, Hrep|]. simpl. by rewrite Hav, Hfr.
  - intros r av fr (k & w & f & bh & Hk & Hrep & Hav & Hfr). exists k, w, (ElementQueue.fifo_finish_read f), bh.
    split; [done|]. split; [apply PerfRing.pr_finish_read_rep, Hrep|]. done.
  - intros r fr (k & w & f & bh & Hk & Hrep & Hav & Hfr).
    apply (PerfRing.r_tail (2 ^ k) k Hk eq_refl Hrep) in Hav. cbn. unfold PerfRing.pr_peek_size. by rewrite Hav, Z.eqb_refl.
  - intros r e av fr (k & w & f & bh & Hk & Hrep & Hav & Hfr).
    destruct (PerfRing.r_event (2 ^ k) k Hk Hrep Hav) as ((Hl & _) & _). split; [|done].
    apply (PerfRing.pr_peek_size_spec (2 ^ k) k Hk eq_refl Hrep Hav).
  - intros r e av fr (k & w & f & bh & Hk & Hrep & Hav & Hfr).
    destruct (PerfRing.r_event (2 ^ k) k Hk Hrep Hav) as ((Hl & _) & _).
    apply (PerfRing.pr_peek_type_spec (2 ^ k) k Hk eq_refl Hrep Hav). unfold event_type, word.
    unfold mem_read, zlen in *. destruct (Z.leb_spec (0 + 4) (Z.of_nat (length e))); [done|lia].
  - intros r e av fr j v Hh Hj Hw.
    pose proof (peek_word 3 j 0 v r e av fr Hh) as Hp. rewrite Z.add_0_r in Hp.
    apply Hp; [lia|lia|lia|lia|by exists 0|done].
  - intros r e av fr v Hh Hw. eapply (peek_word 2 0 4); [exact Hh|lia|lia|lia|lia|by exists 1|done].
  - intros r e av fr v Hh Hw. eapply (peek_word 1 2 0); [exact Hh|lia|lia|lia|lia|by exists 0|done].
  - intros r e av fr o len bs (k & w & f & bh & Hk & Hrep & Hav & Hfr) Ho Hm.
    by apply (PerfRing.pr_peek_copy_spec (2 ^ k) k Hk eq_refl Hrep Hav).
  - intros r e av fr (k & w & f & bh & Hk & Hrep & Hav & Hfr).
    destruct (PerfRing.pop_refines (2 ^ k) k Hk eq_refl Hrep Hav) as (r' & Hpop & Hrep').
    exists (r', r.2). cbn. rewrite Hpop. split; [done|].
    exists k, w, (ElementQueue.fifo_read f e av), bh. done.
Defined.
End perf_ring.

(** * Sorting is a way to implement the heap operations *)

Definition entry_le (a b : PerfEntry) : Prop := timestamp a <= timestamp b.

#[export] Instance entry_le_dec (a b : PerfEntry) : Decision (entry_le a b).
Proof. unfold entry_le. apply _. Defined.

#[export] Instance entry_le_total : Total entry_le.
Proof. intros a b. unfold entry_le. lia. Qed.

#[export] Instance entry_le_trans : Transitive entry_le.
Proof. intros a b c. unfold entry_le. lia. Qed.

#[export] Instance sort_heap : StdHeap := {
  push_heap := merge_sort entry_le;
  pop_heap l := match l with [] => [] | x :: l => merge_sort entry_le l ++ [x] end
}.

Lemma sorted_lookup (l : list PerfEntry) (i j : nat) (a b : PerfEntry) :
  StronglySorted entry_le l -> (i < j)%nat -> l !! i = Some a -> l !! j = Some b -> entry_le a b.
Proof.
  intros Hs. revert i j. induction Hs as [|x l Hs IH Hx]; intros [|i] [|j] Hij Ha Hb; simplify_eq/=; try lia.
  - rewrite Forall_forall in Hx. apply Hx. by eapply list_elem_of_lookup_2.
  - by apply (IH i j); [lia|..].
Qed.

Lemma sorted_heap (l : list PerfEntry) : StronglySorted entry_le l -> is_heap l.
Proof.
  intros Hs i a b Hi Hb Ha Hlt. unfold entry_lt in Hlt.
  assert (Hp : ((i - 1) / 2 < i)%nat) by (apply Nat.Div0.div_lt_upper_bound; lia).
  pose proof (sorted_lookup l _ _ a b Hs Hp Ha Hb) as Hle. unfold entry_le in Hle. lia.
Qed.

#[export] Instance sort_heap_laws : StdHeapLaws.
Proof.
  constructor.
  - intros l. apply merge_sort_Permutation.
  - intros l x _. apply sorted_heap. by apply (StronglySorted_merge_sort entry_le).
  - intros x l _. exists (merge_sort entry_le l). split; [done|]. split; [apply merge_sort_Permutation|].
    apply sorted_heap. by apply (StronglySorted_merge_sort entry_le).
Qed.

(** * An example *)

Module PerfReaderDemo.
(** Two rings of 32 bytes, each with one sample that has just been added, of the
    times 7 and 5. *)
Definition sample (t : Z) : list Z :=
  [9; 0; 0; 0; 0; 0; 24; 0; 12; 0; 0; 0; 8; 0; 0; 0; t; 0; 0; 0; 0; 0; 0; 0].

Definition ring_with (t : Z) : PerfRing.perf_ring * PerfRing.storage :=
  (PerfRing.mk_pr 31 0 0, PerfRing.mk_storage 24 0 (sample t ++ replicate 8 0)).

Definition no_events : PerfRing.perf_ring * PerfRing.storage :=
  (PerfRing.mk_pr 31 0 0, PerfRing.mk_storage 0 0 (replicate 32 0)).

Definition demo_container : PerfReader.PerfContainer :=
  PerfReader.mk_container [ring_with 7; ring_with 5] [no_events; no_events] [] ∅.

Lemma ring_with_holds (t : Z) : perf_ring_holds (ring_with t) [] [sample t].
Proof.
  exists 5, (PerfRing.mk_pr 31 0 24), (ElementQueue.mk_fifo [] [] [] [sample t] []), 0.
  split; [lia|]. split; [|done]. assert (He : PerfRing.event_ok (sample t)) by (split; [done|]; split; [by exists 3|done]).
  constructor; try done.
  - by exists 0.
  - intros i Hi. change (zlen _) with 24 in Hi. rewrite Z.add_0_l, Z.mod_small by lia.
    unfold rd. destruct (Z.leb_spec 0 i); [|lia]. cbn [PerfRing.data ring_with snd].
    rewrite lookup_app_l; [done|]. cbn [sample length]. lia.
  - apply Forall_cons. by split; [|constructor].
Qed.

Lemma no_events_holds : perf_ring_holds no_events [] [].
Proof.
  exists 5, (PerfRing.mk_pr 31 0 0), ElementQueue.fifo_empty, 0. split; [lia|]. split; [|done].
  apply (PerfRing.attach_ring_rep 32 5 ltac:(lia) eq_refl 1 32 0 (replicate 32 0)); [done|done|by exists 0|done].
Qed.

Lemma demo_container_rep : PerfReader.cont_rep demo_container [([], [sample 7]); ([], [sample 5])].
Proof.
  constructor; cbn; try done.
  - constructor; [apply ring_with_holds|]. constructor; [apply ring_with_holds|constructor].
  - exists [([], []); ([], [])]. constructor; [apply no_events_holds|]. constructor; [apply no_events_holds|constructor].
  - apply Nat.ltb_lt. done.
  - apply NoDup_nil_2.
  - intros x Hx. by apply elem_of_nil in Hx.
  - intros [|[|i]] q e Hq He; simplify_eq/=; apply list_elem_of_singleton in He as ->; done.
Qed.

Lemma perf_reader_merges_witness :
  exists c1 out c2, PerfReader.PerfReader_new demo_container = Some c1 /\
    PerfReader.drain 2 c1 10 = Some (PerfReader.event_of <$> out, c2) /\ out.*1 = [1%nat; 0%nat].
Proof.
  destruct (PerfReader.perf_reader_merges demo_container [([], [sample 7]); ([], [sample 5])] 10 demo_container_rep)
    as (c1 & out & c2 & qs' & Hnew & Hd & _).
  exists c1, out, c2. split; [exact Hnew|]. split; [exact Hd|].
  vm_compute in Hnew. injection Hnew as <-. vm_compute in Hd. injection Hd as Hd _.
  destruct out as [|[i e] [|[j e'] [|? out]]]; simplify_eq/=. done.
Defined.
End PerfReaderDemo.
