(* ===== verification/IpAddress.v ===== *)
(** IP addresses: util/ip_address.h and util/ip_address.cc.

    An [IPv6Address] is the array of eight 16-bit words the class keeps, an
    [IPv4Address] the array of four octets; both hold the address in network byte
    order, so a word read through a [reinterpret_cast] is the little-endian value of
    its bytes.  The text conversions call [inet_pton] and [inet_ntop], which are
    arguments of the model. *)
From S2P Require Import Prelude.

(** [htons] and [ntohs] on a little-endian machine. *)
Definition htons (x : Z) : Z := (x mod 256) * 256 + x / 256.

Lemma htons_involutive (x : Z) : 0 <= x < 2 ^ 16 -> htons (htons x) = x.
Proof.
  intros H. unfold htons. pose proof (Z.div_mod x 256). pose proof (Z.mod_pos_bound x 256).
  assert (0 <= x / 256 < 256) by (split; [apply Z.div_pos|apply Z.div_lt_upper_bound]; lia).
  rewrite (Z.add_comm (x mod 256 * 256)), Z.mod_add, Z.div_add, Z.mod_small, (Z.div_small (x / 256)) by lia. lia.
Qed.

Lemma htons_range (x : Z) : 0 <= x < 2 ^ 16 -> 0 <= htons x < 2 ^ 16.
Proof.
  intros H. unfold htons. pose proof (Z.mod_pos_bound x 256).
  assert (0 <= x / 256 < 256) by (split; [apply Z.div_pos|apply Z.div_lt_upper_bound]; lia). lia.
Qed.

(** A buffer of bytes. *)
Definition is_byte (b : Z) : Prop := 0 <= b < 256.
Definition is_hextet (h : Z) : Prop := 0 <= h < 2 ^ 16.

Module IpAddress.
Record IPv6Address := mk_v6 { hextets_ : list Z }.
Record IPv4Address := mk_v4 { octets_ : list Z }.

#[export] Instance IPv6Address_eq_dec : EqDecision IPv6Address.
Proof. solve_decision. Defined.
#[export] Instance IPv4Address_eq_dec : EqDecision IPv4Address.
Proof. solve_decision. Defined.

(** The result of [Expected]. *)
Inductive errc := invalid_argument | address_family_not_supported.

(** The words of a byte buffer, and the bytes of an array of words. *)
Fixpoint words16 (bs : list Z) : list Z :=
  match bs with
  | a :: b :: bs => (a + 256 * b) :: words16 bs
  | _ => []
  end.

Definition bytes16 (hs : list Z) : list Z := concat (le_encode 2 <$> hs).

(** ** IPv6 *)

Definition IPv6Address_zero : IPv6Address := mk_v6 (replicate 8 0).
Definition from_host_hextets (hextets : list Z) : IPv6Address := mk_v6 (htons <$> hextets).
Definition v6_from (buffer : list Z) : IPv6Address := mk_v6 (words16 buffer).
Definition v6_from_u64s (buffer : list Z) : IPv6Address := v6_from (concat (le_encode 8 <$> buffer)).
Definition v6_from_u32s (buffer : list Z) : IPv6Address := v6_from (concat (le_encode 4 <$> buffer)).
Definition v6_localhost : IPv6Address := from_host_hextets [0; 0; 0; 0; 0; 0; 0; 1].

Definition v6_parse (inet_pton : list Z -> Z * list Z) (ip_string : list Z) : errc + IPv6Address :=
  let '(res, address) := inet_pton ip_string in
  if res =? 0 then inl invalid_argument
  else if res =? 1 then inr (v6_from address)
  else inl address_family_not_supported.

(** [std::reverse_copy] of the bytes into the integer. *)
Definition v6_as_int (a : IPv6Address) : Z := le_decode (reverse (bytes16 (hextets_ a))).
Definition v6_write_to (a : IPv6Address) : list Z := bytes16 (hextets_ a).

Definition v6_is_localhost (a : IPv6Address) : bool := bool_decide (a = v6_localhost).

Definition all_zero : list Z -> bool :=
  fix loop l := match l with [] => true | i :: l => if negb (i =? 0) then false else loop l end.

Definition v6_is_zero (a : IPv6Address) : bool := all_zero (hextets_ a).

(** The loop of [is_ipv4] over the first five words, then the sixth. *)
Definition is_ipv4 (a : IPv6Address) : option bool :=
  let fix loop (n : nat) (i : Z) : option bool :=
    match n with
    | O => h ← rd (hextets_ a) 5; Some (h =? 65535)
    | S n => h ← rd (hextets_ a) i; if negb (h =? 0) then Some false else loop n (i + 1)
    end in
  loop 5%nat 0.

(** ** IPv4 *)

Definition IPv4Address_zero : IPv4Address := mk_v4 (replicate 4 0).
Definition v4_from (buffer : Z) : IPv4Address := mk_v4 (le_encode 4 buffer).
Definition v4_as_int (a : IPv4Address) : Z := le_decode (octets_ a).
Definition v4_localhost (least_significant_octet : Z) : IPv4Address :=
  mk_v4 [127; 0; 0; least_significant_octet].

Definition v4_parse (inet_pton : list Z -> Z * Z) (ip_string : list Z) : errc + IPv4Address :=
  let '(res, address) := inet_pton ip_string in
  if res =? 0 then inl invalid_argument
  else if res =? 1 then inr (v4_from address)
  else inl address_family_not_supported.

Definition v4_is_localhost (a : IPv4Address) : bool :=
  let kLocalhostPrefix := v4_as_int (mk_v4 [127; 0; 0; 0]) in
  let kLocalhostMask := v4_as_int (mk_v4 [255; 255; 255; 0]) in
  Z.land (v4_as_int a) kLocalhostMask =? kLocalhostPrefix.

Definition v4_is_zero (a : IPv4Address) : bool := all_zero (octets_ a).

(** [to_ipv4] reads the last two words as one 32-bit word. *)
Definition to_ipv4 (a : IPv6Address) : option (option IPv4Address) :=
  ip4 ← is_ipv4 a;
  if negb ip4 then Some None
  else quadlet ← mem_read (hextets_ a) 6 2; Some (Some (v4_from (le_decode (bytes16 quadlet)))).

Definition to_ipv6 (a : IPv4Address) : option IPv6Address :=
  if v4_is_localhost a then Some v6_localhost
  else
    buffer ← mem_write (replicate 16 0) 12 (octets_ a);
    buffer ← wr buffer 10 255;
    buffer ← wr buffer 11 255;
    Some (v6_from buffer).

(** The text forms; [inet_ntop] gives [None] on failure. *)
Definition v6_str (inet_ntop : list Z -> option (list Z)) (a : IPv6Address) : list Z :=
  default [] (inet_ntop (v6_write_to a)).

Definition v4_str (inet_ntop : Z -> option (list Z)) (a : IPv4Address) : list Z :=
  default [] (inet_ntop (v4_as_int a)).

Definition tidy_string (ntop6 : list Z -> option (list Z)) (ntop4 : Z -> option (list Z)) (a : IPv6Address)
    : option (list Z) :=
  ipv4 ← to_ipv4 a;
  Some match ipv4 with Some b => v4_str ntop4 b | None => v6_str ntop6 a end.

(** * Well-formed addresses *)

Definition v6_ok (a : IPv6Address) : Prop := length (hextets_ a) = 8%nat /\ Forall is_hextet (hextets_ a).
Definition v4_ok (a : IPv4Address) : Prop := length (octets_ a) = 4%nat /\ Forall is_byte (octets_ a).

Lemma le_encode_bytes (n : nat) (v : Z) : Forall is_byte (le_encode n v).
Proof.
  revert v. induction n as [|n IH]; intros v; simpl; constructor; [|apply IH].
  apply Z.mod_pos_bound. lia.
Qed.

Lemma le_encode_decode (bs : list Z) : Forall is_byte bs -> le_encode (length bs) (le_decode bs) = bs.
Proof.
  induction 1 as [|b bs Hb _ IH]; [done|]. cbn [length le_encode le_decode]. unfold is_byte in Hb.
  rewrite (Z.mul_comm 256), Z.mod_add, Z.div_add, Z.mod_small, Z.div_small by lia. by rewrite Z.add_0_l, IH.
Qed.

Lemma le_decode_range (bs : list Z) : Forall is_byte bs -> 0 <= le_decode bs < 256 ^ zlen bs.
Proof.
  unfold zlen. induction 1 as [|b bs Hb _ IH]; [done|]. cbn [length le_decode]. unfold is_byte in Hb.
  rewrite Nat2Z.inj_succ, Z.pow_succ_r by lia. lia.
Qed.

Lemma le_decode_app (bs cs : list Z) : le_decode (bs ++ cs) = le_decode bs + 256 ^ zlen bs * le_decode cs.
Proof.
  unfold zlen. induction bs as [|b bs IH]; cbn [app length le_decode]; [rewrite Z.pow_0_r; lia|].
  rewrite IH, Nat2Z.inj_succ, Z.pow_succ_r by lia. lia.
Qed.

Lemma words_bytes (hs : list Z) : Forall is_hextet hs -> words16 (bytes16 hs) = hs.
Proof.
  induction 1 as [|h hs Hh _ IH]; [done|]. unfold bytes16 in *. cbn. f_equal; [|exact IH].
  unfold is_hextet in Hh. rewrite (Z.mod_small (h / 256)).
  - pose proof (Z.div_mod h 256). lia.
  - split; [apply Z.div_pos|apply Z.div_lt_upper_bound]; lia.
Qed.

Lemma bytes_words (n : nat) (bs : list Z) :
  length bs = (2 * n)%nat -> Forall is_byte bs -> bytes16 (words16 bs) = bs.
Proof.
  revert bs. induction n as [|n IH]; intros [|a [|b bs]] Hl Hb; try (simpl in Hl; lia); [done|].
  apply Forall_cons in Hb as [Ha Hb]. apply Forall_cons in Hb as [Hb Hbs].
  unfold bytes16. cbn. unfold is_byte in *.
  rewrite (Z.mul_comm 256), Z.mod_add, Z.div_add, (Z.mod_small a), (Z.div_small a), Z.add_0_l, (Z.mod_small b) by lia.
  do 2 f_equal. apply (IH bs); [simpl in Hl; lia|done].
Qed.

Lemma words_hextets (n : nat) (bs : list Z) :
  length bs = (2 * n)%nat -> Forall is_byte bs -> length (words16 bs) = n /\ Forall is_hextet (words16 bs).
Proof.
  revert bs. induction n as [|n IH]; intros [|a [|b bs]] Hl Hb; try (simpl in Hl; lia); [done|].
  apply Forall_cons in Hb as [Ha Hb]. apply Forall_cons in Hb as [Hb Hbs]. cbn [words16].
  destruct (IH bs) as [Hn Hf]; [simpl in Hl; lia|done|]. split; [simpl; lia|]. constructor; [|done].
  unfold is_byte, is_hextet in *. lia.
Qed.

(** A list of a known length, cell by cell. *)
Ltac explode l H :=
  repeat (destruct l as [|? l]; [discriminate H|]; simpl in H); destruct l; [|discriminate H].

Lemma is_ipv4_spec (a : IPv6Address) :
  v6_ok a -> is_ipv4 a = Some (bool_decide (take 6 (hextets_ a) = [0; 0; 0; 0; 0; 65535])).
Proof.
  intros [Hl _]. destruct a as [hs]. cbn [hextets_] in *. explode hs Hl.
  trans (if negb (z =? 0) then Some false else if negb (z0 =? 0) then Some false else
         if negb (z1 =? 0) then Some false else if negb (z2 =? 0) then Some false else
         if negb (z3 =? 0) then Some false else Some (z4 =? 65535)); [done|].
  cbn [take].
  repeat (match goal with |- context [negb (?x =? 0)] => destruct (Z.eqb_spec x 0) as [->|] end; cbn [negb];
    [|f_equal; symmetry; apply bool_decide_eq_false; congruence]).
  destruct (Z.eqb_spec z4 65535) as [->|]; [done|]. f_equal. symmetry. apply bool_decide_eq_false. congruence.
Qed.

(** The mask of [is_localhost] fixes the first three octets. *)
Lemma v4_is_localhost_spec (a : IPv4Address) :
  v4_ok a -> v4_is_localhost a = bool_decide (take 3 (octets_ a) = [127; 0; 0]).
Proof.
  intros [Hl Hb]. destruct a as [os]. cbn [octets_] in *. explode os Hl.
  rewrite !Forall_cons in Hb. destruct Hb as (Ha & Hb & Hc & Hd & _). unfold is_byte in *.
  unfold v4_is_localhost, v4_as_int. cbn [octets_ le_decode].
  replace (255 + 256 * (255 + 256 * (255 + 256 * (0 + 256 * 0)))) with (2 ^ 24 - 1) by done.
  rewrite land_mask by lia. cbn [take].
  replace (z + 256 * (z0 + 256 * (z1 + 256 * (z2 + 256 * 0)))) with ((z + 256 * z0 + 65536 * z1) + z2 * 2 ^ 24) by lia.
  rewrite Z.mod_add, Z.mod_small by lia.
  apply Bool.eq_true_iff_eq. rewrite Z.eqb_eq, bool_decide_eq_true. split.
  - intros He. assert (z = 127 /\ z0 = 0 /\ z1 = 0) as (-> & -> & ->) by lia. done.
  - intros [= -> -> ->]. done.
Qed.

(** The IPv6 form of an IPv4 address that is not local. *)
Definition v4_mapped (a : IPv4Address) : IPv6Address :=
  v6_from (replicate 10 0 ++ [255; 255] ++ octets_ a).

Lemma to_ipv6_spec (a : IPv4Address) :
  v4_ok a -> to_ipv6 a = Some (if v4_is_localhost a then v6_localhost else v4_mapped a).
Proof.
  intros [Hl _]. unfold to_ipv6. destruct (v4_is_localhost a); [done|].
  destruct a as [os]. cbn [octets_] in *. explode os Hl. done.
Qed.

Lemma v4_mapped_ok (a : IPv4Address) : v4_ok a -> v6_ok (v4_mapped a).
Proof.
  intros [Hl Hb]. apply (words_hextets 8).
  - rewrite !length_app, Hl. done.
  - apply Forall_app. split; [by repeat constructor|]. by apply Forall_app; split; [repeat constructor|].
Qed.

Lemma to_ipv4_mapped (a : IPv4Address) : v4_ok a -> to_ipv4 (v4_mapped a) = Some (Some a).
Proof.
  intros Ha. unfold to_ipv4. rewrite is_ipv4_spec by (by apply v4_mapped_ok).
  destruct a as [os]. destruct Ha as [Hl Hb]. cbn [octets_] in *. pose proof (le_encode_decode _ Hb) as Hd.
  rewrite Hl in Hd. pose proof (bytes_words 2 os ltac:(by rewrite Hl) Hb) as Hw. explode os Hl.
  rewrite bool_decide_eq_true_2 by done. cbn [mbind option_bind negb].
  replace (mem_read _ 6 2) with (Some (words16 [z; z0; z1; z2])) by done.
  cbn [mbind option_bind]. unfold v4_from. by rewrite Hw, Hd.
Qed.

Lemma to_ipv4_inv (x : IPv6Address) (r : option IPv4Address) :
  v6_ok x -> to_ipv4 x = Some r ->
  match r with Some a => v4_ok a /\ x = v4_mapped a | None => take 6 (hextets_ x) <> [0; 0; 0; 0; 0; 65535] end.
Proof.
  intros Hx Ht. unfold to_ipv4 in Ht. rewrite is_ipv4_spec in Ht by done. cbn [mbind option_bind] in Ht.
  case_bool_decide as He; [|by injection Ht as <-]. destruct x as [hs]. destruct Hx as [Hl Hf]. cbn [hextets_] in *.
  explode hs Hl. cbn [take] in He. injection He as -> -> -> -> -> ->. cbn in Ht. injection Ht as <-.
  repeat (apply Forall_cons in Hf as [? Hf]). unfold is_hextet, v4_ok, v4_mapped, v4_from in *. cbn [octets_].
  pose (bs := [z5 mod 256; (z5 / 256) mod 256; z6 mod 256; (z6 / 256) mod 256]).
  assert (Hbs : Forall is_byte bs) by (repeat constructor; apply Z.mod_pos_bound; lia).
  pose proof (le_encode_decode bs Hbs : le_encode 4 _ = bs) as He.
  unfold bs in He at 1. cbn [le_decode] in He. rewrite He. split; [done|]. unfold v6_from. f_equal. subst bs. cbn [replicate app words16].
  assert (Hh : forall h, 0 <= h < 2 ^ 16 -> h = h mod 256 + 256 * ((h / 256) mod 256)).
  { intros h Hr. rewrite (Z.mod_small (h / 256)); [pose proof (Z.div_mod h 256); lia|].
    split; [apply Z.div_pos|apply Z.div_lt_upper_bound]; lia. }
  rewrite <- !Hh by done. done.
Qed.

(** * Properties *)

(** IPv4 addresses and their IPv6 form correspond.  [to_ipv6] maps every IPv4
    address into the ::ffff:0:0/96 range and [to_ipv4] takes it back to exactly
    the address it came from, except that the addresses [is_localhost] accepts are
    all mapped to ::1, which has no IPv4 form.  Conversely an IPv6 address has an
    IPv4 form exactly when it is in that range, and it is then the image of it. *)
Theorem ipv4_ipv6_roundtrip (a : IPv4Address) (x : IPv6Address) :
  v4_ok a -> v6_ok x ->
  (to_ipv6 a ≫= to_ipv4 = Some (if v4_is_localhost a then None else Some a)) /\
  exists r, to_ipv4 x = Some r /\
    match r with
    | Some b => v4_ok b /\ (v4_is_localhost b = false -> to_ipv6 b = Some x)
    | None => take 6 (hextets_ x) <> [0; 0; 0; 0; 0; 65535]
    end.
Proof.
  intros Ha Hx. split.
  - rewrite to_ipv6_spec by done. destruct (v4_is_localhost a); [done|]. by apply to_ipv4_mapped.
  - destruct (to_ipv4 x) as [r|] eqn:Ht.
    + exists r. split; [done|]. pose proof (to_ipv4_inv x r Hx Ht) as Hr. destruct r as [b|]; [|done].
      destruct Hr as [Hb ->]. split; [done|]. intros Hloc. by rewrite to_ipv6_spec, Hloc.
    + exfalso. unfold to_ipv4 in Ht. rewrite is_ipv4_spec in Ht by done. cbn [mbind option_bind] in Ht.
      destruct (bool_decide _); [|done]. destruct x as [hs]. destruct Hx as [Hl _]. cbn [hextets_] in *.
      explode hs Hl. done.
Qed.

Lemma ipv4_ipv6_roundtrip_witness :
  to_ipv6 (mk_v4 [10; 0; 1; 200]) ≫= to_ipv4 = Some (Some (mk_v4 [10; 0; 1; 200])).
Proof.
  refine (proj1 (ipv4_ipv6_roundtrip (mk_v4 [10; 0; 1; 200]) v6_localhost _ _));
    (split; [done|repeat constructor; vm_compute; (discriminate || reflexivity)]).
Defined.

(** The bytes of an IPv6 address round trip: what [from] reads from a buffer
    [write_to] writes back, and an address is recovered from the bytes it writes;
    [as_int] is the integer whose big-endian bytes those are. *)
Theorem ipv6_bytes_roundtrip (a : IPv6Address) (buffer : list Z) :
  v6_ok a -> length buffer = 16%nat -> Forall is_byte buffer ->
  v6_from (v6_write_to a) = a /\ v6_write_to (v6_from buffer) = buffer /\ v6_ok (v6_from buffer) /\
  v6_as_int (v6_from buffer) = foldl (fun acc b => 256 * acc + b) 0 buffer.
Proof.
  intros [Ha Hf] Hl Hb. split; [|split; [|split]].
  - destruct a as [hs]. unfold v6_from, v6_write_to. cbn [hextets_] in *. by rewrite words_bytes.
  - unfold v6_write_to, v6_from. cbn [hextets_]. by apply (bytes_words 8).
  - by apply (words_hextets 8).
  - unfold v6_as_int, v6_from. cbn [hextets_]. rewrite (bytes_words 8) by done. clear.
    induction buffer as [|b buffer IH] using rev_ind; [done|].
    rewrite reverse_app, foldl_app. cbn [reverse rev_append app le_decode foldl]. rewrite IH. lia.
Qed.

Lemma ipv6_bytes_roundtrip_witness :
  v6_as_int (v6_from (replicate 15 0 ++ [1])) = 1.
Proof.
  refine (proj2 (proj2 (proj2 (ipv6_bytes_roundtrip v6_localhost (replicate 15 0 ++ [1]) _ eq_refl _))));
    [split; [done|]|]; repeat constructor; vm_compute; (discriminate || reflexivity).
Defined.

(** [is_localhost] accepts 127.0.0.0/24, not the 127.0.0.0/8 that the header
    gives as the range of local addresses: of the 2^24 addresses of that range it
    refuses all whose second or third octet is not 0. *)
Theorem v4_localhost_is_slash24 (b c d : Z) :
  is_byte b -> is_byte c -> is_byte d ->
  v4_is_localhost (mk_v4 [127; b; c; d]) = bool_decide (b = 0 /\ c = 0).
Proof.
  intros Hb Hc Hd. rewrite v4_is_localhost_spec by (split; [done|]; repeat constructor; unfold is_byte in *; lia).
  cbn [octets_ take]. apply bool_decide_ext. split; [by intros [= -> ->]|by intros [-> ->]].
Qed.

Lemma v4_localhost_is_slash24_witness : v4_is_localhost (mk_v4 [127; 1; 0; 1]) = false.
Proof. refine (v4_localhost_is_slash24 1 0 1 _ _ _); split; vm_compute; (discriminate || reflexivity). Defined.
End IpAddress.
