(* ===== verification/NatHandler.v ===== *)
(** NAT tracking: collector/kernel/nat_handler.{h,cc} and hostport_tuple.h.

    The handler keeps the address translations of the kernel's connection tracker
    and the addresses of the open sockets, each with its reverse index, and reports
    a [nat_remapping] for a socket as soon as both are known.  The maps
    ([absl::flat_hash_map]) are finite maps; the messages written to the server are
    the second result of each handler.  [None] is the failing assertion of
    [remove_sk]. *)
From S2P Require Import Prelude IpAddress.

(** collector/kernel/hostport_tuple.h *)
Record hostport_tuple := mk_ft { src_ip : Z; dst_ip : Z; src_port : Z; dst_port : Z; proto : Z }.

Definition reversed (t : hostport_tuple) : hostport_tuple :=
  mk_ft (dst_ip t) (src_ip t) (dst_port t) (src_port t) (proto t).

#[export] Instance hostport_tuple_eq_dec : EqDecision hostport_tuple.
Proof. solve_decision. Defined.

#[export] Instance hostport_tuple_countable : Countable hostport_tuple.
Proof.
  apply (inj_countable' (fun t => (src_ip t, dst_ip t, src_port t, dst_port t, proto t))
           (fun '(a, b, c, d, e) => mk_ft a b c d e)). by intros [].
Defined.

Lemma reversed_reversed (t : hostport_tuple) : reversed (reversed t) = t.
Proof. by destruct t. Qed.

(** Two finite maps that are each other's inverse. *)
Definition inverse {A B} `{Countable A, Countable B} (m : gmap A B) (r : gmap B A) : Prop :=
  forall a b, m !! a = Some b <-> r !! b = Some a.

(** [m] without what is mapped to [b], with [a] mapped to [b]: binding [a] to [b] in
    a one-to-one map. *)
Definition bind_unique {A B} `{Countable A, EqDecision B} (m : gmap A B) (a : A) (b : B) : gmap A B :=
  <[a := b]> (filter (fun ab => ab.2 <> b) m).

Section inverse.
Context {A B : Type} `{Countable A, Countable B}.
Implicit Types (m : gmap A B) (r : gmap B A) (a : A) (b : B).

Lemma inverse_sym m r : inverse m r -> inverse r m.
Proof. intros Hi a b. by rewrite (Hi b a). Qed.

Lemma inverse_empty : inverse (∅ : gmap A B) ∅.
Proof. intros a b. by rewrite !lookup_empty. Qed.

Lemma inverse_delete m r a b : inverse m r -> m !! a = Some b -> inverse (delete a m) (delete b r).
Proof.
  intros Hi Ha a' b'. pose proof (proj1 (Hi a b) Ha). rewrite !lookup_delete_Some, (Hi a' b'). split; intros [Hne Hr].
  - split; [|done]. intros ->. congruence.
  - split; [|done]. intros ->. apply Hi in Hr. congruence.
Qed.

Lemma inverse_insert m r a b :
  inverse m r -> m !! a = None -> r !! b = None -> inverse (<[a := b]> m) (<[b := a]> r).
Proof.
  intros Hi Ha Hb a' b'. rewrite !lookup_insert_Some, (Hi a' b'). split.
  - intros [[-> ->]|[Hne Hr]]; [by left|]. right. split; [|done]. intros ->. congruence.
  - intros [[-> ->]|[Hne Hr]]; [by left|]. right. split; [|done]. intros ->. apply Hi in Hr. congruence.
Qed.

(** The filtering [bind_unique] does is at most one deletion. *)
Lemma filter_inverse m r b :
  inverse m r ->
  filter (fun ab => ab.2 <> b) m = match r !! b with Some a => delete a m | None => m end.
Proof.
  intros Hi. apply map_eq. intros a. rewrite map_lookup_filter.
  destruct (m !! a) as [b'|] eqn:Ha; cbn.
  - case_guard as Hg; cbn in *.
    + symmetry. destruct (r !! b) as [a'|] eqn:Hr; [|done]. apply Hi in Hr. rewrite lookup_delete_ne; [done|].
      intros ->. congruence.
    + assert (b' = b) as -> by (destruct (decide (b' = b)); [done|tauto]).
      apply Hi in Ha. by rewrite Ha, lookup_delete_eq.
  - symmetry. destruct (r !! b); [|done]. apply lookup_delete_None. by right.
Qed.
End inverse.

Module NatHandler.
Definition IPPROTO_TCP : Z := 6.
Definition SIZEOF_STRUCT_NF_CONNTRACK_TUPLE_HASH : Z := 56.

Record NatHandler := mk_nat {
  nat_table_ : gmap hostport_tuple hostport_tuple;
  nat_table_rev_ : gmap hostport_tuple hostport_tuple;
  existing_conntrack_table_ : gmap Z hostport_tuple;
  existing_sk_table_ : gmap hostport_tuple Z;
  existing_sk_table_rev_ : gmap Z hostport_tuple;
}.

(** A [nat_remapping] message: time stamp, socket, translated addresses. *)
Record nat_remapping := mk_remap { timestamp : Z; sk : Z; ft : hostport_tuple }.

Definition NatHandler_new : NatHandler := mk_nat ∅ ∅ ∅ ∅ ∅.

Definition with_nat (h : NatHandler) (t r : gmap hostport_tuple hostport_tuple) : NatHandler :=
  mk_nat t r (existing_conntrack_table_ h) (existing_sk_table_ h) (existing_sk_table_rev_ h).
Definition with_sks (h : NatHandler) (t : gmap hostport_tuple Z) (r : gmap Z hostport_tuple) : NatHandler :=
  mk_nat (nat_table_ h) (nat_table_rev_ h) (existing_conntrack_table_ h) t r.
Definition with_conntracks (h : NatHandler) (t : gmap Z hostport_tuple) : NatHandler :=
  mk_nat (nat_table_ h) (nat_table_rev_ h) t (existing_sk_table_ h) (existing_sk_table_rev_ h).

(** * Operations *)

Definition remove_sk (h : NatHandler) (sk : Z) : option NatHandler :=
  match existing_sk_table_rev_ h !! sk with
  | None => Some h
  | Some t =>
      match existing_sk_table_ h !! t with
      | None => None
      | Some _ => Some (with_sks h (delete t (existing_sk_table_ h)) (delete sk (existing_sk_table_rev_ h)))
      end
  end.

Definition record_sk (h : NatHandler) (sk : Z) (ft : hostport_tuple) : option NatHandler :=
  h ← match existing_sk_table_ h !! ft with
      | Some existing_sk => remove_sk h existing_sk
      | None => Some h
      end;
  h ← match existing_sk_table_rev_ h !! sk with
      | Some _ => remove_sk h sk
      | None => Some h
      end;
  Some (with_sks h (<[ft := sk]> (existing_sk_table_ h)) (<[sk := ft]> (existing_sk_table_rev_ h))).

Definition record_nat (h : NatHandler) (map_from map_to : hostport_tuple) : NatHandler :=
  let h := match nat_table_ h !! map_from with
           | Some some_to => with_nat h (nat_table_ h) (delete some_to (nat_table_rev_ h))
           | None => h
           end in
  let h := match nat_table_rev_ h !! map_to with
           | Some some_from => with_nat h (delete some_from (nat_table_ h)) (nat_table_rev_ h)
           | None => h
           end in
  with_nat h (<[map_from := map_to]> (nat_table_ h)) (<[map_to := map_from]> (nat_table_rev_ h)).

Definition remove_nat (h : NatHandler) (map_from : hostport_tuple) : NatHandler :=
  match nat_table_ h !! map_from with
  | Some map_to => with_nat h (delete map_from (nat_table_ h)) (delete map_to (nat_table_rev_ h))
  | None => h
  end.

Definition get_nat_mapping (h : NatHandler) (src dst sport dport proto : Z) : option hostport_tuple :=
  nat_table_ h !! mk_ft src dst (htons sport) (htons dport) proto.

Definition handle_nf_nat_cleanup_conntrack (h : NatHandler) (ft : hostport_tuple) : NatHandler := remove_nat h ft.

(** The message carries the two tuples; the translated one takes the protocol of
    the original ([nat_proto] is not used). *)
Definition handle_nf_conntrack_alter_reply (h : NatHandler) (timestamp : Z) (orig nat : hostport_tuple)
    : NatHandler * list nat_remapping :=
  let map_to := mk_ft (src_ip nat) (dst_ip nat) (src_port nat) (dst_port nat) (proto orig) in
  let h := record_nat h orig map_to in
  match existing_sk_table_ h !! orig with
  | Some sk => (h, [mk_remap timestamp sk map_to])
  | None => (h, [])
  end.

Definition handle_existing_conntrack_tuple (h : NatHandler) (ct dir : Z) (ft : hostport_tuple) : NatHandler :=
  if dir =? 0 then with_conntracks h (<[ct := ft]> (existing_conntrack_table_ h))
  else
    match existing_conntrack_table_ h !! ct with
    | None => h
    | Some map_from =>
        if decide (map_from = ft) then h
        else
          let h := record_nat h map_from ft in
          let revct := u64 (ct - SIZEOF_STRUCT_NF_CONNTRACK_TUPLE_HASH) in
          match existing_conntrack_table_ h !! revct with
          | Some _ => with_conntracks h (delete revct (existing_conntrack_table_ h))
          | None => h
          end
    end.

(** What both [handle_set_state] functions send once the tuple is known. *)
Definition send_known_mappings (h : NatHandler) (timestamp sk : Z) (ft : hostport_tuple) : list nat_remapping :=
  match nat_table_ h !! ft with Some to => [mk_remap timestamp sk to] | None => [] end ++
  match nat_table_rev_ h !! reversed ft with Some from => [mk_remap timestamp sk (reversed from)] | None => [] end.

Definition handle_set_state_ipv4 (h : NatHandler) (timestamp sk src dest sport dport : Z)
    : option (NatHandler * list nat_remapping) :=
  let ft := mk_ft src dest (htons sport) (htons dport) IPPROTO_TCP in
  h ← record_sk h sk ft;
  Some (h, send_known_mappings h timestamp sk ft).

Definition handle_set_state_ipv6 (h : NatHandler) (timestamp sk : Z) (src dest : list Z) (sport dport : Z)
    : option (NatHandler * list nat_remapping) :=
  let src := IpAddress.v6_from src in
  let dst := IpAddress.v6_from dest in
  src4 ← IpAddress.to_ipv4 src;
  dst4 ← IpAddress.to_ipv4 dst;
  match src4, dst4 with
  | Some src4, Some dst4 =>
      let ft := mk_ft (IpAddress.v4_as_int src4) (IpAddress.v4_as_int dst4) (htons sport) (htons dport) IPPROTO_TCP in
      h ← record_sk h sk ft;
      Some (h, send_known_mappings h timestamp sk ft)
  | _, _ => Some (h, [])
  end.

Definition handle_close_socket (h : NatHandler) (sk : Z) : option NatHandler := remove_sk h sk.

(** * Histories *)

Inductive op :=
  | Cleanup (ft : hostport_tuple)
  | Alter_reply (t : Z) (orig nat : hostport_tuple)
  | Existing (ct dir : Z) (ft : hostport_tuple)
  | Set_state_ipv4 (t sk src dest sport dport : Z)
  | Set_state_ipv6 (t sk : Z) (src dest : list Z) (sport dport : Z)
  | Close_socket (sk : Z).

Definition nat_step (h : NatHandler) (o : op) : option (NatHandler * list nat_remapping) :=
  match o with
  | Cleanup ft => Some (handle_nf_nat_cleanup_conntrack h ft, [])
  | Alter_reply t orig nat => Some (handle_nf_conntrack_alter_reply h t orig nat)
  | Existing ct dir ft => Some (handle_existing_conntrack_tuple h ct dir ft, [])
  | Set_state_ipv4 t sk src dest sport dport => handle_set_state_ipv4 h t sk src dest sport dport
  | Set_state_ipv6 t sk src dest sport dport => handle_set_state_ipv6 h t sk src dest sport dport
  | Close_socket sk => h ← handle_close_socket h sk; Some (h, [])
  end.

Fixpoint nat_run (h : NatHandler) (ops : list op) : option (NatHandler * list nat_remapping) :=
  match ops with
  | [] => Some (h, [])
  | o :: ops =>
      s ← nat_step h o;
      rest ← nat_run s.1 ops;
      Some (rest.1, s.2 ++ rest.2)
  end.

(** * Abstract view

    One one-to-one map of translations, one of the sockets' addresses, and the
    half-seen conntrack dump entries. *)
Record view := mk_view {
  v_nat : gmap hostport_tuple hostport_tuple;
  v_sk : gmap Z hostport_tuple;
  v_ct : gmap Z hostport_tuple;
}.

(** The messages for a socket with addresses [ft]: the translation of its tuple,
    then the one its peer's tuple is the result of, seen from its side. *)
Inductive known (v : view) (t sk : Z) (ft : hostport_tuple) : list nat_remapping -> Prop :=
  | Known (fwd bwd : list nat_remapping) :
      fwd = match v_nat v !! ft with Some to => [mk_remap t sk to] | None => [] end ->
      (exists from, v_nat v !! from = Some (reversed ft) /\ bwd = [mk_remap t sk (reversed from)]) \/
        ((forall from, v_nat v !! from <> Some (reversed ft)) /\ bwd = []) ->
      known v t sk ft (fwd ++ bwd).

Definition open_socket (v : view) (sk : Z) (ft : hostport_tuple) : view :=
  mk_view (v_nat v) (bind_unique (v_sk v) sk ft) (v_ct v).

Definition translate (v : view) (from to : hostport_tuple) : view :=
  mk_view (bind_unique (v_nat v) from to) (v_sk v) (v_ct v).

Inductive view_step (v : view) : op -> view -> list nat_remapping -> Prop :=
  | V_cleanup ft : view_step v (Cleanup ft) (mk_view (delete ft (v_nat v)) (v_sk v) (v_ct v)) []
  | V_alter_known t orig nat to sk :
      to = mk_ft (src_ip nat) (dst_ip nat) (src_port nat) (dst_port nat) (proto orig) ->
      v_sk v !! sk = Some orig ->
      view_step v (Alter_reply t orig nat) (translate v orig to) [mk_remap t sk to]
  | V_alter_unknown t orig nat to :
      to = mk_ft (src_ip nat) (dst_ip nat) (src_port nat) (dst_port nat) (proto orig) ->
      (forall sk, v_sk v !! sk <> Some orig) ->
      view_step v (Alter_reply t orig nat) (translate v orig to) []
  | V_existing_first ct ft :
      view_step v (Existing ct 0 ft) (mk_view (v_nat v) (v_sk v) (<[ct := ft]> (v_ct v))) []
  | V_existing_none ct dir ft :
      dir <> 0 -> (v_ct v !! ct = None \/ v_ct v !! ct = Some ft) -> view_step v (Existing ct dir ft) v []
  | V_existing_nat ct dir ft from :
      dir <> 0 -> v_ct v !! ct = Some from -> from <> ft ->
      view_step v (Existing ct dir ft)
        (mk_view (bind_unique (v_nat v) from ft) (v_sk v)
           (delete (u64 (ct - SIZEOF_STRUCT_NF_CONNTRACK_TUPLE_HASH)) (v_ct v))) []
  | V_set_state_ipv4 t sk src dest sport dport ft out :
      ft = mk_ft src dest (htons sport) (htons dport) IPPROTO_TCP -> known v t sk ft out ->
      view_step v (Set_state_ipv4 t sk src dest sport dport) (open_socket v sk ft) out
  | V_set_state_mapped t sk src dest sport dport a b ft out :
      IpAddress.v4_ok a -> IpAddress.v4_ok b ->
      src = replicate 10 0 ++ [255; 255] ++ IpAddress.octets_ a ->
      dest = replicate 10 0 ++ [255; 255] ++ IpAddress.octets_ b ->
      ft = mk_ft (le_decode (IpAddress.octets_ a)) (le_decode (IpAddress.octets_ b)) (htons sport) (htons dport)
             IPPROTO_TCP ->
      known v t sk ft out ->
      view_step v (Set_state_ipv6 t sk src dest sport dport) (open_socket v sk ft) out
  | V_set_state_ipv6 t sk src dest sport dport :
      (take 12 src <> replicate 10 0 ++ [255; 255] \/ take 12 dest <> replicate 10 0 ++ [255; 255]) ->
      view_step v (Set_state_ipv6 t sk src dest sport dport) v []
  | V_close sk : view_step v (Close_socket sk) (mk_view (v_nat v) (delete sk (v_sk v)) (v_ct v)) [].

Inductive view_run : view -> list op -> view -> list nat_remapping -> Prop :=
  | View_nil v : view_run v [] v []
  | View_cons v o ops v1 v2 out1 out2 :
      view_step v o v1 out1 -> view_run v1 ops v2 out2 -> view_run v (o :: ops) v2 (out1 ++ out2).

(** The messages carry IPv6 addresses as 16 bytes. *)
Definition op_ok (o : op) : Prop :=
  match o with
  | Set_state_ipv6 _ _ src dest _ _ =>
      length src = 16%nat /\ Forall is_byte src /\ length dest = 16%nat /\ Forall is_byte dest
  | _ => True
  end.

(** * Invariant *)

Definition abs (h : NatHandler) : view :=
  mk_view (nat_table_ h) (existing_sk_table_rev_ h) (existing_conntrack_table_ h).

Record nat_inv (h : NatHandler) : Prop := {
  inv_nat : inverse (nat_table_ h) (nat_table_rev_ h);
  inv_sk : inverse (existing_sk_table_rev_ h) (existing_sk_table_ h);
}.

Lemma remove_sk_spec (h : NatHandler) (sk : Z) :
  nat_inv h -> exists h', remove_sk h sk = Some h' /\ nat_inv h' /\
    abs h' = mk_view (v_nat (abs h)) (delete sk (v_sk (abs h))) (v_ct (abs h)).
Proof.
  intros [Hn Hs]. unfold remove_sk. destruct (existing_sk_table_rev_ h !! sk) as [t|] eqn:Hsk.
  - pose proof (proj1 (Hs _ _) Hsk) as Ht. rewrite Ht. eexists. split; [done|]. split; [|done].
    constructor; [done|]. cbn. by apply inverse_delete.
  - exists h. split; [done|]. split; [done|]. unfold abs. cbn. by rewrite delete_id.
Qed.

Lemma record_sk_spec (h : NatHandler) (sk : Z) (ft : hostport_tuple) :
  nat_inv h -> exists h', record_sk h sk ft = Some h' /\ nat_inv h' /\ abs h' = open_socket (abs h) sk ft /\
    nat_table_rev_ h' = nat_table_rev_ h.
Proof.
  intros [Hn Hs]. unfold record_sk.
  assert (exists h1, match existing_sk_table_ h !! ft with
      | Some existing_sk => remove_sk h existing_sk | None => Some h end = Some h1 /\ nat_inv h1 /\
      nat_table_ h1 = nat_table_ h /\ nat_table_rev_ h1 = nat_table_rev_ h /\
      existing_conntrack_table_ h1 = existing_conntrack_table_ h /\ existing_sk_table_ h1 !! ft = None /\
      existing_sk_table_rev_ h1 = filter (fun ab => ab.2 <> ft) (existing_sk_table_rev_ h))
    as (h1 & -> & [Hn1 Hs1] & En & Er & Ec & Hft & Hrev).
  { rewrite (filter_inverse _ _ ft Hs). destruct (existing_sk_table_ h !! ft) as [sk'|] eqn:Hft.
    - unfold remove_sk. pose proof (proj2 (Hs _ _) Hft) as Hsk. rewrite Hsk, Hft. eexists. split; [done|].
      cbn. split_and!; try done; [|apply lookup_delete_eq]. constructor; [done|]. cbn. by apply inverse_delete.
    - exists h. by split_and!. }
  cbn [mbind option_bind]. unfold open_socket, bind_unique, abs at 2 3 4. cbn [v_nat v_sk v_ct]. rewrite <- Hrev.
  destruct (existing_sk_table_rev_ h1 !! sk) as [t|] eqn:Hsk.
  - unfold remove_sk. rewrite Hsk. pose proof (proj1 (Hs1 _ _) Hsk) as Ht. rewrite Ht. cbn [mbind option_bind].
    eexists. split; [done|]. cbn. split_and!; [constructor; cbn; [done|]| |done].
    + apply inverse_insert; [by apply inverse_delete|apply lookup_delete_eq|]. apply lookup_delete_None. by right.
    + unfold abs. cbn. by rewrite En, Ec, insert_delete_eq.
  - eexists. split; [done|]. cbn. split_and!; [constructor; cbn; [done|by apply inverse_insert]| |done].
    unfold abs. cbn. by rewrite En, Ec.
Qed.

Lemma record_nat_spec (h : NatHandler) (a b : hostport_tuple) :
  nat_inv h -> nat_inv (record_nat h a b) /\ abs (record_nat h a b) = translate (abs h) a b /\
    existing_sk_table_ (record_nat h a b) = existing_sk_table_ h.
Proof.
  intros [Hn Hs]. unfold record_nat, translate, bind_unique, abs. cbn [v_nat v_sk v_ct].
  set (h1 := match nat_table_ h !! a with Some some_to => _ | None => h end).
  assert (H1 : nat_table_ h1 = nat_table_ h /\ existing_conntrack_table_ h1 = existing_conntrack_table_ h /\
    existing_sk_table_ h1 = existing_sk_table_ h /\ existing_sk_table_rev_ h1 = existing_sk_table_rev_ h /\
    inverse (delete a (nat_table_ h)) (nat_table_rev_ h1)).
  { subst h1. destruct (nat_table_ h !! a) as [b'|] eqn:Ha; cbn; split_and!; try done.
    - by apply inverse_delete.
    - by rewrite delete_id. }
  destruct H1 as (E1 & E2 & E3 & E4 & Hi). rewrite (filter_inverse _ _ b Hn). clearbody h1.
  destruct h1 as [nt1 nr1 ct1 st1 sr1]. cbn in *. subst nt1 ct1 st1 sr1.
  pose proof (inverse_sym _ _ Hi) as Hi'.
  destruct (nr1 !! b) as [a'|] eqn:Hb; cbn.
  - pose proof (proj1 (Hi' _ _) Hb) as Ha'. apply lookup_delete_Some in Ha' as [Hne Ha'].
    rewrite (proj1 (Hn _ _) Ha'). split_and!; [|done..]. constructor; cbn; [|done].
    rewrite <- insert_delete_eq, <- (insert_delete_eq nr1).
    apply inverse_insert; [|apply lookup_delete_eq..]. rewrite delete_delete.
    apply inverse_delete; [done|]. by apply lookup_delete_Some.
  - split_and!; [|f_equal|done].
    + constructor; cbn; [|done]. rewrite <- insert_delete_eq.
      apply inverse_insert; [done|apply lookup_delete_eq|done].
    + destruct (nat_table_rev_ h !! b) as [a'|] eqn:Hr; [|done]. apply Hn in Hr.
      destruct (decide (a = a')) as [->|Hne]; [by rewrite insert_delete_eq|].
      assert (nr1 !! b = Some a') by (apply Hi; by apply lookup_delete_Some). congruence.
Qed.

Lemma known_spec (h h' : NatHandler) (t sk : Z) (ft : hostport_tuple) :
  nat_inv h -> nat_table_ h' = nat_table_ h -> nat_table_rev_ h' = nat_table_rev_ h ->
  known (abs h) t sk ft (send_known_mappings h' t sk ft).
Proof.
  intros [Hn _] En Er. unfold send_known_mappings. rewrite En, Er. constructor; [done|].
  destruct (nat_table_rev_ h !! reversed ft) as [from|] eqn:Hr.
  - left. exists from. split; [by apply Hn|done].
  - right. split; [|done]. intros from Hf%Hn. congruence.
Qed.

(** The address of a mapped 16-byte buffer, and of any other one. *)
Lemma to_ipv4_buffer (buffer : list Z) :
  length buffer = 16%nat -> Forall is_byte buffer ->
  exists r, IpAddress.to_ipv4 (IpAddress.v6_from buffer) = Some r /\
    match r with
    | Some a => IpAddress.v4_ok a /\ buffer = replicate 10 0 ++ [255; 255] ++ IpAddress.octets_ a
    | None => take 12 buffer <> replicate 10 0 ++ [255; 255]
    end.
Proof.
  intros Hl Hb. pose proof (IpAddress.words_hextets 8 buffer Hl Hb) as Hok.
  change (IpAddress.v6_ok (IpAddress.v6_from buffer)) in Hok.
  assert (Hbuf : forall buf, length buf = 16%nat -> Forall is_byte buf ->
    IpAddress.v6_from buf = IpAddress.v6_from buffer -> buf = buffer).
  { intros buf Hbl Hbb [= Hw]. rewrite <- (IpAddress.bytes_words 8 buf), <- (IpAddress.bytes_words 8 buffer) by done.
    by rewrite Hw. }
  destruct (decide (take 12 buffer = replicate 10 0 ++ [255; 255])) as [He|He].
  - set (a := IpAddress.mk_v4 (drop 12 buffer)). assert (Ha : IpAddress.v4_ok a).
    { split; cbn; [rewrite length_drop; lia|by apply Forall_drop]. }
    exists (Some a). assert (Hbe : buffer = replicate 10 0 ++ [255; 255] ++ IpAddress.octets_ a).
    { subst a. cbn [IpAddress.octets_]. rewrite app_assoc, <- He. symmetry. apply take_drop. }
    split; [|done]. pose proof (IpAddress.to_ipv4_mapped a Ha) as Hm. unfold IpAddress.v4_mapped in Hm.
    by rewrite <- Hbe in Hm.
  - destruct (IpAddress.to_ipv4 (IpAddress.v6_from buffer)) as [[a|]|] eqn:Ht.
    + pose proof (IpAddress.to_ipv4_inv _ _ Hok Ht) as [Ha Hv]. exfalso. apply He.
      unfold IpAddress.v4_mapped in Hv. symmetry in Hv. apply Hbuf in Hv; [|..].
      * rewrite <- Hv. destruct a as [os]. by cbn.
      * rewrite !length_app, (proj1 Ha). done.
      * apply Forall_app. split; [by repeat constructor|]. apply Forall_app. split; [by repeat constructor|apply Ha].
    + exists None. done.
    + exfalso. unfold IpAddress.to_ipv4 in Ht. rewrite IpAddress.is_ipv4_spec in Ht by done.
      cbn [mbind option_bind] in Ht. destruct (bool_decide _); [|done]. unfold mem_read in Ht.
      cbn [IpAddress.hextets_ IpAddress.v6_from] in Ht. rewrite (proj1 Hok : length (IpAddress.words16 buffer) = 8%nat) in Ht.
      done.
Qed.

Lemma set_state_spec (h : NatHandler) (t sk : Z) (ft : hostport_tuple) :
  nat_inv h -> exists h' out, (h' ← record_sk h sk ft; Some (h', send_known_mappings h' t sk ft)) = Some (h', out) /\
    nat_inv h' /\ abs h' = open_socket (abs h) sk ft /\ known (abs h) t sk ft out.
Proof.
  intros Hi. destruct (record_sk_spec h sk ft Hi) as (h' & -> & Hi' & Ha & Hr). exists h', (send_known_mappings h' t sk ft).
  cbn [mbind option_bind]. split_and!; [done..|]. apply known_spec; [done| |done]. by injection Ha.
Qed.

Lemma nat_step_refines (h : NatHandler) (o : op) :
  nat_inv h -> op_ok o -> exists h' out, nat_step h o = Some (h', out) /\ nat_inv h' /\ view_step (abs h) o (abs h') out.
Proof.
  intros Hi Hok. destruct o as [ft|t orig nat|ct dir ft|t sk src dest sport dport|t sk src dest sport dport|sk]; cbn [nat_step].
  - eexists _, _. split; [done|]. unfold handle_nf_nat_cleanup_conntrack, remove_nat.
    assert (Hv : view_step (abs h) (Cleanup ft) (mk_view (delete ft (v_nat (abs h))) (v_sk (abs h)) (v_ct (abs h))) [])
      by constructor.
    destruct Hi as [Hn Hs]. destruct (nat_table_ h !! ft) as [to|] eqn:Ht.
    + split; [|done]. constructor; [|done]. by apply inverse_delete.
    + split; [done|]. unfold abs in Hv at 2 3 4. cbn in Hv. by rewrite delete_id in Hv.
  - unfold handle_nf_conntrack_alter_reply. set (to := mk_ft _ _ _ _ _).
    destruct (record_nat_spec h orig to Hi) as (Hi' & Ha & Hsk). rewrite Hsk.
    destruct (existing_sk_table_ h !! orig) as [sk|] eqn:Ho; eexists _, _; (split; [done|]; split; [done|]); rewrite Ha.
    + apply V_alter_known; [done|]. by apply (inv_sk h Hi).
    + apply V_alter_unknown; [done|]. intros sk Hs. apply (inv_sk h Hi) in Hs. congruence.
  - eexists _, _. split; [done|]. unfold handle_existing_conntrack_tuple. destruct (Z.eqb_spec dir 0) as [->|Hd].
    + destruct Hi as [Hn Hs]. split; [by constructor|]. apply V_existing_first.
    + destruct (existing_conntrack_table_ h !! ct) as [from|] eqn:Hc.
      2:{ split; [done|]. apply V_existing_none; [done|]. by left. }
      case_decide as Hf; [subst; split; [done|]; apply V_existing_none; [done|by right]|].
      destruct (record_nat_spec h from ft Hi) as (Hi1 & Ha & _).
      pose proof (V_existing_nat (abs h) ct dir ft from Hd Hc Hf) as Hv.
      revert Hi1 Ha. generalize (record_nat h from ft). intros h1 [Hn Hs] Ha. injection Ha as E1 E2 E3.
      destruct (_ !! u64 _) eqn:Hrev; (split; [by constructor|]); unfold abs in Hv |- *; cbn in Hv |- *;
        rewrite E1, E2, E3; [done|]. rewrite E3 in Hrev. by rewrite delete_id in Hv.
  - unfold handle_set_state_ipv4. destruct (set_state_spec h t sk (mk_ft src dest (htons sport) (htons dport) IPPROTO_TCP) Hi)
      as (h' & out & -> & Hi' & Ha & Hk). exists h', out. split_and!; [done..|]. rewrite Ha. by eapply V_set_state_ipv4.
  - destruct Hok as (Hl1 & Hb1 & Hl2 & Hb2). unfold handle_set_state_ipv6. cbv zeta.
    destruct (to_ipv4_buffer src Hl1 Hb1) as (r1 & -> & Hr1), (to_ipv4_buffer dest Hl2 Hb2) as (r2 & -> & Hr2).
    cbn [mbind option_bind]. destruct r1 as [a|]; [|exists h, []; split_and!; [done..|]; apply V_set_state_ipv6; by left].
    destruct r2 as [b|]; [|exists h, []; split_and!; [done..|]; apply V_set_state_ipv6; by right].
    destruct (set_state_spec h t sk (mk_ft (IpAddress.v4_as_int a) (IpAddress.v4_as_int b) (htons sport) (htons dport)
      IPPROTO_TCP) Hi) as (h' & out & -> & Hi' & Ha & Hk). exists h', out. split_and!; [done..|]. rewrite Ha.
    destruct Hr1, Hr2. by eapply (V_set_state_mapped _ _ _ _ _ _ _ a b).
  - unfold handle_close_socket. destruct (remove_sk_spec h sk Hi) as (h' & -> & Hi' & Ha). exists h', [].
    split_and!; [done..|]. rewrite Ha. constructor.
Qed.

Lemma nat_inv_new : nat_inv NatHandler_new.
Proof. constructor; apply inverse_empty. Qed.

Lemma nat_run_refines (ops : list op) (h : NatHandler) :
  nat_inv h -> Forall op_ok ops ->
  exists h' out, nat_run h ops = Some (h', out) /\ nat_inv h' /\ view_run (abs h) ops (abs h') out.
Proof.
  revert h. induction ops as [|o ops IH]; intros h Hi Hok; [exists h, []; split_and!; [done..|constructor]|].
  apply Forall_cons in Hok as [Ho Hok]. destruct (nat_step_refines h o Hi Ho) as (h1 & out1 & E1 & Hi1 & Hv1).
  destruct (IH h1 Hi1 Hok) as (h2 & out2 & E2 & Hi2 & Hv2). exists h2, (out1 ++ out2). cbn. rewrite E1. cbn.
  rewrite E2. split_and!; [done..|]. by econstructor.
Qed.

(** * Properties *)

(** C29: the NAT handler keeps one-to-one maps.  For every history of messages, in
    any order and with any repetitions, no assertion fails, each table and its
    reverse index stay inverse to each other, and the handler behaves as the
    one-to-one maps of the abstract view: a new translation or socket replaces
    whatever had either of its two sides, a socket that opens gets the
    translation of its tuple and the one of its peer's, in that order, and a
    translation that arrives gets sent to the socket that has its tuple. *)
Theorem nat_handler_refines (ops : list op) :
  Forall op_ok ops ->
  exists h out, nat_run NatHandler_new ops = Some (h, out) /\ nat_inv h /\
    view_run (mk_view ∅ ∅ ∅) ops (abs h) out.
Proof. intros Hok. by apply (nat_run_refines ops NatHandler_new nat_inv_new). Qed.

Definition demo_a : hostport_tuple := mk_ft 1 2 (htons 1000) (htons 80) IPPROTO_TCP.
Definition demo_b : hostport_tuple := mk_ft 3 4 (htons 2000) (htons 8080) IPPROTO_TCP.
Definition demo_ops : list op :=
  [Set_state_ipv4 10 77 1 2 1000 80; Alter_reply 11 demo_a demo_b; Set_state_ipv4 12 78 4 3 8080 2000;
   Close_socket 77; Set_state_ipv4 13 79 1 2 1000 80].

Lemma nat_handler_refines_witness :
  (exists h out, nat_run NatHandler_new demo_ops = Some (h, out) /\ nat_inv h /\
    view_run (mk_view ∅ ∅ ∅) demo_ops (abs h) out) /\
  (snd <$> nat_run NatHandler_new demo_ops) =
    Some [mk_remap 11 77 demo_b; mk_remap 12 78 (reversed demo_a); mk_remap 13 79 demo_b].
Proof.
  split; [|vm_compute; reflexivity]. apply (nat_handler_refines demo_ops). by repeat constructor.
Defined.

(** The dump entries of existing translations are never released.  The probe
    reports both directions of a connection under the same address [ct], but the
    clean-up erases [ct - 56]: after both messages of a translated connection the
    entry of [ct] is still in [existing_conntrack_table_]. *)
Theorem existing_conntrack_leaks (h : NatHandler) (ct : Z) (ft0 ft1 : hostport_tuple) :
  0 <= ct < 2 ^ 64 ->
  existing_conntrack_table_
    (handle_existing_conntrack_tuple (handle_existing_conntrack_tuple h ct 0 ft0) ct 1 ft1) !! ct = Some ft0.
Proof.
  intros Hct. unfold handle_existing_conntrack_tuple at 2. change (0 =? 0) with true. cbn iota.
  set (h1 := with_conntracks _ _).
  assert (Hl : existing_conntrack_table_ h1 !! ct = Some ft0) by apply lookup_insert_eq.
  unfold handle_existing_conntrack_tuple. change (1 =? 0) with false. cbn iota. rewrite Hl.
  case_decide; [done|].
  assert (Hr : existing_conntrack_table_ (record_nat h1 ft0 ft1) = existing_conntrack_table_ h1).
  { unfold record_nat. destruct (nat_table_ h1 !! ft0); cbn; by destruct (_ !! ft1). }
  rewrite Hr. destruct (_ !! u64 _); [|by rewrite Hr]. cbn [existing_conntrack_table_ with_conntracks].
  rewrite lookup_delete_ne; [done|]. unfold u64, SIZEOF_STRUCT_NF_CONNTRACK_TUPLE_HASH.
  intros He. pose proof (mod_neq (ct - 56) ct (2 ^ 64)). rewrite He, (Z.mod_small ct) in H0 by done. lia.
Qed.

Lemma existing_conntrack_leaks_witness :
  existing_conntrack_table_
    (handle_existing_conntrack_tuple (handle_existing_conntrack_tuple NatHandler_new 4096 0 demo_a) 4096 1 demo_b)
    !! 4096 = Some demo_a.
Proof. apply (existing_conntrack_leaks NatHandler_new 4096 demo_a demo_b). lia. Defined.
End NatHandler.
