(* ===== verification/Tables.v ===== *)
(** What the event handlers promise themselves of the socket tables and of the
    statistics stores, as type classes: [SocketTable] is the part of the
    [FixedHash] interface that collector/kernel/buffered_poller.cc calls, and
    [StatStore] the part of [MetricStore].  The handlers are verified against the
    laws; the instances at the end show that the two containers satisfy them. *)
From S2P Require Import Prelude Bitmap Pool FixedHash MetricStore.

(** * Socket tables *)

(** [tb_find] is [find], [tb_set] the assignments through the entry pointer it
    returns, [tb_at] and [tb_set_at] the accesses through [operator[]]. *)
Class SocketTable (T H : Type) := {
  tb_full : H -> bool;
  tb_find : H -> Z -> option (option (Z * T));
  tb_insert : H -> Z -> T -> option (H * option Z);
  tb_set : H -> Z -> T -> option H;
  tb_at : H -> Z -> option T;
  tb_set_at : H -> Z -> T -> option H;
  tb_erase : H -> Z -> option (H * bool);
}.

(** A bounded map from sockets to slots and entries, in which no two sockets share
    a slot; there is no entry in a slot that no socket has. *)
Class SocketTableLaws (T H : Type) `{SocketTable T H} := {
  tb_size : Z;
  tb_holds : H -> gmap Z (Z * T) -> Prop;
  tb_slot h C k i x : tb_holds h C -> C !! k = Some (i, x) -> 0 <= i < tb_size;
  tb_inj h C k k' i x x' : tb_holds h C -> C !! k = Some (i, x) -> C !! k' = Some (i, x') -> k = k';
  tb_full_spec h C : tb_holds h C -> tb_full h = bool_decide (Z.of_nat (size C) = tb_size);
  tb_find_spec h C k : tb_holds h C -> tb_find h k = Some (C !! k);
  tb_insert_old h C k x : tb_holds h C -> is_Some (C !! k) -> tb_insert h k x = Some (h, None);
  tb_insert_new h C k x :
    tb_holds h C -> Z.of_nat (size C) <> tb_size -> C !! k = None ->
    exists h' i, tb_insert h k x = Some (h', Some i) /\ 0 <= i < tb_size /\
      (forall k' y, C !! k' <> Some (i, y)) /\ tb_holds h' (<[k := (i, x)]> C);
  tb_set_spec h C k i x y :
    tb_holds h C -> C !! k = Some (i, x) ->
    exists h', tb_set h k y = Some h' /\ tb_holds h' (<[k := (i, y)]> C);
  tb_at_spec h C k i x : tb_holds h C -> C !! k = Some (i, x) -> tb_at h i = Some x;
  tb_at_free h C i : tb_holds h C -> (forall k x, C !! k <> Some (i, x)) -> tb_at h i = None;
  tb_set_at_spec h C k i x y :
    tb_holds h C -> C !! k = Some (i, x) ->
    exists h', tb_set_at h i y = Some h' /\ tb_holds h' (<[k := (i, y)]> C);
  tb_erase_spec h C k v :
    tb_holds h C -> C !! k = Some v -> exists h', tb_erase h k = Some (h', true) /\ tb_holds h' (delete k C);
}.

(** * Statistics stores *)

(** [ss_lookup] is [lookup] with [enqueue], [ss_lookup_relative] is
    [lookup_relative] without; both give the epoch of the metric the returned
    reference designates, through which [ss_metric] reads and [ss_set_metric]
    writes. *)
Class StatStore (Metric S : Type) := {
  ss_relative_timeslot : S -> Z -> S * Z;
  ss_lookup : S -> Z -> Z -> option (S * Z);
  ss_lookup_relative : S -> Z -> Z -> option Z;
  ss_metric : S -> Z -> Z -> option Metric;
  ss_set_metric : S -> Z -> Z -> Metric -> option S;
  ss_queue_empty : S -> option bool;
  ss_queue_peek : S -> option Z;
  ss_queue_pop : S -> option S;
  ss_advance : S -> S;
}.

(** One value changed. *)
Definition upd1 {A} (f : Z -> A) (k : Z) (x : A) (j : Z) : A := if decide (k = j) then x else f j.
Definition upd2 {A} (f : Z -> Z -> A) (k e : Z) (x : A) (j g : Z) : A :=
  if decide (k = j /\ e = g) then x else f j g.

Lemma upd1_eq {A} (f : Z -> A) (k : Z) (x : A) : upd1 f k x k = x.
Proof. unfold upd1. by rewrite decide_True. Qed.

Lemma upd1_ne {A} (f : Z -> A) (k j : Z) (x : A) : k <> j -> upd1 f k x j = f j.
Proof. intros. unfold upd1. by rewrite decide_False. Qed.

Lemma upd2_eq {A} (f : Z -> Z -> A) (k e : Z) (x : A) : upd2 f k e x k e = x.
Proof. unfold upd2. by rewrite decide_True. Qed.

Lemma upd2_ne {A} (f : Z -> Z -> A) (k e j g : Z) (x : A) : k <> j \/ e <> g -> upd2 f k e x j g = f j g.
Proof. intros Hne. unfold upd2. rewrite decide_False; [done|]. tauto. Qed.

(** The store holds a metric for every slot and epoch and, for each epoch, the
    list of the slots that changed in it; [cur] is the epoch of the current
    queue. *)
Class StatStoreLaws (Metric S : Type) `{StatStore Metric S} := {
  ss_size : Z;
  ss_epochs : Z;
  ss_holds : S -> (Z -> Z -> Metric) -> (Z -> list Z) -> Z -> Prop;
  ss_cur s M Q c : ss_holds s M Q c -> 0 <= c < ss_epochs;
  ss_queued s M Q c e : ss_holds s M Q c -> 0 <= e < ss_epochs ->
    NoDup (Q e) /\ Forall (fun k => 0 <= k < ss_size) (Q e);
  ss_relative_timeslot_spec s M Q c t : ss_holds s M Q c -> ss_holds (ss_relative_timeslot s t).1 M Q c;
  ss_lookup_spec s M Q c k t : ss_holds s M Q c -> 0 <= k < ss_size ->
    exists s' e, ss_lookup s k t = Some (s', e) /\ 0 <= e < ss_epochs /\
      ss_holds s' M (if decide (k ∈ Q e) then Q else upd1 Q e (k :: Q e)) c;
  ss_lookup_relative_spec s M Q c k bin : ss_holds s M Q c -> 0 <= k < ss_size -> 0 <= bin < ss_epochs ->
    ss_lookup_relative s k bin = Some ((bin + c) mod ss_epochs);
  ss_metric_spec s M Q c k e : ss_holds s M Q c -> 0 <= k < ss_size -> 0 <= e < ss_epochs ->
    ss_metric s k e = Some (M k e);
  ss_set_metric_spec s M Q c k e x : ss_holds s M Q c -> 0 <= k < ss_size -> 0 <= e < ss_epochs ->
    exists s', ss_set_metric s k e x = Some s' /\ ss_holds s' (upd2 M k e x) Q c;
  ss_empty_spec s M Q c : ss_holds s M Q c -> ss_queue_empty s = Some (bool_decide (Q c = []));
  ss_pop_spec s M Q c k ks : ss_holds s M Q c -> Q c = k :: ks ->
    ss_queue_peek s = Some k /\ exists s', ss_queue_pop s = Some s' /\ ss_holds s' M (upd1 Q c ks) c;
  ss_advance_spec s M Q c : ss_holds s M Q c -> ss_holds (ss_advance s) M Q ((c + 1) mod ss_epochs);
}.

(** A queue fits in the store, which bounds the loops that empty it. *)
Lemma ss_queue_length {Metric S : Type} `{StatStoreLaws Metric S} (s : S) M Q c e :
  ss_holds s M Q c -> 0 <= e < ss_epochs -> (length (Q e) <= Z.to_nat ss_size)%nat.
Proof.
  intros Hs He. destruct (ss_queued s M Q c e Hs He) as [Hnd Hr].
  assert (Hsub : Q e ⊆+ seqZ 0 ss_size).
  { apply NoDup_submseteq; [done|]. intros k Hk. rewrite Forall_forall in Hr. apply elem_of_seqZ.
    specialize (Hr k Hk). lia. }
  apply submseteq_length in Hsub. by rewrite length_seqZ in Hsub.
Qed.

(** Looking a metric up puts its slot in the queue. *)
Lemma ss_lookup_enqueues {Metric S : Type} `{StatStoreLaws Metric S} (s : S) M Q c k t :
  ss_holds s M Q c -> 0 <= k < ss_size ->
  exists s' e Q', ss_lookup s k t = Some (s', e) /\ 0 <= e < ss_epochs /\ ss_holds s' M Q' c /\
    k ∈ Q' e /\ forall j f, j ∈ Q f -> j ∈ Q' f.
Proof.
  intros Hs Hk. destruct (ss_lookup_spec s M Q c k t Hs Hk) as (s' & e & E & He & Hs'). exists s', e.
  eexists. split; [done|]. split; [done|]. split; [exact Hs'|]. case_decide as Hq; [done|]. unfold upd1.
  rewrite decide_True by done. split; [left|]. intros j f Hj. case_decide; [subst; by right|done].
Qed.

(** * The fixed-size hash table is a socket table *)

Section fixed_hash_table.
Context {T M : Type} `{Poolable T} `{!FlatHashMap Z Z M}.
Context (SIZE sizeof_elem : Z) (destroy_obj : T -> T).
#[local] Abbreviation table := (FixedHash.FixedHash T M).

#[local] Instance fixed_hash_table : SocketTable T table := {
  tb_full h := FixedHash.full SIZE h;
  tb_find h k := FixedHash.find SIZE h k;
  tb_insert h k x :=
    '(h, r) ← FixedHash.insert SIZE h k (Some x);
    Some (h, match r with Pool.At i => Some i | _ => None end);
  tb_set h k x := '(h, _) ← FixedHash.update SIZE h k x; Some h;
  tb_at h i := Pool.at_ SIZE (FixedHash.pool_ h) i;
  tb_set_at h i x :=
    p ← Pool.assign SIZE (FixedHash.pool_ h) i x;
    Some {| FixedHash.map_ := FixedHash.map_ h; FixedHash.pool_ := p |};
  tb_erase h k := FixedHash.erase SIZE destroy_obj h (FixedHash.Val k);
}.

Context (Hsize : Pool.size_ok SIZE sizeof_elem).

Definition table_holds (h : table) (C : gmap Z (Z * T)) : Prop := exists B, FixedHash.fh_rep SIZE h C B.

(** The slots of the keys are all slots in use. *)
Lemma slots_complete (h : table) C B i :
  FixedHash.fh_rep SIZE h C B -> (forall k x, C !! k <> Some (i, x)) -> B !! i = None.
Proof.
  intros Hr Hno. destruct (B !! i) as [y|] eqn:HB; [exfalso|done].
  set (slots := (fun kv : Z * (Z * T) => kv.2.1) <$> map_to_list C).
  assert (Hnd : NoDup (i :: slots)).
  { constructor.
    - intros ([k [j x]] & Hj & Hin)%list_elem_of_fmap. cbn in Hj. subst j.
      apply elem_of_map_to_list in Hin. by eapply Hno.
    - apply NoDup_fmap_2_strong; [|apply NoDup_map_to_list]. intros [k [j x]] [k' [j' x']] H1 H2 Heq. cbn in Heq.
      subst j'. apply elem_of_map_to_list in H1, H2. pose proof (FixedHash.fh_inj _ _ _ _ Hr _ _ _ _ _ H1 H2) as ->.
      congruence. }
  assert (Hsub : (i :: slots) ⊆+ (map_to_list B).*1).
  { apply NoDup_submseteq; [done|]. intros j [->|Hj]%elem_of_cons.
    - apply list_elem_of_fmap. exists (i, y). split; [done|]. by apply elem_of_map_to_list.
    - apply list_elem_of_fmap in Hj as ([k [j' x]] & -> & Hin). apply elem_of_map_to_list in Hin.
      apply list_elem_of_fmap. exists (j', x). split; [done|]. apply elem_of_map_to_list.
      by apply (FixedHash.fh_obj _ _ _ _ Hr k). }
  apply submseteq_length in Hsub. pose proof (FixedHash.fh_size _ _ _ _ Hr) as Hsz.
  subst slots. cbn [length] in Hsub. rewrite !length_fmap, !length_map_to_list in Hsub. lia.
Qed.

Lemma table_at_spec (h : table) C B i :
  FixedHash.fh_rep SIZE h C B -> Pool.at_ SIZE (FixedHash.pool_ h) i = None \/
    (0 <= i < SIZE /\ Pool.at_ SIZE (FixedHash.pool_ h) i = B !! i).
Proof.
  intros Hr. destruct (decide (0 <= i < SIZE)) as [Hi|Hi].
  - right. split; [done|]. apply Pool.at_spec; [apply (FixedHash.fh_pool _ _ _ _ Hr)|done].
  - left. unfold Pool.at_. destruct (Z.ltb_spec i SIZE); [|done]. cbn [negb].
    destruct (Bitmap.Bitmap.get _ i); [|done]. cbn. case_match; [done|]. unfold rd.
    destruct (Z.leb_spec 0 i); [lia|done].
Qed.

Lemma table_set_spec (h : table) C B k i x y :
  FixedHash.fh_rep SIZE h C B -> C !! k = Some (i, x) ->
  exists p, Pool.assign SIZE (FixedHash.pool_ h) i y = Some p /\
    table_holds {| FixedHash.map_ := FixedHash.map_ h; FixedHash.pool_ := p |} (<[k := (i, y)]> C).
Proof.
  intros Hr Hk. destruct (FixedHash.update_spec SIZE h C B k i y x Hr Hk) as (h' & Hu & Hr').
  unfold FixedHash.update in Hu. rewrite (FixedHash.fh_map _ _ _ _ Hr), Hk in Hu. cbn in Hu.
  destruct (Pool.assign SIZE (FixedHash.pool_ h) i y) as [p|]; [|done]. cbn in Hu. injection Hu as <-.
  exists p. split; [done|]. by eexists.
Qed.

#[local, refine] Instance fixed_hash_table_laws : SocketTableLaws T table :=
  {| tb_size := SIZE; tb_holds := table_holds |}.
Proof.
  - intros h C k i x [B Hr]. by apply (FixedHash.slot_range SIZE h C B k i x).
  - intros h C k k' i x x' [B Hr]. apply (FixedHash.fh_inj _ _ _ _ Hr).
  - intros h C [B Hr]. by apply (FixedHash.full_spec SIZE h C B).
  - intros h C k [B Hr]. by apply (FixedHash.find_spec SIZE sizeof_elem Hsize h C B).
  - intros h C k x [B Hr] Hk. cbn. by rewrite (FixedHash.insert_dup SIZE h C B k (Some x) Hr Hk).
  - intros h C k x [B Hr] Hs Hk. pose proof (FixedHash.rep_le SIZE sizeof_elem Hsize h C B Hr).
    destruct (FixedHash.insert_spec SIZE sizeof_elem Hsize h C B k x Hr) as (h' & i & He & Hi & Hf & Hr' & _);
      [lia|done|]. exists h', i. cbn. rewrite He. split_and!; [done|lia|lia| |by eexists].
    intros k' y Hk'. by eapply Hf.
  - intros h C k i x y [B Hr] Hk. cbn.
    destruct (FixedHash.update_spec SIZE h C B k i y x Hr Hk) as (h' & -> & Hr'). exists h'.
    split; [done|]. by eexists.
  - intros h C k i x [B Hr] Hk. cbn.
    rewrite (Pool.at_spec SIZE _ B i (FixedHash.fh_pool _ _ _ _ Hr) (FixedHash.slot_range SIZE h C B k i x Hr Hk)).
    by apply (FixedHash.fh_obj _ _ _ _ Hr k).
  - intros h C i [B Hr] Hno. cbn. destruct (table_at_spec h C B i Hr) as [->|[_ ->]]; [done|].
    by apply (slots_complete h C B).
  - intros h C k i x y [B Hr] Hk. cbn. destruct (table_set_spec h C B k i x y Hr Hk) as (p & -> & Hp). by eexists.
  - intros h C k [i x] [B Hr] Hk. cbn [tb_erase fixed_hash_table].
    destruct (FixedHash.erase_spec SIZE sizeof_elem destroy_obj Hsize h C B k i x Hr Hk) as (h' & -> & Hr').
    exists h'. split; [done|]. by eexists.
Defined.
End fixed_hash_table.

(** * The metric store is a statistics store *)

Section metric_stat_store.
Context {Metric : Type} (default_metric : Metric) (SIZE log_epochs : Z) (div : FastDiv.fast_div).
#[local] Abbreviation store := (MetricStore.MetricStore Metric).
#[local] Abbreviation n_epochs := (MetricStore.n_epochs log_epochs).

#[local] Instance metric_stat_store : StatStore Metric store := {
  ss_relative_timeslot s t := MetricStore.relative_timeslot div s t;
  ss_lookup s k t := '(s, _, e) ← MetricStore.lookup SIZE log_epochs div s k t true; Some (s, e);
  ss_lookup_relative s k bin := '(_, _, e) ← MetricStore.lookup_relative SIZE log_epochs s k bin false; Some e;
  ss_metric s k e := MetricStore.metric s k e;
  ss_set_metric s k e x := MetricStore.set_metric s k e x;
  ss_queue_empty s := MetricStore.queue_empty SIZE s;
  ss_queue_peek s := MetricStore.queue_peek SIZE s;
  ss_queue_pop s := MetricStore.queue_pop SIZE s;
  ss_advance s := MetricStore.advance log_epochs s;
}.

Context (Hp : MetricStore.params_ok SIZE log_epochs).

Definition store_holds (s : store) (M : Z -> Z -> Metric) (Q : Z -> list Z) (c : Z) : Prop :=
  MetricStore.ms_inv SIZE log_epochs s Q /\ MetricStore.current_queue_ s = c /\
  forall k e, 0 <= k < SIZE -> 0 <= e < n_epochs -> MetricStore.metric s k e = Some (M k e).

Lemma store_relative (s : store) M Q c t :
  store_holds s M Q c -> store_holds (MetricStore.relative_timeslot div s t).1 M Q c.
Proof. intros (Hi & Hc & Hm). split; [by apply MetricStore.relative_timeslot_inv|]. by split. Qed.

Lemma store_lookup (s : store) M Q c k t :
  store_holds s M Q c -> 0 <= k < SIZE ->
  exists s' b e, MetricStore.lookup SIZE log_epochs div s k t true = Some (s', b, e) /\ 0 <= e < n_epochs /\
    store_holds s' M (if decide (k ∈ Q e) then Q else upd1 Q e (k :: Q e)) c.
Proof.
  intros Hs Hk. unfold MetricStore.lookup. pose proof (store_relative s M Q c t Hs) as (Hi & Hc & Hm).
  destruct (MetricStore.relative_timeslot div s t) as [s1 rel] eqn:Hrel. cbn [fst] in *.
  assert (Hbin : 0 <= Histogram.histogram_bin n_epochs rel < n_epochs).
  { pose proof (MetricStore.n_epochs_range SIZE log_epochs Hp). destruct Hp as [_ Hl].
    unfold MetricStore.relative_timeslot in Hrel. injection Hrel as _ <-.
    unfold MetricStore.n_epochs in *. rewrite Histogram.histogram_bin_clamps; [lia|lia|].
    match goal with |- _ <= s16 ?x < _ => pose proof (MetricStore.s16_range x) end. lia. }
  destruct (MetricStore.lookup_relative_spec SIZE log_epochs Hp s1 Q k _ true Hi Hk Hbin) as (s2 & E & Hi2 & [_ Hc2] & Hm2).
  eexists s2, _, _. split; [exact E|].
  split; [apply (MetricStore.epoch_of_range SIZE log_epochs Hp); [done|apply (MetricStore.ms_shape _ _ _ _ Hi)]|].
  split; [|split].
  - case_decide as Hq; [rewrite bool_decide_true in Hi2 by done|rewrite bool_decide_false in Hi2 by done]; exact Hi2.
  - congruence.
  - intros j e Hj He. rewrite Hm2. by apply Hm.
Qed.

#[local, refine] Instance metric_stat_store_laws : StatStoreLaws Metric store :=
  {| ss_size := SIZE; ss_epochs := n_epochs; ss_holds := store_holds |}.
Proof.
  - intros s M Q c (Hi & <- & _). apply (MetricStore.sh_cur _ _ _ (MetricStore.ms_shape _ _ _ _ Hi)).
  - intros s M Q c e (Hi & _) He. destruct (MetricStore.ms_chain _ _ _ _ Hi e He) as [Hnd _]. split; [done|].
    apply (MetricStore.queue_length SIZE log_epochs s Q e Hi He).
  - intros s M Q c t. apply store_relative.
  - intros s M Q c k t Hs Hk. destruct (store_lookup s M Q c k t Hs Hk) as (s' & b & e & E & He & Hs').
    exists s', e. cbn [ss_lookup metric_stat_store]. by rewrite E.
  - intros s M Q c k bin (Hi & <- & _) Hk Hb. cbn [ss_lookup_relative metric_stat_store].
    destruct (MetricStore.lookup_relative_spec SIZE log_epochs Hp s Q k bin false Hi Hk Hb) as (s' & -> & _).
    cbn. by rewrite (MetricStore.epoch_of_mod SIZE log_epochs Hp s bin Hb (MetricStore.ms_shape _ _ _ _ Hi)).
  - intros s M Q c k e (_ & _ & Hm). apply Hm.
  - intros s M Q c k e x (Hi & Hc & Hm) Hk He.
    destruct (MetricStore.set_metric_spec SIZE log_epochs s k e x (MetricStore.ms_shape _ _ _ _ Hi) Hk He)
      as (s' & Es & _ & [_ Hc'] & _ & Hm' & _). exists s'. split; [exact Es|].
    split; [by eapply MetricStore.set_metric_inv|]. split; [congruence|]. intros j f Hj Hf. rewrite Hm'.
    unfold upd2. case_decide; [done|]. by apply Hm.
  - intros s M Q c (Hi & <- & _). cbn [ss_queue_empty metric_stat_store]. destruct (Q (MetricStore.current_queue_ s)) as [|k ks] eqn:Hq.
    + by apply (MetricStore.queue_empty_spec SIZE log_epochs s Q).
    + by destruct (MetricStore.queue_pop_spec SIZE log_epochs Hp s Q k ks Hi Hq) as (-> & _).
  - intros s M Q c k ks (Hi & <- & Hm) Hq.
    destruct (MetricStore.queue_pop_spec SIZE log_epochs Hp s Q k ks Hi Hq) as (_ & Hpk & _ & s' & Ep & Hi' & [_ Hc'] & Hm').
    split; [done|]. exists s'. split; [done|]. split; [done|]. split; [done|].
    intros j e Hj He. rewrite Hm'. by apply Hm.
  - intros s M Q c (Hi & <- & Hm). pose proof (MetricStore.advance_inv SIZE log_epochs Hp s Q Hi) as Hi'.
    split; [done|]. split; [|done]. cbn. destruct Hp as [_ Hl]. unfold MetricStore.n_epochs. apply land_mask. lia.
Defined.

Lemma metric_store_new :
  store_holds (MetricStore.MetricStore_new default_metric SIZE log_epochs) (fun _ _ => default_metric) (fun _ => []) 0.
Proof.
  split; [by apply MetricStore.ms_new_inv|]. split; [done|]. intros k e Hk He. unfold MetricStore.metric. cbn.
  unfold rd. destruct (Z.leb_spec 0 k), (Z.leb_spec 0 e); try lia. rewrite lookup_replicate_2 by lia. cbn.
  unfold MetricStore.element_new. cbn. rewrite lookup_replicate_2 by lia. done.
Qed.
End metric_stat_store.
