(* ===== verification/PollerBase.v ===== *)
(** The vocabulary of the event handlers of collector/kernel/buffered_poller.cc:
    the outcome of a handler and the messages it writes. *)
From S2P Require Import Prelude NatHandler.

(** * Outcomes

    A handler returns, throws an exception, or runs into undefined behaviour or a
    failing assertion; [OutOfFuel] is the bound on the iterations of a loop, which
    the theorems show to be enough. *)

Inductive exn :=
  | bad_length                (* "invalid message length", "message truncated", "message too long" *)
  | no_rpc_id                 (* "got message < timestamp+rpc_id" *)
  | unknown_message           (* "unexpected bpf message" *)
  | unknown_record            (* "Unexpected record type" *)
  | garbled_dns               (* "dns: garbled message length" *)
  | not_in_table              (* "handle_close_socket: removing socket from table failed" *)
  | flush_failed              (* "flush failed at end" *)
  | invalid_protocol          (* "invalid protocol" *)
  | invalid_update            (* "update from invalid protocol" *)
  | out_of_order              (* "out-of-order message" *)
  | unexpected_error          (* "unexpected error" *)
  | out_of_range.             (* std::vector::at *)

Inductive result (A : Type) := Ok (a : A) | Throw (e : exn) | Undef | NoFuel.
Arguments Ok {A} a.
Arguments Throw {A} e.
Arguments Undef {A}.
Arguments NoFuel {A}.

Definition rbind {A B} (r : result A) (f : A -> result B) : result B :=
  match r with Ok a => f a | Throw e => Throw e | Undef => Undef | NoFuel => NoFuel end.

(** An access that may be out of range. *)
Definition get {A} (o : option A) : result A := match o with Some a => Ok a | None => Undef end.

Declare Scope result_scope.
Delimit Scope result_scope with result.
Notation "'let*' p ':=' e 'in' k" := (rbind e (fun p => k))
  (at level 10, p pattern, e at level 200, k at level 200) : result_scope.

(** * Messages

    What the handlers write to [writer_] (render/ebpf_net.render, application
    ingest), and the calls they make to the handlers of other components. *)

Inductive message :=
  | new_sock_info (t pid sk : Z)
  | set_state_ipv4 (t dest src dport sport sk tx_rx : Z)
  | set_state_ipv6 (t : Z) (dest src : list Z) (dport sport sk tx_rx : Z)
  | close_sock_info (t sk : Z)
  | socket_stats (t sk diff_bytes diff_delivered diff_retrans max_srtt is_rx : Z)
  | syn_timeout (t sk : Z)
  | tcp_reset (t sk is_rx : Z)
  | http_response (t sk pid code latency_ns client_server : Z)
  | nat_remapping (m : NatHandler.nat_remapping)
  | udp_new_socket (t pid sk_id : Z) (laddr : list Z) (lport : Z)
  | udp_destroy_socket (t sk_id : Z)
  | udp_stats_addr_changed_v4 (t sk_id is_rx packets bytes raddr rport : Z)
  | udp_stats_addr_changed_v6 (t sk_id is_rx packets bytes : Z) (raddr : list Z) (rport : Z)
  | udp_stats_addr_unchanged (t sk_id is_rx packets bytes : Z)
  | udp_stats_drops_changed (t sk_id drops : Z)
  | dns_response (t sk_id total_dn_len : Z) (domain_name : list Z) (ipv4_addrs ipv6_addrs : list (list Z))
      (latency_ns client_server : Z)
  | dns_timeout (t sk_id total_dn_len : Z) (domain_name : list Z) (duration_ns : Z)
  | bpf_lost_samples (count : Z)
  | pid_info_create (t pid : Z) (comm : list Z) (cgroup parent_pid : Z) (cmdline : list Z)
  | pid_close_info (t pid : Z) (comm : list Z)
  | pid_set_comm (t pid : Z) (comm : list Z)
  | pid_cgroup_move (t pid cgroup : Z)
  | cgroup_close (t cgroup : Z)
  | cgroup_create (t cgroup cgroup_parent : Z) (name : list Z)
  | bpf_log (filename : list Z) (linenumber code arg0 arg1 arg2 : Z)
  (* calls into other components *)
  | tracked_process_start (cgroup tgid : Z) (command : list Z)
  | tracked_process_put (cgroup tgid : Z)
  | tracked_process_set_cgroup (old_cgroup tgid cgroup : Z)
  | tracked_process_set_command (cgroup tgid : Z) (command : list Z)
  | tracked_process_pid_exit (cgroup tgid t pid exit_code : Z)
  | docker_fetch (cgroup : Z) (name : list Z)
  | docker_response (cgroup : Z) (data : list Z)
  | tcp_data (cpu t sk pid length offset stream_type client_server : Z)
  | tcp_data_close (sk : Z)
  | request_restart.

(** A 64-bit value as a signed one. *)
Definition s64 (x : Z) : Z := (x + 2 ^ 63) mod 2 ^ 64 - 2 ^ 63.

Lemma s64_small (x : Z) : - 2 ^ 63 <= x < 2 ^ 63 -> s64 x = x.
Proof. intros. unfold s64. rewrite Z.mod_small; lia. Qed.
