(* ===== verification/PollerTcp.v ===== *)
(** TCP sockets and their statistics: the TCP handlers of
    collector/kernel/buffered_poller.cc and the structures of socket_table.h.

    The state is the socket table, the statistics store, the map from slots to
    sockets and the flag that records an overflow.  The handlers are written
    against the interfaces of [Tables].  A message carries the absolute counters
    of a socket; the handlers accumulate the differences per socket and epoch and
    report them when the epoch ends or the socket closes.

    Theorems: no sequence of events makes a handler fail; what is reported for a
    socket plus what is still pending is what was observed, and nothing is pending
    once a socket is closed or two epochs have ended. *)
From S2P Require Import Prelude Pool FixedHash MetricStore Tables PollerBase.
Open Scope result_scope.

Module PollerTcp.
(** * Data *)

Record tcp_statistics := mk_stats {
  diff_bytes_acked : Z;
  diff_delivered : Z;
  diff_retrans : Z;
  max_srtt : Z;
  diff_rcv_holes : Z;
  diff_bytes_received : Z;
  diff_rcv_delivered : Z;
  max_rcv_rtt : Z;
  valid : bool;
}.

Record tcp_socket_entry := mk_entry {
  bytes_acked : Z;
  packets_delivered : Z;
  packets_retrans : Z;
  bytes_received : Z;
  rcv_holes : Z;
  rcv_delivered : Z;
}.

Definition no_stats : tcp_statistics := mk_stats 0 0 0 0 0 0 0 0 false.
Definition no_entry : tcp_socket_entry := mk_entry 0 0 0 0 0 0.

(** The messages of the probes. *)
Record rtt_estimator := mk_rtt { r_sk : Z; r_counters : tcp_socket_entry; srtt : Z; rcv_rtt : Z }.
Record reset_tcp_counters := mk_reset {
  c_sk : Z; c_pid : Z; c_bytes_acked : Z; c_packets_delivered : Z; c_packets_retrans : Z; c_bytes_received : Z }.

Definition n_epochs : Z := 2.

(** The differences are positive as signed numbers, or are dropped. *)
Definition clamp64 (d : Z) : Z := if s64 d <? 0 then 0 else d.
Definition clamp32 (d : Z) : Z := if s32 d <? 0 then 0 else d.

Section handlers.
Context {H S : Type} `{SocketTable tcp_socket_entry H} `{StatStore tcp_statistics S}.

Record Tcp := mk_tcp {
  tcp_socket_table_ : H;
  tcp_socket_stats_ : S;
  tcp_index_to_sk_ : list Z;
  tcp_socket_table_ever_full_ : bool;
}.

Definition set_stats (p : Tcp) (s : S) : Tcp :=
  mk_tcp (tcp_socket_table_ p) s (tcp_index_to_sk_ p) (tcp_socket_table_ever_full_ p).

(** The common part of [handle_new_socket] and [handle_reset_tcp_counters]: inserting
    a socket; the result says whether it was. *)
Definition add_socket (p : Tcp) (sk : Z) : result (Tcp * bool) :=
  if tb_full (tcp_socket_table_ p)
  then Ok (mk_tcp (tcp_socket_table_ p) (tcp_socket_stats_ p) (tcp_index_to_sk_ p) true, false)
  else
    let* (h, pos) := get (tb_insert (tcp_socket_table_ p) sk no_entry) in
    match pos with
    | Some index =>
        let* sks := get (wr (tcp_index_to_sk_ p) index sk) in
        Ok (mk_tcp h (tcp_socket_stats_ p) sks (tcp_socket_table_ever_full_ p), true)
    | None => Ok (mk_tcp h (tcp_socket_stats_ p) (tcp_index_to_sk_ p) (tcp_socket_table_ever_full_ p), false)
    end.

Definition handle_new_socket (p : Tcp) (t pid sk : Z) : result (Tcp * list message) :=
  let* (p, added) := add_socket p sk in
  Ok (p, if (added : bool) then [new_sock_info t pid sk] else []).

(** The message is written before the table is looked at. *)
Definition handle_reset_tcp_counters (p : Tcp) (t : Z) (msg : reset_tcp_counters) : result (Tcp * list message) :=
  let out := [new_sock_info t (c_pid msg) (c_sk msg)] in
  let* (p, added) := add_socket p (c_sk msg) in
  if negb added then Ok (p, out)
  else
    let* h := get (tb_set (tcp_socket_table_ p) (c_sk msg)
      (mk_entry (c_bytes_acked msg) (c_packets_delivered msg) (c_packets_retrans msg) (c_bytes_received msg)
         (rcv_holes no_entry) (rcv_delivered no_entry))) in
    Ok (mk_tcp h (tcp_socket_stats_ p) (tcp_index_to_sk_ p) (tcp_socket_table_ever_full_ p), out).

Definition send_socket_stats (t sk : Z) (stats : tcp_statistics) : list message * tcp_statistics :=
  ((if (0 <? diff_bytes_acked stats) || (0 <? diff_retrans stats)
    then [socket_stats t sk (diff_bytes_acked stats) (diff_delivered stats) (diff_retrans stats) (max_srtt stats) 0]
    else []) ++
   (if (0 <? diff_bytes_received stats) || (0 <? diff_rcv_holes stats)
    then [socket_stats t sk (diff_bytes_received stats) (diff_rcv_delivered stats) (diff_rcv_holes stats)
            (max_rcv_rtt stats) 1]
    else []),
   mk_stats (diff_bytes_acked stats) (diff_delivered stats) (diff_retrans stats) (max_srtt stats)
     (diff_rcv_holes stats) (diff_bytes_received stats) (diff_rcv_delivered stats) (max_rcv_rtt stats) false).

(** Sending the statistics of one slot and epoch, if they are valid. *)
Definition send_if_valid (t : Z) (sk : result Z) (s : S) (index epoch : Z) : result (S * list message) :=
  let* stats := get (ss_metric s index epoch) in
  if valid stats then
    let* sk := sk in
    let '(out, stats) := send_socket_stats t sk stats in
    let* s := get (ss_set_metric s index epoch stats) in
    Ok (s, out)
  else Ok (s, []).

(** The loop of [handle_close_socket] over the epochs. *)
Fixpoint send_epochs (t sk : Z) (s : S) (index : Z) (epochs : list Z) : result (S * list message) :=
  match epochs with
  | [] => Ok (s, [])
  | epoch :: epochs =>
      let* e := get (ss_lookup_relative s index epoch) in
      let* (s, out) := send_if_valid t (Ok sk) s index e in
      let* (s, rest) := send_epochs t sk s index epochs in
      Ok (s, out ++ rest)
  end.

(** [handle_close_socket] up to the calls to the other handlers; the result says
    whether the socket was known. *)
Definition handle_close_socket (p : Tcp) (t sk : Z) : result (Tcp * list message * bool) :=
  let* pos := get (tb_find (tcp_socket_table_ p) sk) in
  match pos with
  | None => Ok (p, [], false)
  | Some (index, _) =>
      let* (s, out) := send_epochs t sk (tcp_socket_stats_ p) index (seqZ 0 n_epochs) in
      let* (h, success) := get (tb_erase (tcp_socket_table_ p) sk) in
      if negb success then Throw not_in_table
      else Ok (mk_tcp h s (tcp_index_to_sk_ p) (tcp_socket_table_ever_full_ p), out ++ [close_sock_info t sk], true)
  end.

(** The statistics of a slot after a message with the counters [now], where
    [entry] are the last ones seen. *)
Definition accumulate (entry : tcp_socket_entry) (msg : rtt_estimator) (stats : tcp_statistics) : tcp_statistics :=
  let now := r_counters msg in
  let d_bytes_acked := clamp64 (u64 (bytes_acked now - bytes_acked entry)) in
  let d_delivered := clamp32 (u32 (packets_delivered now - packets_delivered entry)) in
  let d_retrans := clamp32 (u32 (packets_retrans now - packets_retrans entry)) in
  let d_bytes_received := clamp64 (u64 (bytes_received now - bytes_received entry)) in
  let d_rcv_holes := clamp32 (u32 (rcv_holes now - rcv_holes entry)) in
  let d_rcv_delivered := clamp32 (u32 (rcv_delivered now - rcv_delivered entry)) in
  if negb (valid stats)
  then mk_stats d_bytes_acked d_delivered d_retrans (srtt msg) d_rcv_holes d_bytes_received d_rcv_delivered
         (rcv_rtt msg) true
  else mk_stats (u64 (diff_bytes_acked stats + d_bytes_acked)) (u32 (diff_delivered stats + d_delivered))
         (u32 (diff_retrans stats + d_retrans)) (Z.max (max_srtt stats) (srtt msg))
         (u32 (diff_rcv_holes stats + d_rcv_holes)) (u64 (diff_bytes_received stats + d_bytes_received))
         (u32 (diff_rcv_delivered stats + d_rcv_delivered)) (Z.max (max_rcv_rtt stats) (rcv_rtt msg)) true.

Definition handle_rtt_estimator (p : Tcp) (t : Z) (msg : rtt_estimator) : result Tcp :=
  let* pos := get (tb_find (tcp_socket_table_ p) (r_sk msg)) in
  match pos with
  | None => Ok p
  | Some (index, entry) =>
      let* h := get (tb_set (tcp_socket_table_ p) (r_sk msg) (r_counters msg)) in
      let* (s, epoch) := get (ss_lookup (tcp_socket_stats_ p) index t) in
      let* stats := get (ss_metric s index epoch) in
      let* s := get (ss_set_metric s index epoch (accumulate entry msg stats)) in
      Ok (mk_tcp h s (tcp_index_to_sk_ p) (tcp_socket_table_ever_full_ p))
  end.

(** The loop of [send_stats_from_queue] that empties the current queue. *)
Fixpoint flush_queue (fuel : nat) (t : Z) (sks : list Z) (s : S) : result (S * list message) :=
  let* empty := get (ss_queue_empty s) in
  if (empty : bool) then Ok (s, [])
  else
    match fuel with
    | O => NoFuel
    | Datatypes.S fuel =>
        let* index := get (ss_queue_peek s) in
        let* e := get (ss_lookup_relative s index 0) in
        let* (s, out) := send_if_valid t (get (rd sks index)) s index e in
        let* s := get (ss_queue_pop s) in
        let* (s, rest) := flush_queue fuel t sks s in
        Ok (s, out ++ rest)
    end.

(** The fuel is the number of slots: a slot is queued at most once. *)
Definition send_stats_from_queue (p : Tcp) (t : Z) : result (Tcp * list message) :=
  let '(s, relative) := ss_relative_timeslot (tcp_socket_stats_ p) t in
  if relative =? 0 then Ok (set_stats p s, [])
  else
    let* (s, out) := flush_queue (length (tcp_index_to_sk_ p)) t (tcp_index_to_sk_ p) s in
    Ok (set_stats p (ss_advance s), out).

(** * Histories *)

Inductive event :=
  | New (t pid sk : Z)
  | Reset (t : Z) (msg : reset_tcp_counters)
  | Rtt (t : Z) (msg : rtt_estimator)
  | Close (t sk : Z)
  | Tick (t : Z).

Definition tcp_step (p : Tcp) (ev : event) : result (Tcp * list message) :=
  match ev with
  | New t pid sk => handle_new_socket p t pid sk
  | Reset t msg => handle_reset_tcp_counters p t msg
  | Rtt t msg => let* p := handle_rtt_estimator p t msg in Ok (p, [])
  | Close t sk => let* (p, out, _) := handle_close_socket p t sk in Ok (p, out)
  | Tick t => send_stats_from_queue p t
  end.

Fixpoint tcp_run (p : Tcp) (evs : list event) : result (Tcp * list message) :=
  match evs with
  | [] => Ok (p, [])
  | ev :: evs =>
      let* (p, out) := tcp_step p ev in
      let* (p, rest) := tcp_run p evs in
      Ok (p, out ++ rest)
  end.

(** * What is counted

    The counters whose differences the server sums up: bytes and retransmissions
    of a socket's sending side, bytes and holes of its receiving side. *)
Inductive counter := Acked | Retrans | Received | Holes.

Definition width (c : counter) : Z := match c with Acked | Received => 64 | Retrans | Holes => 32 end.

Definition of_entry (c : counter) (e : tcp_socket_entry) : Z :=
  match c with Acked => bytes_acked e | Retrans => packets_retrans e | Received => bytes_received e | Holes => rcv_holes e end.
Definition of_stats (c : counter) (s : tcp_statistics) : Z :=
  match c with
  | Acked => diff_bytes_acked s | Retrans => diff_retrans s
  | Received => diff_bytes_received s | Holes => diff_rcv_holes s
  end.

(** What a message reports of the counter of a socket. *)
Definition of_message (c : counter) (sk : Z) (m : message) : Z :=
  match m with
  | socket_stats _ sk' bytes _ retrans _ is_rx =>
      if negb (sk' =? sk) then 0
      else match c with
           | Acked => if is_rx =? 0 then bytes else 0
           | Retrans => if is_rx =? 0 then retrans else 0
           | Received => if is_rx =? 0 then 0 else bytes
           | Holes => if is_rx =? 0 then 0 else retrans
           end
  | _ => 0
  end.

Fixpoint reported (c : counter) (sk : Z) (out : list message) : Z :=
  match out with [] => 0 | m :: out => of_message c sk m + reported c sk out end.

Definition pending_stats (c : counter) (s : tcp_statistics) : Z := if valid s then of_stats c s else 0.

(** What is accumulated for a socket and not reported yet. *)
Definition pending (c : counter) (sk : Z) (p : Tcp) : Z :=
  match tb_find (tcp_socket_table_ p) sk with
  | Some (Some (index, _)) =>
      foldr Z.add 0 ((fun e => default 0 (pending_stats c <$> ss_metric (tcp_socket_stats_ p) index e)) <$> seqZ 0 n_epochs)
  | _ => 0
  end.

(** The growth of a counter between two readings, as the handlers see it: none if
    the difference is negative as a signed number. *)
Definition growth (c : counter) (before now : Z) : Z :=
  let d := (now - before) mod 2 ^ width c in
  if d <? 2 ^ (width c - 1) then d else 0.

(** The reference: the open sockets with their last counters, bounded by the
    capacity of the table. *)
Definition ref_open (cap : Z) (open : gmap Z tcp_socket_entry) (sk : Z) (e : tcp_socket_entry)
    : gmap Z tcp_socket_entry :=
  if decide (Z.of_nat (size open) = cap \/ is_Some (open !! sk)) then open else <[sk := e]> open.

Definition ref_step (cap : Z) (open : gmap Z tcp_socket_entry) (ev : event) : gmap Z tcp_socket_entry :=
  match ev with
  | New _ _ sk => ref_open cap open sk no_entry
  | Reset _ m =>
      ref_open cap open (c_sk m)
        (mk_entry (c_bytes_acked m) (c_packets_delivered m) (c_packets_retrans m) (c_bytes_received m) 0 0)
  | Rtt _ m => match open !! r_sk m with Some _ => <[r_sk m := r_counters m]> open | None => open end
  | Close _ sk => delete sk open
  | Tick _ => open
  end.

Definition ref_run (cap : Z) (open : gmap Z tcp_socket_entry) (evs : list event) : gmap Z tcp_socket_entry :=
  foldl (ref_step cap) open evs.

Definition gain (c : counter) (sk : Z) (open : gmap Z tcp_socket_entry) (ev : event) : Z :=
  match ev with
  | Rtt _ m =>
      if r_sk m =? sk
      then match open !! sk with Some e => growth c (of_entry c e) (of_entry c (r_counters m)) | None => 0 end
      else 0
  | _ => 0
  end.

Fixpoint observed (cap : Z) (c : counter) (sk : Z) (open : gmap Z tcp_socket_entry) (evs : list event) : Z :=
  match evs with
  | [] => 0
  | ev :: evs => gain c sk open ev + observed cap c sk (ref_step cap open ev) evs
  end.
End handlers.
Arguments Tcp H S : clear implicits.

(** * Lemmas *)

Lemma reported_app (c : counter) (sk : Z) (out out' : list message) :
  reported c sk (out ++ out') = reported c sk out + reported c sk out'.
Proof. induction out as [|m out IH]; cbn; [done|]. rewrite IH. lia. Qed.

Lemma clamp64_growth (a b : Z) :
  clamp64 (u64 (b - a)) = let d := (b - a) mod 2 ^ 64 in if d <? 2 ^ 63 then d else 0.
Proof.
  unfold clamp64, s64, u64. pose proof (Z.mod_pos_bound (b - a) (2 ^ 64)). cbv zeta.
  set (d := (b - a) mod 2 ^ 64) in *. destruct (Z.ltb_spec d (2 ^ 63)).
  - rewrite Z.mod_small by lia. destruct (Z.ltb_spec (d + 2 ^ 63 - 2 ^ 63) 0); lia.
  - replace (d + 2 ^ 63) with (d - 2 ^ 63 + 1 * 2 ^ 64) by lia. rewrite Z.mod_add, Z.mod_small by lia.
    destruct (Z.ltb_spec (d - 2 ^ 63 - 2 ^ 63) 0); lia.
Qed.

Lemma clamp32_growth (a b : Z) :
  clamp32 (u32 (b - a)) = let d := (b - a) mod 2 ^ 32 in if d <? 2 ^ 31 then d else 0.
Proof.
  unfold clamp32, s32, u32. pose proof (Z.mod_pos_bound (b - a) (2 ^ 32)). cbv zeta.
  set (d := (b - a) mod 2 ^ 32) in *. destruct (Z.ltb_spec d (2 ^ 31)).
  - rewrite Z.mod_small by lia. destruct (Z.ltb_spec (d + 2 ^ 31 - 2 ^ 31) 0); lia.
  - replace (d + 2 ^ 31) with (d - 2 ^ 31 + 1 * 2 ^ 32) by lia. rewrite Z.mod_add, Z.mod_small by lia.
    destruct (Z.ltb_spec (d - 2 ^ 31 - 2 ^ 31) 0); lia.
Qed.

Lemma growth_nonneg (c : counter) (a b : Z) : 0 <= growth c a b.
Proof.
  unfold growth. pose proof (Z.mod_pos_bound (b - a) (2 ^ width c)). cbv zeta.
  destruct (Z.ltb_spec ((b - a) mod 2 ^ width c) (2 ^ (width c - 1))); [|lia].
  apply H. destruct c; cbn; lia.
Qed.

(** Statistics after they have been sent. *)
Definition invalidate (s : tcp_statistics) : tcp_statistics := (send_socket_stats 0 0 s).2.

Lemma invalidate_invalid (s : tcp_statistics) : valid s = false -> invalidate s = s.
Proof. destruct s. cbn. by intros ->. Qed.

Lemma pending_invalidate (c : counter) (s : tcp_statistics) : pending_stats c (invalidate s) = 0.
Proof. done. Qed.

Definition stats_ok (s : tcp_statistics) : Prop := forall c, 0 <= of_stats c s.

Lemma send_socket_stats_reported (c : counter) (t sk sk' : Z) (s : tcp_statistics) :
  stats_ok s -> reported c sk' (send_socket_stats t sk s).1 = if decide (sk = sk') then of_stats c s else 0.
Proof.
  intros Hs. unfold send_socket_stats. cbn [fst]. rewrite reported_app.
  pose proof (Hs Acked). pose proof (Hs Retrans). pose proof (Hs Received). pose proof (Hs Holes). cbn in *.
  destruct (Z.ltb_spec 0 (diff_bytes_acked s)), (Z.ltb_spec 0 (diff_retrans s)),
    (Z.ltb_spec 0 (diff_bytes_received s)), (Z.ltb_spec 0 (diff_rcv_holes s)); cbn [orb reported of_message];
    destruct (Z.eqb_spec sk sk'), (decide (sk = sk')); try done; destruct c; cbn; lia.
Qed.

(** A sum over distinct indices with one term that counts. *)
Lemma sum_single (f : Z -> Z) (ks : list Z) (i : Z) :
  NoDup ks -> (forall k, k ∈ ks -> k <> i -> f k = 0) ->
  foldr (fun k a => f k + a) 0 ks = if decide (i ∈ ks) then f i else 0.
Proof.
  induction 1 as [|k ks Hk _ IH]; intros Hf; cbn [foldr]; [by rewrite decide_False by apply not_elem_of_nil|].
  rewrite IH by (intros j Hj; apply Hf; by right). destruct (decide (k = i)) as [->|Hne].
  - rewrite decide_False by done. rewrite decide_True by left. lia.
  - rewrite (Hf k) by (done || left). case_decide as Hi.
    + rewrite decide_True by (by right). lia.
    + rewrite decide_False; [lia|]. intros [->|?]%elem_of_cons; done.
Qed.

(** ** A session *)

Definition is_close (sk : Z) (ev : event) : bool := match ev with Close _ sk' => sk' =? sk | _ => false end.

(** The readings of a counter that a history has for a socket. *)
Definition readings (c : counter) (sk : Z) (evs : list event) : list Z :=
  evs ≫= fun ev => match ev with Rtt _ m => if r_sk m =? sk then [of_entry c (r_counters m)] else [] | _ => [] end.

(** Readings that do not decrease, and by less than half of the range at a time. *)
Fixpoint increasing (c : counter) (from : Z) (rs : list Z) : Prop :=
  match rs with [] => True | r :: rs => 0 <= r - from < 2 ^ (width c - 1) /\ increasing c r rs end.

Lemma growth_increasing (c : counter) (a b : Z) : 0 <= b - a < 2 ^ (width c - 1) -> growth c a b = b - a.
Proof.
  intros Hb. unfold growth. assert (Hw : 2 ^ (width c - 1) < 2 ^ width c) by (by destruct c).
  rewrite Z.mod_small by lia. cbv zeta. destruct (Z.ltb_spec (b - a) (2 ^ (width c - 1))); lia.
Qed.

Lemma ref_step_open (cap sk : Z) (open : gmap Z tcp_socket_entry) (e : tcp_socket_entry) (ev : event) :
  open !! sk = Some e -> is_close sk ev = false ->
  ref_step cap open ev !! sk =
    Some match ev with Rtt _ m => if r_sk m =? sk then r_counters m else e | _ => e end.
Proof.
  intros Ho Hc. assert (Hopen : forall sk' x, ref_open cap open sk' x !! sk = Some e).
  { intros sk' x. unfold ref_open. case_decide as Hd; [done|]. rewrite lookup_insert_ne; [done|]. intros ->.
    apply Hd. right. by eexists. }
  destruct ev as [t pid sk'|t m|t m|t sk'|t]; cbn; [apply Hopen|apply Hopen| |..|done].
  - destruct (Z.eqb_spec (r_sk m) sk) as [<-|Hne].
    + rewrite Ho. by rewrite lookup_insert_eq.
    + destruct (open !! r_sk m); [by rewrite lookup_insert_ne|done].
  - cbn in Hc. rewrite lookup_delete_ne; [done|]. intros ->. by rewrite Z.eqb_refl in Hc.
Qed.

Lemma observed_increasing (cap : Z) (c : counter) (sk : Z) (evs : list event) (open : gmap Z tcp_socket_entry)
    (e : tcp_socket_entry) :
  open !! sk = Some e -> Forall (fun ev => is_close sk ev = false) evs ->
  increasing c (of_entry c e) (readings c sk evs) ->
  observed cap c sk open evs = default (of_entry c e) (last (readings c sk evs)) - of_entry c e.
Proof.
  revert open e. induction evs as [|ev evs IH]; intros open e Ho Hc Hinc; [cbn; lia|].
  apply Forall_cons in Hc as [Hev Hc]. cbn [observed]. pose proof (ref_step_open cap sk open e ev Ho Hev) as Ho'.
  destruct (match ev with Rtt _ m => r_sk m =? sk | _ => false end) eqn:Hmine.
  - destruct ev as [| |t m| |]; try done. rewrite Hmine in Ho'. apply Z.eqb_eq in Hmine as Hm.
    unfold readings in *. cbn [mbind list_bind] in *. rewrite Hmine in *. cbn [app] in *.
    destruct Hinc as [Hr Hinc]. rewrite (IH _ _ Ho' Hc Hinc). cbn [gain]. rewrite Hmine, Ho.
    rewrite growth_increasing by done. fold (readings c sk evs) in *.
    rewrite last_cons. destruct (last (readings c sk evs)); cbn; lia.
  - assert (Hrd : readings c sk (ev :: evs) = readings c sk evs).
    { unfold readings. cbn. destruct ev; try done. by rewrite Hmine. }
    assert (Hg : gain c sk open ev = 0) by (destruct ev; try done; cbn; by rewrite Hmine).
    rewrite Hrd in *. rewrite Hg. erewrite IH; [|destruct ev; try exact Ho'; rewrite Hmine in Ho'; exact Ho'|done|done]. lia.
Qed.

Section laws.
Context {H S : Type} `{SocketTableLaws tcp_socket_entry H} `{StatStoreLaws tcp_statistics S}.
#[local] Abbreviation epochs := (ss_epochs (Metric := tcp_statistics) (S := S)).
#[local] Abbreviation slots := (ss_size (Metric := tcp_statistics) (S := S)).
#[local] Abbreviation capacity := (tb_size (T := tcp_socket_entry) (H := H)).
(** Both containers are declared with the same number of slots, the store with two
    epochs. *)
Context (Hepochs : epochs = n_epochs) (Hslots : slots = capacity).

Implicit Types (C : gmap Z (Z * tcp_socket_entry)) (M : Z -> Z -> tcp_statistics) (Q : Z -> list Z).

(** ** Sending *)

Lemma send_if_valid_spec (s : S) M Q cur (t k e : Z) (skr : result Z) (sk : Z) :
  ss_holds s M Q cur -> 0 <= k < slots -> 0 <= e < n_epochs -> stats_ok (M k e) ->
  (valid (M k e) = true -> skr = Ok sk) ->
  exists s' M' out, send_if_valid t skr s k e = Ok (s', out) /\ ss_holds s' M' Q cur /\
    (forall j f, M' j f = upd2 M k e (invalidate (M k e)) j f) /\
    forall c sk', reported c sk' out = if decide (sk = sk') then pending_stats c (M k e) else 0.
Proof.
  intros Hs Hk He Hok Hsk. unfold send_if_valid. rewrite (ss_metric_spec s M Q cur k e) by (done || lia). cbn [rbind get].
  unfold pending_stats. destruct (valid (M k e)) eqn:Hv.
  - rewrite (Hsk eq_refl). cbn [rbind].
    destruct (ss_set_metric_spec s M Q cur k e (invalidate (M k e)) Hs Hk) as (s' & E & Hs'); [lia|].
    change (ss_set_metric s k e (send_socket_stats t sk (M k e)).2 = Some s') in E.
    destruct (send_socket_stats t sk (M k e)) as [out st] eqn:Hsend. cbn [snd] in E. rewrite E. cbn.
    eexists s', _, out. split; [done|]. split; [done|]. split; [done|]. intros c sk'.
    pose proof (send_socket_stats_reported c t sk sk' (M k e) Hok) as Hr. by rewrite Hsend in Hr.
  - eexists s, M, []. split; [done|]. split; [done|]. split.
    + intros j f. unfold upd2. case_decide as Hd; [|done]. destruct Hd as [<- <-]. by rewrite invalidate_invalid.
    + intros c sk'. by case_decide.
Qed.

(** The loop over the two epochs, whichever of them is the current one. *)
Lemma send_epochs_spec (s : S) M Q cur (t sk k : Z) :
  ss_holds s M Q cur -> 0 <= k < slots -> (forall e, 0 <= e < n_epochs -> stats_ok (M k e)) ->
  exists s' M' out, send_epochs t sk s k (seqZ 0 n_epochs) = Ok (s', out) /\ ss_holds s' M' Q cur /\
    (forall j f, 0 <= f < n_epochs -> M' j f = if decide (k = j) then invalidate (M j f) else M j f) /\
    forall c sk', reported c sk' out =
      if decide (sk = sk') then pending_stats c (M k 0) + pending_stats c (M k 1) else 0.
Proof.
  intros Hs Hk Hok. pose proof (ss_cur _ _ _ _ Hs) as Hcur. rewrite Hepochs in Hcur.
  change (seqZ 0 n_epochs) with [0; 1]. cbn [send_epochs].
  rewrite (ss_lookup_relative_spec s M Q cur k 0), Hepochs by (done || (unfold n_epochs in *; lia)). cbn [get rbind].
  assert (He : forall b, 0 <= (b + cur) mod n_epochs < n_epochs) by (intros; apply Z.mod_pos_bound; done).
  destruct (send_if_valid_spec s M Q cur t k ((0 + cur) mod n_epochs) (Ok sk) sk Hs Hk (He 0) (Hok _ (He 0)))
    as (s1 & M1 & out1 & -> & Hs1 & HM1 & Hr1); [done|]. cbn [rbind].
  rewrite (ss_lookup_relative_spec s1 M1 Q cur k 1), Hepochs by (done || (unfold n_epochs in *; lia)). cbn [get rbind].
  assert (Hne : (0 + cur) mod n_epochs <> (1 + cur) mod n_epochs) by (apply mod_neq; unfold n_epochs; lia).
  assert (Hsame : M1 k ((1 + cur) mod n_epochs) = M k ((1 + cur) mod n_epochs)).
  { rewrite HM1. unfold upd2. rewrite decide_False; [done|]. intros [_ ?]. done. }
  destruct (send_if_valid_spec s1 M1 Q cur t k ((1 + cur) mod n_epochs) (Ok sk) sk Hs1 Hk (He 1)) 
    as (s2 & M2 & out2 & -> & Hs2 & HM2 & Hr2); [rewrite Hsame; by apply Hok|done|]. cbn [rbind].
  eexists s2, M2, _. split; [done|]. split; [done|].
  assert (Hcase : cur = 0 \/ cur = 1) by (unfold n_epochs in *; lia). split.
  - intros j f Hf. rewrite HM2, Hsame. unfold upd2. rewrite HM1. unfold upd2.
    destruct (decide (k = j)) as [<-|Hj].
    + assert (Hf' : f = 0 \/ f = 1) by (unfold n_epochs in *; lia).
      destruct Hcase as [-> | ->], Hf' as [-> | ->];
        repeat (case_decide as Hd; [try (by destruct Hd as [_ Hd])|try (by destruct Hd)]; clear Hd); done.
    + rewrite !decide_False by tauto. done.
  - intros c sk'. rewrite app_nil_r, reported_app, Hr1, Hr2, Hsame. case_decide; [|done].
    destruct Hcase as [-> | ->]; unfold n_epochs; change ((0 + 0) mod 2) with 0; change ((1 + 0) mod 2) with 1;
      change ((0 + 1) mod 2) with 1; change ((1 + 1) mod 2) with 0; lia.
Qed.

(** The loop that empties the current queue sends every statistic in it. *)
Lemma flush_queue_spec (ks : list Z) (fuel : nat) (s : S) M Q cur (t : Z) (sks : list Z) :
  ss_holds s M Q cur -> Q cur = ks -> (length ks <= fuel)%nat -> zlen sks = slots ->
  (forall k, 0 <= k < slots -> stats_ok (M k cur)) ->
  exists s' M' Q' out, flush_queue fuel t sks s = Ok (s', out) /\ ss_holds s' M' Q' cur /\
    Q' cur = [] /\ (forall e, e <> cur -> Q' e = Q e) /\
    (forall j f, M' j f = if decide (f = cur /\ j ∈ ks) then invalidate (M j f) else M j f) /\
    forall c sk, reported c sk out =
      foldr (fun k a => (if decide (rd sks k = Some sk) then pending_stats c (M k cur) else 0) + a) 0 ks.
Proof.
  revert fuel s M Q. induction ks as [|k ks IH]; intros fuel s M Q Hs Hq Hfuel Hlen Hok.
  { exists s, M, Q, []. unfold flush_queue. destruct fuel; rewrite (ss_empty_spec s M Q cur Hs), bool_decide_true by done;
      cbn; (split; [done|]; split; [done|]; split; [done|]; split; [done|]; split; [|done]); intros j f;
      rewrite decide_False; [done| |done|]; intros [_ ?%elem_of_nil]; done. }
  destruct fuel as [|fuel]; [cbn in Hfuel; lia|]. cbn [flush_queue].
  rewrite (ss_empty_spec s M Q cur Hs), bool_decide_false by (by rewrite Hq). cbn [get rbind].
  pose proof (ss_cur _ _ _ _ Hs) as Hcur. destruct (ss_queued s M Q cur cur Hs Hcur) as [Hnd Hr].
  rewrite Hq in Hnd, Hr. apply NoDup_cons in Hnd as [Hnk Hnd]. apply Forall_cons in Hr as [Hk _].
  rewrite (proj1 (ss_pop_spec s M Q cur k ks Hs Hq)). cbn [get rbind].
  rewrite (ss_lookup_relative_spec s M Q cur k 0 Hs Hk) by lia. rewrite Z.add_0_l, Z.mod_small by lia. cbn [get rbind].
  destruct (rd_is_Some sks k) as [sk Hsk]; [by rewrite Hlen|]. rewrite Hsk. cbn [get].
  destruct (send_if_valid_spec s M Q cur t k cur (Ok sk) sk Hs Hk) as (s1 & M1 & out1 & -> & Hs1 & HM1 & Hr1);
    [by rewrite <- Hepochs|by apply Hok|done|]. cbn [rbind].
  destruct (ss_pop_spec s1 M1 Q cur k ks Hs1 Hq) as (_ & s2 & -> & Hs2). cbn [get rbind].
  assert (Hother : forall j, j <> k -> M1 j cur = M j cur).
  { intros j Hj. rewrite HM1. unfold upd2. rewrite decide_False; [done|]. intros [-> _]. done. }
  destruct (IH fuel s2 M1 (upd1 Q cur ks) Hs2) as (s3 & M3 & Q3 & out3 & -> & Hs3 & Hq3 & Hqe & HM3 & Hr3);
    [by unfold upd1; rewrite decide_True|cbn in Hfuel; lia|done| |].
  { intros j Hj. destruct (decide (j = k)) as [->|Hne]; [|rewrite Hother by done; by apply Hok].
    rewrite HM1. unfold upd2. rewrite decide_True by done. intros c. exact (Hok k Hj c). }
  cbn [rbind]. eexists s3, M3, Q3, _. split; [done|]. split; [done|]. split; [done|]. split; [|split].
  - intros e He. rewrite Hqe by done. unfold upd1. by rewrite decide_False.
  - intros j f. rewrite HM3, HM1. unfold upd2. destruct (decide (f = cur /\ j ∈ ks)) as [[-> Hj]|Hn].
    + rewrite decide_False by (intros [-> _]; done). rewrite decide_True; [done|]. split; [done|]. by right.
    + destruct (decide (k = j /\ cur = f)) as [[<- <-]|Hn2].
      * rewrite decide_True; [done|]. split; [done|left].
      * rewrite decide_False; [done|]. intros [-> [->|Hj]%elem_of_cons]; [by apply Hn2|by apply Hn].
  - intros c sk'. rewrite reported_app, Hr1, Hr3. cbn [foldr]. f_equal.
    + rewrite Hsk. destruct (decide (sk = sk')), (decide (Some sk = Some sk')); congruence.
    + clear -Hother Hnk. induction ks as [|j ks IH]; [done|]. cbn [foldr]. rewrite IH.
      * rewrite Hother; [done|]. intros ->. apply Hnk. left.
      * intros ?. apply Hnk. by right.
Qed.

(** ** Invariant *)

Record tcp_rep (p : Tcp H S) C M Q (cur : Z) : Prop := {
  tr_table : tb_holds (tcp_socket_table_ p) C;
  tr_stats : ss_holds (tcp_socket_stats_ p) M Q cur;
  tr_len : zlen (tcp_index_to_sk_ p) = capacity;
  tr_sk : forall sk i e, C !! sk = Some (i, e) -> rd (tcp_index_to_sk_ p) i = Some sk;
  tr_valid : forall i e, 0 <= i < slots -> 0 <= e < n_epochs -> valid (M i e) = true ->
    i ∈ Q e /\ exists sk x, C !! sk = Some (i, x);
  tr_range : forall i e, 0 <= i < slots -> 0 <= e < n_epochs -> stats_ok (M i e);
}.

Definition pend C M (c : counter) (sk : Z) : Z :=
  match C !! sk with Some (i, _) => pending_stats c (M i 0) + pending_stats c (M i 1) | None => 0 end.

Lemma slot_in (h : H) C (sk i : Z) (e : tcp_socket_entry) :
  tb_holds h C -> C !! sk = Some (i, e) -> 0 <= i < slots.
Proof. intros Hh Hsk. rewrite Hslots. by apply (tb_slot h C sk i e). Qed.

Lemma pending_eq (p : Tcp H S) C M Q cur (c : counter) (sk : Z) :
  tcp_rep p C M Q cur -> pending c sk p = pend C M c sk.
Proof.
  intros Hr. unfold pending, pend. rewrite (tb_find_spec _ C sk (tr_table _ _ _ _ _ Hr)).
  destruct (C !! sk) as [[i e]|] eqn:Hsk; [|done]. change (seqZ 0 n_epochs) with [0; 1]. cbn [fmap list_fmap foldr].
  pose proof (slot_in _ _ _ _ _ (tr_table _ _ _ _ _ Hr) Hsk).
  rewrite !(ss_metric_spec _ M Q cur i) by (apply Hr || done || (rewrite Hepochs; done)). cbn. lia.
Qed.

(** A step, seen from outside: what is reported and what becomes pending is what
    was pending and what is gained. *)
Definition conserves C M C' M' (out : list message) (ev : event) : Prop :=
  snd <$> C' = ref_step capacity (snd <$> C) ev /\
  forall c sk, (reported c sk out + pend C' M' c sk) mod 2 ^ width c
             = (pend C M c sk + gain c sk (snd <$> C) ev) mod 2 ^ width c.

(** ** New sockets *)

Lemma size_snd C : size (snd <$> C) = size C.
Proof. apply map_size_fmap. Qed.

Lemma ref_open_snd C (sk i : Z) (e : tcp_socket_entry) :
  Z.of_nat (size C) <> capacity -> C !! sk = None ->
  snd <$> <[sk := (i, e)]> C = ref_open capacity (snd <$> C) sk e.
Proof.
  intros Hn Hsk. unfold ref_open. rewrite decide_False.
  - by rewrite fmap_insert.
  - rewrite size_snd, lookup_fmap, Hsk. intros [?|[? ?]]; done.
Qed.

Lemma ref_open_refused C (sk : Z) (e : tcp_socket_entry) :
  Z.of_nat (size C) = capacity \/ is_Some (C !! sk) -> ref_open capacity (snd <$> C) sk e = snd <$> C.
Proof.
  intros Hor. unfold ref_open. rewrite decide_True; [done|]. rewrite size_snd, lookup_fmap, fmap_is_Some. done.
Qed.

Lemma add_socket_spec (p : Tcp H S) C M Q cur (sk : Z) :
  tcp_rep p C M Q cur ->
  exists p' added C', add_socket p sk = Ok (p', added) /\ tcp_rep p' C' M Q cur /\
    tcp_socket_stats_ p' = tcp_socket_stats_ p /\
    if added
    then C !! sk = None /\ Z.of_nat (size C) <> capacity /\
      exists i, C' = <[sk := (i, no_entry)]> C /\ 0 <= i < slots /\ forall k y, C !! k <> Some (i, y)
    else C' = C /\ (Z.of_nat (size C) = capacity \/ is_Some (C !! sk)).
Proof.
  intros Hr. destruct Hr as [Ht Hst Hl Hsk Hv Hrg]. unfold add_socket. rewrite (tb_full_spec _ C Ht).
  case_bool_decide as Hfull.
  { eexists _, false, C. split; [done|]. split; [by constructor|]. split; [done|]. split; [done|]. by left. }
  destruct (C !! sk) as [v|] eqn:Hold.
  { rewrite (tb_insert_old _ C sk no_entry Ht) by eauto. cbn [get rbind].
    eexists _, false, C. split; [done|]. split; [by constructor|]. split; [done|]. split; [done|]. right. eauto. }
  destruct (tb_insert_new _ C sk no_entry Ht Hfull Hold) as (h' & i & -> & Hi & Hfree & Ht'). cbn [get rbind].
  rewrite wr_in_range by lia. cbn [get rbind].
  eexists _, true, _. split; [done|]. split; [|split; [done|]; split; [done|]; split; [done|]; exists i; split; [done|];
    split; [lia|done]].
  constructor; cbn; [done|done|by rewrite zlen_insert| |..|done].
  - intros k j e. assert (Hw : wr (tcp_index_to_sk_ p) i sk = Some (<[Z.to_nat i := sk]> (tcp_index_to_sk_ p)))
      by (apply wr_in_range; lia). rewrite (rd_wr _ _ i j sk Hw).
    intros [[-> [= -> _]]|[Hne Hk]]%lookup_insert_Some; [by rewrite decide_True|].
    rewrite decide_False; [by eapply Hsk|]. intros ->. by eapply Hfree.
  - intros j e Hj He Hval. destruct (Hv j e Hj He Hval) as (Hq & k & x & Hk). split; [done|].
    exists k, x. rewrite lookup_insert_ne; [done|]. congruence.
Qed.

(** Nothing is pending for the slot of a new socket. *)
Lemma pend_new (p : Tcp H S) C M Q cur (sk i : Z) (e : tcp_socket_entry) (c : counter) (sk' : Z) :
  tcp_rep p C M Q cur -> C !! sk = None -> 0 <= i < slots -> (forall k y, C !! k <> Some (i, y)) ->
  pend (<[sk := (i, e)]> C) M c sk' = pend C M c sk'.
Proof.
  intros Hr Hnone Hi Hfree. unfold pend. destruct (decide (sk = sk')) as [<-|Hne].
  - rewrite lookup_insert_eq, Hnone.
    assert (Hz : forall f, 0 <= f < n_epochs -> pending_stats c (M i f) = 0).
    { intros f Hf. unfold pending_stats. destruct (valid (M i f)) eqn:Hval; [|done].
      destruct (tr_valid _ _ _ _ _ Hr i f Hi Hf Hval) as (_ & k & x & Hk). by apply Hfree in Hk. }
    rewrite !Hz by done. done.
  - by rewrite lookup_insert_ne.
Qed.

Lemma new_conserves (p : Tcp H S) C M Q cur (t pid sk : Z) :
  tcp_rep p C M Q cur ->
  exists p' out C', tcp_step p (New t pid sk) = Ok (p', out) /\ tcp_rep p' C' M Q cur /\
    conserves C M C' M out (New t pid sk).
Proof.
  intros Hr. cbn [tcp_step]. unfold handle_new_socket.
  destruct (add_socket_spec p C M Q cur sk Hr) as (p' & added & C' & -> & Hr' & _ & Hadd). cbn [rbind].
  eexists p', _, C'. split; [done|]. split; [done|]. destruct added.
  - destruct Hadd as (Hnone & Hn & i & -> & Hi & Hfree). split; [by apply ref_open_snd|]. intros c sk'.
    rewrite (pend_new p C M Q cur) by done. cbn. f_equal. lia.
  - destruct Hadd as [-> Hor]. split; [by rewrite <- (ref_open_refused C sk no_entry Hor) at 1|].
    intros c sk'. cbn. f_equal. lia.
Qed.

Lemma reset_conserves (p : Tcp H S) C M Q cur (t : Z) (msg : reset_tcp_counters) :
  tcp_rep p C M Q cur ->
  exists p' out C', tcp_step p (Reset t msg) = Ok (p', out) /\ tcp_rep p' C' M Q cur /\
    conserves C M C' M out (Reset t msg).
Proof.
  intros Hr. cbn [tcp_step]. unfold handle_reset_tcp_counters.
  destruct (add_socket_spec p C M Q cur (c_sk msg) Hr) as (p' & added & C' & -> & Hr' & _ & Hadd). cbn [rbind].
  destruct added; cbn [negb].
  - destruct Hadd as (Hnone & Hn & i & -> & Hi & Hfree). destruct Hr' as [Ht Hst Hl Hsk Hv Hrg].
    set (e := mk_entry _ _ _ _ _ _).
    destruct (tb_set_spec _ _ (c_sk msg) i no_entry e Ht) as (h & -> & Ht'); [apply lookup_insert_eq|].
    rewrite insert_insert_eq in Ht'. cbn [get rbind]. eexists _, _, _. split; [done|]. split; [|split].
    + constructor; cbn; [exact Ht'|done|done| | |done].
      * intros k j x Hk. apply lookup_insert_Some in Hk as [[<- [= <- <-]]|[Hne Hk]].
        -- eapply Hsk. apply lookup_insert_eq.
        -- eapply (Hsk k j x). by rewrite lookup_insert_ne.
      * intros j f Hj Hf Hval. destruct (Hv j f Hj Hf Hval) as (Hq & k & x & Hk). split; [done|].
        apply lookup_insert_Some in Hk as [[<- [= <- <-]]|[Hne Hk]].
        -- exists (c_sk msg), e. by rewrite lookup_insert_eq.
        -- exists k, x. by rewrite lookup_insert_ne.
    + by apply ref_open_snd.
    + intros c sk'. rewrite (pend_new p C M Q cur) by done. cbn. f_equal. lia.
  - destruct Hadd as [-> Hor]. eexists p', _, C. split; [done|]. split; [done|].
    split; [cbn [ref_step]; symmetry; by apply ref_open_refused|]. intros c sk'. cbn. f_equal. lia.
Qed.

(** ** Counters *)

Lemma accumulate_spec (entry : tcp_socket_entry) (msg : rtt_estimator) (stats : tcp_statistics) :
  valid (accumulate entry msg stats) = true /\
  (stats_ok stats -> stats_ok (accumulate entry msg stats)) /\
  forall c, pending_stats c (accumulate entry msg stats) mod 2 ^ width c
          = (pending_stats c stats + growth c (of_entry c entry) (of_entry c (r_counters msg))) mod 2 ^ width c.
Proof.
  assert (Hg : forall c a b, 0 <= growth c a b) by apply growth_nonneg.
  unfold accumulate, pending_stats. rewrite !clamp64_growth, !clamp32_growth.
  destruct (valid stats); cbn [negb]; (split; [done|]; split).
  - intros Hs c. destruct c; apply Z.mod_pos_bound; lia.
  - intros c. destruct c; cbn [valid of_stats of_entry]; apply Z.mod_mod; done.
  - intros Hs c. pose proof (Hg c (of_entry c entry) (of_entry c (r_counters msg))). by destruct c.
  - intros c. rewrite Z.add_0_l. by destruct c.
Qed.

Lemma rtt_conserves (p : Tcp H S) C M Q cur (t : Z) (msg : rtt_estimator) :
  tcp_rep p C M Q cur ->
  exists p' C' M' Q', tcp_step p (Rtt t msg) = Ok (p', []) /\ tcp_rep p' C' M' Q' cur /\
    conserves C M C' M' [] (Rtt t msg).
Proof.
  intros Hr. cbn [tcp_step]. unfold handle_rtt_estimator.
  rewrite (tb_find_spec _ C _ (tr_table _ _ _ _ _ Hr)). cbn [get rbind]. unfold conserves. cbn [ref_step gain].
  rewrite lookup_fmap. destruct (C !! r_sk msg) as [[i entry]|] eqn:Hsk; cbn [fmap option_fmap option_map].
  2:{ exists p, C, M, Q. split; [done|]. split; [done|]. split; [done|]. intros c sk. cbn.
      destruct (Z.eqb_spec (r_sk msg) sk) as [<-|]; [rewrite lookup_fmap, Hsk; cbn|]; f_equal; lia. }
  pose proof (slot_in _ _ _ _ _ (tr_table _ _ _ _ _ Hr) Hsk) as Hi. pose proof Hr as [Ht Hst Hl Hsks Hv Hrg].
  destruct (tb_set_spec _ C (r_sk msg) i entry (r_counters msg) Ht Hsk) as (h & -> & Ht'). cbn [get rbind].
  destruct (ss_lookup_enqueues _ M Q cur i t Hst Hi) as (s1 & e & Q1 & -> & He & Hs1 & Hqi & Hqq). cbn [get rbind].
  rewrite (ss_metric_spec s1 M _ cur i e Hs1 Hi He). cbn [get rbind].
  destruct (accumulate_spec entry msg (M i e)) as (Hval & Hok & Hsum).
  destruct (ss_set_metric_spec s1 M _ cur i e (accumulate entry msg (M i e)) Hs1 Hi He) as (s2 & -> & Hs2).
  cbn [get rbind]. rewrite Hepochs in He. eexists _, _, _, _. split; [done|]. split; [|split].
  - constructor; cbn; [exact Ht'|exact Hs2|done|..].
    + intros k j x [[<- [= <- <-]]|[_ Hk]]%lookup_insert_Some; by eapply Hsks.
    + intros j f Hj Hf Hvj.
      assert (Hthere : forall k x, C !! k = Some (j, x) -> exists k' x', <[r_sk msg := (i, r_counters msg)]> C !! k' = Some (j, x')).
      { intros k x Hk. exists k. destruct (decide (r_sk msg = k)) as [<-|Hne].
        - rewrite Hsk in Hk. injection Hk as <- <-. eexists. by rewrite lookup_insert_eq.
        - eexists. by rewrite lookup_insert_ne. }
      unfold upd2 in Hvj. case_decide as Hd.
      * destruct Hd as [<- <-]. split; [done|by eapply Hthere].
      * destruct (Hv j f Hj Hf Hvj) as (Hq & k & x & Hk). split; [by apply Hqq|by eapply Hthere].
    + intros j f Hj Hf. unfold upd2. case_decide as Hd; [|by apply Hrg].
      destruct Hd as [<- <-]. apply Hok. by apply Hrg.
  - by rewrite fmap_insert.
  - intros c sk. cbn [reported]. unfold pend. destruct (Z.eqb_spec (r_sk msg) sk) as [<-|Hne].
    + rewrite lookup_insert_eq, lookup_fmap, Hsk. cbn [fmap option_fmap option_map snd].
      assert (Hee : e = 0 \/ e = 1) by (unfold n_epochs in He; lia). specialize (Hsum c). rewrite Z.add_0_l.
      destruct Hee as [-> | ->]; rewrite upd2_eq, upd2_ne by (by right);
        [rewrite <- Zplus_mod_idemp_l, Hsum, Zplus_mod_idemp_l|rewrite <- Zplus_mod_idemp_r, Hsum, Zplus_mod_idemp_r];
        f_equal; lia.
    + rewrite lookup_insert_ne by done. f_equal. rewrite Z.add_0_l, Z.add_0_r.
      destruct (C !! sk) as [[j x]|] eqn:Hj; [|done].
      assert (Hij : i <> j) by (intros <-; apply Hne; by eapply (tb_inj _ C)).
      by rewrite !upd2_ne by (by left).
Qed.

Lemma close_conserves (p : Tcp H S) C M Q cur (t sk : Z) :
  tcp_rep p C M Q cur ->
  exists p' out C' M', tcp_step p (Close t sk) = Ok (p', out) /\ tcp_rep p' C' M' Q cur /\
    conserves C M C' M' out (Close t sk).
Proof.
  intros Hr. pose proof Hr as [Ht Hst Hl Hsks Hv Hrg]. cbn [tcp_step]. unfold handle_close_socket.
  rewrite (tb_find_spec _ C _ Ht). cbn [get rbind].
  unfold conserves. cbn [ref_step gain]. rewrite <- fmap_delete. destruct (C !! sk) as [[i entry]|] eqn:Hsk.
  2:{ exists p, [], C, M. cbn. split; [done|]. split; [done|]. split; [by rewrite delete_id|]. intros c sk'. f_equal. lia. }
  pose proof (slot_in _ _ _ _ _ Ht Hsk) as Hi.
  destruct (send_epochs_spec _ M Q cur t sk i Hst Hi) as (s' & M' & out & -> & Hs' & HM & Hout); [by intros; apply Hrg|].
  cbn [rbind]. destruct (tb_erase_spec _ C sk _ Ht Hsk) as (h & -> & Ht'). cbn [get rbind negb].
  eexists _, _, _, M'. split; [done|]. split; [|split; [done|]].
  - constructor; cbn; [exact Ht'|exact Hs'|done|..].
    + intros k j x [_ Hk]%lookup_delete_Some. by eapply Hsks.
    + intros j f Hj Hf. rewrite HM by done. case_decide as Hd; [done|]. intros Hval.
      destruct (Hv j f Hj Hf Hval) as (Hq & k & x & Hk). split; [done|]. exists k, x. apply lookup_delete_Some.
      split; [|done]. intros <-. congruence.
    + intros j f Hj Hf. rewrite HM by done. pose proof (Hrg j f Hj Hf) as Hok. by case_decide.
  - intros c sk'. rewrite reported_app, Hout. unfold pend. cbn [reported of_message]. destruct (decide (sk = sk')) as [<-|Hne].
    + rewrite lookup_delete_eq, Hsk. f_equal. lia.
    + rewrite lookup_delete_ne by done. destruct (C !! sk') as [[j x]|] eqn:Hj; [|done].
      assert (Hij : i <> j) by (intros <-; apply Hne; by eapply (tb_inj _ C)).
      rewrite !HM, !decide_False by done. f_equal. lia.
Qed.

(** Of the slots in the queue, only that of a socket has anything to report for it. *)
Lemma flushed_sum (p : Tcp H S) C M Q cur (c : counter) (sk e : Z) :
  tcp_rep p C M Q cur -> 0 <= e < n_epochs ->
  foldr (fun k a => (if decide (rd (tcp_index_to_sk_ p) k = Some sk) then pending_stats c (M k e) else 0) + a) 0 (Q e)
  = match C !! sk with Some (i, _) => pending_stats c (M i e) | None => 0 end.
Proof.
  intros [Ht Hst Hl Hsks Hv Hrg] He. destruct (ss_queued _ M Q cur e Hst) as [Hnd Hrange]; [by rewrite Hepochs|].
  rewrite Forall_forall in Hrange.
  assert (Hz : forall k, k ∈ Q e -> rd (tcp_index_to_sk_ p) k = Some sk -> valid (M k e) = true ->
    exists x, C !! sk = Some (k, x)).
  { intros k Hk Hrd Hval. destruct (Hv k e (Hrange k Hk) He Hval) as (_ & sk' & x & Hsk').
    apply Hsks in Hsk' as Hrd'. exists x. congruence. }
  destruct (C !! sk) as [[i x]|] eqn:Hsk.
  - rewrite (sum_single (fun k => if decide (rd (tcp_index_to_sk_ p) k = Some sk) then pending_stats c (M k e) else 0) _ i Hnd).
    + rewrite (Hsks sk i x Hsk). rewrite (decide_True (P := Some sk = Some sk)) by done. case_decide as Hq; [done|].
      unfold pending_stats. destruct (valid (M i e)) eqn:Hval; [|done].
      pose proof (slot_in _ _ _ _ _ Ht Hsk) as Hi. by destruct (Hv i e Hi He Hval).
    + intros k Hk Hne. case_decide as Hrd; [|done]. unfold pending_stats. destruct (valid (M k e)) eqn:Hval; [|done].
      destruct (Hz k Hk Hrd Hval) as [x' Hx']. congruence.
  - assert (Hall : forall k, k ∈ Q e -> (if decide (rd (tcp_index_to_sk_ p) k = Some sk) then pending_stats c (M k e) else 0) = 0).
    { intros k Hk. case_decide as Hrd; [|done]. unfold pending_stats. destruct (valid (M k e)) eqn:Hval; [|done].
      by destruct (Hz k Hk Hrd Hval). }
    clear -Hall. induction (Q e) as [|k ks IH]; [done|]. cbn [foldr]. rewrite (Hall k) by left.
    rewrite IH; [done|]. intros k' Hk'. apply Hall. by right.
Qed.

Lemma tick_conserves (p : Tcp H S) C M Q cur (t : Z) :
  tcp_rep p C M Q cur ->
  exists p' out M' Q' cur', tcp_step p (Tick t) = Ok (p', out) /\ tcp_rep p' C M' Q' cur' /\
    conserves C M C M' out (Tick t) /\
    ((ss_relative_timeslot (tcp_socket_stats_ p) t).2 <> 0 ->
     cur' = (cur + 1) mod n_epochs /\
     forall i e, 0 <= i < slots -> 0 <= e < n_epochs ->
       valid (M' i e) = true -> e <> cur /\ valid (M i e) = true).
Proof.
  intros Hr. pose proof Hr as [Ht Hst Hl Hsks Hv Hrg]. cbn [tcp_step]. unfold send_stats_from_queue.
  pose proof (ss_relative_timeslot_spec _ _ _ _ t Hst) as Hst1.
  destruct (ss_relative_timeslot (tcp_socket_stats_ p) t) as [s1 rel]. cbn [fst snd] in *.
  destruct (Z.eqb_spec rel 0) as [->|Hrel].
  { eexists _, _, M, Q, cur. split; [done|]. split; [by constructor|]. split; [|done]. split; [done|].
    intros c sk. cbn. f_equal. lia. }
  pose proof (ss_cur _ _ _ _ Hst) as Hcur.
  destruct (flush_queue_spec (Q cur) (length (tcp_index_to_sk_ p)) s1 M Q cur t (tcp_index_to_sk_ p) Hst1)
    as (s2 & M2 & Q2 & out & -> & Hs2 & Hq2 & Hqe & HM2 & Hout); [done|..].
  { pose proof (ss_queue_length _ _ _ _ cur Hst Hcur). unfold zlen in Hl. lia. }
  { congruence. }
  { intros k Hk. apply Hrg; [done|]. by rewrite <- Hepochs. }
  cbn [rbind]. eexists _, _, M2, Q2, _. split; [done|].
  assert (Hinv : forall i e, 0 <= i < slots -> 0 <= e < n_epochs ->
    valid (M2 i e) = true -> e <> cur /\ valid (M i e) = true).
  { intros i e Hi He. rewrite HM2. case_decide as Hd; [done|]. intros Hval. split; [|done]. intros ->. apply Hd.
    split; [done|]. by destruct (Hv i cur Hi He Hval). }
  split; [|split].
  - constructor; cbn; [done|exact (ss_advance_spec _ _ _ _ Hs2)|done|done|..].
    + intros i e Hi He Hval. destruct (Hinv i e Hi He Hval) as [Hne Hval']. rewrite Hqe by done. by apply Hv.
    + intros i e Hi He. rewrite HM2. pose proof (Hrg i e Hi He) as Hok. by case_decide.
  - split; [done|]. intros c sk. rewrite Hout. cbn [gain].
    rewrite (flushed_sum p C M Q cur c sk cur Hr) by (by rewrite <- Hepochs). f_equal. unfold pend.
    destruct (C !! sk) as [[i x]|] eqn:Hsk; [|done].
    pose proof (slot_in _ _ _ _ _ Ht Hsk) as Hi. rewrite Z.add_0_r. rewrite Hepochs in Hcur.
    assert (Hz : forall e, 0 <= e < n_epochs -> pending_stats c (M2 i e) = if decide (e = cur) then 0 else pending_stats c (M i e)).
    { intros e He. unfold pending_stats at 1. destruct (valid (M2 i e)) eqn:Hval.
      - destruct (Hinv i e Hi He Hval) as [Hne Hval']. rewrite decide_False by done. unfold pending_stats.
        rewrite Hval', HM2, decide_False by tauto. done.
      - case_decide as Hd; [done|]. rewrite HM2, decide_False in Hval by tauto. unfold pending_stats. by rewrite Hval. }
    rewrite !Hz by done. assert (Hc : cur = 0 \/ cur = 1) by (unfold n_epochs in *; lia).
    destruct Hc as [-> | ->]; [rewrite (decide_True (P := 0 = 0)), decide_False by done
      |rewrite (decide_True (P := 1 = 1)), decide_False by done]; lia.
  - intros _. split; [by rewrite Hepochs|done].
Qed.

(** ** Histories *)

Lemma tcp_step_conserves (p : Tcp H S) C M Q cur (ev : event) :
  tcp_rep p C M Q cur ->
  exists p' out C' M' Q' cur', tcp_step p ev = Ok (p', out) /\ tcp_rep p' C' M' Q' cur' /\ conserves C M C' M' out ev.
Proof.
  intros Hr. destruct ev as [t pid sk|t msg|t msg|t sk|t].
  - destruct (new_conserves p C M Q cur t pid sk Hr) as (p' & out & C' & ?). by exists p', out, C', M, Q, cur.
  - destruct (reset_conserves p C M Q cur t msg Hr) as (p' & out & C' & ?). by exists p', out, C', M, Q, cur.
  - destruct (rtt_conserves p C M Q cur t msg Hr) as (p' & C' & M' & Q' & ?). by exists p', [], C', M', Q', cur.
  - destruct (close_conserves p C M Q cur t sk Hr) as (p' & out & C' & M' & ?). by exists p', out, C', M', Q, cur.
  - destruct (tick_conserves p C M Q cur t Hr) as (p' & out & M' & Q' & cur' & ? & ? & ? & _).
    by exists p', out, C, M', Q', cur'.
Qed.

Lemma tcp_run_conserves (evs : list event) (p : Tcp H S) C M Q cur :
  tcp_rep p C M Q cur ->
  exists p' out C' M' Q' cur', tcp_run p evs = Ok (p', out) /\ tcp_rep p' C' M' Q' cur' /\
    snd <$> C' = ref_run capacity (snd <$> C) evs /\
    forall c sk, (reported c sk out + pend C' M' c sk) mod 2 ^ width c
               = (pend C M c sk + observed capacity c sk (snd <$> C) evs) mod 2 ^ width c.
Proof.
  revert p C M Q cur. induction evs as [|ev evs IH]; intros p C M Q cur Hr.
  { exists p, [], C, M, Q, cur. split; [done|]. split; [done|]. split; [done|]. intros c sk. cbn. f_equal. lia. }
  destruct (tcp_step_conserves p C M Q cur ev Hr) as (p1 & out1 & C1 & M1 & Q1 & cur1 & E1 & Hr1 & Ho1 & Hs1).
  destruct (IH p1 C1 M1 Q1 cur1 Hr1) as (p2 & out2 & C2 & M2 & Q2 & cur2 & E2 & Hr2 & Ho2 & Hs2).
  exists p2, (out1 ++ out2), C2, M2, Q2, cur2. cbn [tcp_run]. rewrite E1. cbn [rbind]. rewrite E2. cbn [rbind].
  split; [done|]. split; [done|]. split; [by rewrite Ho2, Ho1|]. intros c sk. rewrite reported_app.
  cbn [observed]. rewrite <- Z.add_assoc, <- Zplus_mod_idemp_r, Hs2, Zplus_mod_idemp_r, Z.add_assoc.
  rewrite <- Zplus_mod_idemp_l, Hs1, Zplus_mod_idemp_l, Ho1. f_equal. lia.
Qed.

Lemma tcp_new_rep (h : H) (s : S) (sks : list Z) (ever_full : bool) :
  tb_holds h ∅ -> ss_holds s (fun _ _ => no_stats) (fun _ => []) 0 -> zlen sks = capacity ->
  tcp_rep (mk_tcp h s sks ever_full) ∅ (fun _ _ => no_stats) (fun _ => []) 0.
Proof.
  intros Hh Hs Hl. constructor; cbn; [done|done|done| |done|].
  - intros sk i e. by rewrite lookup_empty.
  - intros i e _ _ c. by destruct c.
Qed.

(** An event that opens a socket, and the counters it starts from. *)
Definition opens (ev : event) : option (Z * tcp_socket_entry) :=
  match ev with
  | New _ _ sk => Some (sk, no_entry)
  | Reset _ m =>
      Some (c_sk m, mk_entry (c_bytes_acked m) (c_packets_delivered m) (c_packets_retrans m) (c_bytes_received m) 0 0)
  | _ => None
  end.

Lemma ref_step_opens (open : gmap Z tcp_socket_entry) (ev : event) (sk : Z) (e : tcp_socket_entry) :
  opens ev = Some (sk, e) -> open !! sk = None -> Z.of_nat (size open) <> capacity ->
  ref_step capacity open ev !! sk = Some e /\ forall c sk', gain c sk' open ev = 0.
Proof.
  intros Hev Hsk Hn. assert (Hro : ref_open capacity open sk e !! sk = Some e).
  { unfold ref_open. rewrite decide_False; [by rewrite lookup_insert_eq|]. rewrite Hsk. by intros [?|[? ?]]. }
  destruct ev; try done; cbn in Hev; injection Hev as <- <-; by split.
Qed.

Lemma ref_run_app (cap : Z) (open : gmap Z tcp_socket_entry) (evs evs' : list event) :
  ref_run cap open (evs ++ evs') = ref_run cap (ref_run cap open evs) evs'.
Proof. apply foldl_app. Qed.

Lemma observed_app (cap : Z) (c : counter) (sk : Z) (evs evs' : list event) (open : gmap Z tcp_socket_entry) :
  observed cap c sk open (evs ++ evs') = observed cap c sk open evs + observed cap c sk (ref_run cap open evs) evs'.
Proof.
  revert open. induction evs as [|ev evs IH]; intros open; cbn [app observed]; [done|]. rewrite IH.
  change (ref_run cap open (ev :: evs)) with (ref_run cap (ref_step cap open ev) evs). lia.
Qed.
End laws.

(** * Properties *)

Section properties.
Context {H S : Type} `{SocketTableLaws tcp_socket_entry H} `{StatStoreLaws tcp_statistics S}.
#[local] Abbreviation capacity := (tb_size (T := tcp_socket_entry) (H := H)).

(** The state the constructor builds: both containers empty, of the same size. *)
Definition initial (p : Tcp H S) : Prop :=
  tb_holds (tcp_socket_table_ p) ∅ /\ ss_holds (tcp_socket_stats_ p) (fun _ _ => no_stats) (fun _ => []) 0 /\
  zlen (tcp_index_to_sk_ p) = capacity /\
  ss_epochs (Metric := tcp_statistics) (S := S) = n_epochs /\
  ss_size (Metric := tcp_statistics) (S := S) = capacity.

Lemma initial_run (p : Tcp H S) (evs : list event) :
  initial p ->
  exists p' out C M Q cur, tcp_run p evs = Ok (p', out) /\ tcp_rep p' C M Q cur /\
    snd <$> C = ref_run capacity ∅ evs /\
    forall c sk, (reported c sk out + pend C M c sk) mod 2 ^ width c
               = observed capacity c sk ∅ evs mod 2 ^ width c.
Proof.
  intros (Hh & Hs & Hl & He & Hsl). destruct p as [h s sks full].
  destruct (tcp_run_conserves He Hsl evs _ _ _ _ _ (tcp_new_rep h s sks full Hh Hs Hl))
    as (p' & out & C & M & Q & cur & E & Hr & Ho & Hc). exists p', out, C, M, Q, cur.
  rewrite fmap_empty in Ho, Hc. split_and!; [done..|]. intros c sk. by rewrite Hc.
Qed.

(** C9: the statistics of TCP sockets are conserved.  For every history of events,
    including repeated sockets, unknown sockets and a full table, no handler
    fails, and for every socket and each of the four counters (bytes acknowledged
    and segments retransmitted, bytes and holes received) what was reported plus
    what is pending equals what was observed, modulo the width of the counter; for
    a socket that is not open nothing is pending.  The observations are the
    differences of consecutive counters of an open socket, without those that are
    negative as signed numbers. *)
Theorem tcp_statistics_conserved (p : Tcp H S) (evs : list event) :
  initial p ->
  exists p' out, tcp_run p evs = Ok (p', out) /\
    forall c sk,
      (reported c sk out + pending c sk p') mod 2 ^ width c = observed capacity c sk ∅ evs mod 2 ^ width c /\
      (ref_run capacity ∅ evs !! sk = None -> pending c sk p' = 0).
Proof.
  intros Hi. destruct (initial_run p evs Hi) as (p' & out & C & M & Q & cur & E & Hr & Ho & Hc).
  destruct Hi as (_ & _ & _ & He & Hsl). exists p', out. split; [done|]. intros c sk.
  rewrite (pending_eq He Hsl p' C M Q cur c sk Hr). split; [apply Hc|]. intros Hno. unfold pend.
  rewrite <- Ho, lookup_fmap in Hno. by destruct (C !! sk).
Qed.

(** A session is reported in full.  If a socket that was not open is opened with
    room in the table, then has its counters read any number of times, never
    decreasing, among any other events, and is closed, what was reported for it in
    between is the last reading minus the counters it started from. *)
Theorem tcp_session_reported (p : Tcp H S) (before session : list event) (ev : event) (t sk : Z)
    (e : tcp_socket_entry) (c : counter) :
  initial p -> ref_run capacity ∅ before !! sk = None -> Z.of_nat (size (ref_run capacity ∅ before)) <> capacity ->
  opens ev = Some (sk, e) -> Forall (fun ev => is_close sk ev = false) session ->
  increasing c (of_entry c e) (readings c sk session) ->
  exists p1 out1 p2 out2, tcp_run p before = Ok (p1, out1) /\
    tcp_run p1 (ev :: session ++ [Close t sk]) = Ok (p2, out2) /\
    reported c sk out2 mod 2 ^ width c
      = (default (of_entry c e) (last (readings c sk session)) - of_entry c e) mod 2 ^ width c.
Proof.
  intros Hi Hno Hroom Hev Hses Hinc. destruct (initial_run p before Hi) as (p1 & out1 & C & M & Q & cur & E & Hr & Ho & _).
  destruct Hi as (_ & _ & _ & He & Hsl).
  destruct (tcp_run_conserves He Hsl (ev :: session ++ [Close t sk]) p1 C M Q cur Hr)
    as (p2 & out2 & C2 & M2 & Q2 & cur2 & E2 & Hr2 & Ho2 & Hc2).
  exists p1, out1, p2, out2. split; [done|]. split; [done|]. specialize (Hc2 c sk).
  assert (Hp1 : pend C M c sk = 0).
  { unfold pend. rewrite <- Ho, lookup_fmap in Hno. by destruct (C !! sk). }
  assert (Hp2 : pend C2 M2 c sk = 0).
  { unfold pend. assert (Hno2 : (snd <$> C2) !! sk = None).
    { rewrite Ho2. change (ev :: session ++ [Close t sk]) with ((ev :: session) ++ [Close t sk]).
      rewrite ref_run_app. cbn. apply lookup_delete_eq. }
    rewrite lookup_fmap in Hno2. by destruct (C2 !! sk). }
  rewrite Hp1, Hp2, Z.add_0_r, Z.add_0_l in Hc2. rewrite Hc2, Ho. cbn [observed].
  destruct (ref_step_opens _ ev sk e Hev Hno Hroom) as [Hopen Hgain]. rewrite Hgain, observed_app. cbn [observed gain].
  rewrite (observed_increasing capacity c sk session _ e Hopen Hses Hinc). f_equal. lia.
Qed.

(** Statistics do not wait for longer than two epochs: when two successive polls
    each find that the current time slot has ended, nothing is pending for any
    socket afterwards. *)
Theorem tcp_statistics_flushed (p p1 p2 p3 : Tcp H S) (evs : list event) (t1 t2 : Z) (out out1 out2 : list message) :
  initial p -> tcp_run p evs = Ok (p1, out) ->
  (ss_relative_timeslot (tcp_socket_stats_ p1) t1).2 <> 0 -> tcp_step p1 (Tick t1) = Ok (p2, out1) ->
  (ss_relative_timeslot (tcp_socket_stats_ p2) t2).2 <> 0 -> tcp_step p2 (Tick t2) = Ok (p3, out2) ->
  forall c sk, pending c sk p3 = 0.
Proof.
  intros Hi Erun Hrel1 E1 Hrel2 E2 c sk. destruct (initial_run p evs Hi) as (p1' & out' & C & M & Q & cur & E & Hr & _).
  rewrite Erun in E. injection E as <- <-. destruct Hi as (_ & _ & _ & He & Hsl).
  destruct (tick_conserves He Hsl p1 C M Q cur t1 Hr) as (p2' & o1 & M1 & Q1 & cur1 & E1' & Hr1 & _ & Hd1).
  rewrite E1 in E1'. injection E1' as <- <-. destruct (Hd1 Hrel1) as [Hcur1 Hv1].
  destruct (tick_conserves He Hsl p2 C M1 Q1 cur1 t2 Hr1) as (p3' & o2 & M2 & Q2 & cur2 & E2' & Hr2 & _ & Hd2).
  rewrite E2 in E2'. injection E2' as <- <-. destruct (Hd2 Hrel2) as [_ Hv2].
  rewrite (pending_eq He Hsl p3 C M2 Q2 cur2 c sk Hr2). unfold pend.
  destruct (C !! sk) as [[i x]|] eqn:Hsk; [|done].
  pose proof (slot_in Hsl _ _ _ _ _ (tr_table _ _ _ _ _ Hr2) Hsk) as Hslot.
  assert (Hz : forall f, 0 <= f < n_epochs -> pending_stats c (M2 i f) = 0).
  { intros f Hf. unfold pending_stats. destruct (valid (M2 i f)) eqn:Hval; [exfalso|done].
    destruct (Hv2 i f Hslot Hf Hval) as [Hne Hval1]. destruct (Hv1 i f Hslot Hf Hval1) as [Hne1 _].
    pose proof (ss_cur _ _ _ _ (tr_stats _ _ _ _ _ Hr)) as Hcur. rewrite He in Hcur.
    rewrite Hcur1 in Hne. assert (Hc : cur = 0 \/ cur = 1) by (unfold n_epochs in Hcur; lia).
    unfold n_epochs in *. destruct Hc as [-> | ->]; [change ((0 + 1) mod 2) with 1 in Hne|change ((1 + 1) mod 2) with 0 in Hne]; lia. }
  rewrite !Hz by done. done.
Qed.
End properties.
End PollerTcp.

(** * The collector's containers

    Two sockets, time slots of 1024 units. *)

Module PollerTcpDemo.
Import PollerTcp.

(** The free list of the pool overwrites the low word of the first field. *)
#[export] Program Instance poolable_entry : Poolable tcp_socket_entry := {
  first_u32 e := bytes_acked e mod 2 ^ 32;
  set_first_u32 v e := mk_entry (bytes_acked e / 2 ^ 32 * 2 ^ 32 + v) (packets_delivered e) (packets_retrans e)
                         (bytes_received e) (rcv_holes e) (rcv_delivered e);
  zeroed := no_entry;
}.
Next Obligation. intros v e Hv. cbn [bytes_acked]. rewrite Z.add_comm, Z.mod_add, Z.mod_small by lia. done. Qed.

#[local] Abbreviation table := (FixedHash.FixedHash tcp_socket_entry (gmap Z Z)).
#[local] Abbreviation store := (MetricStore.MetricStore tcp_statistics).
Definition slot_div : FastDiv.fast_div := {| FastDiv.mul := 1; FastDiv.shift := 10 |}.

Lemma demo_pool_ok : Pool.size_ok 2 40.
Proof. unfold Pool.size_ok. lia. Qed.

Lemma demo_store_ok : MetricStore.params_ok 2 1.
Proof. unfold MetricStore.params_ok. lia. Qed.

#[export] Instance demo_table : SocketTable tcp_socket_entry table := fixed_hash_table 2 (fun e => e).
#[export] Instance demo_table_laws : SocketTableLaws tcp_socket_entry table :=
  fixed_hash_table_laws 2 40 (fun e => e) demo_pool_ok.
#[export] Instance demo_store : StatStore tcp_statistics store := metric_stat_store 2 1 slot_div.
#[export] Instance demo_store_laws : StatStoreLaws tcp_statistics store := metric_stat_store_laws 2 1 slot_div demo_store_ok.

Definition demo_tcp : option (Tcp table store) :=
  h ← FixedHash.FixedHash_new (K := Z) 2 40 [no_entry; no_entry];
  Some (mk_tcp h (MetricStore.MetricStore_new no_stats 2 1) [0; 0] false).

Lemma demo_initial : exists p, demo_tcp = Some p /\ initial p.
Proof.
  destruct (FixedHash.fh_new_rep (K := Z) (M := gmap Z Z) 2 40 demo_pool_ok [no_entry; no_entry]) as (h & Hh & Hr); [done|].
  eexists. split; [unfold demo_tcp; rewrite Hh; done|]. split; [by eexists|]. split; [|done].
  apply (metric_store_new no_stats 2 1 demo_store_ok).
Qed.

Definition reading (sk acked retrans : Z) : rtt_estimator := mk_rtt sk (mk_entry acked 0 retrans 0 0 0) 0 0.

Definition demo_events : list event :=
  [New 10 1 77; Reset 11 (mk_reset 88 1 1000 0 0 0); New 12 1 99; Rtt 13 (reading 77 500 1); Rtt 900 (reading 88 1300 0);
   Rtt 1100 (reading 77 800 1); Tick 1200; Close 1300 77; Rtt 1400 (reading 88 1200 0)].

Lemma tcp_statistics_conserved_witness :
  exists p, demo_tcp = Some p /\
  exists p' out, tcp_run p demo_events = Ok (p', out) /\
    (forall c sk,
      (reported c sk out + pending c sk p') mod 2 ^ width c = observed 2 c sk ∅ demo_events mod 2 ^ width c /\
      (ref_run 2 ∅ demo_events !! sk = None -> pending c sk p' = 0)) /\
    out = [new_sock_info 10 1 77; new_sock_info 11 1 88; socket_stats 1200 88 300 0 0 0 0; socket_stats 1200 77 500 0 1 0 0;
           socket_stats 1300 77 300 0 0 0 0; close_sock_info 1300 77].
Proof.
  destruct demo_initial as (p & Hp & Hi). exists p. split; [done|].
  destruct (tcp_statistics_conserved p demo_events Hi) as (p' & out & Hrun & Hc). exists p', out.
  split; [done|]. split; [done|]. vm_compute in Hp. injection Hp as <-. vm_compute in Hrun. by injection Hrun as _ <-.
Defined.

Lemma tcp_session_reported_witness :
  exists p, demo_tcp = Some p /\
  exists p1 out1 p2 out2, tcp_run p [New 1 1 88] = Ok (p1, out1) /\
    tcp_run p1 (New 2 1 77 :: [Rtt 3 (reading 77 500 1); Tick 1200; Rtt 1300 (reading 77 900 1)] ++ [Close 1400 77]) = Ok (p2, out2) /\
    reported Acked 77 out2 mod 2 ^ width Acked = 900 mod 2 ^ width Acked.
Proof.
  destruct demo_initial as (p & Hp & Hi). exists p. split; [done|].
  apply (tcp_session_reported p [New 1 1 88] [Rtt 3 (reading 77 500 1); Tick 1200; Rtt 1300 (reading 77 900 1)]
    (New 2 1 77) 1400 77 no_entry Acked Hi); [done|done|done|by repeat constructor|].
  split; [vm_compute; split; [discriminate|reflexivity]|]. split; [vm_compute; split; [discriminate|reflexivity]|done].
Defined.

Definition demo_states : option (Tcp table store * Tcp table store * Tcp table store * Tcp table store * list message * list message) :=
  p ← demo_tcp;
  match tcp_run p [New 1 1 77; Rtt 3 (reading 77 500 1); Rtt 1100 (reading 77 800 1)] with
  | Ok (p1, _) =>
      match tcp_step p1 (Tick 1200) with
      | Ok (p2, out1) => match tcp_step p2 (Tick 2300) with Ok (p3, out2) => Some (p, p1, p2, p3, out1, out2) | _ => None end
      | _ => None
      end
  | _ => None
  end.

Lemma tcp_statistics_flushed_witness :
  exists p p1 p2 p3 out1 out2, demo_states = Some (p, p1, p2, p3, out1, out2) /\
    forall c sk, pending c sk p3 = 0.
Proof.
  destruct demo_initial as (p & Hp & Hi). vm_compute in Hp. injection Hp as <-.
  eexists _, _, _, _, _, _. split; [vm_compute; reflexivity|].
  eapply (tcp_statistics_flushed _ _ _ _ [New 1 1 77; Rtt 3 (reading 77 500 1); Rtt 1100 (reading 77 800 1)] 1200 2300 _ _ _ Hi);
    [vm_compute; reflexivity|vm_compute; discriminate|vm_compute; reflexivity|vm_compute; discriminate|vm_compute; reflexivity].
Defined.
End PollerTcpDemo.
