(* ===== verification/PollerUdp.v ===== *)
(** UDP sockets, their statistics, and the DNS requests on them: the UDP and DNS
    handlers of collector/kernel/buffered_poller.cc and the structures of
    socket_table.h.

    The handlers are written against the interfaces of [Tables], with the DNS
    parsers of [Dns], the request table of [DnsRequests] and the address
    translations of [NatHandler].  The server knows a UDP socket by its slot. *)
From S2P Require Import Prelude IpAddress NatHandler Pool FixedHash MetricStore DnsRequests Dns Tables PollerBase.
Open Scope result_scope.

Module PollerUdp.
Definition AF_INET : Z := 2.
Definition AF_INET6 : Z := 10.
Definition IPPROTO_UDP : Z := 17.
Definition SC_CLIENT : Z := 0.
Definition SC_SERVER : Z := 1.
Definition MAX_ENCODED_IP_ADDRS : Z := 16.
Definition DNS_TIMEOUT_TIME_NS : Z := 10000000000.
Definition n_epochs : Z := 2.

(** * Data *)

Record udp_statistics := mk_stats { valid : bool; packets : Z; bytes : Z; drops : Z }.

(** The arrays of four 32-bit words that hold an address are its sixteen bytes. *)
Record udp_remote_endpoint := mk_remote { addr : list Z; port : Z; changed_af : Z }.

Record udp_socket_entry := mk_entry {
  laddr : list Z;
  lport : Z;
  reported : bool;
  pid : Z;
  sk : Z;
  addrs : list udp_remote_endpoint;   (* 0 for TX, 1 for RX *)
}.

Definition no_stats : udp_statistics := mk_stats false 0 0 0.
Definition no_remote : udp_remote_endpoint := mk_remote (replicate 16 0) 0 0.
Definition no_entry : udp_socket_entry := mk_entry (replicate 16 0) 0 false 0 0 [no_remote; no_remote].

(** The messages of the probes; the ports are in network byte order in [udp_stats]. *)
Record udp_new_socket_msg := mk_new { n_pid : Z; n_sk : Z; n_laddr : list Z; n_lport : Z }.
Record udp_stats_msg := mk_msg {
  m_sk : Z; m_raddr : list Z; m_packets : Z; m_bytes : Z; m_changed_af : Z; m_rport : Z; m_is_rx : Z;
  m_laddr : list Z; m_lport : Z; m_drops : Z }.

(** A captured DNS packet: the bytes of the event behind the fixed part of the
    message, and how many of them the message says the packet has. *)
Record dns_packet_msg := mk_dns { d_sk : Z; d_is_rx : Z; d_data : list Z; d_len : Z }.

(** What the local buffers of [handle_dns_message] and of the reply parser hold on
    entry. *)
Record stack := mk_stack {
  st_hostname : list Z; st_name : list Z; st_data : list Z; st_ipv4 : list (list Z); st_ipv6 : list (list Z) }.

(** The last word of an address. *)
Definition word3 (a : list Z) : option Z := le_decode <$> mem_read a 12 4.

(** The IPv6 form of an address in network byte order: {0, 0, 0xffff0000, ip}. *)
Definition mapped_words (ip : Z) : list Z := concat (le_encode 4 <$> [0; 0; 4294901760; ip]).

Section handlers.
Context {H S : Type} `{SocketTable udp_socket_entry H} `{StatStore udp_statistics S} `{!Dns.AresDns} `{!DnsRequests.MultimapOrder}.
Context (udp_socket_table_max_sockets : Z).

Record Udp := mk_udp {
  udp_socket_table_ : H;
  udp_socket_table_ever_full_ : bool;
  udp_socket_stats_ : list S;           (* 0 for TX, 1 for RX *)
  dns_requests_ : DnsRequests.DnsRequests;
}.

Definition set_table (p : Udp) (h : H) : Udp :=
  mk_udp h (udp_socket_table_ever_full_ p) (udp_socket_stats_ p) (dns_requests_ p).
Definition set_store (p : Udp) (ss : list S) : Udp :=
  mk_udp (udp_socket_table_ p) (udp_socket_table_ever_full_ p) ss (dns_requests_ p).
Definition set_dns (p : Udp) (d : DnsRequests.DnsRequests) : Udp :=
  mk_udp (udp_socket_table_ p) (udp_socket_table_ever_full_ p) (udp_socket_stats_ p) d.

(** * Statistics *)

Definition udp_send_new_socket (ts : Z) (entry : udp_socket_entry) (index : Z)
    : list message * udp_socket_entry :=
  if negb (lport entry =? 0)
  then ([udp_new_socket ts (pid entry) index (laddr entry) (lport entry)],
        mk_entry (laddr entry) (lport entry) true (pid entry) (sk entry) (addrs entry))
  else ([], entry).

Definition udp_send_stats (t sk_id is_rx : Z) (entry : udp_socket_entry) (stats : udp_statistics)
    : result (list message * udp_socket_entry * udp_statistics) :=
  let* a := get (rd (addrs entry) is_rx) in
  let '(out0, entry) := if negb (reported entry) then udp_send_new_socket t entry sk_id else ([], entry) in
  let* out1 :=
    if changed_af a =? AF_INET then
      let* w := get (word3 (addr a)) in
      Ok [udp_stats_addr_changed_v4 t sk_id is_rx (packets stats) (bytes stats) w (port a)]
    else if changed_af a =? AF_INET6 then
      Ok [udp_stats_addr_changed_v6 t sk_id is_rx (packets stats) (bytes stats) (addr a) (port a)]
    else Ok [udp_stats_addr_unchanged t sk_id is_rx (packets stats) (bytes stats)] in
  let out2 := if negb (is_rx =? 0) && (0 <? drops stats) then [udp_stats_drops_changed t sk_id (drops stats)] else [] in
  let* as_ := get (wr (addrs entry) is_rx (mk_remote (addr a) (port a) 0)) in
  Ok (out0 ++ out1 ++ out2,
      mk_entry (laddr entry) (lport entry) (reported entry) (pid entry) (sk entry) as_,
      mk_stats false (packets stats) (bytes stats) (drops stats)).

Definition handle_udp_new_socket (p : Udp) (t : Z) (msg : udp_new_socket_msg) : result (Udp * list message) :=
  if tb_full (udp_socket_table_ p)
  then Ok (mk_udp (udp_socket_table_ p) true (udp_socket_stats_ p) (dns_requests_ p), [])
  else
    let* (h, pos) := get (tb_insert (udp_socket_table_ p) (n_sk msg) no_entry) in
    match pos with
    | None => Ok (set_table p h, [])
    | Some index =>
        let entry := mk_entry (n_laddr msg) (n_lport msg) false (n_pid msg) (n_sk msg) (addrs no_entry) in
        let '(out, entry) := udp_send_new_socket t entry index in
        let* h := get (tb_set h (n_sk msg) entry) in
        Ok (set_table p h, out)
    end.

(** The address of a message, translated if the NAT handler knows it. *)
Definition set_address (nat : NatHandler.NatHandler) (entry : udp_socket_entry) (msg : udp_stats_msg)
    : result udp_socket_entry :=
  let* ft :=
    if m_changed_af msg =? AF_INET then
      let* l := get (word3 (m_laddr msg)) in
      let* r := get (word3 (m_raddr msg)) in
      Ok (NatHandler.get_nat_mapping nat l r (htons (m_lport msg)) (htons (m_rport msg)) IPPROTO_UDP)
    else Ok None in
  let '(la, lp, ra, rp) :=
    match ft with
    | Some ft => (mapped_words (src_ip ft), htons (src_port ft), mapped_words (dst_ip ft), htons (dst_port ft))
    | None => (m_laddr msg, htons (m_lport msg), m_raddr msg, htons (m_rport msg))
    end in
  let* as_ := get (wr (addrs entry) (m_is_rx msg) (mk_remote ra rp (m_changed_af msg))) in
  Ok (mk_entry la lp (reported entry) (pid entry) (sk entry) as_).

(** What an address change sends: the statistics if they are valid, then, with the
    new address, whatever the statistics hold. *)
Definition change_address (nat : NatHandler.NatHandler) (t index : Z) (entry : udp_socket_entry)
    (stats : udp_statistics) (msg : udp_stats_msg) : result (list message * udp_socket_entry * udp_statistics) :=
  let* (out1, entry, stats) :=
    if valid stats then udp_send_stats t index (m_is_rx msg) entry stats else Ok ([], entry, stats) in
  let* entry := set_address nat entry msg in
  let* (out2, entry, stats) := udp_send_stats t index (m_is_rx msg) entry stats in
  Ok (out1 ++ out2, entry, stats).

Definition accumulate (msg : udp_stats_msg) (stats : udp_statistics) : udp_statistics :=
  if negb (valid stats) then mk_stats true (m_packets msg) (m_bytes msg) (m_drops msg)
  else mk_stats true (u32 (packets stats + m_packets msg)) (u64 (bytes stats + m_bytes msg))
         (u32 (drops stats + m_drops msg)).

Definition handle_udp_stats (nat : NatHandler.NatHandler) (p : Udp) (t : Z) (msg : udp_stats_msg)
    : result (Udp * list message) :=
  let* pos := get (tb_find (udp_socket_table_ p) (m_sk msg)) in
  match pos with
  | None => Ok (p, [])
  | Some (index, entry) =>
      let* store := get (rd (udp_socket_stats_ p) (m_is_rx msg)) in
      let* (s, epoch) := get (ss_lookup store index t) in
      let* stats := get (ss_metric s index epoch) in
      let* (out, entry, stats) :=
        if negb (m_changed_af msg =? 0) then change_address nat t index entry stats msg
        else Ok ([], entry, stats) in
      let* s := get (ss_set_metric s index epoch (accumulate msg stats)) in
      let* h := get (tb_set (udp_socket_table_ p) (m_sk msg) entry) in
      let* ss := get (wr (udp_socket_stats_ p) (m_is_rx msg) s) in
      Ok (set_store (set_table p h) ss, out)
  end.

(** One slot and epoch: send if valid. *)
Definition send_if_valid (t is_rx : Z) (index epoch : Z) (entry : result udp_socket_entry) (s : S)
    : result (option udp_socket_entry * S * list message) :=
  let* stats := get (ss_metric s index epoch) in
  if valid stats then
    let* entry := entry in
    let* (out, entry, stats) := udp_send_stats t index is_rx entry stats in
    let* s := get (ss_set_metric s index epoch stats) in
    Ok (Some entry, s, out)
  else Ok (None, s, []).

(** The loops of [handle_udp_destroy_socket] over the epochs and the directions. *)
Fixpoint send_epochs (t is_rx index : Z) (epochs : list Z) (entry : udp_socket_entry) (s : S)
    : result (udp_socket_entry * S * list message) :=
  match epochs with
  | [] => Ok (entry, s, [])
  | epoch :: epochs =>
      let* e := get (ss_lookup_relative s index epoch) in
      let* (entry', s, out) := send_if_valid t is_rx index e (Ok entry) s in
      let* (entry, s, rest) := send_epochs t is_rx index epochs (default entry entry') s in
      Ok (entry, s, out ++ rest)
  end.

Fixpoint send_directions (t index : Z) (dirs : list Z) (entry : udp_socket_entry) (ss : list S)
    : result (udp_socket_entry * list S * list message) :=
  match dirs with
  | [] => Ok (entry, ss, [])
  | is_rx :: dirs =>
      let* s := get (rd ss is_rx) in
      let* (entry, s, out) := send_epochs t is_rx index (seqZ 0 n_epochs) entry s in
      let* ss := get (wr ss is_rx s) in
      let* (entry, ss, rest) := send_directions t index dirs entry ss in
      Ok (entry, ss, out ++ rest)
  end.

(** The loop of [udp_send_stats_from_queue] that empties the current queue. *)
Fixpoint flush_queue (fuel : nat) (t is_rx : Z) (h : H) (s : S) : result (H * S * list message) :=
  let* empty := get (ss_queue_empty s) in
  if (empty : bool) then Ok (h, s, [])
  else
    match fuel with
    | O => NoFuel
    | Datatypes.S fuel =>
        let* index := get (ss_queue_peek s) in
        let* e := get (ss_lookup_relative s index 0) in
        let* (entry, s, out) := send_if_valid t is_rx index e (get (tb_at h index)) s in
        let* h := match entry with Some entry => get (tb_set_at h index entry) | None => Ok h end in
        let* s := get (ss_queue_pop s) in
        let* (h, s, rest) := flush_queue fuel t is_rx h s in
        Ok (h, s, out ++ rest)
    end.

Fixpoint flush_directions (t : Z) (dirs : list Z) (h : H) (ss : list S) : result (H * list S * list message) :=
  match dirs with
  | [] => Ok (h, ss, [])
  | is_rx :: dirs =>
      let* s := get (rd ss is_rx) in
      let '(s, relative) := ss_relative_timeslot s t in
      let* (h, s, out) :=
        if relative =? 0 then Ok (h, s, [])
        else
          let* (h, s, out) := flush_queue (Z.to_nat udp_socket_table_max_sockets) t is_rx h s in
          Ok (h, ss_advance s, out) in
      let* ss := get (wr ss is_rx s) in
      let* (h, ss, rest) := flush_directions t dirs h ss in
      Ok (h, ss, out ++ rest)
  end.

Definition udp_send_stats_from_queue (p : Udp) (t : Z) : result (Udp * list message) :=
  let* (h, ss, out) := flush_directions t [0; 1] (udp_socket_table_ p) (udp_socket_stats_ p) in
  Ok (set_store (set_table p h) ss, out).

(** * DNS *)

(** The tail of a host name that fits in a message. *)
Definition truncate (name : list Z) : list Z :=
  drop (Z.to_nat (zlen name - (if zlen name <? Dns.DNS_NAME_MAX_LENGTH then zlen name else Dns.DNS_NAME_MAX_LENGTH))) name.

Definition timeout_dns_request (p : Udp) (timestamp_ns : Z) (req : DnsRequests.Request) : result (Udp * list message) :=
  let* (key, value) := get (DnsRequests.node (DnsRequests.dns_requests_ (dns_requests_ p)) req) in
  let* pos := get (tb_find (udp_socket_table_ p) (DnsRequests.sk value)) in
  let out :=
    match pos with
    | None => []
    | Some (sk_id, _) =>
        [dns_timeout timestamp_ns sk_id (zlen (DnsRequests.name key)) (truncate (DnsRequests.name key))
           (u64 (timestamp_ns - DnsRequests.timestamp_ns value))]
    end in
  let* d := get (DnsRequests.remove (dns_requests_ p) req) in
  Ok (set_dns p d, out).

Fixpoint timeout_all (p : Udp) (t : Z) (reqs : list DnsRequests.Request) : result (Udp * list message) :=
  match reqs with
  | [] => Ok (p, [])
  | req :: reqs =>
      let* (p, out) := timeout_dns_request p t req in
      let* (p, rest) := timeout_all p t reqs in
      Ok (p, out ++ rest)
  end.

Definition process_dns_timeouts (p : Udp) (t : Z) : result (Udp * list message) :=
  timeout_all p t (DnsRequests.lookup_older_than (dns_requests_ p) (u64 (t - DNS_TIMEOUT_TIME_NS))).

Definition handle_udp_destroy_socket (p : Udp) (t sk : Z) : result (Udp * list message) :=
  let* pos := get (tb_find (udp_socket_table_ p) sk) in
  match pos with
  | None => Ok (p, [])
  | Some (index, entry) =>
      let* (p, out0) := timeout_all p t (DnsRequests.lookup_socket (dns_requests_ p) sk) in
      let* (ss, out1) :=
        if reported entry then
          let* (_, ss, out) := send_directions t index [0; 1] entry (udp_socket_stats_ p) in
          Ok (ss, out ++ [udp_destroy_socket t index])
        else Ok (udp_socket_stats_ p, []) in
      let* (h, _) := get (tb_erase (udp_socket_table_ p) sk) in
      Ok (set_store (set_table p h) ss, out0 ++ out1)
  end.

(** Following the pointer in a table position that may be invalid. *)
Definition entry_of (p : Udp) (sk : Z) : result udp_socket_entry :=
  let* pos := get (tb_find (udp_socket_table_ p) sk) in
  match pos with Some (_, entry) => Ok entry | None => Undef end.

(** The loop over the matching requests; [answer] is what the reply says, if it
    says anything. *)
Fixpoint answer_requests (p : Udp) (t sk sk_id client_server : Z)
    (answer : option (list Z * list (list Z) * list (list Z))) (reqs : list DnsRequests.Request)
    : result (list message) :=
  match reqs with
  | [] => Ok []
  | req :: reqs =>
      let* (_, value) := get (DnsRequests.node (DnsRequests.dns_requests_ (dns_requests_ p)) req) in
      let latency_ns := u64 (t - DnsRequests.timestamp_ns value) in
      let* out :=
        match answer with
        | None => Ok []
        | Some (name, ipv4, ipv6) =>
            (* whether the sockets or their processes match is computed for a debug message only *)
            let* _ :=
              if sk =? DnsRequests.sk value then Ok true
              else
                let* e1 := entry_of p sk in
                let* e2 := entry_of p (DnsRequests.sk value) in
                Ok (pid e1 =? pid e2) in
            Ok [dns_response t sk_id (zlen name) (truncate name) ipv4 ipv6 latency_ns client_server]
        end in
      let* rest := answer_requests p t sk sk_id client_server answer reqs in
      Ok (out ++ rest)
  end.

Definition of_run {A} (r : Dns.run A) : result A :=
  match r with Dns.Done a => Ok a | Dns.Undefined => Undef | Dns.OutOfFuel => NoFuel end.

Definition handle_dns_message (st : stack) (p : Udp) (t : Z) (msg : dns_packet_msg) : result (Udp * list message) :=
  let pkt_len := d_len msg in
  if zlen (d_data msg) <? pkt_len then Throw garbled_dns
  else
    let pkt := take (Z.to_nat pkt_len) (d_data msg) in
    let* pos := get (tb_find (udp_socket_table_ p) (d_sk msg)) in
    match pos with
    | None => Ok (p, [])
    | Some (sk_id, _) =>
        let* (ret, q) := of_run (Dns.dns_parse_query pkt pkt_len
          (Dns.mk_query_out (Some 0) (Some 0) (Some 0) (st_hostname st) (Some 0))) in
        if negb (ret =? Dns.ARES_SUCCESS) then Ok (p, [])
        else
          let* is_response := get (Dns.is_response q) in
          let* type := get (Dns.type_out q) in
          let* qid := get (Dns.qid_out q) in
          let* len := get (Dns.question_len q) in
          let* name := get (mem_read (Dns.question_out q) 0 len) in
          let is_rx := negb (d_is_rx msg =? 0) in
          if is_response =? 0 then
            let key := {| DnsRequests.qid := qid; DnsRequests.type_ := type; DnsRequests.name := name;
                          DnsRequests.is_rx := is_rx |} in
            let value := {| DnsRequests.timestamp_ns := t; DnsRequests.sk := d_sk msg |} in
            Ok (set_dns p (DnsRequests.add (dns_requests_ p) key value), [])
          else
            let key := {| DnsRequests.qid := qid; DnsRequests.type_ := type; DnsRequests.name := name;
                          DnsRequests.is_rx := negb is_rx |} in
            let* (_, r) := of_run (Dns.dns_parse_a_aaaa_reply (st_name st) (st_data st) pkt pkt_len
              (Dns.mk_reply_out (Dns.question_out q) (Dns.question_len q) (Some (st_ipv4 st)) (Some MAX_ENCODED_IP_ADDRS)
                 (Some (st_ipv6 st)) (Some MAX_ENCODED_IP_ADDRS))) in
            let* len := get (Dns.hostname_len r) in
            let* n4 := get (Dns.num_in_addrs r) in
            let* n6 := get (Dns.num_in6_addrs r) in
            let* answer :=
              if (len =? 0) || (n4 + n6 =? 0) then Ok None
              else
                let* name := get (mem_read (Dns.out_hostname r) 0 len) in
                let* ipv4 := get (mem_read (default [] (Dns.out_in_addrs r)) 0 n4) in
                let* ipv6 := get (mem_read (default [] (Dns.out_in6_addrs r)) 0 n6) in
                Ok (Some (name, ipv4, ipv6)) in
            match DnsRequests.lookup (dns_requests_ p) key with
            | [] => Ok (p, [])
            | reqs =>
                let* out := answer_requests p t (d_sk msg) sk_id (if is_rx then SC_CLIENT else SC_SERVER) answer reqs in
                let* d := get (DnsRequests.remove_all_with_key (dns_requests_ p) key) in
                Ok (set_dns p d, out)
            end
    end.
End handlers.
Arguments Udp H S : clear implicits.

(** * What is counted *)

Inductive counter := Packets | Bytes.

Definition width (c : counter) : Z := match c with Packets => 32 | Bytes => 64 end.
Definition of_stats (c : counter) (s : udp_statistics) : Z := match c with Packets => packets s | Bytes => bytes s end.
Definition of_msg (c : counter) (m : udp_stats_msg) : Z := match c with Packets => m_packets m | Bytes => m_bytes m end.

(** What a message reports of the traffic of a slot in one direction. *)
Definition of_message (c : counter) (slot dir : Z) (m : message) : Z :=
  let count i d p b := if (i =? slot) && (d =? dir) then match c with Packets => p | Bytes => b end else 0 in
  match m with
  | udp_stats_addr_changed_v4 _ i d p b _ _ => count i d p b
  | udp_stats_addr_changed_v6 _ i d p b _ _ => count i d p b
  | udp_stats_addr_unchanged _ i d p b => count i d p b
  | _ => 0
  end.

Fixpoint total (c : counter) (slot dir : Z) (out : list message) : Z :=
  match out with [] => 0 | m :: out => of_message c slot dir m + total c slot dir out end.

Definition pending_stats (c : counter) (s : udp_statistics) : Z := if valid s then of_stats c s else 0.

Lemma total_app (c : counter) (slot dir : Z) (out out' : list message) :
  total c slot dir (out ++ out') = total c slot dir out + total c slot dir out'.
Proof. induction out as [|m out IH]; cbn; [done|]. rewrite IH. lia. Qed.

Definition invalidate (s : udp_statistics) : udp_statistics := mk_stats false (packets s) (bytes s) (drops s).

Lemma udp_invalidate_invalid (s : udp_statistics) : valid s = false -> invalidate s = s.
Proof. destruct s. cbn. by intros ->. Qed.

(** * Entries *)

Definition entry_ok (e : udp_socket_entry) : Prop :=
  zlen (addrs e) = 2 /\ Forall (fun a => zlen (addr a) = 16) (addrs e).

Lemma no_entry_ok : entry_ok no_entry.
Proof. by repeat constructor. Qed.

Lemma remote_ok (e : udp_socket_entry) (d : Z) :
  entry_ok e -> 0 <= d < 2 -> exists a, rd (addrs e) d = Some a /\ zlen (addr a) = 16.
Proof.
  intros [Hl Ha] Hd. destruct (rd_is_Some (addrs e) d) as [a Hr]; [lia|]. exists a. split; [done|].
  apply rd_Some in Hr as [_ Hr]. by eapply (Forall_lookup_1 _ _ _ _ Ha).
Qed.

Lemma word3_ok (a : list Z) : zlen a = 16 -> exists w, word3 a = Some w.
Proof.
  intros Ha. unfold word3. destruct (mem_read a 12 4) as [bs|] eqn:E; [by eexists|exfalso].
  unfold mem_read, zlen in *. destruct (Z.leb_spec (12 + 4) (Z.of_nat (length a))); [done|lia].
Qed.

Lemma set_remote_ok (e : udp_socket_entry) (d : Z) (a : udp_remote_endpoint) :
  entry_ok e -> 0 <= d < 2 -> zlen (addr a) = 16 ->
  exists as_, wr (addrs e) d a = Some as_ /\ zlen as_ = 2 /\ Forall (fun a => zlen (addr a) = 16) as_.
Proof.
  intros [Hl Hf] Hd Ha. rewrite wr_in_range by lia. eexists. split; [done|]. rewrite zlen_insert. split; [done|].
  by apply Forall_insert.
Qed.

Lemma udp_send_new_socket_spec (ts index : Z) (e : udp_socket_entry) :
  exists out e', udp_send_new_socket ts e index = (out, e') /\ (forall c i d, total c i d out = 0) /\
    addrs e' = addrs e /\ lport e' = lport e /\ reported e' = reported e || negb (lport e =? 0).
Proof.
  unfold udp_send_new_socket. destruct (Z.eqb_spec (lport e) 0) as [Hp|Hp]; cbn [negb]; eexists _, _; (split; [done|]).
  - split_and!; [done|done|done|]. by rewrite orb_false_r.
  - split_and!; [done|done|done|]. cbn. by rewrite orb_true_r.
Qed.

(** Sending reports exactly what the statistics hold, valid or not. *)
Lemma udp_send_stats_spec (t i d : Z) (e : udp_socket_entry) (s : udp_statistics) :
  entry_ok e -> 0 <= d < 2 ->
  exists out e', udp_send_stats t i d e s = Ok (out, e', invalidate s) /\ entry_ok e' /\
    lport e' = lport e /\ reported e' = reported e || negb (lport e =? 0) /\
    forall c i' d', total c i' d' out = if decide (i = i' /\ d = d') then of_stats c s else 0.
Proof.
  intros He Hd. destruct (remote_ok e d He Hd) as (a & Ha & Hl). unfold udp_send_stats. rewrite Ha. cbn [get rbind].
  assert (exists out0 e0, (if negb (reported e) then udp_send_new_socket t e i else ([], e)) = (out0, e0) /\
    (forall c i d, total c i d out0 = 0) /\ addrs e0 = addrs e /\ lport e0 = lport e /\
    reported e0 = reported e || negb (lport e =? 0)) as (out0 & e0 & -> & Ht0 & Ha0 & Hp0 & Hr0).
  { destruct (reported e) eqn:Hr; cbn [negb].
    - exists [], e. split_and!; done.
    - destruct (udp_send_new_socket_spec t i e) as (o & e' & Ho & ? & ? & ? & ?). rewrite Hr in *. eexists _, _. done. }
  assert (exists out1, (if changed_af a =? AF_INET then
      let* w := get (word3 (addr a)) in Ok [udp_stats_addr_changed_v4 t i d (packets s) (bytes s) w (port a)]
    else if changed_af a =? AF_INET6 then Ok [udp_stats_addr_changed_v6 t i d (packets s) (bytes s) (addr a) (port a)]
    else Ok [udp_stats_addr_unchanged t i d (packets s) (bytes s)]) = Ok out1 /\
    forall c i' d', total c i' d' out1 = if decide (i = i' /\ d = d') then of_stats c s else 0) as (out1 & -> & Ht1).
  { destruct (word3_ok (addr a) Hl) as [w Hw]. rewrite Hw. cbn [get rbind].
    destruct (changed_af a =? AF_INET), (changed_af a =? AF_INET6); (eexists; split; [done|]); intros c i' d'; cbn;
      rewrite Z.add_0_r; destruct (Z.eqb_spec i i'), (Z.eqb_spec d d'); cbn;
      first [rewrite decide_True by done|rewrite decide_False by tauto]; by destruct c. }
  cbn [rbind]. rewrite Ha0. destruct (set_remote_ok e d (mk_remote (addr a) (port a) 0) He Hd Hl) as (as_ & -> & Hn & Hf).
  cbn [get rbind]. eexists _, _. split; [done|]. split; [done|]. split; [done|]. split; [done|].
  intros c i' d'. rewrite !total_app, Ht0, Ht1. destruct (_ && _); cbn; lia.
Qed.

(** The address of a message, as far as the slot is concerned. *)
Definition msg_ok (m : udp_stats_msg) : Prop :=
  0 <= m_is_rx m < 2 /\ zlen (m_laddr m) = 16 /\ zlen (m_raddr m) = 16.

Lemma zlen_mapped_words (ip : Z) : zlen (mapped_words ip) = 16.
Proof. done. Qed.

(** The local port an address change leaves in the entry. *)
Definition new_lport (nat : NatHandler.NatHandler) (m : udp_stats_msg) : Z :=
  match word3 (m_laddr m), word3 (m_raddr m) with
  | Some l, Some r =>
      match (if m_changed_af m =? AF_INET
             then NatHandler.get_nat_mapping nat l r (htons (m_lport m)) (htons (m_rport m)) IPPROTO_UDP else None) with
      | Some ft => htons (src_port ft)
      | None => htons (m_lport m)
      end
  | _, _ => 0
  end.

Lemma set_address_spec (nat : NatHandler.NatHandler) (e : udp_socket_entry) (m : udp_stats_msg) :
  entry_ok e -> msg_ok m ->
  exists e', set_address nat e m = Ok e' /\ entry_ok e' /\ reported e' = reported e /\ lport e' = new_lport nat m.
Proof.
  intros He (Hd & Hl & Hr). unfold set_address, new_lport. destruct (word3_ok _ Hl) as [l ->], (word3_ok _ Hr) as [r ->].
  cbn [get rbind].
  set (ft := if m_changed_af m =? AF_INET then NatHandler.get_nat_mapping nat l r _ _ _ else None).
  replace (if m_changed_af m =? AF_INET then Ok _ else Ok None) with (Ok ft) by (subst ft; by case_match).
  cbn [rbind]. destruct ft as [ft|].
  - destruct (set_remote_ok e (m_is_rx m) (mk_remote (mapped_words (dst_ip ft)) (htons (dst_port ft)) (m_changed_af m)) He Hd)
      as (as_ & -> & Hn & Hf); [done|]. cbn [get rbind]. by eexists.
  - destruct (set_remote_ok e (m_is_rx m) (mk_remote (m_raddr m) (htons (m_rport m)) (m_changed_af m)) He Hd Hr)
      as (as_ & -> & Hn & Hf). cbn [get rbind]. by eexists.
Qed.

(** An address change sends valid statistics twice and invalid ones once. *)
Lemma change_address_spec (nat : NatHandler.NatHandler) (t i : Z) (e : udp_socket_entry) (s : udp_statistics) (m : udp_stats_msg) :
  entry_ok e -> msg_ok m ->
  exists out e', change_address nat t i e s m = Ok (out, e', invalidate s) /\ entry_ok e' /\
    (reported e = true \/ new_lport nat m <> 0 -> reported e' = true) /\
    forall c i' d', total c i' d' out =
      if decide (i = i' /\ m_is_rx m = d') then pending_stats c s + of_stats c s else 0.
Proof.
  intros He Hm. pose proof Hm as (Hd & _). unfold change_address.
  assert (exists out1 e1 s1, (if valid s then udp_send_stats t i (m_is_rx m) e s else Ok ([], e, s)) = Ok (out1, e1, s1) /\
    entry_ok e1 /\ (reported e = true -> reported e1 = true) /\ invalidate s1 = invalidate s /\
    (forall c, of_stats c s1 = of_stats c s) /\
    forall c i' d', total c i' d' out1 = if decide (i = i' /\ m_is_rx m = d') then pending_stats c s else 0)
    as (out1 & e1 & s1 & -> & He1 & Hr1 & Hs1 & Hof & Ht1).
  { unfold pending_stats. destruct (valid s).
    - destruct (udp_send_stats_spec t i (m_is_rx m) e s He Hd) as (o & e' & -> & He' & _ & Hr & Ht).
      eexists _, _, _. split; [done|]. split; [done|]. split; [by rewrite Hr; intros ->|]. split; [done|]. split; [|done].
      by intros [].
    - exists [], e, s. split_and!; try done. intros c i' d'. by case_decide. }
  cbn [rbind]. destruct (set_address_spec nat e1 m He1 Hm) as (e2 & -> & He2 & Hr2 & Hp2). cbn [rbind].
  destruct (udp_send_stats_spec t i (m_is_rx m) e2 s1 He2 Hd) as (o3 & e3 & -> & He3 & Hp3 & Hr3 & Ht3). cbn [rbind].
  rewrite Hs1. eexists _, _. split; [done|]. split; [done|]. split.
  - rewrite Hr3, Hr2, Hp2. intros [Hrep|Hport]; [by rewrite Hr1|]. apply orb_true_iff. right.
    by destruct (Z.eqb_spec (new_lport nat m) 0).
  - intros c i' d'. rewrite total_app, Ht1, Ht3, Hof. by case_decide.
Qed.

Section sending.
Context {H S : Type} `{SocketTableLaws udp_socket_entry H} `{StatStoreLaws udp_statistics S}.
#[local] Abbreviation epochs := (ss_epochs (Metric := udp_statistics) (S := S)).
#[local] Abbreviation slots := (ss_size (Metric := udp_statistics) (S := S)).
#[local] Abbreviation capacity := (tb_size (T := udp_socket_entry) (H := H)).
Context (Hepochs : epochs = n_epochs) (Hslots : slots = capacity).

Implicit Types (C : gmap Z (Z * udp_socket_entry)) (M : Z -> Z -> udp_statistics) (Q : Z -> list Z).

(** A table whose entries were updated in place: same sockets and slots, and a
    socket that was reported stays so. *)
Definition evolved C C' : Prop :=
  (forall k, C !! k = None -> C' !! k = None) /\
  forall k i x, C !! k = Some (i, x) ->
    exists x', C' !! k = Some (i, x') /\ (reported x = true -> reported x' = true) /\ (entry_ok x -> entry_ok x').

Lemma evolved_refl C : evolved C C.
Proof. split; [done|]. eauto. Qed.

Lemma evolved_trans C C1 C2 : evolved C C1 -> evolved C1 C2 -> evolved C C2.
Proof.
  intros [Hn Hs] [Hn1 Hs1]. split; [eauto|]. intros k i x Hk. destruct (Hs k i x Hk) as (x1 & Hk1 & Hr1 & He1).
  destruct (Hs1 k i x1 Hk1) as (x2 & Hk2 & Hr2 & He2). exists x2. split; [done|]. split; eauto.
Qed.

Lemma evolved_insert C (k i : Z) (x x' : udp_socket_entry) :
  C !! k = Some (i, x) -> (reported x = true -> reported x' = true) -> (entry_ok x -> entry_ok x') ->
  evolved C (<[k := (i, x')]> C).
Proof.
  intros Hk Hr He. split.
  - intros j Hj. rewrite lookup_insert_ne; [done|]. congruence.
  - intros j i' y Hj. destruct (decide (k = j)) as [<-|Hne].
    + rewrite Hk in Hj. injection Hj as <- <-. exists x'. by rewrite lookup_insert_eq.
    + exists y. by rewrite lookup_insert_ne.
Qed.

Lemma evolved_back C C' (k i : Z) (x' : udp_socket_entry) :
  evolved C C' -> C' !! k = Some (i, x') -> exists x, C !! k = Some (i, x).
Proof.
  intros [Hn Hs] Hk. destruct (C !! k) as [[j x]|] eqn:Hc; [|rewrite Hn in Hk; done].
  destruct (Hs k j x Hc) as (x'' & Hk' & _). exists x. congruence.
Qed.

Lemma evolved_size C C' : evolved C C' -> size C' = size C.
Proof.
  intros He. rewrite <- !size_dom. f_equal. apply set_eq. intros k. rewrite !elem_of_dom. split; intros [[i x] Hk].
  - destruct (evolved_back _ _ _ _ _ He Hk) as [y Hy]. by eexists.
  - destruct (proj2 He k i x Hk) as (y & Hy & _). by eexists.
Qed.

Definition entries_ok C : Prop := forall k i x, C !! k = Some (i, x) -> entry_ok x.

Lemma evolved_ok C C' : evolved C C' -> entries_ok C -> entries_ok C'.
Proof.
  intros He Hok k i x' Hk. destruct (evolved_back _ _ _ _ _ He Hk) as [x Hx].
  destruct (proj2 He k i x Hx) as (x'' & Hk' & _ & Hok'). rewrite Hk in Hk'. injection Hk' as <-. eauto.
Qed.

(** Every socket in the table is known to the server. *)
Definition all_reported C : Prop := forall k i x, C !! k = Some (i, x) -> reported x = true.

Lemma evolved_reported C C' : evolved C C' -> all_reported C -> all_reported C'.
Proof.
  intros He Hr k i x' Hk. destruct (evolved_back _ _ _ _ _ He Hk) as [x Hx].
  destruct (proj2 He k i x Hx) as (x'' & Hk' & Hx'' & _). rewrite Hk in Hk'. injection Hk' as <-. eauto.
Qed.

(** ** Sending *)

Lemma udp_send_if_valid_spec (s : S) M Q cur (t d k e : Z) (er : result udp_socket_entry) (x : udp_socket_entry) :
  ss_holds s M Q cur -> 0 <= k < slots -> 0 <= e < n_epochs -> 0 <= d < 2 ->
  (valid (M k e) = true -> er = Ok x /\ entry_ok x) ->
  exists s' M' ox out, send_if_valid t d k e er s = Ok (ox, s', out) /\ ss_holds s' M' Q cur /\
    (forall j f, M' j f = upd2 M k e (invalidate (M k e)) j f) /\
    (forall x', ox = Some x' -> valid (M k e) = true /\ entry_ok x' /\ (reported x = true -> reported x' = true)) /\
    forall c i d', total c i d' out = if decide (k = i /\ d = d') then pending_stats c (M k e) else 0.
Proof.
  intros Hs Hk He Hd Hx. unfold send_if_valid. rewrite (ss_metric_spec s M Q cur k e) by (done || lia). cbn [rbind get].
  unfold pending_stats. destruct (valid (M k e)) eqn:Hv.
  - destruct (Hx eq_refl) as [-> Hok]. cbn [rbind].
    destruct (udp_send_stats_spec t k d x (M k e) Hok Hd) as (out & x' & -> & Hok' & _ & Hr & Ht). cbn [rbind].
    destruct (ss_set_metric_spec s M Q cur k e (invalidate (M k e)) Hs Hk) as (s' & -> & Hs'); [lia|]. cbn [get rbind].
    eexists s', _, _, out. split; [done|]. split; [exact Hs'|]. split; [done|]. split; [|done].
    intros x'' [= <-]. split; [done|]. split; [done|]. rewrite Hr. by intros ->.
  - eexists s, M, None, []. split; [done|]. split; [done|]. split; [|split; [done|]].
    + intros j f. unfold upd2. case_decide as Hd'; [|done]. destruct Hd' as [<- <-]. by rewrite udp_invalidate_invalid.
    + intros c i d'. by case_decide.
Qed.

Lemma udp_send_epochs_spec (s : S) M Q cur (t d k : Z) (x : udp_socket_entry) :
  ss_holds s M Q cur -> 0 <= k < slots -> 0 <= d < 2 -> entry_ok x ->
  exists s' M' x' out, send_epochs t d k (seqZ 0 n_epochs) x s = Ok (x', s', out) /\ ss_holds s' M' Q cur /\
    (forall j f, 0 <= f < n_epochs -> M' j f = if decide (k = j) then invalidate (M j f) else M j f) /\
    entry_ok x' /\
    forall c i d', total c i d' out =
      if decide (k = i /\ d = d') then pending_stats c (M k 0) + pending_stats c (M k 1) else 0.
Proof.
  intros Hs Hk Hd Hok. pose proof (ss_cur _ _ _ _ Hs) as Hcur. rewrite Hepochs in Hcur.
  change (seqZ 0 n_epochs) with [0; 1]. cbn [send_epochs].
  rewrite (ss_lookup_relative_spec s M Q cur k 0), Hepochs by (done || (unfold n_epochs in *; lia)). cbn [get rbind].
  assert (He : forall b, 0 <= (b + cur) mod n_epochs < n_epochs) by (intros; apply Z.mod_pos_bound; done).
  destruct (udp_send_if_valid_spec s M Q cur t d k ((0 + cur) mod n_epochs) (Ok x) x Hs Hk (He 0) Hd)
    as (s1 & M1 & ox1 & out1 & -> & Hs1 & HM1 & Hx1 & Ht1); [done|]. cbn [rbind].
  assert (Hok1 : entry_ok (default x ox1)) by (destruct ox1 as [x1|]; [by apply Hx1|done]).
  rewrite (ss_lookup_relative_spec s1 M1 Q cur k 1), Hepochs by (done || (unfold n_epochs in *; lia)). cbn [get rbind].
  assert (Hne : (0 + cur) mod n_epochs <> (1 + cur) mod n_epochs) by (apply mod_neq; unfold n_epochs; lia).
  assert (Hsame : M1 k ((1 + cur) mod n_epochs) = M k ((1 + cur) mod n_epochs)).
  { rewrite HM1. by rewrite upd2_ne by (by right). }
  destruct (udp_send_if_valid_spec s1 M1 Q cur t d k ((1 + cur) mod n_epochs) (Ok (default x ox1)) (default x ox1) Hs1 Hk (He 1) Hd)
    as (s2 & M2 & ox2 & out2 & -> & Hs2 & HM2 & Hx2 & Ht2); [done|]. cbn [rbind].
  eexists s2, M2, _, _. split; [done|]. split; [done|].
  assert (Hcase : cur = 0 \/ cur = 1) by (unfold n_epochs in *; lia). split; [|split].
  - intros j f Hf. rewrite HM2, Hsame. unfold upd2. rewrite HM1. unfold upd2.
    destruct (decide (k = j)) as [<-|Hj].
    + assert (Hf' : f = 0 \/ f = 1) by (unfold n_epochs in *; lia).
      destruct Hcase as [-> | ->], Hf' as [-> | ->];
        repeat (case_decide as Hc; [try (by destruct Hc as [_ Hc])|try (by destruct Hc)]; clear Hc); done.
    + rewrite !decide_False by tauto. done.
  - destruct ox2 as [x2|]; [by apply Hx2|done].
  - intros c i d'. rewrite app_nil_r, total_app, Ht1, Ht2, Hsame. case_decide; [|done].
    destruct Hcase as [-> | ->]; unfold n_epochs; change ((0 + 0) mod 2) with 0; change ((1 + 0) mod 2) with 1;
      change ((0 + 1) mod 2) with 1; change ((1 + 1) mod 2) with 0; lia.
Qed.

Lemma udp_flush_queue_spec (ks : list Z) (fuel : nat) (h : H) C (s : S) M Q cur (t d : Z) :
  ss_holds s M Q cur -> tb_holds h C -> entries_ok C -> Q cur = ks -> (length ks <= fuel)%nat -> 0 <= d < 2 ->
  (forall k, k ∈ ks -> valid (M k cur) = true -> exists sk x, C !! sk = Some (k, x)) ->
  exists h' C' s' M' Q' out, flush_queue fuel t d h s = Ok (h', s', out) /\
    tb_holds h' C' /\ evolved C C' /\ ss_holds s' M' Q' cur /\ Q' cur = [] /\ (forall e, e <> cur -> Q' e = Q e) /\
    (forall j f, M' j f = if decide (f = cur /\ j ∈ ks) then invalidate (M j f) else M j f) /\
    forall c i d', total c i d' out = if decide (d = d' /\ i ∈ ks) then pending_stats c (M i cur) else 0.
Proof.
  revert fuel h C s M Q. induction ks as [|k ks IH]; intros fuel h C s M Q Hs Hh Hok Hq Hfuel Hd Hown.
  { exists h, C, s, M, Q, []. unfold flush_queue. destruct fuel; rewrite (ss_empty_spec s M Q cur Hs), bool_decide_true by done;
      cbn; (split; [done|]; split; [done|]; split; [apply evolved_refl|]; split; [done|]; split; [done|]; split; [done|]; split);
      intros; rewrite decide_False; try done; intros [_ ?%elem_of_nil]; done. }
  destruct fuel as [|fuel]; [cbn in Hfuel; lia|]. cbn [flush_queue].
  rewrite (ss_empty_spec s M Q cur Hs), bool_decide_false by (by rewrite Hq). cbn [get rbind].
  pose proof (ss_cur _ _ _ _ Hs) as Hcur. destruct (ss_queued s M Q cur cur Hs Hcur) as [Hnd Hr].
  rewrite Hq in Hnd, Hr. apply NoDup_cons in Hnd as [Hnk Hnd]. apply Forall_cons in Hr as [Hk _].
  rewrite (proj1 (ss_pop_spec s M Q cur k ks Hs Hq)). cbn [get rbind].
  rewrite (ss_lookup_relative_spec s M Q cur k 0 Hs Hk) by lia. rewrite Z.add_0_l, Z.mod_small by lia. cbn [get rbind].
  assert (exists x, valid (M k cur) = true -> get (tb_at h k) = Ok x /\ exists sk, C !! sk = Some (k, x)) as (x & Hx).
  { destruct (valid (M k cur)) eqn:Hv; [|by exists no_entry]. destruct (Hown k) as (sk & x & Hsk); [left|done|].
    exists x. intros _. rewrite (tb_at_spec h C sk k x Hh Hsk). split; [done|]. by exists sk. }
  destruct (udp_send_if_valid_spec s M Q cur t d k cur (get (tb_at h k)) x Hs Hk) as (s1 & M1 & ox & out1 & -> & Hs1 & HM1 & Hox & Ht1);
    [by rewrite <- Hepochs|done| |].
  { intros Hv. destruct (Hx Hv) as (Hg & sk & Hsk). split; [done|]. by eapply Hok. }
  cbn [rbind].
  assert (exists h1 C1, (match ox with Some entry => get (tb_set_at h k entry) | None => Ok h end) = Ok h1 /\
    tb_holds h1 C1 /\ evolved C C1) as (h1 & C1 & -> & Hh1 & Hev1).
  { destruct ox as [x'|]; [|exists h, C; split_and!; [done|done|apply evolved_refl]].
    destruct (Hox x' eq_refl) as (Hv & Hok' & Hrep). destruct (Hx Hv) as (_ & sk & Hsk).
    destruct (tb_set_at_spec h C sk k x x' Hh Hsk) as (h1 & -> & Hh1). eexists h1, _. split; [done|]. split; [exact Hh1|].
    by apply (evolved_insert C sk k x). }
  cbn [rbind]. destruct (ss_pop_spec s1 M1 Q cur k ks Hs1 Hq) as (_ & s2 & -> & Hs2). cbn [get rbind].
  assert (Hother : forall j, j <> k -> M1 j cur = M j cur).
  { intros j Hj. rewrite HM1. rewrite upd2_ne; [done|]. left. congruence. }
  destruct (IH fuel h1 C1 s2 M1 (upd1 Q cur ks) Hs2 Hh1 (evolved_ok _ _ Hev1 Hok))
    as (h3 & C3 & s3 & M3 & Q3 & out3 & -> & Hh3 & Hev3 & Hs3 & Hq3 & Hqe & HM3 & Ht3);
    [by unfold upd1; rewrite decide_True|cbn in Hfuel; lia|done| |].
  { intros j Hj Hv. rewrite Hother in Hv by (intros ->; done). destruct (Hown j) as (sk & y & Hsk); [by right|done|].
    destruct (proj2 Hev1 sk j y Hsk) as (y' & Hsk' & _). by exists sk, y'. }
  cbn [rbind]. eexists h3, C3, s3, M3, Q3, _. split; [done|]. split; [done|]. split; [by eapply evolved_trans|].
  split; [done|]. split; [done|]. split; [|split].
  - intros e He. rewrite Hqe by done. unfold upd1. by rewrite decide_False.
  - intros j f. rewrite HM3, HM1. destruct (decide (f = cur /\ j ∈ ks)) as [[-> Hj]|Hn].
    + rewrite upd2_ne by (left; intros ->; done). rewrite decide_True; [done|]. split; [done|]. by right.
    + destruct (decide (k = j /\ cur = f)) as [[<- <-]|Hn2].
      * rewrite upd2_eq, decide_True; [done|]. split; [done|left].
      * rewrite upd2_ne by (destruct (decide (k = j)); tauto). rewrite decide_False; [done|].
        intros [-> [->|Hj]%elem_of_cons]; [by apply Hn2|by apply Hn].
  - intros c i d'. rewrite total_app, Ht1, Ht3. destruct (decide (d = d')) as [<-|Hdd].
    + destruct (decide (k = i)) as [<-|Hki].
      * rewrite decide_True by done. rewrite decide_False by tauto. rewrite decide_True by (split; [done|left]). lia.
      * rewrite (decide_False (P := k = i /\ d = d)) by tauto. rewrite Hother by done. destruct (decide (i ∈ ks)) as [Hi|Hi].
        -- rewrite !decide_True; [lia|split; [done|by right]|done].
        -- rewrite !decide_False; [lia| |tauto]. intros [_ [->|?]%elem_of_cons]; done.
    + rewrite !decide_False by tauto. done.
Qed.

End sending.

Section laws.
Context {H S : Type} `{SocketTableLaws udp_socket_entry H} `{StatStoreLaws udp_statistics S}.
#[local] Abbreviation epochs := (ss_epochs (Metric := udp_statistics) (S := S)).
#[local] Abbreviation slots := (ss_size (Metric := udp_statistics) (S := S)).
#[local] Abbreviation capacity := (tb_size (T := udp_socket_entry) (H := H)).
Context (Hepochs : epochs = n_epochs) (Hslots : slots = capacity).

Implicit Types (C : gmap Z (Z * udp_socket_entry)).
Implicit Types (M : Z -> Z -> Z -> udp_statistics) (Q : Z -> Z -> list Z) (cur : Z -> Z).

(** ** Invariant

    [M d], [Q d] and [cur d] are the statistics, the queues and the current epoch of
    direction [d].  Every outstanding DNS request is of a socket in the table, and
    only sockets that the server knows have statistics. *)
Record udp_rep (p : Udp H S) C (M : Z -> Z -> Z -> udp_statistics) (Q : Z -> Z -> list Z) (cur : Z -> Z) : Prop := {
  ur_table : tb_holds (udp_socket_table_ p) C;
  ur_entries : entries_ok C;
  ur_dirs : zlen (udp_socket_stats_ p) = 2;
  ur_stats : forall d, 0 <= d < 2 -> exists s, rd (udp_socket_stats_ p) d = Some s /\ ss_holds s (M d) (Q d) (cur d);
  ur_valid : forall d i e, 0 <= d < 2 -> 0 <= i < slots -> 0 <= e < n_epochs -> valid (M d i e) = true ->
    i ∈ Q d e /\ exists k x, C !! k = Some (i, x) /\ reported x = true;
  ur_dns : DnsRequests.dr_inv (dns_requests_ p);
  ur_req : forall e, e ∈ DnsRequests.dns_requests_ (dns_requests_ p) -> is_Some (C !! DnsRequests.sk e.2.2);
}.

Definition pend (M : Z -> Z -> Z -> udp_statistics) (c : counter) (i d : Z) : Z :=
  pending_stats c (M d i 0) + pending_stats c (M d i 1).

(** What is reported and becomes pending is what was pending and [g]. *)
Definition accounts (M M' : Z -> Z -> Z -> udp_statistics) (out : list message) (g : counter -> Z -> Z -> Z) : Prop :=
  forall c i d, 0 <= i < slots -> 0 <= d < 2 ->
    (total c i d out + pend M' c i d) mod 2 ^ width c = (pend M c i d + g c i d) mod 2 ^ width c.

Definition nothing (c : counter) (i d : Z) : Z := 0.

Lemma accounts_same (M M' : Z -> Z -> Z -> udp_statistics) (out : list message) :
  (forall c i d, total c i d out = 0) -> (forall d i e, 0 <= d < 2 -> 0 <= e < n_epochs -> M' d i e = M d i e) ->
  accounts M M' out nothing.
Proof.
  intros Ht HM c i d Hi Hd. unfold pend. rewrite Ht, !HM by done. unfold nothing. f_equal. lia.
Qed.

(** The same with one store replaced. *)
Lemma replace_store (ss : list S) (M : Z -> Z -> Z -> udp_statistics) (Q : Z -> Z -> list Z) (cur : Z -> Z)
    (d : Z) (s : S) (Md : Z -> Z -> udp_statistics) (Qd : Z -> list Z) (c : Z) :
  zlen ss = 2 -> 0 <= d < 2 -> ss_holds s Md Qd c ->
  (forall d', 0 <= d' < 2 -> exists s', rd ss d' = Some s' /\ ss_holds s' (M d') (Q d') (cur d')) ->
  exists ss', wr ss d s = Some ss' /\ zlen ss' = 2 /\
    forall d', 0 <= d' < 2 -> exists s', rd ss' d' = Some s' /\ ss_holds s' (upd1 M d Md d') (upd1 Q d Qd d') (upd1 cur d c d').
Proof.
  intros Hl Hd Hs Hss. rewrite wr_in_range by lia. eexists. split; [done|]. rewrite zlen_insert. split; [done|].
  intros d' Hd'. assert (Hw : wr ss d s = Some (<[Z.to_nat d := s]> ss)) by (apply wr_in_range; lia).
  rewrite (rd_wr _ _ d d' s Hw). unfold upd1. case_decide; [subst; by eexists|]. by apply Hss.
Qed.

Lemma udp_slot_in (h : H) C (k i : Z) (x : udp_socket_entry) : tb_holds h C -> C !! k = Some (i, x) -> 0 <= i < slots.
Proof. intros Hh Hk. rewrite Hslots. by apply (tb_slot h C k i x). Qed.

(** Entries that only change in place keep the invariant of everything else. *)
Lemma rep_evolved (p p' : Udp H S) C C' M Q cur :
  udp_rep p C M Q cur -> evolved C C' -> tb_holds (udp_socket_table_ p') C' ->
  udp_socket_stats_ p' = udp_socket_stats_ p -> dns_requests_ p' = dns_requests_ p -> udp_rep p' C' M Q cur.
Proof.
  intros [Ht He Hl Hs Hv Hdn Hrq] Hev Ht' Es Ed. constructor; [done|by eapply evolved_ok|by rewrite Es|by rewrite Es| |by rewrite Ed|].
  - intros d i e Hd Hi Hep Hval. destruct (Hv d i e Hd Hi Hep Hval) as (Hq & k & x & Hk & Hr). split; [done|].
    destruct (proj2 Hev k i x Hk) as (x' & Hk' & Hr' & _). exists k, x'. eauto.
  - rewrite Ed. intros e Hin. destruct (Hrq e Hin) as [[i x] Hk]. destruct (proj2 Hev _ i x Hk) as (x' & Hk' & _). by eexists.
Qed.

(** ** New sockets *)

Lemma new_accounts (p : Udp H S) C M Q cur (t : Z) (msg : udp_new_socket_msg) :
  udp_rep p C M Q cur ->
  exists p' out C', handle_udp_new_socket p t msg = Ok (p', out) /\ udp_rep p' C' M Q cur /\ accounts M M out nothing /\
    (n_lport msg <> 0 -> all_reported C -> all_reported C').
Proof.
  intros Hr. pose proof Hr as [Ht He Hl Hs Hv Hdn Hrq]. unfold handle_udp_new_socket.
  rewrite (tb_full_spec _ C Ht). case_bool_decide as Hfull.
  { eexists _, [], C. split; [done|]. split; [by constructor|]. split; [by apply accounts_same|done]. }
  destruct (C !! n_sk msg) as [v|] eqn:Hold.
  { rewrite (tb_insert_old _ C _ no_entry Ht) by eauto. cbn [get rbind]. eexists _, [], C. split; [done|].
    split; [by constructor|]. split; [by apply accounts_same|done]. }
  destruct (tb_insert_new _ C (n_sk msg) no_entry Ht Hfull Hold) as (h & i & -> & Hi & Hfree & Hh). cbn [get rbind].
  set (e0 := mk_entry _ _ _ _ _ _). destruct (udp_send_new_socket_spec t i e0) as (out & e1 & -> & Htot & Had & _ & Hrp).
  destruct (tb_set_spec h _ (n_sk msg) i no_entry e1 Hh (lookup_insert_eq _ _ _)) as (h1 & -> & Hh1).
  rewrite insert_insert_eq in Hh1. cbn [get rbind]. eexists _, out, (<[n_sk msg := (i, e1)]> C). split; [done|]. split; [|split; [by apply accounts_same|]].
  2:{ intros Hlp Hall k j x [[<- [= <- <-]]|[_ Hk]]%lookup_insert_Some; [|by eapply Hall].
      rewrite Hrp. cbn. by apply negb_true_iff, Z.eqb_neq. }
  constructor; cbn; [exact Hh1| |done|done| |done|].
  - intros k j x [[<- [= <- <-]]|[Hne Hk]]%lookup_insert_Some; [|by eapply He]. unfold entry_ok. rewrite Had. exact no_entry_ok.
  - intros d j e Hd Hj Hep Hval. destruct (Hv d j e Hd Hj Hep Hval) as (Hq & k & x & Hk & Hrep). split; [done|].
    exists k, x. rewrite lookup_insert_ne; [done|]. congruence.
  - intros e Hin. destruct (Hrq e Hin) as [[j x] Hk]. exists (j, x). rewrite lookup_insert_ne; [done|]. congruence.
Qed.

(** ** Statistics *)

(** What a message of the probe adds to a slot, and what an address change reports
    a second time: whatever the looked-up statistics hold. *)
Definition gain (p : Udp H S) (msg : udp_stats_msg) (c : counter) (i d : Z) : Z :=
  match tb_find (udp_socket_table_ p) (m_sk msg) with
  | Some (Some (j, _)) => if decide (j = i /\ m_is_rx msg = d) then of_msg c msg else 0
  | _ => 0
  end.

Definition looked_up (p : Udp H S) (t : Z) (msg : udp_stats_msg) (i : Z) : option udp_statistics :=
  s ← rd (udp_socket_stats_ p) (m_is_rx msg);
  '(s, e) ← ss_lookup s i t;
  ss_metric s i e.

Definition stale (p : Udp H S) (t : Z) (msg : udp_stats_msg) (c : counter) (i d : Z) : Z :=
  match tb_find (udp_socket_table_ p) (m_sk msg) with
  | Some (Some (j, _)) =>
      if decide (j = i /\ m_is_rx msg = d /\ m_changed_af msg <> 0)
      then default 0 (of_stats c <$> looked_up p t msg i) else 0
  | _ => 0
  end.

(** The socket of a message is known to the server, or the message makes it so. *)
Definition reporting (nat : NatHandler.NatHandler) (p : Udp H S) (msg : udp_stats_msg) : Prop :=
  match tb_find (udp_socket_table_ p) (m_sk msg) with
  | Some (Some (_, e)) => reported e = true \/ (m_changed_af msg <> 0 /\ new_lport nat msg <> 0)
  | _ => True
  end.

Lemma udp_accumulate_spec (c : counter) (msg : udp_stats_msg) (s : udp_statistics) :
  valid (accumulate msg s) = true /\
  pending_stats c (accumulate msg s) mod 2 ^ width c = (pending_stats c s + of_msg c msg) mod 2 ^ width c.
Proof.
  unfold accumulate, pending_stats. destruct (valid s); cbn [negb valid]; (split; [done|]).
  - destruct c; apply Z.mod_mod; done.
  - by destruct c.
Qed.


(** One entry of the table replaced, one statistic of one direction replaced. *)
Lemma stats_rep (p : Udp H S) C M Q cur (k i d e : Z) (x x' : udp_socket_entry) (h : H) (s : S) (m : udp_statistics)
    (Qd : Z -> list Z) :
  udp_rep p C M Q cur -> 0 <= d < 2 -> 0 <= e < n_epochs -> C !! k = Some (i, x) ->
  entry_ok x' -> reported x' = true ->
  tb_holds h (<[k := (i, x')]> C) -> ss_holds s (upd2 (M d) i e m) Qd (cur d) ->
  i ∈ Qd e -> (forall j f, j ∈ Q d f -> j ∈ Qd f) ->
  exists ss, wr (udp_socket_stats_ p) d s = Some ss /\
    udp_rep (set_store (set_table p h) ss) (<[k := (i, x')]> C) (upd1 M d (upd2 (M d) i e m)) (upd1 Q d Qd) cur.
Proof.
  intros Hr Hd He Hk Hok Hrep Hh Hs Hin Hmono. pose proof Hr as [Ht Hen Hl Hst Hv Hdn Hrq].
  destruct (replace_store _ M Q cur d s _ Qd (cur d) Hl Hd Hs Hst) as (ss & Hw & Hl' & Hst'). exists ss. split; [done|].
  pose proof (evolved_insert C k i x x' Hk (fun _ => Hrep) (fun _ => Hok)) as Hev.
  constructor; cbn [udp_socket_table_ udp_socket_stats_ dns_requests_ set_store set_table];
    [done|by eapply evolved_ok|done| | |done|].
  - intros d' Hd'. destruct (Hst' d' Hd') as (s' & Hs' & Hh'). exists s'. split; [done|]. unfold upd1 in Hh' at 3.
    by case_decide; [subst|].
  - intros d' j f Hd' Hj Hf Hval.
    assert (Hthere : forall k' y, C !! k' = Some (j, y) -> reported y = true ->
      exists k' y, <[k := (i, x')]> C !! k' = Some (j, y) /\ reported y = true).
    { intros k' y Hk' Hy. destruct (proj2 Hev k' j y Hk') as (y' & Hy' & Hyr & _). exists k', y'. eauto. }
    destruct (decide (d = d')) as [<-|Hne].
    + rewrite upd1_eq in Hval. rewrite upd1_eq. destruct (decide (i = j /\ e = f)) as [[<- <-]|Hn].
      * split; [done|]. exists k, x'. split; [apply lookup_insert_eq|done].
      * rewrite upd2_ne in Hval by (destruct (decide (i = j)); tauto).
        destruct (Hv d j f Hd Hj Hf Hval) as (Hq & k' & y & Hk' & Hy). split; [by apply Hmono|by eapply Hthere].
    + rewrite upd1_ne in Hval by done. rewrite upd1_ne by done. destruct (Hv d' j f Hd' Hj Hf Hval) as (Hq & k' & y & Hk' & Hy).
      split; [done|by eapply Hthere].
  - intros r Hr'. destruct (Hrq r Hr') as [[j y] Hk']. destruct (proj2 Hev _ j y Hk') as (y' & Hy' & _). by eexists.
Qed.

(** The effect on the sums of one statistic replaced. *)
Lemma pend_upd M (c : counter) (i d e i' d' : Z) (m : udp_statistics) (g : Z) :
  0 <= e < n_epochs ->
  pending_stats c m mod 2 ^ width c = (pending_stats c (M d i e) + g) mod 2 ^ width c ->
  pend (upd1 M d (upd2 (M d) i e m)) c i' d' mod 2 ^ width c
  = (pend M c i' d' + (if decide (i = i' /\ d = d') then g else 0)) mod 2 ^ width c.
Proof.
  intros He Hm. unfold pend. destruct (decide (d = d')) as [<-|Hd].
  - rewrite upd1_eq. destruct (decide (i = i')) as [<-|Hi].
    + rewrite decide_True by done. assert (Hee : e = 0 \/ e = 1) by (unfold n_epochs in He; lia).
      destruct Hee as [-> | ->]; rewrite upd2_eq, upd2_ne by (by right);
        [rewrite <- Zplus_mod_idemp_l, Hm, Zplus_mod_idemp_l|rewrite <- Zplus_mod_idemp_r, Hm, Zplus_mod_idemp_r];
        f_equal; lia.
    + rewrite decide_False by tauto. rewrite !upd2_ne by (by left). f_equal. lia.
  - rewrite decide_False by tauto. rewrite !upd1_ne by done. f_equal. lia.
Qed.

Lemma stats_accounts (nat : NatHandler.NatHandler) (p : Udp H S) C M Q cur (t : Z) (msg : udp_stats_msg) :
  udp_rep p C M Q cur -> msg_ok msg -> reporting nat p msg ->
  exists p' out C' M' Q', handle_udp_stats nat p t msg = Ok (p', out) /\ udp_rep p' C' M' Q' cur /\
    accounts M M' out (fun c i d => gain p msg c i d + stale p t msg c i d) /\ (all_reported C -> all_reported C').
Proof.
  intros Hr Hmsg Hrep. pose proof Hr as [Ht Hen Hl Hst Hv Hdn Hrq]. pose proof Hmsg as (Hd & _).
  unfold handle_udp_stats, reporting, accounts, gain, stale in *. rewrite (tb_find_spec _ C _ Ht) in *. cbn [get rbind].
  destruct (C !! m_sk msg) as [[i x]|] eqn:Hk.
  2:{ exists p, [], C, M, Q. split; [done|]. split; [done|]. split; [|done]. intros c i d Hi _. cbn. f_equal. lia. }
  pose proof (udp_slot_in _ _ _ _ _ Ht Hk) as Hi. destruct (Hst _ Hd) as (s & Hs & Hss). unfold looked_up. rewrite Hs.
  cbn [get rbind mbind option_bind].
  destruct (ss_lookup_enqueues s _ _ _ i t Hss Hi) as (s1 & e & Q1 & Hlook & He & Hs1 & Hin & Hmono).
  rewrite Hlook. cbn [get rbind]. rewrite (ss_metric_spec s1 _ _ _ i e Hs1 Hi He). cbn [get rbind].
  set (m := M (m_is_rx msg) i e).
  assert (exists out x' m1, (if negb (m_changed_af msg =? 0) then change_address nat t i x m msg else Ok ([], x, m))
      = Ok (out, x', m1) /\ entry_ok x' /\ reported x' = true /\
    forall c i' d', total c i' d' out + (if decide (i = i' /\ m_is_rx msg = d') then pending_stats c m1 - pending_stats c m else 0)
      = if decide (i = i' /\ m_is_rx msg = d' /\ m_changed_af msg <> 0) then of_stats c m else 0)
    as (out & x' & m1 & -> & Hok' & Hrep' & Hsum).
  { pose proof (Hen _ _ _ Hk) as Hok. destruct (Z.eqb_spec (m_changed_af msg) 0) as [Haf|Haf]; cbn [negb].
    - eexists _, _, _. split; [done|]. split; [done|]. split; [by destruct Hrep as [?|[? ?]]|]. intros c i' d'. cbn.
      rewrite (decide_False (P := i = i' /\ m_is_rx msg = d' /\ _)) by tauto. case_decide; lia.
    - destruct (change_address_spec nat t i x m msg Hok Hmsg) as (out & x' & -> & Hok' & Hrp & Htot).
      eexists _, _, _. split; [done|]. split; [done|]. split; [apply Hrp; tauto|]. intros c i' d'. rewrite Htot.
      destruct (decide (i = i')), (decide (m_is_rx msg = d'));
        [rewrite !decide_True by done|rewrite !decide_False by tauto..]; [|done..]. cbn. lia. }
  cbn [rbind]. rewrite Hepochs in He.
  destruct (ss_set_metric_spec s1 _ _ _ i e (accumulate msg m1) Hs1 Hi) as (s2 & -> & Hs2); [by rewrite Hepochs|].
  cbn [get rbind]. destruct (tb_set_spec _ C (m_sk msg) i x x' Ht Hk) as (h & -> & Hh). cbn [get rbind].
  destruct (stats_rep p C M Q cur (m_sk msg) i _ e x x' h s2 (accumulate msg m1) Q1 Hr Hd He Hk Hok' Hrep' Hh Hs2 Hin Hmono)
    as (ss & -> & Hr'). cbn [get rbind]. eexists _, out, _, _, _. split; [done|]. split; [exact Hr'|]. split.
  2:{ intros Hall k j y [[<- [= <- <-]]|[_ Hy]]%lookup_insert_Some; [done|by eapply Hall]. }
  intros c i' d' _ _. specialize (Hsum c i' d').
  rewrite <- Zplus_mod_idemp_r, (pend_upd M c i _ e i' d' (accumulate msg m1) (pending_stats c m1 - pending_stats c m + of_msg c msg) He).
  - rewrite Zplus_mod_idemp_r. f_equal. cbn [mret option_ret].
    revert Hsum. destruct (decide (i = i' /\ m_is_rx msg = d')) as [[<- <-]|Hn]; intros Hsum.
    + fold m. destruct (decide (m_changed_af msg = 0)) as [Haf|Haf].
      * rewrite (decide_False (P := _ /\ _ /\ _)) in Hsum by tauto.
        rewrite (decide_False (P := i = i /\ _ = _ /\ _)) by tauto. lia.
      * rewrite (decide_True (P := i = i /\ _ /\ _)) in Hsum by done.
        rewrite (decide_True (P := i = i /\ _ = _ /\ _)) by done.
        rewrite Hlook. cbn [mbind option_bind]. rewrite (ss_metric_spec s1 _ _ _ i e Hs1 Hi) by (by rewrite Hepochs).
        cbn [fmap option_fmap option_map default id]. fold m. lia.
    + rewrite !(decide_False (P := i = i' /\ _ = d' /\ _)) in * by tauto. lia.
  - destruct (udp_accumulate_spec c msg m1) as [_ ->]. f_equal. fold m. lia.
Qed.

Lemma accounts_trans M M1 M2 (out1 out2 : list message) (g1 g2 : counter -> Z -> Z -> Z) :
  accounts M M1 out1 g1 -> accounts M1 M2 out2 g2 ->
  accounts M M2 (out1 ++ out2) (fun c i d => g1 c i d + g2 c i d).
Proof.
  intros H1' H2' c i d Hi Hd. specialize (H1' c i d Hi Hd). specialize (H2' c i d Hi Hd). rewrite total_app.
  rewrite <- Z.add_assoc, <- Zplus_mod_idemp_r, H2', Zplus_mod_idemp_r, Z.add_assoc.
  rewrite <- Zplus_mod_idemp_l, H1', Zplus_mod_idemp_l. f_equal. lia.
Qed.

Lemma accounts_ext M M' (out : list message) (g g' : counter -> Z -> Z -> Z) :
  (forall c i d, g c i d = g' c i d) -> accounts M M' out g -> accounts M M' out g'.
Proof. intros He Ha c i d Hi Hd. rewrite <- He. by apply Ha. Qed.

(** ** The end of an epoch *)

Lemma flush_one (max : Z) (p : Udp H S) C M Q cur (t d : Z) (s : S) :
  udp_rep p C M Q cur -> slots = max -> 0 <= d < 2 -> rd (udp_socket_stats_ p) d = Some s ->
  exists h C' s' Md Qd c' out,
    flush_queue (Z.to_nat max) t d (udp_socket_table_ p) (ss_relative_timeslot s t).1 = Ok (h, s', out) /\
    tb_holds h C' /\ evolved C C' /\ ss_holds (ss_advance s') Md Qd c' /\
    (forall i e, 0 <= i < slots -> 0 <= e < n_epochs -> valid (Md i e) = true ->
      valid (M d i e) = true /\ (i ∈ Q d e -> i ∈ Qd e)) /\
    forall c i d', 0 <= i < slots -> 0 <= d' < 2 ->
      total c i d' out + pend (upd1 M d Md) c i d' = pend M c i d'.
Proof.
  intros Hr Hmax Hd Hs. pose proof Hr as [Ht Hen Hl Hst Hv Hdn Hrq]. destruct (Hst d Hd) as (s0 & Hs0 & Hss).
  rewrite Hs in Hs0. injection Hs0 as <-. pose proof (ss_cur _ _ _ _ Hss) as Hcur.
  pose proof (ss_relative_timeslot_spec _ _ _ _ t Hss) as Hss1.
  destruct (ss_queued _ _ _ _ _ Hss Hcur) as [_ Hrange]. rewrite Forall_forall in Hrange.
  destruct (udp_flush_queue_spec Hepochs (Q d (cur d)) (Z.to_nat max) (udp_socket_table_ p) C _ (M d) (Q d) (cur d) t d Hss1 Ht Hen)
    as (h & C' & s' & M' & Q' & out & E & Hh & Hev & Hs' & Hq & Hqe & HM & Htot); [done| |done| |].
  { pose proof (ss_queue_length _ _ _ _ _ Hss Hcur). lia. }
  { intros k Hk Hval. rewrite Hepochs in Hcur. destruct (Hv d k (cur d) Hd (Hrange k Hk) Hcur Hval) as (_ & k' & x & Hk' & _). eauto. }
  assert (Hinv : forall i e, 0 <= i < slots -> 0 <= e < n_epochs -> valid (M' i e) = true -> e <> cur d /\ valid (M d i e) = true).
  { intros i e Hi He. rewrite HM. case_decide as Hc; [done|]. intros Hval. split; [|done]. intros ->. apply Hc. split; [done|].
    by destruct (Hv d i (cur d) Hd Hi He Hval). }
  eexists h, C', s', M', Q', _, out. split; [done|]. split; [done|]. split; [done|].
  split; [exact (ss_advance_spec _ _ _ _ Hs')|]. split.
  - intros i e Hi He Hval. destruct (Hinv i e Hi He Hval) as [Hne Hval']. by rewrite Hqe.
  - intros c i d' Hi Hd'. rewrite Htot. unfold pend. destruct (decide (d = d')) as [<-|Hne].
    2:{ rewrite decide_False by tauto. rewrite upd1_ne by done. lia. }
    rewrite upd1_eq. rewrite Hepochs in Hcur.
    assert (Hz : forall e, 0 <= e < n_epochs -> pending_stats c (M' i e) = if decide (e = cur d) then 0 else pending_stats c (M d i e)).
    { intros e He. unfold pending_stats at 1. destruct (valid (M' i e)) eqn:Hval.
      - destruct (Hinv i e Hi He Hval) as [Hec Hval']. rewrite decide_False by done. unfold pending_stats.
        rewrite Hval', HM, decide_False by tauto. done.
      - case_decide as Hc; [done|]. rewrite HM, decide_False in Hval by tauto. unfold pending_stats. by rewrite Hval. }
    assert (Hq0 : (if decide (d = d /\ i ∈ Q d (cur d)) then pending_stats c (M d i (cur d)) else 0) = pending_stats c (M d i (cur d))).
    { case_decide as Hc; [done|]. unfold pending_stats. destruct (valid (M d i (cur d))) eqn:Hval; [|done]. exfalso.
      apply Hc. split; [done|]. by destruct (Hv d i (cur d) Hd Hi Hcur Hval). }
    rewrite Hq0, !Hz by done. assert (Hc : cur d = 0 \/ cur d = 1) by (unfold n_epochs in *; lia).
    destruct Hc as [-> | ->]; [rewrite (decide_True (P := 0 = 0)), decide_False by done
      |rewrite (decide_True (P := 1 = 1)), decide_False by done]; lia.
Qed.

Lemma flush_directions_spec (max : Z) (dirs : list Z) (p : Udp H S) C M Q cur (t : Z) :
  udp_rep p C M Q cur -> slots = max -> Forall (fun d => 0 <= d < 2) dirs ->
  exists h ss out C' M' Q' cur',
    flush_directions max t dirs (udp_socket_table_ p) (udp_socket_stats_ p) = Ok (h, ss, out) /\
    udp_rep (set_store (set_table p h) ss) C' M' Q' cur' /\ accounts M M' out nothing /\ evolved C C'.
Proof.
  intros Hr Hmax Hdirs. revert p C M Q cur Hr. induction Hdirs as [|d dirs Hd _ IH]; intros p C M Q cur Hr.
  { eexists _, _, [], C, M, Q, cur. split; [done|]. split; [by destruct p|]. split; [by apply accounts_same|apply evolved_refl]. }
  pose proof Hr as [Ht Hen Hl Hst Hv Hdn Hrq]. destruct (Hst d Hd) as (s & Hs & Hss). cbn [flush_directions].
  rewrite Hs. cbn [get rbind]. destruct (ss_relative_timeslot s t) as [s1 rel] eqn:Hrel.
  assert (exists h C1 s2 Md Qd c1 out1,
      (if rel =? 0 then Ok (udp_socket_table_ p, s1, [])
       else let* (h, s, out) := flush_queue (Z.to_nat max) t d (udp_socket_table_ p) s1 in Ok (h, ss_advance s, out))
      = Ok (h, s2, out1) /\ tb_holds h C1 /\ evolved C C1 /\ ss_holds s2 Md Qd c1 /\
      (forall i e, 0 <= i < slots -> 0 <= e < n_epochs -> valid (Md i e) = true ->
        valid (M d i e) = true /\ (i ∈ Q d e -> i ∈ Qd e)) /\
      forall c i d', 0 <= i < slots -> 0 <= d' < 2 -> total c i d' out1 + pend (upd1 M d Md) c i d' = pend M c i d')
    as (h & C1 & s2 & Md & Qd & c1 & out1 & -> & Hh & Hev & Hs2 & Hval & Htot).
  { destruct (Z.eqb_spec rel 0).
    - pose proof (ss_relative_timeslot_spec _ _ _ _ t Hss) as Hss1. rewrite Hrel in Hss1.
      eexists _, C, _, (M d), (Q d), (cur d), []. split; [done|]. split; [done|]. split; [apply evolved_refl|].
      split; [exact Hss1|]. split; [done|]. intros c i d' _ _. unfold pend, upd1. by case_decide; subst.
    - destruct (flush_one max p C M Q cur t d s Hr Hmax Hd Hs) as (h & C' & s' & Md & Qd & c' & out & E & ? & ? & ? & ? & ?).
      rewrite Hrel in E. cbn [fst] in E. rewrite E. cbn [rbind]. by eexists _, _, _, _, _, _, _. }
  cbn [rbind]. destruct (replace_store _ M Q cur d s2 Md Qd c1 Hl Hd Hs2 Hst) as (ss & -> & Hl' & Hst'). cbn [get rbind].
  destruct (IH (set_store (set_table p h) ss) C1 (upd1 M d Md) (upd1 Q d Qd) (upd1 cur d c1))
    as (h2 & ss2 & out2 & C2 & M2 & Q2 & cur2 & E & Hr2 & Ha2 & Hev2).
  - constructor; cbn [udp_socket_table_ udp_socket_stats_ dns_requests_ set_store set_table];
      [done|by eapply evolved_ok|done|done| |done|].
    + intros d' i e Hd' Hi He Hvl.
      assert (Hthere : forall k x, C !! k = Some (i, x) -> reported x = true -> exists k x, C1 !! k = Some (i, x) /\ reported x = true).
      { intros k x Hk Hx. destruct (proj2 Hev k i x Hk) as (x' & Hk' & Hx' & _). eauto. }
      destruct (decide (d = d')) as [<-|Hne].
      * rewrite upd1_eq in Hvl. rewrite upd1_eq. destruct (Hval i e Hi He Hvl) as [Hvl' Hq].
        destruct (Hv d i e Hd Hi He Hvl') as (Hin & k & x & Hk & Hx). split; [by apply Hq|by eapply Hthere].
      * rewrite upd1_ne in Hvl by done. rewrite upd1_ne by done.
        destruct (Hv d' i e Hd' Hi He Hvl) as (Hin & k & x & Hk & Hx). split; [done|by eapply Hthere].
    + intros r Hin. destruct (Hrq r Hin) as [[i x] Hk]. destruct (proj2 Hev _ i x Hk) as (x' & Hk' & _). by eexists.
  - cbn [udp_socket_table_ udp_socket_stats_ set_store set_table] in E. rewrite E. cbn [rbind].
    eexists _, _, _, C2, M2, Q2, cur2. split; [done|]. split; [exact Hr2|]. split; [|by eapply evolved_trans].
    eapply accounts_ext; [|eapply accounts_trans; [|exact Ha2]].
    { intros c i d'. unfold nothing. apply Z.add_0_r. }
    intros c i d' Hi Hd'. rewrite (Htot c i d' Hi Hd'). f_equal. unfold nothing. lia.
Qed.

Lemma tick_accounts (max : Z) (p : Udp H S) C M Q cur (t : Z) :
  udp_rep p C M Q cur -> slots = max ->
  exists p' out C' M' Q' cur', udp_send_stats_from_queue max p t = Ok (p', out) /\
    udp_rep p' C' M' Q' cur' /\ accounts M M' out nothing /\ evolved C C'.
Proof.
  intros Hr Hmax. unfold udp_send_stats_from_queue.
  destruct (flush_directions_spec max [0; 1] p C M Q cur t Hr Hmax) as (h & ss & out & C' & M' & Q' & cur' & -> & Hr' & Ha).
  { repeat constructor; lia. }
  cbn [rbind]. by eexists _, _, C', M', Q', cur'.
Qed.

(** ** Timeouts of DNS requests *)

#[local] Abbreviation request := (DnsRequests.dns_request_key * DnsRequests.dns_request_value)%type.

(** What the server is told of one request. *)
Definition timeouts C (t : Z) (r : request) : list message :=
  match C !! DnsRequests.sk r.2 with
  | None => []
  | Some (sk_id, _) =>
      [dns_timeout t sk_id (zlen (DnsRequests.name r.1)) (truncate (DnsRequests.name r.1))
         (u64 (t - DnsRequests.timestamp_ns r.2))]
  end.

Lemma total_timeouts C (t : Z) (rs : list request) (c : counter) (i d : Z) :
  total c i d (concat (timeouts C t <$> rs)) = 0.
Proof.
  induction rs as [|r rs IH]; [done|]. cbn [fmap list_fmap concat]. rewrite total_app, IH. unfold timeouts.
  by destruct (C !! _) as [[??]|].
Qed.

Lemma timeout_all_eq (reqs : list DnsRequests.Request) (p : Udp H S) C (t : Z) rs (d : DnsRequests.DnsRequests) :
  tb_holds (udp_socket_table_ p) C -> DnsRequests.dr_inv (dns_requests_ p) -> NoDup reqs ->
  DnsRequests.deref (dns_requests_ p) reqs = Some rs -> DnsRequests.remove_each (dns_requests_ p) reqs = Some d ->
  timeout_all p t reqs = Ok (set_dns p d, concat (timeouts C t <$> rs)).
Proof.
  revert p rs. induction reqs as [|r reqs IH]; intros p rs Ht Hinv Hnd Hrs Hrm.
  { cbn in Hrs, Hrm. injection Hrs as <-. injection Hrm as <-. by destruct p. }
  apply NoDup_cons in Hnd as [Hnr Hnd]. apply mapM_Some in Hrs.
  apply Forall2_cons_inv_l in Hrs as ([k v] & rs' & Hr & Hrs' & ->).
  assert (Hin : r ∈ (DnsRequests.dns_requests_ (dns_requests_ p)).*1).
  { apply DnsRequests.node_Some in Hr; [|apply (DnsRequests.dr_nodup _ Hinv)]. apply list_elem_of_fmap. by exists (r, (k, v)). }
  destruct (DnsRequests.dr_remove_spec _ r Hinv Hin) as (d1 & Hd1 & Hinv1 & Hl1).
  cbn [DnsRequests.remove_each] in Hrm. rewrite Hd1 in Hrm. cbn [mbind option_bind] in Hrm.
  cbn [timeout_all]. unfold timeout_dns_request. rewrite Hr. cbn [get rbind]. rewrite (tb_find_spec _ C _ Ht). cbn [get rbind].
  rewrite Hd1. cbn [get rbind]. rewrite (IH (set_dns p d1) rs' Ht Hinv1 Hnd); [| |done].
  - cbn [rbind fmap list_fmap concat]. unfold timeouts. cbn [fst snd].
    by destruct (C !! _) as [[??]|].
  - unfold DnsRequests.deref. cbn [dns_requests_ set_dns]. apply mapM_Some.
    pose proof (Forall2_length _ _ _ Hrs') as Hlen. apply Forall2_same_length_lookup_2; [done|].
    intros n r' kv Hn Hkv. pose proof (Forall2_lookup_lr _ _ _ _ _ _ Hrs' Hn Hkv) as Hnode.
    apply DnsRequests.node_Some in Hnode; [|apply (DnsRequests.dr_nodup _ Hinv)].
    apply DnsRequests.node_Some; [apply (DnsRequests.dr_nodup _ Hinv1)|]. rewrite Hl1. apply list_elem_of_filter.
    split; [|done]. cbn. intros ->. apply Hnr. by eapply list_elem_of_lookup_2.
Qed.

(** The requests a property selects are timed out, in the order they were given, and
    nothing else changes. *)
Lemma timeout_selected (P : request -> Prop) `{forall x, Decision (P x)} (p : Udp H S) C M Q cur (t : Z) reqs :
  udp_rep p C M Q cur ->
  reqs ≡ₚ (filter (fun e => P e.2) (DnsRequests.dns_requests_ (dns_requests_ p))).*1 ->
  exists rs d, timeout_all p t reqs = Ok (set_dns p d, concat (timeouts C t <$> rs)) /\
    rs ≡ₚ filter P (DnsRequests.dns_requests_ (dns_requests_ p)).*2 /\
    udp_rep (set_dns p d) C M Q cur /\
    (DnsRequests.dns_requests_ d).*2 = filter (fun e => ~ P e) (DnsRequests.dns_requests_ (dns_requests_ p)).*2.
Proof.
  intros [Ht Hen Hl Hst Hv Hdn Hrq] Hreqs.
  destruct (DnsRequests.take_spec (dns_requests_ p) P reqs Hdn Hreqs) as (rs & d & Hde & Hrs & Hre & Hd & Hl').
  exists rs, d. split; [|split; [done|split; [constructor; try done|done]]].
  - apply timeout_all_eq; [done|done| |done|done]. rewrite Hreqs.
    apply DnsRequests.nodup_filter_nodes, (DnsRequests.dr_nodup _ Hdn).
  - cbn. intros [r kv] He. assert (Hin : kv ∈ (DnsRequests.dns_requests_ d).*2) by (apply list_elem_of_fmap; by exists (r, kv)).
    rewrite Hl' in Hin. apply list_elem_of_filter in Hin as [_ ([r' kv'] & -> & Hin)%list_elem_of_fmap]. by apply (Hrq (r', kv')).
Qed.

Lemma timeout_socket (p : Udp H S) C M Q cur (t sk : Z) :
  udp_rep p C M Q cur ->
  exists rs d, timeout_all p t (DnsRequests.lookup_socket (dns_requests_ p) sk) = Ok (set_dns p d, concat (timeouts C t <$> rs)) /\
    rs ≡ₚ filter (fun r => DnsRequests.sk r.2 = sk) (DnsRequests.dns_requests_ (dns_requests_ p)).*2 /\
    udp_rep (set_dns p d) C M Q cur /\
    (DnsRequests.dns_requests_ d).*2
      = filter (fun r => DnsRequests.sk r.2 <> sk) (DnsRequests.dns_requests_ (dns_requests_ p)).*2.
Proof.
  intros Hr. apply (timeout_selected (fun r => DnsRequests.sk r.2 = sk) p C M Q cur t _ Hr).
  apply DnsRequests.lookup_socket_perm, (ur_dns _ _ _ _ _ Hr).
Qed.

(** ** The end of a socket *)

Lemma send_directions_spec (dirs : list Z) (ss : list S) M Q cur (t i : Z) (x : udp_socket_entry) :
  NoDup dirs -> Forall (fun d => 0 <= d < 2) dirs -> zlen ss = 2 ->
  (forall d, 0 <= d < 2 -> exists s, rd ss d = Some s /\ ss_holds s (M d) (Q d) (cur d)) ->
  0 <= i < slots -> entry_ok x ->
  exists x' ss' M' out, send_directions t i dirs x ss = Ok (x', ss', out) /\ zlen ss' = 2 /\
    (forall d, 0 <= d < 2 -> exists s, rd ss' d = Some s /\ ss_holds s (M' d) (Q d) (cur d)) /\
    (forall d j f, 0 <= f < n_epochs -> M' d j f = if decide (i = j /\ d ∈ dirs) then invalidate (M d j f) else M d j f) /\
    forall c j d, total c j d out = if decide (i = j /\ d ∈ dirs) then pend M c i d else 0.
Proof.
  intros Hnd Hdirs. revert ss M x. induction Hdirs as [|d dirs Hd _ IH]; intros ss M x Hl Hst Hi Hx.
  { eexists _, _, M, []. split; [done|]. split; [done|]. split; [done|]. split; intros; rewrite decide_False; try done;
      by intros [_ ?%elem_of_nil]. }
  apply NoDup_cons in Hnd as [Hnd' Hnd]. destruct (Hst d Hd) as (s & Hs & Hss). cbn [send_directions]. rewrite Hs. cbn [get rbind].
  destruct (udp_send_epochs_spec Hepochs s _ _ _ t d i x Hss Hi Hd Hx) as (s1 & M1 & x1 & out1 & -> & Hs1 & HM1 & Hx1 & Ht1).
  cbn [rbind]. destruct (replace_store ss M Q cur d s1 M1 (Q d) (cur d) Hl Hd Hs1 Hst) as (ss1 & -> & Hl1 & Hst1). cbn [get rbind].
  destruct (IH Hnd ss1 (upd1 M d M1) x1) as (x2 & ss2 & M2 & out2 & -> & Hl2 & Hst2 & HM2 & Ht2); [done| |done|done|].
  { intros d' Hd'. destruct (Hst1 d' Hd') as (s' & Hs' & Hh'). exists s'. split; [done|]. revert Hh'. unfold upd1.
    by case_decide; [subst|]. }
  cbn [rbind]. eexists _, _, M2, _. split; [done|]. split; [done|]. split; [done|]. split.
  - intros d' j f Hf. rewrite HM2 by done. destruct (decide (d = d')) as [<-|Hne].
    + rewrite decide_False by tauto. rewrite upd1_eq, HM1 by done. destruct (decide (i = j)) as [<-|Hij].
      * rewrite decide_True; [done|]. split; [done|left].
      * rewrite decide_False; [done|]. tauto.
    + rewrite upd1_ne by done. destruct (decide (i = j /\ d' ∈ dirs)) as [Hc|Hc].
      * rewrite decide_True; [done|]. split; [tauto|right; tauto].
      * rewrite decide_False; [done|]. intros [? [?|?]%elem_of_cons]; [by subst|tauto].
  - intros c j d'. rewrite total_app, Ht1, Ht2. unfold pend. destruct (decide (d = d')) as [<-|Hne].
    + rewrite (decide_False (P := i = j /\ d ∈ dirs)) by tauto. destruct (decide (i = j)) as [<-|Hij].
      * rewrite (decide_True (P := i = i /\ d = d)) by done. rewrite decide_True; [lia|]. split; [done|left].
      * rewrite !decide_False by tauto. done.
    + rewrite (decide_False (P := i = j /\ d = d')) by tauto. rewrite upd1_ne by done.
      destruct (decide (i = j /\ d' ∈ dirs)) as [Hc|Hc].
      * rewrite decide_True; [done|]. split; [tauto|right; tauto].
      * rewrite decide_False; [done|]. intros [? [?|?]%elem_of_cons]; [by subst|tauto].
Qed.

(** A socket that leaves the table, once its slot has no valid statistics and it
    has no requests. *)
Lemma rep_erase (p : Udp H S) C M M' Q cur (sk i : Z) (x : udp_socket_entry) (h : H) (ss : list S) :
  udp_rep p C M Q cur -> C !! sk = Some (i, x) -> tb_holds h (delete sk C) -> zlen ss = 2 ->
  (forall d, 0 <= d < 2 -> exists s, rd ss d = Some s /\ ss_holds s (M' d) (Q d) (cur d)) ->
  (forall d j f, 0 <= d < 2 -> 0 <= f < n_epochs -> valid (M' d j f) = true -> j <> i /\ valid (M d j f) = true) ->
  (forall r, r ∈ (DnsRequests.dns_requests_ (dns_requests_ p)).*2 -> DnsRequests.sk r.2 <> sk) ->
  udp_rep (set_store (set_table p h) ss) (delete sk C) M' Q cur.
Proof.
  intros [Ht Hen Hl Hst Hv Hdn Hrq] Hk Hh Hl' Hst' HM Hno.
  constructor; cbn [udp_socket_table_ udp_socket_stats_ dns_requests_ set_store set_table]; [done| |done|done| |done|].
  - intros k j y [_ Hy]%lookup_delete_Some. by eapply Hen.
  - intros d j f Hd Hj Hf Hval. destruct (HM d j f Hd Hf Hval) as [Hne Hval'].
    destruct (Hv d j f Hd Hj Hf Hval') as (Hq & k & y & Hy & Hrep). split; [done|]. exists k, y. split; [|done].
    apply lookup_delete_Some. split; [|done]. congruence.
  - intros r Hin. destruct (Hrq r Hin) as [v Hv']. exists v. apply lookup_delete_Some. split; [|done].
    intros Heq. eapply Hno; [|symmetry; exact Heq]. apply list_elem_of_fmap. by exists r.
Qed.

Lemma destroy_accounts (p : Udp H S) C M Q cur (t sk : Z) :
  udp_rep p C M Q cur ->
  exists p' out C' M', handle_udp_destroy_socket p t sk = Ok (p', out) /\ udp_rep p' C' M' Q cur /\ accounts M M' out nothing /\
    (all_reported C -> all_reported C').
Proof.
  intros Hr. pose proof Hr as [Ht Hen Hl Hst Hv Hdn Hrq]. unfold handle_udp_destroy_socket.
  assert (Hdel : all_reported C -> all_reported (delete sk C)) by (intros Hall k j y [_ Hy]%lookup_delete_Some; by eapply Hall).
  rewrite (tb_find_spec _ C _ Ht). cbn [get rbind]. destruct (C !! sk) as [[i x]|] eqn:Hk.
  2:{ exists p, [], C, M. split; [done|]. split; [done|]. split; [by apply accounts_same|done]. }
  destruct (timeout_socket p C M Q cur t sk Hr) as (rs & d & -> & _ & Hr1 & Hleft). cbn [rbind].
  destruct (tb_erase_spec _ C sk _ Ht Hk) as (h & Her & Hh). pose proof (udp_slot_in _ _ _ _ _ Ht Hk) as Hi.
  assert (Hno : forall r, r ∈ (DnsRequests.dns_requests_ (dns_requests_ (set_dns p d))).*2 -> DnsRequests.sk r.2 <> sk).
  { intros r Hin. cbn in Hin. rewrite Hleft in Hin. by apply list_elem_of_filter in Hin as [? _]. }
  cbn [udp_socket_stats_ udp_socket_table_ set_dns]. destruct (reported x) eqn:Hrep.
  - destruct (send_directions_spec [0; 1] (udp_socket_stats_ p) M Q cur t i x) as (x' & ss & M' & out & -> & Hl' & Hst' & HM & Htot); try done.
    { by apply (bool_decide_unpack (NoDup [0; 1])). } { repeat constructor; lia. } { by eapply Hen. }
    cbn [rbind]. rewrite Her. cbn [get rbind]. eexists _, _, _, M'. split; [done|]. split; [|split; [|exact Hdel]].
    + eapply rep_erase; [exact Hr1|done|done|done|done| |done]. intros d' j f Hd' Hf. rewrite HM by done.
      assert (Hin : d' ∈ [0; 1]) by (rewrite !elem_of_cons; lia).
      case_decide as Hc; [done|]. intros Hval. split; [|done]. intros ->. tauto.
    + intros c j d' Hj Hd'. rewrite !total_app, total_timeouts, Htot. unfold pend, nothing. cbn. rewrite !HM by done.
      assert (Hin : d' ∈ [0; 1]) by (rewrite !elem_of_cons; lia). f_equal.
      destruct (decide (i = j)) as [<-|Hij]; [rewrite !decide_True by done|rewrite !decide_False by tauto]; [|lia].
      unfold pending_stats at 3 4. cbn. lia.
  - cbn [rbind]. rewrite Her. cbn [get rbind]. eexists _, _, _, M. split; [done|]. split; [|split; [|exact Hdel]].
    + eapply rep_erase; [exact Hr1|done|done|done|done| |done]. intros d' j f Hd' Hf Hval. split; [|done]. intros ->.
      destruct (Hv d' i f Hd' Hi Hf Hval) as (_ & k & y & Hy & Hyr). pose proof (tb_inj _ _ _ _ _ _ _ Ht Hk Hy) as <-.
      rewrite Hk in Hy. congruence.
    + apply accounts_same; [|done]. intros. rewrite total_app, total_timeouts. done.
Qed.

(** ** DNS packets *)

Context `{!Dns.AresDns, !Dns.AresDnsLaws} `{!DnsRequests.MultimapOrder}.

(** What the server is told of one request that a reply answers. *)
Definition answered (t sk_id client_server : Z) (answer : option (list Z * list (list Z) * list (list Z)))
    (r : request) : list message :=
  match answer with
  | None => []
  | Some (name, ipv4, ipv6) =>
      [dns_response t sk_id (zlen name) (truncate name) ipv4 ipv6 (u64 (t - DnsRequests.timestamp_ns r.2)) client_server]
  end.

Lemma total_answered (t sk_id cs : Z) answer (rs : list request) (c : counter) (i d : Z) :
  total c i d (concat (answered t sk_id cs answer <$> rs)) = 0.
Proof.
  induction rs as [|r rs IH]; [done|]. cbn [fmap list_fmap concat]. rewrite total_app, IH. unfold answered.
  by destruct answer as [[[??]?]|].
Qed.

Lemma answer_requests_eq (reqs : list DnsRequests.Request) (p : Udp H S) C (t sk sk_id cs : Z) answer rs :
  tb_holds (udp_socket_table_ p) C -> is_Some (C !! sk) -> (forall r, r ∈ rs -> is_Some (C !! DnsRequests.sk r.2)) ->
  DnsRequests.deref (dns_requests_ p) reqs = Some rs ->
  answer_requests p t sk sk_id cs answer reqs = Ok (concat (answered t sk_id cs answer <$> rs)).
Proof.
  intros Ht [[j x] Hsk] Hrs Hde. apply mapM_Some in Hde. induction Hde as [|req [k v] reqs rs Hn _ IH]; [done|].
  cbn [answer_requests]. rewrite Hn. cbn [get rbind]. rewrite IH by (intros; apply Hrs; by right).
  destruct (Hrs (k, v) ltac:(left)) as [[j' x'] Hsk']. cbn [snd] in Hsk'.
  destruct answer as [[[name v4] v6]|]; [|done]. unfold entry_of. rewrite !(tb_find_spec _ C _ Ht), Hsk, Hsk'. cbn [get rbind].
  by destruct (sk =? _).
Qed.

Lemma mem_read_prefix {A} (l l' : list A) : l' `prefix_of` l -> mem_read l 0 (zlen l') = Some l'.
Proof.
  intros [l2 ->]. unfold mem_read. pose proof (zlen_nonneg l'). pose proof (zlen_nonneg l2). rewrite length_app. unfold zlen in *.
  destruct (Z.leb_spec 0 (Z.of_nat (length l'))), (Z.leb_spec (0 + Z.of_nat (length l')) (Z.of_nat (length l' + length l2)));
    try lia. cbn [Z.leb Z.compare andb]. change (Z.to_nat 0) with 0%nat. by rewrite drop_0, Nat2Z.id, take_app_length.
Qed.

(** The buffers of the handler have the sizes it declares. *)
Definition stack_ok (st : stack) : Prop :=
  zlen (st_hostname st) = Dns.DNS_NAME_MAX_LENGTH /\ zlen (st_name st) = Dns.DNS_NAME_MAX_LENGTH /\
  zlen (st_data st) = Dns.DNS_NAME_MAX_LENGTH /\
  zlen (st_ipv4 st) = MAX_ENCODED_IP_ADDRS /\ zlen (st_ipv6 st) = MAX_ENCODED_IP_ADDRS.

Definition packet (msg : dns_packet_msg) : list Z := take (Z.to_nat (d_len msg)) (d_data msg).
Definition dns_ok (msg : dns_packet_msg) : Prop :=
  0 <= d_len msg <= zlen (d_data msg) /\ d_len msg < 2 ^ 31 /\ Forall Dns.byte_ok (d_data msg).

Lemma packet_ok (msg : dns_packet_msg) :
  dns_ok msg -> zlen (packet msg) = d_len msg /\ Forall Dns.byte_ok (packet msg) /\ zlen (packet msg) < 2 ^ 31.
Proof.
  intros (Hl & Hs & Hb). assert (Hp : zlen (packet msg) = d_len msg).
  { unfold packet, zlen in *. rewrite length_take. lia. }
  split; [done|]. split; [by apply Forall_take|lia].
Qed.

(** What the answers of a reply say of its name: nothing without an address. *)
Definition answer_of (ls : list (list Z)) (f : Dns.found) : option (list Z * list (list Z) * list (list Z)) :=
  if bool_decide (Dns.expanded ls = [] \/ (Dns.addrs f = [] /\ Dns.addrs6 f = [])) then None
  else Some (Dns.expanded ls, take 16 (Dns.addrs f), take 16 (Dns.addrs6 f)).

Lemma zlen_take_min {A} (l : list A) : zlen (take 16 l) = Z.min (zlen l) 16.
Proof. unfold zlen. rewrite length_take. lia. Qed.

Lemma zlen_nil_iff {A} (l : list A) : zlen l = 0 <-> l = [].
Proof. unfold zlen. destruct l; cbn; split; try done; lia. Qed.

(** The reply parser, as the handler uses it. *)
Lemma parse_answer (st : stack) (pkt : list Z) (ls : list (list Z)) (e : Z) :
  stack_ok st -> Forall Dns.byte_ok pkt -> zlen pkt < 2 ^ 31 -> Dns.question_at pkt 1 ls e ->
  exists rrs ok f ret r, Dns.is_reply pkt ls rrs ok f /\
    Dns.dns_parse_a_aaaa_reply (st_name st) (st_data st) pkt (zlen pkt)
      (Dns.mk_reply_out (Dns.written ls (st_hostname st)) (Some (zlen (Dns.expanded ls))) (Some (st_ipv4 st))
         (Some MAX_ENCODED_IP_ADDRS) (Some (st_ipv6 st)) (Some MAX_ENCODED_IP_ADDRS)) = Dns.Done (ret, r) /\
    Dns.hostname_len r = Some (zlen (Dns.expanded ls)) /\
    Dns.num_in_addrs r = Some (zlen (take 16 (Dns.addrs f))) /\ Dns.num_in6_addrs r = Some (zlen (take 16 (Dns.addrs6 f))) /\
    mem_read (Dns.out_hostname r) 0 (zlen (Dns.expanded ls)) = Some (Dns.expanded ls) /\
    mem_read (default [] (Dns.out_in_addrs r)) 0 (zlen (take 16 (Dns.addrs f))) = Some (take 16 (Dns.addrs f)) /\
    mem_read (default [] (Dns.out_in6_addrs r)) 0 (zlen (take 16 (Dns.addrs6 f))) = Some (take 16 (Dns.addrs6 f)).
Proof.
  intros (Hh & Hn & Hd & Hv4 & Hv6) Hb Hsz Hq. pose proof Hq as (_ & _ & _ & Hname & _).
  pose proof (Dns.name_at_range pkt Hb _ _ _ Hname) as (_ & _ & Hlen).
  destruct (Dns.parse_reply_cases pkt Hb Hsz (st_name st) (st_data st)
    (Dns.mk_reply_out (Dns.written ls (st_hostname st)) (Some (zlen (Dns.expanded ls))) (Some (st_ipv4 st))
         (Some MAX_ENCODED_IP_ADDRS) (Some (st_ipv6 st)) (Some MAX_ENCODED_IP_ADDRS)) Hn Hd)
    as (ret & r & -> & [(ls' & rrs & ok & f & Hrep & Ho & Hl & (R4 & a4 & P4 & Q4) & (R6 & a6 & P6 & Q6) & _)|(Hno & _)]).
  - cbn. rewrite Dns.zlen_written; lia.
  - unfold Dns.room. cbn. rewrite Hv4. done.
  - unfold Dns.room. cbn. rewrite Hv6. done.
  - assert (ls' = ls) as ->.
    { destruct Hrep as (e' & an & (_ & _ & _ & Hname' & _) & _). by destruct (Dns.name_at_fun pkt _ _ _ _ _ Hname' Hname). }
    cbn [Dns.out_hostname Dns.hostname_len Dns.out_in_addrs Dns.num_in_addrs Dns.out_in6_addrs Dns.num_in6_addrs Dns.store
      fmap option_fmap option_map] in *.
    eexists rrs, ok, f, _, _. split; [done|]. split; [done|]. rewrite Hl, R4, R6, !zlen_take_min, Ho.
    split; [done|]. split; [done|]. split; [done|]. split.
    { apply mem_read_prefix. by eexists. }
    rewrite <- !zlen_take_min, P4, P6. split; by apply mem_read_prefix.
  - by apply Hno in Hq.
Qed.

Definition key_of (msg : dns_packet_msg) (request : bool) (qid type : Z) (ls : list (list Z)) : DnsRequests.dns_request_key :=
  let rx := negb (d_is_rx msg =? 0) in
  {| DnsRequests.qid := qid; DnsRequests.type_ := type; DnsRequests.name := Dns.expanded ls;
     DnsRequests.is_rx := if request then rx else negb rx |}.

(** What a packet on a known socket does to the outstanding requests, and what the
    server is told. *)
Definition dns_outcome (t sk_id : Z) (msg : dns_packet_msg) (before after : list request) (out : list message) : Prop :=
  ((forall qr qid type ls, ~ Dns.query (packet msg) qr qid type ls) /\ after = before /\ out = []) \/
  (exists qid type ls, Dns.query (packet msg) 0 qid type ls /\ out = [] /\
     after = before ++ [(key_of msg true qid type ls, {| DnsRequests.timestamp_ns := t; DnsRequests.sk := d_sk msg |})]) \/
  (exists qid type ls rrs ok f rs, Dns.query (packet msg) 1 qid type ls /\ Dns.is_reply (packet msg) ls rrs ok f /\
     after = filter (fun r => DnsRequests.key_eq r.1 (key_of msg false qid type ls) <> true) before /\
     rs ≡ₚ filter (fun r => DnsRequests.key_eq r.1 (key_of msg false qid type ls) = true) before /\
     out = concat (answered t sk_id (if d_is_rx msg =? 0 then SC_SERVER else SC_CLIENT) (answer_of ls f) <$> rs)).

(** The requests that match the key of a reply. *)
Lemma matching_requests (p : Udp H S) C M Q cur (key : DnsRequests.dns_request_key) :
  udp_rep p C M Q cur ->
  exists rs, rs ≡ₚ filter (fun r => DnsRequests.key_eq r.1 key = true) (DnsRequests.dns_requests_ (dns_requests_ p)).*2 /\
  DnsRequests.deref (dns_requests_ p) (DnsRequests.lookup (dns_requests_ p) key) = Some rs /\
  (forall r, r ∈ rs -> is_Some (C !! DnsRequests.sk r.2)) /\
  exists d, DnsRequests.remove_all_with_key (dns_requests_ p) key = Some d /\ udp_rep (set_dns p d) C M Q cur /\
    (DnsRequests.dns_requests_ d).*2
      = filter (fun r => DnsRequests.key_eq r.1 key <> true) (DnsRequests.dns_requests_ (dns_requests_ p)).*2.
Proof.
  intros [Ht Hen Hl Hst Hv Hdn Hrq].
  destruct (DnsRequests.deref_selected (dns_requests_ p) (fun e => DnsRequests.key_eq e.2.1 key = true) _ Hdn
    (DnsRequests.lookup_perm _ key Hdn)) as (rs & Hde & _ & Hrs).
  exists rs. split; [by rewrite filter_fmap|]. split; [done|]. split.
  - intros r. rewrite Hrs. intros (e & -> & [_ Hin]%list_elem_of_filter)%list_elem_of_fmap. by apply Hrq.
  - destruct (DnsRequests.remove_all_with_key_spec _ key Hdn) as (d & Hd & Hdn' & Hl'). exists d. split; [done|]. split.
    + constructor; try done. cbn. intros e. rewrite Hl'. intros [_ ?]%list_elem_of_filter. by apply Hrq.
    + rewrite Hl'. by rewrite filter_fmap.
Qed.

Lemma dns_message_spec (st : stack) (p : Udp H S) C M Q cur (t : Z) (msg : dns_packet_msg) :
  udp_rep p C M Q cur -> stack_ok st -> dns_ok msg ->
  exists d out, handle_dns_message st p t msg = Ok (set_dns p d, out) /\ udp_rep (set_dns p d) C M Q cur /\
    (forall c i d, total c i d out = 0) /\
    match C !! d_sk msg with
    | None => d = dns_requests_ p /\ out = []
    | Some (sk_id, _) => dns_outcome t sk_id msg (DnsRequests.dns_requests_ (dns_requests_ p)).*2
        (DnsRequests.dns_requests_ d).*2 out
    end.
Proof.
  intros Hr Hst Hmsg. pose proof Hr as [Ht Hen Hl Hss Hv Hdn Hrq]. destruct (packet_ok msg Hmsg) as (Hlen & Hb & Hsz).
  assert (Hsame : set_dns p (dns_requests_ p) = p) by (by destruct p).
  unfold handle_dns_message. fold (packet msg). destruct (Z.ltb_spec (zlen (d_data msg)) (d_len msg)); [destruct Hmsg; lia|].
  rewrite (tb_find_spec _ C _ Ht). cbn [get rbind]. destruct (C !! d_sk msg) as [[sk_id x]|] eqn:Hk.
  2:{ exists (dns_requests_ p), []. by rewrite Hsame. }
  rewrite <- Hlen. destruct (Dns.parse_query_cases (packet msg) Hb Hsz
    (Dns.mk_query_out (Some 0) (Some 0) (Some 0) (st_hostname st) (Some 0)) (proj1 Hst))
    as [(qr & qid & type & ls & Hq & ->)|(Hno & status & o & -> & _ & Hbad)]; cbn [of_run rbind].
  2:{ exists (dns_requests_ p), []. rewrite Hsame. split; [by destruct Hbad as [-> | [-> | ->]]|].
      split; [done|]. split; [done|]. by left. }
  cbn [Dns.is_response Dns.type_out Dns.qid_out Dns.question_len Dns.question_out Dns.store fmap option_fmap option_map get rbind].
  change (Dns.ARES_SUCCESS =? Dns.ARES_SUCCESS) with true. cbn [negb].
  assert (Hrd : mem_read (Dns.written ls (st_hostname st)) 0 (zlen (Dns.expanded ls)) = Some (Dns.expanded ls)).
  { apply mem_read_prefix. by eexists. }
  rewrite Hrd. cbn [get rbind]. destruct (Z.eqb_spec qr 0) as [->|Hqr].
  - eexists _, []. split; [done|]. split; [|split; [done|]].
    + constructor; try done; [by apply DnsRequests.add_inv|]. cbn.
      intros e [He| ->%list_elem_of_singleton]%elem_of_app; [by apply Hrq|]. cbn. eauto.
    + right. left. exists qid, type, ls. split; [done|]. split; [done|]. cbn. by rewrite fmap_app.
  - assert (qr = 1) as ->.
    { destruct Hq as (e & an & ns & (Hh & Hqr' & _) & _). destruct (Dns.header_fields _ Hb Hh) as ((v & Hv' & Hr') & _).
      rewrite Hqr' in Hv'. injection Hv' as <-. lia. }
    pose proof Hq as (e & _ & _ & Hqat & _).
    destruct (parse_answer st (packet msg) ls e Hst Hb Hsz Hqat) as
      (rrs & ok & f & ret & r & Hrep & -> & E0 & E4 & E6 & R0 & R4 & R6). cbn [of_run rbind].
    rewrite E0, E4, E6. cbn [get rbind].
    assert (exists answer, (if (zlen (Dns.expanded ls) =? 0) || (zlen (take 16 (Dns.addrs f)) + zlen (take 16 (Dns.addrs6 f)) =? 0)
      then Ok None
      else
       let* name := get (mem_read (Dns.out_hostname r) 0 (zlen (Dns.expanded ls))) in
       let* ipv4 := get (mem_read (default [] (Dns.out_in_addrs r)) 0 (zlen (take 16 (Dns.addrs f)))) in
       let* ipv6 := get (mem_read (default [] (Dns.out_in6_addrs r)) 0 (zlen (take 16 (Dns.addrs6 f)))) in
       Ok (Some (name, ipv4, ipv6))) = Ok answer /\ answer = answer_of ls f) as (answer & -> & ->).
    { rewrite R0, R4, R6. cbn [get rbind]. unfold answer_of. rewrite !zlen_take_min.
      pose proof (zlen_nonneg (Dns.addrs f)). pose proof (zlen_nonneg (Dns.addrs6 f)).
      case_bool_decide as Hc; rewrite <- !zlen_nil_iff in Hc; destruct (Z.eqb_spec (zlen (Dns.expanded ls)) 0),
        (Z.eqb_spec (Z.min (zlen (Dns.addrs f)) 16 + Z.min (zlen (Dns.addrs6 f)) 16) 0); cbn [orb]; eauto; exfalso; lia. }
    cbn [rbind]. set (key := {| DnsRequests.qid := qid |}).
    destruct (matching_requests p C M Q cur key Hr) as (rs & Hrs & Hde & Hsk & d & Hd & Hr' & Hl').
    pose proof (answer_requests_eq _ p C t (d_sk msg) sk_id (if negb (d_is_rx msg =? 0) then SC_CLIENT else SC_SERVER)
      (answer_of ls f) _ Ht (ex_intro _ _ Hk) Hsk Hde) as Hans.
    destruct (DnsRequests.lookup (dns_requests_ p) key) as [|r0 reqs] eqn:Hlk.
    + injection Hde as Hde. exists (dns_requests_ p), []. rewrite Hsame. split; [done|]. split; [done|]. split; [done|].
      right. right. exists qid, type, ls, rrs, ok, f, rs. unfold key_of. fold key. split; [done|]. split; [done|].
      split; [|by rewrite <- Hde in *]. symmetry. apply filter_all. intros r' Hin Heq. apply (not_elem_of_nil r'). rewrite Hde, Hrs.
      by apply list_elem_of_filter.
    + eexists d, _. rewrite Hans. cbn [rbind]. rewrite Hd. split; [done|]. split; [done|].
      split; [intros; apply total_answered|]. right. right. exists qid, type, ls, rrs, ok, f, rs. unfold key_of. fold key.
      do 4 (split; [done|]). by destruct (d_is_rx msg =? 0).
Qed.

(** ** The polling for timeouts *)

Lemma older_prefix l (t : Z) : DnsRequests.older l t `prefix_of` l.*1.
Proof.
  induction l as [|[r [k v]] l IH]; cbn; [done|]. destruct (t <=? _); [apply prefix_nil|]. by apply prefix_cons.
Qed.

Lemma poll_spec (p : Udp H S) C M Q cur (t : Z) :
  udp_rep p C M Q cur ->
  exists d out, process_dns_timeouts p t = Ok (set_dns p d, out) /\ udp_rep (set_dns p d) C M Q cur /\
    forall c i d, total c i d out = 0.
Proof.
  intros [Ht Hen Hl Hst Hv Hdn Hrq]. unfold process_dns_timeouts, DnsRequests.lookup_older_than.
  set (reqs := DnsRequests.older _ _). destruct (older_prefix (DnsRequests.dns_requests_ (dns_requests_ p)) (u64 (t - DNS_TIMEOUT_TIME_NS)))
    as [rest Hpre]. fold reqs in Hpre. pose proof (DnsRequests.dr_nodup _ Hdn) as Hnd.
  assert (Hin : forall r, r ∈ reqs -> r ∈ (DnsRequests.dns_requests_ (dns_requests_ p)).*1).
  { intros r Hin. rewrite Hpre. apply elem_of_app. by left. }
  assert (Hnd' : NoDup reqs) by (rewrite Hpre in Hnd; by apply NoDup_app in Hnd as [? _]).
  destruct (DnsRequests.remove_each_spec reqs _ Hdn Hnd' Hin) as (d & Hre & Hd & Hl').
  assert (exists rs, DnsRequests.deref (dns_requests_ p) reqs = Some rs) as [rs Hde].
  { apply mapM_is_Some_2, Forall_forall. intros r Hr. apply Hin, list_elem_of_fmap in Hr as ([r' kv] & -> & He).
    exists kv. by apply DnsRequests.node_Some. }
  eexists d, _. split; [by apply timeout_all_eq|]. split; [constructor; try done|intros; apply total_timeouts].
  cbn. rewrite Hl'. intros e [_ He]%list_elem_of_filter. by apply Hrq.
Qed.

(** ** Runs *)

Inductive event :=
  | NewSocket (t : Z) (msg : udp_new_socket_msg)
  | Stats (nat : NatHandler.NatHandler) (t : Z) (msg : udp_stats_msg)
  | Destroy (t sk : Z)
  | Tick (t : Z)
  | DnsPacket (st : stack) (t : Z) (msg : dns_packet_msg)
  | SlowPoll (t : Z).

Definition udp_step (max : Z) (p : Udp H S) (ev : event) : result (Udp H S * list message) :=
  match ev with
  | NewSocket t msg => handle_udp_new_socket p t msg
  | Stats nat t msg => handle_udp_stats nat p t msg
  | Destroy t sk => handle_udp_destroy_socket p t sk
  | Tick t => udp_send_stats_from_queue max p t
  | DnsPacket st t msg => handle_dns_message st p t msg
  | SlowPoll t => process_dns_timeouts p t
  end.

Fixpoint udp_run (max : Z) (p : Udp H S) (evs : list event) : result (Udp H S * list message) :=
  match evs with
  | [] => Ok (p, [])
  | ev :: evs =>
      let* (p, out) := udp_step max p ev in
      let* (p, rest) := udp_run max p evs in
      Ok (p, out ++ rest)
  end.

(** A socket that is opened with its port. *)
Definition opens_bound (ev : event) : Prop := match ev with NewSocket _ msg => n_lport msg <> 0 | _ => True end.

(** What the probes promise of an event in a state. *)
Definition event_ok (p : Udp H S) (ev : event) : Prop :=
  match ev with
  | Stats nat t msg => msg_ok msg /\ reporting nat p msg
  | DnsPacket st t msg => stack_ok st /\ dns_ok msg
  | _ => True
  end.

Fixpoint events_ok (max : Z) (p : Udp H S) (evs : list event) : Prop :=
  match evs with
  | [] => True
  | ev :: evs => event_ok p ev /\ match udp_step max p ev with Ok (p', _) => events_ok max p' evs | _ => True end
  end.

Definition event_gain (p : Udp H S) (ev : event) (c : counter) (i d : Z) : Z :=
  match ev with Stats _ _ msg => gain p msg c i d | _ => 0 end.
Definition event_stale (p : Udp H S) (ev : event) (c : counter) (i d : Z) : Z :=
  match ev with Stats _ t msg => stale p t msg c i d | _ => 0 end.

Fixpoint along (f : Udp H S -> event -> counter -> Z -> Z -> Z) (max : Z) (p : Udp H S) (evs : list event)
    (c : counter) (i d : Z) : Z :=
  match evs with
  | [] => 0
  | ev :: evs => f p ev c i d + match udp_step max p ev with Ok (p', _) => along f max p' evs c i d | _ => 0 end
  end.

(** What is accumulated for a slot and not reported yet. *)
Definition pending (c : counter) (i d : Z) (p : Udp H S) : Z :=
  match rd (udp_socket_stats_ p) d with
  | Some s => foldr Z.add 0 ((fun e => default 0 (pending_stats c <$> ss_metric s i e)) <$> seqZ 0 n_epochs)
  | None => 0
  end.

Lemma pending_pend (p : Udp H S) C M Q cur (c : counter) (i d : Z) :
  udp_rep p C M Q cur -> 0 <= i < slots -> 0 <= d < 2 -> pending c i d p = pend M c i d.
Proof.
  intros Hr Hi Hd. destruct (ur_stats _ _ _ _ _ Hr d Hd) as (s & Hs & Hss). unfold pending, pend. rewrite Hs.
  change (seqZ 0 n_epochs) with [0; 1]. cbn [fmap list_fmap foldr].
  rewrite !(ss_metric_spec s _ _ _ i _ Hss Hi) by (rewrite Hepochs; unfold n_epochs; lia). cbn. lia.
Qed.

Lemma udp_step_accounts (max : Z) (p : Udp H S) C M Q cur (ev : event) :
  udp_rep p C M Q cur -> slots = max -> event_ok p ev ->
  exists p' out C' M' Q' cur', udp_step max p ev = Ok (p', out) /\ udp_rep p' C' M' Q' cur' /\
    accounts M M' out (fun c i d => event_gain p ev c i d + event_stale p ev c i d) /\
    (opens_bound ev -> all_reported C -> all_reported C').
Proof.
  intros Hr Hmax Hok. destruct ev as [t msg|nat t msg|t sk|t|st t msg|t]; cbn [udp_step event_ok] in *.
  - destruct (new_accounts p C M Q cur t msg Hr) as (p' & out & C' & E & Hr' & Ha & Hb). by eexists _, _, _, _, _, _.
  - destruct Hok as [Hm Hrep]. destruct (stats_accounts nat p C M Q cur t msg Hr Hm Hrep) as (p' & out & C' & M' & Q' & E & Hr' & Ha & Hb).
    by eexists _, _, _, _, _, _.
  - destruct (destroy_accounts p C M Q cur t sk Hr) as (p' & out & C' & M' & E & Hr' & Ha & Hb). by eexists _, _, _, _, _, _.
  - destruct (tick_accounts max p C M Q cur t Hr Hmax) as (p' & out & C' & M' & Q' & cur' & E & Hr' & Ha & Hev).
    eexists _, _, _, _, _, _. split; [done|]. split; [exact Hr'|]. split; [exact Ha|]. intros _. by apply evolved_reported.
  - destruct Hok as [Hs Hm]. destruct (dns_message_spec st p C M Q cur t msg Hr Hs Hm) as (d & out & E & Hr' & Ht & _).
    eexists _, _, _, _, _, _. split; [done|]. split; [exact Hr'|]. split; [by apply accounts_same|done].
  - destruct (poll_spec p C M Q cur t Hr) as (d & out & E & Hr' & Ht).
    eexists _, _, _, _, _, _. split; [done|]. split; [exact Hr'|]. split; [by apply accounts_same|done].
Qed.

Lemma udp_run_accounts (max : Z) (evs : list event) (p : Udp H S) C M Q cur :
  udp_rep p C M Q cur -> slots = max -> events_ok max p evs ->
  exists p' out C' M' Q' cur', udp_run max p evs = Ok (p', out) /\ udp_rep p' C' M' Q' cur' /\
    accounts M M' out (fun c i d => along event_gain max p evs c i d + along event_stale max p evs c i d).
Proof.
  intros Hr Hmax. revert p C M Q cur Hr. induction evs as [|ev evs IH]; intros p C M Q cur Hr Hok.
  { eexists _, _, _, _, _, _. split; [done|]. split; [exact Hr|]. by apply accounts_same. }
  destruct Hok as [Hev Hok]. cbn [udp_run along].
  destruct (udp_step_accounts max p C M Q cur ev Hr Hmax Hev) as (p1 & out1 & C1 & M1 & Q1 & cur1 & E1 & Hr1 & Ha1 & _).
  rewrite E1 in *. cbn [rbind].
  destruct (IH p1 C1 M1 Q1 cur1 Hr1 Hok) as (p2 & out2 & C2 & M2 & Q2 & cur2 & -> & Hr2 & Ha2). cbn [rbind].
  eexists _, _, _, _, _, _. split; [done|]. split; [exact Hr2|].
  eapply accounts_ext; [|eapply accounts_trans; [exact Ha1|exact Ha2]]. intros. cbn. lia.
Qed.

(** A poller that has seen nothing. *)
Definition udp_initial (p : Udp H S) : Prop :=
  tb_holds (udp_socket_table_ p) ∅ /\ zlen (udp_socket_stats_ p) = 2 /\
  (forall d, 0 <= d < 2 -> exists s, rd (udp_socket_stats_ p) d = Some s /\ ss_holds s (fun _ _ => no_stats) (fun _ => []) 0) /\
  dns_requests_ p = DnsRequests.DnsRequests_new.

Lemma udp_initial_rep (p : Udp H S) :
  udp_initial p -> udp_rep p ∅ (fun _ _ _ => no_stats) (fun _ _ => []) (fun _ => 0).
Proof.
  intros (Ht & Hl & Hs & Hd). constructor; [done|done|done|done|done| |]; rewrite Hd.
  - apply DnsRequests.dr_new_inv.
  - by intros e ?%elem_of_nil.
Qed.

(** The statistics of the events say no new address. *)
Definition keeps_address (ev : event) : Prop := match ev with Stats _ _ msg => m_changed_af msg = 0 | _ => True end.

Lemma along_stale_none (max : Z) (evs : list event) (p : Udp H S) (c : counter) (i d : Z) :
  Forall keeps_address evs -> along event_stale max p evs c i d = 0.
Proof.
  intros Hk. revert p. induction Hk as [|ev evs Hev _ IH]; intros p; [done|]. cbn [along].
  assert (event_stale p ev c i d = 0) as ->.
  { destruct ev; try done. cbn in *. unfold stale. destruct (tb_find _ _) as [[[??]|]|]; try done.
    rewrite decide_False; [done|]. tauto. }
  destruct (udp_step max p ev) as [[p' out]| | |]; try done. by rewrite IH.
Qed.


(** C22: what a captured DNS packet that is as long as it says does, in any state that
    events of the probes, well formed as for the statistics above, lead to.  A packet of an
    unknown socket or that is not a query or a reply changes nothing; a query is
    recorded with its time and socket; a reply removes exactly the outstanding
    requests with its id, type and name, whichever socket they came from.  If the reply
    has a name and an address, the server is told for each of them, in the order the
    multimap gives them, the name, the first sixteen addresses of each kind and the
    latency; otherwise it is told nothing. *)
Theorem dns_message_exact (max : Z) (p p1 : Udp H S) (evs : list event) (out1 : list message) (st : stack) (t : Z)
    (msg : dns_packet_msg) :
  udp_initial p -> slots = max -> events_ok max p evs -> udp_run max p evs = Ok (p1, out1) ->
  stack_ok st -> dns_ok msg ->
  exists d out, handle_dns_message st p1 t msg = Ok (set_dns p1 d, out) /\
    match tb_find (udp_socket_table_ p1) (d_sk msg) with
    | None => False
    | Some None => d = dns_requests_ p1 /\ out = []
    | Some (Some (sk_id, _)) =>
        dns_outcome t sk_id msg (DnsRequests.dns_requests_ (dns_requests_ p1)).*2 (DnsRequests.dns_requests_ d).*2 out
    end.
Proof.
  intros Hi Hmax Hok Hrun Hst Hmsg. destruct (udp_run_accounts max evs p _ _ _ _ (udp_initial_rep p Hi) Hmax Hok)
    as (p' & out & C & M & Q & cur & E & Hr & _). rewrite Hrun in E. injection E as <- <-.
  destruct (dns_message_spec st p1 C M Q cur t msg Hr Hst Hmsg) as (d & out & E & _ & _ & Ho). exists d, out. split; [done|].
  rewrite (tb_find_spec _ C _ (ur_table _ _ _ _ _ Hr)). done.
Qed.
End laws.
End PollerUdp.

(** * The handlers on the containers of the program *)

Module PollerUdpDemo.
Import PollerUdp.
#[local] Existing Instances Dns.rfc1035 Dns.rfc1035_laws DnsRequests.newest_first.

(** The free list of the pool overwrites the first word of the local address. *)
#[export] Program Instance poolable_entry : Poolable udp_socket_entry := {
  first_u32 e := le_decode (take 4 (laddr e));
  set_first_u32 v e := mk_entry (le_encode 4 v ++ drop 4 (laddr e)) (lport e) (reported e) (pid e) (sk e) (addrs e);
  zeroed := no_entry;
}.
Next Obligation.
  intros v e Hv. cbn [laddr]. rewrite take_app_length' by (by rewrite length_le_encode). rewrite le_roundtrip.
  apply Z.mod_small. exact Hv.
Qed.

#[local] Abbreviation table := (FixedHash.FixedHash udp_socket_entry (gmap Z Z)).
#[local] Abbreviation store := (MetricStore.MetricStore udp_statistics).
Definition slot_div : FastDiv.fast_div := {| FastDiv.mul := 1; FastDiv.shift := 10 |}.

Lemma udp_demo_pool_ok : Pool.size_ok 2 40.
Proof. unfold Pool.size_ok. lia. Qed.

Lemma udp_demo_store_ok : MetricStore.params_ok 2 1.
Proof. unfold MetricStore.params_ok. lia. Qed.

#[export] Instance demo_table : SocketTable udp_socket_entry table := fixed_hash_table 2 (fun e => e).
#[export] Instance demo_table_laws : SocketTableLaws udp_socket_entry table :=
  fixed_hash_table_laws 2 40 (fun e => e) udp_demo_pool_ok.
#[export] Instance demo_store : StatStore udp_statistics store := metric_stat_store 2 1 slot_div.
#[export] Instance demo_store_laws : StatStoreLaws udp_statistics store := metric_stat_store_laws 2 1 slot_div udp_demo_store_ok.

Lemma demo_epochs : ss_epochs (Metric := udp_statistics) (S := store) = n_epochs.
Proof. done. Qed.

Lemma demo_slots : ss_size (Metric := udp_statistics) (S := store) = tb_size (T := udp_socket_entry) (H := table).
Proof. done. Qed.

Definition demo_udp : option (Udp table store) :=
  h ← FixedHash.FixedHash_new (K := Z) 2 40 [no_entry; no_entry];
  let s := MetricStore.MetricStore_new no_stats 2 1 in
  Some (mk_udp h false [s; s] DnsRequests.DnsRequests_new).

Lemma demo_udp_initial : exists p, demo_udp = Some p /\ udp_initial p.
Proof.
  destruct (FixedHash.fh_new_rep (K := Z) (M := gmap Z Z) 2 40 udp_demo_pool_ok [no_entry; no_entry]) as (h & Hh & Hr); [done|].
  eexists. split; [unfold demo_udp; rewrite Hh; done|]. split; [by eexists|]. split; [done|]. split; [|done].
  intros d Hd. eexists. split; [|exact (metric_store_new no_stats 2 1 udp_demo_store_ok)].
  assert (d = 0 \/ d = 1) as [-> | ->] by lia; done.
Qed.

Definition ip (a : Z) : list Z := replicate 12 0 ++ [10; 0; 0; a].
Definition traffic (sk af is_rx packets bytes : Z) : udp_stats_msg :=
  mk_msg sk (ip 2) packets bytes af 53 is_rx (ip 1) 53 0.
Definition demo_nat : NatHandler.NatHandler := NatHandler.NatHandler_new.
Definition demo_stack : stack :=
  mk_stack Dns.blank Dns.blank Dns.blank (replicate 16 []) (replicate 16 []).
Definition captured (sk is_rx : Z) (pkt : list Z) : dns_packet_msg := mk_dns sk is_rx pkt (zlen pkt).

(** A socket opened without a port gets one with its first address; it sends a
    query, and the reply arrives on another socket; its statistics are flushed when
    the address changes again, at the end of the slot and when it is destroyed. *)
Definition demo_events : list event :=
  [NewSocket 10 (mk_new 1 77 (ip 1) 0); NewSocket 11 (mk_new 2 88 (ip 1) 9);
   Stats demo_nat 12 (traffic 77 AF_INET 0 1 100); Stats demo_nat 13 (traffic 77 0 0 2 50);
   DnsPacket demo_stack 14 (captured 77 0 Dns.demo_request);
   Stats demo_nat 15 (traffic 77 AF_INET 0 1 10);
   Tick 1200; Stats demo_nat 1300 (traffic 77 0 0 4 70);
   DnsPacket demo_stack 1400 (captured 88 1 Dns.demo_reply);
   DnsPacket demo_stack 1410 (captured 77 0 Dns.demo_request);
   SlowPoll 1420; Destroy 1500 77].

Ltac check_events := vm_compute; repeat first [done|split|by left|by right|constructor].


(** The reply above, handled by itself. *)
Lemma dns_message_exact_witness :
  exists p, demo_udp = Some p /\
  exists p1 out1, udp_run 2 p (take 8 demo_events) = Ok (p1, out1) /\
  exists d out, handle_dns_message demo_stack p1 1400 (captured 88 1 Dns.demo_reply) = Ok (set_dns p1 d, out) /\
    dns_outcome 1400 1 (captured 88 1 Dns.demo_reply) (DnsRequests.dns_requests_ (dns_requests_ p1)).*2
      (DnsRequests.dns_requests_ d).*2 out /\
    out = [dns_response 1400 1 3 [97; 46; 98] [[10; 0; 0; 1]] [] 1386 SC_CLIENT].
Proof.
  destruct demo_udp_initial as (p & Hp & Hi). exists p. split; [exact Hp|].
  assert (Hok : events_ok 2 p (take 8 demo_events)) by (vm_compute in Hp; injection Hp as <-; check_events).
  destruct (udp_run 2 p (take 8 demo_events)) as [[p1 out1]| | |] eqn:Hrun;
    [|vm_compute in Hp; injection Hp as <-; vm_compute in Hrun; discriminate Hrun..].
  exists p1, out1. split; [reflexivity|].
  destruct (dns_message_exact demo_epochs demo_slots 2 p p1 (take 8 demo_events) out1 demo_stack 1400
    (captured 88 1 Dns.demo_reply) Hi eq_refl Hok Hrun) as (d & out & E & Ho); [by repeat constructor|by check_events|].
  exists d, out. split; [exact E|]. vm_compute in Hp. injection Hp as <-. vm_compute in Hrun. injection Hrun as <- <-.
  split; [exact Ho|]. clear Ho Hok Hi. vm_compute in E. by injection E as _ <-.
Defined.

(** A socket the server does not know may have statistics: if it is destroyed before
    they are sent, its slot is read after it was freed. *)
Lemma unreported_statistics_undefined :
  (p ← demo_udp;
   match udp_run 2 p [NewSocket 10 (mk_new 1 77 (ip 1) 0); Stats demo_nat 12 (traffic 77 0 0 1 100); Destroy 13 77; Tick 1200]
   with Undef => Some tt | _ => None end) = Some tt.
Proof. by vm_compute. Qed.
End PollerUdpDemo.
