(* ===== verification/CgroupHandler.v ===== *)
(** Control groups and processes: collector/kernel/cgroup_handler.{h,cc} and
    collector/kernel/process_handler.{h,cc}.

    The containers are finite maps.  The curl engine, which fetches the description
    of a container from the docker daemon, and the generated index of tracked
    processes are other components: what the handlers ask of them is among the
    messages they write.  The answers of the curl engine are arguments. *)
From S2P Require Import Prelude NatHandler PollerBase.

(** A name in a fixed-size array: the characters before the first NUL. *)
Fixpoint strn (s : list Z) : list Z :=
  match s with [] => [] | c :: s => if c =? 0 then [] else c :: strn s end.

Module CgroupHandler.
Record CgroupEntry := mk_entry { cgroup_parent : Z; name : list Z }.

Record CgroupHandler := mk_handler {
  cgroup_table_ : gmap Z CgroupEntry;
  queries_ : gmap Z (list Z);           (* the part of the response received so far *)
}.

Definition CgroupHandler_new : CgroupHandler := mk_handler ∅ ∅.

(** "docker" and "ecs". *)
Definition docker : list Z := [100; 111; 99; 107; 101; 114].
Definition ecs : list Z := [101; 99; 115].

(** What the curl engine says of a request it was asked to schedule: it was, or it
    failed, and then the callback was called with a status that is not OK. *)
Inductive curl_status := Curl_ok | Curl_error.

Section handlers.
Context (force_docker_metadata : bool).

Definition has_cgroup (h : CgroupHandler) (cgroup : Z) : bool := bool_decide (is_Some (cgroup_table_ h !! cgroup)).

Definition get_name (h : CgroupHandler) (cgroup : Z) : list Z :=
  match cgroup_table_ h !! cgroup with Some e => name e | None => [] end.

Definition kill_css (h : CgroupHandler) (cgroup : Z) : CgroupHandler :=
  match cgroup_table_ h !! cgroup with
  | None => h
  | Some _ => mk_handler (delete cgroup (cgroup_table_ h)) (queries_ h)
  end.

Definition data_available_cb (h : CgroupHandler) (cgroup : Z) (data : list Z) : CgroupHandler :=
  match queries_ h !! cgroup with
  | None => h
  | Some response => mk_handler (cgroup_table_ h) (<[cgroup := response ++ data]> (queries_ h))
  end.

Definition fetch_done_cb (h : CgroupHandler) (cgroup : Z) (status : curl_status) (response_code : Z)
    : CgroupHandler * list message :=
  match queries_ h !! cgroup with
  | None => (h, [])
  | Some response =>
      let h := mk_handler (cgroup_table_ h) (delete cgroup (queries_ h)) in
      match status with
      | Curl_error => (h, [])
      | Curl_ok =>
          if (200 <=? response_code) && (response_code <=? 299) then (h, [docker_response cgroup response]) else (h, [])
      end
  end.

Definition handle_docker_container (h : CgroupHandler) (scheduled : curl_status) (cgroup : Z) (nm : list Z)
    : CgroupHandler * list message :=
  match queries_ h !! cgroup with
  | Some _ => (h, [])
  | None =>
      let h := mk_handler (cgroup_table_ h) (<[cgroup := []]> (queries_ h)) in
      match scheduled with
      | Curl_ok => (h, [docker_fetch cgroup nm])
      | Curl_error =>
          let '(h, out) := fetch_done_cb h cgroup Curl_error 0 in
          (h, docker_fetch cgroup nm :: out)
      end
  end.

(** Whether the cgroup is a docker container, once its parent is known. *)
Definition is_docker (h : CgroupHandler) (parent : CgroupEntry) : bool :=
  if force_docker_metadata then true
  else if bool_decide (name parent = docker) then true
  else
    match cgroup_table_ h !! cgroup_parent parent with
    | Some gp => bool_decide (name gp = ecs)
    | None => false
    end.

Definition handle_cgroup (h : CgroupHandler) (scheduled : curl_status) (cgroup parent : Z) (nm : list Z)
    : CgroupHandler * list message :=
  match cgroup_table_ h !! cgroup with
  | Some _ => (h, [])
  | None =>
      let h := mk_handler (<[cgroup := mk_entry parent nm]> (cgroup_table_ h)) (queries_ h) in
      match cgroup_table_ h !! parent with
      | None => (h, [])
      | Some p => if is_docker h p then handle_docker_container h scheduled cgroup nm else (h, [])
      end
  end.

Definition css_populate_dir (h : CgroupHandler) (scheduled : curl_status) (cgroup parent : Z) (nm : list Z)
    : CgroupHandler * list message := handle_cgroup h scheduled cgroup parent (strn nm).

Definition existing_cgroup_probe (h : CgroupHandler) (scheduled : curl_status) (cgroup parent : Z) (nm : list Z)
    : CgroupHandler * list message := handle_cgroup h scheduled cgroup parent (strn nm).
End handlers.
End CgroupHandler.

Module ProcessHandler.
(** A handle designates the entry of the index with the key it was opened with. *)
Record ProcessHandler := mk_process {
  processes_ : gmap Z Z;                (* the cgroup of the key; the other part is the tgid *)
  duplicate_tgid : Z;
  missing_tgid : Z;
}.

Definition ProcessHandler_new : ProcessHandler := mk_process ∅ 0 0.

Definition missing (h : ProcessHandler) : ProcessHandler :=
  mk_process (processes_ h) (duplicate_tgid h) (u64 (missing_tgid h + 1)).

Definition on_new_process (h : ProcessHandler) (pid : Z) (comm : list Z) (cgroup : Z) : ProcessHandler * list message :=
  let dup := match processes_ h !! pid with Some _ => u64 (duplicate_tgid h + 1) | None => duplicate_tgid h end in
  (mk_process (<[pid := cgroup]> (processes_ h)) dup (missing_tgid h), [tracked_process_start cgroup pid comm]).

Definition on_process_end (h : ProcessHandler) (pid : Z) : ProcessHandler * list message :=
  match processes_ h !! pid with
  | Some cgroup =>
      (mk_process (delete pid (processes_ h)) (duplicate_tgid h) (missing_tgid h), [tracked_process_put cgroup pid])
  | None => (missing h, [])
  end.

Definition on_cgroup_move (h : ProcessHandler) (pid cgroup : Z) : ProcessHandler * list message :=
  match processes_ h !! pid with
  | Some old => (h, [tracked_process_set_cgroup old pid cgroup])
  | None => (missing h, [])
  end.

Definition set_process_command (h : ProcessHandler) (pid : Z) (comm : list Z) : ProcessHandler * list message :=
  match processes_ h !! pid with
  | Some cgroup => (h, [tracked_process_set_command cgroup pid comm])
  | None => (missing h, [])
  end.

Definition pid_exit (h : ProcessHandler) (t tgid pid exit_code : Z) : ProcessHandler * list message :=
  match processes_ h !! tgid with
  | Some cgroup => (h, [tracked_process_pid_exit cgroup tgid t pid exit_code])
  | None => (missing h, [])
  end.
End ProcessHandler.
