(* ===== verification/Agent.v ===== *)
(** The messages the probes send to the collector: application [agent_internal] of
    render/ebpf_net.render.  The records of [PollerTcp] and [PollerUdp] are reused
    for the messages whose handlers are modelled there. *)
From S2P Require Import Prelude NatHandler PollerBase PollerTcp PollerUdp.

Module Agent.
Inductive agent_msg :=
  | dns_packet (msg : PollerUdp.dns_packet_msg)
  | reset_tcp_counters (msg : PollerTcp.reset_tcp_counters)
  | new_sock_created (pid sk : Z)
  | udp_new_socket (msg : PollerUdp.udp_new_socket_msg)
  | udp_destroy_socket (sk : Z)
  | udp_stats (msg : PollerUdp.udp_stats_msg)
  | pid_info (pid : Z) (comm : list Z) (cgroup parent_pid : Z)
  | pid_close (pid : Z) (comm : list Z)
  | set_state_ipv4 (dest src dport sport sk tx_rx : Z)
  | set_state_ipv6 (dest src : list Z) (dport sport sk tx_rx : Z)
  | rtt_estimator (msg : PollerTcp.rtt_estimator) (snd_cwnd ca_state packets_in_flight : Z)
  | close_sock_info (sk : Z)
  | kill_css (cgroup cgroup_parent : Z) (name : list Z)
  | css_populate_dir (cgroup cgroup_parent : Z) (name : list Z)
  | existing_cgroup_probe (cgroup cgroup_parent : Z) (name : list Z)
  | cgroup_attach_task (cgroup pid : Z) (comm : list Z)
  | nf_conntrack_alter_reply (ct : Z) (orig nat : hostport_tuple)
  | nf_nat_cleanup_conntrack (ct : Z) (ft : hostport_tuple)
  | existing_conntrack_tuple (ct : Z) (ft : hostport_tuple) (dir : Z)
  | tcp_syn_timeout (sk : Z)
  | pid_set_comm (pid : Z) (comm : list Z)
  | http_response (sk pid code latency_ns client_server : Z)
  | bpf_log (filelineid code arg0 arg1 arg2 : Z)
  | stack_trace (kernel_stack_id user_stack_id tgid : Z) (comm : list Z)
  | tcp_data (sk pid length offset stream_type client_server : Z)
  | pid_exit (tgid pid exit_code : Z)
  | report_debug_event (event arg1 arg2 arg3 arg4 : Z)
  | tcp_reset (sk is_rx : Z).

(** The number of a message in its application. *)
Definition rpc_id (m : agent_msg) : Z :=
  match m with
  | dns_packet _ => 0
  | reset_tcp_counters _ => 1
  | new_sock_created _ _ => 2
  | udp_new_socket _ => 3
  | udp_destroy_socket _ => 4
  | udp_stats _ => 5
  | pid_info _ _ _ _ => 6
  | pid_close _ _ => 7
  | set_state_ipv4 _ _ _ _ _ _ => 8
  | set_state_ipv6 _ _ _ _ _ _ => 9
  | rtt_estimator _ _ _ _ => 10
  | close_sock_info _ => 11
  | kill_css _ _ _ => 12
  | css_populate_dir _ _ _ => 13
  | existing_cgroup_probe _ _ _ => 14
  | cgroup_attach_task _ _ _ => 15
  | nf_conntrack_alter_reply _ _ _ => 16
  | nf_nat_cleanup_conntrack _ _ => 17
  | existing_conntrack_tuple _ _ _ => 18
  | tcp_syn_timeout _ => 19
  | pid_set_comm _ _ => 20
  | http_response _ _ _ _ _ => 21
  | bpf_log _ _ _ _ _ => 22
  | stack_trace _ _ _ _ => 23
  | tcp_data _ _ _ _ _ _ => 24
  | pid_exit _ _ _ => 26
  | report_debug_event _ _ _ _ _ => 27
  | tcp_reset _ _ => 28
  end.
End Agent.
