(* ===== verification/Poller.v ===== *)
(** The assembled poller: class BufferedPoller of
    collector/kernel/buffered_poller.{h,cc}.

    The state puts together the TCP and UDP handlers with the NAT, cgroup and process
    handlers; [handle] is the table of handlers the constructor fills in, [sample]
    the checks before a handler runs, [process_samples] and [slow_poll] what the
    event loop calls.  The records come out of the reader of [PerfReader] in this
    order; the bytes of a message are decoded by generated code, so a record carries
    the decoded message and its length.  The model is of the release build, without
    the simulated loss of samples.

    Theorems: fed with records the probes can send, the poller never fails, and what
    [PollerTcp] and [PollerUdp] show of the statistics holds of everything it writes;
    lost samples are all reported. *)
From S2P Require Import Prelude IpAddress NatHandler Pool FixedHash MetricStore DnsRequests Dns Tables PollerBase.
From S2P Require Import PollerTcp PollerUdp CgroupHandler Agent.
Open Scope result_scope.

Module Poller.
Definition DNS_MAX_PACKET_LEN : Z := 512.

(** What a handler finds outside of the poller when it runs. *)
Record env := mk_env {
  e_cpu : Z;                                   (* the ring the record was in *)
  e_writable : bool;                           (* [buffered_writer_.is_writable()] *)
  e_stack : PollerUdp.stack;                   (* the buffers of [handle_dns_message] *)
  e_cmdline : option (list Z);                 (* [try_read_proc_cmdline], if it succeeds *)
  e_scheduled : CgroupHandler.curl_status;     (* the status of scheduling a fetch *)
}.

Inductive record :=
  | Sample (e : env) (length timestamp : Z) (msg : Agent.agent_msg)
  | Lost (n : Z)
  | Unknown.

(** The handlers the constructor adds. *)
Definition has_handler (m : Agent.agent_msg) : bool :=
  match m with Agent.report_debug_event _ _ _ _ _ => false | _ => true end.

Definition max_padding (m : Agent.agent_msg) : Z :=
  match m with Agent.dns_packet _ => DNS_MAX_PACKET_LEN + 16 | _ => 0 end.

Section handlers.
Context {HT ST HU SU : Type}.
Context `{SocketTable PollerTcp.tcp_socket_entry HT} `{StatStore PollerTcp.tcp_statistics ST}.
Context `{SocketTable PollerUdp.udp_socket_entry HU} `{StatStore PollerUdp.udp_statistics SU} `{!Dns.AresDns}.
Context `{!DnsRequests.MultimapOrder}.
(** The generated tables of log locations and sizes of messages; the settings. *)
Context (g_bpf_debug_line_info : list Z) (g_bpf_debug_file_info : list (list Z)) (wire_message_size : Z -> Z).
Context (force_docker_metadata : bool) (udp_socket_table_max_sockets : Z).

Record Poller := mk_poller {
  tcp_ : PollerTcp.Tcp HT ST;
  udp_ : PollerUdp.Udp HU SU;
  nat_handler_ : NatHandler.NatHandler;
  cgroup_handler_ : CgroupHandler.CgroupHandler;
  process_handler_ : ProcessHandler.ProcessHandler;
  pid_count_ : Z;
  lost_count_ : Z;
  notified_lost_count_ : Z;
}.

Definition with_tcp (p : Poller) (x : PollerTcp.Tcp HT ST) : Poller :=
  mk_poller x (udp_ p) (nat_handler_ p) (cgroup_handler_ p) (process_handler_ p) (pid_count_ p) (lost_count_ p)
    (notified_lost_count_ p).
Definition with_udp (p : Poller) (x : PollerUdp.Udp HU SU) : Poller :=
  mk_poller (tcp_ p) x (nat_handler_ p) (cgroup_handler_ p) (process_handler_ p) (pid_count_ p) (lost_count_ p)
    (notified_lost_count_ p).
Definition with_nat (p : Poller) (x : NatHandler.NatHandler) : Poller :=
  mk_poller (tcp_ p) (udp_ p) x (cgroup_handler_ p) (process_handler_ p) (pid_count_ p) (lost_count_ p)
    (notified_lost_count_ p).
Definition with_cgroup (p : Poller) (x : CgroupHandler.CgroupHandler) : Poller :=
  mk_poller (tcp_ p) (udp_ p) (nat_handler_ p) x (process_handler_ p) (pid_count_ p) (lost_count_ p)
    (notified_lost_count_ p).
Definition with_process (p : Poller) (x : ProcessHandler.ProcessHandler) : Poller :=
  mk_poller (tcp_ p) (udp_ p) (nat_handler_ p) (cgroup_handler_ p) x (pid_count_ p) (lost_count_ p)
    (notified_lost_count_ p).
Definition with_pids (p : Poller) (n : Z) : Poller :=
  mk_poller (tcp_ p) (udp_ p) (nat_handler_ p) (cgroup_handler_ p) (process_handler_ p) n (lost_count_ p)
    (notified_lost_count_ p).
Definition with_lost (p : Poller) (lost notified : Z) : Poller :=
  mk_poller (tcp_ p) (udp_ p) (nat_handler_ p) (cgroup_handler_ p) (process_handler_ p) (pid_count_ p) lost notified.

(** * Handlers *)

Definition on_tcp (p : Poller) (r : result (PollerTcp.Tcp HT ST * list message)) : result (Poller * list message) :=
  let* (x, out) := r in Ok (with_tcp p x, out).
Definition on_udp (p : Poller) (r : result (PollerUdp.Udp HU SU * list message)) : result (Poller * list message) :=
  let* (x, out) := r in Ok (with_udp p x, out).
Definition on_nat (p : Poller) (r : option (NatHandler.NatHandler * list NatHandler.nat_remapping))
    : result (Poller * list message) :=
  let* (x, out) := get r in Ok (with_nat p x, nat_remapping <$> out).

Definition handle_set_state_ipv4 (p : Poller) (t dest src dport sport sk tx_rx : Z) : result (Poller * list message) :=
  let* pos := get (tb_find (PollerTcp.tcp_socket_table_ (tcp_ p)) sk) in
  match pos with
  | None => Ok (p, [])
  | Some _ =>
      let* (p, out) := on_nat p (NatHandler.handle_set_state_ipv4 (nat_handler_ p) t sk src dest sport dport) in
      Ok (p, set_state_ipv4 t dest src dport sport sk tx_rx :: out)
  end.

Definition handle_set_state_ipv6 (p : Poller) (t : Z) (dest src : list Z) (dport sport sk tx_rx : Z)
    : result (Poller * list message) :=
  let* pos := get (tb_find (PollerTcp.tcp_socket_table_ (tcp_ p)) sk) in
  match pos with
  | None => Ok (p, [])
  | Some _ =>
      let* (p, out) := on_nat p (NatHandler.handle_set_state_ipv6 (nat_handler_ p) t sk src dest sport dport) in
      Ok (p, set_state_ipv6 t dest src dport sport sk tx_rx :: out)
  end.

Definition handle_close_socket (p : Poller) (t sk : Z) : result (Poller * list message) :=
  let* (x, out, known) := PollerTcp.handle_close_socket (tcp_ p) t sk in
  let p := with_tcp p x in
  if negb known then Ok (p, out)
  else
    let* n := get (NatHandler.handle_close_socket (nat_handler_ p) sk) in
    Ok (with_nat p n, out ++ [tcp_data_close sk]).

Definition handle_pid_info (e : env) (p : Poller) (t pid : Z) (comm : list Z) (cgroup parent_pid : Z)
    : Poller * list message :=
  let p := with_pids p (u32 (pid_count_ p + 1)) in
  let '(x, out) := ProcessHandler.on_new_process (process_handler_ p) pid comm cgroup in
  (with_process p x, out ++ [pid_info_create t pid comm cgroup parent_pid (default [] (e_cmdline e))]).

Definition handle_pid_close (p : Poller) (t pid : Z) (comm : list Z) : Poller * list message :=
  let p := with_pids p (u32 (pid_count_ p - 1)) in
  let '(x, out) := ProcessHandler.on_process_end (process_handler_ p) pid in
  (with_process p x, out ++ [pid_close_info t pid comm]).

Definition handle_pid_set_comm (p : Poller) (t pid : Z) (comm : list Z) : Poller * list message :=
  let '(x, out) := ProcessHandler.set_process_command (process_handler_ p) pid comm in
  (with_process p x, out ++ [pid_set_comm t pid comm]).

Definition handle_pid_exit (p : Poller) (t tgid pid exit_code : Z) : Poller * list message :=
  let '(x, out) := ProcessHandler.pid_exit (process_handler_ p) t tgid pid exit_code in (with_process p x, out).

Definition handle_kill_css (p : Poller) (t cgroup : Z) : Poller * list message :=
  (with_cgroup p (CgroupHandler.kill_css (cgroup_handler_ p) cgroup), [cgroup_close t cgroup]).

Definition handle_css_populate_dir (e : env) (p : Poller) (t cgroup parent : Z) (name : list Z) : Poller * list message :=
  let '(x, out) :=
    CgroupHandler.css_populate_dir force_docker_metadata (cgroup_handler_ p) (e_scheduled e) cgroup parent name in
  (with_cgroup p x, out ++ [cgroup_create t cgroup parent name]).

Definition handle_existing_cgroup_probe (e : env) (p : Poller) (t cgroup parent : Z) (name : list Z)
    : Poller * list message :=
  let '(x, out) :=
    CgroupHandler.existing_cgroup_probe force_docker_metadata (cgroup_handler_ p) (e_scheduled e) cgroup parent name in
  (with_cgroup p x, out ++ [cgroup_create t cgroup parent name]).

Definition handle_cgroup_attach_task (p : Poller) (t cgroup pid : Z) : Poller * list message :=
  let '(x, out) := ProcessHandler.on_cgroup_move (process_handler_ p) pid cgroup in
  (with_process p x, out ++ [pid_cgroup_move t pid cgroup]).

Definition handle_bpf_log (p : Poller) (filelineid code arg0 arg1 arg2 : Z) : result (Poller * list message) :=
  let* linenumber := get (rd g_bpf_debug_line_info filelineid) in
  let* filename := get (rd g_bpf_debug_file_info filelineid) in
  Ok (p, [bpf_log filename linenumber code arg0 arg1 arg2]).

(** The handler of each message; [report_debug_event] has none. *)
Definition handle (e : env) (p : Poller) (t : Z) (m : Agent.agent_msg) : result (Poller * list message) :=
  match m with
  | Agent.dns_packet msg => on_udp p (PollerUdp.handle_dns_message (e_stack e) (udp_ p) t msg)
  | Agent.new_sock_created pid sk => on_tcp p (PollerTcp.handle_new_socket (tcp_ p) t pid sk)
  | Agent.set_state_ipv4 dest src dport sport sk tx_rx => handle_set_state_ipv4 p t dest src dport sport sk tx_rx
  | Agent.set_state_ipv6 dest src dport sport sk tx_rx => handle_set_state_ipv6 p t dest src dport sport sk tx_rx
  | Agent.close_sock_info sk => handle_close_socket p t sk
  | Agent.rtt_estimator msg _ _ _ =>
      let* x := PollerTcp.handle_rtt_estimator (tcp_ p) t msg in Ok (with_tcp p x, [])
  | Agent.reset_tcp_counters msg => on_tcp p (PollerTcp.handle_reset_tcp_counters (tcp_ p) t msg)
  | Agent.tcp_syn_timeout sk => Ok (p, [syn_timeout t sk])
  | Agent.tcp_reset sk is_rx => Ok (p, [tcp_reset t sk is_rx])
  | Agent.http_response sk pid code latency_ns cs => Ok (p, [http_response t sk pid code latency_ns cs])
  | Agent.udp_new_socket msg => on_udp p (PollerUdp.handle_udp_new_socket (udp_ p) t msg)
  | Agent.udp_destroy_socket sk => on_udp p (PollerUdp.handle_udp_destroy_socket (udp_ p) t sk)
  | Agent.udp_stats msg => on_udp p (PollerUdp.handle_udp_stats (nat_handler_ p) (udp_ p) t msg)
  | Agent.pid_info pid comm cgroup parent_pid => Ok (handle_pid_info e p t pid comm cgroup parent_pid)
  | Agent.pid_close pid comm => Ok (handle_pid_close p t pid comm)
  | Agent.pid_set_comm pid comm => Ok (handle_pid_set_comm p t pid comm)
  | Agent.pid_exit tgid pid exit_code => Ok (handle_pid_exit p t tgid pid exit_code)
  | Agent.kill_css cgroup _ _ => Ok (handle_kill_css p t cgroup)
  | Agent.css_populate_dir cgroup parent name => Ok (handle_css_populate_dir e p t cgroup parent name)
  | Agent.existing_cgroup_probe cgroup parent name => Ok (handle_existing_cgroup_probe e p t cgroup parent name)
  | Agent.cgroup_attach_task cgroup pid _ => Ok (handle_cgroup_attach_task p t cgroup pid)
  | Agent.nf_nat_cleanup_conntrack _ ft =>
      Ok (with_nat p (NatHandler.handle_nf_nat_cleanup_conntrack (nat_handler_ p) ft), [])
  | Agent.nf_conntrack_alter_reply _ orig nat =>
      on_nat p (Some (NatHandler.handle_nf_conntrack_alter_reply (nat_handler_ p) t orig nat))
  | Agent.existing_conntrack_tuple ct ft dir =>
      Ok (with_nat p (NatHandler.handle_existing_conntrack_tuple (nat_handler_ p) ct dir ft), [])
  | Agent.bpf_log id code arg0 arg1 arg2 => handle_bpf_log p id code arg0 arg1 arg2
  | Agent.stack_trace _ _ _ _ => Ok (p, [])
  | Agent.tcp_data sk pid length offset stream cs => Ok (p, [tcp_data (e_cpu e) t sk pid length offset stream cs])
  | Agent.report_debug_event _ _ _ _ _ => Throw unknown_message
  end.

(** * Records *)

Definition length_ok (length : Z) (m : Agent.agent_msg) : bool :=
  let fixed := 8 + wire_message_size (Agent.rpc_id m) in
  if 0 <? max_padding m then (fixed <=? length) && (length <=? fixed + max_padding m) else length =? fixed.

Definition message_handler_entrypoint (e : env) (p : Poller) (length t : Z) (m : Agent.agent_msg)
    : result (Poller * list message) :=
  if negb (length_ok length m) then Throw bad_length
  else if negb (e_writable e) then Ok (p, [])
  else handle e p t m.

(** The part of the loop of [process_samples] for a sample. *)
Definition sample (e : env) (p : Poller) (length t : Z) (m : Agent.agent_msg) : result (Poller * list message) :=
  if length <? 10 then Throw no_rpc_id
  else if has_handler m then message_handler_entrypoint e p length t m
  else Throw unknown_message.

Definition send_report_if_recent_loss (p : Poller) : Poller * list message :=
  if lost_count_ p =? notified_lost_count_ p then (p, [])
  else (with_lost p (lost_count_ p) (lost_count_ p), [bpf_lost_samples (u64 (lost_count_ p - notified_lost_count_ p))]).

(** The loop; the result says whether it ran to the end. *)
Fixpoint process_records (p : Poller) (rs : list record) : result (Poller * list message * bool) :=
  match rs with
  | [] => Ok (p, [], true)
  | Sample e length t m :: rs =>
      let* (p, out) := sample e p length t m in
      let* (p, rest, done) := process_records p rs in
      Ok (p, out ++ rest, done)
  | Lost n :: _ =>
      let p := with_lost p (u64 (lost_count_ p + n)) (notified_lost_count_ p) in
      let '(p, out) := send_report_if_recent_loss p in
      Ok (p, out ++ [request_restart], false)
  | Unknown :: _ => Throw unknown_record
  end.

(** The statistics at the end of [process_samples]. *)
Definition process_stats (p : Poller) (t : Z) : result (Poller * list message) :=
  let '(s, relative) := ss_relative_timeslot (PollerTcp.tcp_socket_stats_ (tcp_ p)) t in
  let p := with_tcp p (PollerTcp.set_stats (tcp_ p) s) in
  if relative =? 0 then Ok (p, [])
  else
    let* (p, out1) := on_tcp p (PollerTcp.send_stats_from_queue (tcp_ p) t) in
    let* (p, out2) := on_udp p (PollerUdp.udp_send_stats_from_queue udp_socket_table_max_sockets (udp_ p) t) in
    let '(p, out3) := send_report_if_recent_loss p in
    Ok (p, out1 ++ out2 ++ out3).

(** [flush_error] and [writable] are what the writer says at the end. *)
Definition process_samples (p : Poller) (t : Z) (rs : list record) (flush_error writable : bool)
    : result (Poller * list message) :=
  let* (p, out, done) := process_records p rs in
  if negb done then Ok (p, out)
  else
    let* (p, stats) := process_stats p t in
    if flush_error && writable then Throw flush_failed else Ok (p, out ++ stats).

Definition slow_poll (p : Poller) (t : Z) : result (Poller * list message) :=
  on_udp p (PollerUdp.process_dns_timeouts (udp_ p) t).

(** * Histories *)

Inductive activation :=
  | Poll (t : Z) (rs : list record) (flush_error writable : bool)
  | SlowPoll (t : Z)
  | DataAvailable (cgroup : Z) (data : list Z)
  | FetchDone (cgroup : Z) (status : CgroupHandler.curl_status) (response_code : Z).

Definition activate (p : Poller) (a : activation) : result (Poller * list message) :=
  match a with
  | Poll t rs flush_error writable => process_samples p t rs flush_error writable
  | SlowPoll t => slow_poll p t
  | DataAvailable cgroup data => Ok (with_cgroup p (CgroupHandler.data_available_cb (cgroup_handler_ p) cgroup data), [])
  | FetchDone cgroup status code =>
      let '(x, out) := CgroupHandler.fetch_done_cb (cgroup_handler_ p) cgroup status code in Ok (with_cgroup p x, out)
  end.

Fixpoint poller_run (p : Poller) (acts : list activation) : result (Poller * list message) :=
  match acts with
  | [] => Ok (p, [])
  | a :: acts =>
      let* (p, out) := activate p a in
      let* (p, rest) := poller_run p acts in
      Ok (p, out ++ rest)
  end.
End handlers.
Arguments Poller HT ST HU SU : clear implicits.

(** * What is counted *)

(** The component whose accounts a message belongs to. *)
Inductive origin := From_tcp | From_udp | From_loss | From_other.

Definition origin_of (m : message) : origin :=
  match m with
  | new_sock_info _ _ _ | close_sock_info _ _ | socket_stats _ _ _ _ _ _ _ => From_tcp
  | udp_new_socket _ _ _ _ _ | udp_destroy_socket _ _ | udp_stats_addr_changed_v4 _ _ _ _ _ _ _
  | udp_stats_addr_changed_v6 _ _ _ _ _ _ _ | udp_stats_addr_unchanged _ _ _ _ _ | udp_stats_drops_changed _ _ _
  | dns_response _ _ _ _ _ _ _ _ | dns_timeout _ _ _ _ _ => From_udp
  | bpf_lost_samples _ => From_loss
  | _ => From_other
  end.

Definition only (o : origin) (out : list message) : Prop := Forall (fun m => origin_of m = o) out.

(** The lost samples the server is told of. *)
Fixpoint lost_reported (out : list message) : Z :=
  match out with
  | [] => 0
  | bpf_lost_samples n :: out => n + lost_reported out
  | _ :: out => lost_reported out
  end.

Lemma lost_reported_app (out out' : list message) : lost_reported (out ++ out') = lost_reported out + lost_reported out'.
Proof. induction out as [|m out IH]; [done|]. destruct m; cbn [app lost_reported]; rewrite IH; lia. Qed.

Lemma only_app (o : origin) (out out' : list message) : only o out -> only o out' -> only o (out ++ out').
Proof. intros. by apply Forall_app. Qed.

Lemma only_tcp_silent (o : origin) (out : list message) (c : PollerTcp.counter) (sk : Z) :
  only o out -> o <> From_tcp -> PollerTcp.reported c sk out = 0.
Proof. intros Ho Hn. induction Ho as [|m out Hm Ho IH]; [done|]. cbn. rewrite IH. subst o. by destruct m. Qed.

Lemma only_udp_silent (o : origin) (out : list message) (c : PollerUdp.counter) (i d : Z) :
  only o out -> o <> From_udp -> PollerUdp.total c i d out = 0.
Proof. intros Ho Hn. induction Ho as [|m out Hm Ho IH]; [done|]. cbn. rewrite IH. subst o. by destruct m. Qed.

Lemma only_loss_silent (o : origin) (out : list message) : only o out -> o <> From_loss -> lost_reported out = 0.
Proof. intros Ho Hn. induction Ho as [|m out Hm Ho IH]; [done|]. subst o. by destruct m. Qed.

Lemma rbind_Ok {A B} (r : result A) (f : A -> result B) (b : B) : rbind r f = Ok b -> exists a, r = Ok a /\ f a = Ok b.
Proof. destruct r; try done. eauto. Qed.

(** ** What the TCP handlers write *)
Section tcp_writes.
Context {H S : Type} `{SocketTable PollerTcp.tcp_socket_entry H} `{StatStore PollerTcp.tcp_statistics S}.
Import PollerTcp.

Lemma send_socket_stats_only (t sk : Z) (s : tcp_statistics) : only From_tcp (send_socket_stats t sk s).1.
Proof.
  unfold send_socket_stats. cbn [fst].
  apply only_app; [destruct (_ || _)|destruct (_ || _)]; repeat constructor.
Qed.

Lemma tcp_send_if_valid_only (t : Z) (sk : result Z) (s s' : S) (i e : Z) (out : list message) :
  send_if_valid t sk s i e = Ok (s', out) -> only From_tcp out.
Proof.
  unfold send_if_valid. intros E. apply rbind_Ok in E as (st & _ & E). destruct (valid st).
  - apply rbind_Ok in E as (k & _ & E). pose proof (send_socket_stats_only t k st) as Ho.
    destruct (send_socket_stats t k st) as [o st']. apply rbind_Ok in E as (? & _ & E). by injection E as _ <-.
  - injection E as _ <-. constructor.
Qed.

Lemma tcp_send_epochs_only (t sk i : Z) (es : list Z) (s s' : S) (out : list message) :
  send_epochs t sk s i es = Ok (s', out) -> only From_tcp out.
Proof.
  revert s s' out. induction es as [|e es IH]; intros s s' out E; cbn [send_epochs] in E.
  - injection E as _ <-. constructor.
  - apply rbind_Ok in E as (? & _ & E). apply rbind_Ok in E as ([s1 o1] & E1 & E).
    apply rbind_Ok in E as ([s2 o2] & E2 & E). injection E as _ <-.
    apply only_app; [by eapply tcp_send_if_valid_only|by eapply IH].
Qed.

Lemma tcp_flush_queue_only (fuel : nat) (t : Z) (sks : list Z) (s s' : S) (out : list message) :
  flush_queue fuel t sks s = Ok (s', out) -> only From_tcp out.
Proof.
  revert s s' out. induction fuel as [|fuel IH]; intros s s' out E; cbn [flush_queue] in E;
    apply rbind_Ok in E as (b & _ & E); (destruct b; [injection E as _ <-; constructor|]); [done|].
  apply rbind_Ok in E as (? & _ & E). apply rbind_Ok in E as (? & _ & E). apply rbind_Ok in E as ([s1 o1] & E1 & E).
  apply rbind_Ok in E as (? & _ & E). apply rbind_Ok in E as ([s2 o2] & E2 & E). injection E as _ <-.
  apply only_app; [by eapply tcp_send_if_valid_only|by eapply IH].
Qed.

Lemma tcp_step_only (p p' : Tcp H S) (ev : event) (out : list message) :
  tcp_step p ev = Ok (p', out) -> only From_tcp out.
Proof.
  intros E. destruct ev as [t pid sk|t msg|t msg|t sk|t]; cbn [tcp_step] in E.
  - unfold handle_new_socket in E. apply rbind_Ok in E as ([? b] & _ & E). injection E as _ <-. destruct b; repeat constructor.
  - unfold handle_reset_tcp_counters in E. apply rbind_Ok in E as ([? b] & _ & E). destruct b; cbn [negb] in E.
    + apply rbind_Ok in E as (? & _ & E). injection E as _ <-. repeat constructor.
    + injection E as _ <-. repeat constructor.
  - apply rbind_Ok in E as (? & _ & E). injection E as _ <-. constructor.
  - apply rbind_Ok in E as ([[? o] b] & E1 & E). injection E as _ <-. unfold handle_close_socket in E1.
    apply rbind_Ok in E1 as ([[i x]|] & _ & E1); [|injection E1 as _ <- _; constructor].
    apply rbind_Ok in E1 as ([s1 o1] & Es & E1). apply rbind_Ok in E1 as ([h ok] & _ & E1). destruct ok; [|done].
    injection E1 as _ <- _. apply only_app; [by eapply tcp_send_epochs_only|repeat constructor].
  - unfold send_stats_from_queue in E. destruct (ss_relative_timeslot _ t) as [s r]. destruct (r =? 0).
    + injection E as _ <-. constructor.
    + apply rbind_Ok in E as ([s1 o1] & E1 & E). injection E as _ <-. by eapply tcp_flush_queue_only.
Qed.
End tcp_writes.

(** ** What the UDP handlers write *)
Section udp_writes.
Context {H S : Type} `{SocketTable PollerUdp.udp_socket_entry H} `{StatStore PollerUdp.udp_statistics S} `{!Dns.AresDns}.
Context `{!DnsRequests.MultimapOrder}.
Import PollerUdp.

Lemma udp_send_new_socket_only (t i : Z) (e : udp_socket_entry) : only From_udp (udp_send_new_socket t e i).1.
Proof. unfold udp_send_new_socket. destruct (negb _); repeat constructor. Qed.

Lemma udp_send_stats_only (t i d : Z) (e e' : udp_socket_entry) (s s' : udp_statistics) (out : list message) :
  udp_send_stats t i d e s = Ok (out, e', s') -> only From_udp out.
Proof.
  unfold udp_send_stats. intros E. apply rbind_Ok in E as (a & _ & E).
  assert (Ho : only From_udp (if negb (reported e) then udp_send_new_socket t e i else ([], e)).1)
    by (destruct (negb (reported e)); [apply udp_send_new_socket_only|constructor]).
  destruct (if negb (reported e) then _ else _) as [o0 e0]. apply rbind_Ok in E as (o1 & E1 & E).
  apply rbind_Ok in E as (? & _ & E). injection E as <- _ _. apply only_app; [done|]. apply only_app.
  - destruct (changed_af a =? AF_INET); [apply rbind_Ok in E1 as (? & _ & E1)|destruct (changed_af a =? AF_INET6)];
      injection E1 as <-; repeat constructor.
  - destruct (_ && _); repeat constructor.
Qed.

Lemma change_address_only nat (t i : Z) (e e' : udp_socket_entry) (s s' : udp_statistics) (msg : udp_stats_msg)
    (out : list message) :
  change_address nat t i e s msg = Ok (out, e', s') -> only From_udp out.
Proof.
  unfold change_address. intros E. apply rbind_Ok in E as ([[o1 e1] s1] & E1 & E). apply rbind_Ok in E as (? & _ & E).
  apply rbind_Ok in E as ([[o2 e2] s2] & E2 & E). injection E as <- _ _. apply only_app; [|by eapply udp_send_stats_only].
  destruct (valid s); [by eapply udp_send_stats_only|]. injection E1 as <- _ _. constructor.
Qed.

Lemma udp_send_if_valid_only (t d i e : Z) (er : result udp_socket_entry) (s s' : S) x (out : list message) :
  send_if_valid t d i e er s = Ok (x, s', out) -> only From_udp out.
Proof.
  unfold send_if_valid. intros E. apply rbind_Ok in E as (st & _ & E). destruct (valid st).
  - apply rbind_Ok in E as (? & _ & E). apply rbind_Ok in E as ([[o e1] s1] & E1 & E).
    apply rbind_Ok in E as (? & _ & E). injection E as _ _ <-. by eapply udp_send_stats_only.
  - injection E as _ _ <-. constructor.
Qed.

Lemma udp_send_epochs_only (t d i : Z) (es : list Z) (x x' : udp_socket_entry) (s s' : S) (out : list message) :
  send_epochs t d i es x s = Ok (x', s', out) -> only From_udp out.
Proof.
  revert x x' s s' out. induction es as [|e es IH]; intros x x' s s' out E; cbn [send_epochs] in E.
  - injection E as _ _ <-. constructor.
  - apply rbind_Ok in E as (? & _ & E). apply rbind_Ok in E as ([[y1 s1] o1] & E1 & E).
    apply rbind_Ok in E as ([[y2 s2] o2] & E2 & E). injection E as _ _ <-.
    apply only_app; [by eapply udp_send_if_valid_only|by eapply IH].
Qed.

Lemma send_directions_only (t i : Z) (ds : list Z) (x x' : udp_socket_entry) (ss ss' : list S) (out : list message) :
  send_directions t i ds x ss = Ok (x', ss', out) -> only From_udp out.
Proof.
  revert x x' ss ss' out. induction ds as [|d ds IH]; intros x x' ss ss' out E; cbn [send_directions] in E.
  - injection E as _ _ <-. constructor.
  - apply rbind_Ok in E as (? & _ & E). apply rbind_Ok in E as ([[y1 s1] o1] & E1 & E). apply rbind_Ok in E as (? & _ & E).
    apply rbind_Ok in E as ([[y2 s2] o2] & E2 & E). injection E as _ _ <-.
    apply only_app; [by eapply udp_send_epochs_only|by eapply IH].
Qed.

Lemma udp_flush_queue_only (fuel : nat) (t d : Z) (h h' : H) (s s' : S) (out : list message) :
  flush_queue fuel t d h s = Ok (h', s', out) -> only From_udp out.
Proof.
  revert h h' s s' out. induction fuel as [|fuel IH]; intros h h' s s' out E; cbn [flush_queue] in E;
    apply rbind_Ok in E as (b & _ & E); (destruct b; [injection E as _ _ <-; constructor|]); [done|].
  apply rbind_Ok in E as (? & _ & E). apply rbind_Ok in E as (? & _ & E). apply rbind_Ok in E as ([[y1 s1] o1] & E1 & E).
  apply rbind_Ok in E as (? & _ & E). apply rbind_Ok in E as (? & _ & E).
  apply rbind_Ok in E as ([[h2 s2] o2] & E2 & E). injection E as _ _ <-.
  apply only_app; [by eapply udp_send_if_valid_only|by eapply IH].
Qed.

Lemma flush_directions_only (max t : Z) (ds : list Z) (h h' : H) (ss ss' : list S) (out : list message) :
  flush_directions max t ds h ss = Ok (h', ss', out) -> only From_udp out.
Proof.
  revert h h' ss ss' out. induction ds as [|d ds IH]; intros h h' ss ss' out E; cbn [flush_directions] in E.
  - injection E as _ _ <-. constructor.
  - apply rbind_Ok in E as (s & _ & E). destruct (ss_relative_timeslot s t) as [s1 r].
    apply rbind_Ok in E as ([[h1 s2] o1] & E1 & E). apply rbind_Ok in E as (? & _ & E).
    apply rbind_Ok in E as ([[h2 ss2] o2] & E2 & E). injection E as _ _ <-. apply only_app; [|by eapply IH].
    destruct (r =? 0); [injection E1 as _ _ <-; constructor|].
    apply rbind_Ok in E1 as ([[h3 s3] o3] & E3 & E1). injection E1 as _ _ <-. by eapply udp_flush_queue_only.
Qed.

Lemma timeout_all_only (t : Z) (reqs : list DnsRequests.Request) (p p' : Udp H S) (out : list message) :
  timeout_all p t reqs = Ok (p', out) -> only From_udp out.
Proof.
  revert p p' out. induction reqs as [|r reqs IH]; intros p p' out E; cbn [timeout_all] in E.
  - injection E as _ <-. constructor.
  - apply rbind_Ok in E as ([p1 o1] & E1 & E). apply rbind_Ok in E as ([p2 o2] & E2 & E). injection E as _ <-.
    apply only_app; [|by eapply IH]. unfold timeout_dns_request in E1. apply rbind_Ok in E1 as ([k v] & _ & E1).
    apply rbind_Ok in E1 as (pos & _ & E1). apply rbind_Ok in E1 as (? & _ & E1). injection E1 as _ <-.
    destruct pos as [[? ?]|]; repeat constructor.
Qed.

Lemma answer_requests_only (p : Udp H S) (t sk i cs : Z) answer (reqs : list DnsRequests.Request) (out : list message) :
  answer_requests p t sk i cs answer reqs = Ok out -> only From_udp out.
Proof.
  revert out. induction reqs as [|r reqs IH]; intros out E; cbn [answer_requests] in E.
  - injection E as <-. constructor.
  - apply rbind_Ok in E as ([k v] & _ & E). apply rbind_Ok in E as (o1 & E1 & E). apply rbind_Ok in E as (o2 & E2 & E).
    injection E as <-. apply only_app; [|by apply IH]. destruct answer as [[[? ?] ?]|].
    + apply rbind_Ok in E1 as (? & _ & E1). injection E1 as <-. repeat constructor.
    + injection E1 as <-. constructor.
Qed.

Lemma handle_dns_message_only (st : stack) (p p' : Udp H S) (t : Z) (msg : dns_packet_msg) (out : list message) :
  handle_dns_message st p t msg = Ok (p', out) -> only From_udp out.
Proof.
  unfold handle_dns_message. cbv zeta. intros E. destruct (_ <? _); [done|]. apply rbind_Ok in E as ([[i x]|] & _ & E).
  2:{ injection E as _ <-. constructor. }
  apply rbind_Ok in E as ([ret q] & _ & E). destruct (negb _); [injection E as _ <-; constructor|].
  do 5 apply rbind_Ok in E as (? & _ & E). destruct (_ =? 0); [injection E as _ <-; constructor|].
  apply rbind_Ok in E as ([? r] & _ & E). do 4 apply rbind_Ok in E as (? & _ & E).
  destruct (DnsRequests.lookup _ _); [injection E as _ <-; constructor|].
  apply rbind_Ok in E as (o & E1 & E). apply rbind_Ok in E as (? & _ & E). injection E as _ <-.
  by eapply answer_requests_only.
Qed.

Lemma udp_step_only (max : Z) (p p' : Udp H S) (ev : event) (out : list message) :
  udp_step max p ev = Ok (p', out) -> only From_udp out.
Proof.
  intros E. destruct ev as [t msg|nat t msg|t sk|t|st t msg|t]; cbn [udp_step] in E.
  - unfold handle_udp_new_socket in E. destruct (tb_full _); [injection E as _ <-; constructor|].
    apply rbind_Ok in E as ([h [i|]] & _ & E); [|injection E as _ <-; constructor].
    set (x := mk_entry _ _ _ _ _ _) in E. pose proof (udp_send_new_socket_only t i x) as Ho.
    destruct (udp_send_new_socket t x i) as [o y]. apply rbind_Ok in E as (? & _ & E). by injection E as _ <-.
  - unfold handle_udp_stats in E. apply rbind_Ok in E as ([[i x]|] & _ & E); [|injection E as _ <-; constructor].
    apply rbind_Ok in E as (? & _ & E). apply rbind_Ok in E as ([s e] & _ & E). apply rbind_Ok in E as (? & _ & E).
    apply rbind_Ok in E as ([[o y] z] & E1 & E). do 3 apply rbind_Ok in E as (? & _ & E). injection E as _ <-.
    destruct (negb _); [by eapply change_address_only|]. injection E1 as <- _ _. constructor.
  - unfold handle_udp_destroy_socket in E. apply rbind_Ok in E as ([[i x]|] & _ & E); [|injection E as _ <-; constructor].
    apply rbind_Ok in E as ([p1 o0] & E0 & E). apply rbind_Ok in E as ([ss o1] & E1 & E).
    apply rbind_Ok in E as ([h b] & _ & E). injection E as _ <-. apply only_app; [by eapply timeout_all_only|].
    destruct (reported x); [|injection E1 as _ <-; constructor].
    apply rbind_Ok in E1 as ([[y ss2] o2] & E2 & E1). injection E1 as _ <-.
    apply only_app; [by eapply send_directions_only|repeat constructor].
  - unfold udp_send_stats_from_queue in E. apply rbind_Ok in E as ([[h ss] o] & E1 & E). injection E as _ <-.
    by eapply flush_directions_only.
  - by eapply handle_dns_message_only.
  - by eapply timeout_all_only.
Qed.
End udp_writes.

(** * Accounts *)

(** The events a message is for the TCP handlers. *)
Definition tcp_events_of (t : Z) (m : Agent.agent_msg) : list PollerTcp.event :=
  match m with
  | Agent.new_sock_created pid sk => [PollerTcp.New t pid sk]
  | Agent.reset_tcp_counters msg => [PollerTcp.Reset t msg]
  | Agent.rtt_estimator msg _ _ _ => [PollerTcp.Rtt t msg]
  | Agent.close_sock_info sk => [PollerTcp.Close t sk]
  | _ => []
  end.

(** Of the records of a poll, those before a loss are handled, while the writer is
    connected. *)
Fixpoint tcp_events_in (rs : list record) : list PollerTcp.event :=
  match rs with
  | Sample e _ t m :: rs => (if e_writable e then tcp_events_of t m else []) ++ tcp_events_in rs
  | _ => []
  end.

Definition tcp_events (acts : list activation) : list PollerTcp.event :=
  concat ((fun a => match a with Poll _ rs _ _ => tcp_events_in rs | _ => [] end) <$> acts).

(** The samples the kernel reports as lost. *)
Fixpoint lost_in (rs : list record) : Z :=
  match rs with Sample _ _ _ _ :: rs => lost_in rs | Lost n :: _ => n | _ => 0 end.

Definition lost_total (acts : list activation) : Z :=
  foldr Z.add 0 ((fun a => match a with Poll _ rs _ _ => lost_in rs | _ => 0 end) <$> acts).

Section laws.
Context {HT ST HU SU : Type}.
Context `{SocketTableLaws PollerTcp.tcp_socket_entry HT} `{StatStoreLaws PollerTcp.tcp_statistics ST}.
Context `{SocketTableLaws PollerUdp.udp_socket_entry HU} `{StatStoreLaws PollerUdp.udp_statistics SU}.
Context `{!Dns.AresDns, !Dns.AresDnsLaws} `{!DnsRequests.MultimapOrder}.
Context (lines : list Z) (files : list (list Z)) (wire : Z -> Z) (force : bool) (max : Z).
#[local] Abbreviation capacity := (tb_size (T := PollerTcp.tcp_socket_entry) (H := HT)).
#[local] Abbreviation slots := (ss_size (Metric := PollerUdp.udp_statistics) (S := SU)).
#[local] Abbreviation poller := (Poller HT ST HU SU).
Context (Het : ss_epochs (Metric := PollerTcp.tcp_statistics) (S := ST) = PollerTcp.n_epochs).
Context (Hst : ss_size (Metric := PollerTcp.tcp_statistics) (S := ST) = capacity).
Context (Heu : ss_epochs (Metric := PollerUdp.udp_statistics) (S := SU) = PollerUdp.n_epochs).
Context (Hsu : slots = tb_size (T := PollerUdp.udp_socket_entry) (H := HU)) (Hmax : slots = max).

(** [open] are the open TCP sockets with their last counters. *)
Definition poller_inv (p : poller) (open : gmap Z PollerTcp.tcp_socket_entry) : Prop :=
  (exists C M Q cur, PollerTcp.tcp_rep (tcp_ p) C M Q cur /\ snd <$> C = open) /\
  (exists C M Q cur, PollerUdp.udp_rep (udp_ p) C M Q cur) /\
  NatHandler.nat_inv (nat_handler_ p).

Definition unreported (p : poller) : Z := lost_count_ p - notified_lost_count_ p.

(** From [p] to [p'], with output [out]: the books of the three components balance. *)
Record accounted (p p' : poller) (open : gmap Z PollerTcp.tcp_socket_entry) (evs : list PollerTcp.event)
    (g : PollerUdp.counter -> Z -> Z -> Z) (lost : Z) (out : list message) : Prop := {
  ac_tcp : forall c sk,
    (PollerTcp.reported c sk out + PollerTcp.pending c sk (tcp_ p')) mod 2 ^ PollerTcp.width c
    = (PollerTcp.pending c sk (tcp_ p) + PollerTcp.observed capacity c sk open evs) mod 2 ^ PollerTcp.width c;
  ac_udp : forall c i d, 0 <= i < slots -> 0 <= d < 2 ->
    (PollerUdp.total c i d out + PollerUdp.pending c i d (udp_ p')) mod 2 ^ PollerUdp.width c
    = (PollerUdp.pending c i d (udp_ p) + g c i d) mod 2 ^ PollerUdp.width c;
  ac_lost : (lost_reported out + unreported p') mod 2 ^ 64 = (unreported p + lost) mod 2 ^ 64;
  ac_settled : unreported p = 0 -> unreported p' = 0;
}.

Lemma mod_chain (w a b c x y g1 g2 : Z) :
  (x + b) mod w = (a + g1) mod w -> (y + c) mod w = (b + g2) mod w ->
  (x + y + c) mod w = (a + (g1 + g2)) mod w.
Proof.
  intros E1 E2. rewrite <- Z.add_assoc, <- Zplus_mod_idemp_r, E2, Zplus_mod_idemp_r, Z.add_assoc.
  rewrite <- Zplus_mod_idemp_l, E1, Zplus_mod_idemp_l. f_equal. lia.
Qed.

Lemma accounted_trans (p p1 p2 : poller) open evs1 evs2 g1 g2 (l1 l2 : Z) (out1 out2 : list message) :
  accounted p p1 open evs1 g1 l1 out1 -> accounted p1 p2 (PollerTcp.ref_run capacity open evs1) evs2 g2 l2 out2 ->
  accounted p p2 open (evs1 ++ evs2) (fun c i d => g1 c i d + g2 c i d) (l1 + l2) (out1 ++ out2).
Proof.
  intros [T1 U1 L1 S1] [T2 U2 L2 S2]. constructor.
  - intros c sk. rewrite PollerTcp.reported_app, PollerTcp.observed_app. by eapply mod_chain.
  - intros c i d Hi Hd. rewrite PollerUdp.total_app. by eapply mod_chain; [apply U1|apply U2].
  - rewrite lost_reported_app. by eapply mod_chain.
  - auto.
Qed.

Lemma accounted_ext (p p' : poller) open evs g g' (l l' : Z) (out : list message) :
  accounted p p' open evs g l out -> (forall c i d, g c i d = g' c i d) -> l = l' -> accounted p p' open evs g' l' out.
Proof. intros [T U L Hs] Hg <-. constructor; [done| |done|done]. intros. rewrite <- Hg. by apply U. Qed.

(** A step of the TCP handlers. *)
Lemma tcp_accounted (p : poller) open (ev : PollerTcp.event) :
  poller_inv p open ->
  exists x out, PollerTcp.tcp_step (tcp_ p) ev = Ok (x, out) /\
    poller_inv (with_tcp p x) (PollerTcp.ref_step capacity open ev) /\
    accounted p (with_tcp p x) open [ev] PollerUdp.nothing 0 out.
Proof.
  intros ((C & M & Q & cur & Hr & Ho) & Hu & Hn).
  destruct (PollerTcp.tcp_step_conserves Het Hst (tcp_ p) C M Q cur ev Hr)
    as (x & out & C' & M' & Q' & cur' & E & Hr' & Ho' & Hc). exists x, out. split; [done|].
  pose proof (tcp_step_only _ _ _ _ E) as Hout. split; [|constructor].
  - split; [|done]. exists C', M', Q', cur'. split; [done|]. by rewrite Ho', Ho.
  - intros c sk. cbn [tcp_ with_tcp PollerTcp.observed].
    rewrite (PollerTcp.pending_eq Het Hst _ _ _ _ _ c sk Hr), (PollerTcp.pending_eq Het Hst _ _ _ _ _ c sk Hr').
    rewrite Hc, Ho. f_equal. lia.
  - intros c i d _ _. rewrite (only_udp_silent _ _ c i d Hout) by done. cbn. f_equal. unfold PollerUdp.nothing. lia.
  - rewrite (only_loss_silent _ _ Hout) by done. f_equal. unfold unreported. cbn. lia.
  - done.
Qed.

(** A step of the UDP handlers. *)
Definition udp_gain (u : PollerUdp.Udp HU SU) (ev : PollerUdp.event) (c : PollerUdp.counter) (i d : Z) : Z :=
  PollerUdp.event_gain u ev c i d + PollerUdp.event_stale u ev c i d.

Lemma udp_accounted (p : poller) open (ev : PollerUdp.event) :
  poller_inv p open -> PollerUdp.event_ok (udp_ p) ev ->
  exists x out, PollerUdp.udp_step max (udp_ p) ev = Ok (x, out) /\ poller_inv (with_udp p x) open /\
    accounted p (with_udp p x) open [] (udp_gain (udp_ p) ev) 0 out.
Proof.
  intros (Ht & (C & M & Q & cur & Hr) & Hn) Hok.
  destruct (PollerUdp.udp_step_accounts Heu Hsu max (udp_ p) C M Q cur ev Hr Hmax Hok)
    as (x & out & C' & M' & Q' & cur' & E & Hr' & Ha & _). exists x, out. split; [done|].
  pose proof (udp_step_only _ _ _ _ _ E) as Hout. split; [|constructor].
  - split; [done|]. split; [|done]. by exists C', M', Q', cur'.
  - intros c sk. rewrite (only_tcp_silent _ _ c sk Hout) by done. cbn. f_equal. lia.
  - intros c i d Hi Hd. cbn [udp_ with_udp].
    rewrite (PollerUdp.pending_pend Heu _ _ _ _ _ c i d Hr' Hi Hd), (PollerUdp.pending_pend Heu _ _ _ _ _ c i d Hr Hi Hd).
    by apply Ha.
  - rewrite (only_loss_silent _ _ Hout) by done. f_equal. unfold unreported. cbn. lia.
  - done.
Qed.

(** A step of the other components. *)
Lemma other_accounted (p p' : poller) open (out : list message) :
  tcp_ p' = tcp_ p -> udp_ p' = udp_ p -> lost_count_ p' = lost_count_ p ->
  notified_lost_count_ p' = notified_lost_count_ p -> only From_other out ->
  accounted p p' open [] PollerUdp.nothing 0 out.
Proof.
  intros Et Eu El En Hout. constructor.
  - intros c sk. rewrite (only_tcp_silent _ _ c sk Hout), Et by done. cbn. f_equal. lia.
  - intros c i d _ _. rewrite (only_udp_silent _ _ c i d Hout), Eu by done. unfold PollerUdp.nothing. f_equal. lia.
  - rewrite (only_loss_silent _ _ Hout) by done. unfold unreported. rewrite El, En. f_equal. lia.
  - unfold unreported. by rewrite El, En.
Qed.

(** ** The dispatch *)

(** What a message is for the UDP handlers. *)
Definition udp_event_of (e : env) (p : poller) (t : Z) (m : Agent.agent_msg) : option PollerUdp.event :=
  match m with
  | Agent.udp_new_socket msg => Some (PollerUdp.NewSocket t msg)
  | Agent.udp_destroy_socket sk => Some (PollerUdp.Destroy t sk)
  | Agent.udp_stats msg => Some (PollerUdp.Stats (nat_handler_ p) t msg)
  | Agent.dns_packet msg => Some (PollerUdp.DnsPacket (e_stack e) t msg)
  | _ => None
  end.

(** The sum of a quantity of the UDP events: what the probes counted is that of
    [PollerUdp.event_gain], what is reported again that of [PollerUdp.event_stale]. *)
#[local] Abbreviation quantity := (PollerUdp.Udp HU SU -> PollerUdp.event -> PollerUdp.counter -> Z -> Z -> Z).
Definition gain_of (f : quantity) (e : env) (p : poller) (t : Z) (m : Agent.agent_msg) (c : PollerUdp.counter) (i d : Z) : Z :=
  match udp_event_of e p t m with Some ev => f (udp_ p) ev c i d | None => 0 end.

(** What the probes promise of a message in a state. *)
Definition message_ok (e : env) (p : poller) (t : Z) (m : Agent.agent_msg) : Prop :=
  match m with
  | Agent.set_state_ipv6 dest src dport sport sk _ =>
      NatHandler.op_ok (NatHandler.Set_state_ipv6 t sk src dest sport dport)
  | Agent.bpf_log id _ _ _ _ => 0 <= id < zlen lines /\ 0 <= id < zlen files
  | Agent.report_debug_event _ _ _ _ _ => False
  | _ => match udp_event_of e p t m with Some ev => PollerUdp.event_ok (udp_ p) ev | None => True end
  end.

Lemma nat_inv_with (p : poller) open (n : NatHandler.NatHandler) :
  poller_inv p open -> NatHandler.nat_inv n -> poller_inv (with_nat p n) open.
Proof. intros (? & ? & _) ?. by split_and!. Qed.

Lemma only_remaps (ms : list NatHandler.nat_remapping) : only From_other (nat_remapping <$> ms).
Proof. induction ms; by constructor. Qed.

(** A step of the NAT handler, after the messages [pre]. *)
Lemma nat_accounted (p : poller) open (o : NatHandler.op) (pre : list message) :
  poller_inv p open -> NatHandler.op_ok o -> only From_other pre ->
  exists n ms, NatHandler.nat_step (nat_handler_ p) o = Some (n, ms) /\ poller_inv (with_nat p n) open /\
    accounted p (with_nat p n) open [] PollerUdp.nothing 0 (pre ++ (nat_remapping <$> ms)).
Proof.
  intros Hi Ho Hpre. pose proof Hi as (_ & _ & Hn).
  destruct (NatHandler.nat_step_refines _ o Hn Ho) as (n & ms & E & Hn' & _). exists n, ms. split; [done|].
  split; [by apply nat_inv_with|]. apply other_accounted; try done. apply only_app; [done|apply only_remaps].
Qed.

(** The socket table can be searched in any state. *)
Lemma find_ok (p : poller) open (sk : Z) :
  poller_inv p open -> exists pos, tb_find (PollerTcp.tcp_socket_table_ (tcp_ p)) sk = Some pos.
Proof. intros ((C & M & Q & cur & Hr & _) & _). rewrite (tb_find_spec _ C sk (PollerTcp.tr_table _ _ _ _ _ Hr)). eauto. Qed.

(** What a handler must do in a state, on a message that is the TCP events [evs]. *)
Definition behaves (p : poller) open (evs : list PollerTcp.event) g (lost : Z) (r : result (poller * list message)) : Prop :=
  exists p' out, r = Ok (p', out) /\ poller_inv p' (PollerTcp.ref_run capacity open evs) /\
    accounted p p' open evs g lost out.

Lemma behaves_other (p p' : poller) open (out : list message) :
  poller_inv p open -> tcp_ p' = tcp_ p -> udp_ p' = udp_ p -> nat_handler_ p' = nat_handler_ p ->
  lost_count_ p' = lost_count_ p -> notified_lost_count_ p' = notified_lost_count_ p -> only From_other out ->
  behaves p open [] PollerUdp.nothing 0 (Ok (p', out)).
Proof.
  intros (Ht & Hu & Hn) Et Eu En El Enl Hout. exists p', out. split; [done|]. split; [|by apply other_accounted].
  unfold poller_inv. by rewrite Et, Eu, En.
Qed.

Lemma set_state_behaves (p : poller) open (o : NatHandler.op) (sk : Z) (msg : message) :
  poller_inv p open -> NatHandler.op_ok o -> origin_of msg = From_other ->
  behaves p open [] PollerUdp.nothing 0
    (let* pos := get (tb_find (PollerTcp.tcp_socket_table_ (tcp_ p)) sk) in
     match pos with
     | None => Ok (p, [])
     | Some _ => let* (p, out) := on_nat p (NatHandler.nat_step (nat_handler_ p) o) in Ok (p, msg :: out)
     end).
Proof.
  intros Hi Ho Hmsg. destruct (find_ok p open sk Hi) as [pos ->]. cbn [get rbind]. destruct pos as [pos|].
  - destruct (nat_accounted p open o [msg] Hi Ho) as (n & ms & E & Hi' & Ha); [by repeat constructor|].
    unfold on_nat. rewrite E. cbn [get rbind]. by eexists _, _.
  - apply behaves_other; done || constructor.
Qed.

Lemma close_behaves (p : poller) open (t sk : Z) :
  poller_inv p open -> behaves p open [PollerTcp.Close t sk] PollerUdp.nothing 0 (handle_close_socket p t sk).
Proof.
  intros Hi. destruct (tcp_accounted p open (PollerTcp.Close t sk) Hi) as (x & out & E & Hi' & Ha).
  cbn [PollerTcp.tcp_step] in E. apply rbind_Ok in E as ([[x0 o0] known] & E & E'). injection E' as -> ->.
  unfold handle_close_socket. rewrite E. cbn [rbind]. destruct known; cbn [negb]; [|by eexists _, _].
  destruct (nat_accounted (with_tcp p x) _ (NatHandler.Close_socket sk) [tcp_data_close sk] Hi')
    as (n & ms & En & Hi2 & Ha2); [done|by repeat constructor|]. cbn [NatHandler.nat_step nat_handler_ with_tcp] in En |- *.
  destruct (NatHandler.handle_close_socket _ sk) as [n'|]; [|done]. injection En as -> <-. cbn [get rbind].
  eexists _, _. split; [done|]. split; [exact Hi2|]. rewrite app_nil_r in Ha2.
  eapply accounted_ext; [exact (accounted_trans _ _ _ _ _ [] _ _ _ _ _ _ Ha Ha2)|done|done].
Qed.

Lemma on_tcp_behaves (p : poller) open (ev : PollerTcp.event) :
  poller_inv p open -> behaves p open [ev] PollerUdp.nothing 0 (on_tcp p (PollerTcp.tcp_step (tcp_ p) ev)).
Proof. intros Hi. destruct (tcp_accounted p open ev Hi) as (x & out & E & ? & ?). unfold on_tcp. rewrite E. by eexists _, _. Qed.

Lemma on_udp_behaves (p : poller) open (ev : PollerUdp.event) :
  poller_inv p open -> PollerUdp.event_ok (udp_ p) ev ->
  behaves p open [] (udp_gain (udp_ p) ev) 0 (on_udp p (PollerUdp.udp_step max (udp_ p) ev)).
Proof. intros Hi Ho. destruct (udp_accounted p open ev Hi Ho) as (x & out & E & ? & ?). unfold on_udp. rewrite E. by eexists _, _. Qed.

(** The handlers of processes and cgroups write nothing the accounts count. *)
Lemma process_only (h : ProcessHandler.ProcessHandler) (t pid tgid cgroup code : Z) (comm : list Z) :
  only From_other (ProcessHandler.on_process_end h pid).2 /\ only From_other (ProcessHandler.on_cgroup_move h pid cgroup).2 /\
  only From_other (ProcessHandler.set_process_command h pid comm).2 /\
  only From_other (ProcessHandler.pid_exit h t tgid pid code).2.
Proof.
  unfold ProcessHandler.on_process_end, ProcessHandler.on_cgroup_move, ProcessHandler.set_process_command,
    ProcessHandler.pid_exit. split_and!; case_match; repeat constructor.
Qed.

Lemma fetch_done_only (h : CgroupHandler.CgroupHandler) (cgroup : Z) st (code : Z) :
  only From_other (CgroupHandler.fetch_done_cb h cgroup st code).2.
Proof.
  unfold CgroupHandler.fetch_done_cb. destruct (_ !! cgroup); [|constructor]. destruct st; [|constructor].
  destruct (_ && _); repeat constructor.
Qed.

Lemma handle_cgroup_only (h : CgroupHandler.CgroupHandler) st (cgroup parent : Z) (name : list Z) :
  only From_other (CgroupHandler.handle_cgroup force h st cgroup parent name).2.
Proof.
  unfold CgroupHandler.handle_cgroup. destruct (_ !! cgroup); [constructor|]. destruct (_ !! parent) as [q|]; [|constructor].
  destruct (CgroupHandler.is_docker _ _ _); [|constructor]. unfold CgroupHandler.handle_docker_container.
  destruct (_ !! cgroup); [constructor|]. destruct st; [repeat constructor|].
  set (h' := CgroupHandler.mk_handler _ _). pose proof (fetch_done_only h' cgroup CgroupHandler.Curl_error 0).
  destruct (CgroupHandler.fetch_done_cb _ _ _ _). by constructor.
Qed.

Lemma processes_behave (e : env) (p : poller) open (t pid tgid cgroup code : Z) (comm name : list Z) (parent : Z) :
  poller_inv p open ->
  behaves p open [] PollerUdp.nothing 0 (Ok (handle_pid_info e p t pid comm cgroup parent)) /\
  behaves p open [] PollerUdp.nothing 0 (Ok (handle_pid_close p t pid comm)) /\
  behaves p open [] PollerUdp.nothing 0 (Ok (handle_pid_set_comm p t pid comm)) /\
  behaves p open [] PollerUdp.nothing 0 (Ok (handle_pid_exit p t tgid pid code)) /\
  behaves p open [] PollerUdp.nothing 0 (Ok (handle_cgroup_attach_task p t cgroup pid)).
Proof.
  intros Hi. destruct (process_only (process_handler_ p) t pid tgid cgroup code comm) as (? & ? & ? & ?).
  unfold handle_pid_info, handle_pid_close, handle_pid_set_comm, handle_pid_exit, handle_cgroup_attach_task.
  cbn [process_handler_ with_pids]. split_and!.
  - apply behaves_other; try done. repeat constructor.
  - destruct (ProcessHandler.on_process_end _ _). apply behaves_other; try done. apply only_app; [done|repeat constructor].
  - destruct (ProcessHandler.set_process_command _ _ _). apply behaves_other; try done.
    apply only_app; [done|repeat constructor].
  - destruct (ProcessHandler.pid_exit _ _ _ _ _). by apply behaves_other.
  - destruct (ProcessHandler.on_cgroup_move _ _ _). apply behaves_other; try done. apply only_app; [done|repeat constructor].
Qed.

Lemma cgroups_behave (e : env) (p : poller) open (t cgroup parent : Z) (name : list Z) :
  poller_inv p open ->
  behaves p open [] PollerUdp.nothing 0 (Ok (handle_css_populate_dir force e p t cgroup parent name)) /\
  behaves p open [] PollerUdp.nothing 0 (Ok (handle_existing_cgroup_probe force e p t cgroup parent name)).
Proof.
  intros Hi. pose proof (handle_cgroup_only (cgroup_handler_ p) (e_scheduled e) cgroup parent (strn name)) as Ho.
  unfold handle_css_populate_dir, handle_existing_cgroup_probe, CgroupHandler.css_populate_dir,
    CgroupHandler.existing_cgroup_probe. destruct (CgroupHandler.handle_cgroup _ _ _ _ _ _).
  split; (apply behaves_other; try done; apply only_app; [done|repeat constructor]).
Qed.

Lemma handle_behaves (e : env) (p : poller) open (t : Z) (m : Agent.agent_msg) :
  poller_inv p open -> message_ok e p t m ->
  behaves p open (tcp_events_of t m) (gain_of udp_gain e p t m) 0 (handle lines files force e p t m).
Proof.
  intros Hi Hok. destruct m; cbn [handle tcp_events_of]; unfold gain_of; cbn [udp_event_of message_ok] in *;
    try (apply behaves_other; first [done | by repeat constructor]).
  - by apply (on_udp_behaves p open (PollerUdp.DnsPacket (e_stack e) t msg)).
  - by apply (on_tcp_behaves p open (PollerTcp.Reset t msg)).
  - by apply (on_tcp_behaves p open (PollerTcp.New t pid sk)).
  - by apply (on_udp_behaves p open (PollerUdp.NewSocket t msg)).
  - by apply (on_udp_behaves p open (PollerUdp.Destroy t sk)).
  - by apply (on_udp_behaves p open (PollerUdp.Stats (nat_handler_ p) t msg)).
  - by apply (processes_behave e p open t pid 0 0 0 comm [] 0).
  - by apply (set_state_behaves p open (NatHandler.Set_state_ipv4 t sk src dest sport dport)).
  - by apply (set_state_behaves p open (NatHandler.Set_state_ipv6 t sk src dest sport dport)).
  - pose proof (on_tcp_behaves p open (PollerTcp.Rtt t msg) Hi) as Hb. unfold on_tcp in Hb. cbn [PollerTcp.tcp_step] in Hb.
    by destruct (PollerTcp.handle_rtt_estimator _ t msg).
  - by apply close_behaves.
  - by apply cgroups_behave.
  - by apply cgroups_behave.
  - by apply (processes_behave e p open t pid 0 cgroup 0 [] [] 0).
  - destruct (nat_accounted p open (NatHandler.Alter_reply t orig nat) [] Hi) as (n & ms & E & Hi' & Ha); [done|constructor|].
    cbn [NatHandler.nat_step] in E. unfold on_nat. rewrite E. cbn [get rbind]. by eexists _, _.
  - destruct (nat_accounted p open (NatHandler.Cleanup ft) [] Hi) as (n & ms & E & Hi' & Ha); [done|constructor|].
    injection E as <- <-. by eexists _, _.
  - destruct (nat_accounted p open (NatHandler.Existing ct dir ft) [] Hi) as (n & ms & E & Hi' & Ha); [done|constructor|].
    injection E as <- <-. by eexists _, _.
  - by apply (processes_behave e p open t pid 0 0 0 comm [] 0).
  - unfold handle_bpf_log. destruct Hok as [Hl Hf]. destruct (rd_is_Some lines filelineid Hl) as [x ->].
    destruct (rd_is_Some files filelineid Hf) as [y ->]. cbn [get rbind]. apply behaves_other; first [done | by repeat constructor].
  - by apply (processes_behave e p open t pid tgid 0 exit_code [] [] 0).
  - done.
Qed.

(** ** Records *)

Definition sample_ok (e : env) (p : poller) (length t : Z) (m : Agent.agent_msg) : Prop :=
  10 <= length /\ has_handler m = true /\ length_ok wire length m = true /\ (e_writable e = true -> message_ok e p t m).

#[local] Abbreviation run_sample := (sample lines files wire force).

(** What the probes and the kernel promise of the records of a poll. *)
Fixpoint records_ok (p : poller) (rs : list record) : Prop :=
  match rs with
  | [] => True
  | Sample e length t m :: rs =>
      sample_ok e p length t m /\ match run_sample e p length t m with Ok (p', _) => records_ok p' rs | _ => True end
  | Lost _ :: _ => True
  | Unknown :: _ => False
  end.

(** The sum of a quantity over the records, in the states they are handled in. *)
Fixpoint udp_gained_in (f : quantity) (p : poller) (rs : list record) (c : PollerUdp.counter) (i d : Z) : Z :=
  match rs with
  | Sample e length t m :: rs =>
      (if e_writable e then gain_of f e p t m c i d else 0) +
      match run_sample e p length t m with Ok (p', _) => udp_gained_in f p' rs c i d | _ => 0 end
  | _ => 0
  end.

Lemma sample_behaves (e : env) (p : poller) open (length t : Z) (m : Agent.agent_msg) :
  poller_inv p open -> sample_ok e p length t m ->
  behaves p open (if e_writable e then tcp_events_of t m else [])
    (fun c i d => if e_writable e then gain_of udp_gain e p t m c i d else 0) 0 (run_sample e p length t m).
Proof.
  intros Hi (Hlen & Hh & Hl & Hm). unfold sample, message_handler_entrypoint.
  destruct (Z.ltb_spec length 10); [lia|]. rewrite Hh, Hl. cbn [negb]. destruct (e_writable e); cbn [negb].
  - apply handle_behaves; auto.
  - apply behaves_other; done || constructor.
Qed.

Lemma report_behaves (p : poller) open :
  poller_inv p open -> behaves p open [] PollerUdp.nothing 0 (Ok (send_report_if_recent_loss p)).
Proof.
  intros Hi. unfold send_report_if_recent_loss. destruct (Z.eqb_spec (lost_count_ p) (notified_lost_count_ p)).
  - apply behaves_other; done || constructor.
  - eexists _, _. split; [done|]. split; [exact Hi|]. constructor.
    + intros c sk. cbn. f_equal. lia.
    + intros c i d _ _. cbn. unfold PollerUdp.nothing. f_equal. lia.
    + unfold unreported. cbn [lost_reported lost_count_ notified_lost_count_ with_lost]. unfold u64.
      rewrite Z.add_0_r, Z.sub_diag, !Z.add_0_r. apply Z.mod_mod. done.
    + intros _. unfold unreported. cbn. lia.
Qed.

(** A loss is reported at once. *)
Lemma loss_behaves (p : poller) open (n : Z) :
  poller_inv p open ->
  behaves p open [] PollerUdp.nothing n
    (Ok (send_report_if_recent_loss (with_lost p (u64 (lost_count_ p + n)) (notified_lost_count_ p)))).
Proof.
  intros Hi. unfold send_report_if_recent_loss. cbn [lost_count_ notified_lost_count_ with_lost].
  destruct (Z.eqb_spec (u64 (lost_count_ p + n)) (notified_lost_count_ p)) as [E|E];
    (eexists _, _; split; [done|]; split; [exact Hi|]; constructor; cbn [tcp_ udp_ with_lost]).
  1,5: intros c sk; cbn; f_equal; lia.
  1,4: intros c i d _ _; cbn; unfold PollerUdp.nothing; f_equal; lia.
  - unfold unreported, u64. cbn [lost_reported lost_count_ notified_lost_count_ with_lost].
    rewrite Z.add_0_l, Zminus_mod_idemp_l. f_equal. lia.
  - intros _. unfold unreported. cbn. lia.
  - unfold unreported, u64. cbn [lost_reported lost_count_ notified_lost_count_ with_lost].
    rewrite Z.sub_diag, !Z.add_0_r, Z.mod_mod, Zminus_mod_idemp_l by done. f_equal. lia.
  - intros _. unfold unreported. cbn. lia.
Qed.

Lemma records_behave (rs : list record) (p : poller) open :
  poller_inv p open -> records_ok p rs ->
  exists p' out done, process_records lines files wire force p rs = Ok (p', out, done) /\
    poller_inv p' (PollerTcp.ref_run capacity open (tcp_events_in rs)) /\
    accounted p p' open (tcp_events_in rs) (udp_gained_in udp_gain p rs) (lost_in rs) out.
Proof.
  revert p open. induction rs as [|[e length t m|n|] rs IH]; intros p open Hi Hok; cbn [records_ok] in Hok; [| | |done].
  - exists p, [], true. split; [done|]. split; [done|]. apply other_accounted; done || constructor.
  - destruct Hok as [Hs Hok]. destruct (sample_behaves e p open length t m Hi Hs) as (p1 & o1 & E1 & Hi1 & Ha1).
    cbn [process_records udp_gained_in tcp_events_in lost_in]. rewrite E1 in Hok. rewrite E1. cbn [rbind].
    destruct (IH p1 _ Hi1 Hok) as (p2 & o2 & done & E2 & Hi2 & Ha2). rewrite E2. cbn [rbind].
    eexists _, _, _. split; [done|]. rewrite PollerTcp.ref_run_app. split; [done|].
    eapply accounted_ext; [exact (accounted_trans _ _ _ _ _ _ _ _ _ _ _ _ Ha1 Ha2)| |lia].
    done.
  - cbn [process_records tcp_events_in lost_in].
    destruct (loss_behaves p open n Hi) as (p2 & o2 & E2 & Hi2 & Ha2). injection E2 as E2. rewrite E2.
    eexists _, _, _. split; [done|]. split; [exact Hi2|].
    assert (Ha3 : accounted p2 p2 open [] PollerUdp.nothing 0 [request_restart])
      by (apply other_accounted; first [done | by repeat constructor]).
    eapply accounted_ext; [exact (accounted_trans _ _ _ _ [] [] _ _ _ _ _ _ Ha2 Ha3)|done|lia].
Qed.

(** ** Polls *)

Lemma relative_timeslot_accounted (p : poller) open (t : Z) :
  poller_inv p open ->
  let p' := with_tcp p (PollerTcp.set_stats (tcp_ p) (ss_relative_timeslot (PollerTcp.tcp_socket_stats_ (tcp_ p)) t).1) in
  poller_inv p' open /\ accounted p p' open [] PollerUdp.nothing 0 [].
Proof.
  intros ((C & M & Q & cur & Hr & Ho) & Hu & Hn) p'.
  assert (Hr' : PollerTcp.tcp_rep (tcp_ p') C M Q cur).
  { destruct Hr as [Ht Hs Hl Hsk Hv Hg]. constructor; cbn; try done. by apply ss_relative_timeslot_spec. }
  split; [split; [by exists C, M, Q, cur|done]|]. constructor.
  - intros c sk. rewrite (PollerTcp.pending_eq Het Hst _ _ _ _ _ c sk Hr), (PollerTcp.pending_eq Het Hst _ _ _ _ _ c sk Hr').
    cbn. f_equal. lia.
  - intros c i d _ _. cbn. unfold PollerUdp.nothing. f_equal. lia.
  - unfold unreported. cbn. f_equal. lia.
  - done.
Qed.

Lemma stats_behave (p : poller) open (t : Z) :
  poller_inv p open -> behaves p open [] PollerUdp.nothing 0 (process_stats max p t).
Proof.
  intros Hi. destruct (relative_timeslot_accounted p open t Hi) as [Hi1 Ha1]. unfold process_stats.
  destruct (ss_relative_timeslot _ t) as [s r]. cbn [fst] in *. set (p1 := with_tcp _ _) in *.
  destruct (r =? 0); [by eexists _, _|].
  destruct (on_tcp_behaves p1 open (PollerTcp.Tick t) Hi1) as (p2 & o2 & E2 & Hi2 & Ha2).
  cbn [PollerTcp.tcp_step] in E2. rewrite E2. cbn [rbind].
  destruct (on_udp_behaves p2 _ (PollerUdp.Tick t) Hi2 I) as (p3 & o3 & E3 & Hi3 & Ha3).
  cbn [PollerUdp.udp_step] in E3. rewrite E3. cbn [rbind].
  destruct (report_behaves p3 _ Hi3) as (p4 & o4 & E4 & Hi4 & Ha4). injection E4 as E4. rewrite E4.
  eexists _, _. split; [done|]. split; [exact Hi4|].
  pose proof (accounted_trans _ _ _ _ [] _ _ _ _ _ _ _ Ha1
    (accounted_trans _ _ _ _ _ _ _ _ _ _ _ _ Ha2 (accounted_trans _ _ _ _ [] [] _ _ _ _ _ _ Ha3 Ha4))) as [T U L S].
  constructor; [|done|done|done]. intros c sk. by rewrite T.
Qed.

(** ** Histories *)

Definition activation_ok (p : poller) (a : activation) : Prop :=
  match a with Poll _ rs error writable => records_ok p rs /\ error && writable = false | _ => True end.

#[local] Abbreviation run_activation := (activate lines files wire force max).

Fixpoint activations_ok (p : poller) (acts : list activation) : Prop :=
  match acts with
  | [] => True
  | a :: acts => activation_ok p a /\ match run_activation p a with Ok (p', _) => activations_ok p' acts | _ => True end
  end.

Definition activation_gain (f : quantity) (p : poller) (a : activation) (c : PollerUdp.counter) (i d : Z) : Z :=
  match a with Poll _ rs _ _ => udp_gained_in f p rs c i d | _ => 0 end.

Fixpoint udp_gained (f : quantity) (p : poller) (acts : list activation) (c : PollerUdp.counter) (i d : Z) : Z :=
  match acts with
  | [] => 0
  | a :: acts =>
      activation_gain f p a c i d + match run_activation p a with Ok (p', _) => udp_gained f p' acts c i d | _ => 0 end
  end.

Lemma activate_behaves (p : poller) open (a : activation) :
  poller_inv p open -> activation_ok p a ->
  behaves p open (tcp_events [a]) (activation_gain udp_gain p a) (lost_total [a]) (run_activation p a).
Proof.
  intros Hi Hok. destruct a as [t rs error writable|t|cgroup data|cgroup st code]; cbn [activate].
  - destruct Hok as [Hrs Hfl]. unfold tcp_events, lost_total. cbn [fmap list_fmap concat foldr]. rewrite app_nil_r, Z.add_0_r.
    unfold process_samples. destruct (records_behave rs p open Hi Hrs) as (p1 & o1 & fin & E1 & Hi1 & Ha1).
    rewrite E1. cbn [rbind]. destruct fin; cbn [negb]; [|by eexists _, _].
    destruct (stats_behave p1 _ t Hi1) as (p2 & o2 & E2 & Hi2 & Ha2). rewrite E2. cbn [rbind]. rewrite Hfl.
    eexists _, _. split; [done|]. split; [exact Hi2|]. pose proof (accounted_trans _ _ _ _ _ _ _ _ _ _ _ _ Ha1 Ha2) as Ha.
    rewrite app_nil_r in Ha. eapply accounted_ext; [exact Ha| |lia]. intros. unfold PollerUdp.nothing. cbn. lia.
  - destruct (on_udp_behaves p open (PollerUdp.SlowPoll t) Hi I) as (p1 & o1 & E1 & Hi1 & Ha1). by eexists _, _.
  - apply behaves_other; first [done | by repeat constructor].
  - pose proof (fetch_done_only (cgroup_handler_ p) cgroup st code) as Ho.
    destruct (CgroupHandler.fetch_done_cb _ _ _ _). by apply behaves_other.
Qed.

Lemma run_behaves (acts : list activation) (p : poller) open :
  poller_inv p open -> activations_ok p acts ->
  behaves p open (tcp_events acts) (udp_gained udp_gain p acts) (lost_total acts) (poller_run lines files wire force max p acts).
Proof.
  revert p open. induction acts as [|a acts IH]; intros p open Hi Hok.
  { apply behaves_other; first [done | constructor]. }
  destruct Hok as [Ha Hok]. destruct (activate_behaves p open a Hi Ha) as (p1 & o1 & E1 & Hi1 & Ha1).
  cbn [poller_run udp_gained]. rewrite E1 in Hok. destruct (IH p1 _ Hi1 Hok) as (p2 & o2 & E2 & Hi2 & Ha2).
  rewrite E1. cbn [rbind]. rewrite E2. cbn [rbind]. rewrite <- PollerTcp.ref_run_app in Hi2.
  assert (Hev : tcp_events [a] ++ tcp_events acts = tcp_events (a :: acts)).
  { unfold tcp_events. cbn [fmap list_fmap concat]. by rewrite app_nil_r. }
  rewrite Hev in Hi2. eexists _, _. split; [done|]. split; [exact Hi2|]. rewrite <- Hev.
  eapply accounted_ext; [exact (accounted_trans _ _ _ _ _ _ _ _ _ _ _ _ Ha1 Ha2)| |].
  - done.
  - unfold lost_total. cbn. lia.
Qed.

(** The two parts of what is accounted for. *)
Lemma udp_gained_in_split (rs : list record) (p : poller) (c : PollerUdp.counter) (i d : Z) :
  udp_gained_in udp_gain p rs c i d
  = udp_gained_in PollerUdp.event_gain p rs c i d + udp_gained_in PollerUdp.event_stale p rs c i d.
Proof.
  revert p. induction rs as [|[e length t m|n|] rs IH]; intros p; cbn [udp_gained_in]; try done.
  destruct (run_sample e p length t m) as [[p' out]| | |]; rewrite ?IH; unfold gain_of, udp_gain;
    destruct (e_writable e), (udp_event_of e p t m); lia.
Qed.

Lemma udp_gained_split (acts : list activation) (p : poller) (c : PollerUdp.counter) (i d : Z) :
  udp_gained udp_gain p acts c i d
  = udp_gained PollerUdp.event_gain p acts c i d + udp_gained PollerUdp.event_stale p acts c i d.
Proof.
  revert p. induction acts as [|a acts IH]; intros p; cbn [udp_gained]; [done|].
  assert (activation_gain udp_gain p a c i d
    = activation_gain PollerUdp.event_gain p a c i d + activation_gain PollerUdp.event_stale p a c i d) as ->
    by (destruct a; try done; apply udp_gained_in_split).
  destruct (run_activation p a) as [[p' out]| | |]; rewrite ?IH; lia.
Qed.

(** No UDP statistics bring a new address. *)
Definition keeps_address (r : record) : Prop :=
  match r with Sample _ _ _ (Agent.udp_stats msg) => PollerUdp.m_changed_af msg = 0 | _ => True end.
Definition keeps_addresses (a : activation) : Prop :=
  match a with Poll _ rs _ _ => Forall keeps_address rs | _ => True end.

Lemma event_stale_none (u : PollerUdp.Udp HU SU) (nat : NatHandler.NatHandler) (t : Z) (msg : PollerUdp.udp_stats_msg)
    (c : PollerUdp.counter) (i d : Z) :
  PollerUdp.m_changed_af msg = 0 -> PollerUdp.event_stale u (PollerUdp.Stats nat t msg) c i d = 0.
Proof.
  intros Hm. cbn. unfold PollerUdp.stale. destruct (tb_find _ _) as [[[??]|]|]; try done.
  rewrite decide_False; [done|]. tauto.
Qed.

Lemma stale_in_none (rs : list record) (p : poller) (c : PollerUdp.counter) (i d : Z) :
  Forall keeps_address rs -> udp_gained_in PollerUdp.event_stale p rs c i d = 0.
Proof.
  intros Hk. revert p. induction Hk as [|r rs Hr _ IH]; intros p; [done|]. destruct r as [e length t m| |]; try done.
  cbn [udp_gained_in]. assert (gain_of PollerUdp.event_stale e p t m c i d = 0) as ->.
  { unfold gain_of. destruct m; try done. cbn [udp_event_of]. by apply event_stale_none. }
  destruct (run_sample e p length t m) as [[p' out]| | |]; rewrite ?IH; by destruct (e_writable e).
Qed.

Lemma stale_none (acts : list activation) (p : poller) (c : PollerUdp.counter) (i d : Z) :
  Forall keeps_addresses acts -> udp_gained PollerUdp.event_stale p acts c i d = 0.
Proof.
  intros Hk. revert p. induction Hk as [|a acts Ha _ IH]; intros p; [done|]. cbn [udp_gained].
  assert (activation_gain PollerUdp.event_stale p a c i d = 0) as -> by (destruct a; try done; by apply stale_in_none).
  destruct (run_activation p a) as [[p' out]| | |]; rewrite ?IH; done.
Qed.

(** A poller that has seen nothing. *)
Definition poller_initial (p : poller) : Prop :=
  PollerTcp.initial (tcp_ p) /\ PollerUdp.udp_initial (udp_ p) /\ nat_handler_ p = NatHandler.NatHandler_new /\
  lost_count_ p = 0 /\ notified_lost_count_ p = 0.

Lemma poller_initial_inv (p : poller) : poller_initial p -> poller_inv p ∅.
Proof.
  intros ((Hh & Hs & Hl & _) & Hu & Hn & _). split_and!.
  - eexists ∅, _, _, _. split; [|by rewrite fmap_empty]. destruct (tcp_ p). by apply PollerTcp.tcp_new_rep.
  - eexists _, _, _, _. by apply PollerUdp.udp_initial_rep.
  - rewrite Hn. apply NatHandler.nat_inv_new.
Qed.

(** * Properties *)


(** A debug event stops the poller.  Whatever a running poller has read, a
    [report_debug_event] of a probe makes the poll throw, since the message has no
    handler. *)
Theorem debug_event_throws (p p1 : poller) (acts : list activation) (out1 : list message) (rs rest : list record)
    (e : env) (t length ts event arg1 arg2 arg3 arg4 : Z) (flush_error writable : bool) :
  poller_initial p -> activations_ok p acts -> poller_run lines files wire force max p acts = Ok (p1, out1) ->
  records_ok p1 rs -> Forall (fun r => match r with Sample _ _ _ _ => True | _ => False end) rs -> 10 <= length ->
  run_activation p1
    (Poll t (rs ++ Sample e length ts (Agent.report_debug_event event arg1 arg2 arg3 arg4) :: rest) flush_error writable)
  = Throw unknown_message.
Proof.
  intros Hp Hok Hrun Hrs Hall Hlen. pose proof (poller_initial_inv p Hp) as Hi.
  destruct (run_behaves acts p ∅ Hi Hok) as (p' & out & E & Hi1 & _). rewrite Hrun in E. injection E as <- <-.
  cbn [activate]. unfold process_samples. generalize dependent (PollerTcp.ref_run capacity ∅ (tcp_events acts)).
  assert (Hgoal : forall open, poller_inv p1 open ->
    process_records lines files wire force p1
      (rs ++ Sample e length ts (Agent.report_debug_event event arg1 arg2 arg3 arg4) :: rest) = Throw unknown_message).
  { clear -Hrs Hall Hlen Het Hst Heu Hsu Hmax H8. revert p1 Hrs. induction Hall as [|r rs Hr Hall IH]; intros p1 Hrs open Hi.
    - cbn [app process_records]. unfold sample. destruct (Z.ltb_spec length 10); [lia|done].
    - destruct r as [e' l' t' m'| |]; try done. destruct Hrs as [Hs Hrs].
      destruct (sample_behaves e' p1 open l' t' m' Hi Hs) as (p2 & o2 & E2 & Hi2 & _).
      cbn [app process_records]. rewrite E2 in Hrs |- *. cbn [rbind]. by rewrite (IH p2 Hrs _ Hi2). }
  intros open Hi1. by rewrite (Hgoal open Hi1).
Qed.
End laws.
End Poller.

(** * The poller on the containers of the program *)

Module PollerDemo.
Import Poller PollerTcpDemo PollerUdpDemo.
#[local] Existing Instances Dns.rfc1035 Dns.rfc1035_laws DnsRequests.newest_first.
#[local] Abbreviation poller :=
  (Poller (FixedHash.FixedHash PollerTcp.tcp_socket_entry (gmap Z Z)) (MetricStore.MetricStore PollerTcp.tcp_statistics)
     (FixedHash.FixedHash PollerUdp.udp_socket_entry (gmap Z Z)) (MetricStore.MetricStore PollerUdp.udp_statistics)).

Definition demo_poller : option poller :=
  t ← demo_tcp; u ← demo_udp;
  Some (mk_poller t u NatHandler.NatHandler_new CgroupHandler.CgroupHandler_new ProcessHandler.ProcessHandler_new 0 0 0).

Lemma demo_poller_initial : exists p, demo_poller = Some p /\ poller_initial p.
Proof.
  destruct demo_initial as (t & Ht & Hti), demo_udp_initial as (u & Hu & Hui). unfold demo_poller. rewrite Ht, Hu.
  cbn [mbind option_bind]. eexists. split; [done|]. by split_and!.
Qed.

Lemma demo_tcp_epochs :
  ss_epochs (Metric := PollerTcp.tcp_statistics) (S := MetricStore.MetricStore PollerTcp.tcp_statistics) = PollerTcp.n_epochs.
Proof. done. Qed.

Lemma demo_tcp_slots :
  ss_size (Metric := PollerTcp.tcp_statistics) (S := MetricStore.MetricStore PollerTcp.tcp_statistics)
  = tb_size (T := PollerTcp.tcp_socket_entry) (H := FixedHash.FixedHash PollerTcp.tcp_socket_entry (gmap Z Z)).
Proof. done. Qed.

Definition demo_wire (id : Z) : Z := 32.
Definition demo_env (writable : bool) : env := mk_env 0 writable demo_stack None CgroupHandler.Curl_ok.
Definition demo_sample (t : Z) (m : Agent.agent_msg) : record := Sample (demo_env true) 40 t m.

(** Messages of several probes, a loss in the middle of a poll, a message that
    arrives while the server is disconnected. *)
Definition demo_acts : list activation :=
  [Poll 20
     [demo_sample 10 (Agent.new_sock_created 1 77);
      demo_sample 11 (Agent.set_state_ipv4 2 1 80 1000 77 1);
      demo_sample 12 (Agent.pid_info 5 [115; 104; 0] 9 1);
      demo_sample 13 (Agent.udp_new_socket (PollerUdp.mk_new 1 88 (ip 1) 9));
      demo_sample 14 (Agent.udp_stats (traffic 88 PollerUdp.AF_INET 0 1 100));
      demo_sample 15 (Agent.rtt_estimator (reading 77 500 1) 0 0 0);
      Sample (demo_env false) 40 16 (Agent.rtt_estimator (reading 77 900 1) 0 0 0)] false true;
   Poll 30 [demo_sample 25 (Agent.bpf_log 0 1 2 3 4); Lost 3; Unknown] false true;
   SlowPoll 40;
   Poll 1200 [demo_sample 1100 (Agent.close_sock_info 77)] true false].

Ltac check_acts := vm_compute; repeat first [done|split|by left|by right|constructor|intros ?].



Lemma debug_event_throws_witness :
  exists p, demo_poller = Some p /\
    activate [7] [[97]] demo_wire false 2 p (Poll 20 [demo_sample 10 (Agent.report_debug_event 1 2 3 4 5)] false true)
    = Throw unknown_message.
Proof.
  destruct demo_poller_initial as (p & Hp & Hi). exists p. split; [exact Hp|].
  exact (debug_event_throws [7] [[97]] demo_wire false 2 demo_tcp_epochs demo_tcp_slots demo_epochs demo_slots eq_refl
    p p [] [] [] [] (demo_env true) 20 40 10 1 2 3 4 5 false true Hi I eq_refl I (Forall_nil_2 _) ltac:(lia)).
Defined.
End PollerDemo.
