(* ===== verification/ProbeUdp.v ===== *)
(** The probes of UDP sockets: the UDP part of
    collector/kernel/bpf_src/render_bpf.c, with the time and log functions of
    tcp-processor/bpf_types.h.

    A probe runs to completion on the maps it shares with the other probes, and sends
    messages.  The maps of the kernel are the class [BpfMap]; its clock and its memory
    are arguments.  The configuration is that of render_bpf.h: the two work-arounds for
    the lifetime of sockets are on, the debugging switches are off.  The capture of DNS
    packets, which the probes of packets call at their end, is in [ProbeDns].

    Theorems: every packet of a tracked socket is sent to the collector once or still
    held; every message has the form the collector relies on. *)
From S2P Require Import Prelude PollerUdp Agent.

(** * The maps of the kernel *)

Definition E2BIG : Z := 7.
Definition ENOMEM : Z := 12.
Definition EEXIST : Z := 17.
Definition EINVAL_ : Z := 22.

(** Insertion does not replace; [bm_store] is a write through the pointer that
    [bm_lookup] returned. *)
Class BpfMap (V M : Type) := {
  bm_lookup : M -> Z -> option V;
  bm_insert : M -> Z -> V -> M * Z;
  bm_delete : M -> Z -> M * Z;
  bm_store : M -> Z -> V -> M;
}.

(** An insertion may fail for reasons of the kernel: no memory, no room. *)
Class BpfMapLaws (V M : Type) `{BpfMap V M} := {
  bm_contents : M -> gmap Z V;
  bm_lookup_spec m k : bm_lookup m k = bm_contents m !! k;
  bm_insert_spec m k v :
    (bm_contents m !! k = None /\ (bm_insert m k v).2 = 0 /\ bm_contents (bm_insert m k v).1 = <[k := v]> (bm_contents m)) \/
    ((bm_insert m k v).2 <> 0 /\ bm_contents (bm_insert m k v).1 = bm_contents m);
  bm_delete_spec m k :
    (is_Some (bm_contents m !! k) /\ (bm_delete m k).2 = 0 /\ bm_contents (bm_delete m k).1 = delete k (bm_contents m)) \/
    (bm_contents m !! k = None /\ (bm_delete m k).2 <> 0 /\ bm_contents (bm_delete m k).1 = bm_contents m);
  bm_store_spec m k v : is_Some (bm_contents m !! k) -> bm_contents (bm_store m k v) = <[k := v]> (bm_contents m);
}.

Module ProbeUdp.
Definition AF_INET : Z := 2.
Definition AF_INET6 : Z := 10.
Definition BPF_MAX_CPUS : Z := 1024.
Definition BPF_LOG_THROTTLE_MAX_PER_PERIOD : Z := 20.
Definition BPF_LOG_THROTTLE_PERIOD_LENGTH_MS : Z := 1000.
Definition BPF_LOG_TABLE_FULL : Z := 1.
Definition BPF_LOG_TABLE_BAD_INSERT : Z := 2.
Definition BPF_LOG_UNREACHABLE : Z := 12.
Definition BPF_LOG_THROTTLED : Z := 13.
Definition BPF_LOG_INVALID_PID_TGID : Z := 15.
Definition BPF_TABLE_UDP_OPEN_SOCKETS : Z := 4.
Definition UDP_LIFETIME_HACK_CODE : Z := 2.

(** * Data *)

(** An IPv6 address is its four words. *)
Record udp_stats_t := mk_stats {
  last_output : Z;
  laddr6 : list Z;
  raddr6 : list Z;
  lport : Z;
  rport : Z;
  addr_changed : Z;
  bytes : Z;
  packets : Z;
  drops : Z;
}.

(** [stats[0]] and [stats[1]]. *)
Record udp_open_socket_t := mk_open { tgid : Z; stats_tx : udp_stats_t; stats_rx : udp_stats_t }.

Definition no_stats : udp_stats_t := mk_stats 0 [0; 0; 0; 0] [0; 0; 0; 0] 0 0 0 0 0 0.

Definition stats_of (info : udp_open_socket_t) (is_rx : bool) : udp_stats_t :=
  if is_rx then stats_rx info else stats_tx info.
Definition set_stats (info : udp_open_socket_t) (is_rx : bool) (s : udp_stats_t) : udp_open_socket_t :=
  if is_rx then mk_open (tgid info) (stats_tx info) s else mk_open (tgid info) s (stats_rx info).

(** What a probe reads of a socket, and of the context it runs in. *)
Record sock := mk_sock {
  sk_family : Z; sk_rcv_saddr : Z; sk_v6_rcv_saddr : list Z; inet_num : Z; sk_drops : Z; sk_ino : Z }.
Record context := mk_ctx { cpu : Z; pid_tgid : Z }.

Definition TGID_FROM_PID_TGID (x : Z) : Z := Z.shiftr x 32.
Definition PID_FROM_PID_TGID (x : Z) : Z := u32 x.

Definition make_ipv6_address (addr : Z) : list Z := [0; 0; 4294901760; addr].
Definition to_bytes (addr : list Z) : list Z := concat (le_encode 4 <$> addr).
Definition abs_val (v : Z) : Z := Z.abs v.

Section probes.
Context {MS MP : Type} `{BpfMap udp_open_socket_t MS} `{BpfMap Z MP}.
(** The clock of the kernel, by the number of calls; the identifiers the build gives to
    source lines; the settings. *)
Context (bpf_ktime_get_ns : nat -> Z) (BOOT_TIME_ADJUSTMENT : Z) (fileline : Z -> Z).
Context (FILTER_NS : Z) (REPORT_DEBUG_EVENTS : bool).

Record Probe := mk_probe {
  udp_open_sockets : MS;
  udp_get_port_hash : MP;
  seen_inodes : MP;
  bpf_log_globals_per_cpu : gmap Z (Z * Z);     (* period_start_ms, count *)
  ticks : nat;
}.

(** A computation of a probe: its result, the state, and the messages it sends with
    their times. *)
Definition run (A : Type) : Type := Probe -> A * Probe * list (Z * Agent.agent_msg).
Definition ret {A} (a : A) : run A := fun p => (a, p, []).
Definition bind {A B} (m : run A) (f : A -> run B) : run B := fun p =>
  let '(a, p, out) := m p in
  let '(b, p, rest) := f a p in (b, p, out ++ rest).
Definition submit (t : Z) (m : Agent.agent_msg) : run unit := fun p => (tt, p, [(t, m)]).

Declare Scope probe_scope.
Delimit Scope probe_scope with probe.
Notation "'do*' x ':=' e 'in' k" := (bind e (fun x => k)) (at level 10, x name, e at level 200, k at level 200) : probe_scope.
Notation "'do*' '_' ':=' e 'in' k" := (bind e (fun _ => k)) (at level 10, e at level 200, k at level 200) : probe_scope.
Open Scope probe_scope.

Definition set_sockets (m : MS) : run unit := fun p =>
  (tt, mk_probe m (udp_get_port_hash p) (seen_inodes p) (bpf_log_globals_per_cpu p) (ticks p), []).
Definition set_ports (m : MP) : run unit := fun p =>
  (tt, mk_probe (udp_open_sockets p) m (seen_inodes p) (bpf_log_globals_per_cpu p) (ticks p), []).
Definition set_inodes (m : MP) : run unit := fun p =>
  (tt, mk_probe (udp_open_sockets p) (udp_get_port_hash p) m (bpf_log_globals_per_cpu p) (ticks p), []).
Definition set_globals (c : Z) (g : Z * Z) : run unit := fun p =>
  (tt, mk_probe (udp_open_sockets p) (udp_get_port_hash p) (seen_inodes p) (<[c := g]> (bpf_log_globals_per_cpu p)) (ticks p), []).
Definition here : run Probe := fun p => (p, p, []).

(** ** Time and logs *)

Definition get_timestamp : run Z := fun p =>
  (u64 (bpf_ktime_get_ns (ticks p) + BOOT_TIME_ADJUSTMENT),
   mk_probe (udp_open_sockets p) (udp_get_port_hash p) (seen_inodes p) (bpf_log_globals_per_cpu p) (S (ticks p)), []).

(** [line] is the source line of the call. *)
Definition bpf_log (line : Z) (ctx : context) (code arg0 arg1 arg2 : Z) : run unit :=
  do* now := get_timestamp in
  let now_ms := u32 (now / 1000000) in
  if (cpu ctx <? 0) || (BPF_MAX_CPUS <=? cpu ctx) then ret tt
  else
    do* p := here in
    let '(start, count) := default (0, 0) (bpf_log_globals_per_cpu p !! cpu ctx) in
    let '(start, count) :=
      if u32 (start + BPF_LOG_THROTTLE_PERIOD_LENGTH_MS) <=? now_ms then (now_ms, 0) else (start, count) in
    let count := u32 (count + 1) in
    do* _ := set_globals (cpu ctx) (start, count) in
    if count =? BPF_LOG_THROTTLE_MAX_PER_PERIOD + 1
    then submit now (Agent.bpf_log (fileline line) BPF_LOG_THROTTLED (cpu ctx) 0 0)
    else if count <=? BPF_LOG_THROTTLE_MAX_PER_PERIOD
    then submit now (Agent.bpf_log (fileline line) code arg0 arg1 arg2)
    else ret tt.

Definition GET_PID_TGID (line : Z) (ctx : context) : run unit :=
  if (TGID_FROM_PID_TGID (pid_tgid ctx) =? 0) || (PID_FROM_PID_TGID (pid_tgid ctx) =? 0)
  then bpf_log line ctx BPF_LOG_INVALID_PID_TGID (pid_tgid ctx) 0 0 else ret tt.

(** ** Sockets *)

Definition add_udp_open_socket (ctx : context) (sk tgid : Z) : run Z :=
  do* p := here in
  let '(m, r) := bm_insert (udp_open_sockets p) sk (mk_open tgid no_stats no_stats) in
  do* _ := set_sockets m in
  if (r =? - E2BIG) || (r =? - ENOMEM) || (r =? - EINVAL_)
  then do* _ := bpf_log 1187 ctx BPF_LOG_TABLE_FULL BPF_TABLE_UDP_OPEN_SOCKETS tgid sk in ret (-1)
  else if r =? - EEXIST then ret 0
  else if negb (r =? 0)
  then do* _ := bpf_log 1195 ctx BPF_LOG_TABLE_BAD_INSERT BPF_TABLE_UDP_OPEN_SOCKETS tgid (abs_val r) in ret (-1)
  else ret 1.

Definition ensure_udp_existing (ctx : context) (sk : Z) (s : sock) (tgid : Z) : run Z :=
  if negb (sk_family s =? AF_INET) && negb (sk_family s =? AF_INET6) then ret (-1)
  else
    do* now := get_timestamp in
    do* r := add_udp_open_socket ctx sk tgid in
    if r =? 1 then
      let addr := if sk_family s =? AF_INET6 then sk_v6_rcv_saddr s else make_ipv6_address (sk_rcv_saddr s) in
      do* _ := submit now (Agent.udp_new_socket (PollerUdp.mk_new tgid sk (to_bytes addr) (inet_num s))) in
      ret r
    else ret r.

Definition udp_existing_hack (ctx : context) (sk : Z) (s : sock) : run (option udp_open_socket_t) :=
  if (TGID_FROM_PID_TGID (pid_tgid ctx) =? 0) || (PID_FROM_PID_TGID (pid_tgid ctx) =? 0) then ret None
  else
    do* _ := ensure_udp_existing ctx sk s (TGID_FROM_PID_TGID (pid_tgid ctx)) in
    do* p := here in
    ret (bm_lookup (udp_open_sockets p) sk).

Definition udp_send_stats_if_nonempty (now sk : Z) (s : sock) (stats : udp_stats_t) (is_rx : bool) : run unit :=
  if (addr_changed stats =? 0) && (packets stats =? 0) && (sk_drops s =? drops stats) then ret tt
  else
    submit now (Agent.udp_stats (PollerUdp.mk_msg sk (to_bytes (raddr6 stats)) (packets stats) (bytes stats)
      (addr_changed stats) (rport stats) (if is_rx then 1 else 0) (to_bytes (laddr6 stats)) (lport stats)
      (if is_rx then u32 (sk_drops s - drops stats) else 0))).

Definition remove_udp_open_socket (sk : Z) (s : sock) : run unit :=
  do* p := here in
  match bm_lookup (udp_open_sockets p) sk with
  | None => ret tt
  | Some info =>
      let '(m, r) := bm_delete (udp_open_sockets p) sk in
      do* _ := set_sockets m in
      if negb (r =? 0) then ret tt
      else
        do* now := get_timestamp in
        do* _ := udp_send_stats_if_nonempty now sk s (stats_tx info) false in
        do* _ := udp_send_stats_if_nonempty now sk s (stats_rx info) true in
        submit now (Agent.udp_destroy_socket sk)
  end.

Definition udp_lifetime_hack (sk : Z) (s : sock) : run unit :=
  do* p := here in
  match bm_lookup (udp_open_sockets p) sk with
  | None => ret tt
  | Some _ =>
      if REPORT_DEBUG_EVENTS then
        do* now := get_timestamp in
        do* _ := submit now (Agent.report_debug_event UDP_LIFETIME_HACK_CODE sk 0 0 0) in
        remove_udp_open_socket sk s
      else remove_udp_open_socket sk s
  end.

Definition on_udp46_seq_show (ctx : context) (sk : Z) (s : sock) : run unit :=
  do* p := here in
  match bm_lookup (seen_inodes p) (u32 (sk_ino s)) with
  | None => ret tt
  | Some tgid =>
      do* _ := set_inodes (bm_delete (seen_inodes p) (u32 (sk_ino s))).1 in
      do* r := ensure_udp_existing ctx sk s tgid in
      if r <? 0
      then bpf_log 1370 ctx BPF_LOG_TABLE_BAD_INSERT BPF_TABLE_UDP_OPEN_SOCKETS tgid (abs_val r) else ret tt
  end.

Definition on_udp_v46_get_port (ctx : context) (sk : Z) : run unit :=
  do* _ := GET_PID_TGID 1379 ctx in
  do* p := here in
  set_ports (bm_insert (udp_get_port_hash p) (cpu ctx) sk).1.

(** [mem] is the memory of the kernel: the socket was saved by the probe above. *)
Definition onret_udp_v46_get_port (ctx : context) (mem : Z -> sock) (retval : Z) : run unit :=
  do* _ := GET_PID_TGID 1406 ctx in
  do* p := here in
  match bm_lookup (udp_get_port_hash p) (cpu ctx) with
  | None => ret tt
  | Some sk =>
      do* _ :=
        if retval =? 0 then
          do* _ := udp_lifetime_hack sk (mem sk) in
          do* _ := ensure_udp_existing ctx sk (mem sk) (TGID_FROM_PID_TGID (pid_tgid ctx)) in ret tt
        else ret tt in
      do* p := here in
      set_ports (bm_delete (udp_get_port_hash p) (cpu ctx)).1
  end.

(** ** Packets *)

Definition differ (a b : list Z) (x y : Z) : bool := negb (bool_decide (a = b)) || negb (x =? y).

Definition udp_update_stats (ctx : context) (sk : Z) (s : sock) (len : Z) (laddr : list Z) (lp : Z) (raddr : list Z)
    (rp : Z) (is_rx : bool) : run unit :=
  do* p := here in
  do* found :=
    match bm_lookup (udp_open_sockets p) sk with Some info => ret (Some info) | None => udp_existing_hack ctx sk s end in
  match found with
  | None => ret tt
  | Some info =>
      let st := stats_of info is_rx in
      let lchanged := differ (laddr6 st) laddr (lport st) lp in
      let rchanged := differ (raddr6 st) raddr (rport st) rp in
      let dchanged := is_rx && negb (sk_drops s =? drops st) in
      do* now := get_timestamp in
      if lchanged || rchanged || dchanged || (FILTER_NS <=? u64 (now - last_output st)) then
        let st := mk_stats (last_output st) (if lchanged then laddr else laddr6 st) (if rchanged then raddr else raddr6 st)
                    (if lchanged then lp else lport st) (if rchanged then rp else rport st)
                    (if lchanged || rchanged then u8 (sk_family s) else 0) (bytes st) (packets st) (drops st) in
        do* _ := udp_send_stats_if_nonempty now sk s st is_rx in
        let st := mk_stats now (laddr6 st) (raddr6 st) (lport st) (rport st) (addr_changed st) len 1
                    (if is_rx then sk_drops s else 0) in
        do* p := here in
        set_sockets (bm_store (udp_open_sockets p) sk (set_stats info is_rx st))
      else
        let st := mk_stats (last_output st) (laddr6 st) (raddr6 st) (lport st) (rport st) (addr_changed st)
                    (u32 (bytes st + len)) (u32 (packets st + 1)) (drops st) in
        do* p := here in
        set_sockets (bm_store (udp_open_sockets p) sk (set_stats info is_rx st))
  end.

Definition on_udp_send_skb (ctx : context) (sk : Z) (s : sock) (len saddr daddr sport dport : Z) : run unit :=
  do* _ := GET_PID_TGID 1693 ctx in
  udp_update_stats ctx sk s len (make_ipv6_address saddr) sport (make_ipv6_address daddr) dport false.

Definition on_udp_v6_send_skb (ctx : context) (sk : Z) (s : sock) (len : Z) (saddr daddr : list Z) (sport dport : Z)
    : run unit :=
  do* _ := GET_PID_TGID 1710 ctx in
  udp_update_stats ctx sk s len saddr sport daddr dport false.

(** A received packet: the first byte of its header, and its addresses and ports as
    the headers of either version hold them. *)
Record header := mk_header { version : Z; saddr4 : Z; daddr4 : Z; saddr16 : list Z; daddr16 : list Z; source : Z; dest : Z }.

Definition handle_receive_udp_skb (ctx : context) (sk : Z) (s : sock) (len : Z) (h : header) : run unit :=
  let v := Z.land (version h) 240 in
  if v =? 64
  then udp_update_stats ctx sk s len (make_ipv6_address (daddr4 h)) (dest h) (make_ipv6_address (saddr4 h)) (source h) true
  else if negb (Z.land v 96 =? 0)
  then udp_update_stats ctx sk s len (daddr16 h) (dest h) (saddr16 h) (source h) true
  else bpf_log 1840 ctx BPF_LOG_UNREACHABLE v 0 0.

(** * Histories *)

Inductive pevent :=
  | SeqShow (ctx : context) (sk : Z) (s : sock)
  | GetPort (ctx : context) (sk : Z)
  | GotPort (ctx : context) (mem : Z -> sock) (retval : Z)
  | Free (sk : Z) (s : sock)
  | Send4 (ctx : context) (sk : Z) (s : sock) (len saddr daddr sport dport : Z)
  | Send6 (ctx : context) (sk : Z) (s : sock) (len : Z) (saddr daddr : list Z) (sport dport : Z)
  | Receive (ctx : context) (sk : Z) (s : sock) (len : Z) (h : header).

Definition probe (ev : pevent) : run unit :=
  match ev with
  | SeqShow ctx sk s => on_udp46_seq_show ctx sk s
  | GetPort ctx sk => on_udp_v46_get_port ctx sk
  | GotPort ctx mem retval => onret_udp_v46_get_port ctx mem retval
  | Free sk s => remove_udp_open_socket sk s
  | Send4 ctx sk s len saddr daddr sport dport => on_udp_send_skb ctx sk s len saddr daddr sport dport
  | Send6 ctx sk s len saddr daddr sport dport => on_udp_v6_send_skb ctx sk s len saddr daddr sport dport
  | Receive ctx sk s len h => handle_receive_udp_skb ctx sk s len h
  end.

Fixpoint probe_run (p : Probe) (evs : list pevent) : Probe * list (Z * Agent.agent_msg) :=
  match evs with
  | [] => (p, [])
  | ev :: evs =>
      let '(_, p, out) := probe ev p in
      let '(p, rest) := probe_run p evs in (p, out ++ rest)
  end.
End probes.
Arguments Probe MS MP : clear implicits.

(** * What is counted *)

Definition of_stats (c : PollerUdp.counter) (s : udp_stats_t) : Z :=
  match c with PollerUdp.Packets => packets s | PollerUdp.Bytes => bytes s end.

(** What the messages carry of a counter of a socket, by direction. *)
Definition of_sent (c : PollerUdp.counter) (sk : Z) (d : bool) (m : Z * Agent.agent_msg) : Z :=
  match m.2 with
  | Agent.udp_stats msg =>
      if (PollerUdp.m_sk msg =? sk) && (PollerUdp.m_is_rx msg =? (if d then 1 else 0)) then PollerUdp.of_msg c msg else 0
  | _ => 0
  end.

Fixpoint sent (c : PollerUdp.counter) (sk : Z) (d : bool) (out : list (Z * Agent.agent_msg)) : Z :=
  match out with [] => 0 | m :: out => of_sent c sk d m + sent c sk d out end.

Lemma sent_app c sk d out out' : sent c sk d (out ++ out') = sent c sk d out + sent c sk d out'.
Proof. induction out as [|m out IH]; cbn; [done|]. rewrite IH. lia. Qed.

(** The form of the messages that the collector relies on. *)
Definition sent_ok (m : Z * Agent.agent_msg) : Prop :=
  match m.2 with
  | Agent.udp_stats msg => PollerUdp.msg_ok msg
  | Agent.udp_new_socket msg => PollerUdp.n_lport msg <> 0
  | _ => True
  end.

(** A message that is neither statistics nor a new socket. *)
Definition neutral (m : Z * Agent.agent_msg) : Prop :=
  match m.2 with Agent.udp_stats _ | Agent.udp_new_socket _ => False | _ => True end.

Lemma neutral_sent c sk d out : Forall neutral out -> sent c sk d out = 0.
Proof. induction 1 as [|m out Hm _ IH]; [done|]. cbn. rewrite IH. unfold of_sent, neutral in *. by destruct m.2. Qed.

Lemma neutral_ok out : Forall neutral out -> Forall sent_ok out.
Proof. intros Hn. eapply Forall_impl; [exact Hn|]. intros m. unfold neutral, sent_ok. by destruct m.2. Qed.

Lemma zlen_to_bytes (a : list Z) : length a = 4%nat -> zlen (to_bytes a) = 16.
Proof.
  intros Hl. unfold to_bytes, zlen. rewrite length_concat, <- list_fmap_compose.
  destruct a as [|w0 [|w1 [|w2 [|w3 [|]]]]]; try done.
Qed.

Section laws.
Context {MS MP : Type} `{BpfMapLaws udp_open_socket_t MS} `{BpfMapLaws Z MP}.
Context (clock : nat -> Z) (boot : Z) (fileline : Z -> Z) (filter : Z) (debug : bool).
#[local] Abbreviation state := (Probe MS MP).
#[local] Abbreviation messages := (list (Z * Agent.agent_msg)).

Definition sockets (p : state) : gmap Z udp_open_socket_t := bm_contents (udp_open_sockets p).

Definition held (c : PollerUdp.counter) (sk : Z) (d : bool) (p : state) : Z :=
  match sockets p !! sk with Some info => of_stats c (stats_of info d) | None => 0 end.

(** After [n] packets: statistics without packets have no bytes. *)
Definition stats_ok (n : Z) (s : udp_stats_t) : Prop :=
  0 <= packets s <= n /\ (packets s = 0 -> bytes s = 0) /\ length (laddr6 s) = 4%nat /\ length (raddr6 s) = 4%nat.

Definition inv (n : Z) (p : state) : Prop := forall sk info d, sockets p !! sk = Some info -> stats_ok n (stats_of info d).

Definition nothing (c : PollerUdp.counter) (sk : Z) (d : bool) : Z := 0.

(** What was sent and is held is what was held and [g]. *)
Record outcome (p p' : state) (n : Z) (g : PollerUdp.counter -> Z -> bool -> Z) (out : messages) : Prop := {
  oc_inv : inv n p';
  oc_sum : forall c sk d, (sent c sk d out + held c sk d p') mod 2 ^ 32 = (held c sk d p + g c sk d) mod 2 ^ 32;
  oc_ok : Forall sent_ok out;
}.

Lemma outcome_trans (p p1 p2 : state) n n' g1 g2 o1 o2 :
  outcome p p1 n g1 o1 -> outcome p1 p2 n' g2 o2 ->
  outcome p p2 n' (fun c sk d => g1 c sk d + g2 c sk d) (o1 ++ o2).
Proof.
  intros [_ S1 O1] [I2 S2 O2]. constructor; [done| |by apply Forall_app]. intros c sk d. rewrite sent_app.
  rewrite <- Z.add_assoc, <- Zplus_mod_idemp_r, S2, Zplus_mod_idemp_r, Z.add_assoc.
  rewrite <- Zplus_mod_idemp_l, S1, Zplus_mod_idemp_l. f_equal. lia.
Qed.

Lemma outcome_ext (p p' : state) n g g' out :
  outcome p p' n g out -> (forall c sk d, g c sk d = g' c sk d) -> outcome p p' n g' out.
Proof. intros [I S O] Hg. constructor; [done| |done]. intros. by rewrite <- Hg. Qed.

(** Steps that leave the sockets alone. *)
Definition quietly (p p' : state) (out : messages) : Prop := sockets p' = sockets p /\ Forall neutral out.

Lemma quietly_outcome (p p' : state) n out : inv n p -> quietly p p' out -> outcome p p' n nothing out.
Proof.
  intros Hi [Hs Hn]. constructor; [unfold inv; by rewrite Hs| |by apply neutral_ok].
  intros c sk d. rewrite neutral_sent by done. unfold held, nothing. rewrite Hs. f_equal. lia.
Qed.

Lemma quietly_trans (p p1 p2 : state) o1 o2 : quietly p p1 o1 -> quietly p1 p2 o2 -> quietly p p2 (o1 ++ o2).
Proof. intros [S1 N1] [S2 N2]. split; [by rewrite S2|by apply Forall_app]. Qed.

(** ** Specifications of runs *)

Definition yields {A} (m : run (MS := MS) (MP := MP) A) (p : state) (Φ : A -> state -> messages -> Prop) : Prop :=
  Φ (m p).1.1 (m p).1.2 (m p).2.

Lemma yields_bind {A B} (m : run A) (f : A -> run B) (p : state) (Φ : B -> state -> messages -> Prop) :
  yields m p (fun a p1 o1 => yields (f a) p1 (fun b p2 o2 => Φ b p2 (o1 ++ o2))) -> yields (bind m f) p Φ.
Proof.
  unfold yields, bind. destruct (m p) as [[a p1] o1]. cbn. by destruct (f a p1) as [[b p2] o2].
Qed.

Lemma yields_mono {A} (m : run A) (p : state) (Φ Ψ : A -> state -> messages -> Prop) :
  yields m p Φ -> (forall a p' out, Φ a p' out -> Ψ a p' out) -> yields m p Ψ.
Proof. unfold yields. auto. Qed.

Lemma log_yields line ctx code a0 a1 a2 (p : state) :
  yields (bpf_log clock boot fileline line ctx code a0 a1 a2) p (fun _ => quietly p).
Proof.
  unfold bpf_log. apply yields_bind. unfold yields at 1. cbn [get_timestamp fst snd app]. destruct (_ || _); [by repeat constructor|].
  apply yields_bind. unfold yields at 1. cbn [here fst snd app]. destruct (default _ _) as [start count].
  destruct (if _ <=? _ then _ else _) as [start' count']. apply yields_bind. unfold yields at 1. cbn [set_globals fst snd app].
  destruct (_ =? _); [by repeat constructor|]. destruct (_ <=? _); by repeat constructor.
Qed.

Lemma pid_yields line ctx (p : state) : yields (GET_PID_TGID clock boot fileline line ctx) p (fun _ => quietly p).
Proof. unfold GET_PID_TGID. destruct (_ || _); [apply log_yields|by repeat constructor]. Qed.

Lemma add_yields ctx sk tg (p : state) :
  yields (add_udp_open_socket clock boot fileline ctx sk tg) p (fun r p' out =>
    Forall neutral out /\
    ((r = 1 /\ sockets p !! sk = None /\ sockets p' = <[sk := mk_open tg no_stats no_stats]> (sockets p)) \/
     (r <> 1 /\ sockets p' = sockets p))).
Proof.
  unfold add_udp_open_socket. apply yields_bind. unfold yields at 1. cbn [here fst snd app].
  set (v := mk_open _ _ _). pose proof (bm_insert_spec (udp_open_sockets p) sk v) as Hins.
  destruct (bm_insert (udp_open_sockets p) sk v) as [m r]. cbn [fst snd] in Hins.
  apply yields_bind. unfold yields at 1. cbn [set_sockets fst snd app]. set (p1 := mk_probe m _ _ _ _).
  destruct Hins as [(Hn & -> & Hc)|[Hr Hc]].
  - cbn. split; [constructor|]. by left.
  - assert (Hlog : forall line code x y z k, k <> 1 -> yields (bind (bpf_log clock boot fileline line ctx code x y z) (fun _ => ret k)) p1
      (fun r p' out => Forall neutral out /\ ((r = 1 /\ sockets p !! sk = None /\ sockets p' = <[sk := v]> (sockets p)) \/
        (r <> 1 /\ sockets p' = sockets p)))).
    { intros line code x y z k Hk. apply yields_bind. eapply yields_mono; [apply log_yields|]. intros _ p' out [Hs Hn].
      unfold yields, ret. cbn [fst snd]. rewrite app_nil_r. split; [done|]. right. split; [done|]. rewrite Hs. exact Hc. }
    destruct (_ || _); [by apply Hlog|]. destruct (r =? - EEXIST); [cbn; split; [constructor|]; by right|].
    destruct (Z.eqb_spec r 0); [done|]. by apply Hlog.
Qed.

Lemma stats_ok_none n : 0 <= n -> stats_ok n no_stats.
Proof. intros Hn. unfold stats_ok. cbn. lia. Qed.

Lemma inv_mono n n' (p : state) : inv n p -> n <= n' -> inv n' p.
Proof. intros Hi Hn sk info d Hs. destruct (Hi sk info d Hs) as (? & ? & ?). split; [lia|done]. Qed.

Lemma outcome_mono (p p' : state) n n' g out : outcome p p' n g out -> n <= n' -> outcome p p' n' g out.
Proof. intros [I S O] Hn. constructor; [by eapply inv_mono|done|done]. Qed.

Lemma ret_outcome n (p : state) : inv n p -> outcome p p n nothing [].
Proof. intros Hi. apply quietly_outcome; [done|]. split; [done|constructor]. Qed.

(** A socket that enters the table. *)
Lemma inserted_outcome (p p' : state) n sk tg out :
  inv n p -> 0 <= n -> sockets p !! sk = None -> sockets p' = <[sk := mk_open tg no_stats no_stats]> (sockets p) ->
  Forall sent_ok out -> (forall c sk d, sent c sk d out = 0) -> outcome p p' n nothing out.
Proof.
  intros Hi Hn Hno Hs Ho Hz. constructor; [| |done].
  - intros k info d. rewrite Hs. intros [[_ <-]|[_ Hk]]%lookup_insert_Some; [|by eapply Hi]. destruct d; by apply stats_ok_none.
  - intros c k d. rewrite Hz. unfold held, nothing. rewrite Hs. f_equal. destruct (decide (sk = k)) as [<-|Hne].
    + rewrite lookup_insert_eq, Hno. by destruct d, c.
    + rewrite lookup_insert_ne by done. lia.
Qed.

Lemma ensure_yields n ctx sk (s : sock) tg (p : state) :
  inv n p -> 0 <= n -> inet_num s <> 0 ->
  yields (ensure_udp_existing clock boot fileline ctx sk s tg) p (fun _ p' out => outcome p p' n nothing out).
Proof.
  intros Hi Hn Hb. unfold ensure_udp_existing. destruct (_ && _); [by apply ret_outcome|].
  apply yields_bind. unfold yields at 1. cbn [get_timestamp fst snd app]. set (p0 := mk_probe _ _ _ _ _).
  apply yields_bind. eapply yields_mono; [apply add_yields|].
  intros r p1 o1 (Hneu & [(-> & Hno & Hs)|[Hr Hs]]).
  - cbn [Z.eqb Pos.eqb]. apply yields_bind. unfold yields, submit, ret. cbn [fst snd app].
    eapply (inserted_outcome p p1 n sk tg); try done.
    + apply Forall_app. split; [by apply neutral_ok|]. by repeat constructor.
    + intros c k d. rewrite sent_app, neutral_sent by done. done.
  - destruct (Z.eqb_spec r 1); [done|]. unfold yields, ret. cbn [fst snd]. rewrite app_nil_r. by apply quietly_outcome.
Qed.

Lemma hack_yields n ctx sk (s : sock) (p : state) :
  inv n p -> 0 <= n -> inet_num s <> 0 -> sockets p !! sk = None ->
  yields (udp_existing_hack clock boot fileline ctx sk s) p (fun found p' out =>
    outcome p p' n nothing out /\ found = sockets p' !! sk).
Proof.
  intros Hi Hn Hb Hno. unfold udp_existing_hack. destruct (_ || _).
  - split; [by apply ret_outcome|done].
  - apply yields_bind. eapply yields_mono; [by apply (ensure_yields n)|]. intros r0 p1 o1 Ho.
    apply yields_bind. unfold yields, here, ret. cbn [fst snd]. rewrite !app_nil_r. split; [done|]. apply bm_lookup_spec.
Qed.

Lemma send_yields n now sk (s : sock) st is_rx (p : state) :
  stats_ok n st ->
  yields (udp_send_stats_if_nonempty now sk s st is_rx) p (fun _ p' out =>
    p' = p /\ Forall sent_ok out /\
    forall c k d, sent c k d out = if decide (k = sk /\ d = is_rx) then of_stats c st else 0).
Proof.
  intros (_ & Hz & Hl & Hr). unfold udp_send_stats_if_nonempty.
  destruct ((addr_changed st =? 0) && (packets st =? 0) && (sk_drops s =? drops st)) eqn:E.
  - split; [done|]. split; [constructor|]. intros c k d. apply andb_prop in E as [E _]. apply andb_prop in E as [_ E].
    apply Z.eqb_eq in E. cbn. case_decide; [|done]. by destruct c; cbn; [rewrite E|rewrite Hz].
  - unfold yields, submit. cbn [fst snd]. split; [done|]. split.
    + repeat constructor; cbn; try (by rewrite zlen_to_bytes); by destruct is_rx.
    + intros c k d. cbn [sent]. unfold of_sent. cbn [snd PollerUdp.m_sk PollerUdp.m_is_rx]. rewrite Z.add_0_r.
      destruct (Z.eqb_spec sk k) as [->|Hne]; [|rewrite decide_False by (intros [? _]; congruence); done].
      destruct d, is_rx; cbn; first [rewrite decide_True by done|rewrite decide_False by naive_solver]; by destruct c.
Qed.

Lemma remove_yields n sk (s : sock) (p : state) :
  inv n p -> yields (remove_udp_open_socket clock boot sk s) p (fun _ p' out => outcome p p' n nothing out).
Proof.
  intros Hi. unfold remove_udp_open_socket. apply yields_bind. unfold yields at 1. cbn [here fst snd app].
  rewrite bm_lookup_spec. fold (sockets p). destruct (sockets p !! sk) as [info|] eqn:Hk.
  2:{ by apply ret_outcome. }
  pose proof (bm_delete_spec (udp_open_sockets p) sk) as Hdel. fold (sockets p) in Hdel.
  destruct (bm_delete (udp_open_sockets p) sk) as [m r]. cbn [fst snd] in Hdel.
  destruct Hdel as [(_ & -> & Hc)|[Hno _]]; [|congruence]. apply yields_bind. unfold yields at 1. cbn [set_sockets fst snd app negb Z.eqb].
  apply yields_bind. unfold yields at 1. cbn [get_timestamp fst snd app]. set (p1 := mk_probe _ _ _ _ (S _)).
  assert (Hs1 : sockets p1 = delete sk (sockets p)) by exact Hc.
  apply yields_bind. eapply yields_mono; [apply (send_yields n); exact (Hi sk info false Hk)|]. intros _ p2 o2 (-> & Ho2 & Hsum2).
  apply yields_bind. eapply yields_mono; [apply (send_yields n); exact (Hi sk info true Hk)|]. intros _ p3 o3 (-> & Ho3 & Hsum3).
  unfold yields, submit. cbn [fst snd]. constructor.
  - intros k i d. rewrite Hs1. intros [_ Hki]%lookup_delete_Some. by eapply Hi.
  - intros c k d. rewrite !sent_app, Hsum2, Hsum3. unfold held, nothing. rewrite Hs1. cbn [sent of_sent snd].
    destruct (decide (k = sk)) as [->|Hne].
    + rewrite lookup_delete_eq, Hk. f_equal. destruct d; cbn [stats_of];
        [rewrite decide_False by naive_solver; rewrite decide_True by done
        |rewrite decide_True by done; rewrite decide_False by naive_solver]; lia.
    + rewrite lookup_delete_ne by done. rewrite !decide_False by tauto. f_equal. lia.
  - apply Forall_app. split; [done|]. apply Forall_app. split; [done|]. by repeat constructor.
Qed.

Lemma lifetime_yields n sk (s : sock) (p : state) :
  inv n p -> yields (udp_lifetime_hack clock boot debug sk s) p (fun _ p' out => outcome p p' n nothing out).
Proof.
  intros Hi. unfold udp_lifetime_hack. apply yields_bind. unfold yields at 1. cbn [here fst snd app].
  destruct (bm_lookup _ sk); [|by apply ret_outcome]. destruct debug; [|by apply remove_yields].
  apply yields_bind. unfold yields at 1. cbn [get_timestamp fst snd app]. apply yields_bind. unfold yields at 1. cbn [submit fst snd app].
  set (p1 := mk_probe _ _ _ _ _). eapply yields_mono; [apply (remove_yields n sk s p1); exact Hi|]. intros r0 p2 o2 Ho.
  assert (Hd : outcome p p1 n nothing [(u64 (clock (ticks p) + boot), Agent.report_debug_event UDP_LIFETIME_HACK_CODE sk 0 0 0)])
    by (apply quietly_outcome; [done|]; by repeat constructor).
  eapply outcome_ext; [exact (outcome_trans _ _ _ _ _ _ _ _ _ Hd Ho)|done].
Qed.

(** ** Packets *)

Definition amount (c : PollerUdp.counter) (len : Z) : Z :=
  match c with PollerUdp.Packets => 1 | PollerUdp.Bytes => len end.

(** A packet counts if its socket is tracked once the probe has run. *)
Definition gain (p' : state) (pk : option (Z * bool * Z)) (c : PollerUdp.counter) (sk : Z) (d : bool) : Z :=
  match pk with
  | Some (k, r, len) => if decide (sk = k /\ d = r /\ is_Some (sockets p' !! k)) then amount c len else 0
  | None => 0
  end.

Lemma stats_of_set info r st d : stats_of (set_stats info r st) d = if decide (d = r) then st else stats_of info d.
Proof. by destruct r, d. Qed.

(** The statistics of a tracked socket are replaced; [out] is what was sent of them. *)
Lemma stored_outcome (p p' : state) n sk info r st len out :
  inv n p -> sockets p !! sk = Some info -> sockets p' = <[sk := set_stats info r st]> (sockets p) ->
  stats_ok (n + 1) st -> Forall sent_ok out ->
  (forall c k d, (sent c k d out + (if decide (k = sk /\ d = r) then of_stats c st else 0)) mod 2 ^ 32
     = ((if decide (k = sk /\ d = r) then of_stats c (stats_of info r) + amount c len else 0)) mod 2 ^ 32) ->
  outcome p p' (n + 1) (gain p' (Some (sk, r, len))) out.
Proof.
  intros Hi Hk Hs Hst Ho Hsum. constructor; [| |done].
  - intros k i d. rewrite Hs. intros [[_ <-]|[_ Hki]]%lookup_insert_Some.
    + rewrite stats_of_set. case_decide; [done|]. eapply inv_mono; [exact Hi| |exact Hk]. lia.
    + eapply inv_mono; [exact Hi| |exact Hki]. lia.
  - intros c k d. specialize (Hsum c k d). unfold held, gain. rewrite Hs. destruct (decide (k = sk)) as [->|Hne].
    + rewrite !lookup_insert_eq, Hk, stats_of_set. destruct (decide (d = r)) as [->|Hd].
      * rewrite !(decide_True (P := sk = sk /\ r = r)) in Hsum by done. rewrite decide_True by eauto. exact Hsum.
      * rewrite !(decide_False (P := sk = sk /\ d = r)) in Hsum by tauto. rewrite decide_False by tauto.
        rewrite Z.add_0_r in Hsum. rewrite <- Zplus_mod_idemp_l, Hsum. rewrite Z.add_0_r. done.
    + rewrite !(decide_False (P := k = sk /\ d = r)) in Hsum by tauto. rewrite decide_False by tauto.
      rewrite lookup_insert_ne by done. rewrite Z.add_0_r in Hsum. rewrite <- Zplus_mod_idemp_l, Hsum, Z.add_0_r. done.
Qed.

Lemma update_yields n ctx sk (s : sock) len laddr lp raddr rp is_rx (p : state) :
  inv n p -> 0 <= n -> n + 1 < 2 ^ 32 -> inet_num s <> 0 -> length laddr = 4%nat -> length raddr = 4%nat ->
  yields (udp_update_stats clock boot fileline filter ctx sk s len laddr lp raddr rp is_rx) p
    (fun _ p' out => outcome p p' (n + 1) (gain p' (Some (sk, is_rx, len))) out).
Proof.
  intros Hi Hn Hlt Hb Hl Hr. unfold udp_update_stats. apply yields_bind. unfold yields at 1. cbn [here fst snd app].
  apply yields_bind. apply yields_mono with (Φ := fun found p1 o1 => outcome p p1 n nothing o1 /\ found = sockets p1 !! sk).
  { rewrite bm_lookup_spec. fold (sockets p). destruct (sockets p !! sk) as [info|] eqn:Hk.
    - split; [by apply ret_outcome|done].
    - by apply hack_yields. }
  intros found p1 o1 [Ho ->]. pose proof (oc_inv _ _ _ _ _ Ho) as Hi1. destruct (sockets p1 !! sk) as [info|] eqn:Hk.
  2:{ unfold yields, ret. cbn [fst snd]. rewrite app_nil_r. eapply outcome_mono; [eapply outcome_ext; [exact Ho|]|lia].
      intros c k d. unfold gain, nothing. rewrite Hk, decide_False; [done|]. by intros (_ & _ & [? ?]). }
  assert (Hfinish : forall p2 out, outcome p1 p2 (n + 1) (gain p2 (Some (sk, is_rx, len))) out ->
    outcome p p2 (n + 1) (gain p2 (Some (sk, is_rx, len))) (o1 ++ out)).
  { intros p2 out Ho2. eapply outcome_ext; [exact (outcome_trans _ _ _ _ _ _ _ _ _ Ho Ho2)|done]. }
  pose proof (Hi1 sk info is_rx Hk) as Hst. pose proof Hst as (Hpk & Hz & Hla & Hra). set (st := stats_of info is_rx) in *.
  set (lch := differ _ _ _ _). set (rch := differ _ _ _ _).
  apply yields_bind. unfold yields at 1. cbn [get_timestamp fst snd app]. set (now := u64 _). set (p1' := mk_probe _ _ _ _ _).
  assert (Hstored : forall v, sockets (mk_probe (bm_store (udp_open_sockets p1') sk v) (udp_get_port_hash p1') (seen_inodes p1')
    (bpf_log_globals_per_cpu p1') (ticks p1')) = <[sk := v]> (sockets p1)).
  { intros v. unfold sockets at 1. cbn [udp_open_sockets]. apply bm_store_spec. fold (sockets p1). by rewrite Hk. }
  destruct (lch || rch || _ || _).
  - set (st1 := mk_stats (last_output st) _ _ _ _ _ _ _ _).
    assert (Hst1 : stats_ok n st1) by (split; [done|]; split; [done|]; cbn; by destruct lch, rch).
    apply yields_bind. eapply yields_mono; [by apply (send_yields n)|]. intros r0 p2 o2 (-> & Ho2 & Hsum).
    apply yields_bind. unfold yields, here, set_sockets. cbn [fst snd app]. rewrite app_nil_r. apply Hfinish.
    eapply stored_outcome; [exact Hi1|exact Hk|apply Hstored| |exact Ho2|].
    + destruct Hst1 as (_ & _ & ? & ?). split; [cbn; lia|]. split; [done|]. done.
    + intros c k d. rewrite Hsum. case_decide; [|done]. by destruct c.
  - apply yields_bind. unfold yields, here, set_sockets. cbn [fst snd app]. apply Hfinish.
    eapply stored_outcome; [exact Hi1|exact Hk|apply Hstored| |constructor|].
    + split; [|split; [|done]]; cbn; unfold u32; rewrite Z.mod_small by lia; lia.
    + intros c k d. cbn [sent]. rewrite Z.add_0_l. case_decide; [|done]. fold st. unfold u32. destruct c; cbn; by rewrite Z.mod_mod.
Qed.

(** ** Histories *)

(** A socket the kernel passes to these probes has its port; addresses are four words. *)
Definition pevent_ok (ev : pevent) : Prop :=
  match ev with
  | SeqShow _ _ s => inet_num s <> 0
  | GotPort _ mem retval => retval = 0 -> forall sk, inet_num (mem sk) <> 0
  | Send4 _ _ s _ _ _ _ _ => inet_num s <> 0
  | Send6 _ _ s _ saddr daddr _ _ => inet_num s <> 0 /\ length saddr = 4%nat /\ length daddr = 4%nat
  | Receive _ _ s _ h => inet_num s <> 0 /\ length (saddr16 h) = 4%nat /\ length (daddr16 h) = 4%nat
  | _ => True
  end.

(** The socket, direction and length of the packet of an event. *)
Definition packet_of (ev : pevent) : option (Z * bool * Z) :=
  match ev with
  | Send4 _ sk _ len _ _ _ _ => Some (sk, false, len)
  | Send6 _ sk _ len _ _ _ _ => Some (sk, false, len)
  | Receive _ sk _ len h =>
      let v := Z.land (version h) 240 in if (v =? 64) || negb (Z.land v 96 =? 0) then Some (sk, true, len) else None
  | _ => None
  end.

Lemma after_quiet {A B} (m : run A) (f : A -> run B) (p : state) n n' g :
  inv n p -> yields m p (fun _ => quietly p) ->
  (forall a p1, inv n p1 -> yields (f a) p1 (fun _ p' out => outcome p1 p' n' (g p') out)) ->
  yields (bind m f) p (fun _ p' out => outcome p p' n' (g p') out).
Proof.
  intros Hi Hm Hf. apply yields_bind. eapply yields_mono; [exact Hm|]. intros a p1 o1 Hq.
  pose proof (quietly_outcome _ _ n _ Hi Hq) as Ho. eapply yields_mono; [apply Hf; exact (oc_inv _ _ _ _ _ Ho)|].
  intros b p2 o2 Ho2. eapply outcome_ext; [exact (outcome_trans _ _ _ _ _ _ _ _ _ Ho Ho2)|done].
Qed.

Lemma set_ports_yields n m (p : state) : inv n p -> yields (set_ports m) p (fun _ p' out => outcome p p' n nothing out).
Proof. intros Hi. apply quietly_outcome; [done|]. split; [done|constructor]. Qed.

Lemma seq_show_yields n ctx sk (s : sock) (p : state) :
  inv n p -> 0 <= n -> inet_num s <> 0 ->
  yields (on_udp46_seq_show clock boot fileline ctx sk s) p (fun _ p' out => outcome p p' n nothing out).
Proof.
  intros Hi Hn Hb. unfold on_udp46_seq_show. apply yields_bind. unfold yields at 1. cbn [here fst snd app].
  destruct (bm_lookup _ _) as [tg|]; [|by apply ret_outcome].
  apply (after_quiet _ _ _ n n (fun _ => nothing)); [done|split; [done|constructor]|]. intros _ p1 Hi1.
  apply yields_bind. eapply yields_mono; [by apply (ensure_yields n)|]. intros r p2 o2 Ho.
  destruct (r <? 0).
  - eapply yields_mono; [apply log_yields|]. intros [] p3 o3 Hq.
    eapply outcome_ext; [exact (outcome_trans _ _ _ _ _ _ _ _ _ Ho (quietly_outcome _ _ n _ (oc_inv _ _ _ _ _ Ho) Hq))|done].
  - unfold yields, ret. cbn [fst snd]. by rewrite app_nil_r.
Qed.

Lemma got_port_yields n ctx (mem : Z -> sock) retval (p : state) :
  inv n p -> 0 <= n -> (retval = 0 -> forall sk, inet_num (mem sk) <> 0) ->
  yields (onret_udp_v46_get_port clock boot fileline debug ctx mem retval) p (fun _ p' out => outcome p p' n nothing out).
Proof.
  intros Hi Hn Hb. apply (after_quiet _ _ _ n n (fun _ => nothing)); [done|apply pid_yields|]. intros _ p1 Hi1.
  apply yields_bind. unfold yields at 1. cbn [here fst snd app]. destruct (bm_lookup _ _) as [sk|]; [|by apply ret_outcome].
  apply yields_bind. apply yields_mono with (Φ := fun _ p2 o2 => outcome p1 p2 n nothing o2).
  - destruct (Z.eqb_spec retval 0) as [Hz|]; [|by apply ret_outcome]. apply yields_bind.
    eapply yields_mono; [by apply (lifetime_yields n)|]. intros a p2 o2 Ho. apply yields_bind.
    eapply yields_mono; [apply (ensure_yields n); [exact (oc_inv _ _ _ _ _ Ho)|done|by apply Hb]|]. intros b p3 o3 Ho3.
    unfold yields, ret. cbn [fst snd]. rewrite app_nil_r.
    eapply outcome_ext; [exact (outcome_trans _ _ _ _ _ _ _ _ _ Ho Ho3)|done].
  - intros a p2 o2 Ho. apply yields_bind. unfold yields at 1. cbn [here fst snd app].
    eapply yields_mono; [apply (set_ports_yields n); exact (oc_inv _ _ _ _ _ Ho)|]. intros b p3 o3 Ho3.
    eapply outcome_ext; [exact (outcome_trans _ _ _ _ _ _ _ _ _ Ho Ho3)|done].
Qed.

Lemma probe_yields n (ev : pevent) (p : state) :
  inv n p -> 0 <= n -> n + 1 < 2 ^ 32 -> pevent_ok ev ->
  yields (probe clock boot fileline filter debug ev) p (fun _ p' out => outcome p p' (n + 1) (gain p' (packet_of ev)) out).
Proof.
  intros Hi Hn Hlt Hok.
  assert (Hmono : forall (m : run unit), yields m p (fun _ p' out => outcome p p' n nothing out) ->
    yields m p (fun _ p' out => outcome p p' (n + 1) (gain p' None) out)).
  { intros m Hm. eapply yields_mono; [exact Hm|]. intros [] p' out Ho. eapply outcome_mono; [exact Ho|lia]. }
  destruct ev as [ctx sk s|ctx sk|ctx mem rv|sk s|ctx sk s len sa da sp dp|ctx sk s len sa da sp dp|ctx sk s len h];
    cbn [probe packet_of pevent_ok] in *.
  - by apply Hmono, seq_show_yields.
  - apply Hmono, (after_quiet _ _ _ n n (fun _ => nothing)); [done|apply pid_yields|]. intros _ p1 Hi1.
    apply yields_bind. unfold yields at 1. cbn [here fst snd app]. by apply set_ports_yields.
  - by apply Hmono, got_port_yields.
  - by apply Hmono, remove_yields.
  - apply (after_quiet _ _ _ n (n + 1) (fun p' => gain p' _)); [done|apply pid_yields|]. intros _ p1 Hi1. by apply update_yields.
  - destruct Hok as (? & ? & ?). apply (after_quiet _ _ _ n (n + 1) (fun p' => gain p' _)); [done|apply pid_yields|].
    intros _ p1 Hi1. by apply update_yields.
  - destruct Hok as (? & ? & ?). unfold handle_receive_udp_skb. cbv zeta. destruct (_ =? 64); cbn [orb].
    + by apply update_yields.
    + destruct (negb _); [by apply update_yields|]. apply Hmono. eapply yields_mono; [apply log_yields|].
      intros [] p' out Hq. by apply quietly_outcome.
Qed.

(** The packets that count in a history. *)
Fixpoint seen (p : state) (evs : list pevent) (c : PollerUdp.counter) (sk : Z) (d : bool) : Z :=
  match evs with
  | [] => 0
  | ev :: evs =>
      let p' := (probe clock boot fileline filter debug ev p).1.2 in gain p' (packet_of ev) c sk d + seen p' evs c sk d
  end.

Lemma run_outcome (evs : list pevent) n (p : state) :
  inv n p -> 0 <= n -> n + Z.of_nat (length evs) < 2 ^ 32 -> Forall pevent_ok evs ->
  let r := probe_run clock boot fileline filter debug p evs in
  outcome p r.1 (n + Z.of_nat (length evs)) (seen p evs) r.2.
Proof.
  revert n p. induction evs as [|ev evs IH]; intros n p Hi Hn Hlt Hok.
  { cbn. rewrite Z.add_0_r. by apply ret_outcome. }
  apply Forall_cons in Hok as [Hev Hok]. cbn [length] in *.
  pose proof (probe_yields n ev p Hi Hn ltac:(lia) Hev) as Ho. unfold yields in Ho. cbn [probe_run seen].
  destruct (probe clock boot fileline filter debug ev p) as [[u p1] o1]. cbn [fst snd] in *.
  specialize (IH (n + 1) p1 (oc_inv _ _ _ _ _ Ho) ltac:(lia) ltac:(lia) Hok). cbv zeta in IH.
  destruct (probe_run clock boot fileline filter debug p1 evs) as [p2 o2]. cbn [fst snd] in *.
  eapply outcome_ext; [eapply outcome_mono; [exact (outcome_trans _ _ _ _ _ _ _ _ _ Ho IH)|lia]|done].
Qed.

Lemma inv_empty (p : state) : sockets p = ∅ -> inv 0 p.
Proof. intros Hs sk info d. by rewrite Hs, lookup_empty. Qed.

(** C11: the probes lose no packet of a socket they track.  Through any history of
    fewer than 2^32 events, whatever the kernel answers to insertions and however
    sockets are freed and reused, for every socket and direction the packets and bytes
    that were sent to the collector plus those still held equal those seen, modulo the
    width of the counters, and every message has the form the collector relies on:
    a new socket carries its port, statistics carry sixteen-byte addresses. *)
Theorem probe_packets_conserved (p : state) (evs : list pevent) :
  sockets p = ∅ -> Z.of_nat (length evs) < 2 ^ 32 -> Forall pevent_ok evs ->
  let r := probe_run clock boot fileline filter debug p evs in
  Forall sent_ok r.2 /\
  forall c sk d, (sent c sk d r.2 + held c sk d r.1) mod 2 ^ 32 = seen p evs c sk d mod 2 ^ 32.
Proof.
  intros Hs Hlt Hok r. destruct (run_outcome evs 0 p (inv_empty p Hs) ltac:(lia) ltac:(lia) Hok) as [_ Hsum Hout].
  fold r in Hsum, Hout. split; [done|]. intros c sk d. rewrite Hsum. unfold held. by rewrite Hs, lookup_empty.
Qed.
End laws.

(** * A map with a bound *)

#[export] Instance bounded_map {V : Type} (max : nat) : BpfMap V (gmap Z V) := {
  bm_lookup m k := m !! k;
  bm_insert m k v :=
    match m !! k with Some _ => (m, - EEXIST) | None => if decide (size m < max)%nat then (<[k := v]> m, 0) else (m, - E2BIG) end;
  bm_delete m k := match m !! k with Some _ => (delete k m, 0) | None => (m, -2) end;
  bm_store m k v := <[k := v]> m;
}.

#[export] Instance bounded_map_laws {V : Type} (max : nat) : @BpfMapLaws V (gmap Z V) (bounded_map max).
Proof.
  refine {| bm_contents := fun m => m |}; [done|..|done].
  - intros m k v. cbn. destruct (m !! k) eqn:Hk; [by right|]. case_decide; [by left|by right].
  - intros m k. cbn. destruct (m !! k) eqn:Hk; [left|right]; by eauto.
Defined.
End ProbeUdp.

Module ProbeUdpDemo.
Import ProbeUdp.
Definition maps : BpfMap udp_open_socket_t (gmap Z udp_open_socket_t) := bounded_map 2.
Definition ports : BpfMap Z (gmap Z Z) := bounded_map 2.

Definition demo_probe : Probe (gmap Z udp_open_socket_t) (gmap Z Z) := mk_probe ∅ ∅ ∅ ∅ 0.
Definition demo_clock (n : nat) : Z := Z.of_nat n * 1000.
Definition demo_sock : sock := mk_sock AF_INET 1 [0; 0; 0; 0] 53 0 7.
Definition demo_ctx : context := mk_ctx 0 (2 ^ 32 + 5).

(** A socket gets its port, sends and receives, is freed, and sends again. *)
Definition demo_pevents : list pevent :=
  [GetPort demo_ctx 77; GotPort demo_ctx (fun _ => demo_sock) 0;
   Send4 demo_ctx 77 demo_sock 100 1 2 53 99; Send4 demo_ctx 77 demo_sock 50 1 2 53 99;
   Receive demo_ctx 77 demo_sock 30 (mk_header 69 2 1 [0; 0; 0; 0] [0; 0; 0; 0] 99 53);
   Free 77 demo_sock; Send4 demo_ctx 77 demo_sock 10 1 2 53 99].

Lemma probe_packets_conserved_witness :
  let r := @probe_run _ _ maps ports demo_clock 0 (fun l => l) 1000000 false demo_probe demo_pevents in
  (sent PollerUdp.Bytes 77 false r.2 + @held _ _ maps (bounded_map_laws 2) PollerUdp.Bytes 77 false r.1) mod 2 ^ 32 = 160.
Proof.
  pose proof (@probe_packets_conserved _ _ maps (bounded_map_laws 2) ports demo_clock 0 (fun l => l) 1000000
    false demo_probe demo_pevents eq_refl ltac:(cbn; lia)) as Hc.
  destruct Hc as [_ Hc]; [by repeat constructor|]. exact (Hc PollerUdp.Bytes 77 false).
Defined.
End ProbeUdpDemo.
