(* ===== verification/Probes.v ===== *)
(** The probes of the kernel as programs over the maps they share.

    collector/kernel/bpf_src/render_bpf.c attaches its probes to functions of the
    kernel, so that probes run at the same time on different processors and a probe can
    be preempted by another between any two accesses to a map.  A probe is therefore a
    program: a tree of operations (on a map of render_bpf.c, on the memory of the
    kernel, on the ring of messages) and continuations.  Two semantics are given:
    [exec] runs a program to its end, and [cstep] interleaves any number of programs,
    one operation at a time, under any answers the kernel may give.

    Theorems: a run to the end is one of the interleavings ([exec_reachable]); whatever
    the interleaving, a table whose entries are announced when they enter and when they
    leave is balanced with the messages sent ([ledger_balanced]). *)
From S2P Require Import Prelude PollerBase PollerTcp PollerUdp Agent ProbeUdp.

Module Probes.
Abbreviation messages := (list (Z * Agent.agent_msg)).
Abbreviation context := ProbeUdp.context.

(** * Data *)

Record tcp_open_socket_t := mk_open {
  tgid : Z; rcv_holes : Z; last_output : Z; bytes_received : Z; rcv_delivered : Z; parent : Z }.

(** The saved arguments of [inet_csk_accept]. *)
Record accept_args := mk_accept { a_sk : Z; a_flags : Z; a_err : Z }.

(** The maps of the probes; those of UDP sockets, the inodes and the state of the log
    are the state of [ProbeUdp].  The arguments saved for a return probe are in a map
    of their own for each function. *)
Inductive table :=
  | tcp_open_sockets
  | tgid_info_table
  | dead_group_tasks
  | seen_conntracks
  | on_inet_csk_accept_active
  | inet_release_active
  | cgroup_exit_active
  | cgroup_control_active.

#[export] Instance table_eq_dec : EqDecision table.
Proof. solve_decision. Defined.

Definition value (t : table) : Type :=
  match t with
  | tcp_open_sockets => tcp_open_socket_t
  | on_inet_csk_accept_active => accept_args
  | _ => Z
  end.

Definition zero_value (t : table) : value t :=
  match t with
  | tcp_open_sockets => mk_open 0 0 0 0 0 0
  | on_inet_csk_accept_active => mk_accept 0 0 0
  | _ => 0
  end.

(** The fields of the kernel's structures that the probes read. *)
Module Field.
Inductive word :=
  | packets_out | sacked_out | lost_out | retrans_out | delivered | rcv_rtt_est_rtt | rcv_rtt_est_rtt_us
  | srtt_us | snd_cwnd | bytes_acked | icsk_ca_state | total_retrans | bytes_received
  | sk_family | sk_state | sk_dport | sk_num | sk_daddr | sk_rcv_saddr | sk_drops | i_ino
  | req_sk | rsk_listener | socket_sk
  | task_tgid | task_pid | group_leader | task_parent | task_cgroups | css_set_subsys
  | css_cgroup | css_id | css_id_id | css_ss | ss_id | css_parent
  | cgroup_parent | cgroup_subsys | cgroup_root | root_subsys_mask
  | src_l3num | src_ip | src_all | dst_ip | dst_all | dst_protonum | dst_dir
  | skb_sk | skb_len | skb_data_len | skb_data | skb_head | skb_transport_header | skb_network_header
  | fl_sport | fl_dport | udp_source | udp_dest | ip_protocol | ipv6_nexthdr.
(** [bytes n]: [n] bytes from the address on. *)
Inductive array :=
  | sk_v6_daddr | sk_v6_rcv_saddr | task_comm | current_comm | characters | name_name | kn_name | bytes (n : Z).
End Field.

(** The result of [bpf_probe_read]: the value, or an error, after which the
    destination, which every caller clears, is zero. *)
Inductive probed (A : Type) := Got (a : A) | Failed (err : Z).
Arguments Got {A} a.
Arguments Failed {A} err.

Definition got {A} (zero : A) (r : probed A) : A := match r with Got a => a | Failed _ => zero end.

Record memory := mk_memory { word_at : Z -> Field.word -> probed Z; array_at : Z -> Field.array -> probed (list Z) }.

(** * Programs *)

(** [Lookup] tells whether the pointer it gets is null; [Deref] and [Write] go through
    that pointer.  [LookupUdp] and [RemoveUdp] are the lookup in the map of UDP
    sockets and the function [remove_udp_open_socket] of [ProbeUdp]. *)
Inductive op :=
  | Now
  | Submit (t : Z) (m : Agent.agent_msg)
  | Log (line : Z) (ctx : context) (code arg0 arg1 arg2 : Z)
  | Read (a : Z) (f : Field.word)
  | ReadArray (a : Z) (f : Field.array)
  | Lookup (t : table) (k : Z)
  | Deref (t : table) (k : Z)
  | Write (t : table) (k : Z) (f : value t -> value t)
  | Insert (t : table) (k : Z) (v : value t)
  | Delete (t : table) (k : Z)
  | LookupInode (ino : Z)
  | DeleteInode (ino : Z)
  | LookupUdp (sk : Z)
  | RemoveUdp (sk : Z).

Definition answer (o : op) : Type :=
  match o with
  | Now | Insert _ _ _ | Delete _ _ => Z
  | Submit _ _ | Log _ _ _ _ _ _ | Write _ _ _ | DeleteInode _ | RemoveUdp _ => unit
  | Read _ _ => probed Z
  | ReadArray _ _ => probed (list Z)
  | Lookup _ _ | LookupUdp _ => bool
  | Deref t _ => value t
  | LookupInode _ => option Z
  end.

Inductive prog (A : Type) : Type :=
  | Ret (a : A)
  | Do (o : op) (k : answer o -> prog A).
Arguments Ret {A} a.
Arguments Do {A} o k.

Fixpoint bind {A B} (m : prog A) (f : A -> prog B) : prog B :=
  match m with Ret a => f a | Do o k => Do o (fun x => bind (k x) f) end.

Definition act (o : op) : prog (answer o) := Do o Ret.

Declare Scope prog_scope.
Delimit Scope prog_scope with prog.
Notation "'do*' x ':=' e 'in' k" := (bind e (fun x => k)) (at level 10, x name, e at level 200, k at level 200) : prog_scope.
Notation "'do*' '_' ':=' e 'in' k" := (bind e (fun _ => k)) (at level 10, e at level 200, k at level 200) : prog_scope.

(** ** What the probes are written with *)

Definition BPF_LOG_TABLE_DUPLICATE_INSERT : Z := 6.
Definition BPF_LOG_INVALID_POINTER : Z := 9.
Definition BPF_LOG_BPF_CALL_FAILED : Z := 17.

Definition KERNEL_VERSION (a b c : Z) : Z := Z.shiftl a 16 + Z.shiftl b 8 + c.

Open Scope prog_scope.
Definition get_timestamp : prog Z := act Now.
Definition submit (t : Z) (m : Agent.agent_msg) : prog unit := act (Submit t m).
Definition bpf_log (line : Z) (ctx : context) (code a0 a1 a2 : Z) : prog unit := act (Log line ctx code a0 a1 a2).
Definition read (a : Z) (f : Field.word) : prog (probed Z) := act (Read a f).
(** A read whose result is not checked, and a pointer that is followed. *)
Definition field (a : Z) (f : Field.word) : prog Z := do* r := act (Read a f) in Ret (got 0 r).
Definition address (a : Z) (f : Field.array) : prog (list Z) :=
  do* r := act (ReadArray a f) in Ret (got (replicate 16 0) r).

Definition tgid_of (ctx : context) : Z := ProbeUdp.TGID_FROM_PID_TGID (ProbeUdp.pid_tgid ctx).
Definition no_process (ctx : context) : bool :=
  (tgid_of ctx =? 0) || (ProbeUdp.PID_FROM_PID_TGID (ProbeUdp.pid_tgid ctx) =? 0).
Definition GET_PID_TGID (line : Z) (ctx : context) : prog unit :=
  if no_process ctx then bpf_log line ctx ProbeUdp.BPF_LOG_INVALID_PID_TGID (ProbeUdp.pid_tgid ctx) 0 0 else Ret tt.

(** The arguments a probe saves for its return probe. *)
Definition SAVE_ARGS (t : table) (ctx : context) (v : value t) : prog unit :=
  do* _ := act (Insert t (ProbeUdp.pid_tgid ctx) v) in Ret tt.
Definition DELETE_ARGS (t : table) (ctx : context) : prog unit :=
  do* _ := act (Delete t (ProbeUdp.pid_tgid ctx)) in Ret tt.

Definition failed_call (line : Z) (ctx : context) (err : Z) : prog unit :=
  bpf_log line ctx BPF_LOG_BPF_CALL_FAILED (ProbeUdp.abs_val err) 0 0.

(** [read_or line ctx a f k]: the value of a read goes to [k]; an error is logged and
    ends the function. *)
Definition read_or {A} (line : Z) (ctx : context) (a : Z) (f : Field.word) (other : A) (k : Z -> prog A) : prog A :=
  do* r := read a f in
  match r with Got v => k v | Failed err => do* _ := failed_call line ctx err in Ret other end.

(** Does an insertion say that the map is full? *)
Definition is_full (r : Z) : bool := (r =? - E2BIG) || (r =? - ENOMEM) || (r =? - EINVAL_).

(** Did a read fail? *)
Definition is_failed (o : op) : answer o -> bool :=
  match o return answer o -> bool with
  | Read _ _ => fun x => match x with Failed _ => true | Got _ => false end
  | ReadArray _ _ => fun x => match x with Failed _ => true | Got _ => false end
  | _ => fun _ => false
  end.

(** ** The tables *)

Section tables.
Context {M : table -> Type}.
Definition set_tab (t : table) (m : M t) (s : forall t, M t) : forall t, M t := fun t' =>
  match decide (t = t') with left e => eq_rect t M m t' e | right _ => s t' end.

Lemma set_tab_eq t m s : set_tab t m s t = m.
Proof. unfold set_tab. destruct (decide (t = t)) as [e|]; [|done]. by rewrite (proof_irrel e eq_refl). Qed.

Lemma set_tab_ne t t' m s : t <> t' -> set_tab t m s t' = s t'.
Proof. intros Hne. unfold set_tab. by destruct (decide (t = t')). Qed.
End tables.

(** * Running a probe to its end *)

Section run.
Context {MS MP : Type} {M : table -> Type}.
Context `{BpfMap ProbeUdp.udp_open_socket_t MS} `{BpfMap Z MP} {HM : forall t, BpfMap (value t) (M t)}.
Context (bpf_ktime_get_ns : nat -> Z) (BOOT_TIME_ADJUSTMENT : Z) (fileline : Z -> Z).

Record State := mk_state { base : ProbeUdp.Probe MS MP; tabs : forall t, M t }.

(** What [remove_udp_open_socket] reads of a socket. *)
Definition udp_sock (mem : memory) (sk : Z) : ProbeUdp.sock :=
  ProbeUdp.mk_sock (got 0 (word_at mem sk Field.sk_family)) (got 0 (word_at mem sk Field.sk_rcv_saddr)) []
    (got 0 (word_at mem sk Field.sk_num)) (got 0 (word_at mem sk Field.sk_drops)) (got 0 (word_at mem sk Field.i_ino)).

(** A computation of [ProbeUdp] in this state. *)
Definition on_base {A} (m : ProbeUdp.run A) (s : State) : A * State * messages :=
  let '(a, b, out) := m (base s) in (a, mk_state b (tabs s), out).

Definition set_table (s : State) (t : table) (m : M t) : State := mk_state (base s) (set_tab t m (tabs s)).

Definition exec_op (mem : memory) (o : op) (s : State) : answer o * State * messages :=
  match o return answer o * State * messages with
  | Now => on_base (ProbeUdp.get_timestamp bpf_ktime_get_ns BOOT_TIME_ADJUSTMENT) s
  | Submit t m => (tt, s, [(t, m)])
  | Log line ctx code a0 a1 a2 =>
      on_base (ProbeUdp.bpf_log bpf_ktime_get_ns BOOT_TIME_ADJUSTMENT fileline line ctx code a0 a1 a2) s
  | Read a f => (word_at mem a f, s, [])
  | ReadArray a f => (array_at mem a f, s, [])
  | Lookup t k => (match bm_lookup (tabs s t) k with Some _ => true | None => false end, s, [])
  | Deref t k => (default (zero_value t) (bm_lookup (tabs s t) k), s, [])
  | Write t k f =>
      (tt, match bm_lookup (tabs s t) k with Some v => set_table s t (bm_store (tabs s t) k (f v)) | None => s end, [])
  | Insert t k v => let '(m, r) := bm_insert (tabs s t) k v in (r, set_table s t m, [])
  | Delete t k => let '(m, r) := bm_delete (tabs s t) k in (r, set_table s t m, [])
  | LookupInode ino => (bm_lookup (ProbeUdp.seen_inodes (base s)) ino, s, [])
  | DeleteInode ino => on_base (ProbeUdp.set_inodes (bm_delete (ProbeUdp.seen_inodes (base s)) ino).1) s
  | LookupUdp sk => (match bm_lookup (ProbeUdp.udp_open_sockets (base s)) sk with Some _ => true | None => false end, s, [])
  | RemoveUdp sk =>
      on_base (ProbeUdp.remove_udp_open_socket bpf_ktime_get_ns BOOT_TIME_ADJUSTMENT sk (udp_sock mem sk)) s
  end.

Fixpoint exec {A} (mem : memory) (m : prog A) (s : State) : A * State * messages :=
  match m with
  | Ret a => (a, s, [])
  | Do o k =>
      let '(x, s, out) := exec_op mem o s in
      let '(a, s, rest) := exec mem (k x) s in (a, s, out ++ rest)
  end.

(** One program after another, each with the memory the kernel has at that time. *)
Fixpoint exec_all (evs : list (memory * prog unit)) (s : State) : State * messages :=
  match evs with
  | [] => (s, [])
  | (mem, m) :: evs =>
      let '(_, s, out) := exec mem m s in
      let '(s, rest) := exec_all evs s in (s, out ++ rest)
  end.

(** Programs that run at the same time: each number picks the program that does its
    next operation. *)
Fixpoint interleave (mem : memory) (ts : list (prog unit)) (s : State) (picks : list nat)
    : list (prog unit) * State * messages :=
  match picks with
  | [] => (ts, s, [])
  | i :: picks =>
      match ts !! i with
      | Some (Do o k) =>
          let '(x, s, out) := exec_op mem o s in
          let '(ts, s, rest) := interleave mem (<[i := k x]> ts) s picks in (ts, s, out ++ rest)
      | _ => interleave mem ts s picks
      end
  end.
End run.
Arguments State MS MP M : clear implicits.

(** * Interleavings *)

Definition is_log (m : Z * Agent.agent_msg) : Prop := match m.2 with Agent.bpf_log _ _ _ _ _ => True | _ => False end.
Definition is_udp (m : Z * Agent.agent_msg) : Prop :=
  match m.2 with Agent.udp_stats _ | Agent.udp_destroy_socket _ => True | _ => False end.

Section interleaving.
Context {M : table -> Type} {HM : forall t, BpfMap (value t) (M t)} {HL : forall t, BpfMapLaws (value t) (M t)}.
Abbreviation shared := (forall t, M t).

Definition contents (s : shared) (t : table) : gmap Z (value t) := bm_contents (s t).

Definition written (t : table) (k : Z) (f : value t -> value t) (s s' : shared) : Prop :=
  (forall t', t' <> t -> contents s' t' = contents s t') /\
  match contents s t !! k with
  | Some v => contents s' t = <[k := f v]> (contents s t)
  | None => dom (contents s' t) = dom (contents s t)
  end.

(** What an operation can answer, do to the tables, and send.  The memory and the clock
    of the kernel, the inodes, the UDP sockets and the throttle of the log can answer
    anything.  A pointer that another program has deleted meanwhile is read and written
    with no effect that is known, except that no key enters or leaves the table. *)
Definition answers (o : op) : shared -> answer o -> shared -> messages -> Prop :=
  match o return shared -> answer o -> shared -> messages -> Prop with
  | Submit t m => fun s _ s' out => s' = s /\ out = [(t, m)]
  | Log _ _ _ _ _ _ => fun s _ s' out => s' = s /\ Forall is_log out
  | Lookup t k => fun s x s' out => s' = s /\ out = [] /\ x = bool_decide (is_Some (contents s t !! k))
  | Deref t k => fun s x s' out => s' = s /\ out = [] /\ forall v, contents s t !! k = Some v -> x = v
  | Write t k f => fun s _ s' out =>
      out = [] /\ written t k f s s'
  | Insert t k v => fun s x s' out =>
      out = [] /\ x = (bm_insert (s t) k v).2 /\ s' = set_tab t (bm_insert (s t) k v).1 s
  | Delete t k => fun s x s' out =>
      out = [] /\ x = (bm_delete (s t) k).2 /\ s' = set_tab t (bm_delete (s t) k).1 s
  | RemoveUdp _ => fun s _ s' out => s' = s /\ Forall is_udp out
  | _ => fun s _ s' out => s' = s /\ out = []
  end.

(** The programs that run, the tables, what was sent, and how many reads have failed. *)
Record config := mk_config { threads : list (prog unit); shared_tabs : shared; sent : messages; failures : Z }.

Inductive cstep (P : prog unit -> Prop) : config -> config -> Prop :=
  | cs_start m ts s out n : P m -> cstep P (mk_config ts s out n) (mk_config (ts ++ [m]) s out n)
  | cs_op ts1 o k ts2 s out n x s' new :
      answers o s x s' new ->
      cstep P (mk_config (ts1 ++ Do o k :: ts2) s out n)
              (mk_config (ts1 ++ k x :: ts2) s' (out ++ new) (n + if is_failed o x then 1 else 0)).

Definition finished (m : prog unit) : Prop := match m with Ret _ => True | Do _ _ => False end.

(** ** Tables whose entries are announced *)

Fixpoint count (f : Agent.agent_msg -> Z) (out : messages) : Z :=
  match out with [] => 0 | m :: out => f m.2 + count f out end.

Lemma count_app f out out' : count f (out ++ out') = count f out + count f out'.
Proof. induction out as [|m out IH]; cbn; lia. Qed.

Lemma count_silent f out : Forall (fun m => f m.2 = 0) out -> count f out = 0.
Proof. induction 1 as [|m out Hm _ IH]; cbn; lia. Qed.

(** A table, and the messages that announce that a key entered it or left it. *)
Record ledger := mk_ledger {
  l_table : table;
  l_opens : Z -> Agent.agent_msg -> Z;
  l_closes : Z -> Agent.agent_msg -> Z;
  l_silent : forall key m, is_log m \/ is_udp m -> l_opens key m.2 = 0 /\ l_closes key m.2 = 0;
}.

Definition tracked (L : ledger) (key : Z) (s : shared) : Z :=
  if decide (is_Some (contents s (l_table L) !! key)) then 1 else 0.

(** What an operation changes of the difference between the table and what was sent. *)
Definition weigh (L : ledger) (key : Z) (o : op) : answer o -> Z :=
  match o return answer o -> Z with
  | Submit _ m => fun _ => l_closes L key m - l_opens L key m
  | Insert t k _ => fun x => if decide (t = l_table L /\ k = key /\ x = 0) then 1 else 0
  | Delete t k => fun x => if decide (t = l_table L /\ k = key /\ x = 0) then -1 else 0
  | _ => fun _ => 0
  end.

Lemma contents_set t (m : M t) (s : shared) t' :
  contents (set_tab t m s) t' = match decide (t = t') with left e => eq_rect t (fun t => gmap Z (value t)) (bm_contents m) t' e | right _ => contents s t' end.
Proof. unfold contents, set_tab. destruct (decide (t = t')) as [<-|]; done. Qed.

Lemma tracked_other (L : ledger) key (s s' : shared) :
  contents s' (l_table L) = contents s (l_table L) -> tracked L key s' = tracked L key s.
Proof. intros Hc. unfold tracked. by rewrite Hc. Qed.

Lemma tracked_insert (L : ledger) key (s : shared) t k (v : value t) :
  tracked L key (set_tab t (bm_insert (s t) k v).1 s) = tracked L key s + weigh L key (Insert t k v) (bm_insert (s t) k v).2.
Proof.
  unfold tracked, weigh. rewrite contents_set. destruct (decide (t = l_table L)) as [->|Hne].
  2:{ rewrite (decide_False (P := t = l_table L /\ _)) by tauto. lia. }
  cbn [eq_rect]. destruct (bm_insert_spec (s (l_table L)) k v) as [(Hn & -> & ->)|[Hr ->]].
  - destruct (decide (k = key)) as [->|Hk].
    + rewrite lookup_insert_eq, decide_True by eauto. unfold contents. rewrite Hn, decide_False, decide_True by (done || by intros [? ?]). done.
    + rewrite lookup_insert_ne by done. rewrite (decide_False (P := _ = _ /\ _)) by tauto. unfold contents. lia.
  - rewrite (decide_False (P := _ = _ /\ _)) by tauto. unfold contents. lia.
Qed.

Lemma tracked_delete (L : ledger) key (s : shared) t k :
  tracked L key (set_tab t (bm_delete (s t) k).1 s) = tracked L key s + weigh L key (Delete t k) (bm_delete (s t) k).2.
Proof.
  unfold tracked, weigh. rewrite contents_set. destruct (decide (t = l_table L)) as [->|Hne].
  2:{ rewrite (decide_False (P := t = l_table L /\ _)) by tauto. lia. }
  cbn [eq_rect]. destruct (bm_delete_spec (s (l_table L)) k) as [(Hn & -> & ->)|(Hn & Hr & ->)].
  - destruct (decide (k = key)) as [->|Hk].
    + rewrite lookup_delete_eq. unfold contents. rewrite decide_False, !decide_True by (done || by intros [? ?]). done.
    + rewrite lookup_delete_ne by done. rewrite (decide_False (P := _ = _ /\ _)) by tauto. unfold contents. lia.
  - rewrite (decide_False (P := _ = _ /\ _)) by tauto. unfold contents. lia.
Qed.

Lemma tracked_written (L : ledger) key (s s' : shared) t k f : written t k f s s' -> tracked L key s' = tracked L key s.
Proof.
  intros [Ho Hw]. destruct (decide (l_table L = t)) as [<-|Hne]; [|by apply tracked_other, Ho].
  assert (Hd : dom (contents s' (l_table L)) = dom (contents s (l_table L))).
  { destruct (contents s (l_table L) !! k) eqn:Hk; [|done]. rewrite Hw. apply dom_insert_lookup_L. eauto. }
  assert (Hi : is_Some (contents s' (l_table L) !! key) <-> is_Some (contents s (l_table L) !! key))
    by (rewrite <- !elem_of_dom, Hd; done).
  unfold tracked. repeat case_decide; tauto.
Qed.

Lemma answers_weigh (L : ledger) key o (s s' : shared) x out :
  answers o s x s' out ->
  count (l_closes L key) out + tracked L key s' - count (l_opens L key) out = tracked L key s + weigh L key o x.
Proof.
  assert (Hsil : forall Q out, (forall m, Q m -> is_log m \/ is_udp m) -> Forall Q out ->
    count (l_opens L key) out = 0 /\ count (l_closes L key) out = 0).
  { intros Q out' HQ Hf. split; apply count_silent; (eapply Forall_impl; [exact Hf|]); intros m Hm; by apply l_silent, HQ. }
  destruct o; cbn [answers answer] in *.
  - intros [-> ->]. cbn. lia.
  - intros [-> ->]. cbn. lia.
  - intros [-> Hf]. destruct (Hsil is_log out) as [-> ->]; [tauto|done|]. cbn. lia.
  - intros [-> ->]. cbn. lia.
  - intros [-> ->]. cbn. lia.
  - intros (-> & -> & _). cbn. lia.
  - intros (-> & -> & _). cbn. lia.
  - intros (-> & Hw). rewrite (tracked_written L key _ _ _ _ _ Hw). cbn. lia.
  - intros (-> & -> & ->). rewrite tracked_insert. cbn [count]. lia.
  - intros (-> & -> & ->). rewrite tracked_delete. cbn [count]. lia.
  - intros [-> ->]. cbn. lia.
  - intros [-> ->]. cbn. lia.
  - intros [-> ->]. cbn. lia.
  - intros [-> Hf]. destruct (Hsil is_udp out) as [-> ->]; [tauto|done|]. cbn. lia.
Qed.

(** ** Debts

    A program that has changed the table and not yet said so owes messages.
    [settles m d Q]: started with the debt [d], whatever is answered, [m] ends with a
    result and a debt that satisfy [Q].  A failed read may cost one announcement. *)
Section debts.
Context (w : forall o, answer o -> Z).

Fixpoint settles {A} (m : prog A) (d : Z) (Q : A -> Z -> Prop) : Prop :=
  match m with
  | Ret a => Q a d
  | Do o k => forall x, settles (k x) (d + w o x) Q \/ (is_failed o x = true /\ settles (k x) (d + w o x - 1) Q)
  end.

Lemma settles_mono {A} (m : prog A) d (Q Q' : A -> Z -> Prop) :
  (forall a d, Q a d -> Q' a d) -> settles m d Q -> settles m d Q'.
Proof.
  intros HQ. revert d. induction m as [a|o k IH]; intros d; cbn; [apply HQ|]. intros Hs x.
  destruct (Hs x) as [H|[Hf H]]; [left|right]; eauto.
Qed.

Lemma settles_bind {A B} (m : prog A) (f : A -> prog B) d Q :
  settles m d (fun a d' => settles (f a) d' Q) -> settles (bind m f) d Q.
Proof.
  revert d. induction m as [a|o k IH]; intros d; cbn; [done|]. intros Hs x.
  destruct (Hs x) as [H|[Hf H]]; [left|right]; eauto.
Qed.

(** [changes m c]: [m] changes the debt by [c] of its result. *)
Definition changes {A} (m : prog A) (c : A -> Z) : Prop := forall d, settles m d (fun a d' => d' = d + c a).

Lemma changes_ret {A} (a : A) (c : A -> Z) : c a = 0 -> changes (Ret a) c.
Proof. intros Hc d. cbn. lia. Qed.

Lemma changes_act o (c : answer o -> Z) : (forall x, c x = w o x) -> changes (act o) c.
Proof. intros Hc d x. left. cbn. by rewrite Hc. Qed.

Lemma changes_bind {A B} (m : prog A) (f : A -> prog B) (c : A -> Z) (e : B -> Z) :
  changes m c -> (forall a, changes (f a) (fun b => e b - c a)) -> changes (bind m f) e.
Proof.
  intros Hm Hf d. apply settles_bind. eapply settles_mono; [|apply (Hm d)]. intros a d' ->.
  eapply settles_mono; [|apply (Hf a)]. intros b d' ->. lia.
Qed.

Lemma changes_ext {A} (m : prog A) (c c' : A -> Z) : (forall a, c a = c' a) -> changes m c -> changes m c'.
Proof. intros Hc Hm d. eapply settles_mono; [|apply (Hm d)]. intros a d' ->. by rewrite Hc. Qed.

(** The debt stays as it is. *)
Definition keeps {A} (m : prog A) : Prop := changes m (fun _ => 0).

Lemma keeps_ret {A} (a : A) : keeps (Ret a).
Proof. by apply changes_ret. Qed.

Lemma keeps_act o : (forall x, w o x = 0) -> keeps (act o).
Proof. intros Hw. apply changes_act. intros x. by rewrite Hw. Qed.

Lemma changes_then {A B} (m : prog A) (f : A -> prog B) (e : B -> Z) :
  keeps m -> (forall a, changes (f a) e) -> changes (bind m f) e.
Proof. intros Hm Hf. eapply changes_bind; [exact Hm|]. intros a. eapply changes_ext; [|apply Hf]. intros b. cbn. lia. Qed.

Lemma keeps_bind {A B} (m : prog A) (f : A -> prog B) : keeps m -> (forall a, keeps (f a)) -> keeps (bind m f).
Proof. apply changes_then. Qed.
End debts.

Definition settled (L : ledger) (key : Z) (m : prog unit) (d : Z) : Prop := settles (weigh L key) m d (fun _ d => d = 0).

Definition balance (L : ledger) (key : Z) (c : config) : Z :=
  count (l_closes L key) (sent c) + tracked L key (shared_tabs c) - count (l_opens L key) (sent c).

Fixpoint sum (ds : list Z) : Z := match ds with [] => 0 | d :: ds => d + sum ds end.

Lemma sum_app ds ds' : sum (ds ++ ds') = sum ds + sum ds'.
Proof. induction ds as [|d ds IH]; cbn; lia. Qed.

(** The difference is what the running programs owe and what failed reads have cost. *)
Definition accounted (L : ledger) (key : Z) (c : config) : Prop :=
  exists ds lost, Forall2 (settled L key) (threads c) ds /\ 0 <= lost <= failures c /\ balance L key c = sum ds + lost.

Lemma cstep_accounted (P : prog unit -> Prop) (L : ledger) key c c' :
  (forall m, P m -> settled L key m 0) -> cstep P c c' -> accounted L key c -> accounted L key c'.
Proof.
  intros HP Hs (ds & lost & Hds & Hl & Hb). destruct Hs as [m ts s out n Hm|ts1 o k ts2 s out n x s' new Ha]; cbn in *.
  { exists (ds ++ [0]), lost. split; [|split; [done|]].
    - apply Forall2_app; [done|]. by repeat constructor; apply HP.
    - rewrite sum_app. cbn in *. unfold balance in *. cbn in *. lia. }
  apply Forall2_app_inv_l in Hds as (ds1 & ds2' & Hds1 & Hds2 & ->).
  apply Forall2_cons_inv_l in Hds2 as (d & ds2 & Hd & Hds2 & ->).
  pose proof (answers_weigh L key o s s' x new Ha) as Hw. unfold accounted, balance in *. cbn [sent shared_tabs threads failures] in *.
  rewrite !count_app. rewrite sum_app in Hb. cbn [sum] in Hb. destruct (Hd x) as [Hok|[Hf Hok]].
  - exists (ds1 ++ d + weigh L key o x :: ds2), lost. split; [by apply Forall2_app; [|constructor]|].
    split; [destruct (is_failed o x); lia|]. rewrite sum_app. cbn [sum]. lia.
  - exists (ds1 ++ d + weigh L key o x - 1 :: ds2), (lost + 1). split; [by apply Forall2_app; [|constructor]|].
    rewrite Hf. split; [lia|]. rewrite sum_app. cbn [sum]. lia.
Qed.

Lemma finished_sum (L : ledger) key ts ds : Forall2 (settled L key) ts ds -> Forall finished ts -> sum ds = 0.
Proof.
  induction 1 as [|m d ts ds Hm _ IH]; intros Hf; [done|]. apply Forall_cons in Hf as [Hm' Hf]. cbn [sum].
  rewrite (IH Hf). destruct m; [|done]. cbn in Hm. unfold settled in Hm. cbn in Hm. lia.
Qed.

(** Whatever the programs and their interleaving: if each settles its debts, then once
    all have ended, a key is in the table if and only if it was announced as open once
    more than as closed, up to announcements that failed reads have cost. *)
Lemma ledger_balanced (P : prog unit -> Prop) (L : ledger) key (s : shared) c :
  (forall m, P m -> settled L key m 0) -> contents s (l_table L) !! key = None ->
  rtc (cstep P) (mk_config [] s [] 0) c -> Forall finished (threads c) ->
  0 <= count (l_closes L key) (sent c) + tracked L key (shared_tabs c) - count (l_opens L key) (sent c) <= failures c.
Proof.
  intros HP Hno Hr Hf. assert (Ha : accounted L key c).
  { assert (H0 : accounted L key (mk_config [] s [] 0)).
    { exists [], 0. split; [constructor|]. split; [done|]. unfold balance, tracked. cbn. rewrite Hno.
      rewrite decide_False by (by intros [? ?]). done. }
    induction Hr; [done|]. eauto using cstep_accounted. }
  destruct Ha as (ds & lost & Hds & Hl & Hb). rewrite (finished_sum L key _ _ Hds Hf) in Hb. unfold balance in Hb. lia.
Qed.
End interleaving.
Arguments config M : clear implicits.

(** ** Programs that keep the debt *)

Section settling.
Context (L : ledger) (key : Z).
#[local] Abbreviation w := (weigh L key).

Lemma read_or_changes {A} line ctx a f (other : A) (k : Z -> prog A) (c : A -> Z) :
  (forall v, changes w (k v) c) -> c other = 0 \/ c other = -1 -> changes w (read_or line ctx a f other k) c.
Proof.
  intros Hk Ho d x. destruct x as [v|err].
  - left. rewrite Z.add_0_r. apply (Hk v).
  - destruct Ho as [Ho|Ho]; [left|right; split; [done|]]; cbn; intros []; left; lia.
Qed.

Lemma read_or_keeps {A} line ctx a f (other : A) (k : Z -> prog A) :
  (forall v, keeps w (k v)) -> keeps w (read_or line ctx a f other k).
Proof. intros Hk. apply read_or_changes; [exact Hk|by left]. Qed.

Lemma log_keeps line ctx code a0 a1 a2 : keeps w (bpf_log line ctx code a0 a1 a2).
Proof. by apply keeps_act. Qed.
Lemma now_keeps : keeps w get_timestamp.
Proof. by apply keeps_act. Qed.
Lemma field_keeps a f : keeps w (field a f).
Proof. apply keeps_bind; [by apply keeps_act|]. intros. apply keeps_ret. Qed.
Lemma address_keeps a f : keeps w (address a f).
Proof. apply keeps_bind; [by apply keeps_act|]. intros. apply keeps_ret. Qed.
Lemma lookup_keeps t k : keeps w (act (Lookup t k)).
Proof. by apply keeps_act. Qed.
Lemma pid_keeps line ctx : keeps w (GET_PID_TGID line ctx).
Proof. unfold GET_PID_TGID. destruct (no_process ctx); [apply log_keeps|apply keeps_ret]. Qed.
Lemma deref_keeps t k : keeps w (act (Deref t k)).
Proof. by apply keeps_act. Qed.
Lemma submit_keeps t m : l_opens L key m = 0 -> l_closes L key m = 0 -> keeps w (submit t m).
Proof. intros Ho Hc. apply keeps_act. intros x. cbn. lia. Qed.
Lemma args_keep t ctx v : t <> l_table L -> keeps w (SAVE_ARGS t ctx v).
Proof. intros Ht. apply keeps_bind; [|intros; apply keeps_ret]. apply keeps_act. intros x. cbn. rewrite decide_False; [done|tauto]. Qed.
Lemma delete_args_keep t ctx : t <> l_table L -> keeps w (DELETE_ARGS t ctx).
Proof. intros Ht. apply keeps_bind; [|intros; apply keeps_ret]. apply keeps_act. intros x. cbn. rewrite decide_False; [done|tauto]. Qed.

Lemma insert_keeps t k v : t <> l_table L -> keeps w (act (Insert t k v)).
Proof. intros Ht. apply keeps_act. intros x. cbn. rewrite decide_False; [done|tauto]. Qed.
Lemma delete_keeps t k : t <> l_table L -> keeps w (act (Delete t k)).
Proof. intros Ht. apply keeps_act. intros x. cbn. rewrite decide_False; [done|tauto]. Qed.

(** The operations that change the table. *)
Lemma insert_changes k (v : value (l_table L)) :
  changes w (act (Insert (l_table L) k v)) (fun r => if decide (k = key /\ r = 0) then 1 else 0).
Proof. apply changes_act. intros x. cbn. repeat case_decide; tauto. Qed.
Lemma delete_changes k : changes w (act (Delete (l_table L) k)) (fun r => if decide (k = key /\ r = 0) then -1 else 0).
Proof. apply changes_act. intros x. cbn. repeat case_decide; tauto. Qed.
End settling.

Create HintDb keeps discriminated.
#[export] Hint Resolve log_keeps now_keeps field_keeps address_keeps lookup_keeps pid_keeps deref_keeps keeps_ret : keeps.
#[export] Hint Extern 1 (keeps _ (submit _ _)) => apply submit_keeps; reflexivity : keeps.
#[export] Hint Extern 1 (keeps _ (act (Insert _ _ _))) => by apply insert_keeps : keeps.
#[export] Hint Extern 1 (keeps _ (act (Delete _ _))) => by apply delete_keeps : keeps.
#[export] Hint Extern 2 (keeps _ (act _)) => apply keeps_act; reflexivity : keeps.
#[export] Hint Extern 1 (keeps _ (SAVE_ARGS _ _ _)) => by apply args_keep : keeps.
#[export] Hint Extern 1 (keeps _ (DELETE_ARGS _ _)) => by apply delete_args_keep : keeps.

(** Through the structure of a program that does not touch the table. *)
Ltac keeping :=
  repeat first
    [ solve [auto with keeps]
    | match goal with
      | |- keeps _ (read_or _ _ _ _ _ _) => apply read_or_keeps; intros ?
      | |- keeps _ (bind _ _) => apply keeps_bind; [|intros ?]
      | |- keeps _ (if ?b then _ else _) => destruct b
      | |- keeps _ (match ?x with _ => _ end) => destruct x
      end ].


(** * The two semantics agree *)

(** Reads of this memory succeed. *)
Definition readable (mem : memory) : Prop :=
  (forall a f, exists v, word_at mem a f = Got v) /\ forall a f, exists v, array_at mem a f = Got v.

Section agree.
Context {MS MP : Type} {M : table -> Type}.
Context `{BpfMap ProbeUdp.udp_open_socket_t MS} `{BpfMap Z MP}.
Context {HM : forall t, BpfMap (value t) (M t)} {HL : forall t, BpfMapLaws (value t) (M t)}.
Context (clock : nat -> Z) (boot : Z) (fileline : Z -> Z).
#[local] Abbreviation state := (State MS MP M).
#[local] Abbreviation exec_op := (exec_op (MS := MS) (MP := MP) (M := M) clock boot fileline).
#[local] Abbreviation interleave := (interleave (MS := MS) (MP := MP) (M := M) clock boot fileline).

Lemma log_is_log line ctx code a0 a1 a2 (b : ProbeUdp.Probe MS MP) :
  Forall is_log (ProbeUdp.bpf_log clock boot fileline line ctx code a0 a1 a2 b).2.
Proof.
  unfold ProbeUdp.bpf_log, ProbeUdp.bind, ProbeUdp.get_timestamp, ProbeUdp.here, ProbeUdp.set_globals, ProbeUdp.ret,
    ProbeUdp.submit. cbn [fst snd]. destruct (_ || _); [constructor|]. destruct (default _ _) as [start n].
  destruct (if _ <=? _ then _ else _) as [start' n']. destruct (_ =? _); [by repeat constructor|].
  destruct (_ <=? _); by repeat constructor.
Qed.

Lemma remove_is_udp sk s (b : ProbeUdp.Probe MS MP) :
  Forall is_udp (ProbeUdp.remove_udp_open_socket clock boot sk s b).2.
Proof.
  unfold ProbeUdp.remove_udp_open_socket, ProbeUdp.bind, ProbeUdp.here. cbn [fst snd].
  destruct (bm_lookup _ _); [|constructor]. destruct (bm_delete _ _) as [m r]. unfold ProbeUdp.set_sockets. cbn [fst snd].
  destruct (negb _); [constructor|].
  unfold ProbeUdp.get_timestamp, ProbeUdp.udp_send_stats_if_nonempty, ProbeUdp.submit, ProbeUdp.ret. cbn [fst snd].
  destruct (_ && _ && _), (_ && _ && _); by repeat constructor.
Qed.

(** An operation that is run gives one of the answers of the interleaving. *)
Lemma exec_op_answers mem o (s : state) :
  let r := exec_op mem o s in answers o (tabs s) r.1.1 (tabs r.1.2) r.2.
Proof.
  destruct o; cbn; try done.
  - unfold on_base. pose proof (log_is_log line ctx code arg0 arg1 arg2 (base s)) as Hl. destruct (ProbeUdp.bpf_log _ _ _ _ _ _ _ _ _ _) as [[a b] out].
    done.
  - split; [done|]. split; [done|]. unfold contents. rewrite <- bm_lookup_spec. by destruct (bm_lookup _ _).
  - split; [done|]. split; [done|]. intros v. unfold contents. rewrite <- bm_lookup_spec. by intros ->.
  - split; [done|]. unfold written, contents. rewrite bm_lookup_spec. destruct (bm_contents (tabs s t) !! k) as [v|] eqn:Hk; [|done].
    cbn. split; [|by rewrite set_tab_eq, bm_store_spec by eauto]. intros t' Hne. by rewrite set_tab_ne by done.
  - by destruct (bm_insert _ _ _).
  - by destruct (bm_delete _ _).
  - unfold on_base. pose proof (remove_is_udp sk (udp_sock mem sk) (base s)) as Hl.
    destruct (ProbeUdp.remove_udp_open_socket _ _ _ _ _) as [[a b] out]. done.
Qed.

Lemma exec_op_succeeds mem o (s : state) : readable mem -> is_failed o (exec_op mem o s).1.1 = false.
Proof.
  intros [Hw Ha]. destruct o; cbn; try done.
  - by destruct (Hw a f) as [v ->].
  - by destruct (Ha a f) as [v ->].
Qed.

(** What is computed with [interleave] can happen. *)
Lemma interleave_reachable (P : prog unit -> Prop) mem (picks : list nat) ts (s : state) out n :
  readable mem ->
  let r := interleave mem ts s picks in
  rtc (cstep P) (mk_config ts (tabs s) out n) (mk_config r.1.1 (tabs r.1.2) (out ++ r.2) n).
Proof.
  intros Hmem. revert ts s out. induction picks as [|i picks IH]; intros ts s out; cbn [Probes.interleave].
  { cbn. by rewrite app_nil_r. }
  destruct (ts !! i) as [[u|o k]|] eqn:Hi; [apply IH| |apply IH].
  pose proof (exec_op_answers mem o s) as Ha. pose proof (exec_op_succeeds mem o s Hmem) as Hf. cbv zeta in Ha.
  destruct (exec_op mem o s) as [[x s1] o1] eqn:E. cbn [fst snd] in *.
  specialize (IH (<[i := k x]> ts) s1 (out ++ o1)). cbv zeta in IH.
  destruct (interleave mem (<[i := k x]> ts) s1 picks) as [[ts2 s2] o2]. cbn [fst snd] in *.
  rewrite <- app_assoc in IH. eapply rtc_l; [|exact IH].
  rewrite <- (take_drop_middle ts i _ Hi) at 1. rewrite insert_take_drop by (by eapply lookup_lt_Some).
  pose proof (cs_op P (take i ts) o k (drop (S i) ts) (tabs s) out n x (tabs s1) o1 Ha) as Hstep.
  by rewrite Hf, Z.add_0_r in Hstep.
Qed.

(** A run to the end is the interleaving in which no other program moves. *)
Lemma exec_reachable (P : prog unit -> Prop) mem (m : prog unit) ts1 ts2 (s : state) out n :
  let r := exec clock boot fileline mem m s in
  exists n', rtc (cstep P) (mk_config (ts1 ++ m :: ts2) (tabs s) out n)
                           (mk_config (ts1 ++ Ret r.1.1 :: ts2) (tabs r.1.2) (out ++ r.2) n').
Proof.
  revert s out n. induction m as [u|o k IH]; intros s out n; cbn [exec].
  { exists n. cbn. by rewrite app_nil_r. }
  pose proof (exec_op_answers mem o s) as Ha. cbv zeta in Ha. destruct (exec_op mem o s) as [[x s1] o1]. cbn [fst snd] in Ha.
  specialize (IH x s1 (out ++ o1) (n + if is_failed o x then 1 else 0)). cbv zeta in IH.
  destruct (exec clock boot fileline mem (k x) s1) as [[a s2] o2]. cbn [fst snd] in *. destruct IH as [n' IH].
  exists n'. rewrite <- app_assoc in IH. eapply rtc_l; [|exact IH]. by apply cs_op.
Qed.

Lemma start_reachable (P : prog unit -> Prop) ts ts' (s : forall t, M t) out n :
  Forall P ts' -> rtc (cstep P) (mk_config ts s out n) (mk_config (ts ++ ts') s out n).
Proof.
  intros Hf. revert ts. induction Hf as [|m ts' Hm _ IH]; intros ts; [by rewrite app_nil_r|].
  eapply rtc_l; [by apply (cs_start P m)|]. specialize (IH (ts ++ [m])). by rewrite <- app_assoc in IH.
Qed.

(** ** Runs to the end, specified *)

Definition yields {A} (mem : memory) (m : prog A) (s : state) (Φ : A -> state -> messages -> Prop) : Prop :=
  let r := exec clock boot fileline mem m s in Φ r.1.1 r.1.2 r.2.

Lemma prog_yields_bind {A B} mem (m : prog A) (f : A -> prog B) (s : state) (Φ : B -> state -> messages -> Prop) :
  yields mem m s (fun a s1 o1 => yields mem (f a) s1 (fun b s2 o2 => Φ b s2 (o1 ++ o2))) -> yields mem (bind m f) s Φ.
Proof.
  revert s Φ. induction m as [a|o k IH]; intros s Φ; unfold yields; cbn; [done|].
  destruct (exec_op mem o s) as [[x s1] o1]. intros Hy.
  specialize (IH x s1 (fun b s2 o2 => Φ b s2 (o1 ++ o2))). unfold yields in IH.
  destruct (exec clock boot fileline mem (bind (k x) f) s1) as [[b s3] o3]. cbn in *. apply IH.
  destruct (exec clock boot fileline mem (k x) s1) as [[a s2] o2]. cbn in *. destruct (exec clock boot fileline mem (f a) s2) as [[b' s4] o4]. cbn in *.
  by rewrite app_assoc.
Qed.

Lemma prog_yields_mono {A} mem (m : prog A) (s : state) (Φ Ψ : A -> state -> messages -> Prop) :
  yields mem m s Φ -> (forall a s' out, Φ a s' out -> Ψ a s' out) -> yields mem m s Ψ.
Proof. unfold yields. auto. Qed.

Lemma yields_act mem o (s : state) (Φ : answer o -> state -> messages -> Prop) :
  (forall x s' out, answers o (tabs s) x (tabs s') out -> Φ x s' out) -> yields mem (act o) s Φ.
Proof.
  intros Ho. unfold yields, act. cbn. pose proof (exec_op_answers mem o s) as Ha. cbv zeta in Ha.
  destruct (exec_op mem o s) as [[x s1] o1]. cbn in *. rewrite app_nil_r. by apply Ho.
Qed.

Lemma yields_read_or {A} mem line ctx a f (other : A) (k : Z -> prog A) v (s : state) (Φ : A -> state -> messages -> Prop) :
  word_at mem a f = Got v -> yields mem (k v) s Φ -> yields mem (read_or line ctx a f other k) s Φ.
Proof. intros Hv. unfold yields. cbn. rewrite Hv. cbn. by destruct (exec clock boot fileline mem (k v) s) as [[b s2] o2]. Qed.

Lemma yields_field {B} mem a f (k : Z -> prog B) v (s : state) (Φ : B -> state -> messages -> Prop) :
  word_at mem a f = Got v -> yields mem (k v) s Φ -> yields mem (bind (field a f) k) s Φ.
Proof. intros Hv. unfold yields. cbn. rewrite Hv. cbn. by destruct (exec clock boot fileline mem (k v) s) as [[b s2] o2]. Qed.
End agree.
End Probes.
