(* ===== verification/ProbeTcp.v ===== *)
(** The probes of TCP sockets: the TCP parts of collector/kernel/bpf_src/render_bpf.c
    and the end of life of all sockets, as programs of [Probes].

    The configuration is that of render_bpf.h: the work-arounds for the lifetime of
    sockets and the statistics on the parent socket are on, the debugging switches are
    off.  The version of the kernel, which selects fields, is an argument.

    Theorems: the timeout of a SYN-ACK is never reported on recent kernels; the lemmas on
    what each probe owes the collector are used in [AllProbes]. *)
From S2P Require Import Prelude IpAddress PollerBase PollerTcp PollerUdp Agent ProbeUdp Probes.

Module ProbeTcp.
Import Probes.
Open Scope prog_scope.

Definition TCP_ESTABLISHED : Z := 1.
Definition TCP_SYN_SENT : Z := 2.
Definition TCP_SYN_RECV : Z := 3.
Definition TCP_LISTEN : Z := 10.
Definition TCPF_SYN_SENT : Z := Z.shiftl 1 TCP_SYN_SENT.
Definition TCPF_SYN_RECV : Z := Z.shiftl 1 TCP_SYN_RECV.
Definition BPF_LOG_UNEXPECTED_TYPE : Z := 7.
Definition BPF_TABLE_TCP_OPEN_SOCKETS : Z := 2.
Definition TCP_LIFETIME_HACK_CODE : Z := 1.

Section probes.
Context (LINUX_VERSION_CODE FILTER_NS : Z) (REPORT_DEBUG_EVENTS : bool).

(** * Reports *)

Definition packets_in_flight_helper (sk : Z) : prog Z :=
  do* packets_out := field sk Field.packets_out in
  do* sacked_out := field sk Field.sacked_out in
  do* lost_out := field sk Field.lost_out in
  do* retrans_out := field sk Field.retrans_out in
  Ret (u32 (packets_out - (sacked_out + lost_out) + retrans_out)).

Definition tcp_get_delivered (sk : Z) : prog Z :=
  if LINUX_VERSION_CODE <? KERNEL_VERSION 4 6 0 then
    do* packets_out := field sk Field.packets_out in
    do* sacked_out := field sk Field.sacked_out in
    Ret (u32 (packets_out - sacked_out))
  else field sk Field.delivered.

(** A pointer to the information on a socket: an entry of the map, or a copy. *)
Inductive pointer := Entry (sk : Z) | Copy (info : tcp_open_socket_t).

Definition deref (p : pointer) : prog tcp_open_socket_t :=
  match p with Entry sk => act (Deref tcp_open_sockets sk) | Copy info => Ret info end.

Definition set_last_output (now : Z) (i : tcp_open_socket_t) : tcp_open_socket_t :=
  mk_open (tgid i) (rcv_holes i) now (bytes_received i) (rcv_delivered i) (parent i).
Definition set_rcv_holes (n : Z) (i : tcp_open_socket_t) : tcp_open_socket_t :=
  mk_open (tgid i) n (last_output i) (bytes_received i) (rcv_delivered i) (parent i).
Definition set_rcv_delivered (n : Z) (i : tcp_open_socket_t) : tcp_open_socket_t :=
  mk_open (tgid i) (rcv_holes i) (last_output i) (bytes_received i) n (parent i).
Definition set_bytes_received (n : Z) (i : tcp_open_socket_t) : tcp_open_socket_t :=
  mk_open (tgid i) (rcv_holes i) (last_output i) n (rcv_delivered i) (parent i).

(** The pointer after the write. *)
Definition write (p : pointer) (f : tcp_open_socket_t -> tcp_open_socket_t) : prog pointer :=
  match p with
  | Entry sk => do* _ := act (Write tcp_open_sockets sk f) in Ret p
  | Copy info => Ret (Copy (f info))
  end.

(** The last two bits are cleared in the report at the end of a connection. *)
Definition adjusted (adjust : bool) (n : Z) : Z := if adjust then Z.land n (2 ^ 64 - 4) else n.

Definition report_rtt_estimator (ctx : context) (sk : Z) (sk_info : pointer) (now : Z) (adjust : bool) : prog unit :=
  do* sk_info := write sk_info (set_last_output now) in
  do* rcv_rtt_us :=
    field sk (if LINUX_VERSION_CODE <? KERNEL_VERSION 4 12 0 then Field.rcv_rtt_est_rtt else Field.rcv_rtt_est_rtt_us) in
  read_or 561 ctx sk Field.srtt_us tt (fun srtt =>
  read_or 567 ctx sk Field.snd_cwnd tt (fun snd_cwnd =>
  read_or 573 ctx sk Field.bytes_acked tt (fun bytes_acked =>
  read_or 579 ctx sk Field.icsk_ca_state tt (fun ca_state =>
  read_or 585 ctx sk Field.total_retrans tt (fun packets_retrans =>
  read_or 591 ctx sk Field.bytes_received tt (fun received =>
    do* in_flight := packets_in_flight_helper sk in
    do* delivered := tcp_get_delivered sk in
    do* info := deref sk_info in
    submit now (Agent.rtt_estimator
      (PollerTcp.mk_rtt sk
        (PollerTcp.mk_entry (adjusted adjust bytes_acked) delivered packets_retrans (adjusted adjust received)
          (rcv_holes info) (rcv_delivered info)) srtt rcv_rtt_us)
      snd_cwnd ca_state in_flight))))))).

(** * The life of a socket *)

Definition add_tcp_open_socket (ctx : context) (sk tgid parent : Z) : prog Z :=
  read_or 650 ctx sk Field.bytes_received (-1) (fun received =>
    do* r := act (Insert tcp_open_sockets sk (mk_open tgid 0 0 received 0 parent)) in
    if is_full r then
      do* _ := bpf_log 660 ctx ProbeUdp.BPF_LOG_TABLE_FULL BPF_TABLE_TCP_OPEN_SOCKETS tgid sk in Ret (-1)
    else if r =? - EEXIST then Ret 0
    else if negb (r =? 0) then
      do* _ := bpf_log 668 ctx ProbeUdp.BPF_LOG_TABLE_BAD_INSERT BPF_TABLE_TCP_OPEN_SOCKETS tgid (ProbeUdp.abs_val r) in
      Ret (-1)
    else Ret 1).

(** The entry is copied before it is deleted, and only the program whose deletion
    succeeds sends what is left to send. *)
Definition remove_tcp_open_socket (ctx : context) (sk : Z) : prog unit :=
  do* found := act (Lookup tcp_open_sockets sk) in
  if negb found then Ret tt
  else
    do* sk_info := act (Deref tcp_open_sockets sk) in
    do* r := act (Delete tcp_open_sockets sk) in
    if negb (r =? 0) then Ret tt
    else
      do* now := get_timestamp in
      do* _ := report_rtt_estimator ctx sk (Copy sk_info) now true in
      submit now (Agent.close_sock_info sk).

(** The state with the ports and addresses of a socket. *)
Definition send_state_ipv6 (now tx_rx sk : Z) : prog unit :=
  do* dport := field sk Field.sk_dport in
  do* sport := field sk Field.sk_num in
  do* daddr := address sk Field.sk_v6_daddr in
  do* saddr := address sk Field.sk_v6_rcv_saddr in
  submit now (Agent.set_state_ipv6 daddr saddr (htons dport) sport sk tx_rx).

Definition send_state_ipv4 (now tx_rx sk : Z) : prog unit :=
  do* dport := field sk Field.sk_dport in
  do* sport := field sk Field.sk_num in
  do* daddr := field sk Field.sk_daddr in
  do* saddr := field sk Field.sk_rcv_saddr in
  submit now (Agent.set_state_ipv4 daddr saddr (htons dport) sport sk tx_rx).

Definition submit_set_state_ipv6 (ctx : context) (now tx_rx sk : Z) : prog unit :=
  if sk =? 0 then bpf_log 710 ctx BPF_LOG_INVALID_POINTER 0 0 0 else send_state_ipv6 now tx_rx sk.

Definition submit_set_state_ipv4 (ctx : context) (now tx_rx sk : Z) : prog unit :=
  if sk =? 0 then bpf_log 731 ctx BPF_LOG_INVALID_POINTER 0 0 0 else send_state_ipv4 now tx_rx sk.

Definition submit_reset_tcp_counters (ctx : context) (now pid sk : Z) : prog unit :=
  read_or 752 ctx sk Field.bytes_acked tt (fun bytes_acked =>
  read_or 758 ctx sk Field.total_retrans tt (fun packets_retrans =>
  read_or 764 ctx sk Field.bytes_received tt (fun received =>
    do* delivered := tcp_get_delivered sk in
    submit now (Agent.reset_tcp_counters (PollerTcp.mk_reset sk pid bytes_acked delivered packets_retrans received))))).

(** Each mention of [sk->sk_family] is a read of its own. *)
Definition is_inet (sk : Z) : prog bool :=
  do* family := field sk Field.sk_family in
  if family =? ProbeUdp.AF_INET then Ret true
  else do* family := field sk Field.sk_family in Ret (family =? ProbeUdp.AF_INET6).

Definition ensure_tcp_existing (ctx : context) (sk pid : Z) : prog Z :=
  do* inet := is_inet sk in
  if negb inet then Ret (-1)
  else
    do* now := get_timestamp in
    do* state := field sk Field.sk_state in
    let tx_rx := if state =? TCP_LISTEN then 2 else 0 in
    do* r := add_tcp_open_socket ctx sk pid 0 in
    if r =? 1 then
      do* _ := submit_reset_tcp_counters ctx now pid sk in
      do* family := field sk Field.sk_family in
      do* _ :=
        if family =? ProbeUdp.AF_INET6 then submit_set_state_ipv6 ctx now tx_rx sk
        else submit_set_state_ipv4 ctx now tx_rx sk in
      Ret r
    else Ret r.

Definition tcp_existing_hack (ctx : context) (sk : Z) : prog bool :=
  if no_process ctx then Ret false
  else
    do* _ := ensure_tcp_existing ctx sk (tgid_of ctx) in
    act (Lookup tcp_open_sockets sk).

(** The socket is in the table, or is put there: the beginning of the probes that need
    it.  The result says whether it is. *)
Definition tcp_found (ctx : context) (sk : Z) : prog bool :=
  do* found := act (Lookup tcp_open_sockets sk) in
  if found then Ret true else tcp_existing_hack ctx sk.

Definition submit_state (line : Z) (ctx : context) (family now tx_rx sk : Z) : prog unit :=
  if family =? ProbeUdp.AF_INET then submit_set_state_ipv4 ctx now tx_rx sk
  else if family =? ProbeUdp.AF_INET6 then submit_set_state_ipv6 ctx now tx_rx sk
  else bpf_log line ctx ProbeUdp.BPF_LOG_UNREACHABLE 0 0 0.

Definition on_tcp_connect (ctx : context) (sk : Z) : prog unit :=
  do* found := tcp_found ctx sk in
  if negb found then Ret tt
  else
    do* now := get_timestamp in
    do* family := field sk Field.sk_family in
    submit_state 888 ctx family now 1 sk.

Definition on_inet_csk_listen_start (ctx : context) (sk : Z) : prog unit :=
  do* family := field sk Field.sk_family in
  if negb (family =? ProbeUdp.AF_INET) && negb (family =? ProbeUdp.AF_INET6) then Ret tt
  else
    do* found := tcp_found ctx sk in
    if negb found then Ret tt
    else
      do* now := get_timestamp in
      submit_state 929 ctx family now 2 sk.

Definition tcp_lifetime_hack (ctx : context) (sk : Z) : prog unit :=
  do* found := act (Lookup tcp_open_sockets sk) in
  if negb found then Ret tt
  else
    do* _ :=
      if REPORT_DEBUG_EVENTS then
        do* now := get_timestamp in submit now (Agent.report_debug_event TCP_LIFETIME_HACK_CODE sk 0 0 0)
      else Ret tt in
    remove_tcp_open_socket ctx sk.

Definition on_tcp_init_sock (ctx : context) (sk : Z) : prog unit :=
  do* _ := GET_PID_TGID 960 ctx in
  do* now := get_timestamp in
  do* _ := tcp_lifetime_hack ctx sk in
  do* r := add_tcp_open_socket ctx sk (tgid_of ctx) 0 in
  if r =? 1 then submit now (Agent.new_sock_created (tgid_of ctx) sk)
  else if r =? 0 then bpf_log 977 ctx BPF_LOG_TABLE_DUPLICATE_INSERT BPF_TABLE_TCP_OPEN_SOCKETS (tgid_of ctx) sk
  else bpf_log 982 ctx ProbeUdp.BPF_LOG_TABLE_BAD_INSERT BPF_TABLE_TCP_OPEN_SOCKETS (tgid_of ctx) (ProbeUdp.abs_val r).

Definition on_inet_csk_accept (ctx : context) (sk flags err : Z) : prog unit :=
  do* _ := GET_PID_TGID 1006 ctx in
  do* found := tcp_found ctx sk in
  if negb found then Ret tt else SAVE_ARGS on_inet_csk_accept_active ctx (mk_accept sk flags err).

Definition onret_inet_csk_accept (ctx : context) (newsk : Z) : prog unit :=
  do* _ := GET_PID_TGID 1034 ctx in
  if newsk =? 0 then DELETE_ARGS on_inet_csk_accept_active ctx
  else
    do* family := field newsk Field.sk_family in
    if negb (family =? ProbeUdp.AF_INET) && negb (family =? ProbeUdp.AF_INET6) then
      do* _ := bpf_log 1054 ctx BPF_LOG_UNEXPECTED_TYPE newsk family 0 in
      DELETE_ARGS on_inet_csk_accept_active ctx
    else
      do* saved := act (Lookup on_inet_csk_accept_active (ProbeUdp.pid_tgid ctx)) in
      if negb saved then Ret tt
      else
        do* now := get_timestamp in
        do* _ := tcp_lifetime_hack ctx newsk in
        do* args := act (Deref on_inet_csk_accept_active (ProbeUdp.pid_tgid ctx)) in
        do* r := add_tcp_open_socket ctx newsk (tgid_of ctx) (a_sk args) in
        if r =? 1 then
          do* _ := submit now (Agent.new_sock_created (tgid_of ctx) newsk) in
          do* _ :=
            if family =? ProbeUdp.AF_INET then send_state_ipv4 now 2 newsk else send_state_ipv6 now 2 newsk in
          DELETE_ARGS on_inet_csk_accept_active ctx
        else if r =? 0 then
          do* _ := bpf_log 1087 ctx BPF_LOG_TABLE_DUPLICATE_INSERT BPF_TABLE_TCP_OPEN_SOCKETS (tgid_of ctx) newsk in
          DELETE_ARGS on_inet_csk_accept_active ctx
        else DELETE_ARGS on_inet_csk_accept_active ctx.

Definition on_tcp46_seq_show (ctx : context) (sk : Z) : prog unit :=
  do* i_ino := field sk Field.i_ino in
  do* seen := act (LookupInode (u32 i_ino)) in
  match seen with
  | None => Ret tt
  | Some tgid =>
      do* _ := act (DeleteInode (u32 i_ino)) in
      do* r := ensure_tcp_existing ctx sk tgid in
      if r <? 0 then
        bpf_log 1153 ctx ProbeUdp.BPF_LOG_TABLE_BAD_INSERT BPF_TABLE_TCP_OPEN_SOCKETS tgid (ProbeUdp.abs_val r)
      else Ret tt
  end.

(** The end of a socket of any kind; it is reached from two probes that can run at the
    same time for the same socket. *)
Definition remove_open_socket (ctx : context) (sk : Z) : prog unit :=
  do* tcp := act (Lookup tcp_open_sockets sk) in
  if tcp then remove_tcp_open_socket ctx sk
  else
    do* udp := act (LookupUdp sk) in
    if udp then act (RemoveUdp sk) else Ret tt.

Definition on_security_sk_free (ctx : context) (sk : Z) : prog unit := remove_open_socket ctx sk.

Definition on_inet_release (ctx : context) (sock : Z) : prog unit :=
  do* _ := GET_PID_TGID 1495 ctx in
  do* sk := field sock Field.socket_sk in
  if sk =? 0 then Ret tt else SAVE_ARGS inet_release_active ctx sk.

Definition onret_inet_release (ctx : context) : prog unit :=
  do* _ := GET_PID_TGID 1513 ctx in
  do* saved := act (Lookup inet_release_active (ProbeUdp.pid_tgid ctx)) in
  if negb saved then Ret tt
  else
    do* sk := act (Deref inet_release_active (ProbeUdp.pid_tgid ctx)) in
    do* _ := DELETE_ARGS inet_release_active ctx in
    if negb (sk =? 0) then remove_open_socket ctx sk else Ret tt.

Definition handle_tcp_reset (sk is_rx : Z) : prog unit :=
  do* found := act (Lookup tcp_open_sockets sk) in
  if negb found then Ret tt
  else
    do* now := get_timestamp in
    submit now (Agent.tcp_reset sk is_rx).

Definition on_tcp_reset (sk : Z) : prog unit := handle_tcp_reset sk 1.
Definition on_tcp_send_active_reset (sk : Z) : prog unit := handle_tcp_reset sk 0.

(** * Live sockets *)

Definition report_rtt_estimator_if_time (ctx : context) (sk : Z) : prog unit :=
  do* now := get_timestamp in
  do* info := deref (Entry sk) in
  if u64 (now - last_output info) <? FILTER_NS then Ret tt
  else report_rtt_estimator ctx sk (Entry sk) now false.

Definition on_tcp_rtt_estimator (ctx : context) (sk : Z) : prog unit :=
  do* state := field sk Field.sk_state in
  if negb (state =? TCP_ESTABLISHED) then Ret tt
  else
    do* found := act (Lookup tcp_open_sockets sk) in
    if negb found then Ret tt else report_rtt_estimator_if_time ctx sk.

(** [n++] through the pointer: a read and a write. *)
Definition increment (sk : Z) (get : tcp_open_socket_t -> Z) (set : Z -> tcp_open_socket_t -> tcp_open_socket_t) : prog unit :=
  do* info := deref (Entry sk) in
  do* _ := write (Entry sk) (set (u32 (get info + 1))) in Ret tt.

Definition on_tcp_rcv_established (ctx : context) (sk : Z) : prog unit :=
  do* found := act (Lookup tcp_open_sockets sk) in
  if negb found then Ret tt
  else
    read_or 1913 ctx sk Field.bytes_received tt (fun received =>
      do* info := deref (Entry sk) in
      if negb (received =? bytes_received info) then
        do* _ := increment sk rcv_holes set_rcv_holes in
        do* _ := increment sk rcv_delivered set_rcv_delivered in
        do* _ := write (Entry sk) (set_bytes_received received) in
        report_rtt_estimator_if_time ctx sk
      else Ret tt).

Definition on_tcp_event_data_recv (ctx : context) (sk : Z) : prog unit :=
  do* found := act (Lookup tcp_open_sockets sk) in
  if negb found then Ret tt
  else
    read_or 1945 ctx sk Field.bytes_received tt (fun received =>
      do* _ := increment sk rcv_delivered set_rcv_delivered in
      do* _ := write (Entry sk) (set_bytes_received received) in
      report_rtt_estimator_if_time ctx sk).

Definition handle_syn_timeout (sk : Z) : prog unit :=
  do* state := field sk Field.sk_state in
  if Z.land (Z.shiftl 1 state) (Z.lor TCPF_SYN_SENT TCPF_SYN_RECV) =? 0 then Ret tt
  else
    do* found := act (Lookup tcp_open_sockets sk) in
    if negb found then Ret tt
    else
      do* now := get_timestamp in
      submit now (Agent.tcp_syn_timeout sk).

Definition on_tcp_retransmit_timer (sk : Z) : prog unit := handle_syn_timeout sk.

Definition on_tcp_syn_ack_timeout (req : Z) : prog unit :=
  if LINUX_VERSION_CODE <? KERNEL_VERSION 4 4 0 then
    do* sk := field req Field.req_sk in
    do* found := act (Lookup tcp_open_sockets sk) in
    if negb found then Ret tt
    else
      do* info := deref (Entry sk) in
      handle_syn_timeout (parent info)
  else
    do* listener := field req Field.rsk_listener in
    handle_syn_timeout listener.

(** * The probes *)

Inductive tcp_probe :=
  | Connect (ctx : context) (sk : Z)
  | ListenStart (ctx : context) (sk : Z)
  | InitSock (ctx : context) (sk : Z)
  | Accept (ctx : context) (sk flags err : Z)
  | Accepted (ctx : context) (newsk : Z)
  | SeqShow (ctx : context) (sk : Z)
  | SkFree (ctx : context) (sk : Z)
  | Release (ctx : context) (sock : Z)
  | Released (ctx : context)
  | RttEstimator (ctx : context) (sk : Z)
  | RcvEstablished (ctx : context) (sk : Z)
  | DataRecv (ctx : context) (sk : Z)
  | RetransmitTimer (sk : Z)
  | SynAckTimeout (req : Z)
  | TcpReset (sk : Z)
  | SendActiveReset (sk : Z).

Definition code (p : tcp_probe) : prog unit :=
  match p with
  | Connect ctx sk => on_tcp_connect ctx sk
  | ListenStart ctx sk => on_inet_csk_listen_start ctx sk
  | InitSock ctx sk => on_tcp_init_sock ctx sk
  | Accept ctx sk flags err => on_inet_csk_accept ctx sk flags err
  | Accepted ctx newsk => onret_inet_csk_accept ctx newsk
  | SeqShow ctx sk => on_tcp46_seq_show ctx sk
  | SkFree ctx sk => on_security_sk_free ctx sk
  | Release ctx sock => on_inet_release ctx sock
  | Released ctx => onret_inet_release ctx
  | RttEstimator ctx sk => on_tcp_rtt_estimator ctx sk
  | RcvEstablished ctx sk => on_tcp_rcv_established ctx sk
  | DataRecv ctx sk => on_tcp_event_data_recv ctx sk
  | RetransmitTimer sk => on_tcp_retransmit_timer sk
  | SynAckTimeout req => on_tcp_syn_ack_timeout req
  | TcpReset sk => on_tcp_reset sk
  | SendActiveReset sk => on_tcp_send_active_reset sk
  end.
End probes.

(** * Announcements *)

Definition tcp_opens (sk : Z) (m : Agent.agent_msg) : Z :=
  match m with
  | Agent.new_sock_created _ sk' => if sk' =? sk then 1 else 0
  | Agent.reset_tcp_counters msg => if PollerTcp.c_sk msg =? sk then 1 else 0
  | _ => 0
  end.

Definition tcp_closes (sk : Z) (m : Agent.agent_msg) : Z :=
  match m with Agent.close_sock_info sk' => if sk' =? sk then 1 else 0 | _ => 0 end.

Lemma tcp_silent key m : is_log m \/ is_udp m -> tcp_opens key m.2 = 0 /\ tcp_closes key m.2 = 0.
Proof. destruct m as [t m]. unfold is_log, is_udp. cbn. destruct m; tauto. Qed.

Definition tcp_ledger : ledger := mk_ledger tcp_open_sockets tcp_opens tcp_closes tcp_silent.

Section settling.
Context {M : table -> Type} {HM : forall t, BpfMap (value t) (M t)}.
Context (linux filter : Z) (debug : bool) (key : Z).
#[local] Abbreviation w := (weigh tcp_ledger key).

Lemma report_keeps ctx sk p now adjust : keeps w (report_rtt_estimator linux ctx sk p now adjust).
Proof.
  unfold report_rtt_estimator, packets_in_flight_helper, tcp_get_delivered, write, deref. keeping.
Qed.
#[local] Hint Resolve report_keeps : keeps.

Lemma add_changes ctx sk tg par :
  changes w (add_tcp_open_socket ctx sk tg par) (fun r => if decide (sk = key /\ r = 1) then 1 else 0).
Proof.
  unfold add_tcp_open_socket. apply read_or_changes; [|left; by rewrite decide_False by lia]. intros received.
  set (v := mk_open _ _ _ _ _ _).
  eapply changes_bind; [apply (insert_changes tcp_ledger)|].
  assert (Hlog : forall line code x y z, changes w (bind (bpf_log line ctx code x y z) (fun _ => Ret (-1)))
    (fun r => if decide (sk = key /\ r = 1) then 1 else 0)).
  { intros. apply changes_then; [apply log_keeps|]. intros u. apply changes_ret. by rewrite decide_False by lia. }
  intros r. destruct (Z.eqb_spec r 0) as [->|Hr].
  - cbn. apply changes_ret. destruct (decide (sk = key)); [rewrite !decide_True by done|rewrite !decide_False by tauto]; done.
  - rewrite (decide_False (P := sk = key /\ r = 0)) by tauto. cbn [negb].
    destruct (is_full r); [|destruct (r =? - EEXIST)];
      [eapply changes_ext; [|apply Hlog]|apply changes_ret|eapply changes_ext; [|apply Hlog]];
      try (intros a); repeat case_decide; lia.
Qed.

Lemma remove_keeps ctx sk : keeps w (remove_tcp_open_socket linux ctx sk).
Proof.
  unfold remove_tcp_open_socket. apply keeps_bind; [auto with keeps|]. intros found. destruct (negb found); [auto with keeps|].
  apply keeps_bind; [auto with keeps|]. intros info.
  eapply changes_bind; [apply (delete_changes tcp_ledger)|].
  intros r. destruct (Z.eqb_spec r 0) as [->|Hr]; cbn [negb].
  2:{ apply changes_ret. rewrite decide_False by tauto. done. }
  apply changes_then; [auto with keeps|]. intros now. apply changes_then; [auto with keeps|]. intros u.
  apply changes_act. intros x. cbn. destruct (Z.eqb_spec sk key); repeat case_decide; naive_solver.
Qed.
#[local] Hint Resolve remove_keeps : keeps.

Lemma state6_keeps now tx_rx sk : keeps w (send_state_ipv6 now tx_rx sk).
Proof. unfold send_state_ipv6. keeping. Qed.
Lemma state4_keeps now tx_rx sk : keeps w (send_state_ipv4 now tx_rx sk).
Proof. unfold send_state_ipv4. keeping. Qed.
#[local] Hint Resolve state6_keeps state4_keeps : keeps.
Lemma set_state6_keeps ctx now tx_rx sk : keeps w (submit_set_state_ipv6 ctx now tx_rx sk).
Proof. unfold submit_set_state_ipv6. keeping. Qed.
Lemma set_state4_keeps ctx now tx_rx sk : keeps w (submit_set_state_ipv4 ctx now tx_rx sk).
Proof. unfold submit_set_state_ipv4. keeping. Qed.
#[local] Hint Resolve set_state6_keeps set_state4_keeps : keeps.
Lemma submit_state_keeps line ctx family now tx_rx sk : keeps w (submit_state line ctx family now tx_rx sk).
Proof. unfold submit_state. keeping. Qed.
#[local] Hint Resolve submit_state_keeps : keeps.

(** The announcement of a socket, or a read that failed. *)
Lemma reset_changes ctx now pid sk :
  changes w (submit_reset_tcp_counters linux ctx now pid sk) (fun _ => if decide (sk = key) then -1 else 0).
Proof.
  unfold submit_reset_tcp_counters. do 3 (apply read_or_changes; [intros ?|case_decide; tauto]).
  apply changes_then; [unfold tcp_get_delivered; keeping|]. intros n. apply changes_act. intros x. cbn.
  destruct (Z.eqb_spec sk key); case_decide; done.
Qed.

Lemma ensure_keeps ctx sk pid : keeps w (ensure_tcp_existing linux ctx sk pid).
Proof.
  unfold ensure_tcp_existing. apply keeps_bind; [unfold is_inet; keeping|]. intros inet. destruct (negb inet); [auto with keeps|].
  apply keeps_bind; [auto with keeps|]. intros now. apply keeps_bind; [auto with keeps|]. intros state.
  eapply changes_bind; [apply add_changes|]. intros r. destruct (Z.eqb_spec r 1) as [->|Hr].
  - eapply changes_bind; [apply reset_changes|]. intros u.
    eapply changes_ext; [|apply keeps_bind; [auto with keeps|intros family; keeping]]. intros a. cbn. repeat case_decide; tauto.
  - apply changes_ret. rewrite decide_False by tauto. done.
Qed.
#[local] Hint Resolve ensure_keeps : keeps.
Lemma found_keeps ctx sk : keeps w (tcp_found linux ctx sk).
Proof. unfold tcp_found, tcp_existing_hack. keeping. Qed.
#[local] Hint Resolve found_keeps : keeps.
Lemma lifetime_keeps ctx sk : keeps w (tcp_lifetime_hack linux debug ctx sk).
Proof. unfold tcp_lifetime_hack. keeping. Qed.
#[local] Hint Resolve lifetime_keeps : keeps.

(** A socket that is added, and announced as new if it was. *)
Lemma add_then_keeps {A} ctx sk tg par now pid (k : prog A) (other : Z -> prog A) :
  keeps w k -> (forall r, r <> 1 -> keeps w (other r)) ->
  keeps w (bind (add_tcp_open_socket ctx sk tg par) (fun r =>
    if r =? 1 then bind (submit now (Agent.new_sock_created pid sk)) (fun _ => k) else other r)).
Proof.
  intros Hk Ho. eapply changes_bind; [apply add_changes|]. intros r. destruct (Z.eqb_spec r 1) as [->|Hr].
  - apply changes_bind with (c := fun _ => if decide (sk = key) then -1 else 0).
    + apply changes_act. intros x. cbn. destruct (Z.eqb_spec sk key); case_decide; done.
    + intros u. eapply changes_ext; [|exact Hk]. intros a. cbn. repeat case_decide; tauto.
  - eapply changes_ext; [|by apply Ho]. intros a. cbn. rewrite decide_False by tauto. done.
Qed.

Lemma init_keeps ctx sk : keeps w (on_tcp_init_sock linux debug ctx sk).
Proof.
  unfold on_tcp_init_sock. do 3 (apply keeps_bind; [auto with keeps|intros ?]).
  eapply changes_bind; [apply add_changes|]. intros r. destruct (Z.eqb_spec r 1) as [->|Hr].
  - apply changes_act. intros x. cbn. destruct (Z.eqb_spec sk key); repeat case_decide; tauto.
  - rewrite decide_False by tauto. apply (changes_ext w _ (fun _ : unit => 0)); [done|].
    match goal with |- changes _ ?m _ => change (keeps w m) end. keeping.
Qed.

Lemma accepted_keeps ctx newsk : keeps w (onret_inet_csk_accept linux debug ctx newsk).
Proof.
  unfold onret_inet_csk_accept. apply keeps_bind; [auto with keeps|]. intros u. destruct (newsk =? 0); [auto with keeps|].
  apply keeps_bind; [auto with keeps|]. intros family. destruct (negb _ && negb _); [keeping|].
  apply keeps_bind; [auto with keeps|]. intros saved. destruct (negb saved); [auto with keeps|].
  do 3 (apply keeps_bind; [auto with keeps|intros ?]). apply add_then_keeps; [keeping|]. intros r Hr. keeping.
Qed.
#[local] Hint Resolve init_keeps accepted_keeps : keeps.

Lemma if_time_keeps ctx sk : keeps w (report_rtt_estimator_if_time linux filter ctx sk).
Proof. unfold report_rtt_estimator_if_time, deref. keeping. Qed.
Lemma increment_keeps sk get set : keeps w (increment sk get set).
Proof. unfold increment, deref, write. keeping. Qed.
Lemma syn_timeout_keeps sk : keeps w (handle_syn_timeout sk).
Proof. unfold handle_syn_timeout. keeping. Qed.
Lemma remove_open_keeps ctx sk : keeps w (remove_open_socket linux ctx sk).
Proof. unfold remove_open_socket. keeping. Qed.
#[local] Hint Resolve if_time_keeps increment_keeps syn_timeout_keeps remove_open_keeps : keeps.

Lemma code_keeps p : keeps w (code linux filter debug p).
Proof.
  destruct p; cbn [code]; unfold on_security_sk_free, on_tcp_retransmit_timer; auto with keeps.
  - unfold on_tcp_connect. keeping.
  - unfold on_inet_csk_listen_start. keeping.
  - unfold on_inet_csk_accept. keeping.
  - unfold on_tcp46_seq_show. keeping.
  - unfold on_inet_release. keeping.
  - unfold onret_inet_release. keeping.
  - unfold on_tcp_rtt_estimator. keeping.
  - unfold on_tcp_rcv_established, deref, write. keeping.
  - unfold on_tcp_event_data_recv, write. keeping.
  - unfold on_tcp_syn_ack_timeout, deref. keeping.
  - unfold on_tcp_reset, handle_tcp_reset. keeping.
  - unfold on_tcp_send_active_reset, handle_tcp_reset. keeping.
Qed.

Lemma code_settled p : settled tcp_ledger key (code linux filter debug p) 0.
Proof. eapply settles_mono; [|apply (code_keeps p 0)]. intros a d ->. done. Qed.
End settling.

(** A program of the TCP probes. *)
Definition is_tcp_probe (linux filter : Z) (debug : bool) (m : prog unit) : Prop := exists p, m = code linux filter debug p.

(** * A timeout that is not seen *)

Section silent.
Context {MS MP : Type} {M : table -> Type}.
Context `{BpfMap ProbeUdp.udp_open_socket_t MS} `{BpfMap Z MP} {HM : forall t, BpfMap (value t) (M t)}.

(** On Linux 4.4 and later the timeout of a SYN-ACK is never reported.  The probe asks
    for the state of the listening socket of the request, which is [TCP_LISTEN], where
    only [TCP_SYN_SENT] and [TCP_SYN_RECV] are reported: whatever the tables hold, it
    sends nothing. *)
Theorem syn_ack_timeout_unreported (clock : nat -> Z) (boot : Z) (fileline : Z -> Z) (linux req listener : Z)
    (mem : memory) (s : State MS MP M) :
  KERNEL_VERSION 4 4 0 <= linux ->
  word_at mem req Field.rsk_listener = Got listener -> word_at mem listener Field.sk_state = Got TCP_LISTEN ->
  exec clock boot fileline mem (on_tcp_syn_ack_timeout linux req) s = (tt, s, []).
Proof.
  intros Hv Hl Hs. unfold on_tcp_syn_ack_timeout. destruct (Z.ltb_spec linux (KERNEL_VERSION 4 4 0)); [lia|].
  cbn. rewrite Hl. cbn. rewrite Hs. done.
Qed.
End silent.
End ProbeTcp.

Module ProbeTcpDemo.
Import Probes ProbeTcp.
#[local] Existing Instances ProbeUdpDemo.maps ProbeUdpDemo.ports.
#[local] Instance listening_map t : BpfMap (value t) (gmap Z (value t)) := ProbeUdp.bounded_map 2.

(** The listening socket 77 is tracked, and a request for it times out. *)
Definition listening_state : State (gmap Z ProbeUdp.udp_open_socket_t) (gmap Z Z) (fun t => gmap Z (value t)) :=
  mk_state ProbeUdpDemo.demo_probe (set_tab (M := fun t => gmap Z (value t)) tcp_open_sockets {[77 := mk_open 1 0 0 0 0 0]} (fun _ => ∅)).
Definition listening_memory : memory :=
  mk_memory (fun _ f => Got (match f with Field.rsk_listener => 77 | Field.sk_state => TCP_LISTEN | _ => 0 end)) (fun _ _ => Got []).

Lemma syn_ack_timeout_unreported_witness :
  exec ProbeUdpDemo.demo_clock 0 (fun l => l) listening_memory (on_tcp_syn_ack_timeout 400000 5) listening_state
  = (tt, listening_state, []).
Proof.
  apply (syn_ack_timeout_unreported ProbeUdpDemo.demo_clock 0 (fun l => l) 400000 5 77 listening_memory listening_state);
    [vm_compute; discriminate|reflexivity|reflexivity].
Defined.
End ProbeTcpDemo.
