(* ===== verification/ProbeTask.v ===== *)
(** The probes of processes, control groups and address translation: the rest of the
    socket, process and conntrack probes of collector/kernel/bpf_src/render_bpf.c, as
    programs of [Probes].

    The version of the kernel selects fields and probes and is an argument; so are the
    layout of the kernel's structures, where the code computes addresses with it, and
    the number of the memory controller. *)
From S2P Require Import Prelude NatHandler PollerBase Agent ProbeUdp Probes.

Module ProbeTask.
Import Probes.
Open Scope prog_scope.

Definition ENOENT : Z := 2.
Definition BPF_LOG_TABLE_BAD_REMOVE : Z := 3.
Definition BPF_TABLE_TGID_INFO : Z := 0.
Definition BPF_TABLE_DEAD_GROUP_TASKS : Z := 8.
Definition IPPROTO_TCP : Z := 6.
Definition IPPROTO_UDP : Z := 17.

Section probes.
Context (LINUX_VERSION_CODE FLOW_CGROUP_SUBSYS : Z).
(** The addresses of [cgrp->self] and of [ct->tuplehash[0].tuple], and the size of
    [struct nf_conntrack_tuple_hash]. *)
Context (self tuple0 : Z -> Z) (sizeof_tuple_hash : Z).

(** * Processes *)

Definition set_task_group_dead (ctx : context) (tsk : Z) : prog Z :=
  do* r := act (Insert dead_group_tasks tsk tsk) in
  if is_full r then
    do* _ := bpf_log 182 ctx ProbeUdp.BPF_LOG_TABLE_FULL BPF_TABLE_DEAD_GROUP_TASKS 0 tsk in Ret 0
  else if r =? - EEXIST then
    do* _ := bpf_log 188 ctx BPF_LOG_TABLE_DUPLICATE_INSERT BPF_TABLE_DEAD_GROUP_TASKS 0 tsk in Ret 0
  else if negb (r =? 0) then
    do* _ := bpf_log 194 ctx ProbeUdp.BPF_LOG_TABLE_BAD_INSERT BPF_TABLE_DEAD_GROUP_TASKS 0 (ProbeUdp.abs_val r) in Ret 0
  else Ret 1.

Definition task_group_check_dead_and_remove (tsk : Z) : prog bool :=
  do* r := act (Delete dead_group_tasks tsk) in Ret (r =? 0).

(** A pointer that is read, and must not be null. *)
Definition read_pointer {A} (failed null : Z) (ctx : context) (a : Z) (f : Field.word) (other : A) (k : Z -> prog A) : prog A :=
  read_or failed ctx a f other (fun p =>
    if p =? 0 then do* _ := bpf_log null ctx BPF_LOG_INVALID_POINTER 0 0 0 in Ret other else k p).

Definition task_is_group_leader (ctx : context) (tsk : Z) : prog bool :=
  if tsk =? 0 then do* _ := bpf_log 217 ctx BPF_LOG_INVALID_POINTER 0 0 0 in Ret false
  else read_pointer 224 228 ctx tsk Field.group_leader false (fun leader => Ret (tsk =? leader)).

Definition get_task_cgroup (ctx : context) (tsk : Z) : prog Z :=
  if tsk =? 0 then do* _ := bpf_log 244 ctx BPF_LOG_INVALID_POINTER 0 0 0 in Ret 0
  else
    read_pointer 251 255 ctx tsk Field.task_cgroups 0 (fun set =>
    read_pointer 262 266 ctx set Field.css_set_subsys 0 (fun css =>
    read_pointer 273 277 ctx css Field.css_cgroup 0 (fun cgrp => Ret cgrp))).

Definition get_task_parent (ctx : context) (tsk : Z) : prog Z :=
  read_or 291 ctx tsk Field.task_parent (-1) (fun parent =>
  read_or 298 ctx parent Field.task_tgid (-1) (fun tgid => Ret tgid)).

Definition insert_tgid_info (ctx : context) (tgid : Z) : prog bool :=
  do* r := act (Insert tgid_info_table tgid tgid) in
  if is_full r then
    do* _ := bpf_log 316 ctx ProbeUdp.BPF_LOG_TABLE_FULL BPF_TABLE_TGID_INFO tgid tgid in Ret false
  else if r =? - EEXIST then Ret false
  else if negb (r =? 0) then
    do* _ := bpf_log 327 ctx ProbeUdp.BPF_LOG_TABLE_BAD_INSERT BPF_TABLE_TGID_INFO tgid (ProbeUdp.abs_val r) in Ret false
  else Ret true.

Definition remove_tgid_info (ctx : context) (tgid : Z) : prog bool :=
  do* r := act (Delete tgid_info_table tgid) in
  if negb (r =? 0) then
    do* _ :=
      if negb (r =? - ENOENT) then bpf_log 346 ctx BPF_LOG_TABLE_BAD_REMOVE BPF_TABLE_TGID_INFO tgid (ProbeUdp.abs_val r)
      else Ret tt in
    Ret false
  else Ret true.

Definition on_taskstats_exit (ctx : context) (tsk group_dead : Z) : prog unit :=
  if negb (group_dead =? 0) then do* _ := set_task_group_dead ctx tsk in Ret tt else Ret tt.

Definition on_cgroup_exit (ctx : context) (tsk : Z) : prog unit :=
  read_or 374 ctx tsk Field.task_tgid tt (fun tgid =>
    do* dead := task_group_check_dead_and_remove tsk in
    if negb dead then Ret tt
    else
      do* _ := GET_PID_TGID 384 ctx in
      SAVE_ARGS cgroup_exit_active ctx tgid).

(** [tgid] is a [pid_t]; the key of the table and the message have it unsigned. *)
Definition onret_cgroup_exit (ctx : context) : prog unit :=
  do* _ := GET_PID_TGID 395 ctx in
  do* saved := act (Lookup cgroup_exit_active (ProbeUdp.pid_tgid ctx)) in
  if negb saved then Ret tt
  else
    do* tgid := act (Deref cgroup_exit_active (ProbeUdp.pid_tgid ctx)) in
    do* _ := DELETE_ARGS cgroup_exit_active ctx in
    do* removed := remove_tgid_info ctx (u32 tgid) in
    if negb removed then Ret tt
    else
      do* now := get_timestamp in
      do* comm := address (ProbeUdp.pid_tgid ctx) Field.current_comm in
      submit now (Agent.pid_close (u32 tgid) comm).

Definition on_set_task_comm (ctx : context) (tsk buf : Z) : prog unit :=
  do* leader := task_is_group_leader ctx tsk in
  if negb leader then Ret tt
  else
    do* now := get_timestamp in
    read_or 439 ctx tsk Field.task_tgid tt (fun tgid =>
      do* comm := address buf Field.characters in
      submit now (Agent.pid_set_comm (u32 tgid) comm)).

(** The common end of the two probes below: [line] is that of the last log. *)
Definition report_task (line : Z) (ctx : context) (tsk tgid : Z) : prog unit :=
  do* inserted := insert_tgid_info ctx (u32 tgid) in
  if negb inserted then Ret tt
  else
    do* now := get_timestamp in
    do* cgroup := get_task_cgroup ctx tsk in
    do* parent := get_task_parent ctx tsk in
    do* r := act (ReadArray tsk Field.task_comm) in
    match r with
    | Failed err => failed_call line ctx err
    | Got comm => submit now (Agent.pid_info (u32 tgid) comm cgroup parent)
    end.

Definition on_wake_up_new_task (ctx : context) (tsk : Z) : prog unit :=
  read_or 455 ctx tsk Field.task_tgid tt (fun tgid => report_task 471 ctx tsk tgid).

Definition onret_get_pid_task (ctx : context) (tsk : Z) : prog unit :=
  do* r := read tsk Field.task_tgid in
  match r with
  | Failed err => bpf_log 489 ctx BPF_LOG_BPF_CALL_FAILED (ProbeUdp.abs_val err) tsk 0
  | Got tgid => report_task 505 ctx tsk tgid
  end.

(** * Control groups *)

(** Each pointer of a chain is a read; a null pointer reads as zero. *)
Definition get_css_id (css : Z) : prog Z :=
  if LINUX_VERSION_CODE <? KERNEL_VERSION 3 12 0 then
    do* id := field css Field.css_id in
    if id =? 0 then Ret 0
    else do* id := field css Field.css_id in do* ssid := field id Field.css_id_id in Ret (u32 ssid)
  else
    do* ss := field css Field.css_ss in
    if ss =? 0 then Ret 0
    else do* ss := field css Field.css_ss in do* ssid := field ss Field.ss_id in Ret (u32 ssid).

Definition get_css_parent_cgroup (css : Z) : prog Z :=
  if LINUX_VERSION_CODE <? KERNEL_VERSION 3 12 0 then
    do* cgrp := field css Field.css_cgroup in field cgrp Field.cgroup_parent
  else
    do* parent := field css Field.css_parent in
    if parent =? 0 then Ret 0
    else do* parent := field css Field.css_parent in field parent Field.css_cgroup.

Definition cgroup_name (cgrp : Z) : prog (list Z) :=
  address cgrp (if LINUX_VERSION_CODE <? KERNEL_VERSION 3 15 0 then Field.name_name else Field.kn_name).

(** A message about the group of [css]; [message] takes the group, its parent and its
    name. *)
Definition send_css (css : Z) (message : Z -> Z -> list Z -> Agent.agent_msg) : prog unit :=
  do* parent := get_css_parent_cgroup css in
  do* now := get_timestamp in
  do* cgrp := field css Field.css_cgroup in
  do* cgrp' := field css Field.css_cgroup in
  do* name := cgroup_name cgrp' in
  submit now (message cgrp parent name).

(** The same with the group itself, on older kernels. *)
Definition send_cgroup (cgrp : Z) (message : Z -> Z -> list Z -> Agent.agent_msg) : prog unit :=
  do* now := get_timestamp in
  do* parent := field cgrp Field.cgroup_parent in
  do* name := cgroup_name cgrp in
  submit now (message cgrp parent name).

Definition on_kill_css (css : Z) : prog unit :=
  do* ssid := get_css_id css in
  if negb (ssid =? FLOW_CGROUP_SUBSYS) then Ret tt else send_css css Agent.kill_css.

Definition on_cgroup_destroy_locked (cgrp : Z) : prog unit :=
  do* css := field cgrp Field.cgroup_subsys in
  if css =? 0 then Ret tt else send_cgroup cgrp Agent.kill_css.

Definition on_css_populate_dir (css : Z) : prog unit :=
  do* ssid := get_css_id css in
  if negb (ssid =? FLOW_CGROUP_SUBSYS) then Ret tt else send_css css Agent.css_populate_dir.

Definition on_cgroup_populate_dir (cgrp : Z) : prog unit :=
  do* css := field cgrp Field.cgroup_subsys in
  if css =? 0 then Ret tt else send_cgroup cgrp Agent.css_populate_dir.

Definition on_cgroup_control (ctx : context) (cgrp : Z) : prog unit :=
  do* _ := GET_PID_TGID 2331 ctx in SAVE_ARGS cgroup_control_active ctx cgrp.

Definition onret_cgroup_control (ctx : context) (rc : Z) : prog unit :=
  do* _ := GET_PID_TGID 2342 ctx in
  do* saved := act (Lookup cgroup_control_active (ProbeUdp.pid_tgid ctx)) in
  if negb saved then Ret tt
  else
    do* cgrp := act (Deref cgroup_control_active (ProbeUdp.pid_tgid ctx)) in
    do* _ := DELETE_ARGS cgroup_control_active ctx in
    if Z.land (u16 rc) (Z.shiftl 1 FLOW_CGROUP_SUBSYS) =? 0 then Ret tt
    else
      do* now := get_timestamp in
      do* parent := get_css_parent_cgroup (self cgrp) in
      do* name := cgroup_name cgrp in
      submit now (Agent.existing_cgroup_probe cgrp parent name).

(** Is [cgrp] in a hierarchy with the memory controller alone? *)
Definition memory_hierarchy (cgrp : Z) : prog bool :=
  do* root := field cgrp Field.cgroup_root in
  do* mask := field root Field.root_subsys_mask in
  Ret (u32 mask =? Z.shiftl 1 FLOW_CGROUP_SUBSYS).

(** The argument is a [css], or the group itself before Linux 3.12. *)
Definition on_cgroup_clone_children_read (arg : Z) : prog unit :=
  if LINUX_VERSION_CODE <? KERNEL_VERSION 3 12 0 then
    do* memory := memory_hierarchy arg in
    if negb memory then Ret tt else send_cgroup arg Agent.existing_cgroup_probe
  else
    do* cgrp := field arg Field.css_cgroup in
    do* memory := memory_hierarchy cgrp in
    if negb memory then Ret tt
    else
      do* now := get_timestamp in
      do* parent := get_css_parent_cgroup arg in
      do* cgrp := field arg Field.css_cgroup in
      do* cgrp' := field arg Field.css_cgroup in
      do* name := cgroup_name cgrp' in
      submit now (Agent.existing_cgroup_probe cgrp parent name).

Definition on_cgroup_attach_task (dst_cgrp leader : Z) : prog unit :=
  do* memory := memory_hierarchy dst_cgrp in
  if negb memory then Ret tt
  else
    do* now := get_timestamp in
    do* pid := field leader Field.task_pid in
    do* comm := address leader Field.task_comm in
    submit now (Agent.cgroup_attach_task dst_cgrp (u32 pid) comm).

(** * Address translation *)

(** The tuple at an address; [flipped] exchanges source and destination. *)
Definition tuple_at (a : Z) (flipped : bool) : prog hostport_tuple :=
  do* src := field a Field.src_ip in
  do* sport := field a Field.src_all in
  do* dst := field a Field.dst_ip in
  do* dport := field a Field.dst_all in
  do* proto := field a Field.dst_protonum in
  Ret (if flipped then mk_ft (u32 dst) (u32 src) (u16 dport) (u16 sport) (u8 proto)
       else mk_ft (u32 src) (u32 dst) (u16 sport) (u16 dport) (u8 proto)).

Definition on_nf_nat_cleanup_conntrack (ct : Z) : prog unit :=
  do* now := get_timestamp in
  do* seen := act (Lookup seen_conntracks ct) in
  if negb seen then Ret tt
  else
    do* ft := tuple_at (tuple0 ct) false in
    do* _ := submit now (Agent.nf_nat_cleanup_conntrack ct ft) in
    do* _ := act (Delete seen_conntracks ct) in Ret tt.

(** A conntrack that is already in the table may have changed and is sent again. *)
Definition on_nf_conntrack_alter_reply (ct newreply : Z) : prog unit :=
  do* now := get_timestamp in
  do* l3num := field (tuple0 ct) Field.src_l3num in
  if negb (u16 l3num =? ProbeUdp.AF_INET) then Ret tt
  else
    do* protonum := field newreply Field.dst_protonum in
    if negb (u8 protonum =? IPPROTO_TCP) && negb (u8 protonum =? IPPROTO_UDP) then Ret tt
    else
      do* r := act (Insert seen_conntracks ct ct) in
      if is_full r then Ret tt
      else
        do* orig := tuple_at (tuple0 ct) false in
        do* nat := tuple_at newreply true in
        submit now (Agent.nf_conntrack_alter_reply ct orig nat).

(** The two directions of a conntrack are sent with the address of the first; the second
    is [sizeof_tuple_hash] after it. *)
Definition on_ctnetlink_dump_tuples (ct : Z) : prog unit :=
  do* now := get_timestamp in
  do* dir := field ct Field.dst_dir in
  if dir =? 0 then
    do* ft := tuple_at ct false in
    do* dir := field ct Field.dst_dir in
    submit now (Agent.existing_conntrack_tuple ct ft (u8 dir))
  else
    do* ft := tuple_at ct true in
    do* dir := field ct Field.dst_dir in
    submit now (Agent.existing_conntrack_tuple (u64 (ct - sizeof_tuple_hash)) ft (u8 dir)).

(** * The probes *)

Inductive task_probe :=
  | TaskstatsExit (ctx : context) (tsk group_dead : Z)
  | CgroupExit (ctx : context) (tsk : Z)
  | CgroupExited (ctx : context)
  | SetTaskComm (ctx : context) (tsk buf : Z)
  | WakeUpNewTask (ctx : context) (tsk : Z)
  | GotPidTask (ctx : context) (tsk : Z)
  | KillCss (css : Z)
  | CgroupDestroyLocked (cgrp : Z)
  | CssPopulateDir (css : Z)
  | CgroupPopulateDir (cgrp : Z)
  | CgroupControl (ctx : context) (cgrp : Z)
  | CgroupControlled (ctx : context) (rc : Z)
  | CloneChildrenRead (arg : Z)
  | AttachTask (dst_cgrp leader : Z)
  | NatCleanup (ct : Z)
  | AlterReply (ct newreply : Z)
  | DumpTuples (ct : Z).

Definition task_code (p : task_probe) : prog unit :=
  match p with
  | TaskstatsExit ctx tsk group_dead => on_taskstats_exit ctx tsk group_dead
  | CgroupExit ctx tsk => on_cgroup_exit ctx tsk
  | CgroupExited ctx => onret_cgroup_exit ctx
  | SetTaskComm ctx tsk buf => on_set_task_comm ctx tsk buf
  | WakeUpNewTask ctx tsk => on_wake_up_new_task ctx tsk
  | GotPidTask ctx tsk => onret_get_pid_task ctx tsk
  | KillCss css => on_kill_css css
  | CgroupDestroyLocked cgrp => on_cgroup_destroy_locked cgrp
  | CssPopulateDir css => on_css_populate_dir css
  | CgroupPopulateDir cgrp => on_cgroup_populate_dir cgrp
  | CgroupControl ctx cgrp => on_cgroup_control ctx cgrp
  | CgroupControlled ctx rc => onret_cgroup_control ctx rc
  | CloneChildrenRead arg => on_cgroup_clone_children_read arg
  | AttachTask dst_cgrp leader => on_cgroup_attach_task dst_cgrp leader
  | NatCleanup ct => on_nf_nat_cleanup_conntrack ct
  | AlterReply ct newreply => on_nf_conntrack_alter_reply ct newreply
  | DumpTuples ct => on_ctnetlink_dump_tuples ct
  end.
End probes.

(** * Announcements *)

Definition task_opens (tgid : Z) (m : Agent.agent_msg) : Z :=
  match m with Agent.pid_info pid _ _ _ => if pid =? tgid then 1 else 0 | _ => 0 end.
Definition task_closes (tgid : Z) (m : Agent.agent_msg) : Z :=
  match m with Agent.pid_close pid _ => if pid =? tgid then 1 else 0 | _ => 0 end.

Lemma task_silent key m : is_log m \/ is_udp m -> task_opens key m.2 = 0 /\ task_closes key m.2 = 0.
Proof. destruct m as [t m]. unfold is_log, is_udp. cbn. destruct m; tauto. Qed.

Definition task_ledger : ledger := mk_ledger tgid_info_table task_opens task_closes task_silent.
End ProbeTask.
