(* ===== verification/ProbeDns.v ===== *)
(** The capture of DNS packets: [perf_check_and_submit_dns] of
    collector/kernel/bpf_src/render_bpf.c and the probes that call it, as programs of
    [Probes].

    The buffer of the message, in the map [dns_message_array] or on the stack, is
    written and sent by the same probe; the lookup of the only element of that map does
    not fail.

    Theorem: whichever header the data of a packet starts at, what is captured is the
    payload. *)
From S2P Require Import Prelude IpAddress Dns PollerBase PollerUdp Agent ProbeUdp Probes.

Module ProbeDns.
Import Probes.
Open Scope prog_scope.

Definition IPPROTO_UDP : Z := 17.
Definition BPF_LOG_DATA_TRUNCATED : Z := 8.
Definition sizeof_udphdr : Z := 8.

Section probes.
Context (LINUX_VERSION_CODE : Z).

Definition DNS_MAX_PACKET_LEN : Z := if LINUX_VERSION_CODE <? KERNEL_VERSION 4 15 0 then 380 else 512.

(** A pointer that is read and must not be null; either way the log has the result of
    the read, which is zero for a null pointer. *)
Definition read_pointer (line : Z) (ctx : context) (a : Z) (f : Field.word) (k : Z -> prog unit) : prog unit :=
  read_or line ctx a f tt (fun p => if p =? 0 then failed_call line ctx 0 else k p).

(** Where the payload starts and how much of it is linear, or nothing if the headers are
    not complete. *)
Definition payload (from head th nh valid_len : Z) : option (Z * Z) :=
  if from =? u64 (head + th) then
    if valid_len <? sizeof_udphdr then None else Some (u64 (from + sizeof_udphdr), u32 (valid_len - sizeof_udphdr))
  else if from =? u64 (head + nh) then
    let from := u64 (head + th + sizeof_udphdr) in
    let diff := u32 (from - (head + nh)) in
    if valid_len <? diff then None else Some (from, u32 (valid_len - diff))
  else Some (from, valid_len).

Definition perf_check_and_submit_dns (ctx : context) (sk skb proto sport dport is_rx : Z) : prog unit :=
  do* len := field skb Field.skb_len in
  if negb ((proto =? IPPROTO_UDP) && ((sport =? htons 53) || (dport =? htons 53)) && (0 <? len)) then Ret tt
  else
    read_or 2074 ctx skb Field.skb_data_len tt (fun skb_data_len =>
    read_pointer 2081 ctx skb Field.skb_data (fun from =>
    read_pointer 2088 ctx skb Field.skb_head (fun skb_head =>
    read_or 2095 ctx skb Field.skb_transport_header tt (fun th =>
    read_or 2102 ctx skb Field.skb_network_header tt (fun nh =>
      match payload from skb_head th nh (u32 (len - skb_data_len)) with
      | None => Ret tt
      | Some (from, valid_len) =>
          do* valid_len :=
            if DNS_MAX_PACKET_LEN <? valid_len then
              do* _ := bpf_log 2142 ctx BPF_LOG_DATA_TRUNCATED valid_len DNS_MAX_PACKET_LEN 0 in Ret DNS_MAX_PACKET_LEN
            else Ret valid_len in
          do* r := act (ReadArray from (Field.bytes DNS_MAX_PACKET_LEN)) in
          do* now := get_timestamp in
          submit now (Agent.dns_packet
            (PollerUdp.mk_dns sk is_rx (got (replicate (Z.to_nat DNS_MAX_PACKET_LEN) 0) r) valid_len))
      end))))).

(** The probes, called after those that count the packet. *)
Definition on_udp_send_skb__2 (ctx : context) (skb fl : Z) : prog unit :=
  do* sk := field skb Field.skb_sk in
  do* sport := field fl Field.fl_sport in
  do* dport := field fl Field.fl_dport in
  perf_check_and_submit_dns ctx sk skb IPPROTO_UDP sport dport 0.

Definition on_udp_v6_send_skb__2 (ctx : context) (skb fl : Z) : prog unit :=
  do* sk := field skb Field.skb_sk in
  do* sport := field fl Field.fl_sport in
  do* dport := field fl Field.fl_dport in
  perf_check_and_submit_dns ctx sk skb IPPROTO_UDP sport dport 0.

(** The address of a header of the packet. *)
Definition header_at (skb : Z) (offset : Field.word) : prog Z :=
  do* head := field skb Field.skb_head in
  do* off := field skb offset in Ret (u64 (head + off)).

(** The common part of the two probes below; [protocol] is the field of the protocol. *)
Definition ip_send (ctx : context) (skb : Z) (protocol : Field.word) : prog unit :=
  do* sk := field skb Field.skb_sk in
  do* ip_hdr := header_at skb Field.skb_network_header in
  do* proto := field ip_hdr protocol in
  if proto =? IPPROTO_UDP then
    do* udp_hdr := header_at skb Field.skb_transport_header in
    do* sport := field udp_hdr Field.udp_source in
    do* dport := field udp_hdr Field.udp_dest in
    perf_check_and_submit_dns ctx sk skb IPPROTO_UDP sport dport 0
  else Ret tt.

Definition on_ip_send_skb__2 (ctx : context) (skb : Z) : prog unit := ip_send ctx skb Field.ip_protocol.
Definition on_ip6_send_skb__2 (ctx : context) (skb : Z) : prog unit := ip_send ctx skb Field.ipv6_nexthdr.

Definition handle_receive_udp_skb__2 (ctx : context) (sk skb : Z) : prog unit :=
  do* _ := GET_PID_TGID 1861 ctx in
  do* hdr := header_at skb Field.skb_transport_header in
  do* sport := field hdr Field.udp_source in
  do* dport := field hdr Field.udp_dest in
  perf_check_and_submit_dns ctx sk skb IPPROTO_UDP sport dport 1.

Inductive dns_probe :=
  | UdpSent (ctx : context) (skb fl : Z)
  | UdpSent6 (ctx : context) (skb fl : Z)
  | IpSent (ctx : context) (skb : Z)
  | IpSent6 (ctx : context) (skb : Z)
  | UdpReceived (ctx : context) (sk skb : Z).

Definition dns_code (p : dns_probe) : prog unit :=
  match p with
  | UdpSent ctx skb fl => on_udp_send_skb__2 ctx skb fl
  | UdpSent6 ctx skb fl => on_udp_v6_send_skb__2 ctx skb fl
  | IpSent ctx skb => on_ip_send_skb__2 ctx skb
  | IpSent6 ctx skb => on_ip6_send_skb__2 ctx skb
  | UdpReceived ctx sk skb => handle_receive_udp_skb__2 ctx sk skb
  end.
End probes.

(** * What is captured *)

Section capture.
Context {MS MP : Type} {M : table -> Type}.
Context `{BpfMap ProbeUdp.udp_open_socket_t MS} `{BpfMap Z MP}.
Context {HM : forall t, BpfMap (value t) (M t)} {HL : forall t, BpfMapLaws (value t) (M t)}.
Context (clock : nat -> Z) (boot : Z) (fileline : Z -> Z) (linux : Z).
#[local] Abbreviation state := (State MS MP M).
#[local] Abbreviation max := (DNS_MAX_PACKET_LEN linux).

(** A packet in the memory of the kernel. *)
Record skb_at (mem : memory) (skb len data_len data head th nh : Z) : Prop := {
  at_len : word_at mem skb Field.skb_len = Got len;
  at_data_len : word_at mem skb Field.skb_data_len = Got data_len;
  at_data : word_at mem skb Field.skb_data = Got data;
  at_head : word_at mem skb Field.skb_head = Got head;
  at_th : word_at mem skb Field.skb_transport_header = Got th;
  at_nh : word_at mem skb Field.skb_network_header = Got nh;
  at_lens : 0 < len < 2 ^ 32 /\ 0 <= data_len <= len;
  at_head_range : 0 < head /\ head + th + sizeof_udphdr < 2 ^ 64;
  at_headers : 0 <= nh < th /\ th < 2 ^ 16;
  (* the data start at the header of the network, at that of UDP, or after it *)
  at_start : data = head + nh \/ data = head + th \/ data = head + th + sizeof_udphdr;
}.

(** The end of the linear part. *)
Definition linear_end (len data_len data : Z) : Z := data + (len - data_len).

Lemma payload_found mem skb len data_len data head th nh :
  skb_at mem skb len data_len data head th nh -> head + th + sizeof_udphdr <= linear_end len data_len data ->
  payload data head th nh (u32 (len - data_len)) =
    Some (head + th + sizeof_udphdr, linear_end len data_len data - (head + th + sizeof_udphdr)).
Proof.
  intros [_ _ _ _ _ _ [Hl Hd] [Hh Hh'] [Hn Ht] Hs] Hend. unfold payload, linear_end, sizeof_udphdr, u32, u64 in *.
  rewrite !(Z.mod_small (len - data_len)) by lia. rewrite !(Z.mod_small (head + th)), !(Z.mod_small (head + nh)) by lia.
  destruct Hs as [->|[->| ->]].
  - destruct (Z.eqb_spec (head + nh) (head + th)); [lia|]. rewrite Z.eqb_refl. cbv zeta.
    rewrite (Z.mod_small (head + th + 8)), (Z.mod_small (head + th + 8 - (head + nh))) by lia.
    destruct (Z.ltb_spec (len - data_len) (head + th + 8 - (head + nh))); [lia|]. rewrite Z.mod_small by lia.
    do 2 f_equal. lia.
  - rewrite Z.eqb_refl. destruct (Z.ltb_spec (len - data_len) 8); [lia|]. rewrite !Z.mod_small by lia. do 2 f_equal. lia.
  - destruct (Z.eqb_spec (head + th + 8) (head + th)); [lia|]. destruct (Z.eqb_spec (head + th + 8) (head + nh)); [lia|].
    do 2 f_equal. lia.
Qed.

Lemma max_range : 0 < max < 2 ^ 31.
Proof. unfold DNS_MAX_PACKET_LEN. destruct (_ <? _); lia. Qed.

(** One message after some logs, and the tables as they were. *)
Definition sends (mem : memory) (m : prog unit) (s : state) (Φ : Agent.agent_msg -> Prop) : Prop :=
  yields clock boot fileline mem m s (fun _ s' out =>
    tabs s' = tabs s /\ exists logs now msg, out = logs ++ [(now, msg)] /\ Forall is_log logs /\ Φ msg).

Lemma sends_mono mem m (s : state) (Φ Ψ : Agent.agent_msg -> Prop) :
  sends mem m s Φ -> (forall msg, Φ msg -> Ψ msg) -> sends mem m s Ψ.
Proof.
  unfold sends. intros Hm HΦ. eapply prog_yields_mono; [exact Hm|]. cbn. intros u s' out (Ht & logs & now & msg & Ho & Hl & Hp).
  split; [done|]. exists logs, now, msg. auto.
Qed.

Lemma send_yields_message mem from (n : Z) (s : state) (f : list Z -> Agent.agent_msg) bs :
  array_at mem from (Field.bytes n) = Got bs ->
  sends mem (do* r := act (ReadArray from (Field.bytes n)) in do* now := get_timestamp in
             submit now (f (got (replicate (Z.to_nat n) 0) r))) s (fun msg => msg = f bs).
Proof.
  intros Hbs. unfold sends, yields, get_timestamp, submit, act. cbn. rewrite Hbs. cbn. split; [done|].
  by eexists [], _, _.
Qed.

Lemma sends_log mem line ctx c a0 a1 (k : Z -> prog unit) v (s : state) Φ :
  (forall s', tabs s' = tabs s -> sends mem (k v) s' Φ) ->
  sends mem (bind (bind (bpf_log line ctx c a0 a1 0) (fun _ => Ret v)) k) s Φ.
Proof.
  intros Hk. unfold sends. do 2 apply prog_yields_bind. apply (yields_act clock boot fileline mem (Log line ctx c a0 a1 0)).
  intros x s1 o1 [Ht Hl]. unfold yields at 1. cbn [exec fst snd]. rewrite app_nil_r.
  eapply prog_yields_mono; [by apply Hk|]. intros u s2 o2 (Ht2 & logs & now & msg & -> & Hl2 & HΦ). split; [congruence|].
  exists (o1 ++ logs), now, msg. split; [by rewrite app_assoc|]. split; [by apply Forall_app|done].
Qed.

(** C23: DNS packets are captured from the first byte of their payload.  A UDP packet to or
    from port 53, whose data start at the header of the network, at the header of UDP or
    after both, is sent as one message: its bytes are those of the linear part from the
    payload on, cut at the size of the message, in the form the collector relies on. *)
Theorem dns_capture_exact (mem : memory) (ctx : context) (sk skb sport dport is_rx len data_len data head th nh : Z)
    (bs : list Z) (s : state) :
  skb_at mem skb len data_len data head th nh -> sport = htons 53 \/ dport = htons 53 ->
  head + th + sizeof_udphdr <= linear_end len data_len data ->
  array_at mem (head + th + sizeof_udphdr) (Field.bytes max) = Got bs -> zlen bs = max -> Forall Dns.byte_ok bs ->
  sends mem (perf_check_and_submit_dns linux ctx sk skb IPPROTO_UDP sport dport is_rx) s (fun m =>
    exists msg, m = Agent.dns_packet msg /\
      PollerUdp.d_sk msg = sk /\ PollerUdp.d_is_rx msg = is_rx /\ PollerUdp.dns_ok msg /\
      PollerUdp.packet msg = take (Z.to_nat (linear_end len data_len data - (head + th + sizeof_udphdr))) bs).
Proof.
  intros Hskb Hport Hend Hbs Hlen Hb. pose proof (payload_found _ _ _ _ _ _ _ _ Hskb Hend) as Hpay. pose proof max_range as Hmax.
  destruct Hskb as [E1 E2 E3 E4 E5 E6 [Hl Hd] [Hh Hh'] [Hn Ht] Hs].
  set (n := linear_end len data_len data - (head + th + sizeof_udphdr)) in *.
  assert (Hp : (sport =? htons 53) || (dport =? htons 53) = true)
    by (destruct Hport as [-> | ->]; rewrite Z.eqb_refl; [done|apply orb_true_r]).
  assert (Hdata : data <> 0) by (destruct Hs as [->|[->| ->]]; unfold sizeof_udphdr; lia).
  unfold sends, perf_check_and_submit_dns. eapply yields_field; [exact E1|]. rewrite Hp.
  destruct (Z.ltb_spec 0 len); [|lia]. cbn [andb negb Z.eqb Pos.eqb IPPROTO_UDP].
  eapply yields_read_or; [exact E2|]. unfold read_pointer. eapply yields_read_or; [exact E3|].
  destruct (Z.eqb_spec data 0); [done|]. eapply yields_read_or; [exact E4|]. destruct (Z.eqb_spec head 0); [lia|].
  eapply yields_read_or; [exact E5|]. eapply yields_read_or; [exact E6|]. rewrite Hpay.
  assert (Hmsg : forall v (s' : state), v = Z.min n max -> sends mem
    (do* r := act (ReadArray (head + th + sizeof_udphdr) (Field.bytes max)) in do* now := get_timestamp in
     submit now (Agent.dns_packet (PollerUdp.mk_dns sk is_rx (got (replicate (Z.to_nat max) 0) r) v))) s' (fun m =>
    exists msg, m = Agent.dns_packet msg /\ PollerUdp.d_sk msg = sk /\ PollerUdp.d_is_rx msg = is_rx /\
      PollerUdp.dns_ok msg /\ PollerUdp.packet msg = take (Z.to_nat n) bs)).
  { intros v s' ->.
    eapply sends_mono; [exact (send_yields_message mem _ max s' (fun l => Agent.dns_packet (PollerUdp.mk_dns sk is_rx l (Z.min n max))) bs Hbs)|].
    intros msg ->. eexists. split; [done|]. split; [done|]. split; [done|].
    split; [unfold PollerUdp.dns_ok; cbn; rewrite Hlen; split; [lia|]; split; [lia|done]|].
    unfold PollerUdp.packet. cbn. unfold zlen in Hlen. destruct (Z.le_ge_cases n max); [by rewrite Z.min_l|].
    rewrite Z.min_r by done. rewrite !take_ge by lia. done. }
  destruct (Z.ltb_spec max n).
  - apply sends_log. intros s' Ht'. eapply prog_yields_mono; [apply (Hmsg max s'); lia|].
    intros u s2 out (Ht2 & Hrest). split; [congruence|done].
  - apply (Hmsg n s). lia.
Qed.
End capture.
End ProbeDns.

Module ProbeDnsDemo.
Import Probes ProbeDns.
#[local] Existing Instances ProbeUdpDemo.maps ProbeUdpDemo.ports.
#[local] Instance demo_map t : BpfMap (value t) (gmap Z (value t)) := ProbeUdp.bounded_map 2.
#[local] Instance demo_map_laws t : BpfMapLaws (value t) (gmap Z (value t)) := ProbeUdp.bounded_map_laws 2.

Definition demo_state : State (gmap Z ProbeUdp.udp_open_socket_t) (gmap Z Z) (fun t => gmap Z (value t)) :=
  mk_state ProbeUdpDemo.demo_probe (fun _ => ∅).

(** A packet of 50 bytes whose data start at the header of the network. *)
Definition demo_skb_memory : memory :=
  mk_memory (fun _ f => Got match f with
      | Field.skb_len => 50 | Field.skb_data => 1016 | Field.skb_head => 1000
      | Field.skb_transport_header => 36 | Field.skb_network_header => 16 | _ => 0
      end) (fun _ _ => Got (replicate 512 7)).

Lemma demo_skb_at : skb_at demo_skb_memory 1 50 0 1016 1000 36 16.
Proof. split; unfold sizeof_udphdr; try done; lia. Qed.

Lemma dns_capture_exact_witness :
  sends (HM := demo_map) ProbeUdpDemo.demo_clock 0 (fun l => l) demo_skb_memory
    (perf_check_and_submit_dns 400000 ProbeUdpDemo.demo_ctx 77 1 IPPROTO_UDP 13568 9 0) demo_state (fun m =>
    exists msg, m = Agent.dns_packet msg /\ PollerUdp.d_sk msg = 77 /\ PollerUdp.d_is_rx msg = 0 /\
      PollerUdp.dns_ok msg /\ PollerUdp.packet msg = take 22 (replicate 512 7)).
Proof.
  apply (dns_capture_exact ProbeUdpDemo.demo_clock 0 (fun l => l) 400000 demo_skb_memory ProbeUdpDemo.demo_ctx
    77 1 13568 9 0 50 0 1016 1000 36 16 (replicate 512 7) demo_state demo_skb_at);
    [left; reflexivity|vm_compute; discriminate|reflexivity|reflexivity|].
  apply Forall_replicate. unfold Dns.byte_ok. lia.
Defined.
End ProbeDnsDemo.
