(* ===== verification/AllProbes.v ===== *)
(** The probes of TCP sockets, processes, control groups, address translation and DNS
    packets running together.

    Theorems: whatever the interleaving of the probes and the answers of the kernel,
    the tables of sockets and of processes and the messages about them agree once the
    probes have ended, and the end of a process is announced only when the last thread of
    a group was seen to exit. *)
From S2P Require Import Prelude PollerBase PollerTcp PollerUdp Agent ProbeUdp Probes ProbeTcp ProbeTask ProbeDns.

Module AllProbes.
Import Probes ProbeTcp ProbeTask.

(** Down to the operations. *)
Ltac unfold_tcp :=
  unfold on_tcp_connect, on_inet_csk_listen_start, on_tcp_init_sock, on_inet_csk_accept,
    onret_inet_csk_accept, on_tcp46_seq_show, on_security_sk_free, on_inet_release, onret_inet_release, on_tcp_rtt_estimator,
    on_tcp_rcv_established, on_tcp_event_data_recv, on_tcp_retransmit_timer, on_tcp_syn_ack_timeout, handle_syn_timeout,
    on_tcp_reset, on_tcp_send_active_reset, handle_tcp_reset,
    remove_open_socket, tcp_found, tcp_existing_hack, submit_state, submit_set_state_ipv4, submit_set_state_ipv6,
    report_rtt_estimator_if_time, increment, write, deref.
Ltac unfold_tasks :=
  unfold on_taskstats_exit, set_task_group_dead, on_cgroup_exit, task_group_check_dead_and_remove,
    on_set_task_comm, task_is_group_leader, read_pointer, on_wake_up_new_task, onret_get_pid_task, failed_call, read,
    on_kill_css, on_cgroup_destroy_locked, on_css_populate_dir, on_cgroup_populate_dir, on_cgroup_control,
    onret_cgroup_control, on_cgroup_clone_children_read, on_cgroup_attach_task, memory_hierarchy, send_css, send_cgroup,
    cgroup_name, get_css_id, get_css_parent_cgroup, on_nf_nat_cleanup_conntrack, on_nf_conntrack_alter_reply,
    on_ctnetlink_dump_tuples, tuple_at.
Ltac unfold_dns :=
  unfold ProbeDns.on_udp_send_skb__2, ProbeDns.on_udp_v6_send_skb__2, ProbeDns.on_ip_send_skb__2, ProbeDns.on_ip6_send_skb__2,
    ProbeDns.ip_send, ProbeDns.handle_receive_udp_skb__2, ProbeDns.header_at, ProbeDns.perf_check_and_submit_dns,
    ProbeDns.read_pointer, failed_call.

Section settling.
Context (linux filter : Z) (debug : bool) (subsys : Z) (self tuple0 : Z -> Z) (size : Z) (key : Z).
#[local] Abbreviation wtcp := (weigh tcp_ledger key).
#[local] Abbreviation wtask := (weigh task_ledger key).

(** The TCP probes leave the processes alone. *)
Lemma tcp_keeps_tasks p : keeps wtask (code linux filter debug p).
Proof.
  assert (Hreport : forall ctx sk q now adjust, keeps wtask (report_rtt_estimator linux ctx sk q now adjust))
    by (intros; unfold report_rtt_estimator, packets_in_flight_helper, tcp_get_delivered, write, deref; keeping).
  assert (Hremove : forall ctx sk, keeps wtask (remove_tcp_open_socket linux ctx sk))
    by (intros; unfold remove_tcp_open_socket; keeping).
  assert (H4 : forall now tx_rx sk, keeps wtask (send_state_ipv4 now tx_rx sk)) by (intros; unfold send_state_ipv4; keeping).
  assert (H6 : forall now tx_rx sk, keeps wtask (send_state_ipv6 now tx_rx sk)) by (intros; unfold send_state_ipv6; keeping).
  assert (Hadd : forall ctx sk tg par, keeps wtask (add_tcp_open_socket ctx sk tg par))
    by (intros; unfold add_tcp_open_socket; keeping).
  assert (Hensure : forall ctx sk pid, keeps wtask (ensure_tcp_existing linux ctx sk pid)).
  { intros. unfold ensure_tcp_existing, is_inet, submit_reset_tcp_counters, tcp_get_delivered, submit_set_state_ipv4,
      submit_set_state_ipv6. keeping. }
  assert (Hlife : forall ctx sk, keeps wtask (tcp_lifetime_hack linux debug ctx sk)) by (intros; unfold tcp_lifetime_hack; keeping).
  destruct p; cbn [code]; unfold_tcp; keeping.
Qed.

(** The probes of processes leave the sockets alone. *)
Lemma tasks_keep_tcp p : keeps wtcp (task_code linux subsys self tuple0 size p).
Proof.
  destruct p; cbn [task_code]; unfold_tasks; unfold onret_cgroup_exit, remove_tgid_info, report_task, insert_tgid_info,
    get_task_cgroup, get_task_parent, read_pointer, failed_call; keeping.
Qed.

(** ** Processes *)

Lemma insert_tgid_changes ctx tg :
  changes wtask (insert_tgid_info ctx tg) (fun r => if decide (tg = key /\ r = true) then 1 else 0).
Proof.
  unfold insert_tgid_info. eapply changes_bind; [apply (insert_changes task_ledger)|]. intros r.
  assert (Hlog : forall line c x y z, changes wtask (bind (bpf_log line ctx c x y z) (fun _ => Ret false))
    (fun r => if decide (tg = key /\ r = true) then 1 else 0)).
  { intros. apply changes_then; [auto with keeps|]. intros u. apply changes_ret. by rewrite decide_False by naive_solver. }
  destruct (Z.eqb_spec r 0) as [->|Hr].
  - cbn. apply changes_ret. repeat case_decide; tauto.
  - rewrite (decide_False (P := tg = key /\ r = 0)) by tauto. cbn [negb].
    destruct (is_full r); [|destruct (r =? - EEXIST)];
      [eapply changes_ext; [|apply Hlog]|apply changes_ret|eapply changes_ext; [|apply Hlog]];
      try (intros a); repeat case_decide; naive_solver lia.
Qed.

Lemma remove_tgid_changes ctx tg :
  changes wtask (remove_tgid_info ctx tg) (fun r => if decide (tg = key /\ r = true) then -1 else 0).
Proof.
  unfold remove_tgid_info. eapply changes_bind; [apply (delete_changes task_ledger)|]. intros r.
  destruct (Z.eqb_spec r 0) as [->|Hr]; cbn [negb].
  - apply changes_ret. repeat case_decide; tauto.
  - apply changes_then; [keeping|]. intros u. apply changes_ret. repeat case_decide; naive_solver.
Qed.

Lemma report_task_keeps line ctx tsk tg : keeps wtask (report_task line ctx tsk tg).
Proof.
  unfold report_task. eapply changes_bind; [apply insert_tgid_changes|]. intros inserted. destruct inserted; cbn [negb].
  2:{ apply changes_ret. rewrite decide_False by naive_solver. done. }
  apply changes_then; [auto with keeps|]. intros now.
  apply changes_then; [unfold get_task_cgroup, read_pointer; keeping|]. intros cgrp.
  apply changes_then; [unfold get_task_parent; keeping|]. intros par d x. destruct x as [comm|err].
  - left. cbn. intros []. left. destruct (Z.eqb_spec (u32 tg) key); case_decide; naive_solver lia.
  - destruct (decide (u32 tg = key)) as [Hk|Hk]; [right; split; [done|]|left]; cbn; intros []; left;
      case_decide; naive_solver lia.
Qed.

Lemma exited_keeps ctx : keeps wtask (onret_cgroup_exit ctx).
Proof.
  unfold onret_cgroup_exit. apply keeps_bind; [auto with keeps|]. intros u. apply keeps_bind; [auto with keeps|]. intros saved.
  destruct (negb saved); [auto with keeps|]. apply keeps_bind; [auto with keeps|]. intros tg.
  apply keeps_bind; [auto with keeps|]. intros u'. eapply changes_bind; [apply remove_tgid_changes|]. intros removed.
  destruct removed; cbn [negb].
  2:{ apply changes_ret. rewrite decide_False by naive_solver. done. }
  apply changes_then; [auto with keeps|]. intros now. apply changes_then; [auto with keeps|]. intros comm.
  apply changes_act. intros x. cbn. destruct (Z.eqb_spec (u32 tg) key); case_decide; naive_solver lia.
Qed.
#[local] Hint Resolve report_task_keeps exited_keeps : keeps.

Lemma tasks_keep_tasks p : keeps wtask (task_code linux subsys self tuple0 size p).
Proof.
  destruct p; cbn [task_code]; unfold_tasks; keeping.
Qed.

(** The capture of DNS packets leaves both alone. *)
Lemma dns_keeps L p : (L = tcp_ledger \/ L = task_ledger) -> keeps (weigh L key) (ProbeDns.dns_code linux p).
Proof.
  intros [-> | ->]; destruct p; cbn [ProbeDns.dns_code]; unfold_dns; keeping.
Qed.
End settling.

(** ** Ends of processes

    [D] are the tasks whose group of threads has died and [T] the threads that have
    ended such a task; [E] is what the announcement of an end needs. *)
Section deaths.
Context (D T : Z -> Prop) (E : Prop).

Definition allowed (o : op) : Prop :=
  match o with
  | Submit _ (Agent.pid_close _ _) => E
  | Insert dead_group_tasks tsk _ => D tsk
  | Insert cgroup_exit_active pid _ => T pid
  | _ => True
  end.

(** What the two tables can answer while they hold nothing else. *)
Definition possible (o : op) : answer o -> Prop :=
  match o return answer o -> Prop with
  | Delete t k => fun x => t = dead_group_tasks -> x = 0 -> D k
  | Lookup t k => fun x => t = cgroup_exit_active -> x = true -> T k
  | _ => fun _ => True
  end.

(** Every operation of [m] is allowed, and its result satisfies [Q]. *)
Fixpoint safely {A} (m : prog A) (Q : A -> Prop) : Prop :=
  match m with
  | Ret a => Q a
  | Do o k => allowed o /\ forall x, possible o x -> safely (k x) Q
  end.

Definition quiet {A} (m : prog A) : Prop := safely m (fun _ => True).

Lemma safely_bind {A B} (m : prog A) (f : A -> prog B) Q :
  safely m (fun a => safely (f a) Q) -> safely (bind m f) Q.
Proof. induction m as [a|o k IH]; cbn; [done|]. intros [Ho Hk]. split; [done|]. eauto. Qed.

Lemma safely_mono {A} (m : prog A) (Q Q' : A -> Prop) : (forall a, Q a -> Q' a) -> safely m Q -> safely m Q'.
Proof. intros HQ. induction m as [a|o k IH]; cbn; [apply HQ|]. intros [Ho Hk]. eauto. Qed.

Lemma quiet_bind {A B} (m : prog A) (f : A -> prog B) : quiet m -> (forall a, quiet (f a)) -> quiet (bind m f).
Proof. intros Hm Hf. apply safely_bind. eapply safely_mono; [|exact Hm]. intros a _. apply Hf. Qed.

Lemma quiet_ret {A} (a : A) : quiet (Ret a).
Proof. done. Qed.

Lemma quiet_act o : allowed o -> quiet (act o).
Proof. done. Qed.

Lemma quiet_read_or {A} line ctx a f (other : A) k : (forall v, quiet (k v)) -> quiet (read_or line ctx a f other k).
Proof. intros Hk. split; [done|]. intros [v|err] _; [apply Hk|]. by repeat split. Qed.

(** Through the structure of a program. *)
Ltac quietly :=
  repeat match goal with
    | |- quiet (Ret _) => exact I
    | |- quiet (act _) => apply quiet_act; first [exact I | assumption]
    | |- quiet (submit _ _) => apply quiet_act; first [exact I | assumption]
    | |- quiet (bpf_log _ _ _ _ _ _) => apply quiet_act; exact I
    | |- quiet get_timestamp => apply quiet_act; exact I
    | |- quiet (field _ _) => apply quiet_bind; [|intros ?]
    | |- quiet (address _ _) => apply quiet_bind; [|intros ?]
    | |- quiet (read _ _) => apply quiet_act; exact I
    | |- quiet (SAVE_ARGS _ _ _) => apply quiet_bind; [|intros ?]
    | |- quiet (DELETE_ARGS _ _) => apply quiet_bind; [|intros ?]
    | |- quiet (GET_PID_TGID _ _) => unfold GET_PID_TGID
    | |- quiet (read_or _ _ _ _ _ _) => apply quiet_read_or; intros ?
    | |- quiet (bind _ _) => apply quiet_bind; [|intros ?]
    | |- quiet (if ?b then _ else _) => destruct b
    | |- quiet (match ?x with _ => _ end) => destruct x
    | |- quiet (failed_call _ _ _) => apply quiet_act; exact I
    end; auto.

Context (linux filter : Z) (debug : bool) (subsys : Z) (self tuple0 : Z -> Z) (size : Z).

Lemma tcp_quiet p : quiet (code linux filter debug p).
Proof.
  assert (Hreport : forall ctx sk q now adjust, quiet (report_rtt_estimator linux ctx sk q now adjust))
    by (intros; unfold report_rtt_estimator, packets_in_flight_helper, tcp_get_delivered, write, deref; quietly).
  assert (Hremove : forall ctx sk, quiet (remove_tcp_open_socket linux ctx sk))
    by (intros; unfold remove_tcp_open_socket; quietly).
  assert (H4 : forall now tx_rx sk, quiet (send_state_ipv4 now tx_rx sk)) by (intros; unfold send_state_ipv4; quietly).
  assert (H6 : forall now tx_rx sk, quiet (send_state_ipv6 now tx_rx sk)) by (intros; unfold send_state_ipv6; quietly).
  assert (Hadd : forall ctx sk tg par, quiet (add_tcp_open_socket ctx sk tg par))
    by (intros; unfold add_tcp_open_socket; quietly).
  assert (Hensure : forall ctx sk pid, quiet (ensure_tcp_existing linux ctx sk pid)).
  { intros. unfold ensure_tcp_existing, is_inet, submit_reset_tcp_counters, tcp_get_delivered, submit_set_state_ipv4,
      submit_set_state_ipv6. quietly. }
  assert (Hlife : forall ctx sk, quiet (tcp_lifetime_hack linux debug ctx sk)) by (intros; unfold tcp_lifetime_hack; quietly).
  destruct p; cbn [code]; unfold_tcp; quietly.
Qed.

Lemma dns_quiet p : quiet (ProbeDns.dns_code linux p).
Proof. destruct p; cbn [ProbeDns.dns_code]; unfold_dns; quietly. Qed.

(** A task that dies is in [D]; a thread that ends one is in [T]; and the return probe
    that finds the thread may announce the end. *)
Lemma task_quiet p :
  match p with
  | TaskstatsExit _ tsk group_dead => group_dead <> 0 -> D tsk
  | CgroupExit ctx tsk => D tsk -> T (ProbeUdp.pid_tgid ctx)
  | CgroupExited ctx => T (ProbeUdp.pid_tgid ctx) -> E
  | _ => True
  end -> quiet (task_code linux subsys self tuple0 size p).
Proof.
  assert (Hreport : forall line ctx tsk tg, quiet (report_task line ctx tsk tg))
    by (intros; unfold report_task, insert_tgid_info, get_task_cgroup, get_task_parent, read_pointer, failed_call; quietly).
  destruct p as [ctx tsk dead|ctx tsk|ctx| | | | | | | | | | | | | |]; cbn [task_code]; intros Hp.
  4-17: unfold_tasks; quietly.
  - unfold on_taskstats_exit, set_task_group_dead. destruct (Z.eqb_spec dead 0) as [|Hd]; [exact I|]. cbn [negb].
    apply quiet_bind; [|intros; exact I]. apply quiet_bind; [apply quiet_act, (Hp Hd)|]. intros r. quietly.
  - unfold on_cgroup_exit. apply quiet_read_or. intros tg. apply safely_bind. split; [exact I|]. intros r Hr. cbn [bind safely].
    destruct (Z.eqb_spec r 0) as [->|]; [|exact I]. cbn [negb]. apply quiet_bind; [quietly|]. intros _.
    apply quiet_bind; [apply quiet_act, (Hp (Hr eq_refl eq_refl))|intros; exact I].
  - unfold onret_cgroup_exit, remove_tgid_info. apply quiet_bind; [quietly|]. intros _. apply safely_bind. split; [exact I|].
    intros [] Hr; [|exact I]. assert (HE : E) by exact (Hp (Hr eq_refl eq_refl)). cbn [safely negb].
    match goal with |- safely ?m _ => change (quiet m) end. quietly.
Qed.

Context {M : table -> Type} {HM : forall t, BpfMap (value t) (M t)} {HL : forall t, BpfMapLaws (value t) (M t)}.

(** The two tables hold nothing else, and an end was announced only with [E]. *)
Definition holds_only (s : forall t, M t) : Prop :=
  (forall k, is_Some (contents s dead_group_tasks !! k) -> D k) /\
  forall k, is_Some (contents s cgroup_exit_active !! k) -> T k.

Definition dead_only (c : config M) : Prop :=
  holds_only (shared_tabs c) /\ Forall quiet (threads c) /\ forall tg, 0 < count (task_closes tg) (sent c) -> E.

(** Entries that were not there before. *)
Lemma answers_enter o (s s' : forall t, M t) x out t k :
  answers o s x s' out -> is_Some (contents s' t !! k) ->
  is_Some (contents s t !! k) \/ exists v, o = Insert t k v.
Proof.
  destruct o; cbn [answers answer] in *; try (intros [-> _]; by left); try (intros (-> & _); by left).
  - intros (_ & Ho & Hw) Hk. left. destruct (decide (t = t0)) as [->|Hne]; [|by rewrite <- Ho].
    apply elem_of_dom. apply elem_of_dom in Hk. destruct (contents s t0 !! k0) eqn:Hk0; [|by rewrite <- Hw].
    rewrite Hw, dom_insert_lookup_L in Hk by eauto. done.
  - intros (_ & _ & ->). rewrite contents_set. destruct (decide (t0 = t)) as [<-|]; [cbn [eq_rect]|by left].
    destruct (bm_insert_spec (s t0) k0 v) as [(_ & _ & ->)|[_ ->]]; [|by left].
    destruct (decide (k0 = k)) as [->|]; [right; by exists v|]. rewrite lookup_insert_ne by done. by left.
  - intros (_ & _ & ->). rewrite contents_set. destruct (decide (t0 = t)) as [<-|]; [cbn [eq_rect]|by left].
    destruct (bm_delete_spec (s t0) k0) as [(_ & _ & ->)|(_ & _ & ->)]; [|by left].
    intros [v Hv]. apply lookup_delete_Some in Hv as [_ Hv]. left. by exists v.
Qed.

Lemma answers_possible o (s s' : forall t, M t) x out : holds_only s -> answers o s x s' out -> possible o x.
Proof.
  intros [Hd Ht]. destruct o; cbn [answers possible answer] in *; try done.
  - intros (_ & _ & ->) -> Hk. apply Ht. by apply bool_decide_eq_true in Hk.
  - intros (_ & -> & _) -> Hk. apply Hd. destruct (bm_delete_spec (s dead_group_tasks) k) as [(Hs & _)|(_ & ? & _)]; done.
Qed.

Lemma answers_closes o (s s' : forall t, M t) x out tg :
  answers o s x s' out -> allowed o -> 0 < count (task_closes tg) out -> E.
Proof.
  assert (Hsil : forall Q out, (forall m, Q m -> is_log m \/ is_udp m) -> Forall Q out -> 0 < count (task_closes tg) out -> E).
  { intros Q out' HQ Hf. rewrite count_silent; [lia|]. eapply Forall_impl; [exact Hf|]. intros m Hm. by apply task_silent, HQ. }
  destruct o; cbn [answers answer] in *; try (intros (_ & -> & _) _; cbn; lia); try (intros (-> & _) _; cbn; lia);
    try (intros [_ ->] _; cbn; lia).
  - intros [_ ->]. destruct m; cbn; try lia. by intros HE.
  - intros [_ Hf] _. apply (Hsil is_log); [tauto|done].
  - intros [_ Hf] _. apply (Hsil is_udp); [tauto|done].
Qed.

Lemma cstep_dead_only (P : prog unit -> Prop) c c' :
  (forall m, P m -> quiet m) -> cstep P c c' -> dead_only c -> dead_only c'.
Proof.
  intros HP Hs (Ho & Hq & He). destruct Hs as [m ts s out n Hm|ts1 o k ts2 s out n x s' new Ha]; unfold dead_only; cbn in *.
  { split; [done|]. split; [|done]. apply Forall_app. auto. }
  apply Forall_app in Hq as [Hq1 [[Hal Hq2] Hq3]%Forall_cons]. split; [|split].
  - destruct Ho as [Hd Ht]. split; intros key Hk; destruct (answers_enter _ _ _ _ _ _ _ Ha Hk) as [|[v ->]]; auto.
  - apply Forall_app. split; [done|]. constructor; [|done]. apply Hq2. by eapply answers_possible.
  - intros tg. rewrite count_app. intros Hc. destruct (decide (0 < count (task_closes tg) out)); [by eapply He|].
    eapply (answers_closes _ _ _ _ _ tg); [exact Ha|done|lia].
Qed.
End deaths.

(** * All of them *)

Section together.
Context {M : table -> Type} {HM : forall t, BpfMap (value t) (M t)} {HL : forall t, BpfMapLaws (value t) (M t)}.
Context (linux filter : Z) (debug : bool) (subsys : Z) (self tuple0 : Z -> Z) (size : Z).

Definition is_probe (m : prog unit) : Prop :=
  (exists p, m = code linux filter debug p) \/ (exists p, m = task_code linux subsys self tuple0 size p) \/
  exists p, m = ProbeDns.dns_code linux p.

Lemma keeps_settled L key m : keeps (weigh L key) m -> settled L key m 0.
Proof. intros Hk. eapply settles_mono; [|exact (Hk 0)]. intros a d ->. done. Qed.

(** C8: every TCP socket is announced once and its end is announced once.  Probes start
    at any time on any processor and are interleaved after any access to a map, the
    kernel answers any read of its memory and refuses any insertion; the end of a socket
    is seen by two probes that may run at the same time.  Whenever all probes that were
    started have ended, the announcements of a socket as closed, plus one if it is in the
    table, are as many as its announcements as open, or more by at most the number of
    reads that failed. *)
Theorem tcp_sessions_announced_once (s : forall t, M t) (c : config M) (sk : Z) :
  contents s tcp_open_sockets !! sk = None -> rtc (cstep is_probe) (mk_config [] s [] 0) c -> Forall finished (threads c) ->
  count (tcp_opens sk) (sent c) <= count (tcp_closes sk) (sent c) + tracked tcp_ledger sk (shared_tabs c)
    <= count (tcp_opens sk) (sent c) + failures c.
Proof.
  intros Hno Hr Hf. cut (0 <= count (tcp_closes sk) (sent c) + tracked tcp_ledger sk (shared_tabs c)
    - count (tcp_opens sk) (sent c) <= failures c); [lia|].
  apply (ledger_balanced is_probe tcp_ledger sk s c); [|done|done|done].
  intros m [[p ->]|[[p ->]|[p ->]]]; apply keeps_settled; [apply code_keeps|apply tasks_keep_tcp|apply dns_keeps; by left].
Qed.

(** The last thread of a group was seen to exit: for a task that [taskstats_exit] saw with
    its group dead, [cgroup_exit] was entered and then left by the same thread. *)
Definition last_exit_seen (P : prog unit -> Prop) : Prop :=
  exists ctx ctx' ctx'' tsk group_dead, group_dead <> 0 /\
    ProbeUdp.pid_tgid ctx'' = ProbeUdp.pid_tgid ctx' /\
    P (task_code linux subsys self tuple0 size (TaskstatsExit ctx tsk group_dead)) /\
    P (task_code linux subsys self tuple0 size (CgroupExit ctx' tsk)) /\
    P (task_code linux subsys self tuple0 size (CgroupExited ctx'')).

Lemma ends_need_deaths (P : prog unit -> Prop) (s : forall t, M t) c tg :
  (forall m, P m -> is_probe m) -> contents s dead_group_tasks = ∅ -> contents s cgroup_exit_active = ∅ ->
  rtc (cstep P) (mk_config [] s [] 0) c -> 0 < count (task_closes tg) (sent c) -> last_exit_seen P.
Proof.
  intros HP Hd Ht Hr. set (run p := P (task_code linux subsys self tuple0 size p)).
  set (D tsk := exists ctx dead, dead <> 0 /\ run (TaskstatsExit ctx tsk dead)).
  set (T pid := exists ctx tsk, ProbeUdp.pid_tgid ctx = pid /\ D tsk /\ run (CgroupExit ctx tsk)).
  assert (Hq : forall m, P m -> quiet D T (last_exit_seen P) m).
  { intros m Hm. destruct (HP m Hm) as [[p ->]|[[p ->]|[p ->]]]; [apply tcp_quiet| |apply dns_quiet].
    apply task_quiet. destruct p; [intros; by exists ctx, group_dead|intros; by exists ctx, tsk| |done..].
    intros (ctx' & tsk & Hp & (ctx0 & dead & Hdead & Hrun) & Hrun'). by exists ctx0, ctx', ctx, tsk, dead. }
  cut (dead_only D T (last_exit_seen P) c); [intros (_ & _ & He); apply He|].
  assert (H0 : dead_only D T (last_exit_seen P) (mk_config [] s [] 0)).
  { split; [|split; [done|]; cbn; lia]. split; cbn; intros k; [rewrite Hd|rewrite Ht]; by intros [? ?]. }
  clear Hd Ht. induction Hr; [done|]. eauto using cstep_dead_only.
Qed.

(** C20: the announcements of a process balance, whatever probes run ([P] says which), in
    the interleavings of the sockets above.  Whenever all probes that were started have
    ended, its announcements as ended, plus one if it is in the table, are as many as its
    announcements as started, or more by at most the number of reads that failed.  And an
    end is announced, of any process and at any time, only if the last thread of a group
    was seen to exit: with the tables of dead groups and of running exits empty at first,
    some task was seen by [taskstats_exit] with its group dead, and [cgroup_exit] was
    entered for that task and left by the same thread. *)
Theorem processes_announced_once (P : prog unit -> Prop) (s : forall t, M t) (c : config M) (tg : Z) :
  (forall m, P m -> is_probe m) -> rtc (cstep P) (mk_config [] s [] 0) c ->
  (contents s tgid_info_table !! tg = None -> Forall finished (threads c) ->
    count (task_opens tg) (sent c) <= count (task_closes tg) (sent c) + tracked task_ledger tg (shared_tabs c)
      <= count (task_opens tg) (sent c) + failures c) /\
  (contents s dead_group_tasks = ∅ -> contents s cgroup_exit_active = ∅ ->
    0 < count (task_closes tg) (sent c) -> last_exit_seen P).
Proof.
  intros HP Hr. split; [|intros Hd Ht; by apply (ends_need_deaths P s)]. intros Hno Hf.
  cut (0 <= count (task_closes tg) (sent c) + tracked task_ledger tg (shared_tabs c)
    - count (task_opens tg) (sent c) <= failures c); [lia|].
  apply (ledger_balanced P task_ledger tg s c); [|done|done|done].
  intros m Hm. destruct (HP m Hm) as [[p ->]|[[p ->]|[p ->]]]; apply keeps_settled;
    [apply tcp_keeps_tasks|apply tasks_keep_tasks|apply dns_keeps; by right].
Qed.
End together.
End AllProbes.

Module AllProbesDemo.
Import Probes ProbeTcp ProbeTask AllProbes.

Definition tables (t : table) : Type := gmap Z (value t).
#[local] Instance tables_map t : BpfMap (value t) (tables t) := ProbeUdp.bounded_map 8.
#[local] Instance tables_laws t : BpfMapLaws (value t) (tables t) := ProbeUdp.bounded_map_laws 8.
#[local] Existing Instances ProbeUdpDemo.maps ProbeUdpDemo.ports.

Definition demo_state : State (gmap Z ProbeUdp.udp_open_socket_t) (gmap Z Z) tables :=
  mk_state ProbeUdpDemo.demo_probe (fun _ => ∅).
Definition demo_memory : memory := mk_memory (fun _ _ => Got 5) (fun _ _ => Got (replicate 16 7)).
Definition demo_is_probe : prog unit -> Prop := is_probe 400000 1000 false 4 (fun x => x) (fun x => x) 56.

(** A socket is opened; then two probes see its end at the same time and take turns. *)
Definition demo_threads : list (prog unit) :=
  code 400000 1000 false <$> [InitSock ProbeUdpDemo.demo_ctx 77; SkFree ProbeUdpDemo.demo_ctx 77; SkFree ProbeUdpDemo.demo_ctx 77].
Definition demo_picks : list nat := replicate 10 0%nat ++ concat (replicate 40 [1%nat; 2%nat]).
Definition demo_run := interleave ProbeUdpDemo.demo_clock 0 (fun l => l) demo_memory demo_threads demo_state demo_picks.
Definition demo_config : config tables := mk_config demo_run.1.1 (tabs demo_run.1.2) demo_run.2 0.

Lemma demo_readable : readable demo_memory.
Proof. split; intros a f; by eexists. Qed.

Lemma demo_reachable : rtc (cstep demo_is_probe) (mk_config [] (tabs demo_state) [] 0) demo_config.
Proof.
  etrans; [apply (start_reachable demo_is_probe [] demo_threads)|].
  - apply Forall_fmap, Forall_true. intros p. left. by exists p.
  - exact (interleave_reachable ProbeUdpDemo.demo_clock 0 (fun l => l) demo_is_probe demo_memory demo_picks demo_threads
      demo_state [] 0 demo_readable).
Qed.

Lemma tcp_sessions_announced_once_witness :
  count (tcp_closes 77) (sent demo_config) = 1 /\ tracked tcp_ledger 77 (shared_tabs demo_config) = 0 /\
  1 <= count (tcp_closes 77) (sent demo_config) + tracked tcp_ledger 77 (shared_tabs demo_config) <= 1.
Proof.
  split; [vm_compute; reflexivity|]. split; [vm_compute; reflexivity|].
  apply (tcp_sessions_announced_once 400000 1000 false 4 (fun x => x) (fun x => x) 56 (tabs demo_state) demo_config 77);
    [reflexivity|exact demo_reachable|vm_compute; repeat constructor].
Defined.
(** A process is seen by two probes, then its last thread exits. *)
Definition demo_task_threads : list (prog unit) :=
  task_code 400000 4 (fun x => x) (fun x => x) 56 <$>
    [WakeUpNewTask ProbeUdpDemo.demo_ctx 9; GotPidTask ProbeUdpDemo.demo_ctx 9; TaskstatsExit ProbeUdpDemo.demo_ctx 9 1;
     CgroupExit ProbeUdpDemo.demo_ctx 9; CgroupExited ProbeUdpDemo.demo_ctx].
Definition demo_task_picks : list nat :=
  concat (replicate 20 [0%nat; 1%nat]) ++ replicate 10 2%nat ++ replicate 10 3%nat ++ replicate 10 4%nat.
Definition demo_task_run :=
  interleave ProbeUdpDemo.demo_clock 0 (fun l => l) demo_memory demo_task_threads demo_state demo_task_picks.
Definition demo_task_config : config tables := mk_config demo_task_run.1.1 (tabs demo_task_run.1.2) demo_task_run.2 0.

Definition demo_task_probe (m : prog unit) : Prop := m ∈ demo_task_threads.

Lemma demo_task_reachable : rtc (cstep demo_task_probe) (mk_config [] (tabs demo_state) [] 0) demo_task_config.
Proof.
  etrans; [apply (start_reachable demo_task_probe [] demo_task_threads)|].
  - apply Forall_forall. by intros m Hm.
  - exact (interleave_reachable ProbeUdpDemo.demo_clock 0 (fun l => l) demo_task_probe demo_memory demo_task_picks
      demo_task_threads demo_state [] 0 demo_readable).
Qed.

Lemma demo_task_is_probe m : demo_task_probe m -> demo_is_probe m.
Proof. intros (p & -> & _)%list_elem_of_fmap. right. left. by exists p. Qed.

Lemma processes_announced_once_witness :
  count (task_closes 5) (sent demo_task_config) = 1 /\
  1 <= count (task_closes 5) (sent demo_task_config) + tracked task_ledger 5 (shared_tabs demo_task_config) <= 1 /\
  last_exit_seen 400000 4 (fun x => x) (fun x => x) 56 demo_task_probe.
Proof.
  split; [vm_compute; reflexivity|].
  destruct (processes_announced_once 400000 1000 false 4 (fun x => x) (fun x => x) 56 demo_task_probe (tabs demo_state)
    demo_task_config 5 demo_task_is_probe demo_task_reachable) as [Hb Hd].
  split; [apply Hb; [reflexivity|vm_compute; repeat constructor]|].
  apply Hd; [reflexivity|reflexivity|vm_compute; reflexivity].
Defined.
End AllProbesDemo.
