(* ===== verification/TcpSystem.v ===== *)
(** The TCP probes and the TCP handlers of the poller together.

    The probes run one after the other, each on the memory the kernel has at that time;
    their messages reach the handlers in order, among any number of polls.  What the
    collector reports for a connection is compared with the counters of the kernel.

    Theorem: the bytes and retransmissions reported for a connection are the counters
    the kernel had at its end minus those it was first seen with; the two counters of
    bytes may fall short by the last two bits. *)
From S2P Require Import Prelude Pool FixedHash MetricStore Tables PollerBase PollerTcp PollerUdp Agent Poller.
From S2P Require Import ProbeUdp Probes ProbeTcp.
Open Scope result_scope.

Module TcpSystem.
Import PollerTcp Probes ProbeTcp.

(** * What the kernel counts *)

(** The counter of the kernel behind each counter of the collector; the holes are counted
    by the probes. *)
Definition field_of (c : counter) : option Field.word :=
  match c with
  | Acked => Some Field.bytes_acked
  | Retrans => Some Field.total_retrans
  | Received => Some Field.bytes_received
  | Holes => None
  end.

Definition kernel (mem : memory) (c : counter) (sk : Z) : Z :=
  match field_of c with Some f => got 0 (word_at mem sk f) | None => 0 end.

(** The counter in the last report of a connection. *)
Definition final (c : counter) (n : Z) : Z := match c with Acked | Received => adjusted true n | _ => n end.

Definition of_reset (c : counter) (m : reset_tcp_counters) : Z :=
  match c with Acked => c_bytes_acked m | Retrans => c_packets_retrans m | Received => c_bytes_received m | Holes => 0 end.

(** The messages as events of the handlers. *)
Definition events_of (out : messages) : list event := concat ((fun m => Poller.tcp_events_of m.1 m.2) <$> out).

Lemma events_of_app out out' : events_of (out ++ out') = events_of out ++ events_of out'.
Proof. unfold events_of. by rewrite fmap_app, concat_app. Qed.

Lemma events_of_silent (Q : Z * Agent.agent_msg -> Prop) out :
  (forall m, Q m -> Poller.tcp_events_of m.1 m.2 = []) -> Forall Q out -> events_of out = [].
Proof. intros HQ. induction 1 as [|m out Hm _ IH]; [done|]. unfold events_of in *. cbn. by rewrite HQ, IH. Qed.

Lemma is_log_silent m : is_log m -> Poller.tcp_events_of m.1 m.2 = [].
Proof. destruct m as [t m]. unfold is_log. cbn. by destruct m. Qed.
Lemma is_udp_silent m : is_udp m -> Poller.tcp_events_of m.1 m.2 = [].
Proof. destruct m as [t m]. unfold is_udp. cbn. by destruct m. Qed.

(** * What a probe does to the sockets it tracks

    [T] are the tracked sockets; at most [cap] of them fit. *)
Inductive action (cap : Z) (mem : memory) : gset Z -> list event -> gset Z -> Prop :=
  | act_new T t pid sk :
      sk ∉ T -> Z.of_nat (size T) < cap -> action cap mem T [New t pid sk] ({[sk]} ∪ T)
  | act_reset T t m :
      c_sk m ∉ T -> Z.of_nat (size T) < cap ->
      (forall c, c <> Holes -> of_reset c m = kernel mem c (c_sk m)) ->
      action cap mem T [Reset t m] ({[c_sk m]} ∪ T)
  | act_rtt T t m :
      r_sk m ∈ T -> (forall c, c <> Holes -> of_entry c (r_counters m) = kernel mem c (r_sk m)) ->
      action cap mem T [Rtt t m] T
  | act_close T t m :
      r_sk m ∈ T -> (forall c, c <> Holes -> of_entry c (r_counters m) = final c (kernel mem c (r_sk m))) ->
      action cap mem T [Rtt t m; Close t (r_sk m)] (T ∖ {[r_sk m]}).

Inductive actions (cap : Z) (mem : memory) : gset Z -> list event -> gset Z -> Prop :=
  | acts_nil T : actions cap mem T [] T
  | acts_cons T E T1 E' T2 : action cap mem T E T1 -> actions cap mem T1 E' T2 -> actions cap mem T (E ++ E') T2.

Lemma actions_one cap mem T E T' : action cap mem T E T' -> actions cap mem T E T'.
Proof. intros Ha. rewrite <- (app_nil_r E). eapply acts_cons; [exact Ha|constructor]. Qed.

Lemma actions_app cap mem T E T1 E' T2 :
  actions cap mem T E T1 -> actions cap mem T1 E' T2 -> actions cap mem T (E ++ E') T2.
Proof.
  induction 1 as [|T E0 T0 E1 T1 Ha _ IH]; intros H2; [done|]. rewrite <- app_assoc. eapply acts_cons; [exact Ha|by apply IH].
Qed.

Section probes.
Context {MS MP : Type} {M : table -> Type}.
Context `{BpfMap ProbeUdp.udp_open_socket_t MS} `{BpfMap Z MP}.
Context {HM : forall t, BpfMap (value t) (M t)} {HL : forall t, BpfMapLaws (value t) (M t)}.
Context (clock : nat -> Z) (boot : Z) (fileline : Z -> Z) (linux filter : Z) (debug : bool).
(** The map of sockets refuses an entry beyond its size. *)
Context (cap : Z).
Context (Hroom : forall (m : M tcp_open_sockets) k v, (bm_insert m k v).2 = 0 -> Z.of_nat (size (bm_contents m)) < cap).
#[local] Abbreviation state := (State MS MP M).

Definition socks (s : state) : gset Z := dom (contents (tabs s) tcp_open_sockets).

Section one.
Context (mem : memory) (Hmem : readable mem).
#[local] Abbreviation exec := (exec (MS := MS) (MP := MP) (M := M) clock boot fileline mem).

#[local] Abbreviation yields := (Probes.yields (MS := MS) (MP := MP) (M := M) clock boot fileline mem).

(** ** Programs without effect on the sockets *)

Definition calm {A} (m : prog A) : Prop :=
  forall s, yields m s (fun _ s' out => socks s' = socks s /\ events_of out = []).

Lemma calm_ret {A} (a : A) : calm (Ret a).
Proof. done. Qed.

Lemma calm_bind {A B} (m : prog A) (f : A -> prog B) : calm m -> (forall a, calm (f a)) -> calm (bind m f).
Proof.
  intros Hm Hf s. apply prog_yields_bind. eapply prog_yields_mono; [apply Hm|]. intros a s1 o1 [Hs1 Ho1].
  eapply prog_yields_mono; [apply Hf|]. intros b s2 o2 [Hs2 Ho2]. rewrite events_of_app, Ho1, Ho2, Hs2. done.
Qed.

(** The operations that neither change the table of sockets nor send about it. *)
Definition calm_op (o : op) : Prop :=
  match o with
  | Submit t m => Poller.tcp_events_of t m = []
  | Insert t _ _ | Delete t _ => t <> tcp_open_sockets
  | _ => True
  end.

Lemma socks_same (s s' : state) : tabs s' = tabs s -> socks s' = socks s.
Proof. intros Ht. unfold socks. by rewrite Ht. Qed.

Lemma socks_other (s s' : state) t (m : M t) :
  t <> tcp_open_sockets -> tabs s' = set_tab t m (tabs s) -> socks s' = socks s.
Proof. intros Hne Ht. unfold socks, contents. by rewrite Ht, set_tab_ne. Qed.

Lemma calm_act o : calm_op o -> calm (act o).
Proof.
  intros Ho s. apply yields_act. intros x s' out Ha.
  pose proof (socks_same s s') as Hsame.
  destruct o; cbn in *; try (destruct Ha as [Ht ->]; by auto).
  - destruct Ha as [Ht ->]. split; [auto|]. unfold events_of. cbn. by rewrite Ho.
  - destruct Ha as [Ht Hl]. split; [auto|]. eapply events_of_silent; [apply is_log_silent|done].
  - destruct Ha as (Ht & -> & _). auto.
  - destruct Ha as (Ht & -> & _). auto.
  - destruct Ha as (-> & Hoth & Hw). split; [|done]. unfold socks. destruct (decide (tcp_open_sockets = t)) as [<-|Hne].
    + destruct (contents (tabs s) tcp_open_sockets !! k) eqn:Hk; [|done]. rewrite Hw. apply dom_insert_lookup_L. eauto.
    + by rewrite Hoth.
  - destruct Ha as (-> & _ & Ht). split; [by eapply socks_other|done].
  - destruct Ha as (-> & _ & Ht). split; [by eapply socks_other|done].
  - destruct Ha as [Ht Hl]. split; [auto|]. eapply events_of_silent; [apply is_udp_silent|done].
Qed.

Lemma field_calm a f : calm (field a f).
Proof. apply calm_bind; [by apply calm_act|]. intros. apply calm_ret. Qed.
Lemma address_calm a f : calm (address a f).
Proof. apply calm_bind; [by apply calm_act|]. intros. apply calm_ret. Qed.
Lemma log_calm line ctx code a0 a1 a2 : calm (bpf_log line ctx code a0 a1 a2).
Proof. by apply (calm_act (Log line ctx code a0 a1 a2)). Qed.
Lemma now_calm : calm get_timestamp.
Proof. by apply (calm_act Now). Qed.
Lemma submit_calm t m : Poller.tcp_events_of t m = [] -> calm (submit t m).
Proof. intros Hm. by apply (calm_act (Submit t m)). Qed.
Lemma pid_calm line ctx : calm (GET_PID_TGID line ctx).
Proof. unfold GET_PID_TGID. destruct (no_process ctx); [apply log_calm|apply calm_ret]. Qed.
Lemma read_or_calm {A} line ctx a f (other : A) (k : Z -> prog A) : (forall v, calm (k v)) -> calm (read_or line ctx a f other k).
Proof.
  intros Hk. apply calm_bind; [by apply (calm_act (Read a f))|]. intros [v|err]; [apply Hk|]. apply calm_bind; [apply log_calm|].
  intros. apply calm_ret.
Qed.
Lemma args_calm t ctx v : t <> tcp_open_sockets -> calm (SAVE_ARGS t ctx v).
Proof. intros Ht. apply calm_bind; [by apply calm_act|]. intros. apply calm_ret. Qed.
Lemma delete_args_calm t ctx : t <> tcp_open_sockets -> calm (DELETE_ARGS t ctx).
Proof. intros Ht. apply calm_bind; [by apply calm_act|]. intros. apply calm_ret. Qed.

Create HintDb calm discriminated.
#[local] Hint Resolve calm_ret field_calm address_calm log_calm now_calm pid_calm : calm.
#[local] Hint Extern 1 (calm (submit _ _)) => by apply submit_calm : calm.
#[local] Hint Extern 1 (calm (act _)) => by apply calm_act : calm.
#[local] Hint Extern 1 (calm (SAVE_ARGS _ _ _)) => by apply args_calm : calm.
#[local] Hint Extern 1 (calm (DELETE_ARGS _ _)) => by apply delete_args_calm : calm.

Ltac calming :=
  repeat first
    [ solve [auto with calm]
    | match goal with
      | |- calm (read_or _ _ _ _ _ _) => apply read_or_calm; intros ?
      | |- calm (bind _ _) => apply calm_bind; [|intros ?]
      | |- calm (if ?b then _ else _) => destruct b
      | |- calm (match ?x with _ => _ end) => destruct x
      end ].

Lemma in_flight_calm sk : calm (packets_in_flight_helper sk).
Proof. unfold packets_in_flight_helper. calming. Qed.
Lemma delivered_calm sk : calm (tcp_get_delivered linux sk).
Proof. unfold tcp_get_delivered. calming. Qed.
Lemma deref_calm p : calm (deref p).
Proof. unfold deref. calming. Qed.
Lemma write_calm p f : calm (write p f).
Proof. unfold write. calming. Qed.
Lemma increment_calm sk get set : calm (increment sk get set).
Proof. unfold increment, deref, write. calming. Qed.
Lemma state4_calm now tx_rx sk : calm (send_state_ipv4 now tx_rx sk).
Proof. unfold send_state_ipv4. calming. Qed.
Lemma state6_calm now tx_rx sk : calm (send_state_ipv6 now tx_rx sk).
Proof. unfold send_state_ipv6. calming. Qed.
#[local] Hint Resolve in_flight_calm delivered_calm deref_calm write_calm increment_calm state4_calm state6_calm : calm.
Lemma set_state4_calm ctx now tx_rx sk : calm (submit_set_state_ipv4 ctx now tx_rx sk).
Proof. unfold submit_set_state_ipv4. calming. Qed.
Lemma set_state6_calm ctx now tx_rx sk : calm (submit_set_state_ipv6 ctx now tx_rx sk).
Proof. unfold submit_set_state_ipv6. calming. Qed.
#[local] Hint Resolve set_state4_calm set_state6_calm : calm.
Lemma submit_state_calm line ctx family now tx_rx sk : calm (submit_state line ctx family now tx_rx sk).
Proof. unfold submit_state. calming. Qed.
Lemma syn_timeout_calm sk : calm (handle_syn_timeout sk).
Proof. unfold handle_syn_timeout. calming. Qed.
#[local] Hint Resolve submit_state_calm syn_timeout_calm : calm.

(** ** Programs that act on the sockets *)

Lemma yields_calm {A B} (m : prog A) (f : A -> prog B) (s : state) (Φ : B -> state -> messages -> Prop) :
  calm m ->
  (forall a s1 o1, socks s1 = socks s -> events_of o1 = [] -> yields (f a) s1 (fun b s2 o2 => Φ b s2 (o1 ++ o2))) ->
  yields (bind m f) s Φ.
Proof. intros Hm Hf. apply prog_yields_bind. eapply prog_yields_mono; [apply Hm|]. intros a s1 o1 [Hs Ho]. by apply Hf. Qed.

Lemma yields_readable {A} line ctx a f (other : A) (k : Z -> prog A) (s : state) (Φ : A -> state -> messages -> Prop) :
  yields (k (got 0 (word_at mem a f))) s Φ -> yields (read_or line ctx a f other k) s Φ.
Proof. destruct (proj1 Hmem a f) as [v Hv]. rewrite Hv. by apply yields_read_or. Qed.

(** What a report carries. *)
Definition carries (adjust : bool) (sk : Z) (m : rtt_estimator) : Prop :=
  r_sk m = sk /\
  forall c, c <> Holes -> of_entry c (r_counters m) = (if adjust then final c else fun n => n) (kernel mem c sk).

Lemma report_yields ctx sk p now adjust (s : state) :
  yields (report_rtt_estimator linux ctx sk p now adjust) s (fun _ s' out =>
    socks s' = socks s /\ exists m, events_of out = [Rtt now m] /\ carries adjust sk m).
Proof.
  unfold report_rtt_estimator. apply yields_calm; [auto with calm|]. intros p' s1 o1 Hs1 Ho1.
  apply yields_calm; [auto with calm|]. intros rtt s2 o2 Hs2 Ho2. do 6 apply yields_readable.
  apply yields_calm; [auto with calm|]. intros fl s3 o3 Hs3 Ho3. apply yields_calm; [auto with calm|]. intros dl s4 o4 Hs4 Ho4.
  apply yields_calm; [auto with calm|]. intros info s5 o5 Hs5 Ho5. apply (yields_act clock boot fileline mem (Submit now _)). intros x s6 o6 [Ht ->].
  split; [rewrite (socks_same s5 s6 Ht); congruence|]. eexists. split.
  - rewrite !events_of_app, Ho1, Ho2, Ho3, Ho4, Ho5. done.
  - split; [done|]. intros c Hc. by destruct c, adjust.
Qed.

Definition acted (s s' : state) (out : messages) : Prop := actions cap mem (socks s) (events_of out) (socks s').

Definition works {A} (m : prog A) : Prop := forall s, yields m s (fun _ => acted s).

(** The same for a socket that is tracked. *)
Definition works_on (sk : Z) {A} (m : prog A) : Prop := forall s, sk ∈ socks s -> yields m s (fun _ => acted s).

Lemma acted_calm (s s' : state) out : socks s' = socks s -> events_of out = [] -> acted s s' out.
Proof. intros Hs Ho. unfold acted. rewrite Hs, Ho. constructor. Qed.

Lemma calm_works {A} (m : prog A) : calm m -> works m.
Proof. intros Hm s. eapply prog_yields_mono; [apply Hm|]. intros a s' out [Hs Ho]. by apply acted_calm. Qed.

Lemma acted_trans (s s1 s2 : state) o1 o2 : acted s s1 o1 -> acted s1 s2 o2 -> acted s s2 (o1 ++ o2).
Proof. unfold acted. rewrite events_of_app. apply actions_app. Qed.

Lemma works_bind {A B} (m : prog A) (f : A -> prog B) : works m -> (forall a, works (f a)) -> works (bind m f).
Proof.
  intros Hm Hf s. apply prog_yields_bind. eapply prog_yields_mono; [apply Hm|]. intros a s1 o1 H1.
  eapply prog_yields_mono; [apply Hf|]. intros b s2 o2 H2. exact (acted_trans _ _ _ _ _ H1 H2).
Qed.

Lemma works_on_bind {A B} sk (m : prog A) (f : A -> prog B) :
  calm m -> (forall a, works_on sk (f a)) -> works_on sk (bind m f).
Proof.
  intros Hm Hf s Hsk. apply yields_calm; [done|]. intros a s1 o1 Hs1 Ho1. eapply prog_yields_mono; [apply Hf; by rewrite Hs1|].
  intros b s2 o2 H2. exact (acted_trans _ _ _ _ _ (acted_calm _ _ _ Hs1 Ho1) H2).
Qed.

Lemma works_works_on {A} sk (m : prog A) : works m -> works_on sk m.
Proof. intros Hm s _. apply Hm. Qed.

(** A probe that looks the socket up first. *)
Lemma lookup_works (sk : Z) (m other : prog unit) :
  works other -> works_on sk m ->
  works (bind (act (Lookup tcp_open_sockets sk)) (fun found : bool => if negb found then other else m)).
Proof.
  intros Hother Hm s. apply prog_yields_bind. apply (yields_act clock boot fileline mem (Lookup tcp_open_sockets sk)). intros x s1 o1 (Ht & -> & ->).
  pose proof (socks_same s s1 Ht) as Hs. cbn [app].
  destruct (bool_decide_reflect (is_Some (contents (tabs s) tcp_open_sockets !! sk))) as [Hin|Hno]; cbn [negb].
  - eapply prog_yields_mono; [apply Hm; rewrite Hs; by apply elem_of_dom|]. intros b s2 o2 H2. unfold acted in *. by rewrite <- Hs.
  - eapply prog_yields_mono; [apply Hother|]. intros b s2 o2 H2. unfold acted in *. by rewrite <- Hs.
Qed.

Lemma report_works ctx sk p now : works_on sk (report_rtt_estimator linux ctx sk p now false).
Proof.
  intros s Hsk. eapply prog_yields_mono; [apply report_yields|]. intros u s' out (Hs & m & Ho & Hm1 & Hm2). unfold acted.
  rewrite Hs, Ho. apply actions_one. apply act_rtt; rewrite Hm1; [done|]. exact Hm2.
Qed.

Lemma if_time_works ctx sk : works_on sk (report_rtt_estimator_if_time linux filter ctx sk).
Proof.
  unfold report_rtt_estimator_if_time. apply works_on_bind; [auto with calm|]. intros now.
  apply works_on_bind; [auto with calm|]. intros info. destruct (_ <? _); [by apply works_works_on, calm_works, calm_ret|].
  apply report_works.
Qed.

(** A socket leaves the table. *)
Definition closed (sk : Z) (s s' : state) (out : messages) : Prop :=
  socks s' = socks s ∖ {[sk]} /\ exists t m, events_of out = [Rtt t m; Close t sk] /\ carries true sk m.

Lemma closed_calm (sk : Z) (s s1 s2 : state) o1 o2 :
  socks s1 = socks s -> events_of o1 = [] -> closed sk s1 s2 o2 -> closed sk s s2 (o1 ++ o2).
Proof. intros Hs Ho. unfold closed. by rewrite events_of_app, Ho, Hs. Qed.

Definition remove_found (ctx : context) (sk : Z) : prog unit :=
  (do* sk_info := act (Deref tcp_open_sockets sk) in
   do* r := act (Delete tcp_open_sockets sk) in
   if negb (r =? 0) then Ret tt
   else
     do* now := get_timestamp in
     do* _ := report_rtt_estimator linux ctx sk (Copy sk_info) now true in
     submit now (Agent.close_sock_info sk))%prog.

Lemma remove_found_yields ctx sk (s : state) : sk ∈ socks s -> yields (remove_found ctx sk) s (fun _ => closed sk s).
Proof.
  intros Hsk. apply yields_calm; [auto with calm|]. intros info s0 o0 Hs0 Ho0. apply prog_yields_bind.
  apply (yields_act clock boot fileline mem (Delete tcp_open_sockets sk)). intros x s1 o1 (-> & -> & Ht). cbn [app].
  assert (Hin : is_Some (contents (tabs s0) tcp_open_sockets !! sk)) by (apply elem_of_dom; fold (socks s0); by rewrite Hs0).
  destruct (bm_delete_spec (tabs s0 tcp_open_sockets) sk) as [(_ & -> & Hc)|[Hno _]].
  2:{ unfold contents in Hin. rewrite Hno in Hin. by destruct Hin. }
  cbn [negb Z.eqb]. assert (Hs1 : socks s1 = socks s0 ∖ {[sk]}).
  { unfold socks, contents. rewrite Ht, set_tab_eq, Hc. apply dom_delete_L. }
  apply yields_calm; [auto with calm|]. intros now s2 o2 Hs2 Ho2. apply prog_yields_bind.
  eapply prog_yields_mono; [apply report_yields|]. intros u s3 o3 (Hs3 & m & Ho3 & Hm).
  apply (yields_act clock boot fileline mem (Submit now _)). intros y s4 o4 [Ht4 ->]. split.
  - rewrite (socks_same s3 s4 Ht4). congruence.
  - exists now, m. rewrite !events_of_app, Ho0, Ho2, Ho3. done.
Qed.

Lemma prog_remove_yields ctx sk (s : state) :
  sk ∈ socks s -> yields (remove_open_socket linux ctx sk) s (fun _ => closed sk s).
Proof.
  intros Hsk. assert (Hl : forall (s : state) (f : bool -> prog unit) Φ, sk ∈ socks s ->
    (forall s1, socks s1 = socks s -> yields (f true) s1 Φ) -> yields (bind (act (Lookup tcp_open_sockets sk)) f) s Φ).
  { intros s0 f Φ Hin Hf. apply prog_yields_bind. apply (yields_act clock boot fileline mem (Lookup tcp_open_sockets sk)). intros x s1 o1 (Ht & -> & ->).
    cbn [app]. rewrite bool_decide_true by (apply elem_of_dom; exact Hin). apply Hf. by apply socks_same. }
  unfold remove_open_socket. apply Hl; [done|]. intros s1 Hs1. apply Hl; [by rewrite Hs1|]. intros s2 Hs2.
  eapply prog_yields_mono; [apply (remove_found_yields ctx sk s2); rewrite Hs2, Hs1; done|]. intros u s3 out Hc.
  unfold closed in *. by rewrite <- Hs1, <- Hs2.
Qed.

Lemma remove_works_on ctx sk : works_on sk (remove_found ctx sk).
Proof.
  intros s Hsk. eapply prog_yields_mono; [by apply remove_found_yields|]. intros u s' out (Hs & t & m & Ho & Hm1 & Hm2).
  unfold acted. rewrite Hs, Ho, <- Hm1. apply actions_one. apply act_close; rewrite Hm1; [done|]. exact Hm2.
Qed.

Lemma remove_works ctx sk : works (remove_tcp_open_socket linux ctx sk).
Proof. apply lookup_works; [by apply calm_works, calm_ret|]. apply remove_works_on. Qed.

(** A socket enters the table. *)
Lemma prog_add_yields ctx sk tg par (s : state) :
  yields (add_tcp_open_socket ctx sk tg par) s (fun r s' out =>
    events_of out = [] /\
    ((r = 1 /\ (sk ∉ socks s) /\ Z.of_nat (size (socks s)) < cap /\ socks s' = {[sk]} ∪ socks s) \/
     (r <> 1 /\ socks s' = socks s))).
Proof.
  unfold add_tcp_open_socket. apply yields_readable. set (v := mk_open _ _ _ _ _ _). apply prog_yields_bind.
  apply (yields_act clock boot fileline mem (Insert tcp_open_sockets sk v)). intros r s1 o1 (-> & Hr & Ht). cbn [app].
  assert (Hlog : forall line c x y z, socks s1 = socks s -> yields (bind (bpf_log line ctx c x y z) (fun _ => Ret (-1))) s1
    (fun r s' out => events_of out = [] /\
      ((r = 1 /\ (sk ∉ socks s) /\ Z.of_nat (size (socks s)) < cap /\ socks s' = {[sk]} ∪ socks s) \/
       (r <> 1 /\ socks s' = socks s)))).
  { intros line c x y z Hs. apply yields_calm; [auto with calm|]. intros u s2 o2 Hs2 Ho2. unfold yields. cbn.
    rewrite app_nil_r. split; [done|]. right. split; [done|congruence]. }
  pose proof (Hroom (tabs s tcp_open_sockets) sk v) as Hroom'.
  destruct (bm_insert_spec (V := value tcp_open_sockets) (tabs s tcp_open_sockets) sk v) as [(Hn & Hz & Hc)|[Hz Hc]]; rewrite <- Hr in *.
  - rewrite Hz. change (is_full 0) with false. change (0 =? - EEXIST) with false. unfold yields. cbn. split; [done|]. left. split; [done|]. split; [|split].
    + unfold socks, contents. by rewrite not_elem_of_dom.
    + unfold socks, contents. rewrite size_dom. by apply Hroom'.
    + unfold socks, contents. rewrite Ht, set_tab_eq, Hc. apply dom_insert_L.
  - assert (Hs : socks s1 = socks s) by (unfold socks, contents; by rewrite Ht, set_tab_eq, Hc).
    destruct (is_full r); [by apply Hlog|]. destruct (r =? - EEXIST); [unfold yields; cbn; split; [done|]; by right|].
    destruct (Z.eqb_spec r 0); [done|]. by apply Hlog.
Qed.

Lemma reset_yields ctx now pid sk (s : state) :
  yields (submit_reset_tcp_counters linux ctx now pid sk) s (fun _ s' out =>
    socks s' = socks s /\ exists m, events_of out = [Reset now m] /\ c_sk m = sk /\
      forall c, c <> Holes -> of_reset c m = kernel mem c sk).
Proof.
  unfold submit_reset_tcp_counters. do 3 apply yields_readable. apply yields_calm; [auto with calm|]. intros dl s1 o1 Hs1 Ho1.
  apply (yields_act clock boot fileline mem (Submit now _)). intros x s2 o2 [Ht ->]. split; [rewrite (socks_same s1 s2 Ht); congruence|].
  eexists. split; [rewrite events_of_app, Ho1; done|]. split; [done|]. intros c Hc. by destruct c.
Qed.

Lemma ensure_works ctx sk pid : works (ensure_tcp_existing linux ctx sk pid).
Proof.
  unfold ensure_tcp_existing. apply works_bind; [apply calm_works; unfold is_inet; calming|]. intros inet.
  destruct (negb inet); [apply calm_works, calm_ret|]. apply works_bind; [apply calm_works; auto with calm|]. intros now.
  apply works_bind; [apply calm_works; auto with calm|]. intros st s. apply prog_yields_bind.
  eapply prog_yields_mono; [apply prog_add_yields|]. intros r s1 o1 (Ho1 & [(-> & Hno & Hlt & Hs1)|[Hr Hs1]]).
  - cbn [Z.eqb Pos.eqb]. apply prog_yields_bind. eapply prog_yields_mono; [apply reset_yields|].
    intros u s2 o2 (Hs2 & m & Ho2 & Hm1 & Hm2).
    eapply prog_yields_mono; [apply (calm_bind (field sk Field.sk_family)); [auto with calm|intros family; calming]|].
    intros b s3 o3 [Hs3 Ho3]. unfold acted. rewrite !events_of_app, Ho1, Ho2, Ho3, Hs3, Hs2, Hs1. cbn [app].
    apply actions_one. rewrite <- Hm1. apply act_reset; rewrite ?Hm1; done.
  - destruct (Z.eqb_spec r 1); [done|]. unfold yields. cbn. rewrite app_nil_r. by apply acted_calm.
Qed.

(** A socket that is added, and announced as new if it was. *)
Definition announces (now pid sk : Z) (m : prog unit) : Prop :=
  forall s, yields m s (fun _ s' out => socks s' = socks s /\ events_of out = [New now pid sk]).

Lemma announces_submit now pid sk : announces now pid sk (submit now (Agent.new_sock_created pid sk)).
Proof. intros s. apply (yields_act clock boot fileline mem (Submit now _)). intros x s' out [Ht ->]. split; [by apply socks_same|done]. Qed.

Lemma announces_bind now pid sk m (f : unit -> prog unit) :
  announces now pid sk m -> (forall u, calm (f u)) -> announces now pid sk (bind m f).
Proof.
  intros Hm Hf s. apply prog_yields_bind. eapply prog_yields_mono; [apply Hm|]. intros u s1 o1 [Hs1 Ho1].
  eapply prog_yields_mono; [apply Hf|]. intros b s2 o2 [Hs2 Ho2]. rewrite events_of_app, Ho1, Ho2. split; [congruence|done].
Qed.

Lemma add_works ctx sk tg par now pid (f : Z -> prog unit) :
  announces now pid sk (f 1) -> (forall r, r <> 1 -> calm (f r)) -> works (bind (add_tcp_open_socket ctx sk tg par) f).
Proof.
  intros Hnew Hother s. apply prog_yields_bind. eapply prog_yields_mono; [apply prog_add_yields|].
  intros r s1 o1 (Ho1 & [(-> & Hno & Hlt & Hs1)|[Hr Hs1]]).
  - eapply prog_yields_mono; [apply Hnew|]. intros b s2 o2 [Hs2 Ho2]. unfold acted. rewrite events_of_app, Ho1, Ho2, Hs2, Hs1.
    apply actions_one. by apply act_new.
  - eapply prog_yields_mono; [by apply Hother|]. intros b s2 o2 [Hs2 Ho2].
    apply acted_calm; [congruence|]. by rewrite events_of_app, Ho1, Ho2.
Qed.

Create HintDb works discriminated.
#[local] Hint Resolve ensure_works remove_works : works.

(** Through the structure of a program, down to the parts that are known. *)
Ltac working :=
  repeat first
    [ solve [auto with works]
    | solve [apply calm_works; calming]
    | match goal with
      | |- works (bind _ _) => apply works_bind; [|intros ?]
      | |- works (if ?b then _ else _) => destruct b
      | |- works (match ?x with _ => _ end) => destruct x
      end ].

Lemma found_works ctx sk : works (tcp_found linux ctx sk).
Proof. unfold tcp_found, tcp_existing_hack. working. Qed.
Lemma lifetime_works ctx sk : works (tcp_lifetime_hack linux debug ctx sk).
Proof. unfold tcp_lifetime_hack. working. Qed.
Lemma remove_open_works ctx sk : works (remove_open_socket linux ctx sk).
Proof. unfold remove_open_socket. working. by apply calm_works, (calm_act (RemoveUdp sk)). Qed.
#[local] Hint Resolve found_works lifetime_works remove_open_works : works.

Lemma init_works ctx sk : works (on_tcp_init_sock linux debug ctx sk).
Proof.
  unfold on_tcp_init_sock. do 3 (apply works_bind; [working|intros ?]). eapply add_works; [apply announces_submit|].
  intros r Hr. destruct (Z.eqb_spec r 1); [done|]. calming.
Qed.

Lemma accepted_works ctx newsk : works (onret_inet_csk_accept linux debug ctx newsk).
Proof.
  unfold onret_inet_csk_accept. apply works_bind; [working|intros _]. destruct (newsk =? 0); [working|].
  apply works_bind; [working|intros family]. destruct (_ && _); [working|]. apply works_bind; [working|intros saved].
  destruct (negb saved); [working|]. do 3 (apply works_bind; [working|intros ?]).
  eapply add_works; [apply announces_bind; [apply announces_submit|]; intros u; calming|].
  intros r Hr. destruct (Z.eqb_spec r 1); [done|]. calming.
Qed.

Lemma established_works ctx sk : works (on_tcp_rcv_established linux filter ctx sk).
Proof.
  unfold on_tcp_rcv_established. apply lookup_works; [apply calm_works, calm_ret|]. intros s Hsk. apply yields_readable.
  revert s Hsk. apply works_on_bind; [auto with calm|]. intros info. destruct (negb _); [|by apply works_works_on, calm_works, calm_ret].
  do 3 (apply works_on_bind; [auto with calm|intros ?]). apply if_time_works.
Qed.

Lemma data_recv_works ctx sk : works (on_tcp_event_data_recv linux filter ctx sk).
Proof.
  unfold on_tcp_event_data_recv. apply lookup_works; [apply calm_works, calm_ret|]. intros s Hsk. apply yields_readable.
  revert s Hsk. do 2 (apply works_on_bind; [auto with calm|intros ?]). apply if_time_works.
Qed.

Lemma rtt_works ctx sk : works (on_tcp_rtt_estimator linux filter ctx sk).
Proof.
  unfold on_tcp_rtt_estimator. apply works_bind; [working|intros st]. destruct (negb _); [working|].
  apply lookup_works; [apply calm_works, calm_ret|]. apply if_time_works.
Qed.
#[local] Hint Resolve init_works accepted_works established_works data_recv_works rtt_works : works.

Lemma code_works p : works (code linux filter debug p).
Proof.
  destruct p; cbn [code]; unfold on_tcp_connect, on_inet_csk_listen_start, on_inet_csk_accept, on_tcp46_seq_show,
    on_security_sk_free, on_inet_release, onret_inet_release, on_tcp_retransmit_timer, on_tcp_syn_ack_timeout, on_tcp_reset,
    on_tcp_send_active_reset, handle_tcp_reset; working.
Qed.
End one.

(** The probes that end the life of a socket: it is freed, or its release returns. *)
Definition ends (s : state) (p : tcp_probe) (sk : Z) : Prop :=
  match p with
  | SkFree _ sk' => sk' = sk
  | Released ctx => sk <> 0 /\ contents (tabs s) inet_release_active !! ProbeUdp.pid_tgid ctx = Some sk
  | _ => False
  end.

Lemma ends_yields mem (Hmem : readable mem) (s : state) p sk :
  ends s p sk -> sk ∈ socks s -> yields clock boot fileline mem (code linux filter debug p) s (fun _ => closed mem sk s).
Proof.
  destruct p; cbn [ends]; try done; cbn [code].
  { intros -> Hsk. by apply prog_remove_yields. }
  intros [Hnz Hsaved] Hsk. unfold onret_inet_release. apply prog_yields_bind.
  apply prog_yields_mono with (Φ := fun _ s1 o1 => tabs s1 = tabs s /\ events_of o1 = []).
  { unfold GET_PID_TGID. destruct (no_process ctx); [|done]. apply (yields_act clock boot fileline mem (Log _ _ _ _ _ _)). intros x s1 o1 [Ht Hl].
    split; [done|]. eapply events_of_silent; [apply is_log_silent|done]. }
  intros u s1 o1 [Ht1 Ho1]. apply prog_yields_bind. apply (yields_act clock boot fileline mem (Lookup inet_release_active _)).
  intros x s2 o2 (Ht2 & -> & ->). rewrite Ht1, bool_decide_true by eauto. cbn [negb app]. apply prog_yields_bind.
  apply (yields_act clock boot fileline mem (Deref inet_release_active _)). intros y s3 o3 (Ht3 & -> & Hy). rewrite Ht2, Ht1 in Hy.
  rewrite (Hy sk Hsaved). cbn [app]. apply prog_yields_bind. eapply prog_yields_mono; [by apply delete_args_calm|].
  intros u' s4 o4 [Hs4 Ho4]. destruct (Z.eqb_spec sk 0); [done|]. cbn [negb].
  assert (Hs : socks s4 = socks s) by (rewrite Hs4; apply socks_same; congruence).
  eapply prog_yields_mono; [apply prog_remove_yields; [done|by rewrite Hs]|]. intros b s5 o5 Hc.
  rewrite app_assoc. eapply closed_calm; [exact Hs| |exact Hc]. by rewrite events_of_app, Ho1, Ho4.
Qed.

(** ** Histories of probes *)

Definition run_probes (evs : list (memory * tcp_probe)) (s : state) : state * messages :=
  exec_all clock boot fileline ((fun e => (e.1, code linux filter debug e.2)) <$> evs) s.

Lemma run_probes_cons mem p evs (s : state) :
  run_probes ((mem, p) :: evs) s =
  let r := exec clock boot fileline mem (code linux filter debug p) s in
  let r' := run_probes evs r.1.2 in (r'.1, r.2 ++ r'.2).
Proof.
  unfold run_probes. cbn. destruct (exec clock boot fileline mem _ s) as [[u s1] o1]. cbn.
  by destruct (exec_all clock boot fileline _ s1).
Qed.
End probes.

(** * What the handlers make of it *)

Lemma kernel_reset c m : c <> Holes -> of_reset c m =
  of_entry c (mk_entry (c_bytes_acked m) (c_packets_delivered m) (c_packets_retrans m) (c_bytes_received m) 0 0).
Proof. by destruct c. Qed.

Lemma ref_open_new cap (open : gmap Z tcp_socket_entry) sk e :
  sk ∉ dom open -> Z.of_nat (size (dom open)) < cap -> ref_open cap open sk e = <[sk := e]> open.
Proof.
  intros Hno Hlt. unfold ref_open. rewrite decide_False; [done|]. rewrite size_dom in Hlt. rewrite not_elem_of_dom in Hno.
  rewrite Hno. intros [?|[? ?]]; [lia|done].
Qed.

Lemma action_dom cap mem T E T' (open : gmap Z tcp_socket_entry) :
  action cap mem T E T' -> dom open = T -> dom (ref_run cap open E) = T'.
Proof.
  intros Ha Hd. destruct Ha as [T t pid sk Hno Hlt|T t m Hno Hlt _|T t m Hin _|T t m Hin _]; subst T; cbn.
  - rewrite ref_open_new by done. apply dom_insert_L.
  - rewrite ref_open_new by done. apply dom_insert_L.
  - pose proof Hin as Hin'. apply elem_of_dom in Hin' as [e He]. rewrite He. apply dom_insert_lookup_L. eauto.
  - pose proof Hin as Hin'. apply elem_of_dom in Hin' as [e He]. rewrite He. rewrite dom_delete_L. f_equal. apply dom_insert_lookup_L. eauto.
Qed.

(** The first announcement of a socket. *)
Fixpoint first_open (sk : Z) (E : list event) : option tcp_socket_entry :=
  match E with
  | [] => None
  | ev :: E =>
      match opens ev with
      | Some (sk', e) => if sk' =? sk then Some e else first_open sk E
      | None => first_open sk E
      end
  end.

Lemma first_open_app sk E E' :
  first_open sk (E ++ E') = match first_open sk E with Some e => Some e | None => first_open sk E' end.
Proof. induction E as [|ev E IH]; cbn; [done|]. destruct (opens ev) as [[sk' e]|]; [destruct (sk' =? sk)|]; done. Qed.

(** A socket through the events [E]: not seen, or seen and observed up to the counter [n],
    which the kernel had reached. *)
Definition followed (cap : Z) (c : counter) (sk : Z) (open : gmap Z tcp_socket_entry) (E : list event) (n : Z) : Prop :=
  match ref_run cap open E !! sk with
  | None => first_open sk E = None /\ observed cap c sk open E = 0
  | Some e => exists b, first_open sk E = Some b /\ observed cap c sk open E = of_entry c e - of_entry c b /\
      0 <= of_entry c e <= n
  end.

Lemma followed_same cap c sk open E A n k :
  followed cap c sk open E n -> n <= k ->
  ref_run cap (ref_run cap open E) A !! sk = ref_run cap open E !! sk ->
  observed cap c sk (ref_run cap open E) A = 0 -> first_open sk A = None ->
  followed cap c sk open (E ++ A) k.
Proof.
  unfold followed. intros Hf Hn Hr Ho Hfo. rewrite ref_run_app, Hr, observed_app, Ho, first_open_app, Hfo, Z.add_0_r.
  destruct (ref_run cap open E !! sk) as [e|].
  - destruct Hf as (b & -> & Hob & He). exists b. split; [done|]. split; [done|lia].
  - by destruct Hf as [-> ->].
Qed.

(** The socket is announced. *)
Lemma followed_open cap c sk open E ev e n k :
  followed cap c sk open E n -> opens ev = Some (sk, e) -> sk ∉ dom (ref_run cap open E) ->
  Z.of_nat (size (dom (ref_run cap open E))) < cap -> 0 <= of_entry c e <= k ->
  followed cap c sk open (E ++ [ev]) k.
Proof.
  unfold followed. intros Hf Hev Hno Hlt He. pose proof (proj1 (not_elem_of_dom _ _) Hno) as Hn. rewrite Hn in Hf. destruct Hf as [Hf0 Ho0].
  rewrite size_dom in Hlt.
  assert (Hstep : ref_step cap (ref_run cap open E) ev = <[sk := e]> (ref_run cap open E) /\
    gain c sk (ref_run cap open E) ev = 0).
  { destruct ev; cbn in Hev; try done; injection Hev as <- <-; (split; [|done]); cbn; apply ref_open_new; [done|by rewrite size_dom|done|by rewrite size_dom]. }
  destruct Hstep as [Hs Hg]. rewrite ref_run_app, observed_app, first_open_app, Hf0, Ho0. cbn [ref_run foldl observed first_open].
  rewrite Hs, lookup_insert_eq, Hg, Hev, Z.eqb_refl. exists e. split; [done|]. split; [lia|done].
Qed.

(** The socket is read. *)
Lemma followed_read cap c sk open E t m e n :
  followed cap c sk open E n -> r_sk m = sk -> ref_run cap open E !! sk = Some e ->
  n <= of_entry c (r_counters m) < 2 ^ (width c - 1) ->
  followed cap c sk open (E ++ [Rtt t m]) (of_entry c (r_counters m)).
Proof.
  unfold followed. intros Hf Hm He Hn. rewrite He in Hf. destruct Hf as (b & Hfo & Hob & Hb).
  rewrite ref_run_app, observed_app, first_open_app, Hfo, Hob. cbn [ref_run foldl ref_step observed gain].
  rewrite Hm, He, lookup_insert_eq, Z.eqb_refl. exists b. split; [done|]. rewrite growth_increasing by lia. split; lia.
Qed.

Lemma action_followed cap c sk mem (open : gmap Z tcp_socket_entry) E A T T' n :
  c <> Holes -> followed cap c sk open E n -> dom (ref_run cap open E) = T -> action cap mem T A T' ->
  Forall (fun ev => is_close sk ev = false) A -> n <= kernel mem c sk -> 0 <= kernel mem c sk < 2 ^ (width c - 1) ->
  followed cap c sk open (E ++ A) (kernel mem c sk).
Proof.
  intros Hc Hf Hd Ha Hcl Hn Hk. destruct Ha as [T t pid sk' Hno Hlt|T t m Hno Hlt Hm|T t m Hin Hm|T t m Hin Hm]; subst T.
  - destruct (decide (sk' = sk)) as [->|Hne].
    + eapply followed_open; [exact Hf|done|done|done|]. replace (of_entry c no_entry) with 0 by (by destruct c). lia.
    + eapply followed_same; [exact Hf|done|..|cbn; by destruct (Z.eqb_spec sk' sk)]; cbn; [|done].
      rewrite ref_open_new, lookup_insert_ne by done. done.
  - destruct (decide (c_sk m = sk)) as [<-|Hne].
    + eapply followed_open; [exact Hf|done|done|done|]. rewrite <- kernel_reset, Hm by done. lia.
    + eapply followed_same; [exact Hf|done|..|cbn; by destruct (Z.eqb_spec (c_sk m) sk)]; cbn; [|done].
      rewrite ref_open_new, lookup_insert_ne by done. done.
  - pose proof Hin as Hin'. apply elem_of_dom in Hin' as [e He]. destruct (decide (r_sk m = sk)) as [<-|Hne].
    + rewrite <- (Hm c Hc). eapply followed_read; [exact Hf|done|exact He|]. rewrite (Hm c Hc). lia.
    + eapply followed_same; [exact Hf|done|..|done]; cbn; [by rewrite He, lookup_insert_ne|].
      destruct (Z.eqb_spec (r_sk m) sk); done.
  - pose proof Hin as Hin'. apply elem_of_dom in Hin' as [e He]. destruct (decide (r_sk m = sk)) as [<-|Hne].
    + apply Forall_cons in Hcl as [_ Hcl]. apply Forall_cons in Hcl as [Hcl _]. cbn in Hcl. by rewrite Z.eqb_refl in Hcl.
    + eapply followed_same; [exact Hf|done|..|done]; cbn; [by rewrite He, lookup_delete_ne, lookup_insert_ne|].
      destruct (Z.eqb_spec (r_sk m) sk); done.
Qed.

Lemma actions_followed cap c sk mem T A T' :
  actions cap mem T A T' -> c <> Holes -> 0 <= kernel mem c sk < 2 ^ (width c - 1) ->
  Forall (fun ev => is_close sk ev = false) A ->
  forall (open : gmap Z tcp_socket_entry) E n,
    followed cap c sk open E n -> dom (ref_run cap open E) = T -> n <= kernel mem c sk ->
    followed cap c sk open (E ++ A) (kernel mem c sk) /\ dom (ref_run cap open (E ++ A)) = T'.
Proof.
  intros Ha Hc Hk. induction Ha as [T|T A1 T1 A2 T2 Ha _ IH]; intros Hcl open E n Hf Hd Hn.
  - rewrite app_nil_r. split; [|done]. rewrite <- (app_nil_r E). by eapply followed_same.
  - apply Forall_app in Hcl as [Hcl1 Hcl2]. rewrite app_assoc. eapply IH; [done| | |reflexivity].
    + eapply action_followed; eauto.
    + rewrite ref_run_app. by eapply action_dom.
Qed.

Lemma actions_dom cap mem T A T' (open : gmap Z tcp_socket_entry) :
  actions cap mem T A T' -> dom open = T -> dom (ref_run cap open A) = T'.
Proof.
  intros Ha. revert open. induction Ha as [T|T A1 T1 A2 T2 Ha _ IH]; intros open Hd; [done|].
  rewrite ref_run_app. apply IH. by eapply action_dom.
Qed.

(** ** The last report *)

Definition slack (c : counter) : Z := match c with Acked | Received => 3 | _ => 0 end.

Lemma adjusted_bounds n : 0 <= n < 2 ^ 64 -> n - 3 <= adjusted true n <= n /\ 0 <= adjusted true n.
Proof.
  intros Hn. unfold adjusted. change (2 ^ 64 - 4) with (Z.land (Z.ones 64) (Z.lnot (Z.ones 2))).
  rewrite Z.land_assoc, Z.land_ones, Z.mod_small, <- Z.ldiff_land by lia.
  rewrite Z.ldiff_ones_r, Z.shiftr_div_pow2, Z.shiftl_mul_pow2 by lia. change (2 ^ 2) with 4.
  pose proof (Z.div_mod n 4). pose proof (Z.mod_pos_bound n 4). lia.
Qed.

Lemma final_bounds c n : 0 <= n < 2 ^ (width c - 1) -> n - slack c <= final c n <= n /\ 0 <= final c n.
Proof.
  intros Hn. assert (2 ^ (width c - 1) <= 2 ^ 64) by (apply Z.pow_le_mono_r; [lia|by destruct c]).
  pose proof (adjusted_bounds n). destruct c; cbn [final slack] in *; lia.
Qed.

Lemma growth_max c a b : 0 <= a < 2 ^ (width c - 1) -> 0 <= b < 2 ^ (width c - 1) -> growth c a b = Z.max 0 (b - a).
Proof.
  intros Ha Hb. destruct (Z.le_gt_cases a b); [rewrite growth_increasing; lia|].
  unfold growth. assert (Hw : 2 ^ width c = 2 * 2 ^ (width c - 1)) by (by destruct c). cbv zeta.
  rewrite <- (Z.mod_add (b - a) 1) by lia. rewrite Z.mod_small by lia.
  destruct (Z.ltb_spec (b - a + 1 * 2 ^ width c) (2 ^ (width c - 1))); lia.
Qed.

Lemma close_observed cap mem c sk open E n t m :
  c <> Holes -> followed cap c sk open E n -> sk ∈ dom (ref_run cap open E) -> n <= kernel mem c sk < 2 ^ (width c - 1) ->
  r_sk m = sk -> of_entry c (r_counters m) = final c (kernel mem c sk) ->
  exists b top, first_open sk E = Some b /\ kernel mem c sk - slack c <= top <= kernel mem c sk /\
    observed cap c sk open (E ++ [Rtt t m; Close t sk]) = top - of_entry c b.
Proof.
  intros Hc Hf Hin Hk Hm He. apply elem_of_dom in Hin as [e Hr]. unfold followed in Hf. rewrite Hr in Hf.
  destruct Hf as (b & Hfo & Hob & Hb). destruct (final_bounds c (kernel mem c sk)) as [Hfin Hpos]; [lia|].
  exists b, (Z.max (of_entry c e) (final c (kernel mem c sk))). split; [done|]. split; [lia|].
  rewrite observed_app, Hob. cbn [observed gain]. rewrite Hm, Z.eqb_refl, Hr, He. rewrite growth_max by lia. lia.
Qed.

(** ** Polls in between *)

Definition is_tick (ev : event) : bool := match ev with Tick _ => true | _ => false end.
Definition untick (E : list event) : list event := filter (fun ev => is_tick ev = false) E.

Lemma ref_run_untick cap open E : ref_run cap open (untick E) = ref_run cap open E.
Proof.
  revert open. induction E as [|ev E IH]; intros open; [done|]. unfold untick. rewrite filter_cons. fold (untick E).
  case_decide as Hd; [apply IH|]. rewrite IH. by destruct ev.
Qed.

Lemma observed_untick cap c sk open E : observed cap c sk open (untick E) = observed cap c sk open E.
Proof.
  revert open. induction E as [|ev E IH]; intros open; [done|]. unfold untick. rewrite filter_cons. fold (untick E).
  case_decide as Hd; cbn [observed]; rewrite IH; [done|]. by destruct ev.
Qed.

(** * The theorem *)

Section composed.
Context {MS MP : Type} {M : table -> Type}.
Context `{BpfMap ProbeUdp.udp_open_socket_t MS} `{BpfMap Z MP}.
Context {HM : forall t, BpfMap (value t) (M t)} {HL : forall t, BpfMapLaws (value t) (M t)}.
Context (clock : nat -> Z) (boot : Z) (fileline : Z -> Z) (linux filter : Z) (debug : bool).
Context {Tb St : Type} `{SocketTableLaws tcp_socket_entry Tb} `{StatStoreLaws tcp_statistics St}.
#[local] Abbreviation capacity := (tb_size (T := tcp_socket_entry) (H := Tb)).
(** The map of the kernel is not larger than the table of the collector. *)
Context (Hroom : forall (m : M tcp_open_sockets) k v, (bm_insert m k v).2 = 0 -> Z.of_nat (size (bm_contents m)) < capacity).
#[local] Abbreviation state := (State MS MP M).
#[local] Abbreviation run_probes := (run_probes (MS := MS) (MP := MP) (M := M) clock boot fileline linux filter debug).
#[local] Abbreviation exec := (exec (MS := MS) (MP := MP) (M := M) clock boot fileline).

Lemma step_acted mem p (s : state) :
  readable mem -> let r := exec mem (code linux filter debug p) s in
  actions capacity mem (socks s) (events_of r.2) (socks r.1.2).
Proof. intros Hmem. exact (code_works clock boot fileline linux filter debug capacity Hroom mem Hmem p s). Qed.

Lemma run_dom (evs : list (memory * tcp_probe)) (s : state) (open : gmap Z tcp_socket_entry) :
  Forall (fun e => readable e.1) evs -> dom open = socks s ->
  dom (ref_run capacity open (events_of (run_probes evs s).2)) = socks (run_probes evs s).1.
Proof.
  revert s open. induction evs as [|[mem p] evs IH]; intros s open Hm Hd; [done|]. apply Forall_cons in Hm as [Hmem Hm].
  rewrite run_probes_cons. cbv zeta. cbn [fst snd]. rewrite events_of_app, ref_run_app. apply IH; [done|].
  eapply actions_dom; [by apply step_acted|done].
Qed.

(** The counter of the kernel does not decrease from one probe to the next, and stays
    below half of its range. *)
Fixpoint rising (c : counter) (sk from : Z) (evs : list (memory * tcp_probe)) : Prop :=
  match evs with
  | [] => True
  | (mem, _) :: evs => 0 <= kernel mem c sk /\ from <= kernel mem c sk < 2 ^ (width c - 1) /\ rising c sk (kernel mem c sk) evs
  end.

Lemma run_followed c sk (evs : list (memory * tcp_probe)) mem p (s : state) (open : gmap Z tcp_socket_entry) E n :
  c <> Holes -> Forall (fun e => readable e.1) evs -> rising c sk n (evs ++ [(mem, p)]) ->
  Forall (fun ev => is_close sk ev = false) (events_of (run_probes evs s).2) ->
  followed capacity c sk open E n -> dom (ref_run capacity open E) = socks s ->
  let E' := E ++ events_of (run_probes evs s).2 in
  (exists n', n' <= kernel mem c sk < 2 ^ (width c - 1) /\ followed capacity c sk open E' n') /\
  dom (ref_run capacity open E') = socks (run_probes evs s).1.
Proof.
  intros Hc. revert s E n. induction evs as [|[mem0 p0] evs IH]; intros s E n Hm Hk Hcl Hf Hd.
  { cbn. rewrite app_nil_r. split; [|done]. cbn in Hk. exists n. split; [tauto|done]. }
  apply Forall_cons in Hm as [Hmem Hm]. destruct Hk as (Hk0 & Hk1 & Hk).
  rewrite run_probes_cons in *. cbv zeta in *. cbn [fst snd] in *. rewrite events_of_app, app_assoc in *.
  apply Forall_app in Hcl as [Hcl1 Hcl2].
  destruct (actions_followed capacity c sk mem0 _ _ _ (step_acted mem0 p0 s Hmem) Hc ltac:(lia) Hcl1 open E n Hf Hd ltac:(lia))
    as [Hf' Hd']. eapply IH; eauto.
Qed.

(** C3: the collector measures what the kernel counts.  A connection that the probes do
    not track is found, by its creation, by being accepted or by the scan of the sockets,
    lives through any history of probes, and ends; the messages of the probes reach the
    handlers in order, with polls at any time in between.  Then what the collector
    reports of it, bytes acknowledged, bytes received and segments retransmitted, is the
    counter of the kernel at its end minus the one it was announced with: exactly for the
    segments, and short of at most three bytes for the others, as the last report clears
    two bits. *)
Theorem tcp_connection_measured (p : Tcp Tb St) (s : state) (before session : list (memory * tcp_probe))
    (mem : memory) (last_probe : tcp_probe) (sk : Z) (c : counter) (E1 E2 : list event) :
  let r1 := run_probes before s in
  let r2 := run_probes session r1.1 in
  let r3 := exec mem (code linux filter debug last_probe) r2.1 in
  initial p -> socks s = ∅ ->
  Forall (fun e => readable e.1) (before ++ session ++ [(mem, last_probe)]) ->
  sk ∉ socks r1.1 -> sk ∈ socks r2.1 -> ends r2.1 last_probe sk ->
  Forall (fun ev => is_close sk ev = false) (events_of r2.2) ->
  c <> Holes -> rising c sk 0 (session ++ [(mem, last_probe)]) ->
  untick E1 = events_of r1.2 -> untick E2 = events_of (r2.2 ++ r3.2) ->
  exists p1 out1 p2 out2 b top, tcp_run p E1 = Ok (p1, out1) /\ tcp_run p1 E2 = Ok (p2, out2) /\
    first_open sk (events_of r2.2) = Some b /\
    kernel mem c sk - slack c <= top <= kernel mem c sk /\
    reported c sk out2 mod 2 ^ width c = (top - of_entry c b) mod 2 ^ width c.
Proof.
  intros r1 r2 r3 Hi Hs Hmem Hno Hin Hend Hcl Hc Hk HE1 HE2.
  apply Forall_app in Hmem as [Hm1 Hmem]. apply Forall_app in Hmem as [Hm2 Hm3]. apply Forall_cons in Hm3 as [Hm3 _].
  destruct (initial_run p E1 Hi) as (p1 & out1 & C & MM & Q & cur & Erun1 & Hr & Ho & _).
  pose proof Hi as (_ & _ & _ & He & Hsl).
  rewrite <- ref_run_untick, HE1 in Ho.
  pose proof (run_dom before s ∅ Hm1 ltac:(by rewrite dom_empty_L, Hs)) as Hd1. fold r1 in Hd1. rewrite <- Ho in Hd1.
  destruct (tcp_run_conserves He Hsl E2 p1 C MM Q cur Hr) as (p2 & out2 & C2 & M2 & Q2 & cur2 & Erun2 & Hr2 & Ho2 & Hc2).
  pose proof (proj1 (not_elem_of_dom _ _) ltac:(by rewrite Hd1)) as Hnone.
  assert (Hf0 : followed capacity c sk (snd <$> C) [] 0) by (unfold followed; cbn; by rewrite Hnone).
  destruct (run_followed c sk session mem last_probe r1.1 (snd <$> C) [] 0 Hc Hm2 Hk Hcl Hf0 Hd1) as [(n & Hn & Hf) Hd2].
  fold r2 in Hf, Hd2. cbn [app] in Hf, Hd2.
  pose proof (ends_yields clock boot fileline linux filter debug mem Hm3 r2.1 last_probe sk Hend Hin) as Hlast.
  unfold yields, closed, carries in Hlast. fold r3 in Hlast. destruct Hlast as (Hs3 & t & m & Hev & Hm & Hcar).
  destruct (close_observed capacity mem c sk (snd <$> C) (events_of r2.2) n t m Hc Hf ltac:(by rewrite Hd2) Hn Hm (Hcar c Hc))
    as (b & top & Hb & Htop & Hobs).
  exists p1, out1, p2, out2, b, top. split; [done|]. split; [done|]. split; [done|]. split; [done|].
  rewrite events_of_app, Hev in HE2. specialize (Hc2 c sk). rewrite <- observed_untick, HE2, Hobs in Hc2.
  assert (Hend2 : (snd <$> C2) !! sk = None).
  { rewrite Ho2, <- ref_run_untick, HE2, ref_run_app. cbn. apply lookup_delete_eq. }
  assert (Hp1 : pend C MM c sk = 0) by (unfold pend; rewrite lookup_fmap in Hnone; by destruct (C !! sk)).
  assert (Hp2 : pend C2 M2 c sk = 0) by (unfold pend; rewrite lookup_fmap in Hend2; by destruct (C2 !! sk)).
  rewrite Hp1, Hp2, Z.add_0_r, Z.add_0_l in Hc2. exact Hc2.
Qed.
End composed.
End TcpSystem.

Module TcpSystemDemo.
Import PollerTcp Probes ProbeTcp TcpSystem PollerTcpDemo.

Definition tables (t : Probes.table) : Type := gmap Z (value t).
#[local] Instance tables_map t : BpfMap (value t) (tables t) := ProbeUdp.bounded_map 2.
#[local] Instance tables_laws t : BpfMapLaws (value t) (tables t) := ProbeUdp.bounded_map_laws 2.
#[local] Existing Instances ProbeUdpDemo.maps ProbeUdpDemo.ports.

Lemma demo_room (m : tables tcp_open_sockets) k v :
  (bm_insert m k v).2 = 0 -> Z.of_nat (size (bm_contents m)) < tb_size (T := tcp_socket_entry) (H := FixedHash.FixedHash tcp_socket_entry (gmap Z Z)).
Proof.
  change (tb_size (T := tcp_socket_entry)) with 2. cbn. unfold EEXIST, E2BIG. repeat case_match; cbn; lia.
Qed.

Definition demo_state : State (gmap Z ProbeUdp.udp_open_socket_t) (gmap Z Z) tables :=
  mk_state ProbeUdpDemo.demo_probe (fun _ => ∅).

(** A memory in which every counter is [n] and every socket is established. *)
Definition demo_memory (n : Z) : memory :=
  mk_memory (fun _ f => Got (match f with Field.sk_state => 1 | _ => n end)) (fun _ _ => Got (replicate 16 7)).

Lemma demo_counters_readable n : readable (demo_memory n).
Proof. split; intros a f; by eexists. Qed.

(** A socket is created, measured when a hundred bytes have passed, and freed after 207. *)
Definition demo_session : list (memory * tcp_probe) :=
  [(demo_memory 0, InitSock ProbeUdpDemo.demo_ctx 77); (demo_memory 100, RttEstimator ProbeUdpDemo.demo_ctx 77)].
Definition demo_end : tcp_probe := SkFree ProbeUdpDemo.demo_ctx 77.

Definition demo_r2 := run_probes ProbeUdpDemo.demo_clock 0 (fun l => l) 400000 1000 false demo_session demo_state.
Definition demo_r3 := exec ProbeUdpDemo.demo_clock 0 (fun l => l) (demo_memory 207) (code 400000 1000 false demo_end) demo_r2.1.
Definition demo_events : list event :=
  Tick 3000 :: events_of demo_r2.2 ++ Tick 900000000 :: events_of demo_r3.2.

Lemma tcp_connection_measured_witness :
  exists p, demo_tcp = Some p /\
  exists p1 out1 p2 out2 b top, tcp_run p [Tick 7] = Ok (p1, out1) /\ tcp_run p1 demo_events = Ok (p2, out2) /\
    first_open 77 (events_of demo_r2.2) = Some b /\ 204 <= top <= 207 /\
    reported Acked 77 out2 mod 2 ^ 64 = (top - of_entry Acked b) mod 2 ^ 64.
Proof.
  destruct demo_initial as (p & Hp & Hi). exists p. split; [exact Hp|].
  apply (tcp_connection_measured ProbeUdpDemo.demo_clock 0 (fun l => l) 400000 1000 false demo_room p demo_state []
    demo_session (demo_memory 207) demo_end 77 Acked [Tick 7] demo_events Hi).
  - reflexivity.
  - repeat constructor; apply demo_counters_readable.
  - vm_compute. discriminate.
  - vm_compute. reflexivity.
  - reflexivity.
  - vm_compute. repeat constructor.
  - discriminate.
  - vm_compute. repeat split; discriminate.
  - reflexivity.
  - vm_compute. reflexivity.
Defined.
End TcpSystemDemo.
