(* ===== verification/Lookup3.v ===== *)
(** The hash functions of util/lookup3.c and the hashers of util/lookup3_hasher.h.

    A key is an address and the bytes that can be read from there on.  The functions
    read it by words, by half words or by bytes, as the address and the machine allow;
    the reads by words pass the end of the key.  The machine and the build are a
    [config]: the byte order the macros of the file find, and [VALGRIND].

    Theorems: whatever the address, the machine, the build and the bytes after the key,
    the results are those of one reference definition on the bytes of the key; the
    functions on words are the functions on bytes; [mix] loses nothing. *)
From S2P Require Import Prelude.

Module Lookup3.

(** ** Words *)

Inductive order := Little | Big.

(** [HASH_LITTLE_ENDIAN] and [HASH_BIG_ENDIAN] are both 0 on a machine that is not
    recognised, whatever its order. *)
Record config := mk_config {
  machine : order;
  recognised : bool;
  valgrind : bool
}.

Definition HASH_LITTLE_ENDIAN (cfg : config) : bool :=
  recognised cfg && match machine cfg with Little => true | Big => false end.
Definition HASH_BIG_ENDIAN (cfg : config) : bool :=
  recognised cfg && match machine cfg with Little => false | Big => true end.

Fixpoint be_decode (bs : list Z) : Z :=
  match bs with
  | [] => 0
  | b :: bs => Z.shiftl b (8 * zlen bs) + be_decode bs
  end.

Definition decode (e : order) : list Z -> Z :=
  match e with Little => le_decode | Big => be_decode end.

(** [k[i]] for a pointer to bytes, to [uint16_t] and to [uint32_t]. *)
Definition k8 (k : list Z) (i : nat) : option Z := k !! i.
Definition k16 (e : order) (k : list Z) (i : nat) : option Z :=
  b0 ← k !! (2 * i)%nat; b1 ← k !! (2 * i + 1)%nat; Some (decode e [b0; b1]).
Definition k32 (e : order) (k : list Z) (i : nat) : option Z :=
  b0 ← k !! (4 * i)%nat; b1 ← k !! (4 * i + 1)%nat; b2 ← k !! (4 * i + 2)%nat; b3 ← k !! (4 * i + 3)%nat;
  Some (decode e [b0; b1; b2; b3]).

(** ** The state and its mixing *)

Record abc := mk_abc {
  ra : Z;
  rb : Z;
  rc : Z
}.

Definition rot (x k : Z) : Z := Z.lor (u32 (Z.shiftl x k)) (Z.shiftr x (32 - k)).

(** [x -= z; x ^= rot(z, k); z += y]. *)
Definition mix_step (k x y z : Z) : Z * Z := (Z.lxor (u32 (x - z)) (rot z k), u32 (z + y)).

Definition mix (s : abc) : abc :=
  let '(a, b, c) := (ra s, rb s, rc s) in
  let '(a, c) := mix_step 4 a b c in
  let '(b, a) := mix_step 6 b c a in
  let '(c, b) := mix_step 8 c a b in
  let '(a, c) := mix_step 16 a b c in
  let '(b, a) := mix_step 19 b c a in
  let '(c, b) := mix_step 4 c a b in
  mk_abc a b c.

(** [x ^= y; x -= rot(y, k)]. *)
Definition final_step (k x y : Z) : Z := u32 (Z.lxor x y - rot y k).

Definition final (s : abc) : abc :=
  let '(a, b, c) := (ra s, rb s, rc s) in
  let c := final_step 14 c b in
  let a := final_step 11 a c in
  let b := final_step 25 b a in
  let c := final_step 16 c b in
  let a := final_step 4 a c in
  let b := final_step 14 b a in
  let c := final_step 24 c b in
  mk_abc a b c.

(** [a += v], [b += v], [c += v]. *)
Definition add_a (v : option Z) (s : abc) : option abc := x ← v; Some (mk_abc (u32 (ra s + x)) (rb s) (rc s)).
Definition add_b (v : option Z) (s : abc) : option abc := x ← v; Some (mk_abc (ra s) (u32 (rb s + x)) (rc s)).
Definition add_c (v : option Z) (s : abc) : option abc := x ← v; Some (mk_abc (ra s) (rb s) (u32 (rc s + x))).

(** [v << n] and [v & m] of a word that was read. *)
Definition shl (v : option Z) (n : Z) : option Z := x ← v; Some (u32 (Z.shiftl x n)).
Definition mask (v : option Z) (m : Z) : option Z := x ← v; Some (Z.land x m).
Definition plus (v w : option Z) : option Z := x ← v; y ← w; Some (u32 (x + y)).

(** ** Loops

    [while (length > block) { ... mix(a,b,c); length -= block; k += block; }] on the
    memory that begins at [k]: the state, the memory and the length that are left. *)
Fixpoint blocks {A} (fuel : nat) (block : Z) (add : list A -> abc -> option abc) (k : list A) (length : Z) (s : abc)
    : option (abc * list A * Z) :=
  match fuel with
  | O => None
  | S fuel =>
    if block <? length then
      s ← add k s; blocks fuel block add (drop (Z.to_nat block) k) (length - block) (mix s)
    else Some (s, k, length)
  end.

(** The initial state for a key of [length] bytes and two seeds. *)
Definition setup (length pc pb : Z) : abc :=
  let x := u32 (u32 (0xdeadbeef + u32 length) + pc) in mk_abc x x (u32 (x + pb)).

(** ** Keys of words *)

Definition word_block (k : list Z) (s : abc) : option abc :=
  s ← add_a (k !! 0%nat) s; s ← add_b (k !! 1%nat) s; add_c (k !! 2%nat) s.

(** The [switch] on the last words, whose cases fall through. *)
Definition word_tail (k : list Z) (length : Z) (s : abc) : option abc :=
  let case1 s := final <$> add_a (k !! 0%nat) s in
  let case2 s := add_b (k !! 1%nat) s ≫= case1 in
  let case3 s := add_c (k !! 2%nat) s ≫= case2 in
  match length with
  | 3 => case3 s
  | 2 => case2 s
  | 1 => case1 s
  | _ => Some s
  end.

Definition hash_words (fuel : nat) (k : list Z) (length : Z) (s : abc) : option abc :=
  '(s, k, length) ← blocks fuel 3 word_block k length s; word_tail k length s.

(** The loops make at most [length] turns. *)
Definition enough (length : Z) : nat := S (Z.to_nat length).

Definition lookup3_hashword (k : list Z) (length initval : Z) : option Z :=
  let x := u32 (u32 (0xdeadbeef + u32 (Z.shiftl (u32 length) 2)) + initval) in
  rc <$> hash_words (enough length) k length (mk_abc x x x).

(** The pair of the new [*pc] and [*pb]. *)
Definition lookup3_hashword2 (k : list Z) (length pc pb : Z) : option (Z * Z) :=
  let x := u32 (u32 (0xdeadbeef + u32 (u64 (Z.shiftl length 2))) + pc) in
  s ← hash_words (enough length) k length (mk_abc x x (u32 (x + pb)));
  Some (rc s, rb s).

(** ** Keys of bytes

    Each way to read the key has a step for a block of 12 bytes and a [switch] for the
    last 1 to 12 bytes.  First the reads by words of 32 bits, on an aligned address. *)

Definition block32 (e : order) (k : list Z) (s : abc) : option abc :=
  s ← add_a (k32 e k 0) s; s ← add_b (k32 e k 1) s; add_c (k32 e k 2) s.

(** [m 3], [m 2] and [m 1] select the 3, 2 or 1 bytes of a word that are of the key. *)
Definition tail32 (e : order) (m : Z -> Z) (k : list Z) (length : Z) (s : abc) : option abc :=
  let w := k32 e k in
  match length with
  | 12 => s ← add_c (w 2%nat) s; s ← add_b (w 1%nat) s; add_a (w 0%nat) s
  | 11 => s ← add_c (mask (w 2%nat) (m 3)) s; s ← add_b (w 1%nat) s; add_a (w 0%nat) s
  | 10 => s ← add_c (mask (w 2%nat) (m 2)) s; s ← add_b (w 1%nat) s; add_a (w 0%nat) s
  | 9 => s ← add_c (mask (w 2%nat) (m 1)) s; s ← add_b (w 1%nat) s; add_a (w 0%nat) s
  | 8 => s ← add_b (w 1%nat) s; add_a (w 0%nat) s
  | 7 => s ← add_b (mask (w 1%nat) (m 3)) s; add_a (w 0%nat) s
  | 6 => s ← add_b (mask (w 1%nat) (m 2)) s; add_a (w 0%nat) s
  | 5 => s ← add_b (mask (w 1%nat) (m 1)) s; add_a (w 0%nat) s
  | 4 => add_a (w 0%nat) s
  | 3 => add_a (mask (w 0%nat) (m 3)) s
  | 2 => add_a (mask (w 0%nat) (m 2)) s
  | 1 => add_a (mask (w 0%nat) (m 1)) s
  | _ => Some s
  end.

Definition little_mask (n : Z) : Z :=
  match n with 3 => 0xffffff | 2 => 0xffff | _ => 0xff end.
Definition big_mask (n : Z) : Z :=
  match n with 3 => 0xffffff00 | 2 => 0xffff0000 | _ => 0xff000000 end.

(** The same [switch] in a build for valgrind, which does not read past the key.  The
    argument [at_ b] is byte [b] of the key, shifted to its place in its word. *)
Definition tail32_valgrind (e : order) (at_ : nat -> option Z) (k : list Z) (length : Z) (s : abc) : option abc :=
  let case4 s := add_a (k32 e k 0) s in
  let case8 s := s ← add_b (k32 e k 1) s; add_a (k32 e k 0) s in
  let case9 s := add_c (at_ 8%nat) s ≫= case8 in
  let case10 s := add_c (at_ 9%nat) s ≫= case9 in
  let case11 s := add_c (at_ 10%nat) s ≫= case10 in
  let case5 s := add_b (at_ 4%nat) s ≫= case4 in
  let case6 s := add_b (at_ 5%nat) s ≫= case5 in
  let case7 s := add_b (at_ 6%nat) s ≫= case6 in
  let case1 s := add_a (at_ 0%nat) s in
  let case2 s := add_a (at_ 1%nat) s ≫= case1 in
  let case3 s := add_a (at_ 2%nat) s ≫= case2 in
  match length with
  | 12 => s ← add_c (k32 e k 2) s; s ← add_b (k32 e k 1) s; add_a (k32 e k 0) s
  | 11 => case11 s | 10 => case10 s | 9 => case9 s | 8 => case8 s
  | 7 => case7 s | 6 => case6 s | 5 => case5 s | 4 => case4 s
  | 3 => case3 s | 2 => case2 s | 1 => case1 s
  | _ => Some s
  end.

(** [k8[b] << n] where [n] is the place of byte [b] in its word. *)
Definition little_byte (k : list Z) (b : nat) : option Z := shl (k8 k b) (8 * (Z.of_nat b mod 4)).
Definition big_byte (k : list Z) (b : nat) : option Z := shl (k8 k b) (24 - 8 * (Z.of_nat b mod 4)).

(** Reads by half words, on an address that is even. *)
Definition pair16 (e : order) (k : list Z) (i : nat) : option Z := plus (k16 e k i) (shl (k16 e k (S i)) 16).

Definition block16 (e : order) (k : list Z) (s : abc) : option abc :=
  s ← add_a (pair16 e k 0) s; s ← add_b (pair16 e k 2) s; add_c (pair16 e k 4) s.

Definition tail16 (e : order) (k : list Z) (length : Z) (s : abc) : option abc :=
  let case4 s := add_a (pair16 e k 0) s in
  let case8 s := s ← add_b (pair16 e k 2) s; add_a (pair16 e k 0) s in
  let case10 s := s ← add_c (k16 e k 4) s; s ← add_b (pair16 e k 2) s; add_a (pair16 e k 0) s in
  let case6 s := s ← add_b (k16 e k 2) s; add_a (pair16 e k 0) s in
  let case2 s := add_a (k16 e k 0) s in
  match length with
  | 12 => s ← add_c (pair16 e k 4) s; s ← add_b (pair16 e k 2) s; add_a (pair16 e k 0) s
  | 11 => add_c (shl (k8 k 10) 16) s ≫= case10
  | 10 => case10 s
  | 9 => add_c (k8 k 8) s ≫= case8
  | 8 => case8 s
  | 7 => add_b (shl (k8 k 6) 16) s ≫= case6
  | 6 => case6 s
  | 5 => add_b (k8 k 4) s ≫= case4
  | 4 => case4 s
  | 3 => add_a (shl (k8 k 2) 16) s ≫= case2
  | 2 => case2 s
  | 1 => add_a (k8 k 0) s
  | _ => Some s
  end.

(** Reads by bytes: all the cases of the [switch] fall through. *)
Definition block8 (at_ : nat -> option Z) (s : abc) : option abc :=
  s ← add_a (at_ 0%nat) s; s ← add_a (at_ 1%nat) s; s ← add_a (at_ 2%nat) s; s ← add_a (at_ 3%nat) s;
  s ← add_b (at_ 4%nat) s; s ← add_b (at_ 5%nat) s; s ← add_b (at_ 6%nat) s; s ← add_b (at_ 7%nat) s;
  s ← add_c (at_ 8%nat) s; s ← add_c (at_ 9%nat) s; s ← add_c (at_ 10%nat) s; add_c (at_ 11%nat) s.

Definition tail8 (at_ : nat -> option Z) (length : Z) (s : abc) : option abc :=
  let case1 s := add_a (at_ 0%nat) s in
  let case2 s := add_a (at_ 1%nat) s ≫= case1 in
  let case3 s := add_a (at_ 2%nat) s ≫= case2 in
  let case4 s := add_a (at_ 3%nat) s ≫= case3 in
  let case5 s := add_b (at_ 4%nat) s ≫= case4 in
  let case6 s := add_b (at_ 5%nat) s ≫= case5 in
  let case7 s := add_b (at_ 6%nat) s ≫= case6 in
  let case8 s := add_b (at_ 7%nat) s ≫= case7 in
  let case9 s := add_c (at_ 8%nat) s ≫= case8 in
  let case10 s := add_c (at_ 9%nat) s ≫= case9 in
  let case11 s := add_c (at_ 10%nat) s ≫= case10 in
  let case12 s := add_c (at_ 11%nat) s ≫= case11 in
  match length with
  | 12 => case12 s | 11 => case11 s | 10 => case10 s | 9 => case9 s | 8 => case8 s | 7 => case7 s
  | 6 => case6 s | 5 => case5 s | 4 => case4 s | 3 => case3 s | 2 => case2 s | 1 => case1 s
  | _ => Some s
  end.

(** The loop, the [switch], and [final] unless the key is empty. *)
Definition hash_bytes (block : list Z -> abc -> option abc) (tail : list Z -> Z -> abc -> option abc)
    (k : list Z) (length : Z) (s : abc) : option abc :=
  '(s, k, length) ← blocks (enough length) 12 block k length s;
  if length =? 0 then Some s else final <$> tail k length s.

Definition hash_little (cfg : config) (addr : Z) (k : list Z) (length : Z) (s : abc) : option abc :=
  let e := machine cfg in
  if HASH_LITTLE_ENDIAN cfg && (Z.land addr 3 =? 0) then
    hash_bytes (block32 e)
      (fun k => if valgrind cfg then tail32_valgrind e (little_byte k) k else tail32 e little_mask k) k length s
  else if HASH_LITTLE_ENDIAN cfg && (Z.land addr 1 =? 0) then hash_bytes (block16 e) (tail16 e) k length s
  else hash_bytes (fun k => block8 (little_byte k)) (fun k => tail8 (little_byte k)) k length s.

Definition lookup3_hashlittle (cfg : config) (addr : Z) (key : list Z) (length initval : Z) : option Z :=
  let x := u32 (u32 (0xdeadbeef + u32 length) + initval) in
  rc <$> hash_little cfg addr key length (mk_abc x x x).

(** The pair of the new [*pc] and [*pb]. *)
Definition lookup3_hashlittle2 (cfg : config) (addr : Z) (key : list Z) (length pc pb : Z) : option (Z * Z) :=
  let x := u32 (u32 (0xdeadbeef + u32 length) + pc) in
  s ← hash_little cfg addr key length (mk_abc x x (u32 (x + pb)));
  Some (rc s, rb s).

Definition lookup3_hashbig (cfg : config) (addr : Z) (key : list Z) (length initval : Z) : option Z :=
  let e := machine cfg in
  let x := u32 (u32 (0xdeadbeef + u32 length) + initval) in
  let s := mk_abc x x x in
  rc <$>
    (if HASH_BIG_ENDIAN cfg && (Z.land addr 3 =? 0) then
       hash_bytes (block32 e)
         (fun k => if valgrind cfg then tail32_valgrind e (big_byte k) k else tail32 e big_mask k) key length s
     else hash_bytes (fun k => block8 (big_byte k)) (fun k => tail8 (big_byte k)) key length s).

(** ** The hashers of [lookup3_hasher.h] *)

(** [(size_t)pb << 32 | pc]. *)
Definition join (p : Z * Z) : Z := Z.lor (u64 (Z.shiftl (p.2) 32)) (p.1).

(** The bytes of a [u64] on the machine, as the two words [lookup3_hashword2] reads. *)
Definition hash_integral (cfg : config) (t : Z) : option Z :=
  let val := u64 t in
  let words := match machine cfg with Little => [u32 val; val / 2 ^ 32] | Big => [val / 2 ^ 32; u32 val] end in
  join <$> lookup3_hashword2 words 2 0 0.

(** [addr] is [t.c_str()] and [k] what can be read there: the characters first. *)
Definition hash_string (cfg : config) (addr : Z) (k : list Z) (size : Z) : option Z :=
  join <$> lookup3_hashlittle2 cfg addr k size 0 0.

(** ** The reference

    Blocks of 12 bytes, the last one padded with zeros, are added to the state as three
    words.  [mix] follows every block but the last, which [final] follows. *)

Definition word (e : order) (bs : list Z) : Z := decode e (take 4 (bs ++ [0; 0; 0; 0])).

Definition absorb (e : order) (bs : list Z) (s : abc) : abc :=
  mk_abc (u32 (ra s + word e bs)) (u32 (rb s + word e (drop 4 bs))) (u32 (rc s + word e (drop 8 bs))).

Fixpoint digest (e : order) (key : list Z) (s : abc) : abc :=
  match key with
  | [] => s
  | b0 :: b1 :: b2 :: b3 :: b4 :: b5 :: b6 :: b7 :: b8 :: b9 :: b10 :: b11 :: (_ :: _) as rest =>
    digest e rest (mix (absorb e [b0; b1; b2; b3; b4; b5; b6; b7; b8; b9; b10; b11] s))
  | _ => final (absorb e key s)
  end.

Definition bytes (l : list Z) : Prop := Forall (fun b => 0 <= b < 256) l.

(** What is read of the memory after the key: the rest of its last word, where the key
    is read by words and the build is not for valgrind. *)
Definition readable (cfg : config) (addr : Z) (key rest : list Z) : Prop :=
  recognised cfg = true -> valgrind cfg = false -> Z.land addr 3 = 0 -> (- zlen key) mod 4 <= zlen rest.

(** * Lemmas *)

(** ** Ranges *)

Definition wf (s : abc) : Prop := 0 <= ra s < 2 ^ 32 /\ 0 <= rb s < 2 ^ 32 /\ 0 <= rc s < 2 ^ 32.

Lemma bits32 (x : Z) : (forall i, 32 <= i -> Z.testbit x i = false) -> 0 <= x < 2 ^ 32.
Proof.
  intros H. replace x with (u32 x); [apply u32_range|]. unfold u32. rewrite <- Z.land_ones by lia.
  apply Z.bits_inj'. intros i Hi. rewrite Z.land_spec, Z.testbit_ones_nonneg by lia.
  destruct (Z.ltb_spec i 32); [apply andb_true_r|]. by rewrite H by lia.
Qed.

Lemma bits32_high (x i : Z) : 0 <= x < 2 ^ 32 -> 32 <= i -> Z.testbit x i = false.
Proof.
  intros Hx Hi. rewrite <- (Z.mod_small x (2 ^ 32)), <- Z.land_ones, Z.land_spec, Z.testbit_ones_nonneg by lia.
  destruct (Z.ltb_spec i 32); [lia|apply andb_false_r].
Qed.

Lemma lxor_range (x y : Z) : 0 <= x < 2 ^ 32 -> 0 <= y < 2 ^ 32 -> 0 <= Z.lxor x y < 2 ^ 32.
Proof. intros Hx Hy. apply bits32. intros i Hi. rewrite Z.lxor_spec, !bits32_high by lia. done. Qed.

Lemma rot_range (x k : Z) : 0 <= x < 2 ^ 32 -> 0 <= k <= 32 -> 0 <= rot x k < 2 ^ 32.
Proof.
  intros Hx Hk. apply bits32. intros i Hi. unfold rot.
  rewrite Z.lor_spec, (bits32_high (u32 _)), Z.shiftr_spec by (try apply u32_range; lia).
  apply bits32_high; lia.
Qed.

Lemma mix_step_range (k x y z : Z) :
  0 <= k <= 32 -> 0 <= z < 2 ^ 32 -> 0 <= (mix_step k x y z).1 < 2 ^ 32 /\ 0 <= (mix_step k x y z).2 < 2 ^ 32.
Proof. intros Hk Hz. split; [apply lxor_range; [apply u32_range|by apply rot_range]|apply u32_range]. Qed.

Lemma mix_wf (s : abc) : wf s -> wf (mix s).
Proof.
  intros (Ha & Hb & Hc). unfold mix.
  destruct (mix_step_range 4 (ra s) (rb s) (rc s)) as [Ha1 Hc1]; [lia..|]. destruct (mix_step 4 _ _ _) as [a c].
  destruct (mix_step_range 6 (rb s) c a) as [Hb1 Ha2]; [lia|exact Ha1|]. destruct (mix_step 6 _ _ _) as [b a'].
  destruct (mix_step_range 8 c a' b) as [Hc2 Hb2]; [lia|exact Hb1|]. destruct (mix_step 8 _ _ _) as [c' b'].
  destruct (mix_step_range 16 a' b' c') as [Ha3 Hc3]; [lia|exact Hc2|]. destruct (mix_step 16 _ _ _) as [a2 c2].
  destruct (mix_step_range 19 b' c2 a2) as [Hb3 Ha4]; [lia|exact Ha3|]. destruct (mix_step 19 _ _ _) as [b2 a3].
  destruct (mix_step_range 4 c2 a3 b2) as [Hc4 Hb4]; [lia|exact Hb3|]. destruct (mix_step 4 c2 _ _) as [c3 b3].
  split_and!; [apply Ha4|apply Ha4|apply Hb4|apply Hb4|apply Hc4|apply Hc4].
Qed.

Lemma absorb_wf e bs s : wf (absorb e bs s).
Proof. unfold wf. cbn. split_and!; apply u32_range. Qed.

(** ** Words and their bytes *)

Lemma decode_little (b0 b1 b2 b3 : Z) : decode Little [b0; b1; b2; b3] = b0 + 2 ^ 8 * b1 + 2 ^ 16 * b2 + 2 ^ 24 * b3.
Proof. cbn [decode le_decode]. lia. Qed.

Lemma decode_big (b0 b1 b2 b3 : Z) : decode Big [b0; b1; b2; b3] = 2 ^ 24 * b0 + 2 ^ 16 * b1 + 2 ^ 8 * b2 + b3.
Proof.
  cbn [decode be_decode]. unfold zlen. cbn [length].
  change (8 * Z.of_nat 3) with 24. change (8 * Z.of_nat 2) with 16. change (8 * Z.of_nat 1) with 8. change (8 * Z.of_nat 0) with 0.
  rewrite !Z.shiftl_mul_pow2 by lia. lia.
Qed.

Lemma decode_little2 (b0 b1 : Z) : decode Little [b0; b1] = b0 + 2 ^ 8 * b1.
Proof. cbn [decode le_decode]. lia. Qed.

(** The bytes of a word that are past the key are masked off. *)
Lemma little_mask_drops (b0 b1 b2 b3 : Z) :
  bytes [b0; b1; b2; b3] ->
  Z.land (decode Little [b0; b1; b2; b3]) (little_mask 3) = decode Little [b0; b1; b2; 0] /\
  Z.land (decode Little [b0; b1; b2; b3]) (little_mask 2) = decode Little [b0; b1; 0; 0] /\
  Z.land (decode Little [b0; b1; b2; b3]) (little_mask 1) = decode Little [b0; 0; 0; 0].
Proof.
  unfold bytes. rewrite !Forall_cons. intros (H0 & H1 & H2 & H3 & _). rewrite !decode_little. cbn [little_mask].
  change 0xffffff with (2 ^ 24 - 1). change 0xffff with (2 ^ 16 - 1). change 0xff with (2 ^ 8 - 1).
  rewrite !land_mask by lia.
  split_and!; Z.to_euclidean_division_equations; lia.
Qed.

Lemma big_mask_drops (b0 b1 b2 b3 : Z) :
  bytes [b0; b1; b2; b3] ->
  Z.land (decode Big [b0; b1; b2; b3]) (big_mask 3) = decode Big [b0; b1; b2; 0] /\
  Z.land (decode Big [b0; b1; b2; b3]) (big_mask 2) = decode Big [b0; b1; 0; 0] /\
  Z.land (decode Big [b0; b1; b2; b3]) (big_mask 1) = decode Big [b0; 0; 0; 0].
Proof.
  unfold bytes. rewrite !Forall_cons. intros (H0 & H1 & H2 & H3 & _). rewrite !decode_big. cbn [big_mask].
  change 0xffffff00 with (not32 (2 ^ 8 - 1)). change 0xffff0000 with (not32 (2 ^ 16 - 1)).
  change 0xff000000 with (not32 (2 ^ 24 - 1)). rewrite !land_not_mask by lia.
  split_and!; Z.to_euclidean_division_equations; lia.
Qed.

(** The masks of both orders. *)
Definition order_mask (e : order) : Z -> Z := match e with Little => little_mask | Big => big_mask end.
Definition order_byte (e : order) : list Z -> nat -> option Z := match e with Little => little_byte | Big => big_byte end.

Lemma mask_drops (e : order) (b0 b1 b2 b3 : Z) :
  bytes [b0; b1; b2; b3] ->
  Z.land (decode e [b0; b1; b2; b3]) (order_mask e 3) = decode e [b0; b1; b2; 0] /\
  Z.land (decode e [b0; b1; b2; b3]) (order_mask e 2) = decode e [b0; b1; 0; 0] /\
  Z.land (decode e [b0; b1; b2; b3]) (order_mask e 1) = decode e [b0; 0; 0; 0].
Proof. destruct e; [apply little_mask_drops|apply big_mask_drops]. Qed.

Lemma mask3 e b0 b1 b2 b3 :
  0 <= b0 < 256 /\ 0 <= b1 < 256 /\ 0 <= b2 < 256 /\ 0 <= b3 < 256 ->
  Z.land (decode e [b0; b1; b2; b3]) (order_mask e 3) = decode e [b0; b1; b2; 0].
Proof. intros H. apply mask_drops. unfold bytes. rewrite !Forall_cons. naive_solver. Qed.

Lemma mask2 e b0 b1 b2 b3 :
  0 <= b0 < 256 /\ 0 <= b1 < 256 /\ 0 <= b2 < 256 /\ 0 <= b3 < 256 ->
  Z.land (decode e [b0; b1; b2; b3]) (order_mask e 2) = decode e [b0; b1; 0; 0].
Proof. intros H. apply mask_drops. unfold bytes. rewrite !Forall_cons. naive_solver. Qed.

Lemma mask1 e b0 b1 b2 b3 :
  0 <= b0 < 256 /\ 0 <= b1 < 256 /\ 0 <= b2 < 256 /\ 0 <= b3 < 256 ->
  Z.land (decode e [b0; b1; b2; b3]) (order_mask e 1) = decode e [b0; 0; 0; 0].
Proof. intros H. apply mask_drops. unfold bytes. rewrite !Forall_cons. naive_solver. Qed.

Lemma decode_0 (e : order) : decode e [0; 0; 0; 0] = 0.
Proof. by destruct e. Qed.

(** A key of at most 12 bytes, byte by byte. *)
Ltac by_bytes key :=
  unfold zlen in *;
  do 12 (try (destruct key as [|? key]; [cbn [length] in *; try lia|]));
  try (destruct key; [|cbn [length] in *; lia]).

(** What is read from a key of known bytes. *)
Ltac reading :=
  repeat match goal with
  | |- context [Z.of_nat ?n] => let v := eval vm_compute in (Z.of_nat n) in change (Z.of_nat n) with v
  end;
  cbn -[u32 Z.add Z.mul Z.pow Z.shiftl decode Z.land order_mask];
  cbv [absorb word]; cbn [take drop app].

Lemma tail32_absorbs e key rest s :
  1 <= zlen key <= 12 -> bytes (key ++ rest) -> (- zlen key) mod 4 <= zlen rest -> wf s ->
  tail32 e (order_mask e) (key ++ rest) (zlen key) s = Some (absorb e key s).
Proof.
  intros Hk Hb Hr (Ha & Hbs & Hc). by_bytes key.
  all: do 3 (try (destruct rest as [|? rest]; [exfalso; cbn [length] in Hr; Z.to_euclidean_division_equations; lia|])).
  all: unfold bytes in Hb; cbn [app] in Hb; rewrite !Forall_cons in Hb.
  all: reading.
  all: rewrite ?(mask3 e), ?(mask2 e), ?(mask1 e), ?decode_0, ?Z.add_0_r, ?(u32_small (ra s)), ?(u32_small (rb s)), ?(u32_small (rc s)) by tauto.
  all: try done.
Qed.

Lemma u32_add_m x y z : u32 (x + u32 y + z) = u32 (x + y + z).
Proof. rewrite (Z.add_comm x), <- Z.add_assoc, u32_add_l. f_equal. lia. Qed.

Lemma u32_add_mm x y z w : u32 (x + u32 y + z + w) = u32 (x + y + z + w).
Proof. rewrite <- (Z.add_assoc (x + u32 y)), u32_add_m. f_equal. lia. Qed.

Lemma u32_add_ll x y z : u32 (u32 x + y + z) = u32 (x + y + z).
Proof. by rewrite <- !Z.add_assoc, u32_add_l. Qed.

Lemma u32_add_lll x y z w : u32 (u32 x + y + z + w) = u32 (x + y + z + w).
Proof. by rewrite <- !Z.add_assoc, u32_add_l. Qed.

Lemma u32_add_rr x y z : u32 (x + (y + u32 z)) = u32 (x + (y + z)).
Proof. by rewrite !Z.add_assoc, u32_add_r. Qed.

#[local] Hint Rewrite u32_add_m u32_add_mm u32_add_ll u32_add_lll u32_add_rr : wrap.

(** The sums of the bytes of a word, in any order. *)
Ltac sums :=
  f_equal; f_equal; rewrite ?decode_little, ?decode_big, ?decode_little2;
  repeat match goal with
  | |- context [Z.shiftl ?x (?i * ?j)] => let v := eval vm_compute in (i * j) in change (i * j) with v
  | |- context [Z.shiftl ?x (?i - ?j)] => let v := eval vm_compute in (i - j) in change (i - j) with v
  end;
  rewrite ?Z.shiftl_mul_pow2 by lia; autorewrite with wrap;
  solve [ done | f_equal; lia | rewrite u32_small; lia | symmetry; rewrite u32_small; lia].

Lemma tail32_valgrind_absorbs e key rest s :
  1 <= zlen key <= 12 -> bytes (key ++ rest) -> wf s ->
  tail32_valgrind e (order_byte e (key ++ rest)) (key ++ rest) (zlen key) s = Some (absorb e key s).
Proof. intros Hk Hb (Ha & Hbs & Hc). destruct e; by_bytes key; reading; sums. Qed.

Lemma tail8_absorbs e key rest s :
  1 <= zlen key <= 12 -> bytes (key ++ rest) -> wf s ->
  tail8 (order_byte e (key ++ rest)) (zlen key) s = Some (absorb e key s).
Proof. intros Hk Hb (Ha & Hbs & Hc). destruct e; by_bytes key; reading; sums. Qed.

Lemma tail16_absorbs key rest s :
  1 <= zlen key <= 12 -> bytes (key ++ rest) -> wf s ->
  tail16 Little (key ++ rest) (zlen key) s = Some (absorb Little key s).
Proof. intros Hk Hb (Ha & Hbs & Hc). by_bytes key; reading; sums. Qed.

Lemma block32_absorbs e key rest s : zlen key = 12 -> block32 e (key ++ rest) s = Some (absorb e key s).
Proof. intros Hk. by_bytes key; reading; done. Qed.

Lemma block16_absorbs key rest s : zlen key = 12 -> block16 Little (key ++ rest) s = Some (absorb Little key s).
Proof. intros Hk. by_bytes key; reading; sums. Qed.

Lemma block8_absorbs e key rest s : zlen key = 12 -> block8 (order_byte e (key ++ rest)) s = Some (absorb e key s).
Proof. intros Hk. destruct e; by_bytes key; reading; sums. Qed.

(** ** The loop over the blocks *)

Lemma digest_block e key rest s :
  zlen key = 12 -> rest <> [] -> digest e (key ++ rest) s = digest e rest (mix (absorb e key s)).
Proof. intros Hk Hr. by_bytes key; by destruct rest. Qed.

Lemma digest_last e key s : 1 <= zlen key <= 12 -> digest e key s = final (absorb e key s).
Proof. intros Hk. by_bytes key; done. Qed.

Section loop.
Context (e : order) (block : list Z -> abc -> option abc) (rest : list Z).
Hypothesis block_absorbs : forall key rest s, zlen key = 12 -> block (key ++ rest) s = Some (absorb e key s).

(** The loop leaves the last block, and what is left to digest is the same. *)
Lemma blocks_digest (fuel : nat) (key : list Z) (s : abc) :
  (length key < fuel)%nat -> wf s ->
  exists last s', blocks fuel 12 block (key ++ rest) (zlen key) s = Some (s', last ++ rest, zlen last) /\
    digest e last s' = digest e key s /\ wf s' /\ zlen last <= 12 /\ (last = [] -> key = []) /\
    last `suffix_of` key /\ (- zlen last) mod 4 = (- zlen key) mod 4.
Proof using block_absorbs.
  revert key s. induction fuel as [|fuel IH]; intros key s Hf Hs; [lia|]. cbn [blocks].
  destruct (Z.ltb_spec 12 (zlen key)) as [Hlt|Hle].
  2:{ exists key, s. split_and!; done. }
  rewrite <- (take_drop 12 key). set (a := take 12 key). set (b := drop 12 key).
  assert (Ha : zlen a = 12) by (unfold a, zlen in *; rewrite length_take; lia).
  assert (Hb : zlen b = zlen key - 12) by (unfold b, zlen in *; rewrite length_drop; lia).
  assert (Hb0 : b <> []) by (intros E; rewrite E in Hb; unfold zlen in *; cbn in Hb; lia).
  rewrite <- app_assoc, block_absorbs by done. cbn [mbind option_bind].
  rewrite drop_app_length' by (unfold zlen in Ha; lia).
  rewrite zlen_app, Ha. replace (12 + zlen b - 12) with (zlen b) by lia.
  destruct (IH b (mix (absorb e a s))) as (last & s' & E & Hd & Hw & Hl & Hn & Hsuf & Hm);
    [unfold zlen in *; lia|apply mix_wf, absorb_wf|].
  exists last, s'. split_and!; [done|by rewrite Hd, digest_block|done|done| |by apply suffix_app_r|].
  - intros ->. by destruct (Hn eq_refl).
  - rewrite Hm. replace (- (12 + zlen b)) with (- zlen b + (-3) * 4) by lia. by rewrite Z_mod_plus_full.
Qed.

Context (tail : list Z -> Z -> abc -> option abc) (ok : Prop).
Hypothesis tail_absorbs : forall key s,
  1 <= zlen key <= 12 -> bytes (key ++ rest) -> wf s -> ((- zlen key) mod 4 <= zlen rest \/ ok) ->
  tail (key ++ rest) (zlen key) s = Some (absorb e key s).

Lemma hash_bytes_digest (key : list Z) (s : abc) :
  wf s -> bytes (key ++ rest) -> ((- zlen key) mod 4 <= zlen rest \/ ok) ->
  hash_bytes block tail (key ++ rest) (zlen key) s = Some (digest e key s).
Proof using block_absorbs tail_absorbs.
  intros Hs Hb Hr. unfold hash_bytes, enough.
  destruct (blocks_digest (S (Z.to_nat (zlen key))) key s) as (last & s' & -> & Hd & Hw & Hl & Hn & [pre Hsuf] & Hm);
    [unfold zlen; lia|done|].
  cbn [mbind option_bind]. destruct (Z.eqb_spec (zlen last) 0) as [E|E].
  { assert (last = []) as -> by (destruct last; [done|unfold zlen in E; cbn [length] in E; lia]). by rewrite <- Hd. }
  pose proof (zlen_nonneg last). rewrite tail_absorbs; [|lia| |done|by rewrite Hm].
  - cbn. by rewrite <- Hd, digest_last by lia.
  - unfold bytes in *. subst key. rewrite <- app_assoc, Forall_app in Hb. apply Hb.
Qed.
End loop.

(** ** The ways to read a key *)

Lemma by_8_digests e key rest s :
  bytes (key ++ rest) -> wf s ->
  hash_bytes (fun k => block8 (order_byte e k)) (fun k => tail8 (order_byte e k)) (key ++ rest) (zlen key) s
  = Some (digest e key s).
Proof.
  intros Hb Hs. apply (hash_bytes_digest e _ rest (block8_absorbs e) _ True); [|done|done|by right].
  intros. by apply tail8_absorbs.
Qed.

Lemma by_32_digests e v key rest s :
  bytes (key ++ rest) -> wf s -> (- zlen key) mod 4 <= zlen rest \/ v = true ->
  hash_bytes (block32 e) (fun k => if v then tail32_valgrind e (order_byte e k) k else tail32 e (order_mask e) k)
    (key ++ rest) (zlen key) s
  = Some (digest e key s).
Proof.
  intros Hb Hs Hr. apply (hash_bytes_digest e _ rest (block32_absorbs e) _ (v = true)); [|done..].
  intros k s' Hk Hbk Hs' Hok. destruct v; [by apply tail32_valgrind_absorbs|].
  apply tail32_absorbs; [done..| |done]. by destruct Hok.
Qed.

Lemma hash_little_digest cfg addr key rest s :
  bytes (key ++ rest) -> wf s -> readable cfg addr key rest ->
  hash_little cfg addr (key ++ rest) (zlen key) s = Some (digest Little key s).
Proof.
  intros Hb Hs Hr. unfold hash_little, HASH_LITTLE_ENDIAN, readable in *.
  destruct cfg as [[] [] v]; cbn [machine recognised valgrind andb] in *; [|by apply (by_8_digests Little)..].
  destruct (Z.eqb_spec (Z.land addr 3) 0) as [E|E].
  - apply (by_32_digests Little v); [done..|]. destruct v; auto.
  - destruct (Z.land addr 1 =? 0); [|by apply (by_8_digests Little)].
    apply (hash_bytes_digest Little _ rest block16_absorbs _ True); [|done|done|by right].
    intros. by apply tail16_absorbs.
Qed.

Lemma seeded x : 0 <= x < 2 ^ 32 -> u32 (x + 0) = x.
Proof. intros. rewrite Z.add_0_r. by apply u32_small. Qed.

Lemma setup_wf length pc pb : wf (setup length pc pb).
Proof. unfold wf. cbn. split_and!; apply u32_range. Qed.

Lemma setup_0 length pc :
  setup length pc 0 =
  let x := u32 (u32 (0xdeadbeef + u32 length) + pc) in mk_abc x x x.
Proof. unfold setup. by rewrite seeded by apply u32_range. Qed.

Lemma hashlittle_digest cfg addr key rest initval :
  bytes (key ++ rest) -> readable cfg addr key rest ->
  lookup3_hashlittle cfg addr (key ++ rest) (zlen key) initval
  = Some (rc (digest Little key (setup (zlen key) initval 0))).
Proof.
  intros Hb Hr. pose proof (setup_0 (zlen key) initval) as E. cbv zeta in E. unfold lookup3_hashlittle. rewrite <- E.
  by rewrite hash_little_digest by (done || apply setup_wf).
Qed.

Lemma hashlittle2_digest cfg addr key rest pc pb :
  bytes (key ++ rest) -> readable cfg addr key rest ->
  lookup3_hashlittle2 cfg addr (key ++ rest) (zlen key) pc pb
  = Some (let s := digest Little key (setup (zlen key) pc pb) in (rc s, rb s)).
Proof.
  intros Hb Hr. unfold lookup3_hashlittle2. fold (setup (zlen key) pc pb).
  by rewrite hash_little_digest by (done || apply setup_wf).
Qed.

Lemma hashbig_digest cfg addr key rest initval :
  bytes (key ++ rest) -> readable cfg addr key rest ->
  lookup3_hashbig cfg addr (key ++ rest) (zlen key) initval
  = Some (rc (digest Big key (setup (zlen key) initval 0))).
Proof.
  intros Hb Hr. pose proof (setup_0 (zlen key) initval) as E. pose proof (setup_wf (zlen key) initval 0) as Hw.
  cbv zeta in E. unfold lookup3_hashbig. rewrite <- E. unfold HASH_BIG_ENDIAN, readable in *.
  destruct cfg as [[] [] v]; cbn [machine recognised valgrind andb] in *.
  1,2,4: by rewrite (by_8_digests Big).
  destruct (Z.eqb_spec (Z.land addr 3) 0); [|by rewrite (by_8_digests Big)].
  rewrite (by_32_digests Big v); [done..|]. destruct v; auto.
Qed.

(** ** Keys of words *)

Definition encode (e : order) (w : Z) : list Z :=
  match e with Little => le_encode 4 w | Big => rev (le_encode 4 w) end.
Definition encodes (e : order) (ws : list Z) : list Z := concat (encode e <$> ws).
Definition words (ws : list Z) : Prop := Forall (fun w => 0 <= w < 2 ^ 32) ws.

Lemma word_encode e w bs : 0 <= w < 2 ^ 32 -> word e (encode e w ++ bs) = w.
Proof.
  intros Hw. pose proof (le_roundtrip 4 w) as H. cbn [le_encode] in H. change (256 ^ Z.of_nat 4) with (2 ^ 32) in H.
  rewrite (Z.mod_small w (2 ^ 32)) in H by lia. unfold word, encode.
  destruct e; cbn [le_encode rev app take]; [exact H|].
  rewrite decode_big. cbn [le_decode] in H. lia.
Qed.

Lemma length_encode e w : length (encode e w) = 4%nat.
Proof. by destruct e. Qed.

Lemma drop_encode e w bs : drop 4 (encode e w ++ bs) = bs.
Proof. by destruct e. Qed.

Lemma encodes_cons e w ws : encodes e (w :: ws) = encode e w ++ encodes e ws.
Proof. done. Qed.

Lemma encodes_app e ws ws' : encodes e (ws ++ ws') = encodes e ws ++ encodes e ws'.
Proof. unfold encodes. by rewrite fmap_app, concat_app. Qed.

Lemma zlen_encodes e ws : zlen (encodes e ws) = 4 * zlen ws.
Proof.
  unfold zlen. induction ws as [|w ws IH]; [done|]. rewrite encodes_cons, length_app, length_encode. cbn [length]. lia.
Qed.

Lemma encodes_bytes e ws : bytes (encodes e ws).
Proof.
  induction ws as [|w ws IH]; [by constructor|]. rewrite encodes_cons. apply Forall_app. split; [|done].
  assert (H : forall x, 0 <= x mod 256 < 256) by (intros; apply Z.mod_pos_bound; lia).
  destruct e; cbn [encode le_encode rev app]; repeat (constructor; [apply H|]); constructor.
Qed.

(** One to three words are added as their bytes are. *)
Lemma absorb_words e w0 w1 w2 s :
  words [w0; w1; w2] ->
  absorb e (encodes e [w0; w1; w2]) s = mk_abc (u32 (ra s + w0)) (u32 (rb s + w1)) (u32 (rc s + w2)) /\
  (wf s -> absorb e (encodes e [w0; w1]) s = mk_abc (u32 (ra s + w0)) (u32 (rb s + w1)) (rc s)) /\
  (wf s -> absorb e (encodes e [w0]) s = mk_abc (u32 (ra s + w0)) (rb s) (rc s)).
Proof.
  unfold words, wf. rewrite !Forall_cons. intros (H0 & H1 & H2 & _). unfold absorb. rewrite !encodes_cons.
  change (encodes e []) with (@nil Z). assert (D : forall l : list Z, drop 8 l = drop 4 (drop 4 l)) by (intros; by rewrite drop_drop).
  rewrite !D, !drop_encode, !word_encode by done. split; [done|].
  assert (Hz : word e [] = 0 /\ word e (drop 4 []) = 0) by (unfold word; cbn [app take drop]; rewrite decode_0; done).
  rewrite (proj1 Hz), (proj2 Hz). split; intros (Ha & Hb & Hc); by rewrite !seeded by done.
Qed.

Lemma hash_words_digest e (fuel : nat) ws s :
  (length ws < fuel)%nat -> words ws -> wf s -> hash_words fuel ws (zlen ws) s = Some (digest e (encodes e ws) s).
Proof.
  revert ws s. induction fuel as [|fuel IH]; intros ws s Hf Hw Hs; [lia|]. unfold hash_words. cbn [blocks].
  destruct (Z.ltb_spec 3 (zlen ws)) as [Hlt|Hle].
  - destruct ws as [|w0 [|w1 [|w2 ws]]]; [unfold zlen in Hlt; cbn in Hlt; lia..|].
    assert (Hw3 : words [w0; w1; w2] /\ words ws) by (apply (Forall_app _ [w0; w1; w2] ws); exact Hw).
    replace (zlen (w0 :: w1 :: w2 :: ws) - 3) with (zlen ws) by (unfold zlen; cbn [length]; lia).
    cbn [word_block lookup list_lookup add_a add_b add_c mbind option_bind ra rb rc].
    destruct (absorb_words e w0 w1 w2 s) as [<- _]; [apply Hw3|].
    assert (Hne : encodes e ws <> []).
    { intros E. pose proof (zlen_encodes e ws) as H. rewrite E in H. unfold zlen in *. cbn [length] in *. lia. }
    change (w0 :: w1 :: w2 :: ws) with ([w0; w1; w2] ++ ws). rewrite encodes_app, digest_block; [|by rewrite zlen_encodes|done].
    apply IH; [cbn [length] in Hf; lia|apply Hw3|apply mix_wf, absorb_wf].
  - cbn [mbind option_bind].
    destruct ws as [|w0 [|w1 [|w2 [|? ws]]]]; [done|..|unfold zlen in Hle; cbn [length] in Hle; lia];
      (rewrite digest_last by (rewrite zlen_encodes; unfold zlen; cbn [length]; lia)).
    + destruct (absorb_words e w0 0 0 s) as (_ & _ & ->); [|done|done].
      unfold words in *. rewrite !Forall_cons in *. split_and!; [apply Hw..|lia|lia|lia|lia|done].
    + destruct (absorb_words e w0 w1 0 s) as (_ & -> & _); [|done|done].
      unfold words in *. rewrite !Forall_cons in *. split_and!; [apply Hw..|lia|lia|done].
    + by destruct (absorb_words e w0 w1 w2 s) as (-> & _ & _).
Qed.

(** ** Inverse of [mix] *)

(** [z -= y; x ^= rot(z, k); x += z]. *)
Definition unmix_step (k x y z : Z) : Z * Z := let z := u32 (z - y) in (u32 (Z.lxor x (rot z k) + z), z).

Definition unmix (s : abc) : abc :=
  let '(a, b, c) := (ra s, rb s, rc s) in
  let '(c, b) := unmix_step 4 c a b in
  let '(b, a) := unmix_step 19 b c a in
  let '(a, c) := unmix_step 16 a b c in
  let '(c, b) := unmix_step 8 c a b in
  let '(b, a) := unmix_step 6 b c a in
  let '(a, c) := unmix_step 4 a b c in
  mk_abc a b c.

Lemma unmix_mix_step k x y z x' z' :
  0 <= x < 2 ^ 32 -> 0 <= z < 2 ^ 32 -> mix_step k x y z = (x', z') -> unmix_step k x' y z' = (x, z).
Proof.
  intros Hx Hz [= <- <-]. unfold unmix_step. cbv zeta.
  assert (E : u32 (u32 (z + y) - y) = z) by (wrap32; replace (z + y - y) with z by lia; by apply u32_small).
  rewrite E, Z.lxor_assoc, Z.lxor_nilpotent, Z.lxor_0_r. wrap32.
  replace (x - z + z) with x by lia. by rewrite u32_small.
Qed.

Lemma mix_step_in k x y z x' z' :
  mix_step k x y z = (x', z') -> 0 <= k <= 32 -> 0 <= z < 2 ^ 32 -> 0 <= x' < 2 ^ 32 /\ 0 <= z' < 2 ^ 32.
Proof. intros E Hk Hz. pose proof (mix_step_range k x y z Hk Hz) as H. by rewrite E in H. Qed.

(** [mix] is reversible, as its comment says: [unmix] gives back the three words, so
    no two states are mixed to the same one. *)
Theorem mix_reversible (s : abc) : wf s -> unmix (mix s) = s /\ (forall s', wf s' -> mix s' = mix s -> s' = s).
Proof.
  assert (Inv : forall s, wf s -> unmix (mix s) = s).
  { clear. intros [a b c] (Ha & Hb & Hc). cbn [ra rb rc] in *. unfold mix. cbn [ra rb rc].
    destruct (mix_step 4 a b c) as [a1 c1] eqn:E1. destruct (mix_step_in _ _ _ _ _ _ E1) as [Ha1 Hc1]; [lia|done|].
    destruct (mix_step 6 b c1 a1) as [b1 a2] eqn:E2. destruct (mix_step_in _ _ _ _ _ _ E2) as [Hb1 Ha2]; [lia|done|].
    destruct (mix_step 8 c1 a2 b1) as [c2 b2] eqn:E3. destruct (mix_step_in _ _ _ _ _ _ E3) as [Hc2 Hb2]; [lia|done|].
    destruct (mix_step 16 a2 b2 c2) as [a3 c3] eqn:E4. destruct (mix_step_in _ _ _ _ _ _ E4) as [Ha3 Hc3]; [lia|done|].
    destruct (mix_step 19 b2 c3 a3) as [b3 a4] eqn:E5. destruct (mix_step_in _ _ _ _ _ _ E5) as [Hb3 Ha4]; [lia|done|].
    destruct (mix_step 4 c3 a4 b3) as [c4 b4] eqn:E6.
    apply unmix_mix_step in E1, E2, E3, E4, E5, E6; [|done..].
    unfold unmix. cbn [ra rb rc]. by rewrite E6, E5, E4, E3, E2, E1. }
  intros Hs. split; [by apply Inv|]. intros s' Hs' E. by rewrite <- (Inv s' Hs'), E, Inv.
Qed.

(** C26: a hash depends on the bytes of the key alone.  Whatever the address of the key, the
    byte order of the machine, the build and the bytes that follow the key in memory, the
    functions return what the reference computes from the key: by words, by half words or
    by bytes.  So the hasher of strings gives equal strings the same hash. *)
Theorem lookup3_exact (cfg : config) (addr : Z) (key rest : list Z) (pc pb : Z) :
  bytes (key ++ rest) -> readable cfg addr key rest ->
  let little := digest Little key (setup (zlen key) pc pb) in
  lookup3_hashlittle cfg addr (key ++ rest) (zlen key) pc = Some (rc (digest Little key (setup (zlen key) pc 0))) /\
  lookup3_hashlittle2 cfg addr (key ++ rest) (zlen key) pc pb = Some (rc little, rb little) /\
  lookup3_hashbig cfg addr (key ++ rest) (zlen key) pc = Some (rc (digest Big key (setup (zlen key) pc 0))) /\
  hash_string cfg addr (key ++ rest) (zlen key) =
    Some (let s := digest Little key (setup (zlen key) 0 0) in join (rc s, rb s)).
Proof.
  intros Hb Hr. cbv zeta. split_and!; [by apply hashlittle_digest|by apply hashlittle2_digest|by apply hashbig_digest|].
  unfold hash_string. by rewrite hashlittle2_digest.
Qed.

Lemma setup_words length pc pb :
  setup (4 * length) pc pb =
  let x := u32 (u32 (0xdeadbeef + u32 (u64 (Z.shiftl length 2))) + pc) in mk_abc x x (u32 (x + pb)).
Proof.
  assert (E : u32 (4 * length) = u32 (u64 (Z.shiftl length 2))).
  { rewrite Z.shiftl_mul_pow2 by lia. unfold u32, u64. rewrite (mod_pow2_mod _ 32 64) by lia. f_equal. lia. }
  unfold setup. by rewrite E.
Qed.

Lemma hashword_digest e ws initval :
  words ws -> lookup3_hashword ws (zlen ws) initval = Some (rc (digest e (encodes e ws) (setup (4 * zlen ws) initval 0))).
Proof.
  intros Hw. unfold lookup3_hashword.
  assert (E : u32 (Z.shiftl (u32 (zlen ws)) 2) = u32 (4 * zlen ws)).
  { rewrite Z.shiftl_mul_pow2 by lia. unfold u32. rewrite Zmult_mod_idemp_l. f_equal. lia. }
  rewrite E. pose proof (setup_0 (4 * zlen ws) initval) as E2. cbv zeta in E2. cbv zeta. rewrite <- E2.
  rewrite (hash_words_digest e); [done|unfold enough, zlen; lia|done|apply setup_wf].
Qed.

(** The functions on words are those on bytes, as their comments say.  On a key of
    words [lookup3_hashword] is [lookup3_hashlittle] on a little-endian machine and
    [lookup3_hashbig] on a big-endian one, and [lookup3_hashword2] is
    [lookup3_hashlittle2], on the bytes of these words at any address; with a second
    seed of 0 the functions with two results return the result of the others first. *)
Theorem lookup3_words_agree (cfg : config) (addr : Z) (ws : list Z) (pc pb : Z) :
  words ws ->
  let key := encodes (machine cfg) ws in
  lookup3_hashword ws (zlen ws) pc =
    match machine cfg with
    | Little => lookup3_hashlittle cfg addr key (zlen key) pc
    | Big => lookup3_hashbig cfg addr key (zlen key) pc
    end /\
  (machine cfg = Little -> lookup3_hashword2 ws (zlen ws) pc pb = lookup3_hashlittle2 cfg addr key (zlen key) pc pb) /\
  fst <$> lookup3_hashword2 ws (zlen ws) pc 0 = lookup3_hashword ws (zlen ws) pc /\
  fst <$> lookup3_hashlittle2 cfg addr key (zlen key) pc 0 = lookup3_hashlittle cfg addr key (zlen key) pc.
Proof.
  intros Hw key.
  assert (Hb : bytes (key ++ [])) by (rewrite app_nil_r; apply encodes_bytes).
  assert (Hr : readable cfg addr key []).
  { intros _ _ _. unfold key. rewrite zlen_encodes. replace (- (4 * zlen ws)) with ((- zlen ws) * 4) by lia.
    by rewrite Z_mod_mult. }
  assert (H2 : forall e b, lookup3_hashword2 ws (zlen ws) pc b =
    Some (let s := digest e (encodes e ws) (setup (4 * zlen ws) pc b) in (rc s, rb s))).
  { intros e b. unfold lookup3_hashword2. pose proof (setup_words (zlen ws) pc b) as E. cbv zeta in E. cbv zeta. rewrite <- E.
    rewrite (hash_words_digest e); [done|unfold enough, zlen; lia|done|apply setup_wf]. }
  pose proof (zlen_encodes (machine cfg) ws : zlen key = _) as Hl.
  pose proof (fun pc => hashlittle_digest cfg addr key [] pc Hb Hr) as L.
  pose proof (fun pc pb => hashlittle2_digest cfg addr key [] pc pb Hb Hr) as L2.
  pose proof (fun pc => hashbig_digest cfg addr key [] pc Hb Hr) as B. rewrite app_nil_r in L, L2, B.
  rewrite L, B, !L2, Hl. split_and!.
  - rewrite (hashword_digest (machine cfg)) by done. subst key. by destruct (machine cfg).
  - intros E. rewrite (H2 Little). subst key. by rewrite E.
  - by rewrite (H2 Little), (hashword_digest Little).
  - done.
Qed.
End Lookup3.

(** The vectors that the self test of lookup3.c prints, and the witnesses. *)
Module Lookup3Demo.
Import Lookup3.

(** "Four score and seven years ago" *)
Definition speech : list Z :=
  [70; 111; 117; 114; 32; 115; 99; 111; 114; 101; 32; 97; 110; 100; 32; 115; 101; 118; 101; 110; 32; 121; 101; 97; 114;
   115; 32; 97; 103; 111].
Definition intel : config := mk_config Little true false.

Example driver5 :
  lookup3_hashlittle2 intel 0 [] 0 0 0 = Some (0xdeadbeef, 0xdeadbeef) /\
  lookup3_hashlittle2 intel 0 [] 0 0 0xdeadbeef = Some (0xbd5b7dde, 0xdeadbeef) /\
  lookup3_hashlittle2 intel 0 [] 0 0xdeadbeef 0xdeadbeef = Some (0x9c093ccd, 0xbd5b7dde) /\
  lookup3_hashlittle2 intel 1 speech 30 0 0 = Some (0x17770551, 0xce7226e6) /\
  lookup3_hashlittle2 intel 2 speech 30 0 1 = Some (0xe3607cae, 0xbd371de4) /\
  lookup3_hashlittle2 intel 4 (speech ++ [0; 99]) 30 1 0 = Some (0xcd628161, 0x6cbea4b3) /\
  lookup3_hashlittle intel 8 (speech ++ [0; 98]) 30 0 = Some 0x17770551 /\
  lookup3_hashlittle intel 3 speech 30 1 = Some 0xcd628161.
Proof. split_and!; vm_compute; reflexivity. Qed.

Lemma mix_reversible_witness : unmix (mix (mk_abc 1 2 3)) = mk_abc 1 2 3.
Proof. refine (proj1 (mix_reversible (mk_abc 1 2 3) _)). unfold wf. cbn [ra rb rc]. lia. Defined.

Lemma lookup3_exact_witness :
  lookup3_hashlittle intel 4 (speech ++ [0; 99]) 30 1 = Some 0xcd628161 /\
  lookup3_hashlittle intel 4 (speech ++ [0; 99]) 30 1 = Some (rc (digest Little speech (setup 30 1 0))).
Proof.
  split; [vm_compute; reflexivity|].
  apply (lookup3_exact intel 4 speech [0; 99] 1 0); [unfold bytes; repeat constructor; lia|].
  intros _ _ _. vm_compute. discriminate.
Defined.

Lemma lookup3_words_agree_witness :
  lookup3_hashword [1; 2; 3; 4] 4 7 = lookup3_hashlittle intel 1 (encodes Little [1; 2; 3; 4]) 16 7.
Proof. apply (lookup3_words_agree intel 1 [1; 2; 3; 4] 7 0). unfold words. repeat constructor; lia. Defined.
End Lookup3Demo.
