(* ===== verification/TcpProcessor.v ===== *)
(** The TCP processor: the probes of collector/kernel/bpf_src/tcp-processor, which look
    at the data of TCP connections.

    The probes keep a record of every connection and a control block that the collector
    can also write.  Data that an application sends or receives is handed, in pieces, to
    a handler.  With [ENABLE_TCP_DATA_STREAM] the handler copies the piece to the data
    channel and announces it; without, it recognises HTTP in the kernel.  The build is
    an argument, [data_stream]; the debugging switches of render_bpf.h are off and
    [TCP_LIFETIME_HACK] is on.

    Each probe runs on one processor without being interrupted by another probe of that
    processor; the records on the data channel and the messages are one sequence.  The
    maps are the class [BpfMap]; memory and clock are arguments.

    Theorems: the data channel carries exactly the bytes of a piece; a sent message is
    carried from its first byte on, in at most eight pieces; what the two probes read
    outside of the buffers of the application. *)
From S2P Require Import Prelude PollerBase Agent ProbeUdp Probes.

Module TcpProcessor.
Import Probes.

(** * Constants and data *)

Definition TCP_PROTOCOL_COUNT : Z := 1.
Definition TCPPROTO_UNKNOWN : Z := 0.
Definition TCPPROTO_HTTP : Z := 1.
Definition TCP_PROTOCOL_BIT (x : Z) : Z := Z.shiftl 1 (x - 1).
Definition TCP_PROTOCOL_MASK : Z := Z.shiftl 1 TCP_PROTOCOL_COUNT - 1.
Definition TCP_TAIL_CALL_MAX_DEPTH : Z := 8.
Definition DATA_CHANNEL_CHUNK_MAX : Z := 16383.

Definition BPF_LOG_TABLE_BAD_REMOVE : Z := 3.
Definition BPF_LOG_UNSUPPORTED_IO : Z := 10.
Definition BPF_TABLE_TCP_CONNECTIONS : Z := 7.

Inductive STREAM_TYPE := ST_SEND | ST_RECV.
Definition stream_number (st : STREAM_TYPE) : Z := match st with ST_SEND => 0 | ST_RECV => 1 end.

Inductive CLIENT_SERVER_TYPE := SC_CLIENT | SC_SERVER.
Definition side_number (cs : CLIENT_SERVER_TYPE) : Z := match cs with SC_CLIENT => 0 | SC_SERVER => 1 end.

Inductive TCP_PROTOCOL_DETECT_RESULT := TPD_FAILED | TPD_UNKNOWN | TPD_SUCCESS.

Record tcp_stream_info_t := mk_stream { protocol_count : Z; total : Z }.

(** [data] of the protocol state holds the time of a request. *)
Record tcp_protocol_state_t := mk_protocol { protocol : Z; candidates : Z; request_timestamp : Z }.

Record tcp_connection_t := mk_conn {
  conn_sk : Z;
  parent_sk : Z;
  upid : Z;
  send_stream : tcp_stream_info_t;
  recv_stream : tcp_stream_info_t;
  protocol_state : tcp_protocol_state_t
}.

Record tcp_control_stream_t := mk_control { enable : Z; start : Z }.
Record tcp_control_value_t := mk_value { send_control : tcp_control_stream_t; recv_control : tcp_control_stream_t }.

Definition stream_of (st : STREAM_TYPE) (c : tcp_connection_t) : tcp_stream_info_t :=
  match st with ST_SEND => send_stream c | ST_RECV => recv_stream c end.
Definition control_of (st : STREAM_TYPE) (v : tcp_control_value_t) : tcp_control_stream_t :=
  match st with ST_SEND => send_control v | ST_RECV => recv_control v end.

Definition set_total (st : STREAM_TYPE) (t : Z) (c : tcp_connection_t) : tcp_connection_t :=
  let upd s := mk_stream (protocol_count s) t in
  match st with
  | ST_SEND => mk_conn (conn_sk c) (parent_sk c) (upid c) (upd (send_stream c)) (recv_stream c) (protocol_state c)
  | ST_RECV => mk_conn (conn_sk c) (parent_sk c) (upid c) (send_stream c) (upd (recv_stream c)) (protocol_state c)
  end.
Definition set_parent (sk : Z) (c : tcp_connection_t) : tcp_connection_t :=
  mk_conn (conn_sk c) sk (upid c) (send_stream c) (recv_stream c) (protocol_state c).
Definition set_protocol_state (p : tcp_protocol_state_t) (c : tcp_connection_t) : tcp_connection_t :=
  mk_conn (conn_sk c) (parent_sk c) (upid c) (send_stream c) (recv_stream c) p.
Definition set_enable (st : STREAM_TYPE) (e : Z) (v : tcp_control_value_t) : tcp_control_value_t :=
  match st with
  | ST_SEND => mk_value (mk_control e (start (send_control v))) (recv_control v)
  | ST_RECV => mk_value (send_control v) (mk_control e (start (recv_control v)))
  end.
Definition set_start (st : STREAM_TYPE) (s : Z) (v : tcp_control_value_t) : tcp_control_value_t :=
  match st with
  | ST_SEND => mk_value (mk_control (enable (send_control v)) s) (recv_control v)
  | ST_RECV => mk_value (send_control v) (mk_control (enable (recv_control v)) s)
  end.

(** The arguments saved for the return probes; of those that are only saved, none is
    read. *)
Record sendmsg_args := mk_send {
  s_sk : Z; s_iov : Z; s_iov_ptr : Z; s_iov_len : Z; s_iov_offset : Z; s_nr_segs : Z; s_written : Z; s_depth : Z }.
Record recvmsg_args := mk_recv { r_sk : Z; r_iov_base : Z; r_iov_len : Z; r_written : Z; r_depth : Z }.

(** What the probes read of a [struct msghdr] (the fields of its iterator) and of a
    [struct iovec], and plain memory. *)
Record msghdr := mk_msghdr { iter_type : Z; msg_iov : Z; nr_segs : Z; iov_offset : Z }.
Record iovec := mk_iovec { iov_base : Z; iov_len : Z }.
Record user_memory := mk_user {
  msg_at : Z -> msghdr;
  iov_at : Z -> iovec;
  bytes_at : Z -> Z -> probed (list Z)
}.
Definition sizeof_iovec : Z := 16.

(** [string_starts_with] and [char_to_number] of bpf_memory.h; characters are signed
    bytes, given by their codes. *)
Definition char_to_number (x : Z) : Z := if (x <? 48) || (57 <? x) then -1 else x - 48.

(** What a probe sends: a message, or a record of the data channel, which is a header
    with the length and the bytes of the data. *)
Inductive sent :=
  | Event (t : Z) (m : Agent.agent_msg)
  | Chunk (length : Z) (data : list Z).

(** * Slices and bits *)

Definition slice (bs : list Z) (p q : Z) : list Z := take (Z.to_nat (q - p)) (drop (Z.to_nat p) bs).

Lemma slice_app bs p q r : 0 <= p <= q -> q <= r -> slice bs p q ++ slice bs q r = slice bs p r.
Proof.
  intros Hp Hq. unfold slice. replace (Z.to_nat (r - p)) with (Z.to_nat (q - p) + Z.to_nat (r - q))%nat by lia.
  rewrite <- take_take_drop, drop_drop. do 3 f_equal. lia.
Qed.

Lemma zlen_slice bs p q : 0 <= p <= q -> q <= zlen bs -> zlen (slice bs p q) = q - p.
Proof. intros. unfold slice, zlen in *. rewrite length_take, length_drop. lia. Qed.

(** The part of [len] that the bits above bit [i] make up. *)
Definition above (len i : Z) : Z := len - len mod 2 ^ i.

Lemma above_step len i :
  0 <= len -> 0 <= i ->
  above len i = if negb (Z.land len (2 ^ i) =? 0) then above len (i + 1) + 2 ^ i else above len (i + 1).
Proof.
  intros Hl Hi. unfold above. rewrite Z.pow_add_r, Z.rem_mul_r by lia. change (2 ^ 1) with 2.
  assert (E : Z.land len (2 ^ i) = 2 ^ i * ((len / 2 ^ i) mod 2)).
  { replace ((len / 2 ^ i) mod 2) with (Z.b2z (Z.testbit len i)) by (by rewrite Z.testbit_spec').
    apply Z.bits_inj'. intros j Hj. rewrite Z.land_spec, Z.pow2_bits_eqb, Z.mul_comm, <- Z.shiftl_mul_pow2, Z.shiftl_spec by lia.
    destruct (Z.eqb_spec i j) as [<-|Hne].
    - rewrite Z.sub_diag, andb_true_r. by destruct (Z.testbit len i).
    - rewrite andb_false_r. symmetry. destruct (decide (j < i)); [by apply Z.testbit_neg_r; lia|].
      destruct (Z.testbit len i); [apply (Z.pow2_bits_false 0); lia|apply Z.bits_0]. }
  rewrite E. pose proof (pow2_pos i Hi). pose proof (Z.mod_pos_bound (len / 2 ^ i) 2 ltac:(lia)).
  assert (Hr : (len / 2 ^ i) mod 2 = 0 \/ (len / 2 ^ i) mod 2 = 1) by lia.
  destruct Hr as [-> | ->]; [rewrite Z.mul_0_r; cbn; lia|].
  destruct (Z.eqb_spec (2 ^ i * 1) 0); cbn [negb]; lia.
Qed.

Lemma above_range len i : 0 <= len -> 0 <= i -> 0 <= above len i <= len.
Proof.
  intros Hl Hi. unfold above. pose proof (pow2_pos i Hi).
  pose proof (Z.mod_pos_bound len (2 ^ i)). pose proof (Z.mod_le len (2 ^ i)). lia.
Qed.

Lemma above_mono len i : 0 <= len -> 0 <= i -> above len (i + 1) <= above len i.
Proof. intros Hl Hi. rewrite (above_step len i) by lia. pose proof (pow2_pos i Hi). destruct (negb _); lia. Qed.

Section processor.
Context {MS MP MC MK MA MR MX : Type} `{BpfMap ProbeUdp.udp_open_socket_t MS} `{BpfMap Z MP}.
Context `{BpfMap tcp_connection_t MC} `{BpfMap tcp_control_value_t MK} `{BpfMap sendmsg_args MA} `{BpfMap recvmsg_args MR}
  `{BpfMap accept_args MX}.
Context (bpf_ktime_get_ns : nat -> Z) (BOOT_TIME_ADJUSTMENT : Z) (fileline : Z -> Z).
(** The version of the kernel and two constants of its headers; the build. *)
Context (LINUX_VERSION_CODE ITER_IOVEC ITER_KVEC : Z) (data_stream : bool).

(** * State

    The clock and the log are those of [ProbeUdp]. *)

Record State := mk_state {
  base : ProbeUdp.Probe MS MP;
  tcp_connections : MC;
  tcp_control : MK;
  sendmsg_active : MA;
  recvmsg_active : MR;
  accept_active : MX
}.

Definition run (A : Type) : Type := State -> A * State * list sent.
Definition ret {A} (a : A) : run A := fun s => (a, s, []).
Definition bind {A B} (m : run A) (f : A -> run B) : run B := fun s =>
  let '(a, s, out) := m s in
  let '(b, s, rest) := f a s in (b, s, out ++ rest).
Definition here : run State := fun s => (s, s, []).
Definition send (x : sent) : run unit := fun s => (tt, s, [x]).

Declare Scope processor_scope.
Delimit Scope processor_scope with processor.
Notation "'do*' x ':=' e 'in' k" := (bind e (fun x => k)) (at level 10, x name, e at level 200, k at level 200) : processor_scope.
Notation "'do*' '_' ':=' e 'in' k" := (bind e (fun _ => k)) (at level 10, e at level 200, k at level 200) : processor_scope.
Open Scope processor_scope.

Definition on_base {A} (m : ProbeUdp.run A) : run A := fun s =>
  let '(a, b, out) := m (base s) in
  (a, mk_state b (tcp_connections s) (tcp_control s) (sendmsg_active s) (recvmsg_active s) (accept_active s),
   (fun tm => Event tm.1 tm.2) <$> out).

Definition get_timestamp : run Z := on_base (ProbeUdp.get_timestamp bpf_ktime_get_ns BOOT_TIME_ADJUSTMENT).
Definition bpf_log (line : Z) (ctx : context) (code a0 a1 a2 : Z) : run unit :=
  on_base (ProbeUdp.bpf_log bpf_ktime_get_ns BOOT_TIME_ADJUSTMENT fileline line ctx code a0 a1 a2).
Definition GET_PID_TGID (line : Z) (ctx : context) : run unit :=
  on_base (ProbeUdp.GET_PID_TGID bpf_ktime_get_ns BOOT_TIME_ADJUSTMENT fileline line ctx).

Definition set_connections (m : MC) : run unit := fun s =>
  (tt, mk_state (base s) m (tcp_control s) (sendmsg_active s) (recvmsg_active s) (accept_active s), []).
Definition set_control (m : MK) : run unit := fun s =>
  (tt, mk_state (base s) (tcp_connections s) m (sendmsg_active s) (recvmsg_active s) (accept_active s), []).
Definition set_sendmsg (m : MA) : run unit := fun s =>
  (tt, mk_state (base s) (tcp_connections s) (tcp_control s) m (recvmsg_active s) (accept_active s), []).
Definition set_recvmsg (m : MR) : run unit := fun s =>
  (tt, mk_state (base s) (tcp_connections s) (tcp_control s) (sendmsg_active s) m (accept_active s), []).
Definition set_accept (m : MX) : run unit := fun s =>
  (tt, mk_state (base s) (tcp_connections s) (tcp_control s) (sendmsg_active s) (recvmsg_active s) m, []).

(** Writes through the pointer to a connection or to its control block. *)
Definition write_conn (sk : Z) (f : tcp_connection_t -> tcp_connection_t) : run unit :=
  do* s := here in
  match bm_lookup (tcp_connections s) sk with
  | Some c => set_connections (bm_store (tcp_connections s) sk (f c))
  | None => ret tt
  end.
Definition write_control (sk : Z) (f : tcp_control_value_t -> tcp_control_value_t) : run unit :=
  do* s := here in
  match bm_lookup (tcp_control s) sk with
  | Some v => set_control (bm_store (tcp_control s) sk (f v))
  | None => ret tt
  end.

(** * Connections: bpf_tcp_socket.h *)

Definition lookup_tcp_connection (sk : Z) : run (option tcp_connection_t) :=
  do* s := here in ret (bm_lookup (tcp_connections s) sk).

Definition new_connection (ctx : context) (sk : Z) : tcp_connection_t :=
  let stream := mk_stream (if data_stream then 0 else TCP_PROTOCOL_COUNT) 0 in
  mk_conn sk 0 (tgid_of ctx) stream stream (mk_protocol 0 (if data_stream then 0 else TCP_PROTOCOL_MASK) 0).

Definition create_tcp_connection (ctx : context) (sk : Z) : run (option tcp_connection_t) :=
  do* s := here in
  do* _ :=
    match bm_lookup (tcp_connections s) sk with
    | Some _ => set_connections (bm_delete (tcp_connections s) sk).1
    | None => ret tt
    end in
  do* _ := GET_PID_TGID 106 ctx in
  do* s := here in
  do* _ :=
    match bm_lookup (tcp_connections s) sk with
    | Some _ => ret tt
    | None => set_connections (bm_insert (tcp_connections s) sk (new_connection ctx sk)).1
    end in
  do* s := here in
  do* _ := set_control (bm_insert (tcp_control s) sk (mk_value (mk_control 1 0) (mk_control 1 0))).1 in
  ret (bm_lookup (tcp_connections s) sk).

Definition get_tcp_control (c : tcp_connection_t) : run (option tcp_control_value_t) :=
  do* s := here in ret (bm_lookup (tcp_control s) (conn_sk c)).

Definition enable_tcp_connection (sk recv send : Z) : run unit :=
  write_control sk (fun v =>
    let v := if negb (send =? 0) then set_enable ST_SEND (if send <? 0 then 0 else 1) v else v in
    if negb (recv =? 0) then set_enable ST_RECV (if recv <? 0 then 0 else 1) v else v).

Definition delete_tcp_connection (ctx : context) (c : tcp_connection_t) (sk : Z) : run unit :=
  do* s := here in
  do* _ := set_control (bm_delete (tcp_control s) (conn_sk c)).1 in
  let '(m, r) := bm_delete (tcp_connections s) sk in
  do* _ := set_connections m in
  if negb (r =? 0) then bpf_log 167 ctx BPF_LOG_TABLE_BAD_REMOVE BPF_TABLE_TCP_CONNECTIONS sk 0 else ret tt.

(** [c] is the connection behind the pointer, [sk] its key.  The handler is applied to the
    data and its length, and the pointer is used again after it has run. *)
Definition write_to_tcp_stream (ctx : context) (sk : Z) (c : tcp_connection_t) (st : STREAM_TYPE) (src_data src_bytes : Z)
    (handler : Z -> Z -> run unit) : run unit :=
  do* v := get_tcp_control c in
  match v with
  | None => bpf_log 183 ctx ProbeUdp.BPF_LOG_UNREACHABLE 0 0 0
  | Some v =>
    let start := start (control_of st v) in
    let before := total (stream_of st c) in
    if u64 (before + src_bytes) <=? start
    then write_conn sk (fun c => set_total st (u64 (total (stream_of st c) + src_bytes)) c)
    else
      let trim_len := if before <? start then start - before else 0 in
      let data_len := u64 (src_bytes - trim_len) in
      do* _ := if before <? start then write_conn sk (set_total st (u64 start)) else ret tt in
      do* _ := handler (src_data + trim_len) data_len in
      write_conn sk (fun c => set_total st (u64 (total (stream_of st c) + data_len)) c)
  end.

Definition handle_kprobe__tcp_init_sock (ctx : context) (sk : Z) : run unit :=
  do* c := create_tcp_connection ctx sk in
  match c with
  | Some _ => ret tt
  | None =>
    do* _ := GET_PID_TGID 229 ctx in
    bpf_log 231 ctx ProbeUdp.BPF_LOG_TABLE_BAD_INSERT BPF_TABLE_TCP_CONNECTIONS (tgid_of ctx) sk
  end.

Definition handle_kprobe__security_sk_free (ctx : context) (sk : Z) : run unit :=
  do* c := lookup_tcp_connection sk in
  match c with Some c => delete_tcp_connection ctx c sk | None => ret tt end.

(** * Accepted connections: bpf_inet_csk_accept.h *)

Definition handle_kprobe__inet_csk_accept (ctx : context) (sk flags err : Z) : run unit :=
  do* _ := GET_PID_TGID 34 ctx in
  do* c := lookup_tcp_connection sk in
  do* c := match c with Some c => ret (Some c) | None => create_tcp_connection ctx sk end in
  match c with
  | None => bpf_log 45 ctx ProbeUdp.BPF_LOG_TABLE_BAD_INSERT BPF_TABLE_TCP_CONNECTIONS (tgid_of ctx) sk
  | Some _ =>
    do* s := here in
    set_accept (bm_insert (accept_active s) (ProbeUdp.pid_tgid ctx) (mk_accept sk flags err)).1
  end.

Definition handle_kretprobe__inet_csk_accept (ctx : context) (newsk : Z) : run unit :=
  do* _ := GET_PID_TGID 66 ctx in
  do* s := here in
  let DELETE_ARGS := set_accept (bm_delete (accept_active s) (ProbeUdp.pid_tgid ctx)).1 in
  if newsk =? 0 then DELETE_ARGS
  else
    match bm_lookup (accept_active s) (ProbeUdp.pid_tgid ctx) with
    | None => ret tt
    | Some args =>
      do* c := create_tcp_connection ctx newsk in
      match c with
      | None =>
        do* _ := bpf_log 95 ctx ProbeUdp.BPF_LOG_TABLE_BAD_INSERT BPF_TABLE_TCP_CONNECTIONS (tgid_of ctx) newsk in
        DELETE_ARGS
      | Some _ =>
        do* _ := write_conn newsk (set_parent (a_sk args)) in
        DELETE_ARGS
      end
    end.

(** * The data channel: bpf_data_channel.h *)

Section memory.
Context (mem : user_memory).

(** [bpf_probe_read(&msg.data, n, in)] and [perf_submit] of the header and [n] bytes. *)
Definition copy (n : Z) (src : Z) : run unit :=
  send (Chunk n (got (replicate (Z.to_nat n) 0) (bytes_at mem src n))).

(** [k] times [COPY_CHUNK_256]: where to go on. *)
Fixpoint COPY_CHUNK_256 (k : nat) (src : Z) : run Z :=
  match k with
  | O => ret src
  | S k => do* _ := copy 256 src in COPY_CHUNK_256 k (src + 256)
  end.

(** [COPY_BIT_256] to [COPY_BIT_8192], with [bit / 256] copies, and [COPY_BIT]. *)
Definition COPY_BIT_ge256 (k : nat) (len src : Z) : run Z :=
  if negb (Z.land len (256 * Z.of_nat k) =? 0) then COPY_CHUNK_256 k src else ret src.
Definition COPY_BIT (B len src : Z) : run Z :=
  if negb (Z.land len B =? 0) then do* _ := copy B src in ret (src + B) else ret src.
Definition COPY_LAST_BITS (len src : Z) : run unit :=
  match Z.land len 3 with
  | 1 => copy 1 src
  | 2 => copy 2 src
  | 3 => copy 3 src
  | _ => ret tt
  end.

(** The new [*actual_len]. *)
Definition data_channel_submit (data data_len : Z) : run Z :=
  let len := u32 data_len in
  let len := if DATA_CHANNEL_CHUNK_MAX <? len then DATA_CHANNEL_CHUNK_MAX else len in
  do* src := COPY_BIT_ge256 32 len data in
  do* src := COPY_BIT_ge256 16 len src in
  do* src := COPY_BIT_ge256 8 len src in
  do* src := COPY_BIT_ge256 4 len src in
  do* src := COPY_BIT_ge256 2 len src in
  do* src := COPY_BIT_ge256 1 len src in
  do* src := COPY_BIT 128 len src in
  do* src := COPY_BIT 64 len src in
  do* src := COPY_BIT 32 len src in
  do* src := COPY_BIT 16 len src in
  do* src := COPY_BIT 8 len src in
  do* src := COPY_BIT 4 len src in
  do* _ := COPY_LAST_BITS len src in
  ret len.

(** * Messages: bpf_tcp_events.h *)

Definition tcp_events_submit_http_response (ctx : context) (sk code latency : Z) (dir : CLIENT_SERVER_TYPE) : run unit :=
  do* _ := GET_PID_TGID 55 ctx in
  do* now := get_timestamp in
  send (Event now (Agent.http_response sk (tgid_of ctx) code latency (side_number dir))).

Definition tcp_events_submit_tcp_data (ctx : context) (sk : Z) (c : tcp_connection_t) (st : STREAM_TYPE)
    (is_server : CLIENT_SERVER_TYPE) (data data_len : Z) : run unit :=
  do* actual_len := data_channel_submit data data_len in
  do* now := get_timestamp in
  do* _ := GET_PID_TGID 95 ctx in
  do* s := here in
  let c := default c (bm_lookup (tcp_connections s) sk) in
  send (Event now (Agent.tcp_data (conn_sk c) (tgid_of ctx) (u32 actual_len) (total (stream_of st c)) (stream_number st)
    (side_number is_server))).

(** * HTTP in the kernel: bpf_http_protocol.h, bpf_memory.h *)

(** The [n] bytes at [a], zeros where they cannot be read. *)
Definition local_bytes (a n : Z) : list Z := got (replicate (Z.to_nat n) 0) (bytes_at mem a n).

Definition string_starts_with (s1 s1_len : Z) (s2 : list Z) : bool :=
  if s1_len <? zlen s2 then false else bool_decide (take (length s2) (local_bytes s1 (zlen s2)) = s2).

(** The rest of each verb after its first letter, or two letters. *)
Definition detected (b : bool) : TCP_PROTOCOL_DETECT_RESULT := if b then TPD_SUCCESS else TPD_FAILED.

Definition http_detect (data data_len : Z) : TCP_PROTOCOL_DETECT_RESULT :=
  let verb (skip at_least : Z) (s : list Z) :=
    if at_least <=? data_len then detected (string_starts_with (data + skip) (u64 (data_len - skip)) s) else TPD_UNKNOWN in
  if data_len <? 3 then TPD_UNKNOWN
  else
    let c := hd 0 (local_bytes data 1) in
    if c =? 71 then verb 1 3 [69; 84]                           (* GET *)
    else if c =? 72 then verb 1 4 [69; 65; 68]                  (* HEAD *)
    else if c =? 68 then verb 1 6 [69; 76; 69; 84; 69]          (* DELETE *)
    else if c =? 67 then verb 1 7 [79; 78; 78; 69; 67; 84]      (* CONNECT *)
    else if c =? 79 then verb 1 7 [80; 84; 73; 79; 78; 83]      (* OPTIONS *)
    else if c =? 84 then verb 1 5 [82; 65; 67; 69]              (* TRACE *)
    else if c =? 80 then
      let c := hd 0 (local_bytes (data + 1) 1) in
      if c =? 85 then verb 2 3 [84]                             (* PUT *)
      else if c =? 79 then verb 2 3 [83; 84]                    (* POST *)
      else if c =? 65 then verb 2 5 [84; 67; 72]                (* PATCH *)
      else TPD_FAILED
    else TPD_FAILED.

Definition set_request_timestamp (t : Z) (c : tcp_connection_t) : tcp_connection_t :=
  let p := protocol_state c in set_protocol_state (mk_protocol (protocol p) (candidates p) t) c.

(** Listens to the other direction only. *)
Definition turn (c : tcp_connection_t) (st : STREAM_TYPE) : run unit :=
  match st with
  | ST_RECV => enable_tcp_connection (conn_sk c) (-1) 1
  | ST_SEND => enable_tcp_connection (conn_sk c) 1 (-1)
  end.

Definition http_process_request (sk : Z) (c : tcp_connection_t) (st : STREAM_TYPE) : run unit :=
  do* now := get_timestamp in
  do* _ := write_conn sk (set_request_timestamp now) in
  turn c st.

(** The status code of [HTTP/x.y code]. *)
Definition response_code (localdata : list Z) : option Z :=
  match localdata with
  | [h; t1; t2; p; slash; major; dot; minor; space; c2; c1; c0] =>
    if negb (bool_decide ([h; t1; t2; p; slash] = [72; 84; 84; 80; 47])) || negb (dot =? 46) || negb (space =? 32) then None
    else if (char_to_number major =? -1) || (char_to_number minor =? -1) then None
    else if (char_to_number c2 =? -1) || (char_to_number c1 =? -1) || (char_to_number c0 =? -1) then None
    else Some (u16 (char_to_number c2 * 100 + char_to_number c1 * 10 + char_to_number c0))
  | _ => None
  end.

Definition http_process_response (ctx : context) (sk : Z) (c : tcp_connection_t) (st : STREAM_TYPE) (data data_len : Z)
    : run unit :=
  do* _ :=
    if data_len <? 12 then ret tt
    else
      match response_code (local_bytes data 12) with
      | None => ret tt
      | Some code =>
        do* now := get_timestamp in
        let latency := u64 (now - request_timestamp (protocol_state c)) in
        tcp_events_submit_http_response ctx (conn_sk c) code latency (match st with ST_SEND => SC_SERVER | ST_RECV => SC_CLIENT end)
      end in
  turn c st.

(** * Handlers: bpf_tcp_processor.c *)

Definition tcp_client_handler (ctx : context) (sk : Z) (c : tcp_connection_t) (st : STREAM_TYPE) (data data_len : Z) : run unit :=
  if data_stream then tcp_events_submit_tcp_data ctx sk c st SC_CLIENT data data_len
  else
    let p := protocol_state c in
    let p :=
      if (protocol p =? TCPPROTO_UNKNOWN) && negb (Z.land (candidates p) (TCP_PROTOCOL_BIT TCPPROTO_HTTP) =? 0) then
        match http_detect data data_len with
        | TPD_FAILED =>
          mk_protocol (protocol p) (Z.land (candidates p) (not32 (TCP_PROTOCOL_BIT TCPPROTO_HTTP))) (request_timestamp p)
        | TPD_SUCCESS => mk_protocol TCPPROTO_HTTP (candidates p) (request_timestamp p)
        | TPD_UNKNOWN => p
        end
      else p in
    do* _ := write_conn sk (set_protocol_state p) in
    if (protocol (protocol_state c) =? TCPPROTO_UNKNOWN) && (candidates p =? 0) then enable_tcp_connection (conn_sk c) (-1) (-1)
    else if protocol p =? TCPPROTO_UNKNOWN then ret tt
    else if protocol p =? TCPPROTO_HTTP then http_process_request sk c st
    else bpf_log 128 ctx ProbeUdp.BPF_LOG_UNREACHABLE 0 0 0.

Definition tcp_server_handler (ctx : context) (sk : Z) (c : tcp_connection_t) (st : STREAM_TYPE) (data data_len : Z) : run unit :=
  if data_stream then tcp_events_submit_tcp_data ctx sk c st SC_SERVER data data_len
  else
    let p := protocol_state c in
    if protocol p =? TCPPROTO_UNKNOWN then ret tt
    else if protocol p =? TCPPROTO_HTTP then http_process_response ctx sk c st data data_len
    else bpf_log 166 ctx ProbeUdp.BPF_LOG_UNREACHABLE 0 0 0.

(** * Sends and receives: bpf_tcp_send_recv.h *)

(** Accepted sockets have a parent: they send as servers and receive from clients. *)
Definition tcp_send_stream_handler (ctx : context) (sk : Z) (c : tcp_connection_t) (data data_len : Z) : run unit :=
  if negb (parent_sk c =? 0) then tcp_server_handler ctx sk c ST_SEND data data_len
  else tcp_client_handler ctx sk c ST_SEND data data_len.

Definition tcp_recv_stream_handler (ctx : context) (sk : Z) (c : tcp_connection_t) (data data_len : Z) : run unit :=
  if negb (parent_sk c =? 0) then tcp_client_handler ctx sk c ST_RECV data data_len
  else tcp_server_handler ctx sk c ST_RECV data data_len.

(** Does the probe look at the data of this connection in this direction? *)
Definition interested (c : tcp_connection_t) (v : tcp_control_value_t) (st : STREAM_TYPE) : bool :=
  (data_stream || (negb (candidates (protocol_state c) =? 0) && negb (protocol_count (stream_of st c) =? 0)))
  && negb (enable (control_of st v) =? 0).

(** Kernels before 3.19 have no iterator. *)
Definition has_iter : bool := negb (LINUX_VERSION_CODE <? KERNEL_VERSION 3 19 0).
Definition unsupported (type : Z) : bool := has_iter && (1 <? type) && (Z.land type (Z.lor ITER_IOVEC ITER_KVEC) =? 0).

Definition handle_kprobe__tcp_sendmsg (ctx : context) (sk msg : Z) : run unit :=
  do* _ := GET_PID_TGID 115 ctx in
  do* c := lookup_tcp_connection sk in
  match c with
  | None => ret tt
  | Some c =>
    do* v := get_tcp_control c in
    match v with
    | None => ret tt
    | Some v =>
      if negb (interested c v ST_SEND) then ret tt
      else
        let m := msg_at mem msg in
        if unsupported (iter_type m) then bpf_log 180 ctx BPF_LOG_UNSUPPORTED_IO (stream_number ST_SEND) sk (iter_type m)
        else
          do* s := here in
          set_sendmsg (bm_insert (sendmsg_active s) (ProbeUdp.pid_tgid ctx)
            (mk_send sk (msg_iov m) 0 0 (if has_iter then iov_offset m else 0) (nr_segs m) 0 1)).1
    end
  end.

(** The arguments with the next [struct iovec] loaded, where the last one is used up. *)
Definition next_iovec (a : sendmsg_args) : option sendmsg_args :=
  if negb (s_iov_len a =? 0) then Some a
  else if s_nr_segs a <=? 0 then None
  else
    let v := iov_at mem (s_iov a) in
    Some (mk_send (s_sk a) (s_iov a + sizeof_iovec) (iov_base v + s_iov_offset a) (iov_len v) 0 (s_nr_segs a - 1)
            (s_written a) (s_depth a)).

Definition to_copy (copied written : Z) : Z :=
  let remaining := s32 (copied - written) in
  if DATA_CHANNEL_CHUNK_MAX <? remaining then DATA_CHANNEL_CHUNK_MAX else remaining.

(** [fuel] is the number of tail calls the kernel admits; the result tells whether the
    probe has come to its end. *)
Fixpoint continue_tcp_sendmsg (fuel : nat) (ctx : context) (copied : Z) : run bool :=
  match fuel with
  | O => ret false
  | S fuel =>
    do* _ := GET_PID_TGID 233 ctx in
    do* s := here in
    let DELETE_ARGS := do* s := here in set_sendmsg (bm_delete (sendmsg_active s) (ProbeUdp.pid_tgid ctx)).1 in
    match bm_lookup (sendmsg_active s) (ProbeUdp.pid_tgid ctx) with
    | None => ret true
    | Some args =>
      if copied <=? 0 then do* _ := DELETE_ARGS in ret true
      else
        do* c := lookup_tcp_connection (s_sk args) in
        match c, next_iovec args with
        | None, _ | _, None => do* _ := DELETE_ARGS in ret true
        | Some c, Some a =>
          let remaining := s32 (copied - s_written a) in
          let n := to_copy copied (s_written a) in
          let n := if s_iov_len a <? u64 n then s_iov_len a else n in
          do* _ := write_to_tcp_stream ctx (s_sk a) c ST_SEND (s_iov_ptr a) n (tcp_send_stream_handler ctx (s_sk a) c) in
          if (n =? remaining) || (s_depth a =? TCP_TAIL_CALL_MAX_DEPTH) then do* _ := DELETE_ARGS in ret true
          else
            do* s := here in
            do* _ := set_sendmsg (bm_store (sendmsg_active s) (ProbeUdp.pid_tgid ctx)
              (mk_send (s_sk a) (s_iov a) (s_iov_ptr a + n) (s_iov_len a - n) (s_iov_offset a) (s_nr_segs a)
                 (s_written a + n) (s_depth a + 1))) in
            continue_tcp_sendmsg fuel ctx copied
        end
    end
  end.

Definition handle_kprobe__tcp_recvmsg (ctx : context) (sk msg : Z) : run unit :=
  do* _ := GET_PID_TGID 328 ctx in
  do* c := lookup_tcp_connection sk in
  match c with
  | None => ret tt
  | Some c =>
    do* v := get_tcp_control c in
    match v with
    | None => ret tt
    | Some v =>
      if negb (interested c v ST_RECV) then ret tt
      else
        let m := msg_at mem msg in
        if unsupported (iter_type m) then bpf_log 389 ctx BPF_LOG_UNSUPPORTED_IO (stream_number ST_RECV) sk (iter_type m)
        else
          let iov := iov_at mem (msg_iov m) in
          do* s := here in
          set_recvmsg (bm_insert (recvmsg_active s) (ProbeUdp.pid_tgid ctx) (mk_recv sk (iov_base iov) (iov_len iov) 0 1)).1
    end
  end.

Fixpoint continue_tcp_recvmsg (fuel : nat) (ctx : context) (copied : Z) : run bool :=
  match fuel with
  | O => ret false
  | S fuel =>
    do* _ := GET_PID_TGID 443 ctx in
    do* s := here in
    let DELETE_ARGS := do* s := here in set_recvmsg (bm_delete (recvmsg_active s) (ProbeUdp.pid_tgid ctx)).1 in
    match bm_lookup (recvmsg_active s) (ProbeUdp.pid_tgid ctx) with
    | None => ret true
    | Some a =>
      if copied <=? 0 then do* _ := DELETE_ARGS in ret true
      else
        do* c := lookup_tcp_connection (r_sk a) in
        match c with
        | None => do* _ := DELETE_ARGS in ret true
        | Some c =>
          let remaining := s32 (copied - r_written a) in
          let n := to_copy copied (r_written a) in
          do* _ := write_to_tcp_stream ctx (r_sk a) c ST_RECV (r_iov_base a + r_written a) n (tcp_recv_stream_handler ctx (r_sk a) c) in
          if (n =? remaining) || (r_depth a =? TCP_TAIL_CALL_MAX_DEPTH) then do* _ := DELETE_ARGS in ret true
          else
            do* s := here in
            do* _ := set_recvmsg (bm_store (recvmsg_active s) (ProbeUdp.pid_tgid ctx)
              (mk_recv (r_sk a) (r_iov_base a) (r_iov_len a) (r_written a + n) (r_depth a + 1))) in
            continue_tcp_recvmsg fuel ctx copied
        end
    end
  end.

(** The return probes: the first tail call. *)
Definition handle_kretprobe__tcp_sendmsg (ctx : context) (retval : Z) : run bool :=
  continue_tcp_sendmsg (Z.to_nat TCP_TAIL_CALL_MAX_DEPTH) ctx (s32 retval).
Definition handle_kretprobe__tcp_recvmsg (ctx : context) (retval : Z) : run bool :=
  continue_tcp_recvmsg (Z.to_nat TCP_TAIL_CALL_MAX_DEPTH) ctx (s32 retval).
End memory.

(** * The data channel carries the data *)

(** The memory holds [bs] from the address [a] on. *)
Definition holds (mem : user_memory) (a : Z) (bs : list Z) : Prop :=
  forall off n, 0 <= off -> 0 < n -> off + n <= zlen bs ->
    bytes_at mem (a + off) n = Got (take (Z.to_nat n) (drop (Z.to_nat off) bs)).

(** Records of 1 to 256 bytes that are [bs] together. *)
Definition records (pieces : list (list Z)) : list sent := (fun p => Chunk (zlen p) p) <$> pieces.
Definition pieces_of (bs : list Z) (pieces : list (list Z)) : Prop :=
  concat pieces = bs /\ Forall (fun p => 1 <= zlen p <= 256) pieces.

Lemma pieces_app bs bs' ps ps' : pieces_of bs ps -> pieces_of bs' ps' -> pieces_of (bs ++ bs') (ps ++ ps').
Proof. intros [<- Hf] [<- Hf']. split; [apply concat_app|by apply Forall_app]. Qed.

Section channel.
Context (mem : user_memory) (data : Z) (bs : list Z).
Hypothesis Hmem : holds mem data bs.

(** From offset [p] of the data to offset [q], which the result [f q] tells. *)
Definition fills {A} (m : run A) (p q : Z) (x : A) : Prop := forall s, exists pieces,
  m s = (x, s, records pieces) /\ pieces_of (slice bs p q) pieces.

Lemma fills_ret {A} (x : A) p : fills (ret x) p p x.
Proof. intros s. exists []. split; [done|]. unfold slice. rewrite Z.sub_diag. by split; [|constructor]. Qed.

Lemma fills_bind {A B} (m : run A) (f : A -> run B) p q r x y :
  0 <= p <= q -> q <= r -> fills m p q x -> fills (f x) q r y -> fills (bind m f) p r y.
Proof.
  intros Hp Hq Hm Hf s. destruct (Hm s) as (ps & E & Hps). destruct (Hf s) as (ps' & E' & Hps').
  exists (ps ++ ps'). unfold bind. rewrite E, E'. split; [by unfold records; rewrite fmap_app|].
  rewrite <- (slice_app bs p q r) by lia. by apply pieces_app.
Qed.

Lemma copy_fills n p : 1 <= n <= 256 -> 0 <= p -> p + n <= zlen bs -> fills (copy mem n (data + p)) p (p + n) tt.
Proof using Hmem.
  intros Hn Hp Hq s. exists [slice bs p (p + n)]. unfold copy, send. rewrite Hmem by lia. cbn [got].
  pose proof (zlen_slice bs p (p + n)). split.
  - unfold records. cbn. do 3 f_equal; [lia|]. unfold slice. do 2 f_equal. lia.
  - split; [cbn; by rewrite app_nil_r|]. constructor; [lia|constructor].
Qed.

Lemma chunks_fill (k : nat) p :
  0 <= p -> p + 256 * Z.of_nat k <= zlen bs ->
  fills (COPY_CHUNK_256 mem k (data + p)) p (p + 256 * Z.of_nat k) (data + (p + 256 * Z.of_nat k)).
Proof using Hmem.
  revert p. induction k as [|k IH]; intros p Hp Hq.
  { replace (p + 256 * Z.of_nat 0) with p by lia. apply fills_ret. }
  cbn [COPY_CHUNK_256]. eapply fills_bind; [| |apply copy_fills|]; [lia..|].
  replace (data + p + 256) with (data + (p + 256)) by lia.
  replace (p + 256 * Z.of_nat (S k)) with (p + 256 + 256 * Z.of_nat k) by lia. apply IH; lia.
Qed.

Lemma bit_fills (k : nat) i len :
  0 <= i -> 256 * Z.of_nat k = 2 ^ i -> 0 <= len <= zlen bs ->
  fills (COPY_BIT_ge256 mem k len (data + above len (i + 1))) (above len (i + 1)) (above len i) (data + above len i).
Proof using Hmem.
  intros Hi Hk Hl. unfold COPY_BIT_ge256. pose proof (above_range len (i + 1)). pose proof (above_range len i).
  rewrite (above_step len i) in * by lia. rewrite Hk. destruct (negb _); [|apply fills_ret].
  rewrite <- Hk. apply chunks_fill; lia.
Qed.

Lemma small_bit_fills B i len :
  0 <= i -> B = 2 ^ i -> B <= 256 -> 0 <= len <= zlen bs ->
  fills (COPY_BIT mem B len (data + above len (i + 1))) (above len (i + 1)) (above len i) (data + above len i).
Proof using Hmem.
  intros Hi -> Hb Hl. unfold COPY_BIT. pose proof (above_range len (i + 1)). pose proof (above_range len i).
  rewrite (above_step len i) in * by lia. destruct (negb _); [|apply fills_ret]. pose proof (pow2_pos i Hi).
  eapply fills_bind; [| |apply copy_fills|]; [lia..|]. rewrite <- Z.add_assoc. apply fills_ret.
Qed.

(** One bit, and what follows. *)
Lemma bit_then {A} (k : nat) i len (f : Z -> run A) y :
  0 <= i -> 256 * Z.of_nat k = 2 ^ i -> 0 <= len <= zlen bs -> fills (f (data + above len i)) (above len i) len y ->
  fills (bind (COPY_BIT_ge256 mem k len (data + above len (i + 1))) f) (above len (i + 1)) len y.
Proof using Hmem.
  intros Hi Hk Hl Hf. pose proof (above_range len (i + 1)). pose proof (above_range len i). pose proof (above_mono len i).
  eapply fills_bind; [| |by apply bit_fills|exact Hf]; lia.
Qed.

Lemma small_then {A} B i len (f : Z -> run A) y :
  0 <= i -> B = 2 ^ i -> B <= 256 -> 0 <= len <= zlen bs -> fills (f (data + above len i)) (above len i) len y ->
  fills (bind (COPY_BIT mem B len (data + above len (i + 1))) f) (above len (i + 1)) len y.
Proof using Hmem.
  intros Hi HB Hb Hl Hf. pose proof (above_range len (i + 1)). pose proof (above_range len i). pose proof (above_mono len i).
  eapply fills_bind; [| |by apply small_bit_fills|exact Hf]; lia.
Qed.

Lemma last_fills len : 0 <= len <= zlen bs -> fills (COPY_LAST_BITS mem len (data + above len 2)) (above len 2) len tt.
Proof using Hmem.
  intros Hl. unfold COPY_LAST_BITS. change 3 with (2 ^ 2 - 1) at 1. rewrite land_mask by lia.
  pose proof (above_range len 2). assert (E : len = above len 2 + len mod 2 ^ 2) by (unfold above; lia).
  assert (Hr : len mod 2 ^ 2 = 0 \/ len mod 2 ^ 2 = 1 \/ len mod 2 ^ 2 = 2 \/ len mod 2 ^ 2 = 3)
    by (pose proof (Z.mod_pos_bound len (2 ^ 2)); lia).
  destruct Hr as [Hr|[Hr|[Hr|Hr]]]; rewrite Hr in *.
  { rewrite Z.add_0_r in E. rewrite <- E. apply fills_ret. }
  all: rewrite E at 3; apply copy_fills; lia.
Qed.

Lemma data_channel_fills :
  zlen bs <= DATA_CHANNEL_CHUNK_MAX -> fills (data_channel_submit mem data (zlen bs)) 0 (zlen bs) (zlen bs).
Proof using Hmem.
  intros Hl. pose proof (zlen_nonneg bs). unfold DATA_CHANNEL_CHUNK_MAX in Hl. set (len := zlen bs).
  assert (Hlen : 0 <= len <= zlen bs) by lia. unfold data_channel_submit.
  rewrite (u32_small len) by lia. unfold DATA_CHANNEL_CHUNK_MAX. destruct (Z.ltb_spec 16383 len); [lia|].
  assert (E : above len 14 = 0) by (unfold above; rewrite Z.mod_small; lia).
  replace data with (data + above len 14) at 1 by lia. rewrite <- E at 1.
  apply (bit_then 32 13); [lia|done|done|]. apply (bit_then 16 12); [lia|done|done|].
  apply (bit_then 8 11); [lia|done|done|]. apply (bit_then 4 10); [lia|done|done|].
  apply (bit_then 2 9); [lia|done|done|]. apply (bit_then 1 8); [lia|done|done|].
  apply (small_then 128 7); [lia|done|lia|done|]. apply (small_then 64 6); [lia|done|lia|done|].
  apply (small_then 32 5); [lia|done|lia|done|]. apply (small_then 16 4); [lia|done|lia|done|].
  apply (small_then 8 3); [lia|done|lia|done|]. apply (small_then 4 2); [lia|done|lia|done|].
  pose proof (above_range len 2). eapply fills_bind; [| |by apply last_fills|apply fills_ret]; lia.
Qed.
End channel.

(** ** The first record

    The length of the first of the records of [len] bytes, if there are at least 4. *)
Definition lead (len : Z) : Z := Z.min 256 (2 ^ Z.log2 len).
Definition starts (k : Z) {A} (m : run A) : Prop := forall s, exists d tail, (m s).2 = Chunk k d :: tail.

Lemma starts_bind {A B} k (m : run A) (f : A -> run B) : starts k m -> starts k (bind m f).
Proof.
  intros Hm s. destruct (Hm s) as (d & tail & E). unfold bind. destruct (m s) as [[a s1] o]. cbn in E. subst o.
  destruct (f a s1) as [[b s2] o2]. by eexists _, _.
Qed.

Lemma copy_starts mem n src : starts n (copy mem n src).
Proof. intros s. by eexists _, _. Qed.

Lemma bit_top len i : 0 <= i -> 0 <= len < 2 ^ (i + 1) -> negb (Z.land len (2 ^ i) =? 0) = bool_decide (2 ^ i <= len).
Proof.
  intros Hi Hl. pose proof (above_step len i ltac:(lia) Hi) as E. pose proof (pow2_pos i Hi). unfold above in E.
  rewrite (Z.mod_small len (2 ^ (i + 1))), Z.sub_diag in E by lia. case_bool_decide as Hc.
  - destruct (negb _); [done|]. pose proof (Z.mod_pos_bound len (2 ^ i)). lia.
  - rewrite Z.mod_small in E by lia. destruct (negb _); [lia|done].
Qed.

Lemma lead_top len i : 0 <= i -> 2 ^ i <= len < 2 ^ (i + 1) -> lead len = Z.min 256 (2 ^ i).
Proof. intros Hi Hl. unfold lead. by rewrite (Z.log2_unique len i). Qed.

Lemma ge256_starts {A} mem (k : nat) i len src (f : Z -> run A) :
  8 <= i -> 256 * Z.of_nat k = 2 ^ i -> 0 <= len < 2 ^ (i + 1) -> (len < 2 ^ i -> starts (lead len) (f src)) ->
  starts (lead len) (bind (COPY_BIT_ge256 mem k len src) f).
Proof.
  intros Hi Hk Hl Hf. unfold COPY_BIT_ge256. rewrite Hk, bit_top by lia. case_bool_decide as Hc.
  - rewrite (lead_top len i) by lia. pose proof (Z.pow_le_mono_r 2 8 i). rewrite Z.min_l by lia.
    destruct k as [|k]; [lia|]. apply starts_bind. cbn [COPY_CHUNK_256]. apply starts_bind, copy_starts.
  - intros s. unfold bind, ret. destruct (Hf ltac:(lia) s) as (d & tail & E). destruct (f src s) as [[? ?] ?]. by eexists _, _.
Qed.

Lemma small_starts {A} mem B i len src (f : Z -> run A) :
  0 <= i <= 8 -> B = 2 ^ i -> 0 <= len < 2 ^ (i + 1) -> (len < 2 ^ i -> starts (lead len) (f src)) ->
  starts (lead len) (bind (COPY_BIT mem B len src) f).
Proof.
  intros Hi -> Hl Hf. unfold COPY_BIT. rewrite bit_top by lia. case_bool_decide as Hc.
  - rewrite (lead_top len i) by lia. pose proof (Z.pow_le_mono_r 2 i 8). rewrite Z.min_r by lia.
    do 2 apply starts_bind. apply copy_starts.
  - intros s. unfold bind, ret. destruct (Hf ltac:(lia) s) as (d & tail & E). destruct (f src s) as [[? ?] ?]. by eexists _, _.
Qed.

Lemma data_channel_starts mem data len :
  4 <= len <= DATA_CHANNEL_CHUNK_MAX -> starts (lead len) (data_channel_submit mem data len).
Proof.
  unfold DATA_CHANNEL_CHUNK_MAX. intros Hl. unfold data_channel_submit. rewrite (u32_small len) by lia.
  unfold DATA_CHANNEL_CHUNK_MAX. destruct (Z.ltb_spec 16383 len); [lia|].
  apply (ge256_starts mem 32 13); [lia|done|cbn; lia|]. intros H1'. apply (ge256_starts mem 16 12); [lia|done|cbn in *; lia|]. intros H2'.
  apply (ge256_starts mem 8 11); [lia|done|cbn in *; lia|]. intros H3'. apply (ge256_starts mem 4 10); [lia|done|cbn in *; lia|]. intros H4'.
  apply (ge256_starts mem 2 9); [lia|done|cbn in *; lia|]. intros H5'. apply (ge256_starts mem 1 8); [lia|done|cbn in *; lia|]. intros H6'.
  apply (small_starts mem 128 7); [lia|done|cbn in *; lia|]. intros H7'. apply (small_starts mem 64 6); [lia|done|cbn in *; lia|]. intros H8'.
  apply (small_starts mem 32 5); [lia|done|cbn in *; lia|]. intros H9'. apply (small_starts mem 16 4); [lia|done|cbn in *; lia|]. intros H10'.
  apply (small_starts mem 8 3); [lia|done|cbn in *; lia|]. intros H11'. apply (small_starts mem 4 2); [lia|done|cbn in *; lia|]. cbn. lia.
Qed.

(** * Pieces *)

Section carry.
Context {LC : BpfMapLaws tcp_connection_t MC} {LK : BpfMapLaws tcp_control_value_t MK}.
Context {LA : BpfMapLaws sendmsg_args MA} {LR : BpfMapLaws recvmsg_args MR}.
Context (Hstream : data_stream = true) (ctx : context) (Hproc : no_process ctx = false).

Definition connections (s : State) : gmap Z tcp_connection_t := bm_contents (tcp_connections s).
Definition controls (s : State) : gmap Z tcp_control_value_t := bm_contents (tcp_control s).

(** The pieces [ps] of a stream from offset [off] on, each of them on the data channel
    and then announced. *)
Inductive carried (sk : Z) (st : STREAM_TYPE) (side : CLIENT_SERVER_TYPE) : Z -> list (list Z) -> list sent -> Prop :=
  | carried_nil off : carried sk st side off [] []
  | carried_cons off p ps t pieces out :
      pieces_of p pieces -> 1 <= zlen p <= DATA_CHANNEL_CHUNK_MAX -> carried sk st side (off + zlen p) ps out ->
      carried sk st side off (p :: ps)
        (records pieces ++ Event t (Agent.tcp_data sk (tgid_of ctx) (zlen p) off (stream_number st) (side_number side)) :: out).

(** The streams as the collector sees them: a stream is watched from its start. *)
Definition watched (s : State) (sk : Z) (c : tcp_connection_t) : Prop :=
  connections s !! sk = Some c /\ conn_sk c = sk /\
  exists v, controls s !! sk = Some v /\
    start (send_control v) <= total (send_stream c) /\ start (recv_control v) <= total (recv_stream c).

Definition same_args (s s' : State) : Prop :=
  sendmsg_active s' = sendmsg_active s /\ recvmsg_active s' = recvmsg_active s /\ accept_active s' = accept_active s.

Lemma quiet_pid line s : GET_PID_TGID line ctx s = (tt, s, []).
Proof using Hproc.
  unfold GET_PID_TGID, on_base, ProbeUdp.GET_PID_TGID. unfold no_process, tgid_of in Hproc. rewrite Hproc. by destruct s.
Qed.

(** The clock ticks, and nothing else changes. *)
Definition now_at (s : State) : Z := u64 (bpf_ktime_get_ns (ProbeUdp.ticks (base s)) + BOOT_TIME_ADJUSTMENT).

Lemma get_timestamp_ticks s : exists b,
  get_timestamp s = (now_at s, mk_state b (tcp_connections s) (tcp_control s) (sendmsg_active s) (recvmsg_active s) (accept_active s), []).
Proof. unfold get_timestamp, on_base, ProbeUdp.get_timestamp. eauto. Qed.

Lemma bind_here {A} (f : State -> run A) s : bind here f s = f s s.
Proof. unfold bind, here. by destruct (f s s) as [[? ?] ?]. Qed.

Lemma bind_ret {A B} (a : A) (f : A -> run B) s : bind (ret a) f s = f a s.
Proof. unfold bind, ret. by destruct (f a s) as [[? ?] ?]. Qed.

Lemma bind_tt {A B} (m : run A) (f : A -> run B) s a s' : m s = (a, s', []) -> bind m f s = f a s'.
Proof. intros E. unfold bind. rewrite E. by destruct (f a s') as [[? ?] ?]. Qed.

Lemma bind_assoc {A B C} (m : run A) (f : A -> run B) (g : B -> run C) s :
  bind (bind m f) g s = bind m (fun a => bind (f a) g) s.
Proof.
  unfold bind. destruct (m s) as [[a s1] o1]. destruct (f a s1) as [[b s2] o2]. destruct (g b s2) as [[c s3] o3].
  by rewrite app_assoc.
Qed.

Lemma bind_run {A B} (m : run A) (f : A -> run B) s a s' out b s'' out' :
  m s = (a, s', out) -> f a s' = (b, s'', out') -> bind m f s = (b, s'', out ++ out').
Proof. intros E E'. unfold bind. by rewrite E, E'. Qed.

Lemma write_conn_contents sk f s c :
  connections s !! sk = Some c -> exists m, bm_contents m = <[sk := f c]> (connections s) /\
  write_conn sk f s = (tt, mk_state (base s) m (tcp_control s) (sendmsg_active s) (recvmsg_active s) (accept_active s), []).
Proof.
  intros Hc. exists (bm_store (tcp_connections s) sk (f c)). unfold write_conn, bind, here, connections in *.
  rewrite bm_lookup_spec, Hc. split; [|done]. apply bm_store_spec. by rewrite Hc.
Qed.

Lemma total_set_total st t c : total (stream_of st (set_total st t c)) = t.
Proof. by destruct st. Qed.

Lemma set_total_idem st t t' c : set_total st t (set_total st t' c) = set_total st t c.
Proof. by destruct st. Qed.

(** One piece goes to the data channel and is announced. *)
Lemma submit_carries mem sk c st side data bs s :
  connections s !! sk = Some c -> conn_sk c = sk -> holds mem data bs -> zlen bs <= DATA_CHANNEL_CHUNK_MAX ->
  exists s' pieces, tcp_events_submit_tcp_data mem ctx sk c st side data (zlen bs) s
    = (tt, s', records pieces ++ [Event (now_at s) (Agent.tcp_data sk (tgid_of ctx) (zlen bs) (total (stream_of st c))
         (stream_number st) (side_number side))]) /\
    pieces_of bs pieces /\ (4 <= zlen bs -> exists c rest, pieces = c :: rest /\ zlen c = lead (zlen bs)) /\
    connections s' = connections s /\ tcp_control s' = tcp_control s /\ same_args s s'.
Proof using Hproc LC.
  intros Hc Hsk Hm Hl. destruct (data_channel_fills mem data bs Hm Hl s) as (pieces & E & Hp).
  destruct (get_timestamp_ticks s) as (b & Et). eexists _, pieces.
  split; [|split; [by unfold slice in Hp; rewrite Z.sub_0_r, drop_0, take_ge in Hp by (unfold zlen; lia)|split]].
  - unfold tcp_events_submit_tcp_data. eapply bind_run; [exact E|].
    rewrite <- (app_nil_l [_]). eapply bind_run; [exact Et|]. rewrite <- (app_nil_l [_]).
    eapply bind_run; [apply quiet_pid|]. unfold bind, here, send. cbn [tcp_connections].
    unfold connections in Hc. rewrite bm_lookup_spec, Hc. cbn [from_option id]. rewrite Hsk, (u32_small (zlen bs)); [done|].
    pose proof (zlen_nonneg bs). unfold DATA_CHANNEL_CHUNK_MAX in Hl. lia.
  - intros H4'. destruct (data_channel_starts mem data (zlen bs) ltac:(lia) s) as (d & tail & Es). rewrite E in Es. cbn in Es.
    destruct pieces as [|x rest]; [done|]. injection Es as Ex _ _. by exists x, rest.
  - done.
Qed.

Lemma same_args_trans s1 s2 s3 : same_args s1 s2 -> same_args s2 s3 -> same_args s1 s3.
Proof using. intros (E1 & E2 & E3) (F1 & F2 & F3). split_and!; by etrans. Qed.

Lemma write_carries mem sk c st side data bs s (handler : Z -> Z -> run unit) :
  (forall a n, handler a n = tcp_events_submit_tcp_data mem ctx sk c st side a n) ->
  watched s sk c -> 1 <= zlen bs <= DATA_CHANNEL_CHUNK_MAX -> 0 <= total (stream_of st c) ->
  total (stream_of st c) + zlen bs < 2 ^ 64 -> holds mem data bs ->
  exists s' t pieces, write_to_tcp_stream ctx sk c st data (zlen bs) handler s
    = (tt, s', records pieces ++ [Event t (Agent.tcp_data sk (tgid_of ctx) (zlen bs) (total (stream_of st c)) (stream_number st)
         (side_number side))]) /\
    pieces_of bs pieces /\ connections s' = <[sk := set_total st (total (stream_of st c) + zlen bs) c]> (connections s) /\
    tcp_control s' = tcp_control s /\ same_args s s'.
Proof using Hproc LC LK.
  intros Hh (Hc & Hsk & v & Hv & Hs1 & Hs2) Hl Ht0 Ht Hm.
  assert (Hstart : start (control_of st v) <= total (stream_of st c)) by (by destruct st).
  destruct (submit_carries mem sk c st side data bs s Hc Hsk Hm) as (s1 & pieces & E & Hp & _ & Hc1 & Hk1 & Ha1); [lia|].
  rewrite <- Hc1 in Hc. destruct (write_conn_contents sk (fun c => set_total st (u64 (total (stream_of st c) + zlen bs)) c) s1 c Hc)
    as (m & Em & Ew).
  eexists _, (now_at s), pieces. split; [|split; [exact Hp|]].
  - unfold write_to_tcp_stream, get_tcp_control. rewrite bind_assoc, bind_here, bind_ret.
    unfold controls in Hv. rewrite bm_lookup_spec, Hsk, Hv.
    destruct (Z.leb_spec (u64 (total (stream_of st c) + zlen bs)) (start (control_of st v))) as [Hle|_];
      [rewrite u64_small in Hle by lia; lia|].
    destruct (Z.ltb_spec (total (stream_of st c)) (start (control_of st v))); [lia|]. cbv zeta.
    rewrite Z.add_0_r, Z.sub_0_r, (u64_small (zlen bs)), Hh by (unfold DATA_CHANNEL_CHUNK_MAX in Hl; lia).
    rewrite bind_ret. rewrite <- (app_nil_r (_ ++ _)). eapply bind_run; [exact E|exact Ew].
  - unfold connections in *. cbn [tcp_connections tcp_control sendmsg_active recvmsg_active accept_active].
    rewrite Em, u64_small, Hc1 by lia. split_and!; [done|done|apply Ha1..].
Qed.

(** ** Sends *)

(** The [struct iovec]s at [iov] describe the buffers [segs], none of them empty. *)
Fixpoint iovecs (mem : user_memory) (iov : Z) (segs : list (list Z)) : Prop :=
  match segs with
  | [] => True
  | seg :: segs =>
    1 <= zlen seg /\ iov_len (iov_at mem iov) = zlen seg /\ holds mem (iov_base (iov_at mem iov)) seg /\
    iovecs mem (iov + sizeof_iovec) segs
  end.

(** The arguments point into a buffer, of which [cur] is left, followed by [segs]. *)
Definition points (mem : user_memory) (a : sendmsg_args) (cur : list Z) (segs : list (list Z)) : Prop :=
  holds mem (s_iov_ptr a) cur /\ s_iov_len a = zlen cur /\ s_iov_offset a = 0 /\ s_nr_segs a = zlen segs /\
  iovecs mem (s_iov a) segs.

Definition send_side (c : tcp_connection_t) : CLIENT_SERVER_TYPE := if parent_sk c =? 0 then SC_CLIENT else SC_SERVER.
Definition recv_side (c : tcp_connection_t) : CLIENT_SERVER_TYPE := if parent_sk c =? 0 then SC_SERVER else SC_CLIENT.

Lemma next_iovec_spec mem a cur segs :
  points mem a cur segs -> cur ++ concat segs <> [] ->
  exists a' cur' segs', next_iovec mem a = Some a' /\ points mem a' cur' segs' /\ 1 <= zlen cur' /\
    cur' ++ concat segs' = cur ++ concat segs /\ s_sk a' = s_sk a /\ s_written a' = s_written a /\ s_depth a' = s_depth a.
Proof.
  intros (Hm & Hl & Ho & Hn & Hi) Hne. unfold next_iovec. rewrite Hl.
  destruct (Z.eqb_spec (zlen cur) 0) as [E|E]; cbn [negb].
  - assert (cur = []) as -> by (destruct cur; [done|unfold zlen in E; cbn [length] in E; lia]).
    destruct segs as [|seg segs]; [done|]. destruct Hi as (H1' & Hlen & Hseg & Hi).
    rewrite Hn. destruct (Z.leb_spec (zlen (seg :: segs)) 0) as [Hle|_]; [unfold zlen in Hle; cbn [length] in Hle; lia|].
    eexists _, seg, segs. split; [done|]. split; [|done]. unfold points. cbn. rewrite Ho, Z.add_0_r, Hlen.
    split_and!; [done|done|done| |done]. unfold zlen. cbn [length]. lia.
  - exists a, cur, segs. split_and!; try done. pose proof (zlen_nonneg cur). lia.
Qed.

Lemma held_prefix mem a bs n : holds mem a bs -> 0 <= n <= zlen bs -> holds mem a (take (Z.to_nat n) bs).
Proof.
  intros Hm Hn off k Ho Hk Hle. unfold zlen in *. rewrite length_take in Hle. rewrite Hm by (unfold zlen; lia).
  f_equal. rewrite !take_drop_commute, take_take, Nat.min_l by lia. done.
Qed.

Lemma holds_suffix mem a bs n : holds mem a bs -> 0 <= n <= zlen bs -> holds mem (a + n) (drop (Z.to_nat n) bs).
Proof.
  intros Hm Hn off k Ho Hk Hle. unfold zlen in *. rewrite length_drop in Hle.
  rewrite <- Z.add_assoc, Hm by (unfold zlen; lia). f_equal. rewrite drop_drop. do 2 f_equal. lia.
Qed.

Definition sends (s : State) : gmap Z sendmsg_args := bm_contents (sendmsg_active s).
Definition receives (s : State) : gmap Z recvmsg_args := bm_contents (recvmsg_active s).

Lemma delete_sendmsg s :
  is_Some (sends s !! ProbeUdp.pid_tgid ctx) -> exists m, bm_contents m = delete (ProbeUdp.pid_tgid ctx) (sends s) /\
  bind here (fun s => set_sendmsg (bm_delete (sendmsg_active s) (ProbeUdp.pid_tgid ctx)).1) s
  = (tt, mk_state (base s) (tcp_connections s) (tcp_control s) m (recvmsg_active s) (accept_active s), []).
Proof.
  intros Hs. exists (bm_delete (sendmsg_active s) (ProbeUdp.pid_tgid ctx)).1. rewrite bind_here. split; [|done].
  destruct (bm_delete_spec (sendmsg_active s) (ProbeUdp.pid_tgid ctx)) as [(_ & _ & E)|(E & _)]; [exact E|].
  unfold sends in Hs. rewrite E in Hs. by destruct Hs.
Qed.

Lemma send_handler_stream mem sk c a n :
  tcp_send_stream_handler mem ctx sk c a n = tcp_events_submit_tcp_data mem ctx sk c ST_SEND (send_side c) a n.
Proof using Hstream.
  unfold tcp_send_stream_handler, tcp_server_handler, tcp_client_handler, send_side. rewrite Hstream.
  by destruct (parent_sk c =? 0).
Qed.

(** The stream has advanced by [n] bytes. *)
Definition advanced (st : STREAM_TYPE) (sk : Z) (c : tcp_connection_t) (n : Z) (s s' : State) : Prop :=
  connections s' = <[sk := set_total st (total (stream_of st c) + n) c]> (connections s) /\ controls s' = controls s.

Lemma advanced_watched st sk c n s s' :
  watched s sk c -> 0 <= n -> advanced st sk c n s s' -> watched s' sk (set_total st (total (stream_of st c) + n) c).
Proof.
  intros (Hc & Hsk & v & Hv & Hs & Hr) Hn [Hc' Hk']. unfold watched. rewrite Hc', Hk'.
  split; [apply lookup_insert_eq|]. destruct st; cbn in *; (split; [done|]); exists v; split_and!; done || lia.
Qed.

Lemma advanced_trans st sk c n m s1 s2 s3 :
  advanced st sk c n s1 s2 -> advanced st sk (set_total st (total (stream_of st c) + n) c) m s2 s3 ->
  advanced st sk c (n + m) s1 s3.
Proof.
  intros [Hc Hk] [Hc' Hk']. split; [|by rewrite Hk', Hk].
  by rewrite Hc', Hc, insert_insert_eq, set_total_idem, total_set_total, Z.add_assoc.
Qed.

(** The announcement of the piece [p]. *)
Definition announced (sk t : Z) (p : list Z) (off : Z) (st : STREAM_TYPE) (side : CLIENT_SERVER_TYPE) : sent :=
  Event t (Agent.tcp_data sk (tgid_of ctx) (zlen p) off (stream_number st) (side_number side)).

(** How many bytes the next piece has. *)
Definition piece_size (remaining available : Z) : Z := Z.min (Z.min remaining DATA_CHANNEL_CHUNK_MAX) available.

Lemma send_unfold mem fuel s c a a1 copied :
  0 <= s_written a < copied -> copied < 2 ^ 31 -> 0 <= s_iov_len a1 ->
  sends s !! ProbeUdp.pid_tgid ctx = Some a -> connections s !! s_sk a = Some c -> next_iovec mem a = Some a1 ->
  s_written a1 = s_written a ->
  let n := piece_size (copied - s_written a) (s_iov_len a1) in
  continue_tcp_sendmsg mem (S fuel) ctx copied s =
  bind (write_to_tcp_stream ctx (s_sk a1) c ST_SEND (s_iov_ptr a1) n (tcp_send_stream_handler mem ctx (s_sk a1) c)) (fun _ =>
    if (n =? copied - s_written a) || (s_depth a1 =? TCP_TAIL_CALL_MAX_DEPTH)
    then bind (bind here (fun s => set_sendmsg (bm_delete (sendmsg_active s) (ProbeUdp.pid_tgid ctx)).1)) (fun _ => ret true)
    else bind here (fun s =>
      bind (set_sendmsg (bm_store (sendmsg_active s) (ProbeUdp.pid_tgid ctx)
              (mk_send (s_sk a1) (s_iov a1) (s_iov_ptr a1 + n) (s_iov_len a1 - n) (s_iov_offset a1) (s_nr_segs a1)
                 (s_written a1 + n) (s_depth a1 + 1)))) (fun _ => continue_tcp_sendmsg mem fuel ctx copied))) s.
Proof using Hproc LC LA.
  intros Hwr Hc31 Hl Ha Hc En Hwr1 n. cbn [continue_tcp_sendmsg].
  rewrite (bind_tt _ _ s tt s (quiet_pid _ s)), bind_here. unfold sends, connections in *. rewrite (bm_lookup_spec (sendmsg_active s)), Ha.
  destruct (Z.leb_spec copied 0); [lia|]. unfold lookup_tcp_connection. rewrite bind_assoc, bind_here, bind_ret.
  rewrite bm_lookup_spec, Hc, En, Hwr1.
  assert (Hr : s32 (copied - s_written a) = copied - s_written a) by (apply s32_small; lia). rewrite Hr.
  assert (E : (if s_iov_len a1 <? u64 (to_copy copied (s_written a)) then s_iov_len a1 else to_copy copied (s_written a)) = n).
  { unfold to_copy, n, piece_size, DATA_CHANNEL_CHUNK_MAX. rewrite Hr.
    destruct (Z.ltb_spec 16383 (copied - s_written a)); (rewrite u64_small by lia);
      match goal with |- context [?x <? ?y] => destruct (Z.ltb_spec x y) end; lia. }
  rewrite E. done.
Qed.

(** One turn of the loop: a piece [p] of the current buffer, and either the end or the
    arguments for the next turn. *)
Lemma send_turn mem fuel s sk c a cur segs copied :
  watched s sk c -> 0 <= total (send_stream c) -> total (send_stream c) + (copied - s_written a) < 2 ^ 64 ->
  sends s !! ProbeUdp.pid_tgid ctx = Some a -> s_sk a = sk -> points mem a cur segs ->
  0 <= s_written a < copied -> copied < 2 ^ 31 -> copied - s_written a <= zlen (cur ++ concat segs) ->
  exists p t pieces s', 1 <= zlen p <= DATA_CHANNEL_CHUNK_MAX /\ zlen p <= copied - s_written a /\
    pieces_of p pieces /\ p `prefix_of` cur ++ concat segs /\ advanced ST_SEND sk c (zlen p) s s' /\
    let out := records pieces ++ [announced sk t p (total (send_stream c)) ST_SEND (send_side c)] in
    if (zlen p =? copied - s_written a) || (s_depth a =? TCP_TAIL_CALL_MAX_DEPTH) then
      continue_tcp_sendmsg mem (S fuel) ctx copied s = (true, s', out) /\ sends s' = delete (ProbeUdp.pid_tgid ctx) (sends s)
    else
      continue_tcp_sendmsg mem (S fuel) ctx copied s
      = (let '(b, s'', rest) := continue_tcp_sendmsg mem fuel ctx copied s' in (b, s'', out ++ rest)) /\
      exists a' cur' segs', sends s' = <[ProbeUdp.pid_tgid ctx := a']> (sends s) /\ s_sk a' = sk /\ points mem a' cur' segs' /\
        cur' ++ concat segs' = drop (length p) (cur ++ concat segs) /\
        s_written a' = s_written a + zlen p /\ s_depth a' = s_depth a + 1.
Proof using Hstream Hproc LC LK LA.
  intros Hw Ht0 Ht Ha Hsk Hp Hwr Hc31 Hle.
  assert (Hne : cur ++ concat segs <> []) by (intros E; rewrite E in Hle; unfold zlen in Hle; cbn in Hle; lia).
  destruct (next_iovec_spec mem a cur segs Hp Hne) as (a1 & cur1 & segs1 & En & Hp1 & Hcur1 & <- & Hsk1 & Hwr1 & Hd1).
  pose proof Hp1 as (Hm1 & Hl1 & Ho1 & Hn1 & Hi1). pose proof Hw as (Hcs & _). rewrite <- Hsk in Hcs.
  pose proof (send_unfold mem fuel s c a a1 copied Hwr Hc31 ltac:(lia) Ha Hcs En Hwr1) as Eu. rewrite Hl1 in Eu.
  set (n := piece_size (copied - s_written a) (zlen cur1)) in *.
  assert (Hn : 1 <= n <= DATA_CHANNEL_CHUNK_MAX /\ n <= zlen cur1 /\ n <= copied - s_written a)
    by (unfold n, piece_size, DATA_CHANNEL_CHUNK_MAX; lia).
  set (p := take (Z.to_nat n) cur1). assert (Hpn : zlen p = n) by (unfold p, zlen in *; rewrite length_take; lia).
  pose proof (held_prefix mem _ cur1 n Hm1 ltac:(lia)) as Hmp. fold p in Hmp.
  destruct (write_carries mem sk c ST_SEND (send_side c) (s_iov_ptr a1) p s (tcp_send_stream_handler mem ctx sk c))
    as (s1 & t & pieces & Ew & Hpp & Hc1 & Hk1 & Ha1 & _); [intros; apply send_handler_stream|done|lia|done|cbn [stream_of]; lia|done|].
  rewrite Hsk1, Hsk, <- Hpn in Eu. cbv zeta in Eu.
  assert (Hpre : p `prefix_of` cur1 ++ concat segs1) by (apply prefix_app_r; exists (drop (Z.to_nat n) cur1); symmetry; apply take_drop).
  assert (Hs1 : is_Some (sends s1 !! ProbeUdp.pid_tgid ctx)) by (unfold sends; rewrite Ha1; by exists a).
  exists p, t, pieces. rewrite Hd1 in Eu. destruct ((zlen p =? copied - s_written a) || _).
  - destruct (delete_sendmsg s1 Hs1) as (m & Em & Ed). eexists. split; [lia|]. split; [lia|]. split; [done|]. split; [done|].
    split; [|split].
    2:{ rewrite Eu. unfold announced. rewrite <- (app_nil_r (_ ++ _)). eapply bind_run; [exact Ew|].
        rewrite (bind_tt _ _ s1 tt _ Ed). done. }
    + split; [exact Hc1|unfold controls; cbn; by rewrite Hk1].
    + unfold sends. cbn. rewrite Em. unfold sends. by rewrite Ha1.
  - set (a' := mk_send sk (s_iov a1) (s_iov_ptr a1 + zlen p) (zlen cur1 - zlen p) (s_iov_offset a1) (s_nr_segs a1)
                 (s_written a1 + zlen p) (s_depth a + 1)).
    exists (mk_state (base s1) (tcp_connections s1) (tcp_control s1) (bm_store (sendmsg_active s1) (ProbeUdp.pid_tgid ctx) a')
              (recvmsg_active s1) (accept_active s1)).
    split; [lia|]. split; [lia|]. split; [done|]. split; [done|]. split; [|split].
    + split; [exact Hc1|unfold controls; cbn; by rewrite Hk1].
    + rewrite Eu. unfold bind at 1. rewrite Ew, bind_here.
      rewrite (bind_tt _ _ s1 tt _ eq_refl). by destruct (continue_tcp_sendmsg _ _ _ _ _) as [[? ?] ?].
    + exists a', (drop (Z.to_nat n) cur1), segs1. split_and!; [|done| | | |done].
      * unfold sends. cbn. rewrite bm_store_spec by exact Hs1. by rewrite Ha1.
      * unfold points, a'. cbn. rewrite Hpn. split_and!; [apply holds_suffix; [done|lia]| |done..].
        unfold zlen in *. rewrite length_drop. lia.
      * rewrite drop_app_le by (unfold zlen in *; lia). do 2 f_equal. unfold zlen in *. lia.
      * cbn. by rewrite Hwr1.
Qed.

(** The announcements of [ps]: how much they are, and whether all was carried. *)
Definition complete (ps : list (list Z)) (n : Z) : Prop :=
  zlen (concat ps) <= n /\ (length ps <= 8)%nat /\ (zlen (concat ps) = n \/ length ps = 8%nat).

Lemma send_side_total st t c : send_side (set_total st t c) = send_side c.
Proof. by destruct st. Qed.

Lemma recv_side_total st t c : recv_side (set_total st t c) = recv_side c.
Proof. by destruct st. Qed.

Lemma send_loop mem sk (fuel : nat) : forall s c a cur segs copied,
  watched s sk c -> 0 <= total (send_stream c) -> total (send_stream c) + (copied - s_written a) < 2 ^ 64 ->
  sends s !! ProbeUdp.pid_tgid ctx = Some a -> s_sk a = sk -> points mem a cur segs ->
  0 <= s_written a < copied -> copied < 2 ^ 31 -> copied - s_written a <= zlen (cur ++ concat segs) ->
  s_depth a <= TCP_TAIL_CALL_MAX_DEPTH -> Z.of_nat fuel + s_depth a = TCP_TAIL_CALL_MAX_DEPTH + 1 ->
  exists ps s' out, continue_tcp_sendmsg mem fuel ctx copied s = (true, s', out) /\
    carried sk ST_SEND (send_side c) (total (send_stream c)) ps out /\ concat ps `prefix_of` cur ++ concat segs /\
    zlen (concat ps) <= copied - s_written a /\ (length ps <= fuel)%nat /\
    (zlen (concat ps) = copied - s_written a \/ length ps = fuel) /\
    advanced ST_SEND sk c (zlen (concat ps)) s s' /\ sends s' = delete (ProbeUdp.pid_tgid ctx) (sends s).
Proof using Hstream Hproc LC LK LA.
  induction fuel as [|fuel IH]; intros s c a cur segs copied Hw Ht0 Ht Ha Hsk Hp Hwr Hc31 Hle Hd Hf;
    unfold TCP_TAIL_CALL_MAX_DEPTH in *; [lia|].
  destruct (send_turn mem fuel s sk c a cur segs copied Hw Ht0 Ht Ha Hsk Hp Hwr Hc31 Hle)
    as (p & t & pieces & s1 & Hpl & Hpc & Hpp & Hpre & Hadv & Hrest). unfold TCP_TAIL_CALL_MAX_DEPTH in Hrest.
  destruct (Z.eqb_spec (zlen p) (copied - s_written a)) as [Hend|Hend]; [|destruct (Z.eqb_spec (s_depth a) 8) as [Hlast|Hlast]];
    cbn [orb] in Hrest.
  1,2: destruct Hrest as [E Hdel]; exists [p], s1; eexists; cbn [concat]; rewrite app_nil_r;
       (split; [exact E|]); (split; [apply (carried_cons sk ST_SEND (send_side c) _ p [] t pieces []); [done|done|constructor]|]);
       split_and!; try done; [cbn; lia|first [by left|right; cbn; lia]].
  destruct Hrest as [E (a' & cur' & segs' & Hs1 & Hsk' & Hp' & Hcat & Hwr' & Hd')].
  set (c' := set_total ST_SEND (total (send_stream c) + zlen p) c).
  assert (Hlen : zlen (cur' ++ concat segs') = zlen (cur ++ concat segs) - zlen p).
  { rewrite Hcat. destruct Hpre as [k Hk]. rewrite Hk, drop_app_length. unfold zlen. rewrite length_app. lia. }
  destruct (IH s1 c' a' cur' segs' copied) as (ps & s2 & out & E2 & Hcar & Hpre2 & Hle2 & Hl2 & Hor & Hadv2 & Hdel).
  - apply (advanced_watched ST_SEND sk c (zlen p) s s1); [done|lia|done].
  - cbn. lia.
  - cbn. lia.
  - rewrite Hs1. apply lookup_insert_eq.
  - done.
  - done.
  - lia.
  - done.
  - lia.
  - lia.
  - lia.
  - exists (p :: ps), s2. eexists. split; [rewrite E, E2; reflexivity|]. cbn [concat]. rewrite zlen_app.
    rewrite <- app_assoc. split_and!.
    + apply carried_cons; [done|done|]. exact Hcar.
    + destruct Hpre as [k Hk]. rewrite Hk in Hcat |- *. rewrite drop_app_length in Hcat. rewrite Hcat in Hpre2. by apply prefix_app.
    + lia.
    + cbn. lia.
    + destruct Hor; [left; lia|right; cbn; lia].
    + apply (advanced_trans ST_SEND sk c _ _ s s1 s2 Hadv Hadv2).
    + rewrite Hdel, Hs1. by rewrite delete_insert_eq.
Qed.

Lemma interested_stream c v st : enable (control_of st v) <> 0 -> interested c v st = true.
Proof using Hstream. intros. unfold interested. rewrite Hstream. by destruct (Z.eqb_spec (enable (control_of st v)) 0). Qed.

Lemma kprobe_sendmsg mem sk msg s c v :
  connections s !! sk = Some c -> conn_sk c = sk -> controls s !! sk = Some v -> interested c v ST_SEND = true ->
  unsupported (iter_type (msg_at mem msg)) = false ->
  let m := msg_at mem msg in
  handle_kprobe__tcp_sendmsg mem ctx sk msg s
  = set_sendmsg (bm_insert (sendmsg_active s) (ProbeUdp.pid_tgid ctx)
      (mk_send sk (msg_iov m) 0 0 (if has_iter then iov_offset m else 0) (nr_segs m) 0 1)).1 s.
Proof using Hproc LC LK.
  intros Hc Hsk Hv He Hu. unfold handle_kprobe__tcp_sendmsg, lookup_tcp_connection, get_tcp_control.
  unfold connections, controls in *. rewrite (bind_tt _ _ s tt s (quiet_pid _ s)), bind_assoc, bind_here, bind_ret, bm_lookup_spec, Hc.
  rewrite bind_assoc, bind_here, bind_ret, Hsk, bm_lookup_spec, Hv.
  rewrite He. cbn [negb]. by rewrite Hu, bind_here.
Qed.

(** ** Receives *)

Lemma delete_recvmsg s :
  is_Some (receives s !! ProbeUdp.pid_tgid ctx) -> exists m, bm_contents m = delete (ProbeUdp.pid_tgid ctx) (receives s) /\
  bind here (fun s => set_recvmsg (bm_delete (recvmsg_active s) (ProbeUdp.pid_tgid ctx)).1) s
  = (tt, mk_state (base s) (tcp_connections s) (tcp_control s) (sendmsg_active s) m (accept_active s), []).
Proof.
  intros Hs. exists (bm_delete (recvmsg_active s) (ProbeUdp.pid_tgid ctx)).1. rewrite bind_here. split; [|done].
  destruct (bm_delete_spec (recvmsg_active s) (ProbeUdp.pid_tgid ctx)) as [(_ & _ & E)|(E & _)]; [exact E|].
  unfold receives in Hs. rewrite E in Hs. by destruct Hs.
Qed.

Lemma recv_handler_stream mem sk c a n :
  tcp_recv_stream_handler mem ctx sk c a n = tcp_events_submit_tcp_data mem ctx sk c ST_RECV (recv_side c) a n.
Proof using Hstream.
  unfold tcp_recv_stream_handler, tcp_server_handler, tcp_client_handler, recv_side. rewrite Hstream.
  by destruct (parent_sk c =? 0).
Qed.

Lemma recv_unfold mem fuel s c a copied :
  0 <= r_written a < copied -> copied < 2 ^ 31 ->
  receives s !! ProbeUdp.pid_tgid ctx = Some a -> connections s !! r_sk a = Some c ->
  let n := Z.min (copied - r_written a) DATA_CHANNEL_CHUNK_MAX in
  continue_tcp_recvmsg mem (S fuel) ctx copied s =
  bind (write_to_tcp_stream ctx (r_sk a) c ST_RECV (r_iov_base a + r_written a) n (tcp_recv_stream_handler mem ctx (r_sk a) c)) (fun _ =>
    if (n =? copied - r_written a) || (r_depth a =? TCP_TAIL_CALL_MAX_DEPTH)
    then bind (bind here (fun s => set_recvmsg (bm_delete (recvmsg_active s) (ProbeUdp.pid_tgid ctx)).1)) (fun _ => ret true)
    else bind here (fun s =>
      bind (set_recvmsg (bm_store (recvmsg_active s) (ProbeUdp.pid_tgid ctx)
              (mk_recv (r_sk a) (r_iov_base a) (r_iov_len a) (r_written a + n) (r_depth a + 1))))
        (fun _ => continue_tcp_recvmsg mem fuel ctx copied))) s.
Proof using Hproc LC LR.
  intros Hwr Hc31 Ha Hc n. cbn [continue_tcp_recvmsg].
  rewrite (bind_tt _ _ s tt s (quiet_pid _ s)), bind_here. unfold receives, connections in *. rewrite (bm_lookup_spec (recvmsg_active s)), Ha.
  destruct (Z.leb_spec copied 0); [lia|]. unfold lookup_tcp_connection. rewrite bind_assoc, bind_here, bind_ret, bm_lookup_spec, Hc.
  assert (Hr : s32 (copied - r_written a) = copied - r_written a) by (apply s32_small; lia). rewrite Hr.
  assert (E : to_copy copied (r_written a) = n).
  { unfold to_copy, n, DATA_CHANNEL_CHUNK_MAX. rewrite Hr. destruct (Z.ltb_spec 16383 (copied - r_written a)); lia. }
  rewrite E. done.
Qed.

Lemma recv_turn mem fuel s sk c a bs copied :
  watched s sk c -> 0 <= total (recv_stream c) -> total (recv_stream c) + (copied - r_written a) < 2 ^ 64 ->
  receives s !! ProbeUdp.pid_tgid ctx = Some a -> r_sk a = sk -> holds mem (r_iov_base a + r_written a) bs ->
  0 <= r_written a < copied -> copied < 2 ^ 31 -> copied - r_written a = zlen bs ->
  exists p t pieces s', 1 <= zlen p <= DATA_CHANNEL_CHUNK_MAX /\ pieces_of p pieces /\ p `prefix_of` bs /\
    advanced ST_RECV sk c (zlen p) s s' /\
    let out := records pieces ++ [announced sk t p (total (recv_stream c)) ST_RECV (recv_side c)] in
    if (zlen p =? copied - r_written a) || (r_depth a =? TCP_TAIL_CALL_MAX_DEPTH) then
      continue_tcp_recvmsg mem (S fuel) ctx copied s = (true, s', out) /\ receives s' = delete (ProbeUdp.pid_tgid ctx) (receives s)
    else
      continue_tcp_recvmsg mem (S fuel) ctx copied s
      = (let '(b, s'', rest) := continue_tcp_recvmsg mem fuel ctx copied s' in (b, s'', out ++ rest)) /\
      exists a', receives s' = <[ProbeUdp.pid_tgid ctx := a']> (receives s) /\ r_sk a' = sk /\
        holds mem (r_iov_base a' + r_written a') (drop (length p) bs) /\
        r_written a' = r_written a + zlen p /\ r_depth a' = r_depth a + 1.
Proof using Hstream Hproc LC LK LR.
  intros Hw Ht0 Ht Ha Hsk Hm Hwr Hc31 Hlen. pose proof Hw as (Hcs & _). rewrite <- Hsk in Hcs.
  pose proof (recv_unfold mem fuel s c a copied Hwr Hc31 Ha Hcs) as Eu. cbv zeta in Eu.
  set (n := Z.min (copied - r_written a) DATA_CHANNEL_CHUNK_MAX) in *.
  assert (Hn : 1 <= n <= DATA_CHANNEL_CHUNK_MAX /\ n <= zlen bs) by (unfold n, DATA_CHANNEL_CHUNK_MAX; lia).
  set (p := take (Z.to_nat n) bs). assert (Hpn : zlen p = n) by (unfold p, zlen in *; rewrite length_take; lia).
  pose proof (held_prefix mem _ bs n Hm ltac:(lia)) as Hmp. fold p in Hmp.
  destruct (write_carries mem sk c ST_RECV (recv_side c) (r_iov_base a + r_written a) p s (tcp_recv_stream_handler mem ctx sk c))
    as (s1 & t & pieces & Ew & Hpp & Hc1 & Hk1 & _ & Ha1 & _); [intros; apply recv_handler_stream|done|lia|done|cbn [stream_of]; lia|done|].
  rewrite Hsk, <- Hpn in Eu.
  assert (Hpre : p `prefix_of` bs) by (exists (drop (Z.to_nat n) bs); symmetry; apply take_drop).
  assert (Hs1 : is_Some (receives s1 !! ProbeUdp.pid_tgid ctx)) by (unfold receives; rewrite Ha1; by exists a).
  exists p, t, pieces. destruct ((zlen p =? copied - r_written a) || _).
  - destruct (delete_recvmsg s1 Hs1) as (m & Em & Ed). eexists. split; [lia|]. split; [done|]. split; [done|].
    split; [|split].
    2:{ rewrite Eu. unfold announced. rewrite <- (app_nil_r (_ ++ _)). eapply bind_run; [exact Ew|].
        rewrite (bind_tt _ _ s1 tt _ Ed). done. }
    + split; [exact Hc1|unfold controls; cbn; by rewrite Hk1].
    + unfold receives. cbn. rewrite Em. unfold receives. by rewrite Ha1.
  - set (a' := mk_recv sk (r_iov_base a) (r_iov_len a) (r_written a + zlen p) (r_depth a + 1)).
    exists (mk_state (base s1) (tcp_connections s1) (tcp_control s1) (sendmsg_active s1)
              (bm_store (recvmsg_active s1) (ProbeUdp.pid_tgid ctx) a') (accept_active s1)).
    split; [lia|]. split; [done|]. split; [done|]. split; [|split].
    + split; [exact Hc1|unfold controls; cbn; by rewrite Hk1].
    + rewrite Eu. unfold bind at 1. rewrite Ew, bind_here.
      rewrite (bind_tt _ _ s1 tt _ eq_refl). by destruct (continue_tcp_recvmsg _ _ _ _ _) as [[? ?] ?].
    + exists a'. split_and!; [|done| |done|done].
      * unfold receives. cbn. rewrite bm_store_spec by exact Hs1. by rewrite Ha1.
      * cbn. rewrite Z.add_assoc, Hpn. replace (length p) with (Z.to_nat n) by (unfold zlen in Hpn; lia).
        apply holds_suffix; [done|lia].
Qed.

Lemma recv_loop mem sk (fuel : nat) : forall s c a bs copied,
  watched s sk c -> 0 <= total (recv_stream c) -> total (recv_stream c) + (copied - r_written a) < 2 ^ 64 ->
  receives s !! ProbeUdp.pid_tgid ctx = Some a -> r_sk a = sk -> holds mem (r_iov_base a + r_written a) bs ->
  0 <= r_written a < copied -> copied < 2 ^ 31 -> copied - r_written a = zlen bs ->
  r_depth a <= TCP_TAIL_CALL_MAX_DEPTH -> Z.of_nat fuel + r_depth a = TCP_TAIL_CALL_MAX_DEPTH + 1 ->
  exists ps s' out, continue_tcp_recvmsg mem fuel ctx copied s = (true, s', out) /\
    carried sk ST_RECV (recv_side c) (total (recv_stream c)) ps out /\ concat ps `prefix_of` bs /\
    (length ps <= fuel)%nat /\ (concat ps = bs \/ length ps = fuel) /\
    advanced ST_RECV sk c (zlen (concat ps)) s s' /\ receives s' = delete (ProbeUdp.pid_tgid ctx) (receives s).
Proof using Hstream Hproc LC LK LR.
  induction fuel as [|fuel IH]; intros s c a bs copied Hw Ht0 Ht Ha Hsk Hm Hwr Hc31 Hlen Hd Hf;
    unfold TCP_TAIL_CALL_MAX_DEPTH in *; [lia|].
  destruct (recv_turn mem fuel s sk c a bs copied Hw Ht0 Ht Ha Hsk Hm Hwr Hc31 Hlen)
    as (p & t & pieces & s1 & Hpl & Hpp & Hpre & Hadv & Hrest). unfold TCP_TAIL_CALL_MAX_DEPTH in Hrest.
  destruct (Z.eqb_spec (zlen p) (copied - r_written a)) as [Hend|Hend]; [|destruct (Z.eqb_spec (r_depth a) 8) as [Hlast|Hlast]];
    cbn [orb] in Hrest.
  1,2: destruct Hrest as [E Hdel]; exists [p], s1; eexists; cbn [concat]; rewrite app_nil_r;
       (split; [exact E|]); (split; [apply (carried_cons sk ST_RECV (recv_side c) _ p [] t pieces []); [done|done|constructor]|]);
       split_and!; try done; [cbn; lia|].
  - left. destruct Hpre as [k ->]. rewrite zlen_app in Hlen. destruct k; [by rewrite app_nil_r|].
    unfold zlen in Hlen, Hend. cbn [length] in Hlen. lia.
  - right. cbn. lia.
  - destruct Hrest as [E (a' & Hs1 & Hsk' & Hm' & Hwr' & Hd')].
    set (c' := set_total ST_RECV (total (recv_stream c) + zlen p) c). destruct Hpre as [k ->].
    rewrite drop_app_length in Hm'. rewrite zlen_app in Hlen. pose proof (zlen_nonneg k).
    destruct (IH s1 c' a' k copied) as (ps & s2 & out & E2 & Hcar & Hpre2 & Hl2 & Hor & Hadv2 & Hdel);
      [apply (advanced_watched ST_RECV sk c (zlen p) s s1); [done|lia|done]|cbn; lia|cbn; lia| |done|done|lia|done|lia|lia|lia|].
    { rewrite Hs1. apply lookup_insert_eq. }
    exists (p :: ps), s2. eexists. split; [rewrite E, E2; reflexivity|]. cbn [concat]. rewrite zlen_app.
    rewrite <- app_assoc. split_and!.
    + apply carried_cons; [done|done|]. exact Hcar.
    + by apply prefix_app.
    + cbn. lia.
    + destruct Hor as [->|Hor]; [by left|right; cbn; lia].
    + apply (advanced_trans ST_RECV sk c _ _ s s1 s2 Hadv Hadv2).
    + rewrite Hdel, Hs1. by rewrite delete_insert_eq.
Qed.

(** ** Theorems on pieces *)

(** C12: what an application sends is carried from its first byte on.  The data of a
    [tcp_sendmsg], in any number of buffers, goes to the data channel in pieces that
    follow each other in the stream, each announced with its offset and its length; the
    probe comes to its end, all the data that was sent is carried or eight pieces of it
    are, and the stream has advanced by as much.  Only where the map of arguments is
    full, nothing is. *)
Theorem sendmsg_carried (mem : user_memory) (sk msg : Z) (s : State) (c : tcp_connection_t) (v : tcp_control_value_t)
    (segs : list (list Z)) (copied : Z) :
  let m := msg_at mem msg in
  let s1 := (handle_kprobe__tcp_sendmsg mem ctx sk msg s).1.2 in
  watched s sk c -> controls s !! sk = Some v -> enable (send_control v) <> 0 -> sends s !! ProbeUdp.pid_tgid ctx = None ->
  unsupported (iter_type m) = false -> iov_offset m = 0 -> nr_segs m = zlen segs -> iovecs mem (msg_iov m) segs ->
  0 < copied <= zlen (concat segs) -> copied < 2 ^ 31 -> 0 <= total (send_stream c) -> total (send_stream c) + copied < 2 ^ 64 ->
  exists ps s' out, handle_kretprobe__tcp_sendmsg mem ctx copied s1 = (true, s', out) /\
    carried sk ST_SEND (send_side c) (total (send_stream c)) ps out /\ concat ps `prefix_of` concat segs /\
    (complete ps copied \/ ps = [] /\ sends s1 !! ProbeUdp.pid_tgid ctx = None) /\
    (ps <> [] -> advanced ST_SEND sk c (zlen (concat ps)) s s') /\ sends s' = sends s.
Proof using Hstream Hproc LC LK LA.
  intros m s1 Hw Hv He Hno Hu Ho Hn Hi Hcop Hc31 Ht0 Ht. pose proof Hw as (Hc & Hsk & _).
  set (a := mk_send sk (msg_iov m) 0 0 0 (zlen segs) 0 1).
  assert (E1 : s1 = mk_state (base s) (tcp_connections s) (tcp_control s) (bm_insert (sendmsg_active s) (ProbeUdp.pid_tgid ctx) a).1
    (recvmsg_active s) (accept_active s)).
  { unfold s1. rewrite (kprobe_sendmsg mem sk msg s c v) by (done || by apply interested_stream). unfold a, m in *. rewrite Hn, Ho. by destruct has_iter. }
  unfold handle_kretprobe__tcp_sendmsg. rewrite s32_small by lia. change (Z.to_nat TCP_TAIL_CALL_MAX_DEPTH) with 8%nat.
  destruct (bm_insert_spec (sendmsg_active s) (ProbeUdp.pid_tgid ctx) a) as [(_ & _ & Hins)|(_ & Hins)].
  - assert (Hsends : sends s1 = <[ProbeUdp.pid_tgid ctx := a]> (sends s)) by (rewrite E1; exact Hins).
    assert (Hpts : points mem a [] segs).
    { unfold points. cbn. split_and!; try done. intros off n0 ? ? Hle. unfold zlen in Hle. cbn in Hle. lia. }
    destruct (send_loop mem sk 8 s1 c a [] segs copied) as (ps & s' & out & E & Hcar & Hpre & Hle & Hl & Hor & Hadv & Hdel);
      [by rewrite E1|done|cbn; lia|by rewrite Hsends, lookup_insert_eq|done|done|cbn; lia|done|cbn; lia|done|done|].
    cbn [s_written] in *. rewrite Z.sub_0_r in *. exists ps, s', out. split_and!; [done|done|done| |intros _|].
    + left. by split_and!.
    + rewrite E1 in Hadv. exact Hadv.
    + rewrite Hdel, Hsends, delete_insert_eq. by apply delete_id.
  - assert (Hsends : sends s1 = sends s) by (rewrite E1; exact Hins).
    exists [], s1, []. split_and!; [|constructor|apply prefix_nil|right; by rewrite Hsends|done|done].
    cbn [continue_tcp_sendmsg]. rewrite (bind_tt _ _ s1 tt s1 (quiet_pid _ s1)), bind_here, bm_lookup_spec.
    unfold sends in *. by rewrite Hsends, Hno.
Qed.

Lemma kprobe_recvmsg mem sk msg s c v :
  connections s !! sk = Some c -> conn_sk c = sk -> controls s !! sk = Some v -> interested c v ST_RECV = true ->
  unsupported (iter_type (msg_at mem msg)) = false ->
  let iov := iov_at mem (msg_iov (msg_at mem msg)) in
  handle_kprobe__tcp_recvmsg mem ctx sk msg s
  = set_recvmsg (bm_insert (recvmsg_active s) (ProbeUdp.pid_tgid ctx) (mk_recv sk (iov_base iov) (iov_len iov) 0 1)).1 s.
Proof using Hproc LC LK.
  intros Hc Hsk Hv He Hu. unfold handle_kprobe__tcp_recvmsg, lookup_tcp_connection, get_tcp_control.
  unfold connections, controls in *. rewrite (bind_tt _ _ s tt s (quiet_pid _ s)), bind_assoc, bind_here, bind_ret, bm_lookup_spec, Hc.
  rewrite bind_assoc, bind_here, bind_ret, Hsk, bm_lookup_spec, Hv.
  rewrite He. cbn [negb]. by rewrite Hu, bind_here.
Qed.

(** What an application receives is carried from the start of its first buffer on.  The
    [copied] bytes of memory that begin there, which are the data if the first buffer
    holds it all, go to the data channel as for sends.  The length of that buffer plays
    no role, neither do the other buffers: of data that was received into several
    buffers, what is carried after the first of them is what memory holds behind it. *)
Theorem recvmsg_carried (mem mem' : user_memory) (sk msg : Z) (s : State) (c : tcp_connection_t) (v : tcp_control_value_t)
    (bs : list Z) :
  let first := iov_at mem (msg_iov (msg_at mem msg)) in
  let s1 := (handle_kprobe__tcp_recvmsg mem ctx sk msg s).1.2 in
  watched s sk c -> controls s !! sk = Some v -> enable (recv_control v) <> 0 -> receives s !! ProbeUdp.pid_tgid ctx = None ->
  unsupported (iter_type (msg_at mem msg)) = false -> holds mem' (iov_base first) bs ->
  0 < zlen bs < 2 ^ 31 -> 0 <= total (recv_stream c) -> total (recv_stream c) + zlen bs < 2 ^ 64 ->
  exists ps s' out, handle_kretprobe__tcp_recvmsg mem' ctx (zlen bs) s1 = (true, s', out) /\
    carried sk ST_RECV (recv_side c) (total (recv_stream c)) ps out /\ concat ps `prefix_of` bs /\
    (complete ps (zlen bs) \/ ps = [] /\ receives s1 !! ProbeUdp.pid_tgid ctx = None) /\
    (ps <> [] -> advanced ST_RECV sk c (zlen (concat ps)) s s') /\ receives s' = receives s.
Proof using Hstream Hproc LC LK LR.
  intros first s1 Hw Hv He Hno Hu Hm Hlen Ht0 Ht. pose proof Hw as (Hc & Hsk & _).
  set (a := mk_recv sk (iov_base first) (iov_len first) 0 1).
  assert (E1 : s1 = mk_state (base s) (tcp_connections s) (tcp_control s) (sendmsg_active s)
    (bm_insert (recvmsg_active s) (ProbeUdp.pid_tgid ctx) a).1 (accept_active s)).
  { unfold s1. by rewrite (kprobe_recvmsg mem sk msg s c v) by (done || by apply interested_stream). }
  unfold handle_kretprobe__tcp_recvmsg. rewrite s32_small by lia. change (Z.to_nat TCP_TAIL_CALL_MAX_DEPTH) with 8%nat.
  destruct (bm_insert_spec (recvmsg_active s) (ProbeUdp.pid_tgid ctx) a) as [(_ & _ & Hins)|(_ & Hins)].
  - assert (Hrecvs : receives s1 = <[ProbeUdp.pid_tgid ctx := a]> (receives s)) by (rewrite E1; exact Hins).
    destruct (recv_loop mem' sk 8 s1 c a bs (zlen bs)) as (ps & s' & out & E & Hcar & Hpre & Hl & Hor & Hadv & Hdel);
      [by rewrite E1|done|cbn; lia|by rewrite Hrecvs, lookup_insert_eq|done|cbn; by rewrite Z.add_0_r|cbn; lia|lia|cbn; lia|done|done|].
    exists ps, s', out. split_and!; [done|done|done| |intros _|].
    + left. destruct Hpre as [k Hk]. unfold complete. rewrite Hk at 1. rewrite zlen_app. pose proof (zlen_nonneg k).
      split_and!; [lia|done|]. destruct Hor as [->|Hor]; [by left|by right].
    + rewrite E1 in Hadv. exact Hadv.
    + rewrite Hdel, Hrecvs, delete_insert_eq. by apply delete_id.
  - assert (Hrecvs : receives s1 = receives s) by (rewrite E1; exact Hins).
    exists [], s1, []. split_and!; [|constructor|apply prefix_nil|right; by rewrite Hrecvs|done|done].
    cbn [continue_tcp_recvmsg]. rewrite (bind_tt _ _ s1 tt s1 (quiet_pid _ s1)), bind_here, bm_lookup_spec.
    unfold receives in *. by rewrite Hrecvs, Hno.
Qed.
End carry.

(** * Every history *)

Section histories.
Context {LC : BpfMapLaws tcp_connection_t MC} {LA : BpfMapLaws sendmsg_args MA} {LR : BpfMapLaws recvmsg_args MR}.

Inductive probe :=
  | InitSock (ctx : context) (sk : Z)
  | SkFree (ctx : context) (sk : Z)
  | Accept (ctx : context) (sk flags err : Z)
  | Accepted (ctx : context) (newsk : Z)
  | SendMsg (mem : user_memory) (ctx : context) (sk msg : Z)
  | SentMsg (mem : user_memory) (ctx : context) (retval : Z)
  | RecvMsg (mem : user_memory) (ctx : context) (sk msg : Z)
  | ReceivedMsg (mem : user_memory) (ctx : context) (retval : Z).

(** Runs a probe and tells whether it came to its end. *)
Definition run_probe (p : probe) : run bool :=
  let ends (m : run unit) := do* _ := m in ret true in
  match p with
  | InitSock ctx sk => ends (handle_kprobe__tcp_init_sock ctx sk)
  | SkFree ctx sk => ends (handle_kprobe__security_sk_free ctx sk)
  | Accept ctx sk flags err => ends (handle_kprobe__inet_csk_accept ctx sk flags err)
  | Accepted ctx newsk => ends (handle_kretprobe__inet_csk_accept ctx newsk)
  | SendMsg mem ctx sk msg => ends (handle_kprobe__tcp_sendmsg mem ctx sk msg)
  | SentMsg mem ctx retval => handle_kretprobe__tcp_sendmsg mem ctx retval
  | RecvMsg mem ctx sk msg => ends (handle_kprobe__tcp_recvmsg mem ctx sk msg)
  | ReceivedMsg mem ctx retval => handle_kretprobe__tcp_recvmsg mem ctx retval
  end.

Fixpoint run_probes (ps : list probe) (s : State) : list bool * State :=
  match ps with
  | [] => ([], s)
  | p :: ps => let '(b, s, _) := run_probe p s in let '(bs, s) := run_probes ps s in (b :: bs, s)
  end.

(** ** The invariant *)

Definition wf_stream (i : tcp_stream_info_t) : Prop := 0 <= total i < 2 ^ 64.
Definition wf_protocol (p : tcp_protocol_state_t) : Prop :=
  (protocol p = TCPPROTO_UNKNOWN /\ (candidates p = 0 \/ candidates p = 1)) \/ (protocol p = TCPPROTO_HTTP /\ candidates p = 1).
Definition wf_conn (sk : Z) (c : tcp_connection_t) : Prop :=
  conn_sk c = sk /\ wf_stream (send_stream c) /\ wf_stream (recv_stream c) /\ wf_protocol (protocol_state c).
Definition wf_depth (d : Z) : Prop := 1 <= d <= TCP_TAIL_CALL_MAX_DEPTH.

Record inv (s : State) : Prop := {
  inv_conns : map_Forall wf_conn (bm_contents (tcp_connections s));
  inv_sends : map_Forall (fun _ a => wf_depth (s_depth a)) (bm_contents (sendmsg_active s));
  inv_receives : map_Forall (fun _ a => wf_depth (r_depth a)) (bm_contents (recvmsg_active s))
}.

(** A computation keeps the invariant, and the arguments of sends and receives. *)
Definition same_messages (s s' : State) : Prop := sendmsg_active s' = sendmsg_active s /\ recvmsg_active s' = recvmsg_active s.

Lemma same_messages_trans s1 s2 s3 : same_messages s1 s2 -> same_messages s2 s3 -> same_messages s1 s3.
Proof. unfold same_messages. intuition congruence. Qed.

Definition safe_at (s : State) {A} (m : run A) : Prop := inv s -> inv (m s).1.2 /\ same_messages s (m s).1.2.
Definition safe {A} (m : run A) : Prop := forall s, safe_at s m.

Lemma safe_ret {A} (a : A) : safe (ret a).
Proof. intros s Hs. by split. Qed.

Lemma safe_at_bind {A B} s (m : run A) (f : A -> run B) : safe_at s m -> (forall a, safe (f a)) -> safe_at s (bind m f).
Proof.
  intros Hm Hf Hs. destruct (Hm Hs) as [Hi Ha]. unfold bind. destruct (m s) as [[a s1] o1]. cbn in *.
  destruct (Hf a s1 Hi) as [Hi2 Ha2]. destruct (f a s1) as [[b s2] o2]. cbn in *. split; [done|]. by eapply same_messages_trans.
Qed.

Lemma safe_at_here {A} s (f : State -> run A) : (inv s -> safe_at s (f s)) -> safe_at s (bind here f).
Proof. intros Hf Hs. rewrite bind_here. by apply Hf. Qed.

Lemma safe_send x : safe (send x).
Proof. intros s Hs. by split. Qed.

Lemma safe_base {A} (m : ProbeUdp.run A) : safe (on_base m).
Proof. intros s [? ? ?]. unfold on_base. destruct (m (base s)) as [[a b] o]. by split. Qed.

Lemma safe_write_conn sk f : (forall c, wf_conn sk c -> wf_conn sk (f c)) -> safe (write_conn sk f).
Proof using LC.
  intros Hf s. apply safe_at_here. intros _ [Hc Hs Hr]. rewrite bm_lookup_spec. destruct (_ !! sk) as [c|] eqn:E; [|by split].
  split; [|done]. split; [|done|done]. cbn. rewrite bm_store_spec by (by rewrite E).
  apply map_Forall_insert_2; [|done]. apply Hf. by apply (Hc sk).
Qed.

Lemma safe_write_control sk f : safe (write_control sk f).
Proof. intros s. apply safe_at_here. intros _ [? ? ?]. by destruct (bm_lookup _ _). Qed.

Lemma safe_set_control m : safe (set_control m).
Proof. intros s [? ? ?]. by split. Qed.

Lemma safe_set_accept m : safe (set_accept m).
Proof. intros s [? ? ?]. by split. Qed.

Lemma safe_delete_conn s sk : safe_at s (set_connections (bm_delete (tcp_connections s) sk).1).
Proof using LC.
  intros [Hc Hs Hr]. split; [|done]. split; [|done|done]. cbn.
  destruct (bm_delete_spec (tcp_connections s) sk) as [(_ & _ & ->)|(_ & _ & ->)]; [by apply map_Forall_delete|done].
Qed.

Lemma safe_insert_conn s sk c : wf_conn sk c -> safe_at s (set_connections (bm_insert (tcp_connections s) sk c).1).
Proof using LC.
  intros Hw [Hc Hs Hr]. split; [|done]. split; [|done|done]. cbn.
  destruct (bm_insert_spec (tcp_connections s) sk c) as [(_ & _ & ->)|(_ & ->)]; [by apply map_Forall_insert_2|done].
Qed.

(** Breaks a computation down to its writes. *)
Ltac saving :=
  repeat first
    [ match goal with |- forall _, _ => intro | |- safe _ => intro end
    | apply safe_ret | apply safe_send | apply safe_write_control | apply safe_set_control | apply safe_set_accept
    | apply safe_delete_conn | apply safe_base
    | match goal with
      | |- safe_at _ (match ?x with _ => _ end) => destruct x
      | |- safe_at _ (bind here _) => apply safe_at_here
      | |- safe_at _ (bind _ _) => apply safe_at_bind
      end ].

Lemma new_wf ctx sk : wf_conn sk (new_connection ctx sk).
Proof.
  unfold wf_conn, wf_stream, wf_protocol, new_connection. cbn. destruct data_stream; cbn; split_and!; try lia; left; auto.
Qed.

Lemma create_safe ctx sk : safe (create_tcp_connection ctx sk).
Proof using LC. unfold create_tcp_connection. saving. by apply safe_insert_conn, new_wf. Qed.

Lemma delete_safe ctx c sk : safe (delete_tcp_connection ctx c sk).
Proof using LC.
  unfold delete_tcp_connection. intros s. apply safe_at_here. intros _ Hs.
  set (s1 := (set_control (bm_delete (tcp_control s) (conn_sk c)).1 s).1.2).
  pose proof (safe_set_control (bm_delete (tcp_control s) (conn_sk c)).1 s Hs) as [H1' H2'].
  pose proof (safe_delete_conn s1 sk) as Hd.
  destruct (bm_delete (tcp_connections s) sk) as [m r] eqn:E.
  assert (Hd1 : safe_at s1 (bind (set_connections m) (fun _ =>
    if negb (r =? 0) then bpf_log 167 ctx BPF_LOG_TABLE_BAD_REMOVE BPF_TABLE_TCP_CONNECTIONS sk 0 else ret tt))).
  { apply safe_at_bind; [|saving]. unfold s1 in *. cbn [set_control fst snd tcp_connections] in *. by rewrite E in Hd. }
  rewrite (bind_tt (set_control (bm_delete (tcp_control s) (conn_sk c)).1) _ s tt s1 eq_refl). destruct (Hd1 H1') as [? ?]. split; [done|by eapply same_messages_trans].
Qed.

Lemma set_total_wf st t sk c : 0 <= t < 2 ^ 64 -> wf_conn sk c -> wf_conn sk (set_total st t c).
Proof. intros Ht (? & ? & ? & ?). destruct st; by split_and!. Qed.

Lemma protocol_wf p sk c : wf_protocol p -> wf_conn sk c -> wf_conn sk (set_protocol_state p c).
Proof. intros Hp (? & ? & ? & ?). by split_and!. Qed.

Lemma write_safe ctx sk c st data n (handler : Z -> Z -> run unit) :
  wf_conn sk c -> (forall a m, safe (handler a m)) -> safe (write_to_tcp_stream ctx sk c st data n handler).
Proof using LC.
  intros Hc Hh. unfold write_to_tcp_stream, get_tcp_control.
  assert (Hw : forall f : tcp_connection_t -> Z, safe (write_conn sk (fun c => set_total st (u64 (f c)) c))).
  { intros f. apply safe_write_conn. intros. by apply set_total_wf; [apply u64_range|]. }
  saving; try apply Hh; try apply (Hw (fun c => _ + _)). apply (Hw (fun _ => start _)).
Qed.

Lemma channel_safe mem data n : safe (data_channel_submit mem data n).
Proof.
  assert (Hcopy : forall m a, safe (copy mem m a)) by (intros; apply safe_send).
  assert (Hchunk : forall k a, safe (COPY_CHUNK_256 mem k a)).
  { intros k. induction k as [|k IH]; intros a; cbn; [apply safe_ret|]. saving. apply IH. }
  unfold data_channel_submit, COPY_BIT_ge256, COPY_BIT, COPY_LAST_BITS. saving; apply Hchunk || apply Hcopy.
Qed.

Lemma tcp_data_safe mem ctx sk c st side data n : safe (tcp_events_submit_tcp_data mem ctx sk c st side data n).
Proof. unfold tcp_events_submit_tcp_data. saving. apply channel_safe. Qed.

Lemma turn_safe c st : safe (turn c st).
Proof. unfold turn, enable_tcp_connection. saving. Qed.

Lemma request_safe sk c st : safe (http_process_request sk c st).
Proof using All.
  unfold http_process_request. saving; [|apply turn_safe]. apply safe_write_conn.
  intros c' (? & ? & ? & Hp). by split_and!.
Qed.

Lemma response_safe mem ctx sk c st data n : safe (http_process_response mem ctx sk c st data n).
Proof. unfold http_process_response, tcp_events_submit_http_response. saving. apply turn_safe. Qed.

Lemma client_safe mem ctx sk c st data n : wf_conn sk c -> safe (tcp_client_handler mem ctx sk c st data n).
Proof using All.
  intros Hc. unfold tcp_client_handler. destruct data_stream; [apply tcp_data_safe|]. intros s. apply safe_at_bind.
  - apply safe_write_conn. intros c' Hc'. apply protocol_wf; [|done].
    destruct Hc as (_ & _ & _ & Hp). unfold wf_protocol, TCPPROTO_UNKNOWN, TCPPROTO_HTTP in *.
    destruct (protocol_state c) as [pr ca ts]. cbn [protocol candidates] in *.
    destruct Hp as [[-> [-> | ->]]|[-> ->]]; cbn; auto. destruct (http_detect mem data n); cbn; auto.
  - saving. apply request_safe.
Qed.

Lemma server_safe mem ctx sk c st data n : safe (tcp_server_handler mem ctx sk c st data n).
Proof. unfold tcp_server_handler. saving; [apply tcp_data_safe|apply response_safe]. Qed.

Lemma send_handler_safe mem ctx sk c data n : wf_conn sk c -> safe (tcp_send_stream_handler mem ctx sk c data n).
Proof using All. intros Hc. unfold tcp_send_stream_handler. saving; [by apply server_safe|by apply client_safe]. Qed.

Lemma recv_handler_safe mem ctx sk c data n : wf_conn sk c -> safe (tcp_recv_stream_handler mem ctx sk c data n).
Proof using All. intros Hc. unfold tcp_recv_stream_handler. saving; [by apply client_safe|by apply server_safe]. Qed.

(** ** The return probes end *)

Definition ends (m : run bool) (s : State) : Prop := (m s).1.1 = true /\ inv (m s).1.2.

Lemma ends_bind {A} s (m : run A) (f : A -> run bool) :
  safe_at s m -> inv s -> (forall a s', inv s' -> same_messages s s' -> ends (f a) s') -> ends (bind m f) s.
Proof.
  intros Hm Hs Hf. destruct (Hm Hs) as [Hi Ha]. unfold ends, bind. destruct (m s) as [[a s1] o1]. cbn in *.
  destruct (Hf a s1 Hi Ha) as [H1' H2']. by destruct (f a s1) as [[b s2] o2].
Qed.

Lemma ends_here s (f : State -> run bool) : ends (f s) s -> ends (bind here f) s.
Proof. unfold ends. by rewrite bind_here. Qed.

Lemma ends_ret s : inv s -> ends (ret true) s.
Proof. by split. Qed.

Lemma ends_drop_send ctx s :
  inv s -> ends (bind (bind here (fun s => set_sendmsg (bm_delete (sendmsg_active s) (ProbeUdp.pid_tgid ctx)).1)) (fun _ => ret true)) s.
Proof using LA.
  intros [Hc Hs Hr]. unfold ends. rewrite bind_assoc, bind_here. cbn. split; [done|]. split; [done| |done]. cbn.
  destruct (bm_delete_spec (sendmsg_active s) (ProbeUdp.pid_tgid ctx)) as [(_ & _ & ->)|(_ & _ & ->)]; [by apply map_Forall_delete|done].
Qed.

Lemma ends_drop_recv ctx s :
  inv s -> ends (bind (bind here (fun s => set_recvmsg (bm_delete (recvmsg_active s) (ProbeUdp.pid_tgid ctx)).1)) (fun _ => ret true)) s.
Proof using LR.
  intros [Hc Hs Hr]. unfold ends. rewrite bind_assoc, bind_here. cbn. split; [done|]. split; [done|done|]. cbn.
  destruct (bm_delete_spec (recvmsg_active s) (ProbeUdp.pid_tgid ctx)) as [(_ & _ & ->)|(_ & _ & ->)]; [by apply map_Forall_delete|done].
Qed.

Lemma next_iovec_depth mem a a' : next_iovec mem a = Some a' -> s_depth a' = s_depth a /\ s_sk a' = s_sk a.
Proof. unfold next_iovec. destruct (negb _); [by intros [= <-]|]. destruct (_ <=? 0); [done|by intros [= <-]]. Qed.

Lemma ends_lookup s sk (f : option tcp_connection_t -> run bool) :
  inv s -> ends (f None) s -> (forall c, wf_conn sk c -> ends (f (Some c)) s) -> ends (bind (lookup_tcp_connection sk) f) s.
Proof using LC.
  intros Hs Hn Hf. unfold ends, lookup_tcp_connection. rewrite bind_assoc, bind_here, bind_ret, bm_lookup_spec.
  destruct (_ !! sk) as [c|] eqn:E; [|apply Hn]. apply Hf. by apply (inv_conns _ Hs).
Qed.

Lemma sent_ends mem ctx (fuel : nat) : forall copied s, inv s -> (0 < fuel)%nat ->
  (forall a, bm_contents (sendmsg_active s) !! ProbeUdp.pid_tgid ctx = Some a -> TCP_TAIL_CALL_MAX_DEPTH < Z.of_nat fuel + s_depth a) ->
  ends (continue_tcp_sendmsg mem fuel ctx copied) s.
Proof using All.
  induction fuel as [|fuel IH]; intros copied s Hs Hf Hd; [lia|]. cbn [continue_tcp_sendmsg].
  apply ends_bind; [apply safe_base|done|]. intros _ s1 Hs1 [Hsend _]. rewrite <- Hsend in Hd. clear s Hs Hsend.
  apply ends_here. rewrite bm_lookup_spec. destruct (_ !! _) as [a|] eqn:Ea; [|by apply ends_ret].
  specialize (Hd a eq_refl). pose proof (inv_sends _ Hs1 _ _ Ea) as Hda. cbn in Hda.
  destruct (copied <=? 0); [by apply ends_drop_send|]. apply ends_lookup; [done|by apply ends_drop_send|]. intros c Hc.
  destruct (next_iovec mem a) as [a1|] eqn:En; [|by apply ends_drop_send].
  apply next_iovec_depth in En as [Hd1 Hsk1]. cbv zeta. rewrite Hsk1, Hd1.
  apply ends_bind; [by apply write_safe; [|intros; apply send_handler_safe]|done|]. intros _ s2 Hs2 [Hsend _].
  destruct (_ =? _); [by apply ends_drop_send|]. unfold wf_depth, TCP_TAIL_CALL_MAX_DEPTH in *.
  destruct (Z.eqb_spec (s_depth a) 8); [by apply ends_drop_send|]. cbn [orb]. apply ends_here.
  assert (Hstore : forall x, bm_contents (bm_store (sendmsg_active s2) (ProbeUdp.pid_tgid ctx) x)
    = <[ProbeUdp.pid_tgid ctx := x]> (bm_contents (sendmsg_active s2))) by (intros; apply bm_store_spec; by rewrite Hsend, Ea).
  unfold ends. rewrite (bind_tt _ _ s2 tt _ eq_refl). apply IH.
  - destruct Hs2 as [? Hse ?]. split; [done| |done]. cbn. rewrite Hstore. apply map_Forall_insert_2; [|done].
    unfold wf_depth, TCP_TAIL_CALL_MAX_DEPTH. cbn. lia.
  - lia.
  - intros a'. cbn. rewrite Hstore, lookup_insert_eq. intros [= <-]. cbn. lia.
Qed.

Lemma received_ends mem ctx (fuel : nat) : forall copied s, inv s -> (0 < fuel)%nat ->
  (forall a, bm_contents (recvmsg_active s) !! ProbeUdp.pid_tgid ctx = Some a -> TCP_TAIL_CALL_MAX_DEPTH < Z.of_nat fuel + r_depth a) ->
  ends (continue_tcp_recvmsg mem fuel ctx copied) s.
Proof using All.
  induction fuel as [|fuel IH]; intros copied s Hs Hf Hd; [lia|]. cbn [continue_tcp_recvmsg].
  apply ends_bind; [apply safe_base|done|]. intros _ s1 Hs1 [_ Hrecv]. rewrite <- Hrecv in Hd. clear s Hs Hrecv.
  apply ends_here. rewrite bm_lookup_spec. destruct (_ !! _) as [a|] eqn:Ea; [|by apply ends_ret].
  specialize (Hd a eq_refl). pose proof (inv_receives _ Hs1 _ _ Ea) as Hda. cbn in Hda.
  destruct (copied <=? 0); [by apply ends_drop_recv|]. apply ends_lookup; [done|by apply ends_drop_recv|]. intros c Hc. cbv zeta.
  apply ends_bind; [by apply write_safe; [|intros; apply recv_handler_safe]|done|]. intros _ s2 Hs2 [_ Hrecv].
  destruct (_ =? _); [by apply ends_drop_recv|]. unfold wf_depth, TCP_TAIL_CALL_MAX_DEPTH in *.
  destruct (Z.eqb_spec (r_depth a) 8); [by apply ends_drop_recv|]. cbn [orb]. apply ends_here.
  assert (Hstore : forall x, bm_contents (bm_store (recvmsg_active s2) (ProbeUdp.pid_tgid ctx) x)
    = <[ProbeUdp.pid_tgid ctx := x]> (bm_contents (recvmsg_active s2))) by (intros; apply bm_store_spec; by rewrite Hrecv, Ea).
  unfold ends. rewrite (bind_tt _ _ s2 tt _ eq_refl). apply IH.
  - destruct Hs2 as [? ? Hre]. split; [done|done|]. cbn. rewrite Hstore. apply map_Forall_insert_2; [|done].
    unfold wf_depth, TCP_TAIL_CALL_MAX_DEPTH. cbn. lia.
  - lia.
  - intros a'. cbn. rewrite Hstore, lookup_insert_eq. intros [= <-]. cbn. lia.
Qed.

Definition kept {A} (m : run A) (s : State) : Prop := inv s -> inv (m s).1.2.

Lemma kept_bind {A B} s (m : run A) (f : A -> run B) : safe_at s m -> (forall a s', kept (f a) s') -> kept (bind m f) s.
Proof.
  intros Hm Hf Hs. destruct (Hm Hs) as [Hi _]. unfold bind. destruct (m s) as [[a s1] o1].
  pose proof (Hf a s1 Hi) as Hi2. by destruct (f a s1) as [[b s2] o2].
Qed.

Lemma kept_here {A} s (f : State -> run A) : kept (f s) s -> kept (bind here f) s.
Proof. unfold kept. by rewrite bind_here. Qed.

Lemma kept_safe {A} s (m : run A) : safe_at s m -> kept m s.
Proof. intros Hm Hs. by apply Hm. Qed.

Lemma kprobe_send_kept mem ctx sk msg s : kept (handle_kprobe__tcp_sendmsg mem ctx sk msg) s.
Proof using All.
  unfold handle_kprobe__tcp_sendmsg. apply kept_bind; [apply safe_base|]. intros _ s1.
  apply kept_bind; [unfold lookup_tcp_connection; saving|]. intros [c|] s2; [|by intros ?].
  apply kept_bind; [unfold get_tcp_control; saving|]. intros [v|] s3; [|by intros ?].
  destruct (negb _); [by intros ?|]. destruct (unsupported _); [apply kept_safe, safe_base|]. apply kept_here.
  intros [Hc Hs Hr]. split; [done| |done]. cbn.
  destruct (bm_insert_spec (sendmsg_active s3) (ProbeUdp.pid_tgid ctx)
    (mk_send sk (msg_iov (msg_at mem msg)) 0 0 (if has_iter then iov_offset (msg_at mem msg) else 0) (nr_segs (msg_at mem msg)) 0 1))
    as [(_ & _ & ->)|(_ & ->)]; [|done]. apply map_Forall_insert_2; [|done]. unfold wf_depth, TCP_TAIL_CALL_MAX_DEPTH. cbn. lia.
Qed.

Lemma kprobe_recv_kept mem ctx sk msg s : kept (handle_kprobe__tcp_recvmsg mem ctx sk msg) s.
Proof using All.
  unfold handle_kprobe__tcp_recvmsg. apply kept_bind; [apply safe_base|]. intros _ s1.
  apply kept_bind; [unfold lookup_tcp_connection; saving|]. intros [c|] s2; [|by intros ?].
  apply kept_bind; [unfold get_tcp_control; saving|]. intros [v|] s3; [|by intros ?].
  destruct (negb _); [by intros ?|]. destruct (unsupported _); [apply kept_safe, safe_base|]. apply kept_here.
  intros [Hc Hs Hr]. split; [done|done|]. cbn.
  destruct (bm_insert_spec (recvmsg_active s3) (ProbeUdp.pid_tgid ctx)
    (mk_recv sk (iov_base (iov_at mem (msg_iov (msg_at mem msg)))) (iov_len (iov_at mem (msg_iov (msg_at mem msg)))) 0 1))
    as [(_ & _ & ->)|(_ & ->)]; [|done]. apply map_Forall_insert_2; [|done]. unfold wf_depth, TCP_TAIL_CALL_MAX_DEPTH. cbn. lia.
Qed.

Lemma accept_safe ctx sk flags err : safe (handle_kprobe__inet_csk_accept ctx sk flags err).
Proof using All.
  unfold handle_kprobe__inet_csk_accept, lookup_tcp_connection. saving. apply create_safe.
Qed.

Lemma accepted_safe ctx newsk : safe (handle_kretprobe__inet_csk_accept ctx newsk).
Proof using All.
  unfold handle_kretprobe__inet_csk_accept. saving; [apply create_safe|].
  apply safe_write_conn. intros c' (? & ? & ? & ?). by split_and!.
Qed.

Lemma ends_unit (m : run unit) s : inv s -> kept m s -> ends (bind m (fun _ => ret true)) s.
Proof. intros Hs Hm. unfold ends, bind, ret. specialize (Hm Hs). by destruct (m s) as [[a s1] o1]. Qed.

Lemma probe_ends p s : inv s -> ends (run_probe p) s.
Proof using All.
  intros Hs. destruct p; cbn [run_probe].
  - apply ends_unit; [done|]. apply kept_safe. unfold handle_kprobe__tcp_init_sock. saving. apply create_safe.
  - apply ends_unit; [done|]. apply kept_safe. unfold handle_kprobe__security_sk_free, lookup_tcp_connection. saving. apply delete_safe.
  - apply ends_unit; [done|]. apply kept_safe, accept_safe.
  - apply ends_unit; [done|]. apply kept_safe, accepted_safe.
  - apply ends_unit; [done|]. apply kprobe_send_kept.
  - unfold handle_kretprobe__tcp_sendmsg. apply sent_ends; [done|unfold TCP_TAIL_CALL_MAX_DEPTH; lia|]. intros a Ha.
    pose proof (inv_sends _ Hs _ _ Ha) as Hd. cbn beta in Hd. unfold wf_depth, TCP_TAIL_CALL_MAX_DEPTH in *. lia.
  - apply ends_unit; [done|]. apply kprobe_recv_kept.
  - unfold handle_kretprobe__tcp_recvmsg. apply received_ends; [done|unfold TCP_TAIL_CALL_MAX_DEPTH; lia|]. intros a Ha.
    pose proof (inv_receives _ Hs _ _ Ha) as Hd. cbn beta in Hd. unfold wf_depth, TCP_TAIL_CALL_MAX_DEPTH in *. lia.
Qed.

(** C14: every probe comes to its end, and the records of the connections stay well formed.
    Whatever the probes, the memory they see and the results of the kernel, in the build
    with the data stream and in the one without: the tail calls of the return probes end
    within [TCP_TAIL_CALL_MAX_DEPTH] calls; a connection is under its own socket, its
    totals are of their width, and its protocol is either unknown or HTTP with HTTP as
    its candidate. *)
Theorem processor_ends (ps : list probe) (s : State) :
  inv s -> Forall (eq true) (run_probes ps s).1 /\ inv (run_probes ps s).2.
Proof using All.
  revert s. induction ps as [|p ps IH]; intros s Hs; [by split; [constructor|]|]. cbn [run_probes].
  destruct (probe_ends p s Hs) as [Hb Hi]. destruct (run_probe p s) as [[b s1] o]. cbn in Hb, Hi.
  destruct (IH s1 Hi) as [Hbs Hi2]. destruct (run_probes ps s1) as [bs s2]. by split; [constructor|].
Qed.
End histories.
End processor.
End TcpProcessor.

Module TcpProcessorDemo.
Import Probes TcpProcessor.

#[local] Existing Instances ProbeUdpDemo.maps ProbeUdpDemo.ports.
#[local] Instance conns : BpfMap tcp_connection_t (gmap Z tcp_connection_t) := ProbeUdp.bounded_map 8.
#[local] Instance conns_laws : BpfMapLaws tcp_connection_t (gmap Z tcp_connection_t) := ProbeUdp.bounded_map_laws 8.
#[local] Instance ctrls : BpfMap tcp_control_value_t (gmap Z tcp_control_value_t) := ProbeUdp.bounded_map 8.
#[local] Instance ctrls_laws : BpfMapLaws tcp_control_value_t (gmap Z tcp_control_value_t) := ProbeUdp.bounded_map_laws 8.
#[local] Instance sending : BpfMap sendmsg_args (gmap Z sendmsg_args) := ProbeUdp.bounded_map 8.
#[local] Instance sending_laws : BpfMapLaws sendmsg_args (gmap Z sendmsg_args) := ProbeUdp.bounded_map_laws 8.
#[local] Instance receiving : BpfMap recvmsg_args (gmap Z recvmsg_args) := ProbeUdp.bounded_map 8.
#[local] Instance receiving_laws : BpfMapLaws recvmsg_args (gmap Z recvmsg_args) := ProbeUdp.bounded_map_laws 8.
#[local] Instance accepting : BpfMap accept_args (gmap Z accept_args) := ProbeUdp.bounded_map 8.

(** Memory with the bytes [bs] from the address [a] on. *)
Definition flat (a : Z) (bs : list Z) (x n : Z) : probed (list Z) :=
  if (a <=? x) && (x + n <=? a + zlen bs) then Got (take (Z.to_nat n) (drop (Z.to_nat (x - a)) bs)) else Failed (-14).

(** A message of two buffers, the text of a request. *)
Definition demo_text : list Z := [71; 69; 84; 32; 47; 32; 72; 84; 84; 80; 47; 49; 46; 49; 13; 10; 13; 10].
Definition demo_memory : user_memory := mk_user
  (fun _ => mk_msghdr 0 500 2 0)
  (fun a => if a =? 500 then mk_iovec 1000 8 else mk_iovec 1008 10)
  (flat 1000 demo_text).

Lemma flat_holds msgs iovs a bs : holds (mk_user msgs iovs (flat a bs)) a bs.
Proof.
  intros off n Ho Hn Hl. cbn. unfold flat.
  destruct (Z.leb_spec a (a + off)); [|lia]. destruct (Z.leb_spec (a + off + n) (a + zlen bs)); [|lia]. cbn [andb].
  by replace (a + off - a) with off by lia.
Qed.

Lemma demo_first : holds demo_memory 1000 (take 8 demo_text).
Proof. apply (held_prefix demo_memory 1000 demo_text 8); [apply flat_holds|by vm_compute]. Qed.
Lemma demo_second : holds demo_memory 1008 (drop 8 demo_text).
Proof. apply (holds_suffix demo_memory 1000 demo_text 8); [apply flat_holds|by vm_compute]. Qed.

Definition demo_sk : Z := 77.
Definition demo_start : State (MC := gmap Z tcp_connection_t) (MK := gmap Z tcp_control_value_t) (MA := gmap Z sendmsg_args)
    (MR := gmap Z recvmsg_args) (MX := gmap Z accept_args) := mk_state ProbeUdpDemo.demo_probe ∅ ∅ ∅ ∅ ∅.
Definition demo_conn : tcp_connection_t := new_connection true ProbeUdpDemo.demo_ctx demo_sk.
Definition demo_value : tcp_control_value_t := mk_value (mk_control 1 0) (mk_control 1 0).
Definition demo_open :=
  (handle_kprobe__tcp_init_sock ProbeUdpDemo.demo_clock 0 (fun l => l) true ProbeUdpDemo.demo_ctx demo_sk demo_start).1.2.

Lemma demo_watched : watched demo_open demo_sk demo_conn.
Proof. split; [by vm_compute|]. split; [done|]. exists demo_value. split_and!; by vm_compute. Qed.

(** The two buffers go out in two pieces: 8 bytes, then 8 and 2. *)
Lemma sendmsg_carried_witness :
  let s1 := (handle_kprobe__tcp_sendmsg ProbeUdpDemo.demo_clock 0 (fun l => l) 400000 1 2 true demo_memory ProbeUdpDemo.demo_ctx
               demo_sk 400 demo_open).1.2 in
  (handle_kretprobe__tcp_sendmsg ProbeUdpDemo.demo_clock 0 (fun l => l) true demo_memory ProbeUdpDemo.demo_ctx 18 s1).2
  = [Chunk 8 [71; 69; 84; 32; 47; 32; 72; 84]; Event 0 (Agent.tcp_data 77 1 8 0 0 0);
     Chunk 8 [84; 80; 47; 49; 46; 49; 13; 10]; Chunk 2 [13; 10]; Event 1000 (Agent.tcp_data 77 1 10 8 0 0)] /\
  exists ps s' out, handle_kretprobe__tcp_sendmsg ProbeUdpDemo.demo_clock 0 (fun l => l) true demo_memory
      ProbeUdpDemo.demo_ctx 18 s1 = (true, s', out) /\
    carried ProbeUdpDemo.demo_ctx demo_sk ST_SEND SC_CLIENT 0 ps out /\ concat ps `prefix_of` demo_text.
Proof.
  intros s1. split; [vm_compute; reflexivity|].
  destruct (sendmsg_carried ProbeUdpDemo.demo_clock 0 (fun l => l) 400000 1 2 true eq_refl ProbeUdpDemo.demo_ctx eq_refl
    demo_memory demo_sk 400 demo_open demo_conn demo_value [take 8 demo_text; drop 8 demo_text] 18)
    as (ps & s' & out & E & Hc & Hp & _);
    [exact demo_watched|by vm_compute|done|by vm_compute|by vm_compute|done|done|
     |by vm_compute|done|done|done|].
  { cbn [iovecs]. split_and!; [by vm_compute|done|exact demo_first|by vm_compute|done|exact demo_second|done]. }
  exists ps, s', out. by split_and!.
Defined.

(** What is received into two buffers is read from the first on. *)
Lemma recvmsg_carried_witness :
  let s1 := (handle_kprobe__tcp_recvmsg ProbeUdpDemo.demo_clock 0 (fun l => l) 400000 1 2 true demo_memory ProbeUdpDemo.demo_ctx
               demo_sk 400 demo_open).1.2 in
  exists ps s' out, handle_kretprobe__tcp_recvmsg ProbeUdpDemo.demo_clock 0 (fun l => l) true demo_memory
      ProbeUdpDemo.demo_ctx 18 s1 = (true, s', out) /\
    carried ProbeUdpDemo.demo_ctx demo_sk ST_RECV SC_SERVER 0 ps out /\ concat ps `prefix_of` demo_text.
Proof.
  intros s1.
  destruct (recvmsg_carried ProbeUdpDemo.demo_clock 0 (fun l => l) 400000 1 2 true eq_refl ProbeUdpDemo.demo_ctx eq_refl
    demo_memory demo_memory demo_sk 400 demo_open demo_conn demo_value demo_text)
    as (ps & s' & out & E & Hc & Hp & _);
    [exact demo_watched|by vm_compute|done|by vm_compute|by vm_compute|apply flat_holds|by vm_compute|done|by vm_compute|].
  exists ps, s', out. by split_and!.
Defined.

Definition demo_probes : list probe :=
  [InitSock ProbeUdpDemo.demo_ctx 77; SendMsg demo_memory ProbeUdpDemo.demo_ctx 77 400; SentMsg demo_memory ProbeUdpDemo.demo_ctx 18;
   RecvMsg demo_memory ProbeUdpDemo.demo_ctx 77 400; ReceivedMsg demo_memory ProbeUdpDemo.demo_ctx 18; SkFree ProbeUdpDemo.demo_ctx 77].

Lemma processor_ends_witness :
  let r := run_probes ProbeUdpDemo.demo_clock 0 (fun l => l) 400000 1 2 true demo_probes demo_start in
  Forall (eq true) r.1 /\ inv r.2.
Proof.
  apply (processor_ends ProbeUdpDemo.demo_clock 0 (fun l => l) 400000 1 2 true demo_probes demo_start).
  split; intros k x Hk; by vm_compute in Hk.
Defined.
End TcpProcessorDemo.
