(* ===== verification/KernelHttp.v ===== *)
(** HTTP in the kernel: what the TCP processor of collector/kernel/bpf_src/tcp-processor
    does with the data of connections in the build without the data stream.

    The definitions are those of [TcpProcessor]; this file holds the theorems on
    [http_detect] of bpf_http_protocol.h and on an exchange of a request and a response,
    seen through the four probes of bpf_tcp_send_recv.h. *)
From S2P Require Import Prelude PollerBase Agent ProbeUdp Probes TcpProcessor.

Module KernelHttp.
Import Probes TcpProcessor.

(** * The methods *)

(** GET, HEAD, DELETE, CONNECT, OPTIONS, TRACE, PUT, POST and PATCH. *)
Definition POST : list Z := [80; 79; 83; 84].
Definition methods : list (list Z) :=
  [[71; 69; 84]; [72; 69; 65; 68]; [68; 69; 76; 69; 84; 69]; [67; 79; 78; 78; 69; 67; 84]; [79; 80; 84; 73; 79; 78; 83];
   [84; 82; 65; 67; 69]; [80; 85; 84]; POST; [80; 65; 84; 67; 72]].

Lemma zlen_cons {A} (x : A) l : zlen (x :: l) = 1 + zlen l.
Proof. unfold zlen. cbn [length]. lia. Qed.

(** [http_detect] on data that can be read. *)
Definition detect_bytes (bs : list Z) : TCP_PROTOCOL_DETECT_RESULT :=
  let verb (skip at_least : Z) (s : list Z) :=
    if at_least <=? zlen bs then detected (bool_decide (s `prefix_of` drop (Z.to_nat skip) bs)) else TPD_UNKNOWN in
  if zlen bs <? 3 then TPD_UNKNOWN
  else
    match bs with
    | c :: d :: _ =>
      if c =? 71 then verb 1 3 [69; 84]
      else if c =? 72 then verb 1 4 [69; 65; 68]
      else if c =? 68 then verb 1 6 [69; 76; 69; 84; 69]
      else if c =? 67 then verb 1 7 [79; 78; 78; 69; 67; 84]
      else if c =? 79 then verb 1 7 [80; 84; 73; 79; 78; 83]
      else if c =? 84 then verb 1 5 [82; 65; 67; 69]
      else if c =? 80 then
        if d =? 85 then verb 2 3 [84]
        else if d =? 79 then verb 2 3 [83; 84]
        else if d =? 65 then verb 2 5 [84; 67; 72]
        else TPD_FAILED
      else TPD_FAILED
    | _ => TPD_FAILED
    end.

Lemma starts_with_prefix mem data bs skip s :
  holds mem data bs -> 0 <= skip <= zlen bs -> zlen bs < 2 ^ 64 -> 0 < zlen s ->
  string_starts_with mem (data + skip) (u64 (zlen bs - skip)) s = bool_decide (s `prefix_of` drop (Z.to_nat skip) bs).
Proof.
  intros Hm Hs Hl H0. unfold string_starts_with, local_bytes. rewrite u64_small by lia.
  destruct (Z.ltb_spec (zlen bs - skip) (zlen s)) as [Hlt|Hge].
  - symmetry. apply bool_decide_eq_false. intros Hp%prefix_length. rewrite length_drop in Hp. unfold zlen in *. lia.
  - rewrite (Hm skip (zlen s)) by lia. cbn [got]. rewrite take_take. unfold zlen. rewrite Nat2Z.id, Nat.min_id.
    apply bool_decide_ext. split.
    + intros <-. eexists. symmetry. apply take_drop.
    + intros [k ->]. apply take_app_length.
Qed.

Lemma detect_bytes_spec mem data bs : holds mem data bs -> zlen bs < 2 ^ 64 -> http_detect mem data (zlen bs) = detect_bytes bs.
Proof.
  intros Hm Hl. unfold http_detect, detect_bytes. destruct (Z.ltb_spec (zlen bs) 3) as [|H3]; [done|].
  destruct bs as [|c [|d bs]]; [unfold zlen in H3; cbn in H3; lia..|].
  assert (Hc : local_bytes mem data 1 = [c]).
  { unfold local_bytes. replace data with (data + 0) by lia. by rewrite (Hm 0 1) by lia. }
  assert (Hd : local_bytes mem (data + 1) 1 = [d]) by (unfold local_bytes; by rewrite (Hm 1 1) by lia).
  rewrite Hc, Hd. cbn [hd].
  repeat match goal with |- context [?x =? ?y] => destruct (x =? y) end; try done; by rewrite starts_with_prefix by (done || lia).
Qed.


Lemma detected_success b (at_least n : Z) :
  (if at_least <=? n then detected b else TPD_UNKNOWN) = TPD_SUCCESS <-> at_least <= n /\ b = true.
Proof. destruct (Z.leb_spec at_least n), b; cbn; intuition (done || lia). Qed.

Lemma verb_method (bs : list Z) skip s : s `prefix_of` drop skip bs -> take skip bs ++ s `prefix_of` bs.
Proof. intros Hp. rewrite <- (take_drop skip bs) at 2. by apply prefix_app. Qed.

(** Data is recognised when it begins with a method. *)
Lemma detect_success bs : detect_bytes bs = TPD_SUCCESS <-> exists m, m ∈ methods /\ m `prefix_of` bs.
Proof.
  split.
  - unfold detect_bytes. destruct (zlen bs <? 3); [done|]. destruct bs as [|c [|d bs]]; [done..|].
    repeat match goal with |- context [?x =? ?y] => destruct (Z.eqb_spec x y) as [->|_] end; try done;
      intros [_ Hk%bool_decide_eq_true]%detected_success;
      (eexists; split; [|apply (verb_method _ _ _ Hk)]; cbn; unfold methods, POST; rewrite !elem_of_cons; repeat first [by left|right]).
  - intros (m & Hm & k & ->). unfold methods, POST in Hm. rewrite !elem_of_cons, elem_of_nil in Hm.
    pose proof (zlen_nonneg k). unfold detect_bytes.
    repeat destruct Hm as [->|Hm]; [..|done]; cbn [app]; rewrite !zlen_cons;
      match goal with |- context [?x <? 3] => destruct (Z.ltb_spec x 3) as [|_]; [lia|] end; cbn [Z.eqb Pos.eqb]; apply detected_success;
      (split; [lia|]); apply bool_decide_eq_true; by eexists.
Qed.

(** [http_detect] recognises data by the method it begins with.  It succeeds exactly on
    data that begins with one of the nine methods; on fewer bytes, that may still become a
    method, it asks for more, with one exception: [POS] is refused. *)
Theorem http_detect_methods (mem : user_memory) (data : Z) (bs : list Z) :
  holds mem data bs -> zlen bs < 2 ^ 64 ->
  (http_detect mem data (zlen bs) = TPD_SUCCESS <-> exists m, m ∈ methods /\ m `prefix_of` bs) /\
  (forall m, m ∈ methods -> bs `prefix_of` m -> bs <> m ->
     http_detect mem data (zlen bs) = if decide (bs = take 3 POST) then TPD_FAILED else TPD_UNKNOWN).
Proof.
  intros Hm Hl. rewrite (detect_bytes_spec mem data bs Hm Hl). split; [apply detect_success|].
  intros m Hin Hp Hne. destruct Hp as [k ->].
  assert (Hall : Forall (fun m => Forall (fun n => let p := take n m in
    detect_bytes p = if decide (p = take 3 POST) then TPD_FAILED else TPD_UNKNOWN) (seq 0 (length m))) methods)
    by (vm_compute; repeat constructor).
  rewrite Forall_forall in Hall. specialize (Hall _ Hin). rewrite Forall_forall in Hall.
  specialize (Hall (length bs)). cbv zeta in Hall. rewrite take_app_length in Hall. apply Hall.
  apply elem_of_seq. rewrite length_app. destruct k; [by rewrite app_nil_r in Hne|cbn; lia].
Qed.

(** * The calls of an application *)

Section calls.
Context {MS MP MC MK MA MR MX : Type} `{BpfMap ProbeUdp.udp_open_socket_t MS} `{BpfMap Z MP}.
Context `{BpfMap tcp_connection_t MC} `{BpfMap tcp_control_value_t MK} `{BpfMap sendmsg_args MA} `{BpfMap recvmsg_args MR}
  `{BpfMap accept_args MX}.
Context {LC : BpfMapLaws tcp_connection_t MC} {LK : BpfMapLaws tcp_control_value_t MK}.
Context {LA : BpfMapLaws sendmsg_args MA} {LR : BpfMapLaws recvmsg_args MR}.
Context (bpf_ktime_get_ns : nat -> Z) (BOOT_TIME_ADJUSTMENT : Z) (fileline : Z -> Z).
Context (LINUX_VERSION_CODE ITER_IOVEC ITER_KVEC : Z) (data_stream : bool).
Context (ctx : context) (Hproc : no_process ctx = false).

Abbreviation State := (@State MS MP MC MK MA MR MX).
Abbreviation run := (@run MS MP MC MK MA MR MX).

(** The calls of [tcp_sendmsg] and [tcp_recvmsg]: the memory when the call begins and when it
    returns, and what it returns. *)
Definition call (st : STREAM_TYPE) (sk : Z) (mem mem' : user_memory) (msg retval : Z) : run bool :=
  match st with
  | ST_SEND =>
    bind (handle_kprobe__tcp_sendmsg bpf_ktime_get_ns BOOT_TIME_ADJUSTMENT fileline LINUX_VERSION_CODE ITER_IOVEC ITER_KVEC data_stream
            mem ctx sk msg)
      (fun _ => handle_kretprobe__tcp_sendmsg bpf_ktime_get_ns BOOT_TIME_ADJUSTMENT fileline data_stream mem' ctx retval)
  | ST_RECV =>
    bind (handle_kprobe__tcp_recvmsg bpf_ktime_get_ns BOOT_TIME_ADJUSTMENT fileline LINUX_VERSION_CODE ITER_IOVEC ITER_KVEC data_stream
            mem ctx sk msg)
      (fun _ => handle_kretprobe__tcp_recvmsg bpf_ktime_get_ns BOOT_TIME_ADJUSTMENT fileline data_stream mem' ctx retval)
  end.

Definition handler (st : STREAM_TYPE) (mem : user_memory) (sk : Z) (c : tcp_connection_t) : Z -> Z -> run unit :=
  match st with
  | ST_SEND => tcp_send_stream_handler bpf_ktime_get_ns BOOT_TIME_ADJUSTMENT fileline data_stream mem ctx sk c
  | ST_RECV => tcp_recv_stream_handler bpf_ktime_get_ns BOOT_TIME_ADJUSTMENT fileline data_stream mem ctx sk c
  end.

(** A message of one buffer, which holds [bs] when the call returns. *)
Record one_buffer (mem mem' : user_memory) (msg : Z) (bs : list Z) : Prop := {
  ob_known : unsupported LINUX_VERSION_CODE ITER_IOVEC ITER_KVEC (iter_type (msg_at mem msg)) = false;
  ob_offset : iov_offset (msg_at mem msg) = 0;
  ob_segs : nr_segs (msg_at mem msg) = 1;
  ob_iov : iov_at mem' (msg_iov (msg_at mem msg)) = iov_at mem (msg_iov (msg_at mem msg));
  ob_len : iov_len (iov_at mem (msg_iov (msg_at mem msg))) = zlen bs;
  ob_size : 1 <= zlen bs <= DATA_CHANNEL_CHUNK_MAX;
  ob_holds : holds mem' (iov_base (iov_at mem (msg_iov (msg_at mem msg)))) bs
}.

(** The thread is in no other call, and there is room for its arguments. *)
Definition room (st : STREAM_TYPE) (s : State) : Prop :=
  match st with
  | ST_SEND => forall a, bm_contents (bm_insert (sendmsg_active s) (ProbeUdp.pid_tgid ctx) a).1
      = <[ProbeUdp.pid_tgid ctx := a]> (sends s) /\ sends s !! ProbeUdp.pid_tgid ctx = None
  | ST_RECV => forall a, bm_contents (bm_insert (recvmsg_active s) (ProbeUdp.pid_tgid ctx) a).1
      = <[ProbeUdp.pid_tgid ctx := a]> (receives s) /\ receives s !! ProbeUdp.pid_tgid ctx = None
  end.

(** The connection [sk] and its control block. *)
Definition at_ (s : State) (sk : Z) (c : tcp_connection_t) (v : tcp_control_value_t) : Prop :=
  connections s !! sk = Some c /\ conn_sk c = sk /\ controls s !! sk = Some v.

(** ** Steps *)

(** The time at the [k]th tick from now. *)
Definition time_at (s : State) (k : nat) : Z := u64 (bpf_ktime_get_ns (k + ProbeUdp.ticks (base s))%nat + BOOT_TIME_ADJUSTMENT).

Definition turned (st : STREAM_TYPE) (v : tcp_control_value_t) : tcp_control_value_t :=
  match st with
  | ST_RECV => set_enable ST_RECV 0 (set_enable ST_SEND 1 v)
  | ST_SEND => set_enable ST_RECV 1 (set_enable ST_SEND 0 v)
  end.

(** [s'] is [s] with other contents for the connection [sk]. *)
Definition became (s : State) (sk : Z) (c : tcp_connection_t) (v : tcp_control_value_t) (s' : State) : Prop :=
  at_ s' sk c v /\ same_args s s'.

Lemma turn_became s sk c c0 v st :
  at_ s sk c v -> conn_sk c0 = sk -> exists s', turn c0 st s = (tt, s', []) /\ became s sk c (turned st v) s' /\ base s' = base s.
Proof using LK.
  intros (Hc & Hsk & Hv) Hc0. unfold controls in Hv.
  assert (E : turn (MS := MS) (MP := MP) (MC := MC) (MA := MA) (MR := MR) (MX := MX) c0 st s
    = set_control (bm_store (tcp_control s) sk (turned st v)) s).
  { unfold turn. rewrite Hc0. destruct st; unfold enable_tcp_connection, write_control; rewrite bind_here, bm_lookup_spec, Hv; done. }
  rewrite E. eexists. split; [reflexivity|]. split; [|done]. split; [|done]. split_and!; [done..|].
  unfold controls. cbn. rewrite bm_store_spec by (by rewrite Hv). apply lookup_insert_eq.
Qed.

Lemma write_became s sk c v f :
  at_ s sk c v -> conn_sk (f c) = sk -> exists s', write_conn sk f s = (tt, s', []) /\ became s sk (f c) v s' /\ base s' = base s.
Proof using LC.
  intros (Hc & Hsk & Hv) Hf. destruct (write_conn_contents sk f s c Hc) as (m & Em & Ew). rewrite Ew. eexists.
  split; [reflexivity|]. split; [|done]. split; [|done]. split_and!; [|done..]. unfold connections. cbn. rewrite Em. apply lookup_insert_eq.
Qed.

Lemma became_trans s1 s2 s3 sk c c' v v' : became s1 sk c v s2 -> became s2 sk c' v' s3 -> became s1 sk c' v' s3.
Proof using. intros [_ Ha] [? Hb]. split; [done|]. by eapply same_args_trans. Qed.

Lemma timestamp_became s sk c v : at_ s sk c v ->
  exists s', get_timestamp bpf_ktime_get_ns BOOT_TIME_ADJUSTMENT s = (time_at s 0, s', []) /\ became s sk c v s' /\
    forall k, time_at s' k = time_at s (S k).
Proof.
  intros Ha. unfold get_timestamp, on_base, ProbeUdp.get_timestamp. eexists. split; [reflexivity|]. split; [by split|].
  intros k. unfold time_at. cbn. by rewrite Nat.add_succ_r.
Qed.

(** ** The calls *)

Lemma write_handles s sk c v st data n (h : Z -> Z -> run unit) s2 out c2 v2 :
  at_ s sk c v -> start (control_of st v) <= total (stream_of st c) -> 0 <= total (stream_of st c) -> 0 < n ->
  total (stream_of st c) + n < 2 ^ 64 -> h data n s = (tt, s2, out) -> became s sk c2 v2 s2 -> stream_of st c2 = stream_of st c ->
  exists s', write_to_tcp_stream bpf_ktime_get_ns BOOT_TIME_ADJUSTMENT fileline ctx sk c st data n h s = (tt, s', out) /\
    became s sk (set_total st (total (stream_of st c) + n) c2) v2 s'.
Proof using LC LK.
  intros (Hc & Hsk & Hv) Hst Ht0 Hn Ht Eh Hb2 Hs2. unfold controls in Hv.
  edestruct (write_became s2 sk c2 v2 (fun c => set_total st (u64 (total (stream_of st c) + n)) c) (proj1 Hb2)) as (s3 & E3 & Hb3 & _).
  { destruct Hb2 as [(_ & <- & _) _]. by destruct st. }
  exists s3. split.
  - unfold write_to_tcp_stream, get_tcp_control. rewrite bind_assoc, bind_here, bind_ret, Hsk, bm_lookup_spec, Hv.
    destruct (Z.leb_spec (u64 (total (stream_of st c) + n)) (start (control_of st v))) as [Hle|_];
      [rewrite u64_small in Hle by lia; lia|].
    destruct (Z.ltb_spec (total (stream_of st c)) (start (control_of st v))); [lia|]. cbv zeta.
    rewrite Z.add_0_r, Z.sub_0_r, (u64_small n) by lia. rewrite bind_ret, <- (app_nil_r out). eapply bind_run; [exact Eh|exact E3].
  - rewrite Hs2, u64_small in Hb3 by lia. exact (became_trans _ _ _ _ _ _ _ _ Hb2 Hb3).
Qed.

Definition watched_from (st : STREAM_TYPE) (c : tcp_connection_t) (v : tcp_control_value_t) (n : Z) : Prop :=
  start (control_of st v) <= total (stream_of st c) /\ 0 <= total (stream_of st c) /\ total (stream_of st c) + n < 2 ^ 64.

(** The arguments of calls in the other direction are left alone. *)
Definition other_args (st : STREAM_TYPE) (s s' : State) : Prop :=
  match st with
  | ST_SEND => recvmsg_active s' = recvmsg_active s
  | ST_RECV => sendmsg_active s' = sendmsg_active s
  end.

Lemma send_handles sk mem mem' msg bs s c v c2 v2 (Q : list sent -> Prop) :
  at_ s sk c v -> interested data_stream c v ST_SEND = true -> watched_from ST_SEND c v (zlen bs) -> room ST_SEND s ->
  one_buffer mem mem' msg bs ->
  (forall s1, base s1 = base s -> at_ s1 sk c v -> exists s2 out,
     handler ST_SEND mem' sk c (iov_base (iov_at mem (msg_iov (msg_at mem msg)))) (zlen bs) s1 = (tt, s2, out) /\ became s1 sk c2 v2 s2 /\ Q out) ->
  send_stream c2 = send_stream c ->
  exists s' out, call ST_SEND sk mem mem' msg (zlen bs) s = (true, s', out) /\ Q out /\
    at_ s' sk (set_total ST_SEND (total (send_stream c) + zlen bs) c2) v2 /\ other_args ST_SEND s s'.
Proof using Hproc LC LK LA LR.
  intros Ha Hi (Hst & Ht0 & Ht) Hroom [Hk Ho Hg Hv' Hlen Hsz Hm] Hh Hs2. pose proof Ha as (Hc & Hsk & Hv).
  unfold DATA_CHANNEL_CHUNK_MAX in Hsz. cbn [call handler room] in *. set (iov := msg_iov (msg_at mem msg)) in *.
  set (a := mk_send sk iov 0 0 (if has_iter LINUX_VERSION_CODE then iov_offset (msg_at mem msg) else 0)
              (nr_segs (msg_at mem msg)) 0 1).
  set (s1 := mk_state (base s) (tcp_connections s) (tcp_control s) (bm_insert (sendmsg_active s) (ProbeUdp.pid_tgid ctx) a).1
               (recvmsg_active s) (accept_active s)).
  rewrite (bind_tt _ _ s tt s1); [|by eapply kprobe_sendmsg]. destruct (Hroom a) as [Hins _].
  destruct (Hh s1 eq_refl) as (s2 & out & Eh & Hb2 & HQ); [done|].
  destruct (write_handles s1 sk c v ST_SEND _ (zlen bs) _ s2 out c2 v2 ltac:(done) Hst Ht0 ltac:(lia) Ht Eh Hb2 Hs2) as (s3 & Ew & Hb3).
  assert (Ha1 : sends s1 !! ProbeUdp.pid_tgid ctx = Some a) by (unfold sends; cbn; rewrite Hins; apply lookup_insert_eq).
  assert (En : next_iovec mem' a = Some (mk_send sk (iov + sizeof_iovec) (iov_base (iov_at mem iov)) (zlen bs) 0 0 0 1)).
  { unfold next_iovec, a. cbn [s_iov_len s_nr_segs s_iov s_iov_offset s_sk s_written s_depth]. rewrite Hg, Hv', Hlen, Ho, Z.eqb_refl. cbn.
    do 2 f_equal. destruct (has_iter _); lia. }
  unfold handle_kretprobe__tcp_sendmsg. rewrite s32_small by lia. change (Z.to_nat TCP_TAIL_CALL_MAX_DEPTH) with 8%nat.
  erewrite send_unfold; [|exact Hproc|..|exact Ha1|exact Hc|exact En|reflexivity]; [|cbn; lia..].
  replace (piece_size _ _) with (zlen bs) by (unfold piece_size, DATA_CHANNEL_CHUNK_MAX; cbn; lia).
  cbn [s_sk s_iov_ptr s_written]. rewrite Z.sub_0_r, Z.eqb_refl. cbn [orb].
  destruct Hb3 as [Hat (Hsame & Hother & _)].
  destruct (delete_sendmsg ctx s3) as (m & _ & Ed); [unfold sends in *; rewrite Hsame; by exists a|].
  eexists _, out. split; [rewrite <- (app_nil_r out); eapply bind_run; [exact Ew|]; rewrite (bind_tt _ _ s3 tt _ Ed); reflexivity|].
  split; [exact HQ|]. split; [exact Hat|exact Hother].
Qed.

Lemma recv_handles sk mem mem' msg bs s c v c2 v2 (Q : list sent -> Prop) :
  at_ s sk c v -> interested data_stream c v ST_RECV = true -> watched_from ST_RECV c v (zlen bs) -> room ST_RECV s ->
  one_buffer mem mem' msg bs ->
  (forall s1, base s1 = base s -> at_ s1 sk c v -> exists s2 out,
     handler ST_RECV mem' sk c (iov_base (iov_at mem (msg_iov (msg_at mem msg)))) (zlen bs) s1 = (tt, s2, out) /\ became s1 sk c2 v2 s2 /\ Q out) ->
  recv_stream c2 = recv_stream c ->
  exists s' out, call ST_RECV sk mem mem' msg (zlen bs) s = (true, s', out) /\ Q out /\
    at_ s' sk (set_total ST_RECV (total (recv_stream c) + zlen bs) c2) v2 /\ other_args ST_RECV s s'.
Proof using Hproc LC LK LA LR.
  intros Ha Hi (Hst & Ht0 & Ht) Hroom [Hk _ _ _ Hlen Hsz Hm] Hh Hs2. pose proof Ha as (Hc & Hsk & Hv).
  unfold DATA_CHANNEL_CHUNK_MAX in Hsz. cbn [call handler room] in *. set (iov := iov_at mem (msg_iov (msg_at mem msg))) in *.
  set (a := mk_recv sk (iov_base iov) (iov_len iov) 0 1).
  set (s1 := mk_state (base s) (tcp_connections s) (tcp_control s) (sendmsg_active s)
               (bm_insert (recvmsg_active s) (ProbeUdp.pid_tgid ctx) a).1 (accept_active s)).
  rewrite (bind_tt _ _ s tt s1); [|by eapply kprobe_recvmsg]. destruct (Hroom a) as [Hins _].
  destruct (Hh s1 eq_refl) as (s2 & out & Eh & Hb2 & HQ); [done|].
  destruct (write_handles s1 sk c v ST_RECV _ (zlen bs) _ s2 out c2 v2 ltac:(done) Hst Ht0 ltac:(lia) Ht Eh Hb2 Hs2) as (s3 & Ew & Hb3).
  assert (Ha1 : receives s1 !! ProbeUdp.pid_tgid ctx = Some a) by (unfold receives; cbn; rewrite Hins; apply lookup_insert_eq).
  unfold handle_kretprobe__tcp_recvmsg. rewrite s32_small by lia. change (Z.to_nat TCP_TAIL_CALL_MAX_DEPTH) with 8%nat.
  erewrite recv_unfold; [|exact Hproc|..|exact Ha1|exact Hc]; [|cbn; lia..].
  cbn [r_sk r_iov_base r_written a]. rewrite Z.sub_0_r, Z.add_0_r.
  replace (Z.min _ _) with (zlen bs) by (unfold DATA_CHANNEL_CHUNK_MAX; lia). rewrite Z.eqb_refl. cbn [orb].
  destruct Hb3 as [Hat (Hother & Hsame & _)].
  destruct (delete_recvmsg ctx s3) as (m & _ & Ed); [unfold receives in *; rewrite Hsame; by exists a|].
  eexists _, out. split; [rewrite <- (app_nil_r out); eapply bind_run; [exact Ew|]; rewrite (bind_tt _ _ s3 tt _ Ed); reflexivity|].
  split; [exact HQ|]. split; [exact Hat|exact Hother].
Qed.

Lemma call_handles st sk mem mem' msg bs s c v c2 v2 (Q : list sent -> Prop) :
  at_ s sk c v -> interested data_stream c v st = true -> watched_from st c v (zlen bs) -> room st s -> one_buffer mem mem' msg bs ->
  (forall s1, base s1 = base s -> at_ s1 sk c v -> exists s2 out,
     handler st mem' sk c (iov_base (iov_at mem (msg_iov (msg_at mem msg)))) (zlen bs) s1 = (tt, s2, out) /\ became s1 sk c2 v2 s2 /\ Q out) ->
  stream_of st c2 = stream_of st c ->
  exists s' out, call st sk mem mem' msg (zlen bs) s = (true, s', out) /\ Q out /\
    at_ s' sk (set_total st (total (stream_of st c) + zlen bs) c2) v2 /\ other_args st s s'.
Proof using Hproc LC LK LA LR. destruct st; [apply send_handles|apply recv_handles]. Qed.

End calls.

(** * An exchange *)

Section exchange.
Context {MS MP MC MK MA MR MX : Type} `{BpfMap ProbeUdp.udp_open_socket_t MS} `{BpfMap Z MP}.
Context `{BpfMap tcp_connection_t MC} `{BpfMap tcp_control_value_t MK} `{BpfMap sendmsg_args MA} `{BpfMap recvmsg_args MR}
  `{BpfMap accept_args MX}.
Context {LC : BpfMapLaws tcp_connection_t MC} {LK : BpfMapLaws tcp_control_value_t MK}.
Context {LA : BpfMapLaws sendmsg_args MA} {LR : BpfMapLaws recvmsg_args MR}.
Context (bpf_ktime_get_ns : nat -> Z) (BOOT_TIME_ADJUSTMENT : Z) (fileline : Z -> Z).
Context (LINUX_VERSION_CODE ITER_IOVEC ITER_KVEC : Z).
Context (ctx : context) (Hproc : no_process ctx = false).

Abbreviation State := (@State MS MP MC MK MA MR MX).
Abbreviation run := (@run MS MP MC MK MA MR MX).

#[local] Abbreviation call := (call bpf_ktime_get_ns BOOT_TIME_ADJUSTMENT fileline LINUX_VERSION_CODE ITER_IOVEC ITER_KVEC false ctx).
#[local] Abbreviation time_at := (time_at bpf_ktime_get_ns BOOT_TIME_ADJUSTMENT).
#[local] Abbreviation one_buffer := (one_buffer LINUX_VERSION_CODE ITER_IOVEC ITER_KVEC).
#[local] Abbreviation room := (room ctx).

(** HTTP is known or will be recognised in [bs]. *)
Definition speaks (p : tcp_protocol_state_t) (bs : list Z) : Prop :=
  candidates p = 1 /\ (protocol p = TCPPROTO_HTTP \/ protocol p = TCPPROTO_UNKNOWN /\ exists m, m ∈ methods /\ m `prefix_of` bs).

Lemma request_handled mem sk c v st data bs (s : State) :
  at_ s sk c v -> holds mem data bs -> zlen bs < 2 ^ 64 -> speaks (protocol_state c) bs ->
  exists s', tcp_client_handler bpf_ktime_get_ns BOOT_TIME_ADJUSTMENT fileline false mem ctx sk c st data (zlen bs) s = (tt, s', []) /\
    became s sk (set_protocol_state (mk_protocol TCPPROTO_HTTP 1 (time_at s 0)) c) (turned st v) s'.
Proof using LC LK.
  intros Ha Hm Hl (Hca & Hp). pose proof Ha as (_ & Hsk & _). unfold tcp_client_handler. cbv zeta.
  match goal with |- context [write_conn sk (set_protocol_state ?q)] => set (p := q) end. assert (E : p = mk_protocol TCPPROTO_HTTP 1 (request_timestamp (protocol_state c))).
  { unfold p. rewrite Hca. change (Z.land 1 (TCP_PROTOCOL_BIT TCPPROTO_HTTP) =? 0) with false. destruct (protocol_state c) as [pr ca ts].
    cbn [protocol candidates request_timestamp] in *. subst ca. destruct Hp as [->|[-> Hd]]; [done|].
    cbn [Z.eqb negb andb]. rewrite (detect_bytes_spec mem data bs Hm Hl). by apply detect_success in Hd as ->. }
  rewrite E. cbn [candidates protocol].
  change (1 =? 0) with false. rewrite andb_false_r. change (TCPPROTO_HTTP =? TCPPROTO_UNKNOWN) with false. rewrite Z.eqb_refl.
  destruct (write_became s sk c v (set_protocol_state (mk_protocol TCPPROTO_HTTP 1 (request_timestamp (protocol_state c)))) Ha Hsk)
    as (s1 & E1 & Hb1 & Hbase). rewrite (bind_tt _ _ s tt s1 E1). unfold http_process_request.
  destruct (timestamp_became bpf_ktime_get_ns BOOT_TIME_ADJUSTMENT s1 sk _ v (proj1 Hb1)) as (s2 & E2 & Hb2 & _). rewrite (bind_tt _ _ s1 _ s2 E2).
  edestruct (write_became s2 sk _ v (set_request_timestamp (time_at s1 0)) (proj1 Hb2)) as (s3 & E3 & Hb3 & _); [exact Hsk|].
  rewrite (bind_tt _ _ s2 tt s3 E3). destruct (turn_became s3 sk _ c v st (proj1 Hb3) Hsk) as (s4 & E4 & Hb4 & _).
  exists s4. split; [exact E4|]. replace (time_at s 0) with (time_at s1 0) by (unfold time_at; by rewrite Hbase).
  eapply became_trans; [|exact Hb4]. eapply became_trans; [|exact Hb3]. by eapply became_trans.
Qed.

(** The code, and the time since the request, are sent. *)
Lemma response_handled mem sk c v st data bs code (s : State) :
  at_ s sk c v -> holds mem data bs -> 12 <= zlen bs -> protocol (protocol_state c) = TCPPROTO_HTTP ->
  response_code (take 12 bs) = Some code ->
  exists s', tcp_server_handler bpf_ktime_get_ns BOOT_TIME_ADJUSTMENT fileline false mem ctx sk c st data (zlen bs) s
    = (tt, s', [Event (time_at s 1) (Agent.http_response sk (tgid_of ctx) code (u64 (time_at s 0 - request_timestamp (protocol_state c)))
         (side_number (match st with ST_SEND => SC_SERVER | ST_RECV => SC_CLIENT end)))]) /\
    became s sk c (turned st v) s'.
Proof using LC LK Hproc.
  intros Ha Hm Hl Hp Hr. pose proof Ha as (_ & Hsk & _). unfold tcp_server_handler. cbv zeta. rewrite Hp.
  change (TCPPROTO_HTTP =? TCPPROTO_UNKNOWN) with false. rewrite Z.eqb_refl. unfold http_process_response.
  destruct (Z.ltb_spec (zlen bs) 12); [lia|]. unfold local_bytes. replace data with (data + 0) by lia.
  rewrite (Hm 0 12) by lia. cbn [got]. change (Z.to_nat 12) with 12%nat. change (Z.to_nat 0) with 0%nat. rewrite drop_0, Hr.
  destruct (timestamp_became bpf_ktime_get_ns BOOT_TIME_ADJUSTMENT s sk c v Ha) as (s1 & E1 & Hb1 & Ht1).
  destruct (timestamp_became bpf_ktime_get_ns BOOT_TIME_ADJUSTMENT s1 sk c v (proj1 Hb1)) as (s2 & E2 & Hb2 & Ht2).
  destruct (turn_became s2 sk c c v st (proj1 Hb2) Hsk) as (s3 & E3 & Hb3 & _).
  exists s3. split; [|eapply became_trans; [|exact Hb3]; by eapply became_trans].
  rewrite bind_assoc, (bind_tt _ _ s _ s1 E1). unfold tcp_events_submit_http_response.
  rewrite !bind_assoc, (bind_tt _ _ s1 tt s1 (quiet_pid _ _ _ _ Hproc _ s1)), bind_assoc, (bind_tt _ _ s1 _ s2 E2), Hsk, Ht1.
  rewrite <- (app_nil_r [_]). by eapply bind_run; [reflexivity|].
Qed.

(** ** The exchange *)

Definition opposite (st : STREAM_TYPE) : STREAM_TYPE := match st with ST_SEND => ST_RECV | ST_RECV => ST_SEND end.

(** The direction of requests: a socket that was accepted receives them. *)
Definition request_stream (c : tcp_connection_t) : STREAM_TYPE := if parent_sk c =? 0 then ST_SEND else ST_RECV.
Definition own_side (c : tcp_connection_t) : CLIENT_SERVER_TYPE := if parent_sk c =? 0 then SC_CLIENT else SC_SERVER.

Lemma opposite_interested st c v n t :
  candidates (protocol_state c) = 1 -> protocol_count (stream_of (opposite st) c) <> 0 ->
  interested false (set_total st n (set_protocol_state (mk_protocol TCPPROTO_HTTP 1 t) c)) (turned st v) (opposite st) = true.
Proof.
  intros Hc Hp. unfold interested. destruct st; cbn in *;
    match goal with Hp : ?x <> 0 |- _ => destruct (Z.eqb_spec x 0) end; done.
Qed.

Lemma opposite_watched st c v n t m :
  watched_from (opposite st) c v m ->
  watched_from (opposite st) (set_total st n (set_protocol_state (mk_protocol TCPPROTO_HTTP 1 t) c)) (turned st v) m.
Proof. by destruct st. Qed.

Lemma waits_again st c v n m t :
  interested false c v st = true ->
  let c3 := set_total (opposite st) n (set_total st m (set_protocol_state (mk_protocol TCPPROTO_HTTP 1 t) c)) in
  let v3 := turned (opposite st) (turned st v) in
  interested false c3 v3 st = true /\ interested false c3 v3 (opposite st) = false.
Proof.
  unfold interested. intros [[_ Hp]%andb_prop _]%andb_prop.
  destruct st; cbn in *; rewrite Hp, ?andb_false_r; done.
Qed.

(** C18: a request and its response are reported, once, with the code and the time between
    them.  On a connection that is watched, whose protocol is HTTP or will be recognised, a
    request that arrives in one buffer is not reported; whatever happens then to other
    connections and to the clock, the response is, with the three digits of its status line
    and the time from the one to the other, on the side of the client or of the server as
    the socket was connected or accepted; and the connection waits for the next request. *)
Theorem http_exchange_reported (sk : Z) (s : State) (c : tcp_connection_t) (v : tcp_control_value_t)
    (mem mem' : user_memory) (msg : Z) (request : list Z) (mem2 mem2' : user_memory) (msg2 : Z) (response : list Z) (code : Z) :
  let st := request_stream c in
  at_ s sk c v -> interested false c v st = true -> watched_from st c v (zlen request) -> room st s ->
  one_buffer mem mem' msg request -> speaks (protocol_state c) request ->
  watched_from (opposite st) c v (zlen response) -> protocol_count (stream_of (opposite st) c) <> 0 ->
  one_buffer mem2 mem2' msg2 response -> 12 <= zlen response -> response_code (take 12 response) = Some code ->
  exists (s1 : State) c1 v1, call st sk mem mem' msg (zlen request) s = (true, s1, []) /\ at_ s1 sk c1 v1 /\
    forall s2 : State, at_ s2 sk c1 v1 -> room (opposite st) s2 ->
    exists (s3 : State) c3 v3, call (opposite st) sk mem2 mem2' msg2 (zlen response) s2
      = (true, s3, [Event (time_at s2 1) (Agent.http_response sk (tgid_of ctx) code (u64 (time_at s2 0 - time_at s 0))
          (side_number (own_side c)))]) /\
    at_ s3 sk c3 v3 /\ protocol (protocol_state c3) = TCPPROTO_HTTP /\ interested false c3 v3 st = true /\
    interested false c3 v3 (opposite st) = false.
Proof using Hproc LC LK LA LR.
  intros st Ha Hi Hw Hroom Hob Hsp Hw2 Hpc Hob2 Hl2 Hcode. pose proof Hsp as [Hca _].
  set (p := mk_protocol TCPPROTO_HTTP 1 (time_at s 0)).
  destruct (call_handles bpf_ktime_get_ns BOOT_TIME_ADJUSTMENT fileline LINUX_VERSION_CODE ITER_IOVEC ITER_KVEC false ctx Hproc st sk mem mem' msg request s c v (set_protocol_state p c) (turned st v) (eq []) Ha Hi Hw Hroom Hob)
    as (s1 & out1 & E1 & <- & Ha1 & _); [|by destruct st|].
  { intros s1 Hbase Ha1. assert (Ht : time_at s 0 = time_at s1 0) by (unfold time_at; by rewrite Hbase). unfold p. rewrite Ht.
    destruct (request_handled mem' sk c v st _ request s1 Ha1 (ob_holds _ _ _ _ _ _ _ Hob)) as (s2 & E & Hb);
      [destruct Hob as [_ _ _ _ _ Hs _]; unfold DATA_CHANNEL_CHUNK_MAX in Hs; lia|done|].
    exists s2, []. split; [|by split]. rewrite <- E. unfold handler, st, request_stream, tcp_send_stream_handler, tcp_recv_stream_handler.
    by destruct (parent_sk c =? 0). }
  set (c1 := set_total st (total (stream_of st c) + zlen request) (set_protocol_state p c)) in *.
  exists s1, c1, (turned st v). split; [exact E1|]. split; [exact Ha1|]. intros s2 Ha2 Hroom2.
  destruct (call_handles bpf_ktime_get_ns BOOT_TIME_ADJUSTMENT fileline LINUX_VERSION_CODE ITER_IOVEC ITER_KVEC false ctx Hproc (opposite st) sk mem2 mem2' msg2 response s2 c1 (turned st v) c1 (turned (opposite st) (turned st v))
    (eq [Event (time_at s2 1) (Agent.http_response sk (tgid_of ctx) code (u64 (time_at s2 0 - time_at s 0)) (side_number (own_side c)))])
    Ha2) as (s3 & out3 & E3 & <- & Ha3 & _); [by apply opposite_interested|by apply opposite_watched|done|done| |done|].
  { intros s2' Hbase Ha2'.
    destruct (response_handled mem2' sk c1 (turned st v) (opposite st) _ response code s2' Ha2' (ob_holds _ _ _ _ _ _ _ Hob2) Hl2)
      as (s3 & E & Hb); [by unfold c1; destruct st|done|]. eexists s3, _. split; [|by split].
    unfold handler, tcp_send_stream_handler, tcp_recv_stream_handler.
    replace (time_at s2 1) with (time_at s2' 1) by (unfold time_at; by rewrite Hbase).
    replace (time_at s2 0) with (time_at s2' 0) by (unfold time_at; by rewrite Hbase). revert E.
    unfold own_side, c1, st, request_stream. destruct (parent_sk c =? 0) eqn:Ep; cbn [opposite set_total set_protocol_state parent_sk];
      rewrite ?Ep; cbn [negb]; intros ->; done. }
  eexists s3, _, _. split; [exact E3|]. split; [exact Ha3|]. split; [by destruct st|].
  by apply waits_again.
Qed.
End exchange.
End KernelHttp.

Module KernelHttpDemo.
Import Probes TcpProcessor TcpProcessorDemo KernelHttp.

#[local] Existing Instances ProbeUdpDemo.maps ProbeUdpDemo.ports conns conns_laws ctrls ctrls_laws sending sending_laws receiving
  receiving_laws accepting.

Lemma http_detect_methods_witness :
  http_detect demo_memory 1000 18 = TPD_SUCCESS <-> exists m, m ∈ methods /\ m `prefix_of` demo_text.
Proof. apply (http_detect_methods demo_memory 1000 demo_text); [apply flat_holds|by vm_compute]. Defined.

(** HTTP/1.1 200 OK *)
Definition demo_response : list Z := [72; 84; 84; 80; 47; 49; 46; 49; 32; 50; 48; 48; 32; 79; 75; 13; 10].
Definition buffer (bs : list Z) : user_memory := mk_user (fun _ => mk_msghdr 0 500 1 0) (fun _ => mk_iovec 1000 (zlen bs)) (flat 1000 bs).

Lemma demo_buffer bs : 1 <= zlen bs <= DATA_CHANNEL_CHUNK_MAX -> one_buffer 400000 1 2 (buffer bs) (buffer bs) 400 bs.
Proof. intros. split; try done. apply flat_holds. Qed.

Definition demo_ready :=
  (handle_kprobe__tcp_init_sock ProbeUdpDemo.demo_clock 0 (fun l => l) false ProbeUdpDemo.demo_ctx demo_sk demo_start).1.2.
Definition demo_plain : tcp_connection_t := new_connection false ProbeUdpDemo.demo_ctx demo_sk.
Definition demo_states : Type := State (MC := gmap Z tcp_connection_t) (MK := gmap Z tcp_control_value_t)
  (MA := gmap Z sendmsg_args) (MR := gmap Z recvmsg_args) (MX := gmap Z accept_args) (MS := gmap Z ProbeUdp.udp_open_socket_t)
  (MP := gmap Z Z).
Definition demo_call (st : STREAM_TYPE) (bs : list Z) : demo_states -> bool * demo_states * list sent :=
  call ProbeUdpDemo.demo_clock 0 (fun l => l) 400000 1 2 false ProbeUdpDemo.demo_ctx st demo_sk
    (buffer bs) (buffer bs) 400 (zlen bs).

Lemma demo_free st (s : demo_states) :
  sendmsg_active s = ∅ -> recvmsg_active s = ∅ -> room ProbeUdpDemo.demo_ctx st s.
Proof. intros Hs Hr. destruct st; intros a; unfold sends, receives; rewrite ?Hs, ?Hr; by split. Qed.

(** A client sends a request and receives a response. *)
Lemma http_exchange_reported_witness :
  (bind (demo_call ST_SEND demo_text) (fun _ => demo_call ST_RECV demo_response) demo_ready).2
  = [Event 2000 (Agent.http_response 77 1 200 1000 0)] /\
  exists s1 c1 v1, demo_call ST_SEND demo_text demo_ready = (true, s1, []) /\ at_ s1 demo_sk c1 v1.
Proof.
  split; [vm_compute; reflexivity|].
  destruct (http_exchange_reported ProbeUdpDemo.demo_clock 0 (fun l => l) 400000 1 2 ProbeUdpDemo.demo_ctx eq_refl demo_sk demo_ready
    demo_plain demo_value (buffer demo_text) (buffer demo_text) 400 demo_text (buffer demo_response) (buffer demo_response) 400
    demo_response 200) as (s1 & c1 & v1 & E & Ha & _);
    [split_and!; by vm_compute|done|split_and!; by vm_compute|by apply demo_free|by apply demo_buffer| |split_and!; by vm_compute|done|
     by apply demo_buffer|by vm_compute|done|].
  { split; [done|]. right. split; [done|]. exists [71; 69; 84]. split; [by left|by eexists]. }
  by exists s1, c1, v1.
Defined.
End KernelHttpDemo.
