(* ===== verification/TcpData.v ===== *)
(** The data of TCP connections in the collector: [TCPDataHandler] of
    collector/kernel/tcp_data_handler.cc and the protocol handlers of
    collector/kernel/protocols.

    A message [tcp_data] announces data that is on the data ring of the same processor;
    [process] takes it from there, record by record, and gives it to the protocol
    handler of the socket, which at first only looks for a protocol it knows and is then
    replaced by the handler of that protocol.  The handlers tell the kernel, through the
    map of control blocks, which streams to watch.

    The rings are the class [EventRing], the map is the class [BpfMap]: what one looks up
    and what one updates is one step.  Log messages are left out; so are the
    [shared_ptr]s, since only the table refers to a handler for longer than a call.

    Theorems: [process] ends and takes from the ring exactly what was announced, giving
    it to the handler in order; the records do not say which connection they are of; the
    state machines of HTTP come to rest; a handler reports one response. *)
From S2P Require Import Prelude ElementQueue NatHandler PerfReader PollerBase ProbeUdp TcpProcessor.
Open Scope result_scope.

Module TcpData.
Import TcpProcessor.

(** * Protocol handlers *)

Inductive CLIENT_STATE := CLIENT_START | CLIENT_STOP | CLIENT_END.
Inductive SERVER_STATE := SERVER_START | SERVER_VERSION_AND_CODE | SERVER_STOP | SERVER_END.

Record ProtocolHandler_HTTP := mk_http {
  request_timestamp_ : Z;
  response_timestamp_ : Z;
  client_stream_position_ : Z;
  server_stream_position_ : Z;
  client_state_ : CLIENT_STATE;
  server_state_ : SERVER_STATE;
  http_version_major_ : Z;
  http_version_minor_ : Z;
  http_code_ : Z
}.

Inductive protocol_handler :=
  | UNKNOWN (available_protocols_ : Z)
  | HTTP (h : ProtocolHandler_HTTP).

(** [control_key().sk], [pid()], and the part of the class. *)
Record ProtocolHandlerBase := mk_handler { key_ : Z; pid_ : Z; specific : protocol_handler }.

Definition ProtocolHandler_HTTP_new : ProtocolHandler_HTTP := mk_http 0 0 0 0 CLIENT_START SERVER_START 0 0 0.
Definition ProtocolHandler_UNKNOWN_new : protocol_handler := UNKNOWN TCP_PROTOCOL_MASK.

Definition create_protocol_handler (protocol key pid : Z) : result ProtocolHandlerBase :=
  if protocol =? TCPPROTO_HTTP then Ok (mk_handler key pid (HTTP ProtocolHandler_HTTP_new))
  else if protocol =? TCPPROTO_UNKNOWN then Ok (mk_handler key pid ProtocolHandler_UNKNOWN_new)
  else Throw invalid_protocol.

Definition http_client_transition (s : CLIENT_STATE) (h : ProtocolHandler_HTTP) : ProtocolHandler_HTTP :=
  mk_http (request_timestamp_ h) (response_timestamp_ h) (client_stream_position_ h) (server_stream_position_ h) s (server_state_ h)
    (http_version_major_ h) (http_version_minor_ h) (http_code_ h).
Definition http_server_transition (s : SERVER_STATE) (h : ProtocolHandler_HTTP) : ProtocolHandler_HTTP :=
  mk_http (request_timestamp_ h) (response_timestamp_ h) (client_stream_position_ h) (server_stream_position_ h) (client_state_ h) s
    (http_version_major_ h) (http_version_minor_ h) (http_code_ h).
Definition set_request_timestamp_ (t : Z) (h : ProtocolHandler_HTTP) : ProtocolHandler_HTTP :=
  mk_http t (response_timestamp_ h) (client_stream_position_ h) (server_stream_position_ h) (client_state_ h) (server_state_ h)
    (http_version_major_ h) (http_version_minor_ h) (http_code_ h).
Definition set_response_timestamp_ (t : Z) (h : ProtocolHandler_HTTP) : ProtocolHandler_HTTP :=
  mk_http (request_timestamp_ h) t (client_stream_position_ h) (server_stream_position_ h) (client_state_ h) (server_state_ h)
    (http_version_major_ h) (http_version_minor_ h) (http_code_ h).
Definition set_http_version (major minor : Z) (h : ProtocolHandler_HTTP) : ProtocolHandler_HTTP :=
  mk_http (request_timestamp_ h) (response_timestamp_ h) (client_stream_position_ h) (server_stream_position_ h) (client_state_ h)
    (server_state_ h) major minor (http_code_ h).
Definition set_http_code (code : Z) (h : ProtocolHandler_HTTP) : ProtocolHandler_HTTP :=
  mk_http (request_timestamp_ h) (response_timestamp_ h) (client_stream_position_ h) (server_stream_position_ h) (client_state_ h)
    (server_state_ h) (http_version_major_ h) (http_version_minor_ h) code.
Definition advance_client (n : Z) (h : ProtocolHandler_HTTP) : ProtocolHandler_HTTP :=
  mk_http (request_timestamp_ h) (response_timestamp_ h) (u64 (client_stream_position_ h + n)) (server_stream_position_ h)
    (client_state_ h) (server_state_ h) (http_version_major_ h) (http_version_minor_ h) (http_code_ h).
Definition advance_server (n : Z) (h : ProtocolHandler_HTTP) : ProtocolHandler_HTTP :=
  mk_http (request_timestamp_ h) (response_timestamp_ h) (client_stream_position_ h) (u64 (server_stream_position_ h + n))
    (client_state_ h) (server_state_ h) (http_version_major_ h) (http_version_minor_ h) (http_code_ h).

(** protocol_tools.h; [U32IDX] and [U32CC] are little-endian on every host.  The callers
    have checked that the bytes are there. *)
Definition byte (data : list Z) (i : nat) : Z := default 0 (data !! i).
Definition prefix_check (haystack : list Z) (haystack_len : Z) (needle : list Z) : bool :=
  (zlen needle <=? haystack_len) && bool_decide (take (length needle) haystack = needle).
Definition U32IDX (data : list Z) (n : nat) : Z := le_decode (take 4 (drop (4 * n) data)).
Definition U32CC (x : list Z) : Z := le_decode x.

(** [ProtocolHandler_UNKNOWN::detect_http]. *)
Definition detect_http (data : list Z) : TCP_PROTOCOL_DETECT_RESULT :=
  let data_len := zlen data in
  let after (at_least : Z) (b : bool) := if at_least <=? data_len then detected b else TPD_UNKNOWN in
  if data_len <? 4 then TPD_UNKNOWN
  else
    let w := U32IDX data 0 in
    if (w =? U32CC [71; 69; 84; 32]) || (w =? U32CC [80; 85; 84; 32]) then TPD_SUCCESS                    (* GET, PUT *)
    else if (w =? U32CC [72; 69; 65; 68]) || (w =? U32CC [80; 79; 83; 84]) then after 5 (byte data 4 =? 32)  (* HEAD, POST *)
    else if w =? U32CC [68; 69; 76; 69] then after 7 ((byte data 4 =? 84) && (byte data 5 =? 69) && (byte data 6 =? 32))
    else if w =? U32CC [67; 79; 78; 78] then after 8 (U32IDX data 1 =? U32CC [69; 67; 84; 32])            (* CONNECT *)
    else if w =? U32CC [79; 80; 84; 73] then after 8 (U32IDX data 1 =? U32CC [79; 78; 83; 32])            (* OPTIONS *)
    else if w =? U32CC [84; 82; 65; 67] then after 6 ((byte data 4 =? 69) && (byte data 5 =? 32))         (* TRACE *)
    else if w =? U32CC [80; 65; 84; 67] then after 6 ((byte data 4 =? 72) && (byte data 5 =? 32))         (* PATCH *)
    else TPD_FAILED.

Section data.
Context {R MK : Type} `{EventRing R} `{BpfMap tcp_control_value_t MK}.

(** * The control blocks *)

Definition flag (b : bool) : Z := if b then 1 else 0.

Definition change_control (key : Z) (f : tcp_control_value_t -> tcp_control_value_t) (m : MK) : MK :=
  match bm_lookup m key with
  | None => m
  | Some value => bm_store m key (f value)
  end.

(** [enable_stream] of one side and of both sides. *)
Definition enable_stream (key : Z) (stream_type : STREAM_TYPE) (enable : bool) : MK -> MK :=
  change_control key (set_enable stream_type (flag enable)).
Definition enable_streams (key : Z) (enable : bool) : MK -> MK :=
  change_control key (fun v => set_enable ST_RECV (flag enable) (set_enable ST_SEND (flag enable) v)).
Definition update_stream_start (key : Z) (stream_type : STREAM_TYPE) (start : Z) : MK -> MK :=
  change_control key (set_start stream_type start).

(** * HTTP: protocol_handler_http.cc *)

(** One turn of the loop of [handle_server_data], in a state that is not the last. *)
Definition http_server_turn (key pid tstamp : Z) (stream_type : STREAM_TYPE) (data : list Z) (m : MK) (h : ProtocolHandler_HTTP)
    : MK * ProtocolHandler_HTTP * list message :=
  match server_state_ h with
  | SERVER_START => (m, http_server_transition SERVER_VERSION_AND_CODE (set_response_timestamp_ tstamp h), [])
  | SERVER_VERSION_AND_CODE =>
    let STOP h := (m, http_server_transition SERVER_STOP h, []) in
    if zlen data <? 12 then STOP h
    else if negb (prefix_check data 12 [72; 84; 84; 80; 47]) || negb (byte data 6 =? 46) || negb (byte data 8 =? 32) then STOP h
    else
      let h := set_http_version (char_to_number (byte data 5)) (char_to_number (byte data 7)) h in
      if (http_version_major_ h =? -1) || (http_version_minor_ h =? -1) then STOP h
      else
        let http_code_2 := char_to_number (byte data 9) in
        let http_code_1 := char_to_number (byte data 10) in
        let http_code_0 := char_to_number (byte data 11) in
        if (http_code_2 =? -1) || (http_code_1 =? -1) || (http_code_0 =? -1) then STOP h
        else
          let h := set_http_code (u16 (http_code_2 * 100 + http_code_1 * 10 + http_code_0)) h in
          let latency := u64 (response_timestamp_ h - request_timestamp_ h) in
          let client_server := match stream_type with ST_SEND => SC_SERVER | ST_RECV => SC_CLIENT end in
          (m, http_server_transition SERVER_STOP h,
           [http_response (response_timestamp_ h) key pid (http_code_ h) latency (side_number client_server)])
  | SERVER_STOP => (enable_stream key stream_type false m, http_server_transition SERVER_END h, [])
  | SERVER_END => (m, h, [])
  end.

(** The loops; [NoFuel] when they have not come to an end. *)
Fixpoint http_server_loop (fuel : nat) (key pid tstamp : Z) (stream_type : STREAM_TYPE) (data : list Z) (m : MK)
    (h : ProtocolHandler_HTTP) : result (MK * ProtocolHandler_HTTP * list message) :=
  match fuel, server_state_ h with
  | _, SERVER_END => Ok (m, h, [])
  | O, _ => NoFuel
  | S fuel, _ =>
    let '(m, h, out) := http_server_turn key pid tstamp stream_type data m h in
    let* (m, h, rest) := http_server_loop fuel key pid tstamp stream_type data m h in Ok (m, h, out ++ rest)
  end.

Definition http_client_turn (key tstamp : Z) (stream_type : STREAM_TYPE) (m : MK) (h : ProtocolHandler_HTTP)
    : MK * ProtocolHandler_HTTP :=
  match client_state_ h with
  | CLIENT_START => (m, http_client_transition CLIENT_STOP (set_request_timestamp_ tstamp h))
  | CLIENT_STOP => (enable_stream key stream_type false m, http_client_transition CLIENT_END h)
  | CLIENT_END => (m, h)
  end.

Fixpoint http_client_loop (fuel : nat) (key tstamp : Z) (stream_type : STREAM_TYPE) (m : MK) (h : ProtocolHandler_HTTP)
    : result (MK * ProtocolHandler_HTTP) :=
  match fuel, client_state_ h with
  | _, CLIENT_END => Ok (m, h)
  | O, _ => NoFuel
  | S fuel, _ =>
    let '(m, h) := http_client_turn key tstamp stream_type m h in http_client_loop fuel key tstamp stream_type m h
  end.

(** The skipping of a stream and its going backward only show in the log. *)
Definition http_handle_server_data (key pid tstamp : Z) (stream_type : STREAM_TYPE) (data : list Z) (m : MK)
    (h : ProtocolHandler_HTTP) : result (MK * ProtocolHandler_HTTP * list message) :=
  let* (m, h, out) := http_server_loop 3 key pid tstamp stream_type data m h in
  Ok (m, advance_server (zlen data) h, out).

Definition http_handle_client_data (key tstamp : Z) (stream_type : STREAM_TYPE) (data : list Z) (m : MK)
    (h : ProtocolHandler_HTTP) : result (MK * ProtocolHandler_HTTP) :=
  let* (m, h) := http_client_loop 2 key tstamp stream_type m h in
  Ok (m, advance_client (zlen data) h).

(** * No protocol yet: protocol_handler_unknown.cc *)

Definition unknown_handle_server_data (key : Z) (m : MK) : MK * Z := (enable_streams key false m, 0).

(** The control blocks, the available protocols, and the handler to upgrade to. *)
Definition unknown_handle_client_data (key pid : Z) (data : list Z) (m : MK) (available_protocols_ : Z)
    : result (MK * Z * option ProtocolHandlerBase) :=
  let finish available := Ok (if available =? 0 then enable_streams key false m else m, available, None) in
  if negb (Z.land available_protocols_ (TCP_PROTOCOL_BIT TCPPROTO_HTTP) =? 0) then
    match detect_http data with
    | TPD_SUCCESS =>
      let* upgrade := create_protocol_handler TCPPROTO_HTTP key pid in Ok (m, available_protocols_, Some upgrade)
    | TPD_FAILED => finish (Z.land available_protocols_ (not32 (TCP_PROTOCOL_BIT TCPPROTO_HTTP)))
    | TPD_UNKNOWN => finish available_protocols_
    end
  else finish available_protocols_.

(** * The virtual functions

    The offset is only logged. *)

(** What a call changes, and [get_upgrade] after it. *)
Definition handled : Type := MK * ProtocolHandlerBase * option ProtocolHandlerBase * list message.

Definition handle_server_data (tstamp offset : Z) (stream_type : STREAM_TYPE) (data : list Z) (m : MK) (p : ProtocolHandlerBase)
    : result handled :=
  match specific p with
  | UNKNOWN _ =>
    let '(m, available) := unknown_handle_server_data (key_ p) m in Ok (m, mk_handler (key_ p) (pid_ p) (UNKNOWN available), None, [])
  | HTTP h =>
    let* (m, h, out) := http_handle_server_data (key_ p) (pid_ p) tstamp stream_type data m h in
    Ok (m, mk_handler (key_ p) (pid_ p) (HTTP h), None, out)
  end.

Definition handle_client_data (tstamp offset : Z) (stream_type : STREAM_TYPE) (data : list Z) (m : MK) (p : ProtocolHandlerBase)
    : result handled :=
  match specific p with
  | UNKNOWN available =>
    let* (m, available, upgrade) := unknown_handle_client_data (key_ p) (pid_ p) data m available in
    Ok (m, mk_handler (key_ p) (pid_ p) (UNKNOWN available), upgrade, [])
  | HTTP h =>
    let* (m, h) := http_handle_client_data (key_ p) tstamp stream_type data m h in
    Ok (m, mk_handler (key_ p) (pid_ p) (HTTP h), None, [])
  end.

(** * TCPDataHandler *)

(** [tcp_control] is the map behind [tcp_control_desc_], [rings] the data rings of the
    container. *)
Record TCPDataHandler := mk_data {
  tcp_control : MK;
  protocol_handlers_ : gmap Z ProtocolHandlerBase;
  rings : list R;
  lost_record_total_count_ : Z
}.

Definition with_handler (d : TCPDataHandler) (m : MK) (key : Z) (p : ProtocolHandlerBase) : TCPDataHandler :=
  mk_data m (<[key := p]> (protocol_handlers_ d)) (rings d) (lost_record_total_count_ d).
Definition with_ring (d : TCPDataHandler) (idx : nat) (r : R) : TCPDataHandler :=
  mk_data (tcp_control d) (protocol_handlers_ d) (<[idx := r]> (rings d)) (lost_record_total_count_ d).
Definition with_lost_records (d : TCPDataHandler) (n : Z) : TCPDataHandler :=
  mk_data (tcp_control d) (protocol_handlers_ d) (rings d) n.

Definition upgrade_protocol_handler (d : TCPDataHandler) (new_handler original_handler : ProtocolHandlerBase)
    : result TCPDataHandler :=
  match protocol_handlers_ d !! key_ original_handler with
  | None => Throw invalid_update
  | Some _ => Ok (with_handler d (tcp_control d) (key_ original_handler) new_handler)
  end.

(** The loop that gives data to the handler and to those it is upgraded to. *)
Fixpoint give (fuel : nat) (d : TCPDataHandler) (sk tstamp offset : Z) (stream_type : STREAM_TYPE) (client_server : CLIENT_SERVER_TYPE)
    (data : list Z) (phb : ProtocolHandlerBase) : result (TCPDataHandler * list message) :=
  match fuel with
  | O => NoFuel
  | S fuel =>
    let* (m, phb, upgrade, out) :=
      match client_server with
      | SC_SERVER => handle_server_data tstamp offset stream_type data (tcp_control d) phb
      | SC_CLIENT => handle_client_data tstamp offset stream_type data (tcp_control d) phb
      end in
    let d := with_handler d m sk phb in
    match upgrade with
    | None => Ok (d, out)
    | Some upgrade =>
      let* d := upgrade_protocol_handler d upgrade phb in
      let* (d, rest) := give fuel d sk tstamp offset stream_type client_server data upgrade in
      Ok (d, out ++ rest)
    end
  end.

(** The handler the iterator points to; a socket without one gets one. *)
Definition find_handler (d : TCPDataHandler) (sk pid : Z) : result TCPDataHandler :=
  match protocol_handlers_ d !! sk with
  | Some _ => Ok d
  | None => let* p := create_protocol_handler TCPPROTO_UNKNOWN sk pid in Ok (with_handler d (tcp_control d) sk p)
  end.

Definition sizeof_header : Z := 8.
Definition min_length : Z := 4.
Definition max_length : Z := Z.land (4 + DATA_CHANNEL_CHUNK_MAX + 7) (not32 7).

(** A record of the data ring, after its size was checked: the rest of what was announced. *)
Definition process_sample (d : TCPDataHandler) (idx : nat) (ring : R) (padded_chunk_length : Z) (tstamp sk : Z)
    (length_remaining current_offset : Z) (stream_type : STREAM_TYPE) (client_server : CLIENT_SERVER_TYPE)
    : result (TCPDataHandler * list message * option Z) :=
  let* buf := get (peek_copy ring 0 (u16 padded_chunk_length)) in
  let* ring := get (ring_pop ring) in
  let d := with_ring d idx ring in
  let* header := get (mem_read buf 4 sizeof_header) in
  let data_len := u32 (le_decode header) in
  let chunk_length := u32 (data_len + 4 + sizeof_header) in
  if padded_chunk_length <? chunk_length then Ok (d, [], None)
  else
    let data_len := if length_remaining <? data_len then length_remaining else data_len in
    let* data := get (mem_read buf (4 + sizeof_header) data_len) in
    let* phb := get (protocol_handlers_ d !! sk) in
    let* (d, out) := give 2 d sk tstamp current_offset stream_type client_server data phb in
    Ok (d, out, Some data_len).

(** The loop of [process]; [fuel] bounds the records it looks at. *)
Fixpoint process_loop (fuel : nat) (d : TCPDataHandler) (idx : nat) (tstamp sk length_remaining current_offset : Z)
    (stream_type : STREAM_TYPE) (client_server : CLIENT_SERVER_TYPE) : result (TCPDataHandler * list message) :=
  match fuel with
  | O => NoFuel
  | S fuel =>
    if length_remaining =? 0 then Ok (d, [])
    else
      let* ring := get (rings d !! idx) in
      let* ring_size := get (peek_size ring) in
      if ring_size =? - ENOENT then Ok (d, [])
      else
        let* type := get (peek_type ring) in
        if type =? PerfReader.PERF_RECORD_SAMPLE then
          let padded_chunk_length := u32 ring_size in
          if (padded_chunk_length <? min_length) || (max_length <? padded_chunk_length) then Ok (d, [])
          else
            let* (d, out, taken) := process_sample d idx ring padded_chunk_length tstamp sk length_remaining
                                       current_offset stream_type client_server in
            match taken with
            | None => Ok (d, out)
            | Some data_len =>
              let* (d, rest) := process_loop fuel d idx tstamp sk (u32 (length_remaining - data_len))
                                 (u64 (current_offset + data_len)) stream_type client_server in
              Ok (d, out ++ rest)
            end
        else
          let* lost := if type =? PerfReader.PERF_RECORD_LOST then get (peek_aligned_u64 ring 8) else Ok 0 in
          let* ring := get (ring_pop ring) in
          let d := with_ring d idx ring in
          let d := if type =? PerfReader.PERF_RECORD_LOST then with_lost_records d (u64 (lost_record_total_count_ d + lost)) else d in
          process_loop fuel d idx tstamp sk length_remaining current_offset stream_type client_server
  end.

Definition process (fuel : nat) (d : TCPDataHandler) (idx : nat) (tstamp sk pid length offset : Z) (stream_type : STREAM_TYPE)
    (client_server : CLIENT_SERVER_TYPE) : result (TCPDataHandler * list message) :=
  let* d := find_handler d sk pid in
  process_loop fuel d idx tstamp sk length offset stream_type client_server.

Definition handle_close_socket (d : TCPDataHandler) (sk : Z) : TCPDataHandler :=
  mk_data (tcp_control d) (delete sk (protocol_handlers_ d)) (rings d) (lost_record_total_count_ d).

(** * The protocol handlers come to rest *)

(** Between calls. *)
Definition at_rest (p : protocol_handler) : Prop :=
  match p with
  | UNKNOWN available => available = 0 \/ available = 1
  | HTTP h => (client_state_ h = CLIENT_START \/ client_state_ h = CLIENT_END) /\
              (server_state_ h = SERVER_START \/ server_state_ h = SERVER_END)
  end.

(** What is reported of the first data of a server. *)
Definition answer (key pid tstamp request : Z) (stream_type : STREAM_TYPE) (data : list Z) : list message :=
  if zlen data <? 12 then []
  else
    match response_code (take 12 data) with
    | Some code => [http_response tstamp key pid code (u64 (tstamp - request))
                      (side_number (match stream_type with ST_SEND => SC_SERVER | ST_RECV => SC_CLIENT end))]
    | None => []
    end.

(** The answer of [handle_server_data] is that of [http_process_response] of the kernel. *)
Lemma version_and_code key pid tstamp stream_type data m h :
  server_state_ h = SERVER_VERSION_AND_CODE -> exists h',
  http_server_turn key pid tstamp stream_type data m h
  = (m, h', answer key pid (response_timestamp_ h) (request_timestamp_ h) stream_type data) /\
  server_state_ h' = SERVER_STOP /\ client_state_ h' = client_state_ h /\ request_timestamp_ h' = request_timestamp_ h.
Proof.
  intros Hs. unfold http_server_turn, answer. rewrite Hs. destruct (Z.ltb_spec (zlen data) 12) as [_|Hl]; [by eexists|].
  destruct data as [|b0 [|b1 [|b2 [|b3 [|b4 [|b5 [|b6 [|b7 [|b8 [|b9 [|b10 [|b11 data]]]]]]]]]]]];
    try (exfalso; unfold zlen in Hl; cbn in Hl; lia).
  unfold prefix_check, byte, response_code. cbn [take length app lookup list_lookup default from_option id]. 
  change (zlen [72; 84; 84; 80; 47] <=? 12) with true. cbn [andb].
  destruct (_ || _ || _); [by eexists|].
  cbn [set_http_version http_version_major_ http_version_minor_]. destruct (_ || _); [by eexists|].
  destruct (_ || _ || _); [by eexists|]. by eexists.
Qed.

Lemma http_server_spec key pid tstamp stream_type data m h :
  server_state_ h = SERVER_START \/ server_state_ h = SERVER_END ->
  exists m' h', http_handle_server_data key pid tstamp stream_type data m h
    = Ok (m', h', match server_state_ h with SERVER_START => answer key pid tstamp (request_timestamp_ h) stream_type data | _ => [] end) /\
  server_state_ h' = SERVER_END /\ client_state_ h' = client_state_ h /\ request_timestamp_ h' = request_timestamp_ h.
Proof.
  unfold http_handle_server_data. intros [Hs|Hs]; rewrite Hs.
  - cbn [http_server_loop]. rewrite Hs. unfold http_server_turn at 1. rewrite Hs. cbn [server_state_ http_server_transition].
    edestruct (version_and_code key pid tstamp stream_type data m
      (http_server_transition SERVER_VERSION_AND_CODE (set_response_timestamp_ tstamp h))) as (h1 & -> & Hs1 & Hc1 & Hr1); [done|].
    rewrite Hs1. unfold http_server_turn. rewrite Hs1. cbn. rewrite app_nil_r. by eexists _, _.
  - cbn [http_server_loop]. rewrite Hs. cbn. by eexists _, _.
Qed.

Lemma http_client_spec key tstamp stream_type data m h :
  client_state_ h = CLIENT_START \/ client_state_ h = CLIENT_END ->
  exists m' h', http_handle_client_data key tstamp stream_type data m h = Ok (m', h') /\
  client_state_ h' = CLIENT_END /\ server_state_ h' = server_state_ h /\
  request_timestamp_ h' = match client_state_ h with CLIENT_START => tstamp | _ => request_timestamp_ h end.
Proof.
  unfold http_handle_client_data. intros [Hs|Hs]; rewrite Hs; cbn [http_client_loop]; rewrite Hs.
  - unfold http_client_turn. rewrite Hs. cbn. by eexists _, _.
  - cbn. by eexists _, _.
Qed.

(** * Data given to a handler *)

(** The responses reported for a socket, and those a handler may still report. *)
Fixpoint responses (sk : Z) (out : list message) : Z :=
  match out with
  | [] => 0
  | http_response _ sk' _ _ _ _ :: out => (if sk' =? sk then 1 else 0) + responses sk out
  | _ :: out => responses sk out
  end.

Definition expects (p : ProtocolHandlerBase) : Z :=
  match specific p with
  | UNKNOWN _ => 1
  | HTTP h => match server_state_ h with SERVER_START => 1 | _ => 0 end
  end.

Lemma responses_app sk out out' : responses sk (out ++ out') = responses sk out + responses sk out'.
Proof. induction out as [|[] out IH]; cbn [app responses]; rewrite ?IH; lia. Qed.

Lemma responses_nonneg sk out : 0 <= responses sk out.
Proof. induction out as [|[] out IH]; cbn [responses]; try destruct (_ =? _); lia. Qed.

Lemma expects_range p : 0 <= expects p <= 1.
Proof. unfold expects. destruct (specific p) as [|h]; [lia|]. destruct (server_state_ h); lia. Qed.

Lemma answer_responses key pid tstamp request stream_type data sk :
  responses sk (answer key pid tstamp request stream_type data) <= (if key =? sk then 1 else 0).
Proof.
  unfold answer. destruct (_ <? _); [|destruct (response_code _)]; cbn; destruct (_ =? _); lia.
Qed.

(** A step of a handler: it keeps its socket, comes to rest, and of the responses it may
    report, those it has reported are gone. *)
Definition moves (sk : Z) (p p' : ProtocolHandlerBase) (out : list message) : Prop :=
  key_ p' = sk /\ pid_ p' = pid_ p /\ at_rest (specific p') /\
  forall k, responses k out <= if sk =? k then expects p - expects p' else 0.

Lemma moves_quiet sk p p' :
  key_ p' = sk -> pid_ p' = pid_ p -> at_rest (specific p') -> expects p' <= expects p -> moves sk p p' [].
Proof. intros. split_and!; try done. intros k. cbn. destruct (_ =? _); lia. Qed.

Lemma moves_trans sk p p1 p2 o1 o2 : moves sk p p1 o1 -> moves sk p1 p2 o2 -> moves sk p p2 (o1 ++ o2).
Proof.
  intros (? & Hp1 & _ & Hr1) (? & Hp2 & ? & Hr2). split_and!; [done|congruence|done|]. intros k. rewrite responses_app.
  specialize (Hr1 k). specialize (Hr2 k). destruct (sk =? k); lia.
Qed.

Lemma with_handler_twice d m1 m2 sk p1 p2 : with_handler (with_handler d m1 sk p1) m2 sk p2 = with_handler d m2 sk p2.
Proof. unfold with_handler. cbn. by rewrite insert_insert_eq. Qed.

Lemma server_moves tstamp offset stream_type data m p :
  at_rest (specific p) -> exists m' p' out, handle_server_data tstamp offset stream_type data m p = Ok (m', p', None, out) /\
    moves (key_ p) p p' out.
Proof.
  intros Hr. unfold handle_server_data. destruct p as [key pid [a|h]]; cbn [specific key_ pid_ at_rest] in *.
  - eexists _, _, []. split; [reflexivity|]. apply moves_quiet; try done. by left.
  - destruct Hr as [Hc Hs]. destruct (http_server_spec key pid tstamp stream_type data m h Hs) as (m' & h' & -> & Hs' & Hc' & _).
    cbn [rbind]. eexists _, _, _. split; [reflexivity|]. split_and!; try done.
    + cbn. rewrite Hs', Hc'. auto.
    + intros k. unfold expects. cbn. rewrite Hs'. destruct Hs as [-> | ->]; [|cbn; by destruct (key =? k)].
      etrans; [apply answer_responses|]. destruct (key =? k); lia.
Qed.

Lemma client_moves tstamp offset stream_type data m p :
  at_rest (specific p) -> exists m' p' upgrade, handle_client_data tstamp offset stream_type data m p = Ok (m', p', upgrade, []) /\
    key_ p' = key_ p /\ moves (key_ p) p (default p' upgrade) [] /\
    match upgrade with Some u => exists h, specific u = HTTP h | None => True end.
Proof.
  intros Hr. unfold handle_client_data. destruct p as [key pid [a|h]]; cbn [specific key_ pid_ at_rest] in *.
  - unfold unknown_handle_client_data. destruct Hr as [-> | ->]; [|cbn [Z.land negb Z.eqb]; destruct (detect_http data)].
    all: cbn [create_protocol_handler rbind Z.eqb]; eexists _, _, _; (split; [reflexivity|]); (split; [done|]);
      (split; [|by try eexists]); apply moves_quiet; try done; cbn; auto.
  - destruct Hr as [Hc Hs]. destruct (http_client_spec key tstamp stream_type data m h Hc) as (m' & h' & -> & Hc' & Hs' & _).
    cbn [rbind]. eexists _, _, None. split; [reflexivity|]. split; [done|]. split; [|done].
    apply moves_quiet; try done; cbn; [rewrite Hc', Hs'; auto|unfold expects; cbn; by rewrite Hs'].
Qed.

Lemma give_moves sk tstamp offset stream_type client_server data m p :
  key_ p = sk -> at_rest (specific p) ->
  exists m' p' out, moves sk p p' out /\ forall d, tcp_control d = m ->
    give 2 d sk tstamp offset stream_type client_server data p = Ok (with_handler d m' sk p', out).
Proof.
  intros <- Hr. destruct client_server.
  - destruct (client_moves tstamp offset stream_type data m p Hr) as (m1 & p1 & up & E1 & Hk & Hm & Hup).
    destruct up as [u|].
    2:{ eexists _, _, _. split; [exact Hm|]. intros d <-. cbn [give]. rewrite E1. done. }
    change (moves (key_ p) p u []) in Hm. pose proof Hm as (Hku & Hpu & Hru & Hexp).
    destruct (client_moves tstamp offset stream_type data m1 u Hru) as (m2 & p2 & up2 & E & Hk2 & Hm2 & _).
    destruct Hup as [h Eh]. pose proof E as E2. unfold handle_client_data in E2. rewrite Eh in E2.
    destruct (http_handle_client_data _ _ _ _ _ _) as [[m3 h3]| | |]; [|done..]. cbn [rbind] in E2. injection E2 as <- <- <-.
    cbn [from_option] in Hm2. rewrite Hku in *.
    eexists _, _, _. split; [exact (moves_trans _ p u _ [] [] Hm Hm2)|]. intros d <-.
    cbn [give]. rewrite E1. cbn [rbind].
    unfold upgrade_protocol_handler. cbn [protocol_handlers_ with_handler tcp_control]. rewrite Hk, lookup_insert_eq. cbn [rbind].
    rewrite with_handler_twice. cbn [tcp_control with_handler]. rewrite E. cbn [rbind]. by rewrite with_handler_twice.
  - destruct (server_moves tstamp offset stream_type data m p Hr) as (m1 & p1 & out & E1 & Hm).
    eexists _, _, _. split; [exact Hm|]. intros d <-. cbn [give]. rewrite E1. done.
Qed.

(** A handler on its own: the control blocks, the handler, and what is reported. *)
Definition serve (tstamp : Z) (stream_type : STREAM_TYPE) (client_server : CLIENT_SERVER_TYPE) (data : list Z)
    (m : MK) (p : ProtocolHandlerBase) : MK * ProtocolHandlerBase * list message :=
  match give 2 (mk_data m {[key_ p := p]} [] 0) (key_ p) tstamp 0 stream_type client_server data p with
  | Ok (d, out) => (tcp_control d, default p (protocol_handlers_ d !! key_ p), out)
  | _ => (m, p, [])
  end.

Fixpoint serve_all (tstamp : Z) (stream_type : STREAM_TYPE) (client_server : CLIENT_SERVER_TYPE) (datas : list (list Z))
    (m : MK) (p : ProtocolHandlerBase) : MK * ProtocolHandlerBase * list message :=
  match datas with
  | [] => (m, p, [])
  | data :: datas =>
    let '(m, p, out) := serve tstamp stream_type client_server data m p in
    let '(m, p, rest) := serve_all tstamp stream_type client_server datas m p in (m, p, out ++ rest)
  end.

Lemma serve_gives sk tstamp offset stream_type client_server data m p :
  key_ p = sk -> at_rest (specific p) ->
  exists m' p' out, serve tstamp stream_type client_server data m p = (m', p', out) /\ moves sk p p' out /\
    forall d, tcp_control d = m -> give 2 d sk tstamp offset stream_type client_server data p = Ok (with_handler d m' sk p', out).
Proof.
  intros Hk Hr. destruct (give_moves sk tstamp offset stream_type client_server data m p Hk Hr) as (m' & p' & out & Hm & E).
  exists m', p', out. split; [|done]. unfold serve. rewrite Hk.
  assert (E0 : give 2 (mk_data m {[sk := p]} [] 0) sk tstamp 0 stream_type client_server data p
    = Ok (with_handler (mk_data m {[sk := p]} [] 0) m' sk p', out)) by exact (E (mk_data m {[sk := p]} [] 0) eq_refl).
  rewrite E0. cbn. by rewrite lookup_insert_eq.
Qed.

(** * The data ring *)

Section ring.
Context {LR : EventRingLaws R}.

(** The records of the ABI: a sample has a length of 4 bytes and the bytes that were
    submitted, which begin with the header of the data channel; a record of losses has
    a number of 8 bytes at offset 16. *)
Definition sound_event (e : list Z) : Prop :=
  (event_type e = PerfReader.PERF_RECORD_SAMPLE -> exists n, word e 12 8 = Some n /\ 0 <= n < 2 ^ 32 - 12) /\
  (event_type e = PerfReader.PERF_RECORD_LOST -> exists n, word e 16 8 = Some n).

Lemma word_read e o n v : word e o n = Some v -> exists bs, mem_read e o n = Some bs /\ le_decode bs = v.
Proof. unfold word. intros (bs & -> & E)%fmap_Some. by exists bs. Qed.

(** What is copied to [buf] is the event without its first 8 bytes. *)
Lemma buf_read (e : list Z) o n : 8 <= zlen e -> 0 <= o -> mem_read (drop 8 e) o n = mem_read e (8 + o) n.
Proof.
  intros He Ho. unfold mem_read, zlen in *. rewrite length_drop.
  replace (o + n <=? Z.of_nat (length e - 8)) with (8 + o + n <=? Z.of_nat (length e))
    by (apply eq_true_iff_eq; rewrite !Z.leb_le; lia).
  destruct (Z.leb_spec 0 o), (Z.leb_spec 0 (8 + o)); try lia. cbn [andb].
  by rewrite drop_drop, Z2Nat.inj_add by lia.
Qed.

Lemma copy_event r e av fr : ring_holds r (e :: av) fr -> peek_copy r 0 (u16 (u32 (zlen e - 8))) = Some (drop 8 e).
Proof.
  intros Hr. destruct (peek_size_cons _ _ _ _ Hr) as [_ He]. rewrite u32_small, u16_small by lia.
  apply (peek_copy_cons _ _ _ _ _ _ _ Hr); [lia|]. unfold mem_read.
  destruct (Z.leb_spec 0 (8 + 0)), (Z.leb_spec 0 (zlen e - 8)), (Z.leb_spec (8 + 0 + (zlen e - 8)) (Z.of_nat (length e)));
    unfold zlen in *; try lia. cbn [andb]. change (Z.to_nat (8 + 0)) with 8%nat. f_equal. apply take_ge. rewrite length_drop. lia.
Qed.

(** The bytes of the data of a sample, at most [len] of them. *)
Definition sample_data (e : list Z) (n len : Z) : list Z := take (Z.to_nat (Z.min len n)) (drop 20 e).

Lemma sample_step d idx r e av fr tstamp sk len offset stream_type client_server n p :
  ring_holds r (e :: av) fr -> word e 12 8 = Some n -> 0 <= n < 2 ^ 32 - 12 -> 0 <= len ->
  protocol_handlers_ d !! sk = Some p -> key_ p = sk -> at_rest (specific p) ->
  exists r', ring_pop r = Some r' /\ ring_holds r' av fr /\
  process_sample d idx r (u32 (zlen e - 8)) tstamp sk len offset stream_type client_server =
    if zlen e - 8 <? n + 12 then Ok (with_ring d idx r', [], None)
    else
      let* (d, out) := give 2 (with_ring d idx r') sk tstamp offset stream_type client_server (sample_data e n len) p in
      Ok (d, out, Some (Z.min len n)).
Proof using LR.
  intros Hr Hw Hn Hl Hp Hk Hrest. destruct (pop_cons _ _ _ _ Hr) as (r' & Epop & Hr'). destruct (peek_size_cons _ _ _ _ Hr) as [_ He].
  exists r'. split; [done|]. split; [done|]. unfold process_sample. rewrite (copy_event _ _ _ _ Hr). cbn [get rbind].
  rewrite Epop. cbn [get rbind]. apply word_read in Hw as (bs & Hb & Hd). unfold sizeof_header.
  rewrite buf_read by lia. change (8 + 4) with 12. rewrite Hb. cbn [get rbind]. rewrite Hd, (u32_small n) by lia.
  rewrite (u32_small (n + 4 + 8)), u32_small by lia. replace (n + 4 + 8) with (n + 12) by lia.
  destruct (Z.ltb_spec (zlen e - 8) (n + 12)) as [|Hle]; [done|].
  replace (if len <? n then len else n) with (Z.min len n) by (destruct (Z.ltb_spec len n); lia).
  rewrite buf_read by lia. change (8 + (4 + 8)) with 20.
  replace (mem_read e 20 (Z.min len n)) with (Some (sample_data e n len)).
  - cbn [get rbind]. cbn [with_ring protocol_handlers_]. rewrite Hp. done.
  - unfold mem_read, sample_data, zlen in *.
    destruct (Z.leb_spec 0 20), (Z.leb_spec 0 (Z.min len n)), (Z.leb_spec (20 + Z.min len n) (Z.of_nat (length e))); try lia. done.
Qed.

(** ** What the loop takes

    The data, the records that are left, and the losses it is told of, for [len] bytes. *)
Definition bad_size (e : list Z) : bool := (zlen e - 8 <? min_length) || (max_length <? zlen e - 8).

Fixpoint consume (av : list (list Z)) (len : Z) : list (list Z) * list (list Z) * Z :=
  if len =? 0 then ([], av, 0)
  else
    match av with
    | [] => ([], [], 0)
    | e :: rest =>
      if event_type e =? PerfReader.PERF_RECORD_SAMPLE then
        let n := default 0 (word e 12 8) in
        if bad_size e then ([], av, 0)
        else if zlen e - 8 <? n + 12 then ([], rest, 0)
        else
          let '(datas, rest, lost) := consume rest (len - Z.min len n) in (sample_data e n len :: datas, rest, lost)
      else
        let '(datas, rest, lost) := consume rest len in
        (datas, rest, (if event_type e =? PerfReader.PERF_RECORD_LOST then default 0 (word e 16 8) else 0) + lost)
    end.

Lemma consume_0 av : consume av 0 = ([], av, 0).
Proof. by destruct av. Qed.

(** What a call of [process] leaves. *)
Definition processed (d : TCPDataHandler) (idx : nat) (sk lost : Z) (m : MK) (p : ProtocolHandlerBase) (r : R) : TCPDataHandler :=
  mk_data m (<[sk := p]> (protocol_handlers_ d)) (<[idx := r]> (rings d)) (u64 (lost_record_total_count_ d + lost)).

Lemma processed_steps d idx sk m1 p1 r1 lost1 lost m p r :
  processed (mk_data m1 (<[sk := p1]> (protocol_handlers_ d)) (<[idx := r1]> (rings d)) (u64 (lost_record_total_count_ d + lost1)))
    idx sk lost m p r = processed d idx sk (lost1 + lost) m p r.
Proof.
  unfold processed. cbn. rewrite !insert_insert_eq, list_insert_insert_eq. f_equal. unfold u64. rewrite Zplus_mod_idemp_l. f_equal. lia.
Qed.

Lemma moves_refl sk p : key_ p = sk -> at_rest (specific p) -> moves sk p p [].
Proof. intros. by apply moves_quiet. Qed.

Lemma process_loop_consumes (fuel : nat) idx tstamp sk stream_type client_server : forall d r av fr len offset p,
  rings d !! idx = Some r -> ring_holds r av fr -> Forall sound_event av -> (length av < fuel)%nat -> 0 <= len < 2 ^ 32 ->
  protocol_handlers_ d !! sk = Some p -> key_ p = sk -> at_rest (specific p) -> 0 <= lost_record_total_count_ d < 2 ^ 64 ->
  let '(datas, rest, lost) := consume av len in
  let '(m, p', out) := serve_all tstamp stream_type client_server datas (tcp_control d) p in
  exists r', process_loop fuel d idx tstamp sk len offset stream_type client_server = Ok (processed d idx sk lost m p' r', out) /\
    ring_holds r' rest fr /\ moves sk p p' out.
Proof using LR.
  induction fuel as [|fuel IH]; intros d r av fr len offset p Hring Hr Hs Hf Hl Hp Hk Hrest Hlost; [lia|].
  assert (Hstop : processed d idx sk 0 (tcp_control d) p r = d).
  { unfold processed. rewrite Z.add_0_r, insert_id, list_insert_id, u64_small by done. by destruct d. }
  assert (Hend : exists r', Ok (d, [] : list message) = Ok (processed d idx sk 0 (tcp_control d) p r', []) /\
    ring_holds r' av fr /\ moves sk p p []) by (exists r; rewrite Hstop; split_and!; [done|done|by apply moves_refl]).
  cbn [process_loop]. destruct (Z.eqb_spec len 0) as [->|Hlen]; [by rewrite consume_0|].
  rewrite Hring. cbn [get rbind]. destruct av as [|e av]; cbn [consume]; (destruct (Z.eqb_spec len 0) as [|_]; [done|]).
  { rewrite (peek_size_empty _ _ Hr). cbn [get rbind]. rewrite Z.eqb_refl. exact Hend. }
  destruct (peek_size_cons _ _ _ _ Hr) as [Ez He]. rewrite Ez. cbn [get rbind].
  destruct (Z.eqb_spec (zlen e - 8) (- ENOENT)) as [?|_]; [unfold ENOENT in *; lia|]. rewrite (peek_type_cons _ _ _ _ Hr). cbn [get rbind].
  apply Forall_cons in Hs as [[Hsam Hlo] Hs]. cbn [length] in Hf.
  destruct (Z.eqb_spec (event_type e) PerfReader.PERF_RECORD_SAMPLE) as [Ht|Ht].
  - destruct (Hsam Ht) as (n & Hw & Hn). rewrite Hw. cbn [default from_option id]. unfold bad_size. rewrite u32_small by lia.
    destruct (_ || _); [by apply Hend|].
    destruct (sample_step d idx r e av fr tstamp sk len offset stream_type client_server n p) as (r1 & Epop & Hr1 & Es); try done; [lia|].
    rewrite u32_small in Es by lia. rewrite Es. destruct (_ <? n + 12).
    { exists r1. split_and!; [|done|by apply moves_refl]. do 2 f_equal. rewrite <- Hstop at 1. unfold with_ring, processed. cbn.
      by rewrite list_insert_insert_eq. }
    destruct (serve_gives sk tstamp offset stream_type client_server (sample_data e n len) (tcp_control d) p Hk Hrest)
      as (m1 & p1 & o1 & E1 & Hm1 & Eg). rewrite (Eg (with_ring d idx r1) eq_refl). cbn [rbind]. pose proof Hm1 as (Hk1 & _ & Hrest1 & _).
    specialize (IH (with_handler (with_ring d idx r1) m1 sk p1) r1 av fr (len - Z.min len n) (u64 (offset + Z.min len n)) p1).
    destruct (consume av (len - Z.min len n)) as [[datas rest] lost]. cbn [serve_all]. rewrite E1. cbn [tcp_control with_handler] in IH.
    destruct (serve_all tstamp stream_type client_server datas m1 p1) as [[m2 p2] o2].
    destruct IH as (r2 & E2 & Hr2 & Hm2); try done; [|lia|lia| |].
    { cbn. apply list_lookup_insert_eq. by eapply lookup_lt_Some. }
    { cbn. apply lookup_insert_eq. }
    exists r2. split_and!; [|done|by eapply moves_trans]. rewrite (u32_small (len - _)) by lia. rewrite E2. cbn [rbind]. do 2 f_equal.
    pose proof (processed_steps d idx sk m1 p1 r1 0 lost m2 p2 r2) as Ep. rewrite Z.add_0_r, u64_small in Ep by done. exact Ep.
  - destruct (pop_cons _ _ _ _ Hr) as (r1 & Epop & Hr1). rewrite Epop.
    set (n := if event_type e =? PerfReader.PERF_RECORD_LOST then default 0 (word e 16 8) else 0).
    assert (El : (if event_type e =? PerfReader.PERF_RECORD_LOST then get (peek_aligned_u64 r 8) else Ok 0) = Ok n).
    { unfold n. destruct (Z.eqb_spec (event_type e) PerfReader.PERF_RECORD_LOST) as [Hl'|]; [|done].
      destruct (Hlo Hl') as (v & Hv). rewrite Hv.
      pose proof (peek_u64_cons _ _ _ _ 1 v Hr ltac:(lia) Hv) as E. change (8 * 1) with 8 in E. by rewrite E. }
    rewrite El. cbn [get rbind].
    set (d1 := if event_type e =? PerfReader.PERF_RECORD_LOST then _ else _).
    assert (Ed : d1 = mk_data (tcp_control d) (protocol_handlers_ d) (<[idx := r1]> (rings d)) (u64 (lost_record_total_count_ d + n))).
    { unfold d1, n. destruct (_ =? _); [done|]. rewrite Z.add_0_r, u64_small by done. done. }
    rewrite Ed. specialize (IH (mk_data (tcp_control d) (protocol_handlers_ d) (<[idx := r1]> (rings d))
      (u64 (lost_record_total_count_ d + n))) r1 av fr len offset p).
    destruct (consume av len) as [[datas rest] lost]. cbn [tcp_control] in IH.
    destruct (serve_all tstamp stream_type client_server datas (tcp_control d) p) as [[m2 p2] o2].
    destruct IH as (r2 & E2 & Hr2 & Hm2); try done; [|lia| |].
    { cbn. apply list_lookup_insert_eq. by eapply lookup_lt_Some. }
    { cbn. unfold u64. apply Z.mod_pos_bound. lia. }
    exists r2. split_and!; [|done|done]. rewrite E2. do 2 f_equal.
    rewrite <- (processed_steps d idx sk (tcp_control d) p r1 n lost m2 p2 r2), insert_id by done. done.
Qed.

(** ** Calls of [process] *)

Definition wf_handler (sk : Z) (p : ProtocolHandlerBase) : Prop := key_ p = sk /\ at_rest (specific p).
Definition data_inv (d : TCPDataHandler) : Prop :=
  map_Forall wf_handler (protocol_handlers_ d) /\ 0 <= lost_record_total_count_ d < 2 ^ 64.

Definition handler_of (d : TCPDataHandler) (sk pid : Z) : ProtocolHandlerBase :=
  default (mk_handler sk pid ProtocolHandler_UNKNOWN_new) (protocol_handlers_ d !! sk).

Lemma handler_of_wf d sk pid : data_inv d -> wf_handler sk (handler_of d sk pid).
Proof.
  intros [Hi _]. unfold handler_of. destruct (protocol_handlers_ d !! sk) as [p|] eqn:E; [by apply Hi|]. split; [done|]. by right.
Qed.

Lemma process_returns (fuel : nat) (d : TCPDataHandler) (idx : nat) (tstamp sk pid len offset : Z) (stream_type : STREAM_TYPE)
    (client_server : CLIENT_SERVER_TYPE) (r : R) (av fr : list (list Z)) :
  data_inv d -> rings d !! idx = Some r -> ring_holds r av fr -> Forall sound_event av -> (length av < fuel)%nat -> 0 <= len < 2 ^ 32 ->
  let '(datas, rest, lost) := consume av len in
  let '(m, p, out) := serve_all tstamp stream_type client_server datas (tcp_control d) (handler_of d sk pid) in
  exists r', process fuel d idx tstamp sk pid len offset stream_type client_server = Ok (processed d idx sk lost m p r', out) /\
    ring_holds r' rest fr /\ data_inv (processed d idx sk lost m p r') /\
    forall k, responses k out <= if sk =? k then expects (handler_of d sk pid) - expects p else 0.
Proof using LR.
  intros Hi Hring Hr Hs Hf Hl. destruct (handler_of_wf d sk pid Hi) as [Hk Hrest]. pose proof Hi as [Hh Hlost].
  set (p := handler_of d sk pid) in *. set (d1 := with_handler d (tcp_control d) sk p).
  assert (Ef : exists d1, find_handler d sk pid = Ok d1 /\ protocol_handlers_ d1 !! sk = Some p /\ tcp_control d1 = tcp_control d /\
    rings d1 = rings d /\ lost_record_total_count_ d1 = lost_record_total_count_ d /\
    forall q, <[sk := q]> (protocol_handlers_ d1) = <[sk := q]> (protocol_handlers_ d)).
  { unfold find_handler, p, handler_of. destruct (protocol_handlers_ d !! sk) as [q|] eqn:E; [by exists d|]. eexists. split; [reflexivity|].
    cbn. split_and!; try done; [apply lookup_insert_eq|]. intros q. apply insert_insert_eq. }
  clear d1. destruct Ef as (d1 & Ef & Hp & Hc & Hrs & Hlo & Hins).
  pose proof (process_loop_consumes fuel idx tstamp sk stream_type client_server d1 r av fr len offset p) as Hloop.
  rewrite Hrs, Hc, Hlo in Hloop. specialize (Hloop Hring Hr Hs Hf Hl Hp Hk Hrest Hlost).
  destruct (consume av len) as [[datas rest] lost].
  destruct (serve_all tstamp stream_type client_server datas (tcp_control d) p) as [[m p'] out].
  destruct Hloop as (r' & E & Hr' & (Hk' & _ & Hrest' & Hexp)). exists r'.
  assert (Ep : processed d1 idx sk lost m p' r' = processed d idx sk lost m p' r') by (unfold processed; by rewrite Hins, Hrs, Hlo).
  split_and!; [|done| |done].
  - unfold process. rewrite Ef. cbn [rbind]. by rewrite E, Ep.
  - split; [by apply map_Forall_insert_2|]. cbn. unfold u64. apply Z.mod_pos_bound. lia.
Qed.

(** C19: a call of [process] ends, and takes from the ring what was announced.  Whatever the ring
    holds, with a bound on the records that exceeds their number: the data of the records
    is given to the handler of the socket in order, until the announced length is reached
    or no record is left; the records after that stay in the ring; losses are added up;
    the handlers come to rest. *)
Theorem process_consumes (fuel : nat) (d : TCPDataHandler) (idx : nat) (tstamp sk pid len offset : Z) (stream_type : STREAM_TYPE)
    (client_server : CLIENT_SERVER_TYPE) (r : R) (av fr : list (list Z)) :
  data_inv d -> rings d !! idx = Some r -> ring_holds r av fr -> Forall sound_event av -> (length av < fuel)%nat -> 0 <= len < 2 ^ 32 ->
  let '(datas, rest, lost) := consume av len in
  let '(m, p, out) := serve_all tstamp stream_type client_server datas (tcp_control d) (handler_of d sk pid) in
  exists r', process fuel d idx tstamp sk pid len offset stream_type client_server = Ok (processed d idx sk lost m p r', out) /\
    ring_holds r' rest fr /\ data_inv (processed d idx sk lost m p r') /\
    forall k, responses k out <= if sk =? k then expects (handler_of d sk pid) - expects p else 0.
Proof using LR.
  apply process_returns.
Qed.

(** ** The records of announced data *)

(** The record of the piece [c] of data. *)
Definition data_event (c e : list Z) : Prop :=
  event_type e = PerfReader.PERF_RECORD_SAMPLE /\ word e 12 8 = Some (zlen c) /\ 1 <= zlen c <= 256 /\
  20 + zlen c <= zlen e <= 8 + max_length /\ take (length c) (drop 20 e) = c.

Lemma data_event_sound c e : data_event c e -> sound_event e.
Proof. intros (Ht & Hw & Hc & _). split; [intros _; exists (zlen c); split; [done|lia]|]. rewrite Ht. done. Qed.

Lemma consume_data cs es rest : Forall2 data_event cs es -> consume (es ++ rest) (zlen (concat cs)) = (cs, rest, 0).
Proof.
  induction 1 as [|c e cs es (Ht & Hw & Hc & He & Hd) _ IH]; [by destruct rest|].
  cbn [app concat consume]. rewrite zlen_app. pose proof (zlen_nonneg (concat cs)).
  destruct (Z.eqb_spec (zlen c + zlen (concat cs)) 0); [lia|]. rewrite Ht, Z.eqb_refl, Hw. cbn [default from_option id].
  unfold bad_size. destruct (Z.ltb_spec (zlen e - 8) min_length); [unfold min_length in *; lia|].
  destruct (Z.ltb_spec max_length (zlen e - 8)); [lia|]. cbn [orb]. destruct (Z.ltb_spec (zlen e - 8) (zlen c + 12)); [lia|].
  unfold sample_data. replace (Z.min (zlen c + zlen (concat cs)) (zlen c)) with (zlen c) by lia.
  replace (zlen c + zlen (concat cs) - zlen c) with (zlen (concat cs)) by lia. rewrite IH.
  replace (Z.to_nat (zlen c)) with (length c) by (unfold zlen; lia). by rewrite Hd.
Qed.

(** Records of losses and of unknown types are passed over. *)
Lemma consume_other e av len :
  len <> 0 -> event_type e <> PerfReader.PERF_RECORD_SAMPLE -> (consume (e :: av) len).1 = (consume av len).1.
Proof.
  intros Hl Ht. cbn [consume]. destruct (Z.eqb_spec len 0); [done|].
  destruct (Z.eqb_spec (event_type e) PerfReader.PERF_RECORD_SAMPLE); [done|]. by destruct (consume av len) as [[? ?] ?].
Qed.

(** What is left in a ring is the end of what it held. *)
Lemma consume_rest av : forall len, (consume av len).1.2 `suffix_of` av.
Proof.
  induction av as [|e av IH]; intros len; cbn [consume]; destruct (len =? 0); try done.
  destruct (_ =? PerfReader.PERF_RECORD_SAMPLE).
  - destruct (bad_size e); [done|]. destruct (_ <? _); [by exists [e]|].
    specialize (IH (len - Z.min len (default 0 (word e 12 8)))). destruct (consume av _) as [[? ?] ?]. cbn in *. by apply suffix_cons_r.
  - specialize (IH len). destruct (consume av len) as [[? ?] ?]. cbn in *. by apply suffix_cons_r.
Qed.

(** C40: after a loss, data goes to the wrong connection.  The records carry no socket: where the
    data of a connection [a] was lost, the call for it takes as many bytes of the next
    connection [b] whose data is in the ring, and the call for [b] finds nothing. *)
Theorem lost_data_misattributed (fuel : nat) (d : TCPDataHandler) (idx : nat) (a b pid pid' t t' offset offset' : Z) (st st' : STREAM_TYPE)
    (cs cs' : CLIENT_SERVER_TYPE) (r : R) (lost : list Z) (data : list (list Z)) (es fr : list (list Z)) (len : Z) :
  data_inv d -> rings d !! idx = Some r -> ring_holds r (lost :: es) fr -> Forall2 data_event data es ->
  event_type lost = PerfReader.PERF_RECORD_LOST -> is_Some (word lost 16 8) ->
  len = zlen (concat data) -> 0 < len < 2 ^ 32 -> (length es + 1 < fuel)%nat -> a <> b ->
  exists d1 out1 d2, process fuel d idx t a pid len offset st cs = Ok (d1, out1) /\
    process fuel d1 idx t' b pid' len offset' st' cs' = Ok (d2, []) /\
    let '(m, p, out) := serve_all t st cs data (tcp_control d) (handler_of d a pid) in
    out1 = out /\ protocol_handlers_ d2 !! a = Some p /\ protocol_handlers_ d2 !! b = Some (handler_of d b pid').
Proof using LR.
  intros Hi Hring Hr Hes Hlt Hlw -> Hl Hf Hab.
  assert (Hs : Forall sound_event (lost :: es)).
  { constructor; [split; [by rewrite Hlt|intros _; destruct Hlw as [n Hn]; by exists n]|]. clear -Hes.
    induction Hes; constructor; [by eapply data_event_sound|done]. }
  pose proof (process_returns fuel d idx t a pid (zlen (concat data)) offset st cs r _ fr Hi Hring Hr Hs ltac:(cbn; lia) ltac:(lia)) as E1.
  pose proof (consume_other lost es (zlen (concat data)) ltac:(lia) ltac:(by rewrite Hlt)) as Ec.
  pose proof (consume_data data es [] Hes) as Ed. rewrite app_nil_r in Ed. rewrite Ed in Ec.
  destruct (consume (lost :: es) _) as [[datas rest] n]. cbn in Ec. injection Ec as -> ->.
  destruct (serve_all t st cs data (tcp_control d) (handler_of d a pid)) as [[m p] out].
  destruct E1 as (r1 & E1 & Hr1 & Hi1 & _). set (d1 := processed d idx a n m p r1) in *.
  assert (Hring1 : rings d1 !! idx = Some r1) by (apply list_lookup_insert_eq; by eapply lookup_lt_Some).
  pose proof (process_returns fuel d1 idx t' b pid' (zlen (concat data)) offset' st' cs' r1 [] fr Hi1 Hring1 Hr1
    (Forall_nil_2 _) ltac:(cbn; lia) ltac:(lia)) as E2. cbn [consume] in E2. destruct (Z.eqb_spec (zlen (concat data)) 0); [lia|].
  cbn [serve_all] in E2. destruct E2 as (r2 & E2 & _). eexists _, _, _. split; [exact E1|]. split; [exact E2|].
  split_and!; [done| |].
  - cbn. by rewrite lookup_insert_ne, lookup_insert_eq.
  - cbn. rewrite lookup_insert_eq. unfold handler_of. cbn. by rewrite lookup_insert_ne.
Qed.

(** ** Histories *)

Inductive data_call :=
  | Process (idx : nat) (tstamp sk pid length offset : Z) (stream_type : STREAM_TYPE) (client_server : CLIENT_SERVER_TYPE)
  | CloseSocket (sk : Z)
  | Refill (rs : list R).       (* the kernel has written to the rings, or a batch was started *)

Definition run_call (fuel : nat) (c : data_call) (d : TCPDataHandler) : result (TCPDataHandler * list message) :=
  match c with
  | Process idx tstamp sk pid length offset stream_type client_server =>
    process fuel d idx tstamp sk pid length offset stream_type client_server
  | CloseSocket sk => Ok (handle_close_socket d sk, [])
  | Refill rs => Ok (mk_data (tcp_control d) (protocol_handlers_ d) rs (lost_record_total_count_ d), [])
  end.

Fixpoint run_calls (fuel : nat) (cs : list data_call) (d : TCPDataHandler) : result (TCPDataHandler * list message) :=
  match cs with
  | [] => Ok (d, [])
  | c :: cs =>
    let* (d, out) := run_call fuel c d in
    let* (d, rest) := run_calls fuel cs d in Ok (d, out ++ rest)
  end.

(** Rings with fewer than [fuel] records, all of them sound. *)
Definition ready (fuel : nat) (rs : list R) : Prop :=
  Forall (fun r => exists av fr, ring_holds r av fr /\ Forall sound_event av /\ (length av < fuel)%nat) rs.

(** There are [n] rings. *)
Definition call_ok (fuel n : nat) (c : data_call) : Prop :=
  match c with
  | Process idx _ _ _ length _ _ _ => (idx < n)%nat /\ 0 <= length < 2 ^ 32
  | CloseSocket _ => True
  | Refill rs => ready fuel rs /\ length rs = n
  end.

Fixpoint closes (sk : Z) (cs : list data_call) : Z :=
  match cs with
  | [] => 0
  | CloseSocket sk' :: cs => (if sk' =? sk then 1 else 0) + closes sk cs
  | _ :: cs => closes sk cs
  end.

(** The responses a connection may still have. *)
Definition credit (d : TCPDataHandler) (sk : Z) : Z := from_option expects 1 (protocol_handlers_ d !! sk).

Lemma call_keeps fuel c d :
  data_inv d -> ready fuel (rings d) -> call_ok fuel (length (rings d)) c ->
  exists d' out, run_call fuel c d = Ok (d', out) /\ data_inv d' /\ ready fuel (rings d') /\ length (rings d') = length (rings d) /\
    forall k, responses k out + credit d' k <= credit d k + closes k [c].
Proof using LR.
  intros Hi Hready Hok. destruct c as [idx t sk pid len off st cs|sk|rs]; cbn [run_call call_ok] in *.
  - destruct Hok as [Hidx Hl]. destruct (lookup_lt_is_Some_2 _ _ Hidx) as [r Hr].
    destruct (proj1 (Forall_lookup _ _) Hready _ _ Hr) as (av & fr & Hh & Hs & Hf).
    pose proof (process_returns fuel d idx t sk pid len off st cs r av fr Hi Hr Hh Hs Hf Hl) as E.
    pose proof (consume_rest av len) as Hsuf. destruct (consume av len) as [[datas rest] lost]. cbn in Hsuf.
    destruct (serve_all t st cs datas (tcp_control d) (handler_of d sk pid)) as [[m p] out].
    destruct E as (r' & E & Hr' & Hi' & Hexp). eexists _, _. split; [exact E|]. split; [done|]. split; [|split].
    + cbn. apply Forall_insert; [done|]. exists rest, fr. destruct Hsuf as [k ->]. apply Forall_app in Hs as [_ Hs].
      rewrite length_app in Hf. split_and!; [done|done|lia].
    + cbn. apply length_insert.
    + intros k. specialize (Hexp k). unfold credit. cbn. destruct (Z.eqb_spec sk k) as [E0|Hne]; [subst k|].
      * rewrite lookup_insert_eq. cbn. unfold handler_of in Hexp. destruct (protocol_handlers_ d !! sk); cbn in *; lia.
      * rewrite lookup_insert_ne by done. lia.
  - eexists _, _. split; [reflexivity|]. destruct Hi as [Hh Hlost]. split; [split; [by apply map_Forall_delete|done]|]. split; [done|].
    split; [done|]. intros k. unfold credit. cbn. destruct (Z.eqb_spec sk k) as [<-|Hne].
    + rewrite lookup_delete_eq. cbn. destruct (protocol_handlers_ d !! sk) as [p|]; cbn; [pose proof (expects_range p)|]; lia.
    + rewrite lookup_delete_ne by done. lia.
  - destruct Hok as [Hrs Hn]. eexists _, _. split; [reflexivity|]. split; [done|]. split; [done|]. split; [done|]. intros k.
    unfold credit. cbn. lia.
Qed.

(** C13: every call returns, and of a connection one response is reported.  In every history of
    data, of closed sockets and of records that arrive, as long as the records are those
    of the ABI: each call of [process] and its loops over the states of HTTP end, without
    an exception and without an access out of range, and between the closing of a socket
    and the next one at most one response is reported for it. *)
Theorem data_calls_return (fuel : nat) (cs : list data_call) (d : TCPDataHandler) :
  data_inv d -> ready fuel (rings d) -> Forall (call_ok fuel (length (rings d))) cs ->
  exists d' out, run_calls fuel cs d = Ok (d', out) /\ data_inv d' /\ forall sk, responses sk out <= credit d sk + closes sk cs.
Proof using LR.
  revert d. induction cs as [|c cs IH]; intros d Hi Hr Hok.
  - eexists _, _. split; [reflexivity|]. split; [done|]. intros sk. cbn. unfold credit.
    destruct (protocol_handlers_ d !! sk) as [p|]; cbn; [pose proof (expects_range p)|]; lia.
  - apply Forall_cons in Hok as [Hc Hok]. destruct (call_keeps fuel c d Hi Hr Hc) as (d1 & o1 & E1 & Hi1 & Hr1 & Hl1 & Hc1).
    rewrite <- Hl1 in Hok. destruct (IH d1 Hi1 Hr1 Hok) as (d2 & o2 & E2 & Hi2 & Hc2).
    eexists d2, (o1 ++ o2). split; [cbn; by rewrite E1; cbn [rbind]; rewrite E2|]. split; [done|]. intros sk.
    specialize (Hc1 sk). specialize (Hc2 sk). rewrite responses_app. destruct c; cbn in *; lia.
Qed.
End ring.
End data.
End TcpData.

(** * Rings as lists of events *)

Definition list_ring : Type := list (list Z) * list (list Z).
Definition first_event {A} (f : list Z -> option A) (r : list_ring) : option A := match r.1 with [] => None | e :: _ => f e end.

Definition list_ring_ops : EventRing list_ring := {|
  start_read_batch r := (r.1 ++ r.2, []);
  finish_read_batch r := r;
  peek_size r := match r.1 with [] => Some (- ENOENT) | e :: _ => Some (zlen e - 8) end;
  peek_type := first_event (fun e => Some (event_type e));
  peek_aligned_u64 r o := first_event (fun e => word e (8 + o) 8) r;
  peek_aligned_u32 r o := first_event (fun e => word e (8 + o) 4) r;
  peek_aligned_u16 r o := first_event (fun e => word e (8 + o) 2) r;
  peek_copy r o len := first_event (fun e => mem_read e (8 + o) len) r;
  ring_pop r := match r.1 with [] => None | _ :: av => Some (av, r.2) end
|}.

#[refine] Definition list_ring_laws : @EventRingLaws list_ring list_ring_ops := {|
  ring_holds r av fr := r = (av, fr) /\ Forall (fun e => 8 <= zlen e < 2 ^ 16) (av ++ fr)
|}.
Proof.
  - intros r av fr [-> Hf]. cbn. by rewrite app_nil_r.
  - intros r av fr [-> Hf]. done.
  - intros r fr [-> _]. done.
  - intros r e av fr [-> Hf]. apply Forall_cons in Hf as [He _]. done.
  - intros r e av fr [-> _]. done.
  - intros r e av fr j v [-> _] Hj Hw. exact Hw.
  - intros r e av fr v [-> _] Hw. exact Hw.
  - intros r e av fr v [-> _] Hw. exact Hw.
  - intros r e av fr o len bs [-> _] Ho Hm. exact Hm.
  - intros r e av fr [-> Hf]. apply Forall_cons in Hf as [_ Hf]. by eexists.
Defined.

Module TcpDataDemo.
Import TcpProcessor TcpProcessorDemo TcpData.
#[local] Existing Instances list_ring_ops list_ring_laws ctrls ctrls_laws.

(** A record as the kernel writes it: its header, the length and the bytes submitted. *)
Definition data_record (c : list Z) : list Z :=
  let pad := Z.to_nat ((8 - (4 + 8 + zlen c) mod 8) mod 8) in
  let raw := 8 + zlen c + Z.of_nat pad in
  le_encode 4 9 ++ [0; 0] ++ le_encode 2 (12 + raw) ++ le_encode 4 raw ++ le_encode 8 (zlen c) ++ c ++ replicate pad 0.
Definition lost_record (n : Z) : list Z := le_encode 4 2 ++ [0; 0] ++ le_encode 2 24 ++ le_encode 8 0 ++ le_encode 8 n.

Definition request : list Z := [71; 69; 84; 32; 47; 32; 72; 84; 84; 80; 47; 49; 46; 49; 13; 10].
Definition response : list Z := [72; 84; 84; 80; 47; 49; 46; 49; 32; 50; 48; 48; 32; 79; 75; 13].

Definition demo_data (av : list (list Z)) : TCPDataHandler (R := list_ring) (MK := gmap Z tcp_control_value_t) :=
  mk_data {[77 := demo_value]} ∅ [(av, [])] 0.

Lemma demo_data_inv av : data_inv (demo_data av).
Proof. split; [|cbn; lia]. intros k p Hk. by vm_compute in Hk. Qed.

Lemma request_event : data_event request (data_record request).
Proof. split_and!; by vm_compute. Qed.
Lemma response_event : data_event response (data_record response).
Proof. split_and!; by vm_compute. Qed.

Lemma process_consumes_witness :
  let d := demo_data [data_record request; data_record response] in
  exists r', process 3 d 0 5 77 1 16 0 ST_SEND SC_CLIENT
    = Ok (processed d 0 77 0 (enable_stream 77 ST_SEND false {[77 := demo_value]})
            (mk_handler 77 1 (HTTP (mk_http 5 0 16 0 CLIENT_END SERVER_START 0 0 0))) r', []) /\
    ring_holds r' [data_record response] [].
Proof.
  intros d.
  pose proof (process_consumes 3 d 0 5 77 1 16 0 ST_SEND SC_CLIENT ([data_record request; data_record response], [])
    [data_record request; data_record response] []) as Hp.
  destruct Hp as (r' & E & Hr & _);
    [apply demo_data_inv|done|split; [done|repeat constructor; by vm_compute]
    |constructor; [apply (data_event_sound _ _ request_event)|constructor; [apply (data_event_sound _ _ response_event)|constructor]]
    |cbn; lia|lia|].
  exists r'. split; [exact E|exact Hr].
Defined.

(** The request of the socket 76 is lost; what its handler is given is that of 77. *)
Lemma lost_data_misattributed_witness :
  let d := demo_data [lost_record 1; data_record request] in
  exists d1 out1 d2, process 4 d 0 5 76 1 16 0 ST_SEND SC_CLIENT = Ok (d1, out1) /\
    process 4 d1 0 6 77 1 16 0 ST_SEND SC_CLIENT = Ok (d2, []) /\
    protocol_handlers_ d2 !! 76 = Some (mk_handler 76 1 (HTTP (mk_http 5 0 16 0 CLIENT_END SERVER_START 0 0 0))) /\
    protocol_handlers_ d2 !! 77 = Some (mk_handler 77 1 (UNKNOWN 1)).
Proof.
  intros d.
  destruct (lost_data_misattributed 4 d 0 76 77 1 1 5 6 0 0 ST_SEND ST_SEND SC_CLIENT SC_CLIENT
    ([lost_record 1; data_record request], []) (lost_record 1) [request] [data_record request] [] 16)
    as (d1 & out1 & d2 & E1 & E2 & Hr);
    [apply demo_data_inv|done|split; [done|repeat constructor; by vm_compute]|constructor; [apply request_event|constructor]
    |by vm_compute|by eexists|done|done|cbn; lia|done|].
  exists d1, out1, d2. split; [exact E1|]. split; [exact E2|]. vm_compute in Hr. vm_compute. split; apply Hr.
Defined.

Definition demo_calls : list (data_call (R := list_ring)) :=
  [Process 0 5 77 1 16 0 ST_SEND SC_CLIENT; Process 0 9 77 1 16 0 ST_RECV SC_SERVER; CloseSocket 77;
   Refill [([data_record response], [])]; Process 0 12 77 1 16 0 ST_RECV SC_SERVER].

Lemma demo_ready av fr : (length av < 3)%nat -> Forall sound_event av -> Forall (fun e => 8 <= zlen e < 2 ^ 16) (av ++ fr) ->
  ready (R := list_ring) 3 [(av, fr)].
Proof. intros. constructor; [|constructor]. by exists av, fr. Qed.

Lemma data_calls_return_witness :
  exists d' out, run_calls 3 demo_calls (demo_data [data_record request; data_record response]) = Ok (d', out) /\
    out = [http_response 9 77 1 200 4 0] /\ data_inv d'.
Proof.
  destruct (data_calls_return 3 demo_calls (demo_data [data_record request; data_record response])) as (d' & out & E & Hi & _).
  - apply demo_data_inv.
  - apply demo_ready; [cbn; lia| |repeat constructor; by vm_compute].
    constructor; [apply (data_event_sound _ _ request_event)|constructor; [apply (data_event_sound _ _ response_event)|constructor]].
  - repeat constructor; try (cbn; lia). exists [data_record response], []. split_and!; [|constructor; [|constructor]|cbn; lia].
    + split; [done|]. repeat constructor; by vm_compute.
    + apply (data_event_sound _ _ response_event).
  - exists d', out. split; [exact E|]. split; [|exact Hi]. vm_compute in E. by injection E as _ <-.
Defined.
End TcpDataDemo.
