(* ===== verification/DataSystem.v ===== *)
(** The data stream from the kernel to the server: the probes of the TCP processor, the
    data ring and the handlers of the collector together.

    The probes run in the build with the data stream.  What they submit is a record on the
    ring of their processor, and the message that announces it reaches [process] with
    the records before it.  Both sides share the map of control blocks.  That the kernel
    adds a record to a ring is [emit], of which only the layout of the record is assumed.

    Theorems: the collector recognises the methods followed by a space; an exchange of a
    request and a response is reported once, with the code and the time between the two. *)
From S2P Require Import Prelude PerfReader PollerBase Agent ProbeUdp Probes TcpProcessor KernelHttp TcpData.
Open Scope result_scope.

Module DataSystem.
Import Probes TcpProcessor KernelHttp TcpData.

(** * The methods, in the collector *)

Definition is_bytes (l : list Z) : Prop := Forall (fun b => 0 <= b < 256) l.

Lemma le_decode_bytes_inj a : forall b, length a = length b -> is_bytes a -> is_bytes b -> le_decode a = le_decode b -> a = b.
Proof.
  induction a as [|x a IH]; intros [|y b] Hl Ha Hb E; [done..|]. apply Forall_cons in Ha as [Hx Ha]. apply Forall_cons in Hb as [Hy Hb].
  cbn in E, Hl. assert (x = y) by lia. subst y. f_equal. apply IH; [lia|done|done|lia].
Qed.

(** Comparing words is comparing four bytes. *)
Lemma u32_bytes (w l : list Z) :
  is_bytes l -> (4 <= length l)%nat -> length w = 4%nat -> is_bytes w -> (le_decode (take 4 l) =? U32CC w) = bool_decide (w `prefix_of` l).
Proof.
  intros Hl Hlen Hw Hb. unfold U32CC. apply eq_true_iff_eq. rewrite Z.eqb_eq, bool_decide_eq_true. split.
  - intros E. apply le_decode_bytes_inj in E as <-; [|rewrite length_take; lia|by apply Forall_take|done].
    eexists. symmetry. apply take_drop.
  - intros [k ->]. rewrite <- Hw. by rewrite take_app_length.
Qed.

Lemma U32IDX_bytes (w l : list Z) n :
  is_bytes l -> (4 * n + 4 <= length l)%nat -> length w = 4%nat -> is_bytes w ->
  (U32IDX l n =? U32CC w) = bool_decide (w `prefix_of` drop (4 * n) l).
Proof. intros Hl Hlen Hw Hb. unfold U32IDX. apply u32_bytes; [by apply Forall_drop|rewrite length_drop; lia|done|done]. Qed.

Lemma after_success at_least n b : (if at_least <=? n then detected b else TPD_UNKNOWN) = TPD_SUCCESS -> at_least <= n /\ b = true.
Proof. apply detected_success. Qed.

Lemma byte_eq l i x : (byte l i =? x) = true -> (i < length l)%nat -> l !! i = Some x.
Proof. unfold byte. intros E Hi. apply Z.eqb_eq in E. destruct (lookup_lt_is_Some_2 l i Hi) as [y Ey]. rewrite Ey in *. cbn in E. by subst y. Qed.

(** Lists of bytes that are written out. *)
Ltac bytes := repeat (apply Forall_cons_2; [lia|]); apply Forall_nil_2.

(** Lists by their first elements. *)
Ltac spell :=
  repeat match goal with
  | Hp : _ `prefix_of` _ |- _ => destruct Hp as [? Hp]; cbn in Hp; rewrite ?drop_0 in Hp; simplify_eq/=
  | Hd : drop 0 _ = _ |- _ => rewrite drop_0 in Hd; simplify_eq/=
  | Hd : drop _ (_ :: _) = _ |- _ => cbn in Hd; rewrite ?drop_0 in Hd; simplify_eq/=
  | Hb : (_ && _) = true |- _ => apply andb_prop in Hb as [? ?]
  | Hb : (byte _ _ =? _) = true |- _ => apply byte_eq in Hb; [|unfold zlen in *; cbn in *; lia]
  | Hb : (_ :: _) !! _ = Some _ |- _ => cbn in Hb; simplify_eq/=
  | Hb : ?l !! 0%nat = Some _ |- _ => destruct l; cbn in Hb; simplify_eq/=
  | Hb : ?l !! S _ = Some _ |- _ => destruct l; cbn in Hb; simplify_eq/=
  end.

Lemma detect_http_spec (data : list Z) :
  is_bytes data -> detect_http data = TPD_SUCCESS <-> exists m, m ∈ methods /\ m ++ [32] `prefix_of` data.
Proof.
  intros Hb. unfold detect_http. destruct (Z.ltb_spec (zlen data) 4) as [Hlt|Hge].
  { split; [done|]. intros (m & Hm & Hp%prefix_length). rewrite length_app in Hp. unfold zlen in Hlt. cbn in Hp.
    unfold methods, POST in Hm. rewrite !elem_of_cons, elem_of_nil in Hm. repeat destruct Hm as [->|Hm]; [..|done]; cbn in Hp; lia. }
  assert (Hl : (4 <= length data)%nat) by (unfold zlen in Hge; lia).
  assert (Hw : forall w, length w = 4%nat -> is_bytes w -> (U32IDX data 0 =? U32CC w) = bool_decide (w `prefix_of` data))
    by (intros; by apply U32IDX_bytes).
  rewrite !Hw by (done || bytes). clear Hw. split.
  - repeat case_bool_decide; cbn [orb]; intros E; try done; try apply after_success in E as [? E];
      try (rewrite U32IDX_bytes in E; [|done|unfold zlen in *; lia|done|bytes]);
      try apply bool_decide_eq_true in E; spell;
      unfold methods, POST; rename select (is_bytes _) into Hbs; clear -Hbs;
      match goal with |- exists m, m ∈ ?ms /\ _ =>
        let rec try_all l := match l with ?m :: ?l => (exists m; split; [rewrite !elem_of_cons; repeat first [by left|right]|by eexists]) || try_all l end
        in try_all ms
      end.
  - intros (m & Hm & k & ->). unfold methods, POST in Hm. rewrite !elem_of_cons, elem_of_nil in Hm. clear Hb Hl Hge.
    pose proof (zlen_nonneg k).
    repeat destruct Hm as [->|Hm]; [..|done]; cbn [app]; rewrite !zlen_cons;
      repeat match goal with |- context [bool_decide ?P] => let b := eval vm_compute in (bool_decide P) in change (bool_decide P) with b end;
      cbn [orb]; try done; match goal with |- context [?a <=? ?b] => rewrite (proj2 (Z.leb_le a b)) by lia end; reflexivity.
Qed.

(** [detect_http] recognises the same methods as the kernel, followed by a space. *)
Theorem detect_http_methods (data : list Z) :
  is_bytes data -> detect_http data = TPD_SUCCESS <-> exists m, m ∈ methods /\ m ++ [32] `prefix_of` data.
Proof. apply detect_http_spec. Qed.

(** * Handlers and the pieces of data *)

Section handlers.
Context {R MK : Type} `{EventRing R} `{BpfMap tcp_control_value_t MK}.

(** The handler of HTTP after the request, at [t]. *)
Definition requested (sk pid t : Z) (p : ProtocolHandlerBase) : Prop :=
  exists h, p = mk_handler sk pid (HTTP h) /\ client_state_ h = CLIENT_END /\ server_state_ h = SERVER_START /\ request_timestamp_ h = t.
Definition answered (sk pid : Z) (p : ProtocolHandlerBase) : Prop :=
  exists h, p = mk_handler sk pid (HTTP h) /\ client_state_ h = CLIENT_END /\ server_state_ h = SERVER_END.

#[local] Abbreviation serve := (serve (R := R) (MK := MK)).
#[local] Abbreviation serve_all := (serve_all (R := R) (MK := MK)).

(** A call of a handler without an upgrade, and one with an upgrade. *)
Definition handle (cs : CLIENT_SERVER_TYPE) : Z -> Z -> STREAM_TYPE -> list Z -> MK -> ProtocolHandlerBase -> result handled :=
  match cs with SC_SERVER => handle_server_data | SC_CLIENT => handle_client_data end.

Lemma serve_plain cs t st data m p m' p' out :
  handle cs t 0 st data m p = Ok (m', p', None, out) -> serve t st cs data m p = (m', p', out).
Proof.
  intros E. unfold serve. cbn [give tcp_control]. destruct cs; cbn [handle] in E; rewrite E; cbn; by rewrite lookup_insert_eq.
Qed.

Lemma serve_upgraded t st data m p m1 p1 u o1 m2 p2 o2 :
  handle_client_data t 0 st data m p = Ok (m1, p1, Some u, o1) -> key_ p1 = key_ p ->
  handle_client_data t 0 st data m1 u = Ok (m2, p2, None, o2) -> serve t st SC_CLIENT data m p = (m2, p2, o1 ++ o2).
Proof.
  intros E1 Hk E2. unfold serve. cbn [give tcp_control]. rewrite E1. cbn [rbind]. unfold upgrade_protocol_handler.
  cbn [protocol_handlers_ with_handler]. rewrite Hk, lookup_insert_eq. cbn [rbind]. rewrite with_handler_twice. cbn [tcp_control with_handler].
  rewrite E2. cbn [rbind]. rewrite with_handler_twice. cbn. by rewrite lookup_insert_eq.
Qed.

Lemma http_request_handled key t st data m h :
  client_state_ h = CLIENT_START -> exists h', http_handle_client_data key t st data m h = Ok (enable_stream key st false m, h') /\
    client_state_ h' = CLIENT_END /\ server_state_ h' = server_state_ h /\ request_timestamp_ h' = t.
Proof.
  intros Hs. unfold http_handle_client_data. cbn [http_client_loop]. rewrite Hs. unfold http_client_turn. rewrite Hs. cbn. by eexists.
Qed.

Lemma http_request_over key t st data m h :
  client_state_ h = CLIENT_END -> exists h', http_handle_client_data key t st data m h = Ok (m, h') /\
    client_state_ h' = CLIENT_END /\ server_state_ h' = server_state_ h /\ request_timestamp_ h' = request_timestamp_ h.
Proof. intros Hs. unfold http_handle_client_data. cbn [http_client_loop]. rewrite Hs. cbn. by eexists. Qed.

Lemma http_response_handled key pid t st data m h :
  server_state_ h = SERVER_START -> exists h', http_handle_server_data key pid t st data m h
    = Ok (enable_stream key st false m, h', answer key pid t (request_timestamp_ h) st data) /\
    client_state_ h' = client_state_ h /\ server_state_ h' = SERVER_END.
Proof.
  intros Hs. unfold http_handle_server_data. cbn [http_server_loop]. rewrite Hs. unfold http_server_turn at 1. rewrite Hs.
  cbn [server_state_ http_server_transition].
  edestruct (version_and_code key pid t st data m (http_server_transition SERVER_VERSION_AND_CODE (set_response_timestamp_ t h)))
    as (h1 & -> & Hs1 & Hc1 & Hr1); [done|].
  rewrite Hs1. unfold http_server_turn. rewrite Hs1. cbn. rewrite app_nil_r. by eexists.
Qed.

Lemma http_response_over key pid t st data m h :
  server_state_ h = SERVER_END -> exists h', http_handle_server_data key pid t st data m h = Ok (m, h', []) /\
    client_state_ h' = client_state_ h /\ server_state_ h' = SERVER_END.
Proof. intros Hs. unfold http_handle_server_data. cbn [http_server_loop]. rewrite Hs. cbn. by eexists. Qed.

Lemma serve_request t st data m sk pid :
  is_bytes data -> (exists x, x ∈ methods /\ x ++ [32] `prefix_of` data) ->
  exists p, serve t st SC_CLIENT data m (mk_handler sk pid ProtocolHandler_UNKNOWN_new) = (enable_stream sk st false m, p, []) /\
    requested sk pid t p.
Proof.
  intros Hb Hm%detect_http_spec; [|done].
  destruct (http_request_handled sk t st data m ProtocolHandler_HTTP_new eq_refl) as (h & Eh & Hc & Hs & Hr).
  eexists. split.
  - apply (serve_upgraded t st data m _ m (mk_handler sk pid ProtocolHandler_UNKNOWN_new) (mk_handler sk pid (HTTP ProtocolHandler_HTTP_new)) []
      (enable_stream sk st false m) (mk_handler sk pid (HTTP h)) []); [|done|].
    + unfold handle_client_data. cbn [specific ProtocolHandler_UNKNOWN_new key_ pid_]. unfold unknown_handle_client_data.
      change (negb (Z.land TCP_PROTOCOL_MASK (TCP_PROTOCOL_BIT TCPPROTO_HTTP) =? 0)) with true. cbn iota. by rewrite Hm.
    + unfold handle_client_data. cbn [specific key_ pid_]. by rewrite Eh.
  - exists h. by split_and!.
Qed.

Lemma serve_requested t t' st datas m sk pid p :
  requested sk pid t p -> exists p', serve_all t' st SC_CLIENT datas m p = (m, p', []) /\ requested sk pid t p'.
Proof.
  revert p. induction datas as [|data datas IH]; intros p Hp; [by eexists|]. destruct Hp as (h & -> & Hc & Hs & Hr).
  destruct (http_request_over sk t' st data m h Hc) as (h' & E & Hc' & Hs' & Hr').
  destruct (IH (mk_handler sk pid (HTTP h'))) as (p' & E' & Hp'); [exists h'; split_and!; congruence|].
  cbn [TcpData.serve_all]. rewrite (serve_plain SC_CLIENT t' st data m _ m (mk_handler sk pid (HTTP h')) []).
  - rewrite E'. by eexists.
  - cbn [handle handle_client_data specific key_ pid_]. by rewrite E.
Qed.

Lemma serve_response t t' st data m sk pid p :
  requested sk pid t p -> exists p', serve t' st SC_SERVER data m p = (enable_stream sk st false m, p', answer sk pid t' t st data) /\
    answered sk pid p'.
Proof.
  intros (h & -> & Hc & Hs & Hr). destruct (http_response_handled sk pid t' st data m h Hs) as (h' & E & Hc' & Hs').
  exists (mk_handler sk pid (HTTP h')). split; [|exists h'; split_and!; congruence]. apply serve_plain.
  cbn [handle handle_server_data specific key_ pid_]. rewrite E. by rewrite Hr.
Qed.

Lemma serve_answered t' st datas m sk pid p :
  answered sk pid p -> exists p', serve_all t' st SC_SERVER datas m p = (m, p', []) /\ answered sk pid p'.
Proof.
  revert p. induction datas as [|data datas IH]; intros p Hp; [by eexists|]. destruct Hp as (h & -> & Hc & Hs).
  destruct (http_response_over sk pid t' st data m h Hs) as (h' & E & Hc' & Hs').
  destruct (IH (mk_handler sk pid (HTTP h'))) as (p' & E' & Hp'); [exists h'; split_and!; congruence|].
  cbn [TcpData.serve_all]. rewrite (serve_plain SC_SERVER t' st data m _ m (mk_handler sk pid (HTTP h')) []).
  - rewrite E'. by eexists.
  - cbn [handle handle_server_data specific key_ pid_]. by rewrite E.
Qed.
End handlers.

(** * The system *)

Section system.
Context {MS MP MC MK MA MR MX : Type} `{BpfMap ProbeUdp.udp_open_socket_t MS} `{BpfMap Z MP}.
Context `{BpfMap tcp_connection_t MC} `{BpfMap tcp_control_value_t MK} `{BpfMap sendmsg_args MA} `{BpfMap recvmsg_args MR}
  `{BpfMap accept_args MX}.
Context {LC : BpfMapLaws tcp_connection_t MC} {LK : BpfMapLaws tcp_control_value_t MK}.
Context {LA : BpfMapLaws sendmsg_args MA} {LR : BpfMapLaws recvmsg_args MR}.
Context {R : Type} `{EventRing R} {LER : EventRingLaws R}.
Context (bpf_ktime_get_ns : nat -> Z) (BOOT_TIME_ADJUSTMENT : Z) (fileline : Z -> Z).
Context (LINUX_VERSION_CODE ITER_IOVEC ITER_KVEC : Z).
Context (ctx : context) (Hproc : no_process ctx = false).

(** The kernel adds the record of a piece of data to a ring, and a batch is started. *)
Context (emit : R -> list Z -> R).
Context (Hemit : forall r av fr c, ring_holds r av fr -> 1 <= zlen c <= 256 ->
  exists e, data_event c e /\ ring_holds (emit r c) (av ++ [e]) fr).
(** The index of the processor, and a bound on the records on its ring. *)
Context (idx fuel : nat).

#[local] Abbreviation State := (@State MS MP MC MK MA MR MX).
#[local] Abbreviation Data := (TCPDataHandler (R := R) (MK := MK)).
#[local] Abbreviation call :=
  (KernelHttp.call (MS := MS) (MP := MP) (MX := MX) bpf_ktime_get_ns BOOT_TIME_ADJUSTMENT fileline LINUX_VERSION_CODE ITER_IOVEC ITER_KVEC true ctx).
#[local] Abbreviation time_at := (KernelHttp.time_at bpf_ktime_get_ns BOOT_TIME_ADJUSTMENT).
#[local] Abbreviation one_buffer := (KernelHttp.one_buffer LINUX_VERSION_CODE ITER_IOVEC ITER_KVEC).

(** The casts of the fields of a message to the enumerations, whose values are 0 and 1. *)
Definition stream_type_of (n : Z) : result STREAM_TYPE := if n =? 0 then Ok ST_SEND else if n =? 1 then Ok ST_RECV else Undef.
Definition client_server_of (n : Z) : result CLIENT_SERVER_TYPE := if n =? 0 then Ok SC_CLIENT else if n =? 1 then Ok SC_SERVER else Undef.

(** The records of the data channel go to the ring; [handle_tcp_data] gets the messages. *)
Fixpoint deliver (out : list sent) (d : Data) : result (Data * list message) :=
  match out with
  | [] => Ok (d, [])
  | Chunk _ data :: out => let* r := get (rings d !! idx) in deliver out (with_ring d idx (emit r data))
  | Event t (Agent.tcp_data sk pid length offset stream cs) :: out =>
    let* st := stream_type_of stream in
    let* cs := client_server_of cs in
    let* (d, o) := process fuel d idx t sk pid length offset st cs in
    let* (d, rest) := deliver out d in Ok (d, o ++ rest)
  | Event _ _ :: out => deliver out d
  end.

Definition with_kernel_control (s : State) (m : MK) : State :=
  mk_state (base s) (tcp_connections s) m (sendmsg_active s) (recvmsg_active s) (accept_active s).
Definition with_control (d : Data) (m : MK) : Data := mk_data m (protocol_handlers_ d) (rings d) (lost_record_total_count_ d).

(** A call of an application, and what the collector makes of it. *)
Definition system_call (st : STREAM_TYPE) (sk : Z) (mem mem' : user_memory) (msg n : Z) (s : State) (d : Data)
    : result (State * Data * list message) :=
  let '(_, s, out) := call st sk mem mem' msg n s in
  let* (d, msgs) := deliver out (with_control d (TcpProcessor.tcp_control s)) in
  Ok (with_kernel_control s (tcp_control d), d, msgs).

(** ** From the kernel to the handler *)

Lemma deliver_records pieces : forall out d r, rings d !! idx = Some r ->
  deliver (records pieces ++ out) d = deliver out (with_ring d idx (fold_left emit pieces r)).
Proof.
  induction pieces as [|c pieces IH]; intros out d r Hr; cbn [records fmap list_fmap app deliver fold_left].
  - unfold with_ring. rewrite list_insert_id by done. by destruct d.
  - rewrite Hr. cbn [get rbind]. fold (records pieces). rewrite (IH out _ (emit r c)).
    + unfold with_ring. cbn. by rewrite list_insert_insert_eq.
    + cbn. apply list_lookup_insert_eq. by eapply lookup_lt_Some.
Qed.

Lemma emit_all pieces : forall r av fr, ring_holds r av fr -> Forall (fun p => 1 <= zlen p <= 256) pieces ->
  exists es, Forall2 data_event pieces es /\ ring_holds (fold_left emit pieces r) (av ++ es) fr.
Proof using Hemit.
  induction pieces as [|c pieces IH]; intros r av fr Hr Hp.
  - exists []. rewrite app_nil_r. by split; [constructor|].
  - apply Forall_cons in Hp as [Hc Hp]. destruct (Hemit r av fr c Hr Hc) as (e & He & Hr').
    destruct (IH _ _ _ Hr' Hp) as (es & Hes & Hr''). exists (e :: es). rewrite <- app_assoc in Hr''. by split; [constructor|].
Qed.

Lemma pieces_length bs pieces : pieces_of bs pieces -> Z.of_nat (length pieces) <= zlen bs.
Proof.
  intros [<- Hp]. induction Hp as [|c pieces Hc _ IH]; [done|]. cbn [concat length]. rewrite zlen_app. lia.
Qed.

Lemma deliver_pieces bs pieces t sk pid off st cs d r fr :
  data_inv d -> rings d !! idx = Some r -> ring_holds r [] fr -> pieces_of bs pieces -> zlen bs < Z.of_nat fuel -> zlen bs < 2 ^ 32 ->
  let '(m, p, msgs) := serve_all (R := R) t st cs pieces (tcp_control d) (handler_of d sk pid) in
  exists d', deliver (records pieces ++ [Event t (Agent.tcp_data sk pid (zlen bs) off (stream_number st) (side_number cs))]) d = Ok (d', msgs) /\
    tcp_control d' = m /\ protocol_handlers_ d' !! sk = Some p /\ data_inv d' /\
    exists r', rings d' !! idx = Some r' /\ ring_holds r' [] fr.
Proof using Hemit LER.
  intros Hi Hring Hr Hps Hf Hl. pose proof Hps as [Hcat Hpl]. pose proof (pieces_length bs pieces Hps).
  rewrite (deliver_records pieces _ d r Hring). destruct (emit_all pieces r [] fr Hr Hpl) as (es & Hes & Hr'). cbn [app] in Hr'.
  set (d1 := with_ring d idx (fold_left emit pieces r)).
  assert (Hring1 : rings d1 !! idx = Some (fold_left emit pieces r)) by (apply list_lookup_insert_eq; by eapply lookup_lt_Some).
  assert (Hs : Forall sound_event es) by (clear -Hes; induction Hes; constructor; [by eapply data_event_sound|done]).
  pose proof (process_returns fuel d1 idx t sk pid (zlen bs) off st cs _ es fr Hi Hring1 Hr' Hs) as Hp.
  pose proof (consume_data pieces es [] Hes) as Ec. rewrite app_nil_r, Hcat in Ec. rewrite Ec in Hp.
  change (tcp_control d1) with (tcp_control d) in Hp. change (handler_of d1 sk pid) with (handler_of d sk pid) in Hp.
  destruct (serve_all t st cs pieces (tcp_control d) (handler_of d sk pid)) as [[m p] msgs].
  destruct Hp as (r' & E & Hr2 & Hi2 & _); [apply Forall2_length in Hes; lia|pose proof (zlen_nonneg bs); lia|].
  exists (processed d1 idx sk 0 m p r'). split_and!; [|done|cbn; apply lookup_insert_eq|done|].
  - cbn [deliver]. replace (stream_type_of (stream_number st)) with (Ok st) by (by destruct st). cbn [rbind].
    replace (client_server_of (side_number cs)) with (Ok cs) by (by destruct cs). cbn [rbind]. rewrite E. cbn [rbind]. by rewrite app_nil_r.
  - exists r'. split; [|done]. cbn. apply list_lookup_insert_eq. rewrite length_insert. by eapply lookup_lt_Some.
Qed.

Definition side_of (c : tcp_connection_t) (st : STREAM_TYPE) : CLIENT_SERVER_TYPE :=
  match st with ST_SEND => send_side c | ST_RECV => recv_side c end.

(** The data of a call in one buffer goes to the data channel and is announced. *)
Lemma call_announces st sk mem mem' msg bs (s : State) c v :
  at_ s sk c v -> enable (control_of st v) <> 0 -> watched_from st c v (zlen bs) -> room ctx st s -> one_buffer mem mem' msg bs ->
  exists s' pieces, call st sk mem mem' msg (zlen bs) s
    = (true, s', records pieces ++ [Event (time_at s 0) (Agent.tcp_data sk (tgid_of ctx) (zlen bs) (total (stream_of st c))
         (stream_number st) (side_number (side_of c st)))]) /\
    pieces_of bs pieces /\ (4 <= zlen bs -> exists x rest, pieces = x :: rest /\ zlen x = lead (zlen bs)) /\
    at_ s' sk (set_total st (total (stream_of st c) + zlen bs) c) v /\ other_args st s s'.
Proof using Hproc LC LK LA LR.
  intros Ha He Hw Hroom Hob.
  destruct (call_handles bpf_ktime_get_ns BOOT_TIME_ADJUSTMENT fileline LINUX_VERSION_CODE ITER_IOVEC ITER_KVEC true ctx Hproc st sk
    mem mem' msg bs s c v c v (fun out => exists pieces, out = records pieces ++ [Event (time_at s 0) (Agent.tcp_data sk (tgid_of ctx) (zlen bs)
      (total (stream_of st c)) (stream_number st) (side_number (side_of c st)))] /\ pieces_of bs pieces /\
      (4 <= zlen bs -> exists x rest, pieces = x :: rest /\ zlen x = lead (zlen bs))) Ha) as (s' & out & E & Hq & Ha' & Ho); try done.
  - by apply interested_stream.
  - intros s1 Hbase Ha1. pose proof Ha1 as (Hc1 & Hsk & Hv1). destruct Hob as [_ _ _ _ _ Hsz Hm].
    destruct (submit_carries bpf_ktime_get_ns BOOT_TIME_ADJUSTMENT fileline ctx Hproc mem' sk c st (side_of c st) _ bs s1 Hc1 Hsk Hm
      ltac:(lia)) as (s2 & pieces & E & Hp & Hlead & Hc2 & Hk2 & Hsame).
    eexists s2, _. split; [|split].
    + unfold handler. destruct st; [erewrite send_handler_stream|erewrite recv_handler_stream]; done.
    + split; [|done]. split_and!; [by rewrite Hc2|done|]. unfold controls. by rewrite Hk2.
    + exists pieces. split; [|done]. do 3 f_equal. unfold now_at, KernelHttp.time_at. by rewrite Hbase.
  - destruct Hq as (pieces & -> & Hp & Hlead). by exists s', pieces.
Qed.

(** ** An exchange, from end to end *)

Lemma enable_contents sk st b (m : MK) v :
  bm_contents m !! sk = Some v -> bm_contents (enable_stream sk st b m) = <[sk := set_enable st (flag b) v]> (bm_contents m).
Proof using LK.
  intros Hv. unfold enable_stream, change_control. rewrite bm_lookup_spec, Hv. apply bm_store_spec. by rewrite Hv.
Qed.

Lemma lead_long n : 16 <= n -> 16 <= lead n.
Proof.
  intros Hn. unfold lead. assert (4 <= Z.log2 n) by (change 4 with (Z.log2 16); by apply Z.log2_le_mono).
  pose proof (Z.pow_le_mono_r 2 4 (Z.log2 n)). lia.
Qed.

(** Long data has a first piece of at least 16 bytes. *)
Lemma first_piece bs pieces :
  pieces_of bs pieces -> 16 <= zlen bs -> (4 <= zlen bs -> exists x rest, pieces = x :: rest /\ zlen x = lead (zlen bs)) ->
  exists x rest, pieces = x :: rest /\ 16 <= zlen x /\ x `prefix_of` bs.
Proof.
  intros [<- _] Hl Hlead. destruct Hlead as (x & rest & -> & Hx); [lia|]. exists x, rest. split; [done|].
  pose proof (lead_long _ Hl). split; [lia|]. by eexists.
Qed.

Lemma prefix_shorter (a x bs : list Z) : a `prefix_of` bs -> x `prefix_of` bs -> zlen a <= zlen x -> a `prefix_of` x.
Proof.
  intros [k ->] [k' E] Hl. exists (drop (length a) x). unfold zlen in *. rewrite <- (take_drop (length a) x) at 1. f_equal.
  assert (E' : take (length a) (a ++ k) = take (length a) (x ++ k')) by (by rewrite E).
  by rewrite take_app_length, take_app_le in E' by lia.
Qed.

Lemma prefix_take (x bs : list Z) n : x `prefix_of` bs -> (n <= length x)%nat -> take n x = take n bs.
Proof. intros [k ->] Hn. by rewrite take_app_le. Qed.

Lemma method_short m : m ∈ methods -> zlen (m ++ [32]) <= 16.
Proof. unfold methods, POST. rewrite !elem_of_cons, elem_of_nil. intros Hm. repeat destruct Hm as [->|Hm]; [..|done]; by vm_compute. Qed.

Lemma request_served request pieces t st m sk pid :
  is_bytes request -> (exists x, x ∈ methods /\ x ++ [32] `prefix_of` request) -> 16 <= zlen request -> pieces_of request pieces ->
  (4 <= zlen request -> exists x rest, pieces = x :: rest /\ zlen x = lead (zlen request)) ->
  exists p, serve_all (R := R) t st SC_CLIENT pieces m (mk_handler sk pid ProtocolHandler_UNKNOWN_new) = (enable_stream sk st false m, p, []) /\
    requested sk pid t p.
Proof.
  intros Hb (x & Hx & Hpre) Hl Hps Hlead. destruct (first_piece _ _ Hps Hl Hlead) as (y & rest & -> & Hy & Hyp).
  destruct (serve_request (R := R) t st y m sk pid) as (p1 & E1 & Hp1).
  { destruct Hyp as [k ->]. by apply Forall_app in Hb as [? _]. }
  { exists x. split; [done|]. pose proof (method_short x Hx). apply (prefix_shorter _ _ _ Hpre Hyp). lia. }
  destruct (serve_requested (R := R) t t st rest (enable_stream sk st false m) sk pid p1 Hp1) as (p2 & E2 & Hp2).
  exists p2. cbn [serve_all]. by rewrite E1, E2.
Qed.

Lemma response_served response pieces t t' st m sk pid p code :
  16 <= zlen response -> pieces_of response pieces -> response_code (take 12 response) = Some code ->
  (4 <= zlen response -> exists x rest, pieces = x :: rest /\ zlen x = lead (zlen response)) -> requested sk pid t p ->
  exists p', serve_all (R := R) t' st SC_SERVER pieces m p = (enable_stream sk st false m, p',
    [http_response t' sk pid code (u64 (t' - t)) (side_number (match st with ST_SEND => SC_SERVER | ST_RECV => SC_CLIENT end))]).
Proof.
  intros Hl Hps Hcode Hlead Hp. destruct (first_piece _ _ Hps Hl Hlead) as (y & rest & -> & Hy & Hyp).
  destruct (serve_response (R := R) t t' st y m sk pid p Hp) as (p1 & E1 & Hp1).
  destruct (serve_answered (R := R) t' st rest (enable_stream sk st false m) sk pid p1 Hp1) as (p2 & E2 & _).
  exists p2. cbn [serve_all]. rewrite E1, E2, app_nil_r. unfold answer. destruct (Z.ltb_spec (zlen y) 12); [lia|].
  rewrite (prefix_take y response 12 Hyp) by (unfold zlen in Hy; lia). by rewrite Hcode.
Qed.

(** One call and its delivery, where the handler turns the stream off. *)
Lemma system_call_serves st sk mem mem' msg bs (s : State) (d : Data) c v r fr (Q : ProtocolHandlerBase -> Prop) msgs :
  at_ s sk c v -> enable (control_of st v) <> 0 -> watched_from st c v (zlen bs) -> room ctx st s -> one_buffer mem mem' msg bs ->
  data_inv d -> rings d !! idx = Some r -> ring_holds r [] fr -> DATA_CHANNEL_CHUNK_MAX < Z.of_nat fuel ->
  (forall pieces m, pieces_of bs pieces -> (4 <= zlen bs -> exists x rest, pieces = x :: rest /\ zlen x = lead (zlen bs)) ->
     exists p', Q p' /\ serve_all (R := R) (time_at s 0) st (side_of c st) pieces m (handler_of d sk (tgid_of ctx))
       = (enable_stream sk st false m, p', msgs)) ->
  exists s' d' p' r', system_call st sk mem mem' msg (zlen bs) s d = Ok (s', d', msgs) /\
    at_ s' sk (set_total st (total (stream_of st c) + zlen bs) c) (set_enable st 0 v) /\ other_args st s s' /\
    data_inv d' /\ protocol_handlers_ d' !! sk = Some p' /\ Q p' /\ rings d' !! idx = Some r' /\ ring_holds r' [] fr.
Proof using Hproc LC LK LA LR Hemit LER.
  intros Ha He Hw Hroom Hob Hi Hring Hr Hf Hserve. pose proof Hob as [_ _ _ _ _ Hsz _].
  destruct (call_announces st sk mem mem' msg bs s c v Ha He Hw Hroom Hob) as (s1 & pieces & E1 & Hps & Hlead & Ha1 & Ho1).
  unfold DATA_CHANNEL_CHUNK_MAX in *.
  pose proof (deliver_pieces bs pieces (time_at s 0) sk (tgid_of ctx) (total (stream_of st c)) st (side_of c st)
    (with_control d (TcpProcessor.tcp_control s1)) r fr Hi Hring Hr Hps ltac:(lia) ltac:(lia)) as Hd.
  change (handler_of (with_control d _) sk (tgid_of ctx)) with (handler_of d sk (tgid_of ctx)) in Hd.
  change (tcp_control (with_control d ?m)) with m in Hd.
  destruct (Hserve pieces (TcpProcessor.tcp_control s1) Hps Hlead) as (p' & HQ & Es). rewrite Es in Hd.
  destruct Hd as (d' & Ed & Hm & Hp & Hi' & r' & Hring' & Hr').
  exists (with_kernel_control s1 (tcp_control d')), d', p', r'. split_and!; try done.
  - unfold system_call. rewrite E1. rewrite Ed. done.
  - destruct Ha1 as (Hc1 & Hsk1 & Hv). split_and!; [done|done|]. unfold controls in *. cbn. rewrite Hm, (enable_contents sk st false _ v Hv). apply lookup_insert_eq.
Qed.

Lemma other_room st (s s' : State) : other_args st s s' -> room ctx (opposite st) s -> room ctx (opposite st) s'.
Proof. destruct st; cbn; intros E Hr a; unfold sends, receives in *; rewrite E; apply Hr. Qed.

(** C4: a request and its response reach the server as one message.  The application sends or
    receives each in one buffer, of 16 bytes at least; the request begins with a method
    and a space, the response with a status line.  The probes carry both, the ring holds
    their records, the collector recognises them and reports the code and the time from
    the one to the other, for the side that the socket is on; then both sides of the
    connection are turned off in the kernel. *)
Theorem http_reported_end_to_end (s : State) (d : Data) (r : R) (fr : list (list Z)) (sk : Z) (c : tcp_connection_t)
    (v : tcp_control_value_t) (mem mem' : user_memory) (msg : Z) (request : list Z) (mem2 mem2' : user_memory) (msg2 : Z)
    (response : list Z) (code : Z) :
  let st := request_stream c in
  at_ s sk c v -> enable (send_control v) <> 0 -> enable (recv_control v) <> 0 ->
  watched_from st c v (zlen request) -> watched_from (opposite st) c v (zlen response) -> room ctx st s -> room ctx (opposite st) s ->
  one_buffer mem mem' msg request -> one_buffer mem2 mem2' msg2 response ->
  is_bytes request -> (exists x, x ∈ methods /\ x ++ [32] `prefix_of` request) -> 16 <= zlen request ->
  16 <= zlen response -> response_code (take 12 response) = Some code ->
  data_inv d -> protocol_handlers_ d !! sk = None -> rings d !! idx = Some r -> ring_holds r [] fr ->
  DATA_CHANNEL_CHUNK_MAX < Z.of_nat fuel ->
  exists s1 d1 s2 d2 c2 v2, system_call st sk mem mem' msg (zlen request) s d = Ok (s1, d1, []) /\
    system_call (opposite st) sk mem2 mem2' msg2 (zlen response) s1 d1 = Ok (s2, d2,
      [http_response (time_at s1 0) sk (tgid_of ctx) code (u64 (time_at s1 0 - time_at s 0)) (side_number (own_side c))]) /\
    at_ s2 sk c2 v2 /\ enable (send_control v2) = 0 /\ enable (recv_control v2) = 0.
Proof using Hproc LC LK LA LR Hemit LER.
  intros st Ha Hes Her Hw1 Hw2 Hroom1 Hroom2 Hob1 Hob2 Hb Hmeth Hl1 Hl2 Hcode Hi Hno Hring Hr Hf.
  assert (He : forall st, enable (control_of st v) <> 0) by (by intros []).
  assert (Hsides : side_of c st = SC_CLIENT /\ side_of c (opposite st) = SC_SERVER).
  { unfold st, request_stream, side_of, send_side, recv_side. by destruct (parent_sk c =? 0). }
  destruct Hsides as [Hs1 Hs2].
  destruct (system_call_serves st sk mem mem' msg request s d c v r fr (requested sk (tgid_of ctx) (time_at s 0)) [] Ha (He st) Hw1 Hroom1 Hob1
    Hi Hring Hr Hf) as (s1 & d1 & p1 & r1 & E1 & Ha1 & Ho1 & Hi1 & Hp1 & Hq1 & Hring1 & Hr1).
  { intros pieces m Hps Hlead. unfold handler_of. rewrite Hno. cbn. rewrite Hs1.
    destruct (request_served request pieces (time_at s 0) st m sk (tgid_of ctx) Hb Hmeth Hl1 Hps Hlead) as (p & E & Hp). by exists p. }
  set (c1 := set_total st (total (stream_of st c) + zlen request) c) in *.
  destruct (system_call_serves (opposite st) sk mem2 mem2' msg2 response s1 d1 c1 (set_enable st 0 v) r1 fr (fun _ => True)
    [http_response (time_at s1 0) sk (tgid_of ctx) code (u64 (time_at s1 0 - time_at s 0)) (side_number (own_side c))] Ha1)
    as (s2 & d2 & p2 & r2 & E2 & Ha2 & _); try done.
  - specialize (He (opposite st)). by destruct st.
  - unfold c1. by destruct st.
  - by apply (other_room st s s1).
  - intros pieces m Hps Hlead. unfold handler_of. rewrite Hp1. cbn [from_option id].
    replace (side_of c1 (opposite st)) with SC_SERVER by (rewrite <- Hs2; unfold c1; by destruct st).
    destruct (response_served response pieces (time_at s 0) (time_at s1 0) (opposite st) m sk (tgid_of ctx) p1 code Hl2 Hps Hcode Hlead Hq1)
      as (p & E). exists p. split; [done|]. rewrite E. do 5 f_equal.
    unfold own_side, st, request_stream. by destruct (parent_sk c =? 0).
  - eexists s1, d1, s2, d2, _, _. split; [exact E1|]. split; [exact E2|]. split; [exact Ha2|]. by destruct st.
Qed.
End system.
End DataSystem.

Module DataSystemDemo.
Import Probes TcpProcessor TcpProcessorDemo KernelHttp KernelHttpDemo TcpData TcpDataDemo DataSystem.
#[local] Existing Instances ProbeUdpDemo.maps ProbeUdpDemo.ports conns conns_laws ctrls ctrls_laws sending sending_laws receiving
  receiving_laws accepting list_ring_ops list_ring_laws.

Definition demo_emit (r : list_ring) (c : list Z) : list_ring := (r.1 ++ [data_record c], r.2).

Lemma zlen_data_record c : zlen c <= 256 -> 20 + zlen c <= zlen (data_record c) < 20 + zlen c + 8.
Proof.
  intros Hc. unfold data_record. pose proof (zlen_nonneg c). set (pad := Z.to_nat _).
  assert (Hp : (pad < 8)%nat) by (unfold pad; pose proof (Z.mod_pos_bound (8 - (4 + 8 + zlen c) mod 8) 8); lia).
  rewrite !zlen_app. unfold zlen. rewrite !length_le_encode, length_replicate. cbn [length]. lia.
Qed.

Lemma record_word c o n :
  1 <= zlen c <= 256 -> 0 <= o -> 0 <= n -> o + n <= 20 ->
  word (data_record c) o n = Some (le_decode (take (Z.to_nat n) (drop (Z.to_nat o) (data_record c)))).
Proof.
  intros Hc Ho Hn Hon. pose proof (zlen_data_record c ltac:(lia)). unfold word, mem_read. fold (zlen (data_record c)).
  destruct (Z.leb_spec 0 o), (Z.leb_spec 0 n), (Z.leb_spec (o + n) (zlen (data_record c))); try lia. done.
Qed.

Lemma data_record_event c : 1 <= zlen c <= 256 -> data_event c (data_record c).
Proof.
  intros Hc. pose proof (zlen_data_record c ltac:(lia)) as Hl. unfold data_event. split_and!; try lia.
  - unfold event_type. rewrite record_word by lia. reflexivity.
  - rewrite record_word by lia. f_equal. change (le_decode (le_encode 8 (zlen c)) = zlen c).
    rewrite le_roundtrip. apply Z.mod_small. cbn. lia.
  - change max_length with 16392. lia.
  - change (drop 20 (data_record c)) with (c ++ replicate (Z.to_nat ((8 - (4 + 8 + zlen c) mod 8) mod 8)) 0). apply take_app_length.
Qed.

Lemma demo_emits (r : list_ring) av fr c : ring_holds r av fr -> 1 <= zlen c <= 256 ->
  exists e, data_event c e /\ ring_holds (demo_emit r c) (av ++ [e]) fr.
Proof.
  intros [-> Hf] Hc. exists (data_record c). split; [by apply data_record_event|]. split; [done|].
  pose proof (zlen_data_record c ltac:(lia)). apply Forall_app in Hf as [Ha Hb]. rewrite <- app_assoc. apply Forall_app. split; [done|].
  cbn [app]. constructor; [lia|done].
Qed.

Lemma detect_http_methods_witness : detect_http demo_text = TPD_SUCCESS <-> exists m, m ∈ methods /\ m ++ [32] `prefix_of` demo_text.
Proof. apply detect_http_methods. bytes. Defined.

(** The socket of [demo_open], the collector without handlers, and an empty ring. *)
Lemma http_reported_end_to_end_witness :
  exists s1 d1 s2 d2,
    system_call ProbeUdpDemo.demo_clock 0 (fun l => l) 400000 1 2 ProbeUdpDemo.demo_ctx demo_emit 0 (Z.to_nat 16384) ST_SEND demo_sk
      (buffer demo_text) (buffer demo_text) 400 18 demo_open (demo_data []) = Ok (s1, d1, []) /\
    system_call ProbeUdpDemo.demo_clock 0 (fun l => l) 400000 1 2 ProbeUdpDemo.demo_ctx demo_emit 0 (Z.to_nat 16384) ST_RECV demo_sk
      (buffer demo_response) (buffer demo_response) 400 17 s1 d1 = Ok (s2, d2, [http_response 1000 77 1 200 1000 0]).
Proof.
  destruct (http_reported_end_to_end ProbeUdpDemo.demo_clock 0 (fun l => l) 400000 1 2 ProbeUdpDemo.demo_ctx eq_refl demo_emit demo_emits 0
    (Z.to_nat 16384) demo_open (demo_data []) ([], []) [] demo_sk demo_conn demo_value (buffer demo_text) (buffer demo_text) 400 demo_text
    (buffer demo_response) (buffer demo_response) 400 demo_response 200) as (s1 & d1 & s2 & d2 & c2 & v2 & E1 & E2 & _);
    [split_and!; by vm_compute|done|done|split_and!; by vm_compute|split_and!; by vm_compute|by apply demo_free|by apply demo_free
    |by apply demo_buffer|by apply demo_buffer|bytes|exists [71; 69; 84]; split; [by left|by eexists]|by vm_compute|by vm_compute|done
    |apply demo_data_inv|by vm_compute|done|split; [done|constructor]|unfold DATA_CHANNEL_CHUNK_MAX; lia|].
  exists s1, d1, s2, d2. split; [exact E1|]. vm_compute in E1. injection E1 as <- <-. exact E2.
Defined.
End DataSystemDemo.
