(* ===== verification/RpcQueue.v ===== *)
(** The queues between the cores of the reducer: the class of operations a core uses of a
    queue, with the promises they keep, and its implementation by util/element_queue.c
    ([ElementQueue]) with the writer of util/element_queue_writer.cc. *)
From S2P Require Import Prelude ElementQueue.

(** * The interface

    [rq_holds q avail pub]: the reader sees the elements [avail], and [pub] follow them,
    which it will see in its next batch. *)

Class RpcQueue (Q : Type) := {
  rq_start_read_batch : Q -> Q;
  rq_finish_read_batch : Q -> Q;
  rq_peek : Q -> option Z;
  rq_peek_value : Q -> option (Z * Z);
  rq_read : Q -> option (Z * list Z * Q);
  rq_send : Q -> list Z -> option (Z * Q);
  rq_holds : Q -> list (list Z) -> list (list Z) -> Prop;
}.

(** The result of [peek_value(u64 &)] on an element. *)
Definition value_of (e : list Z) : Z * Z := if zlen e <? 8 then (- EINVAL, 0) else (zlen e, le_decode (take 8 e)).

Class RpcQueueLaws (Q : Type) `{RpcQueue Q} := {
  rq_start_spec q avail pub : rq_holds q avail pub -> rq_holds (rq_start_read_batch q) (avail ++ pub) [];
  rq_finish_spec q avail pub : rq_holds q avail pub -> rq_holds (rq_finish_read_batch q) avail pub;
  rq_peek_nil q pub : rq_holds q [] pub -> rq_peek q = Some (- ENOENT);
  rq_peek_cons q e avail pub : rq_holds q (e :: avail) pub -> rq_peek q = Some (zlen e);
  rq_value_cons q e avail pub : rq_holds q (e :: avail) pub -> rq_peek_value q = Some (value_of e);
  rq_read_cons q e avail pub : rq_holds q (e :: avail) pub ->
    exists q', rq_read q = Some (zlen e, e, q') /\ rq_holds q' avail pub;
  rq_send_spec q e avail pub : rq_holds q avail pub -> zlen e < 2 ^ 32 - 7 ->
    exists code q', rq_send q e = Some (code, q') /\
      (code = 0 /\ rq_holds q' avail (pub ++ [e]) \/ code < 0 /\ rq_holds q' avail pub);
}.

(** * The implementation *)

Module ElementQueueWriter.
Import ElementQueue.

(** [ElementQueue::peek_value(u64 &)]: the result and the value. *)
Definition peek_value (q : element_queue) (st : storage) : option (Z * Z) :=
  '(offset, olen) ← eq_peek_offset q st;
  if offset <? 0 then Some (offset, 0)
  else if default 0 olen <? 8 then Some (- EINVAL, 0)
  else bs ← mem_read (data st) offset 8; Some (s32 (default 0 olen), le_decode bs).

(** [ElementQueue::read(char *&)]: the result, the bytes that are pointed to, and the
    reader. *)
Definition read_pointer (q : element_queue) (st : storage) : option (Z * list Z * element_queue) :=
  '(offset, olen, q') ← eq_read_nn q st;
  if offset <? 0 then Some (offset, [], q')
  else
    let len := default 0 olen in
    if negb (u32 (s32 len) =? len) then None
    else bs ← mem_read (data st) offset len; Some (s32 len, bs, q').

(** One turn of the loop of [start_write], and on success the copy of the element by the
    caller and [finish_write].  After [- ENOSPC] the writer sleeps and takes another turn;
    another error is returned, with the batch left open. *)
Definition start_write (w : element_queue) (st : storage) (elem : list Z) : option (Z * element_queue * storage) :=
  let w := eq_start_write_batch w st in
  '(code, w, st) ← write w st elem;
  if code =? - ENOSPC then Some (code, w, eq_finish_write_batch w st)
  else if code <? 0 then Some (code, w, st)
  else Some (code, w, eq_finish_write_batch w st).

#[export] Instance element_rpc_queue (ne sz : Z) : RpcQueue sys := {|
  rq_start_read_batch s := mk_sys (sw s) (eq_start_read_batch (sr s) (sst s)) (sst s);
  rq_finish_read_batch s := mk_sys (sw s) (sr s) (eq_finish_read_batch (sr s) (sst s));
  rq_peek s := eq_peek (sr s) (sst s);
  rq_peek_value s := peek_value (sr s) (sst s);
  rq_read s := '(code, bs, r) ← read_pointer (sr s) (sst s); Some (code, bs, mk_sys (sw s) r (sst s));
  rq_send s e := '(code, w, st) ← start_write (sw s) (sst s) e; Some (code, mk_sys w (sr s) st);
  rq_holds s avail pub := exists f eh bh,
    eq_rep ne sz (sw s) (sr s) (sst s) f eh bh /\ s_avail f = avail /\ s_pub f = pub /\ s_pend f = [];
|}.

Lemma mem_read_shorter {A} (l : list A) off n k bs :
  mem_read l off n = Some bs -> 0 <= k <= n -> mem_read l off k = Some (take (Z.to_nat k) bs).
Proof.
  unfold mem_read. intros E Hk.
  destruct (Z.leb_spec 0 off), (Z.leb_spec 0 n), (Z.leb_spec (off + n) (Z.of_nat (length l))); try done. injection E as <-.
  destruct (Z.leb_spec 0 k); [|lia]. destruct (Z.leb_spec (off + k) (Z.of_nat (length l))); [|lia].
  cbn. by rewrite take_take, Nat.min_l by lia.
Qed.

Section laws.
Context {ne sz : Z} {w r : element_queue} {st : storage} {f : fifo} {eh bh : Z}.
Context (Hrep : eq_rep ne sz w r st f eh bh).

Lemma peek_value_refines e rest : s_avail f = e :: rest -> peek_value r st = Some (value_of e).
Proof using Hrep.
  intros Hav. unfold peek_value, eq_peek_offset, value_of.
  destruct (Z.eqb_spec (elem_tail r) (elem_head r)) as [Heq|_].
  { apply (read_empty Hrep) in Heq. by rewrite Heq in Hav. }
  destruct (read_head Hrep e rest Hav) as (-> & Hoff & Hs & Hp & Hmr). pose proof (zlen_elem_small Hrep e rest Hav).
  pose proof (zlen_nonneg e). simpl. fold (al e). rewrite Hoff, Hs.
  destruct (Z.ltb_spec (place sz (bend sz bh (s_rel f ++ s_done f)) (al e) mod sz) 0); [lia|].
  destruct (Z.ltb_spec (zlen e) 8); [done|].
  rewrite (mem_read_shorter _ _ _ 8 _ Hmr) by lia. simpl. by rewrite s32_small by lia.
Qed.

Lemma read_pointer_refines e rest : s_avail f = e :: rest ->
  exists r', read_pointer r st = Some (zlen e, e, r') /\ eq_rep ne sz w r' st (fifo_read f e rest) eh bh.
Proof using Hrep.
  intros Hav. unfold read_pointer, eq_read_nn. destruct (Z.eqb_spec (elem_tail r) (elem_head r)) as [Heq|_].
  { apply (read_empty Hrep) in Heq. by rewrite Heq in Hav. }
  pose proof (read_rep Hrep e rest Hav) as Hr. pose proof (zlen_elem_small Hrep e rest Hav). pose proof (zlen_nonneg e).
  destruct (read_head Hrep e rest Hav) as (-> & Hoff & Hs & Hp & Hmr). simpl. fold (al e). rewrite Hoff, Hs.
  destruct (Z.ltb_spec (place sz (bend sz bh (s_rel f ++ s_done f)) (al e) mod sz) 0); [lia|].
  rewrite (s32_small (zlen e)), (u32_small (zlen e)), Z.eqb_refl by lia. simpl. rewrite Hmr. simpl.
  eexists. split; [done|]. exact Hr.
Qed.
End laws.

#[export] Instance element_rpc_queue_laws (ne sz : Z) : @RpcQueueLaws sys (element_rpc_queue ne sz).
Proof.
  split; cbn.
  - intros q avail pub (f & eh & bh & Hr & <- & <- & Hp). eexists (fifo_start_read f), eh, bh.
    split; [by apply start_read_rep|done].
  - intros q avail pub (f & eh & bh & Hr & <- & <- & Hp). eexists (fifo_finish_read f), eh, bh.
    split; [by apply finish_read_rep|done].
  - intros q pub (f & eh & bh & Hr & Ha & _). destruct (peek_refines Hr) as [_ ->]. by rewrite Ha.
  - intros q e avail pub (f & eh & bh & Hr & Ha & _). destruct (peek_refines Hr) as [_ ->]. by rewrite Ha.
  - intros q e avail pub (f & eh & bh & Hr & Ha & _). by eapply peek_value_refines.
  - intros q e avail pub (f & eh & bh & Hr & Ha & Hb & Hp). destruct (read_pointer_refines Hr e avail Ha) as (r' & -> & Hr').
    cbn. eexists. split; [done|]. by exists (fifo_read f e avail), eh, bh.
  - intros q e avail pub (f & eh & bh & Hr & Ha & Hb & Hp) He. unfold start_write.
    pose proof (start_write_rep Hr) as Hs. destruct (write_refines Hs e He) as (code & w' & st' & -> & Hc). cbn.
    destruct Hc as [(-> & _ & _ & Hw)|[(-> & _ & -> & ->)|(-> & _ & _ & -> & ->)]]; cbn.
    + eexists _, _. split; [done|]. left. split; [done|]. eexists _, _, _. split; [exact (finish_write_rep Hw)|].
      cbn. by rewrite Hp, Hb.
    + eexists _, _. split; [done|]. right. split; [done|]. eexists _, _, _. split; [exact Hs|done].
    + eexists _, _. split; [done|]. right. split; [done|]. eexists _, _, _. split; [exact (finish_write_rep Hs)|].
      cbn. by rewrite Hp, app_nil_r.
Qed.
End ElementQueueWriter.
