(* ===== verification/ReducerCore.v ===== *)
(** The cores of the reducer: reducer/util/virtual_clock.{h,cc}, the clock that several
    inputs drive, and the loop of reducer/core.cc that reads the messages of the clients
    of a core ([RpcQueue]) in the order of their timeslots. *)
From S2P Require Import Prelude ElementQueue MetricStore PollerBase RpcQueue.
Local Open Scope result_scope.

(** The conversion to [s16]. *)
Definition s16 (x : Z) : Z := (x + 2 ^ 15) mod 2 ^ 16 - 2 ^ 15.

Module VirtualClock.

Definition EPERM : Z := 1.

(** A timeslot is a [u16], a difference of timeslots an [s16]. *)
Record VirtualClock := mk_clock {
  inputs_ : list (option Z);
  divider_ : FastDiv.fast_div;
  current_timeslot_ : option Z;
}.

Definition VirtualClock_new (divider : FastDiv.fast_div) : VirtualClock := mk_clock [] divider None.

Definition add_inputs (n : nat) (c : VirtualClock) : VirtualClock :=
  mk_clock (inputs_ c ++ replicate n None) (divider_ c) (current_timeslot_ c).

Definition n_inputs (c : VirtualClock) : Z := zlen (inputs_ c).

(** [inputs_.at(i)]. *)
Definition at_ {A} (l : list A) (i : nat) : result A := match l !! i with Some x => Ok x | None => Throw out_of_range end.

Definition is_current (c : VirtualClock) (input_index : nat) : result bool :=
  match current_timeslot_ c with
  | None => Ok false
  | Some _ => let* input := at_ (inputs_ c) input_index in Ok (bool_decide (input = current_timeslot_ c))
  end.

Definition can_update (c : VirtualClock) (input_index : nat) : result bool :=
  let* input := at_ (inputs_ c) input_index in Ok (bool_decide (input = current_timeslot_ c)).

Definition set_input (c : VirtualClock) (input_index : nat) (t : Z) : VirtualClock :=
  mk_clock (<[input_index := Some t]> (inputs_ c)) (divider_ c) (current_timeslot_ c).

(** The result and the clock. *)
Definition update (c : VirtualClock) (input_index : nat) (timestamp : Z) : result (Z * VirtualClock) :=
  let* input := at_ (inputs_ c) input_index in
  if negb (bool_decide (input = current_timeslot_ c)) then Ok (- EPERM, c)
  else
    let timeslot := u16 (FastDiv.div timestamp (divider_ c)) in
    match input with
    | Some t =>
      let timeslot_diff := s16 (s16 timeslot - t) in
      if 0 <=? timeslot_diff then Ok (0, set_input c input_index (u16 (t + timeslot_diff))) else Ok (- EINVAL, c)
    | None => Ok (0, set_input c input_index timeslot)
    end.

(** [min = min ? std::min( *min, x) : x]. *)
Definition min_with (min : option Z) (x : Z) : option Z := Some (match min with Some m => Z.min m x | None => x end).

(** The loops over the inputs; the outer option is the early return of [nullopt]. *)
Fixpoint least_input (inputs : list (option Z)) (min_timeslot : option Z) : option (option Z) :=
  match inputs with
  | [] => Some min_timeslot
  | None :: _ => None
  | Some t :: inputs => least_input inputs (min_with min_timeslot t)
  end.

Fixpoint least_difference (inputs : list (option Z)) (from : Z) (min_diff : option Z) : option (option Z) :=
  match inputs with
  | [] => Some min_diff
  | None :: _ => None
  | Some t :: inputs => least_difference inputs from (min_with min_diff (s16 (s16 t - from)))
  end.

(** With no inputs the code reads an empty [optional]. *)
Definition earliest_input_timeslot (c : VirtualClock) : result (option Z) :=
  match least_input (inputs_ c) None with
  | None => Ok None
  | Some None => Undef
  | Some (Some min_timeslot) =>
    match least_difference (inputs_ c) min_timeslot None with
    | Some (Some min_diff) => Ok (Some (u16 (min_timeslot + min_diff)))
    | _ => Undef
    end
  end.

Definition min_input_advance (c : VirtualClock) (current_timeslot : Z) : option Z :=
  match least_difference (inputs_ c) current_timeslot None with Some min_advance => min_advance | None => None end.

Definition set_current (c : VirtualClock) (t : option Z) : VirtualClock := mk_clock (inputs_ c) (divider_ c) t.

Definition advance (c : VirtualClock) : result (bool * VirtualClock) :=
  match current_timeslot_ c with
  | Some t =>
    let advance_slots := default 0 (min_input_advance c t) in
    if 0 <? advance_slots then Ok (true, set_current c (Some (u16 (t + advance_slots)))) else Ok (false, c)
  | None => let* t := earliest_input_timeslot c in Ok (false, set_current c t)
  end.

(** ** Timeslots without wrap-around *)

Section timeslots.
Context (d : FastDiv.fast_div).

(** The timeslot of a timestamp, of which the clock keeps the last 16 bits. *)
Definition slot (timestamp : Z) : Z := timestamp * FastDiv.mul d / 2 ^ FastDiv.shift d.

(** How far the clock looks ahead. *)
Definition window : Z := 2 ^ 15.

Lemma slot_u16 timestamp : 0 <= FastDiv.shift d <= 48 -> u16 (FastDiv.div timestamp d) = u16 (slot timestamp).
Proof.
  intros Hs. unfold slot, FastDiv.div, u16, u32, u64. rewrite Z.shiftr_div_pow2 by lia.
  set (y := timestamp * FastDiv.mul d). set (s := FastDiv.shift d) in *.
  rewrite mod_pow2_mod by lia.
  replace (2 ^ 64) with (2 ^ s * 2 ^ (64 - s)) by (rewrite <- Z.pow_add_r by lia; f_equal; lia).
  pose proof (pow2_pos s ltac:(lia)). pose proof (pow2_pos (64 - s) ltac:(lia)).
  rewrite Z.rem_mul_r by lia. rewrite Z.mul_comm, Z.div_add by lia.
  rewrite Z.div_small by (apply Z.mod_pos_bound; lia). rewrite Z.add_0_l. apply mod_pow2_mod. lia.
Qed.
End timeslots.

Lemma s16_diff a b : - 2 ^ 15 <= a - b < 2 ^ 15 -> s16 (s16 (u16 a) - u16 b) = a - b.
Proof.
  intros H. unfold s16, u16.
  replace ((a mod 2 ^ 16 + 2 ^ 15) mod 2 ^ 16 - 2 ^ 15 - b mod 2 ^ 16 + 2 ^ 15)
    with ((a mod 2 ^ 16 + 2 ^ 15) mod 2 ^ 16 - b mod 2 ^ 16) by lia.
  rewrite <- Zminus_mod. replace (a mod 2 ^ 16 + 2 ^ 15 - b) with (a mod 2 ^ 16 + (2 ^ 15 - b)) by lia.
  rewrite Zplus_mod_idemp_l, Z.mod_small by lia. lia.
Qed.

Lemma u16_eq a b : Z.abs (a - b) < 2 ^ 16 -> u16 a = u16 b -> a = b.
Proof. unfold u16. intros H E. pose proof (Z.mod_eq a (2 ^ 16)). pose proof (Z.mod_eq b (2 ^ 16)). nia. Qed.

Lemma u16_add a b : u16 (u16 a + b) = u16 (a + b).
Proof. unfold u16. apply Zplus_mod_idemp_l. Qed.

(** The least of [x] and [xs]. *)
Definition least (x : Z) (xs : list Z) : Z := foldr Z.min x xs.

Lemma least_le x xs y : y ∈ x :: xs -> least x xs <= y.
Proof.
  revert y. induction xs as [|z xs IH]; intros y Hy; cbn.
  - apply list_elem_of_singleton in Hy. lia.
  - rewrite !elem_of_cons in Hy. destruct Hy as [->|[->|Hy]]; [|lia|].
    + specialize (IH x ltac:(left)). unfold least in IH. lia.
    + specialize (IH y ltac:(by right)). unfold least in IH. lia.
Qed.

Lemma least_in x xs : least x xs ∈ x :: xs.
Proof.
  induction xs as [|z xs IH]; cbn; [by left|]. fold (least x xs). rewrite !elem_of_cons in *.
  destruct (Z.min_spec z (least x xs)) as [[_ ->]|[_ ->]]; tauto.
Qed.

Lemma least_difference_none xs from min : None ∈ xs -> least_difference xs from min = None.
Proof. revert min. induction xs as [|[t|] xs IH]; intros min H; cbn; [by apply elem_of_nil in H|apply IH; set_solver|done]. Qed.

Lemma least_input_none xs min : None ∈ xs -> least_input xs min = None.
Proof. revert min. induction xs as [|[t|] xs IH]; intros min H; cbn; [by apply elem_of_nil in H|apply IH; set_solver|done]. Qed.

Lemma least_input_some xs m :
  exists y, y ∈ m :: xs /\ least_input ((fun x => Some (u16 x)) <$> xs) (Some (u16 m)) = Some (Some (u16 y)).
Proof.
  revert m. induction xs as [|x xs IH]; intros m; cbn; [exists m; by split; [left|]|]. unfold min_with.
  destruct (Z.min_spec (u16 m) (u16 x)) as [[_ ->]|[_ ->]];
    [destruct (IH m) as (y & Hy & E)|destruct (IH x) as (y & Hy & E)]; exists y; (split; [|done]); set_solver.
Qed.

Lemma least_min m x xs : least (Z.min m x) xs = Z.min x (least m xs).
Proof. induction xs as [|y xs IH]; cbn; [lia|]. unfold least in IH. rewrite IH. lia. Qed.

Lemma least_difference_some xs from m :
  Forall (fun x => - window <= x - from < window) xs ->
  least_difference ((fun x => Some (u16 x)) <$> xs) (u16 from) (Some (m - from)) = Some (Some (least m xs - from)).
Proof.
  revert m. induction xs as [|x xs IH]; intros m H; cbn; [done|]. apply Forall_cons in H as [Hx H].
  rewrite s16_diff by done. unfold min_with. replace (Z.min (m - from) (x - from)) with (Z.min m x - from) by lia.
  rewrite IH by done. by rewrite least_min.
Qed.

Lemma least_difference_first x xs from :
  Forall (fun x => - window <= x - from < window) (x :: xs) ->
  least_difference ((fun x => Some (u16 x)) <$> x :: xs) (u16 from) None = Some (Some (least x xs - from)).
Proof.
  intros [Hx H]%Forall_cons. cbn. rewrite s16_diff by done. unfold min_with. by apply least_difference_some.
Qed.

(** ** The operations on timeslots *)

Section operations.
Context (c : VirtualClock) (T : option Z).
Hypothesis Hcurrent : current_timeslot_ c = u16 <$> T.

Lemma advance_some t x xs :
  T = Some t -> inputs_ c = (fun x => Some (u16 x)) <$> x :: xs -> Forall (fun y => t <= y < t + window) (x :: xs) ->
  advance c = Ok (bool_decide (t < least x xs), set_current c (Some (u16 (least x xs)))).
Proof using Hcurrent.
  intros -> Hi Hw. unfold advance, min_input_advance. rewrite Hcurrent, Hi. cbn [fmap option_fmap option_map].
  rewrite least_difference_first by (eapply Forall_impl; [exact Hw|]; unfold window; cbn; lia). cbn [default from_option id].
  assert (Hl : t <= least x xs).
  { rewrite Forall_forall in Hw. apply Hw, least_in. }
  destruct (Z.ltb_spec 0 (least x xs - t)).
  - rewrite bool_decide_true by lia. do 3 f_equal. f_equal. rewrite u16_add. f_equal. lia.
  - rewrite bool_decide_false by lia. replace (least x xs) with t by lia. do 2 f_equal. destruct c; cbn in *. by rewrite Hcurrent.
Qed.

Lemma advance_waits : T = None -> None ∈ inputs_ c -> advance c = Ok (false, c).
Proof using Hcurrent.
  intros -> Hi. unfold advance, earliest_input_timeslot. rewrite Hcurrent. cbn. rewrite least_input_none by done. cbn.
  do 2 f_equal. destruct c; cbn in *. by rewrite Hcurrent.
Qed.

Lemma advance_first x xs :
  T = None -> inputs_ c = (fun x => Some (u16 x)) <$> x :: xs ->
  (forall y z, y ∈ x :: xs -> z ∈ x :: xs -> y - z < window) ->
  advance c = Ok (false, set_current c (Some (u16 (least x xs)))).
Proof using Hcurrent.
  intros -> Hi Hw. unfold advance, earliest_input_timeslot. rewrite Hcurrent, Hi. change (u16 <$> None) with (@None Z). cbv iota.
  assert (Hn : exists y, y ∈ x :: xs /\ least_input ((fun x => Some (u16 x)) <$> x :: xs) None = Some (Some (u16 y))).
  { apply least_input_some. }
  destruct Hn as (y & Hy & ->). rewrite least_difference_first.
  - cbn. do 3 f_equal. f_equal. rewrite u16_add. f_equal. lia.
  - apply Forall_forall. intros z Hz. pose proof (Hw y z Hy Hz). pose proof (Hw z y Hz Hy). unfold window in *. lia.
Qed.

Lemma update_ok d i timestamp :
  divider_ c = d -> 0 <= FastDiv.shift d <= 48 -> inputs_ c !! i = Some (u16 <$> T) ->
  (forall t, T = Some t -> t <= slot d timestamp < t + window) ->
  update c i timestamp = Ok (0, set_input c i (u16 (slot d timestamp))).
Proof using Hcurrent.
  intros Hd Hs Hi Hw. unfold update, at_. rewrite Hi. cbn [rbind]. rewrite Hcurrent, bool_decide_true by done. cbn [negb].
  rewrite Hd, slot_u16 by done. destruct T as [t|]; cbn; [|done]. specialize (Hw t eq_refl).
  rewrite s16_diff by (unfold window in Hw; lia). destruct (Z.leb_spec 0 (slot d timestamp - t)); [|lia].
  rewrite u16_add. do 4 f_equal. lia.
Qed.
End operations.
End VirtualClock.

Module ReducerCore.
Import VirtualClock.

(** What a core does, and what its clients do. *)
Inductive event :=
  | Sent (client : nat) (msg : list Z)                        (* a client has written a message *)
  | Handled (client : nat) (current_timestamp : Z) (msg : list Z)   (* handler->handle *)
  | TimeslotComplete.                                         (* on_timeslot_complete *)

(** [RPC_HANDLE_TIME] in nanoseconds, and [kMaxRpcBatchPerQueue]. *)
Definition RPC_HANDLE_TIME : Z := 20 * 10 ^ 6.
Definition kMaxRpcBatchPerQueue : nat := Z.to_nat (10 * 1000).

Section core.
Context {Q : Type} `{RpcQueue Q}.
(** [monotonic()], by the number of calls before. *)
Context (monotonic : nat -> Z).

Record Core := mk_core {
  rpc_clients_ : list Q;
  virtual_clock_ : VirtualClock;
  current_timestamp_ : Z;
  next_rpc_client_ : nat;
  calls : nat;
}.

Definition set_queue (c : Core) (i : nat) (q : Q) : Core :=
  mk_core (<[i := q]> (rpc_clients_ c)) (virtual_clock_ c) (current_timestamp_ c) (next_rpc_client_ c) (calls c).
Definition set_clock (c : Core) (k : VirtualClock) : Core :=
  mk_core (rpc_clients_ c) k (current_timestamp_ c) (next_rpc_client_ c) (calls c).
Definition set_timestamp (c : Core) (t : Z) : Core :=
  mk_core (rpc_clients_ c) (virtual_clock_ c) t (next_rpc_client_ c) (calls c).
Definition set_next (c : Core) (n : nat) : Core :=
  mk_core (rpc_clients_ c) (virtual_clock_ c) (current_timestamp_ c) n (calls c).
Definition time_now (c : Core) : Z * Core :=
  (monotonic (calls c), mk_core (rpc_clients_ c) (virtual_clock_ c) (current_timestamp_ c) (next_rpc_client_ c) (S (calls c))).

(** The body of the inner loop from the decoded timestamp on: whether the message was
    handled. *)
Definition handle_message (c : Core) (idx : nat) (q : Q) (msg_timestamp : Z) : result (Core * bool * list event) :=
  let* (r, clock) := update (virtual_clock_ c) idx msg_timestamp in
  if r <? 0 then Throw (if r =? - EINVAL then out_of_order else unexpected_error)
  else
    let c := set_clock c clock in
    let* current := is_current clock idx in
    if current then
      let c := set_timestamp c (Z.max (current_timestamp_ c) msg_timestamp) in
      let* (_, msg, q) := get (rq_read q) in
      Ok (set_queue c idx q, true, [Handled idx (current_timestamp_ c) msg])
    else Ok (c, false, []).

(** The loop over the messages of a client; [n] is what is left of the batch. *)
Fixpoint handle_batch (n : nat) (idx : nat) (timeout_ns : Z) (c : Core) (any_handled timed_out : bool)
    : result (Core * bool * bool * list event) :=
  match n with
  | O => Ok (c, any_handled, timed_out, [])
  | S n =>
    let* can := can_update (virtual_clock_ c) idx in
    let* q := get (rpc_clients_ c !! idx) in
    let* len := if can then get (rq_peek q) else Ok 0 in
    if negb (can && (0 <? len) && negb timed_out) then Ok (c, any_handled, timed_out, [])
    else
      let* (r, msg_timestamp) := get (rq_peek_value q) in
      if r <? 0 then
        let* (_, _, q) := get (rq_read q) in
        handle_batch n idx timeout_ns (set_queue c idx q) any_handled timed_out
      else
        let* (c, handled, out) := handle_message c idx q msg_timestamp in
        let '(now, c) := time_now c in
        let* (c, any_handled, timed_out, rest) :=
          handle_batch n idx timeout_ns c (any_handled || handled) (timeout_ns <=? now) in
        Ok (c, any_handled, timed_out, out ++ rest)
  end.

(** The loop over the clients, from the next in line on. *)
Fixpoint handle_clients (k : nat) (timeout_ns : Z) (c : Core) (any_handled timed_out : bool)
    : result (Core * bool * list event) :=
  match k with
  | O => Ok (c, any_handled, [])
  | S k =>
    if timed_out then Ok (c, any_handled, [])
    else
      let idx := next_rpc_client_ c in
      let c := set_next c (S idx mod length (rpc_clients_ c)) in
      let* can := can_update (virtual_clock_ c) idx in
      if negb can then handle_clients k timeout_ns c any_handled timed_out
      else
        let* q := get (rpc_clients_ c !! idx) in
        let* (c, any_handled, timed_out, out) :=
          handle_batch kMaxRpcBatchPerQueue idx timeout_ns (set_queue c idx (rq_start_read_batch q)) any_handled timed_out in
        let* q := get (rpc_clients_ c !! idx) in
        let* (c, any_handled, rest) :=
          handle_clients k timeout_ns (set_queue c idx (rq_finish_read_batch q)) any_handled timed_out in
        Ok (c, any_handled, out ++ rest)
  end.

Definition handle_rpc (c : Core) : result (Core * bool * list event) :=
  let '(now, c) := time_now c in
  let timeout_ns := u64 (now + RPC_HANDLE_TIME) in
  let* (c, any_handled, out) := handle_clients (length (rpc_clients_ c)) timeout_ns c false false in
  let* (advanced, clock) := advance (virtual_clock_ c) in
  Ok (set_clock c clock, any_handled, out ++ if advanced then [TimeslotComplete] else []).

(** ** Histories *)

Fixpoint sent (i : nat) (tr : list event) : list (list Z) :=
  match tr with
  | [] => []
  | Sent j msg :: tr => if decide (j = i) then msg :: sent i tr else sent i tr
  | _ :: tr => sent i tr
  end.

Fixpoint handled (i : nat) (tr : list event) : list (list Z) :=
  match tr with
  | [] => []
  | Handled j _ msg :: tr => if decide (j = i) then msg :: handled i tr else handled i tr
  | _ :: tr => handled i tr
  end.

Context (d : FastDiv.fast_div).

(** A message begins with its timestamp. *)
Definition timestamp_of (msg : list Z) : Z := le_decode (take 8 msg).
Definition slot_of (msg : list Z) : Z := slot d (timestamp_of msg).

(** What a client may send after [tr]: a message of the timeslot of its last one or of
    one that is less than 2^15 later; the first messages of the clients are less than
    2^15 timeslots apart. *)
Definition in_time (tr : list event) (i : nat) (msg : list Z) : Prop :=
  8 <= zlen msg < 2 ^ 32 - 7 /\
  match last (sent i tr) with
  | Some prev => slot_of prev <= slot_of msg < slot_of prev + window
  | None => forall j first, head (sent j tr) = Some first -> Z.abs (slot_of msg - slot_of first) < window
  end.

(** The histories of a core with [n] clients: the clients write, and the core calls
    [handle_rpc].  A write during a call counts as one before or after it: a call starts
    one batch of each queue, and what is written after that is not seen in the call. *)
Inductive reachable (initial_timestamp : Z) : Core -> list event -> Prop :=
  | reach_new qs : qs <> [] -> Forall (fun q => rq_holds q [] []) qs ->
    reachable initial_timestamp
      (mk_core qs (add_inputs (length qs) (VirtualClock_new d)) initial_timestamp 0 0) []
  | reach_send c tr i q msg code q' : reachable initial_timestamp c tr -> rpc_clients_ c !! i = Some q ->
    in_time tr i msg -> rq_send q msg = Some (code, q') ->
    reachable initial_timestamp (set_queue c i q') (tr ++ if code =? 0 then [Sent i msg] else [])
  | reach_rpc c tr c' any out : reachable initial_timestamp c tr -> handle_rpc c = Ok (c', any, out) ->
    reachable initial_timestamp c' (tr ++ out).

(** ** Steady streams *)

Context {L : RpcQueueLaws Q}.
Hypothesis Hshift : 0 <= FastDiv.shift d <= 48.

Definition follows (a b : list Z) : Prop := slot_of a <= slot_of b < slot_of a + window.

Fixpoint steady (l : list (list Z)) : Prop :=
  match l with
  | a :: (b :: _) as l' => follows a b /\ steady l'
  | _ => True
  end.

Lemma steady_snoc l e : steady l -> (forall p, last l = Some p -> follows p e) -> steady (l ++ [e]).
Proof.
  induction l as [|a [|b l] IH]; intros Hl He; [done|split; [by apply He|done]|]. destruct Hl as [Hab Hl].
  split; [done|]. apply IH; [done|]. intros p Hp. by apply He.
Qed.

Lemma steady_meet h a b r : steady (h ++ b :: r) -> last h = Some a -> follows a b.
Proof.
  induction h as [|x [|y h] IH]; intros Hs Hl; [done| |].
  - injection Hl as ->. by destruct Hs.
  - apply IH; [by destruct Hs|done].
Qed.

Lemma steady_tail a l : steady (a :: l) -> steady l.
Proof. destruct l; [done|]. by intros [_ ?]. Qed.

Lemma steady_le a l : steady (a :: l) -> Forall (fun b => slot_of a <= slot_of b) l.
Proof.
  revert a. induction l as [|b l IH]; intros a Hs; [constructor|]. destruct Hs as [Hab Hs]. unfold follows in Hab.
  constructor; [lia|]. eapply Forall_impl; [by apply IH|]. cbn. lia.
Qed.

Lemma steady_app_r h l : steady (h ++ l) -> steady l.
Proof. induction h as [|a h IH]; [done|]. intros Hs. by apply IH, (steady_tail a). Qed.

Lemma steady_before h b r : steady (h ++ b :: r) -> Forall (fun a => slot_of a <= slot_of b) h.
Proof.
  induction h as [|a h IH]; intros Hs; [constructor|]. cbn in Hs. constructor; [|by apply IH, (steady_tail a)].
  apply steady_le in Hs. rewrite Forall_app, Forall_cons in Hs. tauto.
Qed.

Lemma steady_last l e : steady l -> last l = Some e -> Forall (fun a => slot_of a <= slot_of e) l.
Proof.
  intros Hs He. destruct (last_Some l e) as [[l' ->] _]; [done|]. apply Forall_app. split; [by eapply steady_before|].
  by constructor.
Qed.

Lemma written_app i tr tr' : sent i (tr ++ tr') = sent i tr ++ sent i tr'.
Proof. induction tr as [|[j m|j t m|] tr IH]; cbn; try done. case_decide; cbn; by rewrite IH. Qed.

Lemma handled_app i tr tr' : handled i (tr ++ tr') = handled i tr ++ handled i tr'.
Proof. induction tr as [|[j m|j t m|] tr IH]; cbn; try done. case_decide; cbn; by rewrite IH. Qed.

(** ** What a history tells, at the timeslot [T] of the clock *)

Record chronicle (n : nat) (tr : list event) (T : option Z) (now : Z) : Prop := {
  chr_complete tr1 tr2 : tr = tr1 ++ TimeslotComplete :: tr2 -> exists t t', T = Some t' /\ t < t' /\ forall i,
    ((i < n)%nat -> exists p, last (sent i tr) = Some p /\ t < slot_of p) /\
    handled i tr1 = filter (fun e => slot_of e <= t) (sent i tr) /\ Forall (fun e => t < slot_of e) (handled i tr2);
  chr_same tr1 i s e mid : tr = tr1 ++ Handled i s e :: mid -> TimeslotComplete ∉ mid -> T = Some (slot_of e);
  chr_pair tr1 i s e mid j s' e' tr2 : tr = (tr1 ++ Handled i s e :: mid) ++ Handled j s' e' :: tr2 ->
    TimeslotComplete ∉ mid -> slot_of e = slot_of e';
  chr_past i e : e ∈ handled i tr -> exists t, T = Some t /\ slot_of e <= t;
  chr_time tr1 i s e tr2 : tr = tr1 ++ Handled i s e :: tr2 -> timestamp_of e <= s <= now /\
    forall j s' e', Handled j s' e' ∈ tr1 -> s' <= s;
}.

Lemma snoc_split {A} (tr tr1 tr2 : list A) x y :
  tr ++ [y] = tr1 ++ x :: tr2 -> tr2 = [] /\ x = y /\ tr1 = tr \/ exists tr2', tr2 = tr2' ++ [y] /\ tr = tr1 ++ x :: tr2'.
Proof.
  intros E. destruct tr2 as [|z tr2 _] using rev_ind.
  - left. apply app_inj_tail in E as [-> ->]. done.
  - right. exists tr2. rewrite app_comm_cons, app_assoc in E. apply app_inj_tail in E as [-> ->]. done.
Qed.

Lemma chronicle_sent n tr T now i e :
  chronicle n tr T now -> (i < n)%nat -> (forall p, last (sent i tr) = Some p -> slot_of p <= slot_of e) ->
  chronicle n (tr ++ [Sent i e]) T now.
Proof.
  intros [Hc Hs Hpair Hp Ht] Hi He. split.
  - intros tr1 tr2 [(_ & [=] & _)|(tr2' & -> & E)]%snoc_split. destruct (Hc tr1 tr2' E) as (t & t' & HT & Hlt & Hall).
    exists t, t'. split_and!; [done|done|]. intros j. destruct (Hall j) as (Hl & Hh & Hf).
    rewrite written_app, handled_app. cbn [sent handled]. rewrite app_nil_r. case_decide as Hij; [subst j|rewrite app_nil_r; done].
    destruct (Hl Hi) as (p & Hlp & Hlt2). specialize (He p Hlp). split_and!; [|rewrite filter_app, Hh|done].
    + intros _. exists e. split; [by rewrite last_snoc|lia].
    + rewrite filter_cons_False by lia. by rewrite app_nil_r.
  - intros tr1 j s e' mid [(_ & [=] & _)|(mid' & -> & E)]%snoc_split Hm. eapply Hs; [exact E|]. intros Hx. apply Hm, elem_of_app. by left.
  - intros tr1 j s e' mid k s' e'' tr2 [(_ & [=] & _)|(tr2' & -> & E)]%snoc_split. by eapply Hpair.
  - intros j e'. rewrite handled_app, app_nil_r. apply Hp.
  - intros tr1 j s e' tr2 [(_ & [=] & _)|(tr2' & -> & E)]%snoc_split. by eapply Ht.
Qed.

Lemma chronicle_handled n tr t now i s e :
  chronicle n tr (Some t) now -> slot_of e = t -> timestamp_of e <= s -> now <= s ->
  chronicle n (tr ++ [Handled i s e]) (Some t) s.
Proof.
  intros [Hc Hs Hpair Hp Ht] He Hts Hnow. split.
  - intros tr1 tr2 [(_ & [=] & _)|(tr2' & -> & E)]%snoc_split. destruct (Hc tr1 tr2' E) as (t1 & t' & [= <-] & Hlt & Hall).
    exists t1, t. split_and!; [done|done|]. intros j. destruct (Hall j) as (Hl & Hh & Hf).
    rewrite written_app, handled_app. cbn [sent handled]. rewrite app_nil_r. split_and!; [done|done|].
    case_decide; [|by rewrite app_nil_r]. apply Forall_app. split; [done|]. constructor; [lia|constructor].
  - intros tr1 j s' e' mid [(_ & [= -> -> ->] & _)|(mid' & -> & E)]%snoc_split Hm; [by rewrite He|].
    eapply Hs; [exact E|]. intros Hx. apply Hm, elem_of_app. by left.
  - intros tr1 j s' e' mid k s'' e'' tr2 [(_ & [= -> -> ->] & E)|(tr2' & -> & E)]%snoc_split Hm; [|by eapply Hpair].
    assert (Hx : Some t = Some (slot_of e')) by (by eapply Hs). injection Hx as <-. done.
  - intros j e'. rewrite handled_app. cbn [handled]. case_decide; [|rewrite app_nil_r; apply Hp].
    rewrite elem_of_app, list_elem_of_singleton. intros [?| ->]; [by eapply Hp|]. exists t. split; [done|lia].
  - intros tr1 j s' e' tr2 [(_ & [= -> -> ->] & ->)|(tr2' & -> & E)]%snoc_split.
    + split; [lia|]. intros j' s'' e'' (tra & trb & E)%list_elem_of_split. destruct (Ht _ _ _ _ _ E). lia.
    + destruct (Ht _ _ _ _ _ E). split; [lia|done].
Qed.

Lemma chronicle_complete n tr t t' now :
  chronicle n tr (Some t) now -> t < t' ->
  (forall i, (i < n)%nat -> exists p, last (sent i tr) = Some p /\ t < slot_of p) ->
  (forall i, handled i tr = filter (fun e => slot_of e <= t) (sent i tr)) ->
  chronicle n (tr ++ [TimeslotComplete]) (Some t') now.
Proof.
  intros [Hc Hs Hpair Hp Ht] Hlt Hl Hh. split.
  - intros tr1 tr2 E. apply snoc_split in E as [(-> & _ & ->)|(tr2' & -> & E)].
    + exists t, t'. split_and!; [done|done|]. intros i. rewrite written_app, app_nil_r. split_and!; [by apply Hl|by apply Hh|constructor].
    + destruct (Hc tr1 tr2' E) as (t1 & t2 & [= <-] & Hlt2 & Hall). exists t1, t'. split_and!; [done|lia|]. intros i.
      rewrite written_app, handled_app, !app_nil_r. apply Hall.
  - intros tr1 i s e mid [(_ & [=] & _)|(mid' & -> & E)]%snoc_split Hm. destruct Hm. apply elem_of_app. right. constructor.
  - intros tr1 j s e' mid k s' e'' tr2 [(_ & [=] & _)|(tr2' & -> & E)]%snoc_split. by eapply Hpair.
  - intros i e. rewrite handled_app, app_nil_r. intros He. destruct (Hp i e He) as (t1 & [= <-] & Hle). exists t'. split; [done|lia].
  - intros tr1 i s e tr2 [(_ & [=] & _)|(tr2' & -> & E)]%snoc_split. by eapply Ht.
Qed.

Lemma chronicle_start n tr t now : chronicle n tr None now -> chronicle n tr (Some t) now.
Proof.
  intros [Hc Hs Hpair Hp Ht]. split; [|..|done].
  - intros tr1 tr2 E. by destruct (Hc tr1 tr2 E) as (? & ? & [=] & _).
  - intros tr1 i s e mid E Hm. by specialize (Hs _ _ _ _ _ E Hm).
  - done.
  - intros i e He. by destruct (Hp i e He) as (? & [=] & _).
Qed.

(** ** The invariant

    [gs] holds for each client the timeslot of its input, without wrap-around, and its
    messages that are not handled. *)

(** The timeslot of the input is that of the last message that was handled or of the next
    one. *)
Definition anchored (T x : option Z) (h pend : list (list Z)) : Prop :=
  match T with
  | None => h = [] /\ forall y, x = Some y -> exists e, head pend = Some e /\ y = slot_of e
  | Some t => exists y, x = Some y /\ t <= y < t + window /\
    ((exists e, head pend = Some e /\ y = slot_of e) \/ y = t /\ exists e, last h = Some e /\ t = slot_of e)
  end.

#[local] Abbreviation client := (option Z * list (list Z))%type.
Definition input_of (g : client) : option Z := u16 <$> g.1.

Definition queue_ok (q : Q) (g : client) : Prop :=
  exists avail pub, rq_holds q avail pub /\ g.2 = avail ++ pub.

Record inv (c : Core) (tr : list event) (T : option Z) (gs : list client) : Prop := {
  inv_queues : Forall2 queue_ok (rpc_clients_ c) gs;
  inv_inputs : inputs_ (virtual_clock_ c) = input_of <$> gs;
  inv_current : current_timeslot_ (virtual_clock_ c) = u16 <$> T;
  inv_divider : divider_ (virtual_clock_ c) = d;
  inv_next : (next_rpc_client_ c < length gs)%nat;
  inv_clients i x pend : gs !! i = Some (x, pend) -> sent i tr = handled i tr ++ pend /\ steady (sent i tr) /\
    Forall (fun e => 8 <= zlen e) pend /\ anchored T x (handled i tr) pend;
  inv_others i : (length gs <= i)%nat -> sent i tr = [] /\ handled i tr = [];
  inv_first i j a b : head (sent i tr) = Some a -> head (sent j tr) = Some b -> Z.abs (slot_of a - slot_of b) < window;
  inv_chronicle : chronicle (length gs) tr T (current_timestamp_ c);
}.

(** [can_update] tells whether the input is at the timeslot of the clock. *)
Lemma can_update_inv c tr T gs i x pend :
  inv c tr T gs -> gs !! i = Some (x, pend) -> can_update (virtual_clock_ c) i = Ok (bool_decide (x = T)).
Proof.
  intros Hi Hg. unfold can_update, at_. rewrite (inv_inputs _ _ _ _ Hi), (inv_current _ _ _ _ Hi), list_lookup_fmap, Hg. cbn [fmap option_fmap option_map rbind fst].
  f_equal. apply bool_decide_ext. destruct (inv_clients _ _ _ _ Hi i x pend Hg) as (_ & _ & _ & Ha).
  split; [|by intros ->]. destruct T as [t|]; cbn in Ha; [|by destruct x].
  destruct Ha as (y & -> & Hy & _). cbn. intros [= E]. f_equal. apply u16_eq; [unfold window in Hy; lia|done].
Qed.

(** The next message of a client that is at the timeslot of the clock. *)
Lemma next_in_window T h e pend : steady (h ++ e :: pend) -> anchored T T h (e :: pend) ->
  forall t, T = Some t -> t <= slot_of e < t + window.
Proof.
  intros Hs Ha t ->. destruct Ha as (y & [= <-] & Hy & [(e' & [= <-] & ->)|(_ & p & Hp & ->)]); [unfold window in *; lia|].
  by apply (steady_meet h p e pend).
Qed.

(** What is left to do: messages to handle, and messages to look at. *)
Definition looked_at (x : option Z) (pend : list (list Z)) : bool :=
  match pend with [] => false | e :: _ => bool_decide (x = Some (slot_of e)) end.
Definition work_of (g : client) : nat := 2 * length g.2 - if looked_at g.1 g.2 then 1 else 0.
Definition work (gs : list client) : nat := sum_list (work_of <$> gs).

Lemma work_insert gs i g g' : gs !! i = Some g -> (work_of g' < work_of g)%nat -> (work (<[i := g']> gs) < work gs)%nat.
Proof.
  intros Hg Hw. unfold work. revert i Hg. induction gs as [|g0 gs IH]; intros [|i] Hg; try done.
  - injection Hg as ->. cbn -[work_of]. lia.
  - apply Nat.add_lt_mono_l, (IH i Hg).
Qed.

(** Looking at the next message of a client sets its input. *)
Lemma look_inv c tr T gs i e pend :
  inv c tr T gs -> gs !! i = Some (T, e :: pend) ->
  inv (set_clock c (set_input (virtual_clock_ c) i (u16 (slot_of e)))) tr T (<[i := (Some (slot_of e), e :: pend)]> gs).
Proof.
  intros Hi Hg. pose proof (inv_clients _ _ _ _ Hi i _ _ Hg) as (Hsent & Hsteady & Hlong & Ha).
  destruct Hi as [Hq Hin Hcur Hdiv Hnext Hcl Hoth Hfirst Hchr]. split; cbn; rewrite ?length_insert; try done.
  - apply Forall2_lookup. intros j. destruct (decide (j = i)) as [->|Hne].
    + rewrite list_lookup_insert_eq by (by eapply lookup_lt_Some). pose proof (Forall2_lookup_r _ _ _ _ _ Hq Hg) as (q & -> & Hok). by constructor.
    + rewrite list_lookup_insert_ne by done. by apply Forall2_lookup.
  - by rewrite Hin, list_fmap_insert.
  - intros j x pend' Hj. destruct (decide (j = i)) as [->|Hne]; [|rewrite list_lookup_insert_ne in Hj by done; by apply Hcl].
    rewrite list_lookup_insert_eq in Hj by (by eapply lookup_lt_Some). injection Hj as <- <-. split_and!; try done.
    rewrite Hsent in Hsteady. pose proof (next_in_window T _ _ _ Hsteady Ha) as Hw.
    destruct T as [t|]; cbn in *.
    + eexists. split; [done|]. split; [by apply Hw|]. left. by eexists.
    + split; [by destruct Ha|]. intros y [= <-]. by eexists.
Qed.

(** Handling it. *)
Lemma handle_inv c tr t gs i e pend q' avail pub :
  inv c tr (Some t) gs -> gs !! i = Some (Some t, e :: pend) -> slot_of e = t -> rq_holds q' avail pub -> pend = avail ++ pub ->
  let now := Z.max (current_timestamp_ c) (timestamp_of e) in
  inv (set_queue (set_timestamp c now) i q') (tr ++ [Handled i now e]) (Some t) (<[i := (Some t, pend)]> gs).
Proof.
  intros Hi Hg He Hq' Hpend now. pose proof (inv_clients _ _ _ _ Hi i _ _ Hg) as (Hsent & Hsteady & Hlong & Ha).
  destruct Hi as [Hq Hin Hcur Hdiv Hnext Hcl Hoth Hfirst Hchr]. split; cbn; rewrite ?length_insert; try done.
  - apply Forall2_insert; [done|]. by exists avail, pub.
  - rewrite Hin, list_fmap_insert. symmetry. apply list_insert_id. by rewrite list_lookup_fmap, Hg.
  - intros j x pend' Hj. rewrite written_app, handled_app. cbn [sent handled]. rewrite app_nil_r.
    destruct (decide (j = i)) as [->|Hne].
    + rewrite list_lookup_insert_eq in Hj by (by eapply lookup_lt_Some). injection Hj as <- <-.
      rewrite decide_True by done. split_and!; [by rewrite <- app_assoc|done|by apply Forall_cons in Hlong as [_ ?]|].
      cbn. exists t. split; [done|]. split; [unfold window; lia|]. right. split; [done|]. exists e. by rewrite last_snoc.
    + rewrite list_lookup_insert_ne in Hj by done. rewrite decide_False, app_nil_r by done. by apply Hcl.
  - intros j Hj. rewrite written_app, handled_app. cbn [sent handled]. rewrite decide_False, !app_nil_r; [by apply Hoth|].
    apply lookup_lt_Some in Hg. lia.
  - intros j k a b. rewrite !written_app. cbn [sent]. rewrite !app_nil_r. apply Hfirst.
  - eapply chronicle_handled; [done|done|lia|lia].
Qed.

Lemma is_current_set k i t x T : current_timeslot_ k = u16 <$> T -> (i < length (inputs_ k))%nat ->
  (forall t, T = Some t -> t <= x < t + window) -> t = u16 x ->
  is_current (set_input k i t) i = Ok (bool_decide (T = Some x)).
Proof.
  intros Hc Hi Hw ->. unfold is_current, at_. cbn. rewrite Hc. destruct T as [t|]; cbn; [|done].
  rewrite list_lookup_insert_eq by done. cbn. f_equal. apply bool_decide_ext. split; [|by intros [= ->]].
  specialize (Hw t eq_refl). unfold window in Hw. intros [= E]. f_equal. apply u16_eq; [lia|done].
Qed.

Lemma message_step c tr T gs i q e avail pub :
  inv c tr T gs -> rpc_clients_ c !! i = Some q -> rq_holds q (e :: avail) pub -> gs !! i = Some (T, e :: avail ++ pub) ->
  exists c' h out g', handle_message c i q (timestamp_of e) = Ok (c', h, out) /\ inv c' (tr ++ out) T (<[i := g']> gs) /\
    (work_of g' < work_of (T, e :: avail ++ pub))%nat /\ next_rpc_client_ c' = next_rpc_client_ c /\ forall j, sent j out = [].
Proof using L Hshift.
  intros Hi Hq Hh Hg. pose proof (inv_clients _ _ _ _ Hi i _ _ Hg) as (Hsent & Hsteady & Hlong & Ha).
  rewrite Hsent in Hsteady. pose proof (next_in_window T _ _ _ Hsteady Ha) as Hw.
  unfold handle_message. rewrite (update_ok (virtual_clock_ c) T (inv_current _ _ _ _ Hi) d i (timestamp_of e));
    [|apply (inv_divider _ _ _ _ Hi)|done|by rewrite (inv_inputs _ _ _ _ Hi), list_lookup_fmap, Hg|exact Hw].
  cbn [rbind Z.ltb Z.compare]. fold (slot_of e).
  rewrite (is_current_set _ i _ (slot_of e) T); [|apply (inv_current _ _ _ _ Hi)| |done|done].
  2: { rewrite (inv_inputs _ _ _ _ Hi), length_fmap. by eapply lookup_lt_Some. }
  cbn [rbind]. pose proof (look_inv c tr T gs i e (avail ++ pub) Hi Hg) as Hl.
  case_bool_decide as HT.
  - subst T. destruct (rq_read_cons q e avail pub Hh) as (q' & -> & Hq'). cbn [get rbind].
    eexists _, _, _, (Some (slot_of e), avail ++ pub). split; [done|]. split; [|split; [|done]].
    + pose proof (handle_inv _ _ _ _ i e (avail ++ pub) q' avail pub Hl) as Hx. cbn zeta in Hx.
      rewrite list_lookup_insert_eq, list_insert_insert_eq in Hx by (by eapply lookup_lt_Some). by apply Hx.
    + unfold work_of. cbn [fst snd looked_at length]. rewrite bool_decide_true by done. lia.
  - eexists _, _, _, (Some (slot_of e), e :: avail ++ pub). split; [done|]. rewrite app_nil_r. split; [done|]. split; [|done].
    unfold work_of. cbn [fst snd looked_at length]. rewrite (bool_decide_true (Some _ = _)), bool_decide_false by done. lia.
Qed.

Lemma inv_same c c' tr T gs : inv c tr T gs -> rpc_clients_ c' = rpc_clients_ c -> virtual_clock_ c' = virtual_clock_ c ->
  current_timestamp_ c' = current_timestamp_ c -> (next_rpc_client_ c' < length gs)%nat -> inv c' tr T gs.
Proof. intros [] E1 E2 E3 Hn. split; rewrite ?E1, ?E2, ?E3; done. Qed.

Lemma inv_queue c tr T gs i x pend : inv c tr T gs -> gs !! i = Some (x, pend) ->
  exists q avail pub, rpc_clients_ c !! i = Some q /\ rq_holds q avail pub /\ pend = avail ++ pub.
Proof.
  intros Hi Hg. destruct (Forall2_lookup_r _ _ _ _ _ (inv_queues _ _ _ _ Hi) Hg) as (q & Hq & avail & pub & Hh & E).
  by exists q, avail, pub.
Qed.

Lemma inv_set_queue c tr T gs i x avail pub q : inv c tr T gs -> gs !! i = Some (x, avail ++ pub) -> rq_holds q avail pub ->
  inv (set_queue c i q) tr T gs.
Proof.
  intros [Hq ? ? ? ? ? ? ? ?] Hg Hh. split; cbn; try done.
  rewrite <- (list_insert_id gs i _ Hg). apply Forall2_insert; [done|]. by exists avail, pub.
Qed.

Lemma batch_step n i timeout_ns : forall c tr T gs any timed q x avail pub,
  inv c tr T gs -> rpc_clients_ c !! i = Some q -> rq_holds q avail pub -> gs !! i = Some (x, avail ++ pub) ->
  exists c' any' timed' out gs', handle_batch n i timeout_ns c any timed = Ok (c', any', timed', out) /\
    inv c' (tr ++ out) T gs' /\ length gs' = length gs /\ next_rpc_client_ c' = next_rpc_client_ c /\ (forall j, sent j out = []) /\
    ((work gs' < work gs)%nat \/ gs' = gs /\ timed' = timed /\ (n = O \/ timed = true \/ x <> T \/ avail = [])).
Proof using L Hshift.
  induction n as [|n IH]; intros c tr T gs any timed q x avail pub Hi Hq Hh Hg.
  { eexists _, _, _, [], gs. split; [done|]. rewrite app_nil_r. split_and!; auto. }
  assert (Hstop : timed = true \/ x <> T \/ avail = [] -> exists c' any' timed' out gs',
    Ok (c, any, timed, []) = Ok (c', any', timed', out) /\ inv c' (tr ++ out) T gs' /\ length gs' = length gs /\
    next_rpc_client_ c' = next_rpc_client_ c /\ (forall j, sent j out = []) /\
    ((work gs' < work gs)%nat \/ gs' = gs /\ timed' = timed /\ (S n = O \/ timed = true \/ x <> T \/ avail = []))).
  { intros Hs. eexists _, _, _, [], gs. split; [done|]. rewrite app_nil_r. split_and!; auto. }
  cbn [handle_batch]. rewrite (can_update_inv c tr T gs i x _ Hi Hg). cbn [rbind]. rewrite Hq. cbn [get rbind].
  case_bool_decide as HT; [|cbn; auto]. subst x.
  destruct avail as [|e avail]; [rewrite (rq_peek_nil q pub Hh); cbn; auto|].
  pose proof (inv_clients _ _ _ _ Hi i _ _ Hg) as (_ & _ & [Hlong _]%Forall_cons & _).
  rewrite (rq_peek_cons q e avail pub Hh). cbn [get rbind]. destruct (Z.ltb_spec 0 (zlen e)); [|lia].
  destruct timed; [cbn; auto|]. cbn [andb negb].
  rewrite (rq_value_cons q e avail pub Hh). unfold value_of. destruct (Z.ltb_spec (zlen e) 8); [lia|]. cbn [get rbind].
  destruct (Z.ltb_spec (zlen e) 0); [lia|]. fold (timestamp_of e).
  destruct (message_step c tr T gs i q e avail pub Hi Hq Hh Hg) as (c1 & h & out1 & g' & -> & Hi1 & Hw1 & Hn1 & Ho1).
  cbn [rbind time_now]. pose proof (work_insert gs i _ g' Hg Hw1) as Hw2.
  assert (Hlt : (i < length gs)%nat) by (by eapply lookup_lt_Some).
  destruct g' as [x' pend']. assert (Hg' : <[i := (x', pend')]> gs !! i = Some (x', pend')) by (by apply list_lookup_insert_eq).
  destruct (inv_queue _ _ _ _ i x' pend' Hi1 Hg') as (q1 & avail1 & pub1 & Hq1 & Hh1 & ->).
  set (gs1 := <[i := (x', avail1 ++ pub1)]> gs) in *.
  edestruct (IH (mk_core (rpc_clients_ c1) (virtual_clock_ c1) (current_timestamp_ c1) (next_rpc_client_ c1) (S (calls c1))) (tr ++ out1) T gs1 (any || h)
    (timeout_ns <=? monotonic (calls c1)) q1 x' avail1 pub1) as (c2 & any2 & timed2 & out2 & gs2 & E2 & Hi2 & Hl2 & Hn2 & Ho2 & Hw3);
    [eapply inv_same; try done; apply (inv_next _ _ _ _ Hi1)|done|done|done|].
  unfold gs1 in Hl2. rewrite length_insert in Hl2. cbn in E2, Hn2. rewrite E2. cbn [rbind].
  eexists _, _, _, _, gs2. split; [done|]. rewrite app_assoc. split; [done|]. split; [done|]. split; [congruence|].
  split; [intros j; by rewrite written_app, Ho1, Ho2|]. left. destruct Hw3 as [Hw3|(-> & _)]; lia.
Qed.

(** Nothing can be read from the clients [k] of those from the next in line on. *)
Definition idle (next k : nat) (T : option Z) (gs : list client) : Prop :=
  forall j pend, (j < k)%nat -> gs !! ((next + j) mod length gs)%nat = Some (T, pend) -> pend = [].

Lemma idle_next next k T gs x pend : (next < length gs)%nat -> gs !! next = Some (x, pend) -> (x = T -> pend = []) ->
  idle (S next mod length gs) k T gs -> idle next (S k) T gs.
Proof.
  intros Hn Hg Hx Hi [|j] pend' Hj Hl.
  - rewrite Nat.add_0_r, Nat.mod_small, Hg in Hl by done. injection Hl as -> ->. by apply Hx.
  - apply (Hi j); [lia|]. by rewrite Nat.Div0.add_mod_idemp_l, Nat.add_succ_comm.
Qed.

Lemma clients_step timeout_ns k : forall c tr T gs any timed,
  inv c tr T gs -> exists c' any' out gs', handle_clients k timeout_ns c any timed = Ok (c', any', out) /\
    inv c' (tr ++ out) T gs' /\ length gs' = length gs /\ (forall j, sent j out = []) /\
    ((work gs' < work gs)%nat \/ gs' = gs /\ (timed = true \/ idle (next_rpc_client_ c) k T gs)).
Proof using L Hshift.
  induction k as [|k IH]; intros c tr T gs any timed Hi.
  { eexists _, _, [], gs. split; [done|]. rewrite app_nil_r. split_and!; auto. right. split; [done|]. right. intros j pend Hj. lia. }
  cbn [handle_clients]. destruct timed.
  { eexists _, _, [], gs. split; [done|]. rewrite app_nil_r. split_and!; auto. }
  pose proof (inv_next _ _ _ _ Hi) as Hn. pose proof (Forall2_length _ _ _ (inv_queues _ _ _ _ Hi)) as Hlen.
  rewrite Hlen. set (idx := next_rpc_client_ c) in *. set (c0 := set_next c (S idx mod length gs)).
  assert (Hi0 : inv c0 tr T gs) by (eapply inv_same; try done; cbn; apply Nat.mod_upper_bound; lia).
  destruct (lookup_lt_is_Some_2 gs idx Hn) as [[x pend] Hg].
  change (virtual_clock_ c0) with (virtual_clock_ c). rewrite (can_update_inv c tr T gs idx x pend Hi Hg). cbn [rbind].
  case_bool_decide as HT; cbn [negb].
  2: { destruct (IH c0 tr T gs any false Hi0) as (c' & any' & out & gs' & -> & Hi' & Hl' & Ho & Hw). eexists _, _, _, gs'. split_and!; try done.
       destruct Hw as [Hw|(-> & [[=]|Hid])]; [by left|]. right. split; [done|]. right. by eapply idle_next. }
  destruct (inv_queue _ _ _ _ idx x pend Hi0 Hg) as (q & avail & pub & Hq & Hh & ->). rewrite Hq. cbn [get rbind].
  pose proof (rq_start_spec q avail pub Hh) as Hs. rewrite <- (app_nil_r (avail ++ pub)) in Hg.
  pose proof (inv_set_queue c0 tr T gs idx x _ [] _ Hi0 Hg Hs) as Hi1.
  destruct (batch_step kMaxRpcBatchPerQueue idx timeout_ns _ tr T gs any false (rq_start_read_batch q) x (avail ++ pub) [] Hi1) as (c2 & any2 & timed2 & out2 & gs2 & -> & Hi2 & Hl2 & Hn2 & Ho2 & Hw2);
    [apply list_lookup_insert_eq; by eapply lookup_lt_Some|done|done|].
  cbn [rbind]. destruct (lookup_lt_is_Some_2 gs2 idx) as [[x2 pend2] Hg2]; [lia|].
  destruct (inv_queue _ _ _ _ idx x2 pend2 Hi2 Hg2) as (q2 & avail2 & pub2 & Hq2 & Hh2 & ->). rewrite Hq2. cbn [get rbind].
  pose proof (inv_set_queue c2 _ T gs2 idx x2 avail2 pub2 _ Hi2 Hg2 (rq_finish_spec q2 avail2 pub2 Hh2)) as Hi3.
  destruct (IH _ _ T gs2 any2 timed2 Hi3) as (c4 & any4 & out4 & gs4 & -> & Hi4 & Hl4 & Ho4 & Hw4). cbn [rbind].
  eexists _, _, _, gs4. split; [done|]. rewrite app_assoc. split; [done|]. split; [congruence|].
  split; [intros j; by rewrite written_app, Ho2, Ho4|].
  destruct Hw2 as [Hw2|(-> & -> & Hstop)]; [left; destruct Hw4 as [Hw4|(-> & _)]; lia|].
  destruct Hw4 as [Hw4|(-> & [[=]|Hid])]; [by left|]. right. split; [done|]. right. cbn in Hid. rewrite Hn2 in Hid. cbn in Hid.
  eapply idle_next; [done|exact Hg| |exact Hid]. intros _. rewrite app_nil_r.
  destruct Hstop as [Hk|[[=]|[Hx| ->]]]; [by vm_compute in Hk|done|done].
Qed.

Lemma idle_all next T gs i pend : (next < length gs)%nat -> idle next (length gs) T gs -> gs !! i = Some (T, pend) -> pend = [].
Proof.
  intros Hn Hi Hg. pose proof (lookup_lt_Some _ _ _ Hg).
  destruct (decide (next <= i)%nat).
  - apply (Hi (i - next)%nat); [lia|]. rewrite Nat.mod_small by lia. by replace (next + (i - next))%nat with i by lia.
  - apply (Hi (i + length gs - next)%nat); [lia|]. replace (next + (i + length gs - next))%nat with (i + 1 * length gs)%nat by lia.
    by rewrite Nat.Div0.mod_add, Nat.mod_small by lia.
Qed.

(** ** The clock moves *)

Lemma inv_move c tr T T' gs l : inv c tr T gs -> (forall i, sent i l = [] /\ handled i l = []) ->
  (forall i x pend, gs !! i = Some (x, pend) -> anchored T' x (handled i tr) pend) ->
  chronicle (length gs) (tr ++ l) T' (current_timestamp_ c) ->
  inv (set_clock c (set_current (virtual_clock_ c) (u16 <$> T'))) (tr ++ l) T' gs.
Proof.
  intros [Hq Hin Hcur Hdiv Hnext Hcl Hoth Hfirst Hchr] Hl Ha Hc.
  assert (Hs : forall i, sent i (tr ++ l) = sent i tr) by (intros i; rewrite written_app; destruct (Hl i) as [-> _]; apply app_nil_r).
  assert (Hh : forall i, handled i (tr ++ l) = handled i tr) by (intros i; rewrite handled_app; destruct (Hl i) as [_ ->]; apply app_nil_r).
  split; cbn; try done.
  - intros i x pend Hg. rewrite Hs, Hh. destruct (Hcl i x pend Hg) as (? & ? & ? & _). split_and!; try done. by apply Ha.
  - intros i Hi. rewrite Hs, Hh. by apply Hoth.
  - intros i j a b. rewrite !Hs. apply Hfirst.
Qed.

Lemma all_some (l : list (option Z)) : None ∉ l -> exists ys, l = Some <$> ys.
Proof.
  induction l as [|[y|] l IH]; intros Hn; [by exists []| |destruct Hn; left].
  destruct IH as [ys ->]; [intros Hx; apply Hn; by right|]. by exists (y :: ys).
Qed.

Lemma inputs_some c tr T gs ys : inv c tr T gs -> fst <$> gs = Some <$> ys ->
  inputs_ (virtual_clock_ c) = (fun x => Some (u16 x)) <$> ys.
Proof.
  intros Hi E. rewrite (inv_inputs _ _ _ _ Hi).
  replace (input_of <$> gs) with ((fun x : option Z => u16 <$> x) <$> (fst <$> gs)) by (by rewrite <- list_fmap_compose).
  rewrite E, <- list_fmap_compose. done.
Qed.

Lemma input_elem (gs : list client) ys y : fst <$> gs = Some <$> ys -> y ∈ ys <-> exists i pend, gs !! i = Some (Some y, pend).
Proof.
  intros E. split.
  - intros [i Hi]%list_elem_of_lookup. assert (Hx : (fst <$> gs) !! i = Some (Some y)) by (by rewrite E, list_lookup_fmap, Hi).
    rewrite list_lookup_fmap in Hx. destruct (gs !! i) as [[x pend]|] eqn:Hg; [|done]. injection Hx as ->. by exists i, pend.
  - intros (i & pend & Hg). assert (Hx : (fst <$> gs) !! i = Some (Some y)) by (by rewrite list_lookup_fmap, Hg).
    rewrite E, list_lookup_fmap in Hx. destruct (ys !! i) as [z|] eqn:Hz; [|done]. injection Hx as ->. by eapply list_elem_of_lookup_2.
Qed.

(** The messages that are handled when all the clients are past the timeslot. *)
Lemma past_handled c tr t gs : inv c tr (Some t) gs ->
  (forall i y pend, gs !! i = Some (Some y, pend) -> t < y) -> forall i,
  ((i < length gs)%nat -> exists p, last (sent i tr) = Some p /\ t < slot_of p) /\
  handled i tr = filter (fun e => slot_of e <= t) (sent i tr).
Proof.
  intros Hi Hall i. destruct (gs !! i) as [[x pend]|] eqn:Hg.
  2: { apply lookup_ge_None in Hg. destruct (inv_others _ _ _ _ Hi i Hg) as [-> ->]. split; [lia|done]. }
  destruct (inv_clients _ _ _ _ Hi i x pend Hg) as (Hs & Hst & _ & y & -> & Hy & Ha). specialize (Hall i y pend Hg).
  destruct Ha as [(e & He & ->)|[-> _]]; [|lia]. destruct pend as [|e' pend]; [done|]. injection He as ->.
  rewrite Hs in *. pose proof (steady_le e pend (steady_app_r _ _ Hst)) as Hle. split.
  - intros _. destruct (last (handled i tr ++ e :: pend)) as [p|] eqn:Hp; [|apply last_None in Hp; by destruct (handled i tr)].
    exists p. split; [done|]. pose proof (steady_last _ p Hst Hp) as Hl. rewrite Forall_app, Forall_cons in Hl. lia.
  - rewrite filter_app, (filter_all _ (handled i tr)), (filter_none _ (e :: pend)); [by rewrite app_nil_r| |].
    + intros a Ha. apply elem_of_cons in Ha as [->|Ha]; [lia|]. rewrite Forall_forall in Hle. specialize (Hle a Ha). lia.
    + intros a Ha. destruct (chr_past _ _ _ _ (inv_chronicle _ _ _ _ Hi) i a Ha) as (t' & [= <-] & Hle'). done.
Qed.

(** A client that the clock waits for, and one that has a message of the timeslot. *)
Definition awaited (T : option Z) (gs : list client) : Prop := exists i pend, gs !! i = Some (T, pend).
Definition due (T : option Z) (gs : list client) : Prop := exists i e pend, gs !! i = Some (T, e :: pend).

Definition completion (advanced : bool) : list event := if advanced then [TimeslotComplete] else [].

Lemma completion_quiet b i : sent i (completion b) = [] /\ handled i (completion b) = [].
Proof. by destruct b. Qed.

Lemma advance_running c tr t gs : inv c tr (Some t) gs -> exists advanced clock T',
  advance (virtual_clock_ c) = Ok (advanced, clock) /\ inv (set_clock c clock) (tr ++ completion advanced) T' gs /\
  (T' = Some t /\ awaited (Some t) gs \/ due T' gs).
Proof.
  intros Hi. destruct (all_some (fst <$> gs)) as [ys Hys].
  { intros [[x pend] [E Hx]]%list_elem_of_fmap. cbn in E. subst x. apply list_elem_of_lookup in Hx as [i Hg].
    by destruct (inv_clients _ _ _ _ Hi i _ _ Hg) as (_ & _ & _ & y & [=] & _). }
  pose proof (inv_next _ _ _ _ Hi) as Hn. assert (Hlen : length ys = length gs) by (by rewrite <- (length_fmap fst gs), Hys, length_fmap).
  destruct ys as [|y ys]; [cbn in Hlen; lia|].
  assert (Hw : forall i z pend, gs !! i = Some (Some z, pend) -> t <= z < t + window).
  { intros i z pend Hg. by destruct (inv_clients _ _ _ _ Hi i _ _ Hg) as (_ & _ & _ & z' & [= <-] & ? & _). }
  rewrite (advance_some _ _ (inv_current _ _ _ _ Hi) t y ys eq_refl (inputs_some c tr _ gs _ Hi Hys)).
  2: { apply Forall_forall. intros z (i & pend & Hg)%(input_elem gs _ z Hys). by eapply Hw. }
  destruct (proj1 (input_elem gs _ (least y ys) Hys) (least_in y ys)) as (i & pend & Hg). pose proof (Hw _ _ _ Hg).
  eexists _, _, (Some (least y ys)). split; [done|].
  case_bool_decide as Hlt.
  - assert (Hall : forall j z p, gs !! j = Some (Some z, p) -> least y ys <= z).
    { intros j z p Hj. apply least_le, (input_elem gs _ z Hys). eauto. }
    assert (Hpast : forall j z p, gs !! j = Some (Some z, p) -> t < z) by (intros j z p Hj; specialize (Hall _ _ _ Hj); lia).
    split.
    + change (Some (u16 (least y ys))) with (u16 <$> Some (least y ys)).
      apply (inv_move c tr (Some t)); [done|apply completion_quiet| |].
      * intros j x p Hj. destruct (inv_clients _ _ _ _ Hi j x p Hj) as (_ & _ & _ & z & -> & Hz & Ha).
        specialize (Hall _ _ _ Hj). specialize (Hpast _ _ _ Hj). destruct Ha as [Ha|[-> _]]; [|lia].
        exists z. split_and!; [done|lia|lia|]. by left.
      * eapply chronicle_complete; [apply (inv_chronicle _ _ _ _ Hi)|done|..]; intros j;
          by destruct (past_handled c tr t gs Hi Hpast j).
    + right. destruct (inv_clients _ _ _ _ Hi i _ _ Hg) as (_ & _ & _ & z & [= <-] & _ & [(e & He & _)|[Hz _]]); [|lia].
      destruct pend as [|e' pend]; [done|]. by exists i, e', pend.
  - replace (least y ys) with t in * by lia. split; [|left; split; [done|]; by exists i, pend].
    change (Some (u16 t)) with (u16 <$> Some t). apply (inv_move c tr (Some t)); [done|apply completion_quiet| |].
    + intros j x p Hj. by destruct (inv_clients _ _ _ _ Hi j x p Hj) as (_ & _ & _ & ?).
    + cbn. rewrite app_nil_r. apply (inv_chronicle _ _ _ _ Hi).
Qed.

Lemma advance_starting c tr gs : inv c tr None gs -> exists clock T',
  advance (virtual_clock_ c) = Ok (false, clock) /\ inv (set_clock c clock) tr T' gs /\
  (T' = None /\ awaited None gs \/ due T' gs).
Proof.
  intros Hi. destruct (decide (None ∈ fst <$> gs)) as [Hno|Hall].
  { apply list_elem_of_fmap in Hno as ([x pend] & E & Hx). cbn in E. subst x. apply list_elem_of_lookup in Hx as [i Hg].
    rewrite (advance_waits _ None); [|apply (inv_current _ _ _ _ Hi)|done|].
    - eexists _, None. split; [done|]. split; [by destruct c|]. left. split; [done|]. by exists i, pend.
    - rewrite (inv_inputs _ _ _ _ Hi). apply list_elem_of_lookup. exists i. by rewrite list_lookup_fmap, Hg. }
  destruct (all_some _ Hall) as [ys Hys].
  pose proof (inv_next _ _ _ _ Hi) as Hn. assert (Hlen : length ys = length gs) by (by rewrite <- (length_fmap fst gs), Hys, length_fmap).
  destruct ys as [|y ys]; [cbn in Hlen; lia|].
  assert (Hhead : forall i z pend, gs !! i = Some (Some z, pend) -> exists e, head pend = Some e /\ z = slot_of e /\ head (sent i tr) = Some e).
  { intros i z pend Hg. destruct (inv_clients _ _ _ _ Hi i _ _ Hg) as (-> & _ & _ & -> & Ha). destruct (Ha z eq_refl) as (e & He & ->).
    by exists e. }
  assert (Hw : forall a b, a ∈ y :: ys -> b ∈ y :: ys -> a - b < window).
  { intros a b (i & p & Hg)%(input_elem gs _ a Hys) (j & p' & Hg')%(input_elem gs _ b Hys).
    destruct (Hhead _ _ _ Hg) as (e & _ & -> & He). destruct (Hhead _ _ _ Hg') as (e' & _ & -> & He').
    pose proof (inv_first _ _ _ _ Hi i j e e' He He'). lia. }
  rewrite (advance_first _ None (inv_current _ _ _ _ Hi) y ys eq_refl (inputs_some c tr _ gs _ Hi Hys) Hw).
  eexists _, (Some (least y ys)). split; [done|]. split.
  - change (Some (u16 (least y ys))) with (u16 <$> Some (least y ys)). rewrite <- (app_nil_r tr).
    apply (inv_move c tr None); [done|done| |rewrite app_nil_r; apply chronicle_start, (inv_chronicle _ _ _ _ Hi)].
    intros i x pend Hg. destruct (inv_clients _ _ _ _ Hi i x pend Hg) as (_ & _ & _ & _ & Ha).
    destruct x as [z|]; [|destruct Hall; apply list_elem_of_fmap; exists (None, pend); split; [done|]; by eapply list_elem_of_lookup_2].
    assert (Hz : z ∈ y :: ys) by (apply (input_elem gs _ z Hys); eauto).
    exists z. split; [done|]. pose proof (least_le y ys z Hz). pose proof (Hw z _ Hz (least_in y ys)).
    split; [lia|]. left. by apply Ha.
  - right. destruct (proj1 (input_elem gs _ (least y ys) Hys) (least_in y ys)) as (i & pend & Hg).
    destruct (Hhead _ _ _ Hg) as (e & He & _). destruct pend as [|e' pend]; [done|]. by exists i, e', pend.
Qed.

(** ** The steps of a history *)

Lemma rpc_step c tr T gs : inv c tr T gs -> exists c' any out T' gs', handle_rpc c = Ok (c', any, out) /\
  inv c' (tr ++ out) T' gs' /\ length gs' = length gs /\ (forall j, sent j out = []) /\
  ((work gs' < work gs)%nat \/ gs' = gs /\ (forall i pend, gs !! i = Some (T, pend) -> pend = []) /\
     (T' = T /\ awaited T gs \/ due T' gs)).
Proof using L Hshift.
  intros Hi. unfold handle_rpc. cbn [time_now].
  set (c0 := mk_core (rpc_clients_ c) (virtual_clock_ c) (current_timestamp_ c) (next_rpc_client_ c) (S (calls c))).
  assert (Hi0 : inv c0 tr T gs) by (eapply inv_same; try done; apply (inv_next _ _ _ _ Hi)).
  change (rpc_clients_ c0) with (rpc_clients_ c). rewrite (Forall2_length _ _ _ (inv_queues _ _ _ _ Hi)).
  destruct (clients_step (u64 (monotonic (calls c) + RPC_HANDLE_TIME)) (length gs) c0 tr T gs false false Hi0)
    as (c1 & any & out & gs1 & -> & Hi1 & Hl1 & Ho1 & Hw1). cbn [rbind].
  assert (Hadv : exists advanced clock T', advance (virtual_clock_ c1) = Ok (advanced, clock) /\
    inv (set_clock c1 clock) ((tr ++ out) ++ completion advanced) T' gs1 /\ (T' = T /\ awaited T gs1 \/ due T' gs1)).
  { destruct T as [t|]; [by apply advance_running|]. destruct (advance_starting c1 _ gs1 Hi1) as (clock & T' & E & Hi2 & Hor).
    exists false, clock, T'. cbn. by rewrite app_nil_r. }
  destruct Hadv as (advanced & clock & T' & -> & Hi2 & Hor). cbn [rbind]. fold (completion advanced).
  eexists _, _, _, T', gs1. split; [done|]. rewrite app_assoc. split; [done|]. split; [done|].
  split; [intros j; rewrite written_app, Ho1; by destruct (completion_quiet advanced j)|].
  destruct Hw1 as [Hw1|(-> & [[=]|Hid])]; [by left|]. right. split_and!; [done| |done].
  intros i pend. apply (idle_all _ T gs i pend (inv_next _ _ _ _ Hi0) Hid).
Qed.

Lemma send_inv c tr T gs i q msg code q' : inv c tr T gs -> rpc_clients_ c !! i = Some q -> in_time tr i msg ->
  rq_send q msg = Some (code, q') ->
  exists gs', inv (set_queue c i q') (tr ++ if code =? 0 then [Sent i msg] else []) T gs' /\ length gs' = length gs.
Proof using L.
  intros Hi Hq [Hz Hin] Hs.
  destruct (Forall2_lookup_l _ _ _ _ _ (inv_queues _ _ _ _ Hi) Hq) as ([x pend] & Hg & avail & pub & Hh & E). cbn in E. subst pend.
  destruct (rq_send_spec q msg avail pub Hh ltac:(lia)) as (code' & q1 & Hs' & Hor). rewrite Hs in Hs'. injection Hs' as <- <-.
  destruct Hor as [[-> Hh']|[Hneg Hh']].
  2: { destruct (Z.eqb_spec code 0); [lia|]. rewrite app_nil_r. exists gs. split; [|done]. by eapply inv_set_queue. }
  cbn [Z.eqb]. exists (<[i := (x, avail ++ pub ++ [msg])]> gs). rewrite length_insert. split; [|done].
  destruct (inv_clients _ _ _ _ Hi i _ _ Hg) as (Hsent & Hst & Hlong & Ha).
  destruct Hi as [Hqs Hin' Hcur Hdiv Hnext Hcl Hoth Hfirst Hchr].
  assert (Hprev : forall p, last (sent i tr) = Some p -> follows p msg) by (intros p Hp; by rewrite Hp in Hin).
  assert (Hi : (i < length gs)%nat) by (by eapply lookup_lt_Some).
  split; cbn; rewrite ?length_insert; try done.
  - apply Forall2_insert; [done|]. by exists avail, (pub ++ [msg]).
  - rewrite Hin', list_fmap_insert. symmetry. apply list_insert_id. by rewrite list_lookup_fmap, Hg.
  - intros j x' pend' Hj. rewrite written_app, handled_app. cbn [sent handled]. rewrite app_nil_r.
    destruct (decide (j = i)) as [->|Hne].
    + rewrite list_lookup_insert_eq in Hj by done. injection Hj as <- <-. rewrite decide_True by done.
      split_and!; [by rewrite Hsent, <- !app_assoc|by apply steady_snoc| |].
      * rewrite app_assoc. apply Forall_app. split; [done|]. constructor; [lia|constructor].
      * assert (Hhd : forall e, head (avail ++ pub) = Some e -> head (avail ++ pub ++ [msg]) = Some e).
        { intros e. rewrite app_assoc. by destruct (avail ++ pub). }
        destruct T as [t|]; cbn in *.
        -- destruct Ha as (y & Hx & Hy & Ha). exists y. split_and!; try done; try lia. destruct Ha as [(e & He & ->)|?]; [|by right].
           left. exists e. auto.
        -- destruct Ha as [-> Ha]. split; [done|]. intros y Hy. destruct (Ha y Hy) as (e & He & ->). eauto.
    + rewrite list_lookup_insert_ne in Hj by done. rewrite decide_False, app_nil_r by done. by apply Hcl.
  - intros j Hj. rewrite written_app, handled_app. cbn [sent handled]. rewrite decide_False, !app_nil_r by lia. by apply Hoth.
  - assert (Hhd : forall j a, head (sent j (tr ++ [Sent i msg])) = Some a -> head (sent j tr) = Some a \/ j = i /\ sent i tr = [] /\ a = msg).
    { intros j a. rewrite written_app. cbn. case_decide as Hd; [subst j|rewrite app_nil_r; by left].
      destruct (sent i tr); cbn; [|by left]. intros [= <-]. by right. }
    intros j k a b Ha' Hb'. apply Hhd in Ha', Hb'. destruct Ha' as [Ha'|(-> & Hn & ->)], Hb' as [Hb'|(-> & Hn' & ->)]; [by eapply Hfirst| | |unfold window; lia].
    + rewrite Hn' in Hin. cbn in Hin. specialize (Hin j a Ha'). lia.
    + rewrite Hn in Hin. cbn in Hin. by apply (Hin k b).
  - apply chronicle_sent; [done|done|]. intros p Hp. specialize (Hprev p Hp). unfold follows in Hprev. lia.
Qed.

Lemma reachable_inv t0 c tr : reachable t0 c tr -> exists T gs, inv c tr T gs /\ length gs = length (rpc_clients_ c).
Proof using L Hshift.
  induction 1 as [qs Hne Hqs|c tr i q msg code q' _ (T & gs & Hi & Hl) Hq Hin Hs|c tr c' any out _ (T & gs & Hi & Hl) E].
  - exists None, (replicate (length qs) (None, [])). rewrite length_replicate. split; [|done]. split; cbn; try done.
    + clear Hne. induction Hqs as [|q qs Hq Hqs IH]; constructor; [by exists [], []|done].
    + induction (length qs) as [|n IH]; cbn; [done|]. by f_equal.
    + rewrite length_replicate. destruct qs; [done|cbn; lia].
    + intros i x pend Hg. apply lookup_replicate in Hg as [[= -> ->] _]. by split_and!.
    + split; cbn; intros; by (destruct tr1 + apply elem_of_nil in H0).
  - destruct (send_inv c tr T gs i q msg code q' Hi Hq Hin Hs) as (gs' & Hi' & Hl'). exists T, gs'. split; [done|].
    cbn. rewrite length_insert. congruence.
  - destruct (rpc_step c tr T gs Hi) as (c1 & any1 & out1 & T' & gs' & E1 & Hi1 & Hl1 & _). rewrite E in E1. injection E1 as <- <- <-.
    exists T', gs'. split; [done|]. by rewrite (Forall2_length _ _ _ (inv_queues _ _ _ _ Hi1)).
Qed.

(** ** Nothing waits but for a client that is behind *)

Fixpoint run_rpc (n : nat) (c : Core) : result (Core * list event) :=
  match n with
  | O => Ok (c, [])
  | S n => let* (c, _, out) := handle_rpc c in let* (c, rest) := run_rpc n c in Ok (c, out ++ rest)
  end.

Lemma run_rpc_inv n : forall c tr T gs, inv c tr T gs -> exists c' out T' gs', run_rpc n c = Ok (c', out) /\
  inv c' (tr ++ out) T' gs' /\ length gs' = length gs /\ forall j, sent j out = [].
Proof using L Hshift.
  induction n as [|n IH]; intros c tr T gs Hi.
  { eexists _, [], T, gs. rewrite app_nil_r. by split_and!. }
  destruct (rpc_step c tr T gs Hi) as (c1 & any & out1 & T1 & gs1 & E1 & Hi1 & Hl1 & Ho1 & _).
  destruct (IH c1 _ T1 gs1 Hi1) as (c2 & out2 & T2 & gs2 & E2 & Hi2 & Hl2 & Ho2).
  cbn [run_rpc]. rewrite E1. cbn [rbind]. rewrite E2. cbn [rbind].
  eexists _, _, T2, gs2. split; [done|]. rewrite app_assoc. split_and!; [done|congruence|]. intros j. by rewrite written_app, Ho1, Ho2.
Qed.

Lemma run_rpc_add n m c c1 out1 c2 out2 : run_rpc n c = Ok (c1, out1) -> run_rpc m c1 = Ok (c2, out2) ->
  run_rpc (n + m) c = Ok (c2, out1 ++ out2).
Proof.
  revert c out1. induction n as [|n IH]; intros c out1 E1 E2; cbn [run_rpc Nat.add] in *; [by simplify_eq|].
  destruct (handle_rpc c) as [[[c3 any] out3]| | |]; cbn [rbind] in *; try done.
  destruct (run_rpc n c3) as [[c4 out4]| | |] eqn:E3; cbn [rbind] in *; try done. injection E1 as -> <-.
  rewrite (IH c3 out4 E3 E2). cbn [rbind]. by rewrite <- app_assoc.
Qed.

(** The clock waits for a client of which nothing is left to handle. *)
Definition settled (T : option Z) (gs : list client) : Prop :=
  awaited T gs /\ forall i pend, gs !! i = Some (T, pend) -> pend = [].

Lemma settles m : forall c tr T gs, inv c tr T gs -> (work gs <= m)%nat -> exists k c' out T' gs', (k <= 2 * m + 2)%nat /\
  run_rpc k c = Ok (c', out) /\ inv c' (tr ++ out) T' gs' /\ length gs' = length gs /\ (forall j, sent j out = []) /\ settled T' gs'.
Proof using L Hshift.
  induction m as [m IH] using lt_wf_ind; intros c tr T gs Hi Hm.
  destruct (rpc_step c tr T gs Hi) as (c1 & any & out1 & T1 & gs1 & E1 & Hi1 & Hl1 & Ho1 & Hw1).
  assert (R1 : run_rpc 1 c = Ok (c1, out1)) by (cbn [run_rpc]; rewrite E1; cbn [rbind]; by rewrite app_nil_r).
  assert (Hmore : forall n c1 out1 T1 gs1, (n <= 2)%nat -> run_rpc n c = Ok (c1, out1) -> inv c1 (tr ++ out1) T1 gs1 -> length gs1 = length gs ->
    (forall j, sent j out1 = []) -> (work gs1 < work gs)%nat -> exists k c' out T' gs', (k <= 2 * m + 2)%nat /\
    run_rpc k c = Ok (c', out) /\ inv c' (tr ++ out) T' gs' /\ length gs' = length gs /\ (forall j, sent j out = []) /\ settled T' gs').
  { clear -IH Hm. intros n c1 out1 T1 gs1 Hn R1 Hi1 Hl1 Ho1 Hw1.
    destruct (IH (m - 1)%nat ltac:(lia) c1 _ T1 gs1 Hi1 ltac:(lia)) as (k & c2 & out2 & T2 & gs2 & Hk & R2 & Hi2 & Hl2 & Ho2 & Hset).
    exists (n + k)%nat, c2, (out1 ++ out2), T2, gs2. rewrite app_assoc.
    split_and!; [lia|by eapply run_rpc_add|done|congruence|intros j; by rewrite written_app, Ho1, Ho2|apply Hset..]. }
  destruct Hw1 as [Hw1|(-> & Hidle & [[-> Hwait]|(i & e & pend & Hdue)])].
  - by apply (Hmore 1%nat c1 out1 T1 gs1); try lia.
  - exists 1%nat, c1, out1, T, gs. split_and!; try done; lia.
  - destruct (rpc_step c1 _ T1 gs Hi1) as (c2 & any2 & out2 & T2 & gs2 & E2 & Hi2 & Hl2 & Ho2 & [Hw2|(_ & Hidle2 & _)]);
      [|by specialize (Hidle2 i _ Hdue)].
    apply (Hmore 2%nat c2 (out1 ++ out2) T2 gs2); try done; [|by rewrite app_assoc|intros j; by rewrite written_app, Ho1, Ho2].
    apply (run_rpc_add 1 1 c c1 out1); [done|]. cbn [run_rpc]. rewrite E2. cbn [rbind]. by rewrite app_nil_r.
Qed.

(** The clock is never past the last message of a client. *)
Lemma clock_behind c tr t gs i p : inv c tr (Some t) gs -> (i < length gs)%nat -> last (sent i tr) = Some p -> t <= slot_of p.
Proof.
  intros Hi Hlt Hp. destruct (lookup_lt_is_Some_2 gs i Hlt) as [[x pend] Hg].
  destruct (inv_clients _ _ _ _ Hi i x pend Hg) as (Hs & Hst & _ & y & -> & Hy & Ha).
  pose proof (steady_last _ p Hst Hp) as Hl. rewrite Hs, Forall_app in Hl. destruct Hl as [Hl1 Hl2].
  destruct Ha as [(e & He & ->)|(-> & e & He & ->)].
  - destruct pend; [done|]. injection He as ->. apply Forall_cons in Hl2 as [? _]. lia.
  - apply last_Some in He as [h' Hh]. rewrite Hh, Forall_app, Forall_cons in Hl1. lia.
Qed.

Lemma settled_handled c tr T gs M : inv c tr T gs -> settled T gs ->
  (forall i, (i < length gs)%nat -> exists p, last (sent i tr) = Some p /\ M <= slot_of p) ->
  (exists i p, (i < length gs)%nat /\ last (sent i tr) = Some p /\ slot_of p = M) ->
  forall i, handled i tr = filter (fun e => slot_of e <= M) (sent i tr).
Proof.
  intros Hi ((k & pend & Hk) & Hidle) Hlast (j & p & Hj & Hp & HM) i.
  pose proof (Hidle k pend Hk) as ->. pose proof (lookup_lt_Some _ _ _ Hk) as Hklt.
  destruct (inv_clients _ _ _ _ Hi k _ _ Hk) as (Hsk & _ & _ & Hak). rewrite app_nil_r in Hsk.
  destruct (Hlast k Hklt) as (pk & Hpk & HMk).
  destruct T as [t|]; cbn in Hak; [|destruct Hak as [Hn _]; by rewrite Hsk, Hn in Hpk].
  pose proof (clock_behind c tr t gs j p Hi Hj Hp) as Hle.
  destruct Hak as (y & [= <-] & _ & [(e & [=] & _)|(_ & e & He & Ht)]). rewrite Hsk, He in Hpk. injection Hpk as <-.
  assert (E : t = M) by lia. clear HMk. subst t. rewrite E in *.
  destruct (gs !! i) as [[x pend]|] eqn:Hg.
  2: { apply lookup_ge_None in Hg. by destruct (inv_others _ _ _ _ Hi i Hg) as [-> ->]. }
  destruct (inv_clients _ _ _ _ Hi i x pend Hg) as (Hs & Hst & _ & z & -> & Hz & Ha).
  rewrite Hs, filter_app, (filter_all _ (handled i tr)), (filter_none _ pend); [by rewrite app_nil_r| |].
  - intros a Hin. destruct (decide (z = M)) as [->|Hne]; [by rewrite (Hidle i pend Hg) in Hin; apply elem_of_nil in Hin|].
    destruct Ha as [(e' & He' & ->)|[? _]]; [|lia]. destruct pend as [|e'' pend]; [done|]. injection He' as ->.
    rewrite Hs in Hst. pose proof (steady_le e' pend (steady_app_r _ _ Hst)) as Hle'. rewrite Forall_forall in Hle'.
    apply elem_of_cons in Hin as [->|Hin]; [lia|]. specialize (Hle' a Hin). lia.
  - intros a Hin. destruct (chr_past _ _ _ _ (inv_chronicle _ _ _ _ Hi) i a Hin) as (t' & [= <-] & Hle'). done.
Qed.

(** The messages of the clients that are not handled. *)
Definition unread (n : nat) (tr : list event) : nat :=
  sum_list ((fun i => length (sent i tr) - length (handled i tr))%nat <$> seq 0 n).

Lemma work_unread c tr T gs : inv c tr T gs -> (work gs <= 2 * unread (length gs) tr)%nat.
Proof.
  intros Hi. assert (E : (fun g : client => length g.2) <$> gs = (fun i => length (sent i tr) - length (handled i tr))%nat <$> seq 0 (length gs)).
  { apply list_eq. intros i. rewrite !list_lookup_fmap. destruct (gs !! i) as [[x pend]|] eqn:Hg.
    - rewrite lookup_seq_lt by (by eapply lookup_lt_Some). cbn. f_equal.
      destruct (inv_clients _ _ _ _ Hi i x pend Hg) as (-> & _). rewrite length_app. lia.
    - rewrite lookup_seq_ge by (by apply lookup_ge_None). done. }
  unfold unread. rewrite <- E. clear E Hi. unfold work. induction gs as [|g gs IH]; [done|]. rewrite !fmap_cons. cbn [sum_list sum_list_with foldr].
  assert (Hw : (work_of g <= 2 * length g.2)%nat) by apply Nat.le_sub_l. unfold sum_list in *. cbn -[work_of] in *. lia.
Qed.

(** C6: a core handles the messages of its clients in the order of their timeslots.  In
    every history of writes and calls, whatever the clock and the interruptions by it,
    in which each client writes its messages in the order of their timeslots, with fewer
    than 2^15 timeslots between two of them and between the first ones of two clients
    ([in_time]): a call never fails; the messages of a client are handled in their order; when a
    timeslot is announced to be complete, exactly the messages up to it have been handled,
    of every client and including those still to come, and all that is handled after it
    is later; between two announcements all messages are of one timeslot; and the
    timestamps given to the handlers never decrease. *)
Theorem core_in_order (t0 : Z) (c : Core) (tr : list event) :
  reachable t0 c tr ->
  (exists r, handle_rpc c = Ok r) /\
  (forall i, handled i tr `prefix_of` sent i tr) /\
  (forall tr1 tr2, tr = tr1 ++ TimeslotComplete :: tr2 -> exists t, forall i,
     handled i tr1 = filter (fun msg => slot_of msg <= t) (sent i tr) /\ Forall (fun msg => t < slot_of msg) (handled i tr2)) /\
  (forall tr1 i s msg mid j s' msg' tr2, tr = (tr1 ++ Handled i s msg :: mid) ++ Handled j s' msg' :: tr2 ->
     (TimeslotComplete ∉ mid -> slot_of msg = slot_of msg') /\ timestamp_of msg <= s <= s').
Proof using L Hshift.
  intros (T & gs & Hi & Hl)%reachable_inv. pose proof (inv_chronicle _ _ _ _ Hi) as Hc. split_and!.
  - destruct (rpc_step c tr T gs Hi) as (c' & any & out & T' & gs' & -> & _). by eexists.
  - intros i. destruct (gs !! i) as [[x pend]|] eqn:Hg.
    + destruct (inv_clients _ _ _ _ Hi i x pend Hg) as (-> & _). by exists pend.
    + apply lookup_ge_None in Hg. destruct (inv_others _ _ _ _ Hi i Hg) as [-> ->]. done.
  - intros tr1 tr2 E. destruct (chr_complete _ _ _ _ Hc tr1 tr2 E) as (t & t' & _ & _ & Hall). exists t. intros i. apply Hall.
  - intros tr1 i s msg mid j s' msg' tr2 E. split; [by eapply (chr_pair _ _ _ _ Hc)|].
    destruct (chr_time _ _ _ _ Hc _ _ _ _ _ E) as [_ Hs].
    assert (E2 : tr = tr1 ++ Handled i s msg :: mid ++ Handled j s' msg' :: tr2) by (by rewrite E, <- app_assoc).
    destruct (chr_time _ _ _ _ Hc _ _ _ _ _ E2) as [Ht _]. split; [lia|]. eapply (Hs i s msg). apply elem_of_app. right. left.
Qed.

(** C15: no message waits but for a client that is behind.  Let every client have written
    something, and let [M] be the earliest of the timeslots of their last messages.  If
    nothing more is written, then after four calls for each unread message and two more,
    however the calls are interrupted, the messages up to [M] of every client have been
    handled, and no others. *)
Theorem core_drains (t0 : Z) (c : Core) (tr : list event) (M : Z) (n : nat) :
  reachable t0 c tr ->
  (forall i, (i < length (rpc_clients_ c))%nat -> exists p, last (sent i tr) = Some p /\ M <= slot_of p) ->
  (exists i p, (i < length (rpc_clients_ c))%nat /\ last (sent i tr) = Some p /\ slot_of p = M) ->
  (4 * unread (length (rpc_clients_ c)) tr + 2 <= n)%nat ->
  exists c' out, run_rpc n c = Ok (c', out) /\
    forall i, handled i (tr ++ out) = filter (fun msg => slot_of msg <= M) (sent i tr).
Proof using L Hshift.
  intros (T & gs & Hi & Hl)%reachable_inv Hlast Hex Hn. rewrite <- Hl in *.
  pose proof (work_unread c tr T gs Hi) as Hw.
  destruct (settles (work gs) c tr T gs Hi ltac:(done)) as (k & c1 & out1 & T1 & gs1 & Hk & R1 & Hi1 & Hl1 & Ho1 & Hset).
  destruct (run_rpc_inv (n - k) c1 _ T1 gs1 Hi1) as (c2 & out2 & T2 & gs2 & R2 & Hi2 & Hl2 & Ho2).
  assert (Hsent : forall o i, (forall j, sent j o = []) -> sent i (tr ++ o) = sent i tr) by (intros o i Ho; by rewrite written_app, Ho, app_nil_r).
  exists c2, (out1 ++ out2). split; [replace n with (k + (n - k))%nat by lia; by eapply run_rpc_add|]. intros i.
  pose proof (settled_handled c1 (tr ++ out1) T1 gs1 M Hi1 Hset) as Hh. rewrite Hl1 in Hh.
  setoid_rewrite Hsent in Hh; [|done..]. specialize (Hh Hlast Hex i). rewrite app_assoc, handled_app, Hh.
  enough (handled i out2 = []) as -> by (apply app_nil_r).
  destruct (handled i out2) as [|e h] eqn:He; [done|]. exfalso.
  assert (Hs2 : sent i ((tr ++ out1) ++ out2) = sent i tr) by (by rewrite written_app, Ho2, app_nil_r, Hsent).
  (* the message is past [M], and the clock is not *)
  assert (Hpast : M < slot_of e).
  { destruct (gs2 !! i) as [[x pend]|] eqn:Hg.
    - destruct (inv_clients _ _ _ _ Hi2 i x pend Hg) as (Hs & _). rewrite Hs2, handled_app, Hh, He in Hs.
      destruct (decide (slot_of e <= M)) as [Hle|]; [exfalso|lia].
      assert (Hlen : length (filter (fun msg => slot_of msg <= M) (sent i tr)) = length (filter (fun msg => slot_of msg <= M) (sent i tr))) by done.
      rewrite Hs in Hlen at 2. rewrite !filter_app, !length_app in Hlen.
      rewrite (filter_all (fun msg => slot_of msg <= M) (filter (fun msg => slot_of msg <= M) (sent i tr))) in Hlen by (by intros a [? _]%list_elem_of_filter).
      rewrite filter_cons_True in Hlen by done. cbn in Hlen. lia.
    - apply lookup_ge_None in Hg. destruct (inv_others _ _ _ _ Hi2 i Hg) as [_ Hh2]. rewrite handled_app, He in Hh2.
      by destruct (handled i (tr ++ out1)). }
  destruct (chr_past _ _ _ _ (inv_chronicle _ _ _ _ Hi2) i e) as (t & -> & Ht).
  { rewrite handled_app, He. apply elem_of_app. right. left. }
  destruct Hex as (j & p & Hj & Hp & HM).
  pose proof (clock_behind c2 _ t gs2 j p Hi2 ltac:(lia)) as Hle. rewrite written_app, Ho2, app_nil_r, Hsent in Hle by done.
  specialize (Hle Hp). lia.
Qed.
End core.
End ReducerCore.

Module ReducerCoreDemo.
Import ElementQueue ElementQueueWriter VirtualClock ReducerCore.

(** Two clients with queues of four elements in 64 bytes, and timeslots of a second. *)
Definition demo_divider : FastDiv.fast_div := {| FastDiv.mul := 281474; FastDiv.shift := 48 |}.
Definition demo_monotonic (n : nat) : Z := Z.of_nat n * 15000000.
Definition demo_sys : sys := mk_sys demo_queue demo_queue demo_storage.
Definition demo_core : Core := mk_core [demo_sys; demo_sys] (add_inputs 2 (VirtualClock_new demo_divider)) 0 0 0.
Definition demo_msg (ms : Z) : list Z := le_encode 8 (ms * 10 ^ 6) ++ [7].


#[local] Instance demo_rpc_queue : RpcQueue sys := element_rpc_queue 4 64.
#[local] Instance demo_rpc_queue_laws : RpcQueueLaws sys := element_rpc_queue_laws 4 64.

Inductive demo_act := Write (i : nat) (ms : Z) | Call.

(** The history of some writes and calls, if the writes are accepted. *)
Fixpoint demo_history (acts : list demo_act) (c : Core) (tr : list event) : option (Core * list event) :=
  match acts with
  | [] => Some (c, tr)
  | Write i ms :: acts =>
    q ← rpc_clients_ c !! i;
    '(code, q') ← rq_send q (demo_msg ms);
    if code =? 0 then demo_history acts (set_queue c i q') (tr ++ [Sent i (demo_msg ms)]) else None
  | Call :: acts =>
    match handle_rpc demo_monotonic c with
    | Ok (c, _, out) => demo_history acts c (tr ++ out)
    | _ => None
    end
  end.

Fixpoint timely (acts : list demo_act) (c : Core) (tr : list event) : Prop :=
  match acts with
  | [] => True
  | act :: acts =>
    match act with Write i ms => in_time demo_divider tr i (demo_msg ms) | Call => True end /\
    match demo_history [act] c tr with Some (c, tr) => timely acts c tr | None => True end
  end.

Lemma history_reachable acts : forall c tr c' tr', reachable demo_monotonic demo_divider 0 c tr -> timely acts c tr ->
  demo_history acts c tr = Some (c', tr') -> reachable demo_monotonic demo_divider 0 c' tr'.
Proof.
  induction acts as [|[i ms|] acts IH]; intros c tr c' tr' Hr Ht E; cbn [demo_history] in E; [by simplify_eq| |].
  - destruct Ht as [Hin Ht]. cbn [demo_history] in Ht. destruct (rpc_clients_ c !! i) as [q|] eqn:Hq; [|done]. cbn [mbind option_bind] in *.
    destruct (rq_send q (demo_msg ms)) as [[code q']|] eqn:Hs; [|done]. cbn [mbind option_bind] in *.
    destruct (code =? 0) eqn:Hc; [|done]. eapply IH; [|exact Ht|exact E].
    pose proof (reach_send _ _ _ c tr i q _ code q' Hr Hq Hin Hs) as Hx. by rewrite Hc in Hx.
  - destruct Ht as [_ Ht]. cbn [demo_history] in Ht. destruct (handle_rpc demo_monotonic c) as [[[c1 any] out]| | |] eqn:Hh; try done.
    eapply IH; [|exact Ht|exact E]. by eapply reach_rpc.
Qed.

Lemma demo_new : reachable demo_monotonic demo_divider 0 demo_core [].
Proof.
  apply (reach_new demo_monotonic demo_divider 0 [demo_sys; demo_sys]); [done|].
  repeat constructor; exists fifo_empty, 0, 0; (split; [apply demo_rep|done]).
Qed.

Lemma demo_shift : 0 <= FastDiv.shift demo_divider <= 48.
Proof. cbn. lia. Qed.

Definition demo_acts : list demo_act :=
  [Write 0 5000; Write 1 5100; Call; Call; Write 0 7000; Write 1 8000; Call; Call].

Ltac history_step :=
  match goal with |- match ?x with _ => _ end =>
    let y := eval vm_compute in x in replace x with y by (vm_compute; reflexivity); cbv iota beta
  end.

Lemma demo_timely : timely demo_acts demo_core [].
Proof.
  unfold demo_acts. split; [split; [by vm_compute|done]|]. history_step. split.
  { split; [by vm_compute|]. intros [|j] first Hf; [|done]. injection Hf as <-. by vm_compute. }
  history_step. split; [done|]. history_step. split; [done|]. history_step.
  split; [split; by vm_compute|]. history_step. split; [split; by vm_compute|]. history_step.
  split; [done|]. history_step. split; [done|]. history_step. done.
Qed.

Lemma core_in_order_witness : exists c tr, reachable demo_monotonic demo_divider 0 c tr /\ TimeslotComplete ∈ tr /\
  handled 0 tr = [demo_msg 5000] /\ exists r, handle_rpc demo_monotonic c = Ok r.
Proof.
  destruct (demo_history demo_acts demo_core []) as [[c tr]|] eqn:E; [|vm_compute in E; discriminate].
  pose proof (history_reachable _ _ _ _ _ demo_new demo_timely E) as Hr.
  destruct (core_in_order demo_monotonic demo_divider demo_shift 0 c tr Hr) as (Hok & _).
  exists c, tr. split; [done|]. assert (Et : tr = default [] (snd <$> demo_history demo_acts demo_core [])) by (by rewrite E).
  split; [|split; [|done]]; rewrite Et.
  - apply list_elem_of_lookup. exists 5%nat. vm_compute. reflexivity.
  - vm_compute. reflexivity.
Defined.

Lemma core_drains_witness : exists c tr c' out, reachable demo_monotonic demo_divider 0 c tr /\ handled 0 tr = [] /\
  run_rpc demo_monotonic 10 c = Ok (c', out) /\ handled 0 (tr ++ out) = [demo_msg 5000] /\ handled 1 (tr ++ out) = [].
Proof.
  destruct (demo_history [Write 0 5000; Write 1 5100] demo_core []) as [[c tr]|] eqn:E; [|vm_compute in E; discriminate].
  assert (Ht : timely [Write 0 5000; Write 1 5100] demo_core []).
  { split; [split; [by vm_compute|done]|]. history_step. split; [|by history_step].
    split; [by vm_compute|]. intros [|j] first Hf; [|done]. injection Hf as <-. by vm_compute. }
  pose proof (history_reachable _ _ _ _ _ demo_new Ht E) as Hr.
  assert (Et : tr = [Sent 0 (demo_msg 5000); Sent 1 (demo_msg 5100)]).
  { enough (Some tr = Some [Sent 0 (demo_msg 5000); Sent 1 (demo_msg 5100)]) by congruence.
    transitivity (snd <$> demo_history [Write 0 5000; Write 1 5100] demo_core []); [by rewrite E|]. vm_compute. reflexivity. }
  assert (El : length (rpc_clients_ c) = 2%nat).
  { enough (Some (length (rpc_clients_ c)) = Some 2%nat) by congruence.
    transitivity ((fun p => length (rpc_clients_ p.1)) <$> demo_history [Write 0 5000; Write 1 5100] demo_core []); [by rewrite E|].
    vm_compute. reflexivity. }
  destruct (core_drains demo_monotonic demo_divider demo_shift 0 c tr (slot_of demo_divider (demo_msg 5000)) 10 Hr) as (c' & out & Hrun & Hh).
  - rewrite El, Et. intros [|[|i]] Hi; [eexists; split; [reflexivity|by vm_compute]..|lia].
  - exists 0%nat. rewrite El, Et. eexists. split; [lia|]. split; reflexivity.
  - rewrite El, Et. vm_compute. reflexivity || lia.
  - exists c, tr, c', out. rewrite !Hh, Et. split_and!; [by rewrite <- Et|done|done|vm_compute; reflexivity..].
Defined.
End ReducerCoreDemo.
