(* ===== verification/CgroupParser.v ===== *)
(** The names of control groups: util/parser_utils.h and util/cgroup_parser.{h,cc}, which
    find the container, the pod and the service that a name stands for. *)
From Stdlib Require Import Ascii String.
From S2P Require Import Prelude.

(** A string is the list of its characters, as numbers. *)
Definition chars (s : string) : list Z := (fun c => Z.of_nat (nat_of_ascii c)) <$> list_ascii_of_string s.
Definition char (c : ascii) : Z := Z.of_nat (nat_of_ascii c).

Module Parsing.
(** The position in the text is the list of the characters from it to the end. *)

Definition peek (cur : list Z) : option Z := head cur.

Definition lookahead (cur : list Z) (pred : Z -> bool) : bool :=
  match peek cur with Some f => pred f | None => false end.

Definition lookahead_string (cur : list Z) (s : list Z) : bool :=
  if zlen cur <? zlen s then false else bool_decide (take (length s) cur = s).

Definition consume (n : nat) (cur : list Z) : list Z := drop n cur.

(** [parse_match] with a predicate and with a string: whether it matched, the position
    and the output. *)
Definition parse_match (cur : list Z) (pred : Z -> bool) (s : list Z) : bool * list Z * list Z :=
  if lookahead cur pred then (true, consume 1 cur, s ++ take 1 cur) else (false, cur, s).

Definition parse_match_string (cur : list Z) (s : list Z) (out : list Z) : bool * list Z * list Z :=
  if lookahead_string cur s then (true, consume (length s) cur, out ++ s) else (false, cur, out).

(** [parse_token]. *)
Fixpoint parse_token (cur : list Z) (token : Z) (s : list Z) : bool * list Z * list Z :=
  match cur with
  | [] => (false, [], s)
  | p :: cur => if p =? token then (true, cur, s) else parse_token cur token (s ++ [p])
  end.
End Parsing.

Module CgroupParser.
Import Parsing.

(** [isxdigit], for characters as they are in [unsigned char]. *)
Definition is_hex_digit (c : Z) : bool :=
  ((48 <=? c) && (c <=? 57)) || ((65 <=? c) && (c <=? 70)) || ((97 <=? c) && (c <=? 102)).

Record CGroupInfo := mk_info {
  container_id : list Z;
  runtime : list Z;
  pod_id : list Z;
  qos : list Z;
  service : list Z;
  valid : bool;
}.

Record CGroupParser := mk_parser {
  info_ : CGroupInfo;
  cgroup_name_ : list Z;
  read_head_ : list Z;
}.

Definition set_container_id (x : list Z) (p : CGroupParser) : CGroupParser :=
  mk_parser (mk_info x (runtime (info_ p)) (pod_id (info_ p)) (qos (info_ p)) (service (info_ p)) (valid (info_ p)))
    (cgroup_name_ p) (read_head_ p).
Definition set_runtime (x : list Z) (p : CGroupParser) : CGroupParser :=
  mk_parser (mk_info (container_id (info_ p)) x (pod_id (info_ p)) (qos (info_ p)) (service (info_ p)) (valid (info_ p)))
    (cgroup_name_ p) (read_head_ p).
Definition set_pod_id (x : list Z) (p : CGroupParser) : CGroupParser :=
  mk_parser (mk_info (container_id (info_ p)) (runtime (info_ p)) x (qos (info_ p)) (service (info_ p)) (valid (info_ p)))
    (cgroup_name_ p) (read_head_ p).
Definition set_qos (x : list Z) (p : CGroupParser) : CGroupParser :=
  mk_parser (mk_info (container_id (info_ p)) (runtime (info_ p)) (pod_id (info_ p)) x (service (info_ p)) (valid (info_ p)))
    (cgroup_name_ p) (read_head_ p).
Definition set_service (x : list Z) (p : CGroupParser) : CGroupParser :=
  mk_parser (mk_info (container_id (info_ p)) (runtime (info_ p)) (pod_id (info_ p)) (qos (info_ p)) x (valid (info_ p)))
    (cgroup_name_ p) (read_head_ p).
Definition set_valid (x : bool) (p : CGroupParser) : CGroupParser :=
  mk_parser (mk_info (container_id (info_ p)) (runtime (info_ p)) (pod_id (info_ p)) (qos (info_ p)) (service (info_ p)) x)
    (cgroup_name_ p) (read_head_ p).
Definition move_to (cur : list Z) (p : CGroupParser) : CGroupParser := mk_parser (info_ p) (cgroup_name_ p) cur.

(** A literal that is not stored. *)
Definition expect (s : list Z) (p : CGroupParser) : bool * CGroupParser :=
  let '(ok, cur, _) := parse_match_string (read_head_ p) s [] in (ok, move_to cur p).
(** The characters up to a token, not stored. *)
Definition skip_past (token : Z) (p : CGroupParser) : CGroupParser :=
  let '(_, cur, _) := parse_token (read_head_ p) token [] in move_to cur p.

(** [count] hexadecimal digits, appended to [s]. *)
Fixpoint digits (count : nat) (cur : list Z) (s : list Z) : bool * list Z * list Z :=
  match count with
  | O => (true, cur, s)
  | S count =>
    let '(ok, cur, s) := parse_match cur is_hex_digit s in
    if ok then digits count cur s else (false, cur, s)
  end.

Definition parse_container_id (p : CGroupParser) : bool * CGroupParser :=
  let '(ok, cur, id) := digits 64 (read_head_ p) (container_id (info_ p)) in
  (ok, move_to cur (set_container_id (if ok then id else []) p)).

Definition parse_uid_group (count : nat) (p : CGroupParser) : bool * CGroupParser :=
  let '(ok, cur, id) := digits count (read_head_ p) (pod_id (info_ p)) in (ok, move_to cur (set_pod_id id p)).

Fixpoint parse_uid_groups (groups : list nat) (p : CGroupParser) : bool * CGroupParser :=
  match groups with
  | [] => (true, p)
  | ii :: groups =>
    let '(ok, p) := parse_uid_group ii p in
    if negb ok then (false, p)
    else if negb (ii =? 12)%nat then
      match peek (read_head_ p) with
      | None => (false, p)
      | Some c =>
        let p := if (c =? char "-") || (c =? char "_") then move_to (consume 1 (read_head_ p)) p else p in
        parse_uid_groups groups (set_pod_id (pod_id (info_ p) ++ chars "-") p)
      end
    else parse_uid_groups groups p
  end.

Definition parse_uid : CGroupParser -> bool * CGroupParser := parse_uid_groups [8; 4; 4; 4; 12]%nat.

Definition parse_pod_id (p : CGroupParser) : bool * CGroupParser :=
  let '(ok, p) := expect (chars "pod") p in if negb ok then (false, p) else parse_uid p.

Definition SERVICE_SUFFIX : list Z := chars ".service".

(** [views::ends_with]. *)
Definition ends_with (s suffix : list Z) : bool :=
  (zlen suffix <=? zlen s) && bool_decide (drop (length s - length suffix) s = suffix).

Definition parse_service (p : CGroupParser) : bool * CGroupParser :=
  if ends_with (cgroup_name_ p) SERVICE_SUFFIX then
    (true, set_service (take (length (cgroup_name_ p) - length SERVICE_SUFFIX) (cgroup_name_ p)) p)
  else (false, p).

Definition parse_class (s : list Z) (p : CGroupParser) : bool * CGroupParser :=
  let '(ok, cur, q) := parse_match_string (read_head_ p) s (qos (info_ p)) in (ok, move_to cur (set_qos q p)).

Definition parse_qos (p : CGroupParser) : bool * CGroupParser :=
  let '(ok, p) := parse_class (chars "guaranteed") p in
  if ok then (true, p)
  else
    let '(ok, p) := parse_class (chars "besteffort") p in
    if ok then (true, p) else parse_class (chars "burstable") p.

Definition parse_runtime (token : Z) (p : CGroupParser) : bool * CGroupParser :=
  let '(ok, cur, r) := parse_token (read_head_ p) token (runtime (info_ p)) in (ok, move_to cur (set_runtime r p)).

Definition parse_systemd (p : CGroupParser) : bool * CGroupParser :=
  let '(ok, p) := expect (chars "kubepods-") p in
  if negb ok then (false, p)
  else
    let '(ok, p) := parse_qos p in
    if negb ok then (false, p)
    else
      let p := skip_past (char "-") p in
      let '(ok, p) := parse_pod_id p in
      if negb ok then (true, p)
      else
        let p := skip_past (char "-") p in
        let '(ok, p) := parse_runtime (char ":") p in
        if negb ok then (true, p) else let '(_, p) := parse_container_id p in (true, p).

Definition parse_cri (p : CGroupParser) : bool * CGroupParser :=
  let '(ok, p) := expect (chars "cri-") p in
  if negb ok then (false, p)
  else
    let '(ok, p) := parse_runtime (char "-") p in
    if negb ok then (false, p) else parse_container_id p.

(** The alternatives are tried in turn, each from where the one before it has stopped. *)
Fixpoint first_of (alternatives : list (CGroupParser -> bool * CGroupParser)) (p : CGroupParser) : bool * CGroupParser :=
  match alternatives with
  | [] => (false, p)
  | alternative :: alternatives => let '(ok, p) := alternative p in if ok then (true, p) else first_of alternatives p
  end.

Definition parse_cgroup : CGroupParser -> bool * CGroupParser :=
  first_of [parse_systemd; parse_cri; parse_pod_id; parse_container_id; parse_service].

Definition parse (cgroup_name : list Z) : CGroupInfo :=
  let '(ok, p) := parse_cgroup (mk_parser (mk_info [] [] [] [] [] false) cgroup_name cgroup_name) in
  info_ (set_valid ok p).

(** The names of control groups: how the groups of digits of a pod's uid are separated,
    and the formats. *)
Inductive style := Dashes | Underscores | Plain.
Definition sep (s : style) : list Z :=
  match s with Dashes => chars "-" | Underscores => chars "_" | Plain => [] end.

Inductive qos_class := Guaranteed | BestEffort | Burstable.
Definition class_name (q : qos_class) : list Z :=
  match q with
  | Guaranteed => chars "guaranteed" | BestEffort => chars "besteffort" | Burstable => chars "burstable"
  end.

Record uid := mk_uid { g1 : list Z; g2 : list Z; g3 : list Z; g4 : list Z; g5 : list Z }.
Definition render_uid (s : list Z) (u : uid) : list Z := g1 u ++ s ++ g2 u ++ s ++ g3 u ++ s ++ g4 u ++ s ++ g5 u.
Definition canonical : uid -> list Z := render_uid (chars "-").

Inductive name :=
| Slice (q : qos_class)
| PodSlice (q : qos_class) (s : style) (u : uid)
| PodContainer (q : qos_class) (s : style) (u : uid) (runtime id : list Z)
| Scope (runtime id : list Z)
| Pod (s : style) (u : uid)
| Container (id : list Z)
| Service (service : list Z).

Definition render (n : name) : list Z :=
  match n with
  | Slice q => chars "kubepods-" ++ class_name q ++ chars ".slice"
  | PodSlice q s u => chars "kubepods-" ++ class_name q ++ chars "-pod" ++ render_uid (sep s) u ++ chars ".slice"
  | PodContainer q s u runtime id =>
    chars "kubepods-" ++ class_name q ++ chars "-pod" ++ render_uid (sep s) u ++ chars ".slice:cri-" ++
    runtime ++ chars ":" ++ id
  | Scope runtime id => chars "cri-" ++ runtime ++ chars "-" ++ id ++ chars ".scope"
  | Pod s u => chars "pod" ++ render_uid (sep s) u
  | Container id => id
  | Service service => service ++ SERVICE_SUFFIX
  end.

(** What a name says. *)
Definition meaning (n : name) : CGroupInfo :=
  match n with
  | Slice q => mk_info [] [] [] (class_name q) [] true
  | PodSlice q _ u => mk_info [] [] (canonical u) (class_name q) [] true
  | PodContainer q _ u runtime id => mk_info id runtime (canonical u) (class_name q) [] true
  | Scope runtime id => mk_info id runtime [] [] [] true
  | Pod _ u => mk_info [] [] (canonical u) [] [] true
  | Container id => mk_info id [] [] [] [] true
  | Service service => mk_info [] [] [] [] service true
  end.

Definition hex (n : nat) (ds : list Z) : Prop := length ds = n /\ Forall (fun c => is_hex_digit c = true) ds.
Definition uid_ok (u : uid) : Prop := hex 8 (g1 u) /\ hex 4 (g2 u) /\ hex 4 (g3 u) /\ hex 4 (g4 u) /\ hex 12 (g5 u).

(** The runtime of a container does not contain the separator that ends it; the name of a
    service does not begin like one of the other formats: with [kubepods-], [cri-], [pod]
    or 64 hexadecimal digits. *)
Definition name_ok (n : name) : Prop :=
  match n with
  | Slice _ => True
  | PodSlice _ _ u => uid_ok u
  | PodContainer _ _ u runtime id => uid_ok u /\ (char ":" ∉ runtime) /\ hex 64 id
  | Scope runtime id => (char "-" ∉ runtime) /\ hex 64 id
  | Pod _ u => uid_ok u
  | Container id => hex 64 id
  | Service service =>
    Forall (fun p => lookahead_string (service ++ SERVICE_SUFFIX) (chars p) = false) ["kubepods-"; "cri-"; "pod"]%string
    /\ ~ hex 64 (take 64 service)
  end.

Lemma lookahead_string_prefix (s r : list Z) : lookahead_string (s ++ r) s = true.
Proof.
  unfold lookahead_string. rewrite zlen_app. pose proof (zlen_nonneg r).
  destruct (Z.ltb_spec (zlen s + zlen r) (zlen s)); [lia|].
  rewrite take_app_length. by case_bool_decide.
Qed.

Lemma expect_prefix (s r : list Z) (p : CGroupParser) :
  read_head_ p = s ++ r -> expect s p = (true, move_to r p).
Proof.
  intros E. unfold expect, parse_match_string, consume. rewrite E, lookahead_string_prefix.
  by rewrite drop_app_length.
Qed.

Lemma expect_no (s : list Z) (p : CGroupParser) :
  lookahead_string (read_head_ p) s = false -> expect s p = (false, p).
Proof. intros E. unfold expect, parse_match_string. rewrite E. by destruct p. Qed.

Lemma digits_hex (n : nat) (ds r s : list Z) : hex n ds -> digits n (ds ++ r) s = (true, r, s ++ ds).
Proof.
  intros [Hn Hds]. revert s. subst n. induction Hds as [|d ds Hd _ IH]; intros s; cbn [length digits].
  - by rewrite app_nil_r.
  - unfold parse_match, lookahead, peek. cbn [app head]. rewrite Hd. cbn [consume drop take].
    rewrite drop_0, take_0, IH. by rewrite <- app_assoc.
Qed.

(** Fewer digits than asked for. *)
Lemma digits_short (n : nat) (cur s : list Z) :
  ~ (exists ds r, cur = ds ++ r /\ hex n ds) -> (digits n cur s).1.1 = false.
Proof.
  revert cur s. induction n as [|n IH]; intros cur s Hno.
  - destruct Hno. by exists [], cur.
  - cbn [digits]. unfold parse_match, lookahead, peek. destruct cur as [|c cur]; [done|]. cbn [head].
    destruct (is_hex_digit c) eqn:Hc; [|done]. cbn [consume drop]. rewrite drop_0. apply IH.
    intros (ds & r & -> & Hl & Hds). apply Hno. exists (c :: ds), r. split; [done|].
    split; [cbn; lia|by constructor].
Qed.

Lemma parse_token_found (t r s : list Z) (token : Z) :
  token ∉ t -> parse_token (t ++ token :: r) token s = (true, r, s ++ t).
Proof.
  revert s. induction t as [|c t IH]; intros s Hno; cbn [app parse_token].
  - by rewrite Z.eqb_refl, app_nil_r.
  - apply not_elem_of_cons in Hno as [Hne Hno]. rewrite (proj2 (Z.eqb_neq c token)); [|done].
    rewrite IH; [|done]. by rewrite <- app_assoc.
Qed.

Lemma parse_token_missing (t s : list Z) (token : Z) :
  token ∉ t -> parse_token t token s = (false, [], s ++ t).
Proof.
  revert s. induction t as [|c t IH]; intros s Hno; cbn [parse_token].
  - by rewrite app_nil_r.
  - apply not_elem_of_cons in Hno as [Hne Hno]. rewrite (proj2 (Z.eqb_neq c token)); [|done].
    rewrite IH; [|done]. by rewrite <- app_assoc.
Qed.

Lemma parse_container_id_ok (ds r : list Z) (p : CGroupParser) :
  hex 64 ds -> read_head_ p = ds ++ r -> container_id (info_ p) = [] ->
  parse_container_id p = (true, move_to r (set_container_id ds p)).
Proof. intros Hds E Hid. unfold parse_container_id. by rewrite E, Hid, (digits_hex 64 ds r []). Qed.

Lemma parse_uid_group_ok (n : nat) (ds r : list Z) (p : CGroupParser) :
  hex n ds -> read_head_ p = ds ++ r ->
  parse_uid_group n p = (true, move_to r (set_pod_id (pod_id (info_ p) ++ ds) p)).
Proof. intros Hds E. unfold parse_uid_group. by rewrite E, (digits_hex n ds r). Qed.

(** A group that is not the last one, its separator and a further digit. *)
Lemma parse_uid_groups_cons (n : nat) (groups : list nat) (ds r : list Z) (s : style) (d : Z) (p : CGroupParser) :
  hex n ds -> n <> 12%nat -> is_hex_digit d = true -> read_head_ p = ds ++ sep s ++ d :: r ->
  parse_uid_groups (n :: groups) p =
  parse_uid_groups groups (move_to (d :: r) (set_pod_id ((pod_id (info_ p) ++ ds) ++ chars "-") p)).
Proof.
  intros Hds Hn Hd E. cbn [parse_uid_groups].
  rewrite (parse_uid_group_ok n ds (sep s ++ d :: r) p) by done. cbn [negb].
  rewrite (proj2 (Nat.eqb_neq n 12)) by done. cbn [negb].
  destruct s; cbn [sep]; try reflexivity.
  unfold peek. cbn [head app move_to read_head_].
  replace ((d =? char "-") || (d =? char "_")) with false; [reflexivity|].
  change (char "-") with 45. change (char "_") with 95. revert Hd. unfold is_hex_digit. lia.
Qed.

Lemma hex_cons (n : nat) (ds : list Z) :
  hex (S n) ds -> exists d ds', ds = d :: ds' /\ is_hex_digit d = true.
Proof. intros [Hl Hds]. destruct ds as [|d ds]; [done|]. apply Forall_cons in Hds as [Hd _]. by exists d, ds. Qed.

Lemma parse_uid_ok (s : style) (u : uid) (r : list Z) (p : CGroupParser) :
  uid_ok u -> read_head_ p = render_uid (sep s) u ++ r -> pod_id (info_ p) = [] ->
  parse_uid p = (true, move_to r (set_pod_id (canonical u) p)).
Proof.
  intros (H1 & H2 & H3 & H4 & H5) E Hp. unfold parse_uid, render_uid, canonical in *.
  destruct u as [d1 d2 d3 d4 d5]. cbn [g1 g2 g3 g4 g5] in *.
  destruct (hex_cons _ _ H2) as (e2 & t2 & -> & He2), (hex_cons _ _ H3) as (e3 & t3 & -> & He3),
    (hex_cons _ _ H4) as (e4 & t4 & -> & He4), (hex_cons _ _ H5) as (e5 & t5 & -> & He5).
  rewrite <- !app_assoc in E. cbn [app] in E.
  rewrite (parse_uid_groups_cons _ _ d1 _ s e2 p H1 ltac:(done) He2 E).
  rewrite <- ?app_assoc.
  erewrite (parse_uid_groups_cons _ _ (e2 :: t2) _ s e3 _ H2 ltac:(done) He3) by reflexivity.
  erewrite (parse_uid_groups_cons _ _ (e3 :: t3) _ s e4 _ H3 ltac:(done) He4) by reflexivity.
  erewrite (parse_uid_groups_cons _ _ (e4 :: t4) _ s e5 _ H4 ltac:(done) He5) by reflexivity.
  cbn [parse_uid_groups]. erewrite (parse_uid_group_ok 12 (e5 :: t5) r) by done.
  destruct p as [[]]. cbn in Hp |- *. subst. by rewrite <- !app_assoc.
Qed.

Lemma parse_pod_id_ok (s : style) (u : uid) (r : list Z) (p : CGroupParser) :
  uid_ok u -> read_head_ p = chars "pod" ++ render_uid (sep s) u ++ r -> pod_id (info_ p) = [] ->
  parse_pod_id p = (true, move_to r (set_pod_id (canonical u) p)).
Proof.
  intros Hu E Hp. unfold parse_pod_id. rewrite (expect_prefix _ _ _ E). cbn [negb].
  by rewrite (parse_uid_ok s u r _ Hu).
Qed.

Lemma parse_runtime_ok (token : Z) (t r : list Z) (p : CGroupParser) :
  token ∉ t -> read_head_ p = t ++ token :: r -> runtime (info_ p) = [] ->
  parse_runtime token p = (true, move_to r (set_runtime t p)).
Proof. intros Ht E Hr. unfold parse_runtime. by rewrite E, Hr, parse_token_found. Qed.

(** A literal that the text differs from in one of the first characters. *)
Lemma lookahead_string_no (cur s : list Z) : take (length s) cur <> s -> lookahead_string cur s = false.
Proof. intros Hne. unfold lookahead_string. destruct (_ <? _); [done|]. by apply bool_decide_eq_false. Qed.

Ltac no_prefix := apply lookahead_string_no; vm_compute; discriminate.

Lemma parse_class_ok (s r : list Z) (p : CGroupParser) :
  read_head_ p = s ++ r -> qos (info_ p) = [] -> parse_class s p = (true, move_to r (set_qos s p)).
Proof.
  intros E Hq. unfold parse_class, parse_match_string, consume.
  by rewrite E, Hq, lookahead_string_prefix, drop_app_length.
Qed.

Lemma parse_class_no (s : list Z) (p : CGroupParser) :
  lookahead_string (read_head_ p) s = false -> parse_class s p = (false, p).
Proof. intros E. unfold parse_class, parse_match_string. rewrite E. by destruct p as [[]]. Qed.

Lemma parse_qos_ok (q : qos_class) (r : list Z) (p : CGroupParser) :
  read_head_ p = class_name q ++ r -> qos (info_ p) = [] ->
  parse_qos p = (true, move_to r (set_qos (class_name q) p)).
Proof.
  intros E Hq. unfold parse_qos. destruct q; cbn [class_name] in *.
  - by rewrite (parse_class_ok _ r).
  - rewrite (parse_class_no (chars "guaranteed")); [by rewrite (parse_class_ok _ r)|]. rewrite E. no_prefix.
  - rewrite (parse_class_no (chars "guaranteed")); [|rewrite E; no_prefix].
    rewrite (parse_class_no (chars "besteffort")); [by rewrite (parse_class_ok _ r)|]. rewrite E. no_prefix.
Qed.

Lemma skip_past_found (t r : list Z) (token : Z) (p : CGroupParser) :
  token ∉ t -> read_head_ p = t ++ token :: r -> skip_past token p = move_to r p.
Proof. intros Ht E. unfold skip_past. by rewrite E, parse_token_found. Qed.

Lemma skip_past_missing (t : list Z) (token : Z) (p : CGroupParser) :
  token ∉ t -> read_head_ p = t -> skip_past token p = move_to [] p.
Proof. intros Ht E. unfold skip_past. by rewrite E, parse_token_missing. Qed.

Definition start (cgroup_name : list Z) : CGroupParser :=
  mk_parser (mk_info [] [] [] [] [] false) cgroup_name cgroup_name.

(** The beginning that all the names of slices share. *)
Lemma parse_systemd_class (q : qos_class) (r full : list Z) :
  full = chars "kubepods-" ++ class_name q ++ r ->
  parse_systemd (start full) =
  (let p := skip_past (char "-") (mk_parser (mk_info [] [] [] (class_name q) [] false) full r) in
   let '(ok, p) := parse_pod_id p in
   if negb ok then (true, p)
   else
     let p := skip_past (char "-") p in
     let '(ok, p) := parse_runtime (char ":") p in
     if negb ok then (true, p) else let '(_, p) := parse_container_id p in (true, p)).
Proof.
  intros E. unfold parse_systemd. rewrite (expect_prefix (chars "kubepods-") (class_name q ++ r)) by done.
  cbn [negb]. by rewrite (parse_qos_ok q r) by done.
Qed.

Lemma slice_roundtrip (q : qos_class) : parse (render (Slice q)) = meaning (Slice q).
Proof. by destruct q; vm_compute. Qed.

Lemma chars_no (c : Z) (s : string) : bool_decide (c ∈ chars s) = false -> c ∉ chars s.
Proof. apply bool_decide_eq_false. Qed.

Lemma pod_slice_start (q : qos_class) (s : style) (u : uid) (r full : list Z) :
  uid_ok u -> full = chars "kubepods-" ++ class_name q ++ chars "-pod" ++ render_uid (sep s) u ++ r ->
  parse_systemd (start full) =
  (let p := skip_past (char "-") (mk_parser (mk_info [] [] (canonical u) (class_name q) [] false) full r) in
   let '(ok, p) := parse_runtime (char ":") p in
   if negb ok then (true, p) else let '(_, p) := parse_container_id p in (true, p)).
Proof.
  intros Hu E. rewrite (parse_systemd_class q (chars "-pod" ++ render_uid (sep s) u ++ r) full) by done.
  rewrite (skip_past_found [] (chars "pod" ++ render_uid (sep s) u ++ r)) by (apply not_elem_of_nil || done).
  cbv zeta. by rewrite (parse_pod_id_ok s u r _ Hu) by done.
Qed.

Lemma pod_slice_roundtrip (q : qos_class) (s : style) (u : uid) :
  uid_ok u -> parse (render (PodSlice q s u)) = meaning (PodSlice q s u).
Proof.
  intros Hu. unfold parse, parse_cgroup. fold (start (render (PodSlice q s u))). cbn [first_of].
  rewrite (pod_slice_start q s u (chars ".slice") _ Hu) by done.
  by rewrite (skip_past_missing (chars ".slice")) by (by apply chars_no || done).
Qed.

Lemma pod_container_roundtrip (q : qos_class) (s : style) (u : uid) (rt id : list Z) :
  uid_ok u -> char ":" ∉ rt -> hex 64 id ->
  parse (render (PodContainer q s u rt id)) = meaning (PodContainer q s u rt id).
Proof.
  intros Hu Hrt Hid. unfold parse, parse_cgroup. fold (start (render (PodContainer q s u rt id))). cbn [first_of].
  rewrite (pod_slice_start q s u (chars ".slice:cri-" ++ rt ++ chars ":" ++ id) _ Hu) by done.
  rewrite (skip_past_found (chars ".slice:cri") (rt ++ char ":" :: id)) by (by apply chars_no || done).
  cbv zeta. rewrite (parse_runtime_ok (char ":") rt id) by done. cbn [negb].
  by rewrite (parse_container_id_ok id []) by (rewrite ?app_nil_r; done).
Qed.

(** Formats that are not the first alternative. *)
Lemma parse_systemd_no (p : CGroupParser) :
  lookahead_string (read_head_ p) (chars "kubepods-") = false -> parse_systemd p = (false, p).
Proof. intros E. unfold parse_systemd. by rewrite (expect_no _ _ E). Qed.

Lemma parse_cri_no (p : CGroupParser) :
  lookahead_string (read_head_ p) (chars "cri-") = false -> parse_cri p = (false, p).
Proof. intros E. unfold parse_cri. by rewrite (expect_no _ _ E). Qed.

Lemma parse_pod_id_no (p : CGroupParser) :
  lookahead_string (read_head_ p) (chars "pod") = false -> parse_pod_id p = (false, p).
Proof. intros E. unfold parse_pod_id. by rewrite (expect_no _ _ E). Qed.

Lemma scope_roundtrip (rt id : list Z) :
  char "-" ∉ rt -> hex 64 id -> parse (render (Scope rt id)) = meaning (Scope rt id).
Proof.
  intros Hrt Hid. unfold parse, parse_cgroup. fold (start (render (Scope rt id))). cbn [first_of].
  rewrite parse_systemd_no by no_prefix. unfold parse_cri.
  rewrite (expect_prefix (chars "cri-") (rt ++ char "-" :: id ++ chars ".scope")) by done. cbn [negb].
  rewrite (parse_runtime_ok (char "-") rt (id ++ chars ".scope")) by done. cbn [negb].
  by rewrite (parse_container_id_ok id (chars ".scope")) by done.
Qed.

Lemma pod_roundtrip (s : style) (u : uid) : uid_ok u -> parse (render (Pod s u)) = meaning (Pod s u).
Proof.
  intros Hu. unfold parse, parse_cgroup. fold (start (render (Pod s u))). cbn [first_of].
  rewrite parse_systemd_no by no_prefix. rewrite parse_cri_no by no_prefix.
  by rewrite (parse_pod_id_ok s u [] _ Hu) by (cbn [start render read_head_]; rewrite ?app_nil_r; done).
Qed.

(** A literal with a character that is not a hexadecimal digit is not the beginning of an id. *)
Lemma hex_no_prefix (ds s : list Z) (n : nat) :
  hex n ds -> existsb (fun c => negb (is_hex_digit c)) s = true -> lookahead_string ds s = false.
Proof.
  intros [_ Hds] Hs. apply lookahead_string_no. intros E.
  apply existsb_exists in Hs as (c & Hc & Hn). apply list_elem_of_In in Hc. rewrite <- E in Hc.
  apply (Forall_take _ (length s)) in Hds. rewrite Forall_forall in Hds. by rewrite (Hds c Hc) in Hn.
Qed.

Lemma container_roundtrip (id : list Z) : hex 64 id -> parse (render (Container id)) = meaning (Container id).
Proof.
  intros Hid. unfold parse, parse_cgroup. fold (start (render (Container id))). cbn [first_of render].
  rewrite parse_systemd_no by by eapply hex_no_prefix. rewrite parse_cri_no by by eapply hex_no_prefix.
  rewrite parse_pod_id_no by by eapply hex_no_prefix.
  by rewrite (parse_container_id_ok id []) by (cbn [start read_head_]; rewrite ?app_nil_r; done).
Qed.

Lemma service_not_container (svc : list Z) :
  ~ hex 64 (take 64 svc) -> ~ (exists ds r, svc ++ SERVICE_SUFFIX = ds ++ r /\ hex 64 ds).
Proof.
  intros Hno (ds & r & E & Hd & Hds). destruct (decide (64 <= length svc)%nat) as [Hl|Hl].
  { apply Hno. rewrite <- (take_app_le svc SERVICE_SUFFIX) by done. by rewrite E, take_app_length'. }
  rewrite Forall_lookup in Hds.
  assert (Hdot : ds !! length svc = Some 46).
  { rewrite <- (lookup_app_l ds r) by lia. rewrite <- E.
    change SERVICE_SUFFIX with (46 :: chars "service"). by apply list_lookup_middle. }
  by apply Hds in Hdot.
Qed.

Lemma service_roundtrip (svc : list Z) :
  name_ok (Service svc) -> parse (render (Service svc)) = meaning (Service svc).
Proof.
  intros [Hp Hl]. rewrite !Forall_cons in Hp. destruct Hp as (H1 & H2 & H3 & _).
  unfold parse, parse_cgroup. fold (start (render (Service svc))). cbn [first_of render].
  rewrite parse_systemd_no, parse_cri_no, parse_pod_id_no by done.
  unfold parse_container_id. pose proof (digits_short 64 _ [] (service_not_container svc Hl)) as Hshort.
  change (container_id _) with (@nil Z). change (read_head_ _) with (svc ++ SERVICE_SUFFIX).
  destruct (digits 64 _ []) as [[ok cur] id]. cbn in Hshort. subst ok. unfold parse_service.
  cbn [move_to set_container_id cgroup_name_ start].
  unfold ends_with. rewrite zlen_app, length_app.
  replace (length svc + length SERVICE_SUFFIX - length SERVICE_SUFFIX)%nat with (length svc) by lia.
  rewrite drop_app_length, take_app_length. pose proof (zlen_nonneg svc).
  rewrite (proj2 (Z.leb_le _ _)) by lia. by rewrite bool_decide_true.
Qed.

(** C27: every name that the agent's parser documents is read as what it says: a slice of
    a quality-of-service class, of a pod or of a container in a pod, a container's scope,
    a pod, a container and a service.  The uid of a pod comes out in its canonical form
    whether its groups were separated with dashes, with underscores or not at all.  A
    runtime must not contain the character that ends it, and services whose names begin
    with [kubepods-], [cri-], [pod] or 64 hexadecimal digits are excluded: such a name is
    first tried as the other formats, and what these have stored stays
    ([service_with_pod_id]). *)
Theorem cgroup_name_roundtrip (n : name) : name_ok n -> parse (render n) = meaning n.
Proof.
  destruct n; cbn [name_ok]; intros H.
  - apply slice_roundtrip.
  - by apply pod_slice_roundtrip.
  - destruct H as (? & ? & ?). by apply pod_container_roundtrip.
  - destruct H as (? & ?). by apply scope_roundtrip.
  - by apply pod_roundtrip.
  - by apply container_roundtrip.
  - by apply service_roundtrip.
Qed.

(** What is stored of any name. *)
Definition fresh (p : CGroupParser) : Prop :=
  container_id (info_ p) = [] /\ qos (info_ p) = [] /\ service (info_ p) = [].
Definition well_formed (full : list Z) (info : CGroupInfo) : Prop :=
  (container_id info = [] \/ hex 64 (container_id info)) /\
  (qos info = [] \/ exists q, qos info = class_name q) /\
  (service info = [] \/ full = service info ++ SERVICE_SUFFIX).

(** An alternative stores what is well formed, and nothing but parts of a pod's uid and of
    a runtime if it fails. *)
Definition alternative_ok (f : CGroupParser -> bool * CGroupParser) : Prop :=
  forall p, fresh p ->
    let '(ok, p') := f p in
    cgroup_name_ p' = cgroup_name_ p /\ (if ok then well_formed (cgroup_name_ p') (info_ p') else fresh p').

Lemma digits_stored (n : nat) (cur s : list Z) :
  match digits n cur s with (true, _, out) => exists ds, out = s ++ ds /\ hex n ds | _ => True end.
Proof.
  revert cur s. induction n as [|n IH]; intros cur s; cbn [digits].
  - exists []. by rewrite app_nil_r.
  - unfold parse_match, lookahead, peek. destruct cur as [|c cur]; [done|]. cbn [head].
    destruct (is_hex_digit c) eqn:Hc; [|done]. cbn [take]. rewrite take_0.
    specialize (IH (consume 1 (c :: cur)) (s ++ [c])). destruct (digits n _ _) as [[[] cur'] out]; [|done].
    destruct IH as (ds & -> & Hl & Hds). exists (c :: ds). split; [by rewrite <- app_assoc|].
    split; [cbn; lia|by constructor].
Qed.

Lemma parse_container_id_stored (p : CGroupParser) :
  container_id (info_ p) = [] ->
  let '(ok, p') := parse_container_id p in
  (exists id cur, p' = move_to cur (set_container_id id p) /\ if ok then hex 64 id else id = []).
Proof.
  intros Hid. unfold parse_container_id. rewrite Hid. pose proof (digits_stored 64 (read_head_ p) []) as Hd.
  destruct (digits 64 _ []) as [[[] cur] out]; [|by exists [], cur].
  destruct Hd as (ds & -> & Hds). by exists ds, cur.
Qed.

(** Steps that leave the container, the class and the service as they are. *)
Definition neutral (p p' : CGroupParser) : Prop :=
  cgroup_name_ p' = cgroup_name_ p /\ container_id (info_ p') = container_id (info_ p) /\
  qos (info_ p') = qos (info_ p) /\ service (info_ p') = service (info_ p).

Lemma neutral_trans (p1 p2 p3 : CGroupParser) : neutral p1 p2 -> neutral p2 p3 -> neutral p1 p3.
Proof. unfold neutral. intuition congruence. Qed.

Lemma neutral_fresh (p p' : CGroupParser) : neutral p p' -> fresh p -> fresh p'.
Proof. unfold neutral, fresh. intuition congruence. Qed.

Lemma expect_neutral (s : list Z) (p : CGroupParser) : neutral p (expect s p).2.
Proof. unfold expect. by destruct (parse_match_string _ _ _) as [[]]. Qed.

Lemma skip_past_neutral (token : Z) (p : CGroupParser) : neutral p (skip_past token p).
Proof. unfold skip_past. by destruct (parse_token _ _ _) as [[]]. Qed.

Lemma parse_runtime_neutral (token : Z) (p : CGroupParser) : neutral p (parse_runtime token p).2.
Proof. unfold parse_runtime. by destruct (parse_token _ _ _) as [[]]. Qed.

Lemma parse_uid_groups_neutral (groups : list nat) (p : CGroupParser) : neutral p (parse_uid_groups groups p).2.
Proof.
  revert p. induction groups as [|n groups IH]; intros p; cbn [parse_uid_groups]; [done|].
  assert (Hg : neutral p (parse_uid_group n p).2) by (unfold parse_uid_group; by destruct (digits _ _ _) as [[]]).
  destruct (parse_uid_group n p) as [[] p1]; cbn [negb snd] in *; [|done].
  destruct (n =? 12)%nat; cbn [negb]; [by eapply neutral_trans|].
  destruct (peek _); [|done]. eapply neutral_trans; [exact Hg|].
  eapply neutral_trans; [|apply IH]. by destruct (_ || _).
Qed.

Lemma parse_pod_id_neutral (p : CGroupParser) : neutral p (parse_pod_id p).2.
Proof.
  unfold parse_pod_id. pose proof (expect_neutral (chars "pod") p) as He.
  destruct (expect _ p) as [[] p1]; cbn [negb snd] in *; [|done].
  eapply neutral_trans; [exact He|]. apply parse_uid_groups_neutral.
Qed.

Lemma parse_qos_stored (p : CGroupParser) :
  qos (info_ p) = [] ->
  match parse_qos p with
  | (true, p') => exists cur q, p' = move_to cur (set_qos (class_name q) p)
  | (false, p') => p' = p
  end.
Proof.
  intros Hq. unfold parse_qos.
  assert (Hc : forall s, parse_class s p = (false, p) \/ exists cur, parse_class s p = (true, move_to cur (set_qos s p))).
  { intros s. destruct (lookahead_string (read_head_ p) s) eqn:E; [right|left; by apply parse_class_no].
    unfold parse_class, parse_match_string. rewrite E, Hq. by eexists. }
  destruct (Hc (chars "guaranteed")) as [->|(cur & ->)]; [|by exists cur, Guaranteed].
  destruct (Hc (chars "besteffort")) as [->|(cur & ->)]; [|by exists cur, BestEffort].
  destruct (Hc (chars "burstable")) as [->|(cur & ->)]; [done|by exists cur, Burstable].
Qed.

Lemma parse_container_id_alternative : alternative_ok parse_container_id.
Proof.
  intros p Hp. pose proof (parse_container_id_stored p (proj1 Hp)) as H. unfold fresh, well_formed in *.
  destruct (parse_container_id p) as [[] p'], H as (id & cur & -> & Hid); cbn; intuition.
Qed.

Lemma parse_pod_id_alternative : alternative_ok parse_pod_id.
Proof.
  intros p Hp. pose proof (parse_pod_id_neutral p) as Hn. destruct (parse_pod_id p) as [ok p']. cbn [snd] in Hn.
  split; [apply Hn|]. pose proof (neutral_fresh _ _ Hn Hp) as Hf. destruct ok; [|done].
  destruct Hf as (? & ? & ?). by repeat split; left.
Qed.

Lemma parse_cri_alternative : alternative_ok parse_cri.
Proof.
  intros p Hp. unfold parse_cri. pose proof (expect_neutral (chars "cri-") p) as He.
  destruct (expect _ p) as [[] p1]; cbn [negb snd] in *; [|split; [apply He|by eapply neutral_fresh]].
  pose proof (neutral_trans _ _ _ He (parse_runtime_neutral (char "-") p1)) as Hr.
  destruct (parse_runtime _ p1) as [[] p2]; cbn [negb snd] in *; [|split; [apply Hr|by eapply neutral_fresh]].
  pose proof (parse_container_id_alternative p2 (neutral_fresh _ _ Hr Hp)) as Hc.
  destruct (parse_container_id p2) as [ok p3], Hc as [Hname Hc]. split; [|done].
  rewrite Hname. apply Hr.
Qed.

(** The rest of a slice's name after its class. *)
Lemma pod_part_stored (p : CGroupParser) (q : qos_class) :
  container_id (info_ p) = [] -> service (info_ p) = [] -> qos (info_ p) = class_name q ->
  let '(ok, p') :=
    let '(ok, p) := parse_pod_id p in
    if negb ok then (true, p)
    else
      let p := skip_past (char "-") p in
      let '(ok, p) := parse_runtime (char ":") p in
      if negb ok then (true, p) else let '(_, p) := parse_container_id p in (true, p) in
  ok = true /\ cgroup_name_ p' = cgroup_name_ p /\ well_formed (cgroup_name_ p') (info_ p').
Proof.
  intros Hid Hs Hq. pose proof (parse_pod_id_neutral p) as Hn.
  assert (Hwf : forall p', neutral p p' ->
    cgroup_name_ p' = cgroup_name_ p /\ well_formed (cgroup_name_ p') (info_ p')).
  { intros p' (E1 & E2 & E3 & E4). split; [done|]. split; [left; congruence|]. split; [right|left; congruence].
    exists q. congruence. }
  destruct (parse_pod_id p) as [[] p1]; cbn [negb snd] in *; [|by auto].
  pose proof (neutral_trans _ _ _ Hn (skip_past_neutral (char "-") p1)) as Hn2. cbv zeta.
  pose proof (neutral_trans _ _ _ Hn2 (parse_runtime_neutral (char ":") (skip_past (char "-") p1))) as Hn3.
  destruct (parse_runtime _ _) as [[] p3]; cbn [negb snd] in *; [|by auto].
  destruct Hn3 as (E1 & E2 & E3 & E4).
  pose proof (parse_container_id_stored p3 ltac:(congruence)) as Hc.
  destruct (parse_container_id p3) as [okc p4], Hc as (id & cur & -> & Hc).
  split; [done|]. split; [done|]. split; [|split]; cbn.
  - destruct okc; auto.
  - right. exists q. congruence.
  - left. congruence.
Qed.

Lemma parse_systemd_alternative : alternative_ok parse_systemd.
Proof.
  intros p Hp. unfold parse_systemd. pose proof (expect_neutral (chars "kubepods-") p) as He.
  destruct (expect _ p) as [[] p1]; cbn [negb snd] in *; [|split; [apply He|by eapply neutral_fresh]].
  pose proof (neutral_fresh _ _ He Hp) as (Hid & Hq & Hs).
  pose proof (parse_qos_stored p1 Hq) as H. destruct (parse_qos p1) as [[] p2]; cbn [negb].
  - destruct H as (cur & q & ->). cbv zeta.
    set (p2 := move_to cur _). pose proof (skip_past_neutral (char "-") p2) as (E1 & E2 & E3 & E4).
    pose proof (pod_part_stored (skip_past (char "-") p2) q) as Hrest.
    rewrite E2, E3, E4 in Hrest. specialize (Hrest Hid Hs eq_refl).
    destruct (let '(ok, p) := parse_pod_id _ in _) as [ok p3]. destruct Hrest as (-> & E & Hwf).
    split; [|done]. rewrite E, E1. apply He.
  - subst p2. split; [apply He|done].
Qed.

Lemma parse_service_alternative : alternative_ok parse_service.
Proof.
  intros p (Hid & Hq & Hs). unfold parse_service, ends_with.
  destruct (Z.leb_spec (zlen SERVICE_SUFFIX) (zlen (cgroup_name_ p))) as [Hl|]; cbn [andb]; [|done].
  case_bool_decide as E; [|done]. split; [done|]. split; [by left|]. split; [by left|]. right.
  cbn [set_service cgroup_name_ info_ service].
  rewrite <- (take_drop (length (cgroup_name_ p) - length SERVICE_SUFFIX) (cgroup_name_ p)) at 1. by rewrite E.
Qed.

Lemma parse_stored (full : list Z) : well_formed full (parse full).
Proof.
  assert (H : forall fs, Forall alternative_ok fs -> alternative_ok (first_of fs)).
  { induction fs as [|f fs IH]; intros Hfs p Hp; [done|]. apply Forall_cons in Hfs as [Hf Hfs].
    cbn [first_of]. specialize (Hf p Hp). destruct (f p) as [[] p1], Hf as [E Hf]; [done|].
    specialize (IH Hfs p1 Hf). by destruct (first_of fs p1) as [ok p2]; rewrite <- E. }
  assert (Hall : alternative_ok parse_cgroup).
  { apply H. repeat constructor; auto using parse_systemd_alternative, parse_cri_alternative, parse_pod_id_alternative,
      parse_container_id_alternative, parse_service_alternative. }
  specialize (Hall (start full) ltac:(done)). unfold parse. fold (start full).
  destruct (parse_cgroup _) as [ok p], Hall as [E Hp]. cbn [start cgroup_name_] in E. rewrite E in Hp.
  destruct ok; [done|]. destruct Hp as (? & ? & ?). by repeat split; left.
Qed.

(** C35: whatever the name of a control group is, the container it is read as is either none or
    64 hexadecimal digits, the class is none or one of the three, and a service is the
    whole name without the suffix that marks services. *)
Theorem parsed_well_formed (full : list Z) : well_formed full (parse full).
Proof. apply parse_stored. Qed.

(** An alternative that fails keeps the digits it has stored: a service whose name begins
    like that of a pod is reported with a part of its name as the id of a pod. *)
Lemma service_with_pod_id :
  parse (chars "podface.service") = mk_info [] [] (chars "face") [] (chars "podface") true.
Proof. by vm_compute. Qed.

Definition demo_uid : uid :=
  mk_uid (chars "146bb920") (chars "a47b") (chars "4f6c") (chars "a69a") (chars "166b63944d15").
Definition demo_name : name :=
  PodContainer Burstable Underscores demo_uid (chars "containerd")
    (chars "c45f3e9c19746eabf0a4af63d780ba5c2a657a7352c7ad7acc5d599da5115eef").

Lemma demo_name_ok : name_ok demo_name.
Proof.
  assert (Hh : forall n ds, length ds = n -> forallb is_hex_digit ds = true -> hex n ds).
  { intros n ds Hl Hf. split; [done|]. apply List.Forall_forall, forallb_forall. exact Hf. }
  refine (conj (conj _ (conj _ (conj _ (conj _ _)))) (conj _ _)); try by apply Hh; vm_compute.
  by apply chars_no; vm_compute.
Qed.

Lemma cgroup_name_roundtrip_witness :
  parse (chars "kubepods-burstable-pod146bb920_a47b_4f6c_a69a_166b63944d15.slice:cri-containerd:c45f3e9c19746eabf0a4af63d780ba5c2a657a7352c7ad7acc5d599da5115eef")
  = mk_info (chars "c45f3e9c19746eabf0a4af63d780ba5c2a657a7352c7ad7acc5d599da5115eef") (chars "containerd")
      (chars "146bb920-a47b-4f6c-a69a-166b63944d15") (chars "burstable") [] true.
Proof. exact (cgroup_name_roundtrip demo_name demo_name_ok). Defined.
End CgroupParser.
