(* ===== verification/Matching.v ===== *)
(** What the matching cores of the reducer know about pods, containers and addresses:
    reducer/uid_key.{h,cc}, reducer/util/docker_image.{h,inl}, util/short_string.h and, of
    reducer/matching, k8s_pod_span.cc, k8s_container_span.cc and aws_enrichment_span.cc.
    The container of the spans is generated code: it is a finite map from the keys. *)
From Stdlib Require Import Ascii String.
From S2P Require Import Prelude IpAddress PollerBase Lookup3 CgroupParser.
Local Open Scope result_scope.

Module UidKey.
Definition K8S_UID_SUFFIX_LENGTH : nat := 64.

(** [uid_to_u64]: [addr] is [uid.data()], and [rest] what follows the characters there. *)
Definition uid_to_u64 (cfg : Lookup3.config) (addr : Z) (rest uid : list Z) : option Z :=
  '(pc, pb) ← Lookup3.lookup3_hashlittle2 cfg addr (uid ++ rest) (zlen uid) 0 0;
  Some (u64 (pc + u64 (Z.shiftl pb 32))).

(** [dest] afterwards. *)
Definition uid_suffix (uid : list Z) (dest_size : nat) : list Z :=
  if (dest_size <=? length uid)%nat then drop (length uid - dest_size) uid
  else uid ++ replicate (dest_size - length uid) 0.

Definition make_uid_key (cfg : Lookup3.config) (addr : Z) (rest uid : list Z) : option (list Z * Z) :=
  h ← uid_to_u64 cfg addr rest uid; Some (uid_suffix uid K8S_UID_SUFFIX_LENGTH, h).

(** What the hash is, whatever the place of the string in memory. *)
Definition uid_hash (uid : list Z) : Z :=
  let s := Lookup3.digest Lookup3.Little uid (Lookup3.setup (zlen uid) 0 0) in
  u64 (Lookup3.rc s + u64 (Z.shiftl (Lookup3.rb s) 32)).
Definition uid_key (uid : list Z) : list Z * Z := (uid_suffix uid K8S_UID_SUFFIX_LENGTH, uid_hash uid).

Lemma make_uid_key_spec (cfg : Lookup3.config) (addr : Z) (rest uid : list Z) :
  Lookup3.bytes (uid ++ rest) -> Lookup3.readable cfg addr uid rest ->
  make_uid_key cfg addr rest uid = Some (uid_key uid).
Proof.
  intros Hb Hr. unfold make_uid_key, uid_to_u64. by rewrite Lookup3.hashlittle2_digest.
Qed.

Lemma length_uid_suffix (uid : list Z) (n : nat) : length (uid_suffix uid n) = n.
Proof.
  unfold uid_suffix. destruct (Nat.leb_spec n (length uid)); [rewrite length_drop|rewrite length_app, length_replicate]; lia.
Qed.

(** Uids of 64 characters, such as the ids of containers, are told apart by the suffix alone. *)
Lemma uid_suffix_full (uid : list Z) : length uid = K8S_UID_SUFFIX_LENGTH -> uid_suffix uid K8S_UID_SUFFIX_LENGTH = uid.
Proof. intros E. unfold uid_suffix. by rewrite E, Nat.leb_refl, Nat.sub_diag, drop_0. Qed.
End UidKey.

Module DockerImage.
Definition VERSION_DELIMITER : Z := char ":".
Definition IMAGE_DELIMITER : Z := char "/".
Definition CHECKSUM_DELIMITER : Z := char "@".

Record DockerImageMetadata := mk_image { registry_ : list Z; name_ : list Z; version_ : list Z }.

(** [find_first_of] and [find_last_of] with one character; [None] is [npos]. *)
Fixpoint find_first_of (s : list Z) (c : Z) : option nat :=
  match s with
  | [] => None
  | x :: s => if x =? c then Some O else S <$> find_first_of s c
  end.
Fixpoint find_last_of (s : list Z) (c : Z) : option nat :=
  match s with
  | [] => None
  | x :: s => match find_last_of s c with Some i => Some (S i) | None => if x =? c then Some O else None end
  end.

Definition split_registry (image : list Z) : list Z * list Z :=
  match find_last_of image IMAGE_DELIMITER with
  | Some i => (take i image, drop (i + 1) image)
  | None => ([], image)
  end.

Definition DockerImageMetadata_new (image : list Z) : DockerImageMetadata :=
  let '(registry, image) := split_registry image in
  match find_first_of image CHECKSUM_DELIMITER with
  | Some i => mk_image registry (take i image) (drop (i + 1) image)
  | None =>
    match find_first_of image VERSION_DELIMITER with
    | Some i =>
      let name := take i image in
      if bool_decide (name = chars "sha256") then mk_image registry [] image
      else mk_image registry name (drop (i + 1) image)
    | None => mk_image registry image []
    end
  end.

(** The references of images: an optional registry, a name, and a tag or a checksum. *)
Inductive version := Untagged | Tag (t : list Z) | Checksum (c : list Z).
Definition with_version (name : list Z) (v : version) : list Z :=
  match v with
  | Untagged => name
  | Tag t => name ++ VERSION_DELIMITER :: t
  | Checksum c => name ++ CHECKSUM_DELIMITER :: c
  end.
Definition render_image (registry : option (list Z)) (name : list Z) (v : version) : list Z :=
  match registry with Some r => r ++ IMAGE_DELIMITER :: with_version name v | None => with_version name v end.
Definition version_text (v : version) : list Z := match v with Untagged => [] | Tag t => t | Checksum c => c end.
Definition reference_ok (name : list Z) (v : version) : Prop :=
  (IMAGE_DELIMITER ∉ name) /\ (CHECKSUM_DELIMITER ∉ name) /\ (VERSION_DELIMITER ∉ name) /\ name <> chars "sha256" /\
  (IMAGE_DELIMITER ∉ version_text v) /\ match v with Tag t => CHECKSUM_DELIMITER ∉ t | _ => True end.

Lemma find_first_none (s : list Z) (c : Z) : c ∉ s -> find_first_of s c = None.
Proof.
  induction s as [|x s IH]; intros Hc; [done|]. apply not_elem_of_cons in Hc as [Hx Hc].
  cbn. rewrite (proj2 (Z.eqb_neq x c)) by done. by rewrite IH.
Qed.

Lemma find_first_app (s r : list Z) (c : Z) : c ∉ s -> find_first_of (s ++ c :: r) c = Some (length s).
Proof.
  induction s as [|x s IH]; intros Hc; cbn; [by rewrite Z.eqb_refl|]. apply not_elem_of_cons in Hc as [Hx Hc].
  rewrite (proj2 (Z.eqb_neq x c)) by done. by rewrite IH.
Qed.

Lemma find_last_none (s : list Z) (c : Z) : c ∉ s -> find_last_of s c = None.
Proof.
  induction s as [|x s IH]; intros Hc; [done|]. apply not_elem_of_cons in Hc as [Hx Hc].
  cbn. rewrite IH by done. by rewrite (proj2 (Z.eqb_neq x c)).
Qed.

Lemma find_last_app (s r : list Z) (c : Z) : c ∉ r -> find_last_of (s ++ c :: r) c = Some (length s).
Proof.
  intros Hc. induction s as [|x s IH]; cbn; [by rewrite find_last_none, Z.eqb_refl|]. by rewrite IH.
Qed.

Lemma drop_after (s r : list Z) (c : Z) : drop (length s + 1) (s ++ c :: r) = r.
Proof. by rewrite (cons_middle c s r), app_assoc, drop_app_length' by (rewrite length_app; cbn; lia). Qed.

Lemma image_without_registry (registry name : list Z) (v : version) :
  reference_ok name v ->
  split_registry (with_version name v) = ([], with_version name v) /\
  split_registry (registry ++ IMAGE_DELIMITER :: with_version name v) = (registry, with_version name v).
Proof.
  intros (Hi & _ & _ & _ & Hv & _).
  assert (Hno : IMAGE_DELIMITER ∉ with_version name v).
  { destruct v; cbn [with_version version_text] in *; [done|..];
      rewrite elem_of_app, elem_of_cons; intros [?|[?|?]]; done. }
  unfold split_registry. rewrite find_last_none, find_last_app by done. by rewrite take_app_length, drop_after.
Qed.

(** The parts of the reference of an image: whatever the registry, a name without
    delimiters comes out with its tag or its checksum as the version. *)
Lemma docker_image_roundtrip (registry : option (list Z)) (name : list Z) (v : version) :
  reference_ok name v ->
  DockerImageMetadata_new (render_image registry name v) = mk_image (default [] registry) name (version_text v).
Proof.
  intros Hok. unfold DockerImageMetadata_new.
  destruct (image_without_registry (default [] registry) name v Hok) as [H1 H2].
  destruct Hok as (_ & Hc & Hv & Hsha & _ & Ht).
  assert (E : split_registry (render_image registry name v) = (default [] registry, with_version name v))
    by (by destruct registry).
  rewrite E. destruct v as [|t|c]; cbn [with_version version_text].
  - by rewrite !find_first_none.
  - rewrite (find_first_none _ CHECKSUM_DELIMITER).
    + rewrite find_first_app by done. by rewrite take_app_length, bool_decide_false, drop_after.
    + rewrite elem_of_app, elem_of_cons. intros [?|[?|?]]; done.
  - rewrite find_first_app by done. by rewrite take_app_length, drop_after.
Qed.
End DockerImage.

Module Matching.
#[local] Abbreviation uid_key := (list Z * Z)%type.

(** [short_string::truncate]. *)
Definition truncate (max_len : nat) (value : list Z) : list Z := take max_len value.

Record k8s_pod := mk_pod {
  owner_name : list Z;
  owner_uid : list Z;
  pod_name : list Z;
  pod_ns : list Z;
  pod_version : list Z;
}.
(** A span that was just created has empty fields. *)
Definition k8s_pod_new : k8s_pod := mk_pod [] [] [] [] [].

Record k8s_container := mk_container {
  container_name : list Z;
  container_version : list Z;
  container_pod : option uid_key;
}.
Definition k8s_container_new : k8s_container := mk_container [] [] None.

Record AwsEnrichmentInfo := mk_aws { aws_role : list Z; aws_az : list Z; aws_id : list Z }.

(** The spans by their keys.  A span of [aws_enrichment] may have no info yet. *)
Record Index := mk_index {
  pods : gmap uid_key k8s_pod;
  containers : gmap uid_key k8s_container;
  aws_enrichments : gmap Z (option AwsEnrichmentInfo);
}.

(** [by_key] creates a span that is missing: the caller sees a new one.  Unless the caller
    keeps a reference to it, it is gone with the handle. *)
Definition pod_by_key (index : Index) (key : uid_key) : k8s_pod := default k8s_pod_new (pods index !! key).
Definition container_by_key (index : Index) (key : uid_key) : k8s_container :=
  default k8s_container_new (containers index !! key).

Record set_pod_detail_msg := mk_pod_detail {
  m_owner_name : list Z; m_owner_uid : list Z; m_pod_name : list Z; m_ns : list Z; m_version : list Z;
}.

(** [K8sPodSpan::set_pod_detail]. *)
Definition set_pod_detail (key : uid_key) (msg : set_pod_detail_msg) (index : Index) : Index :=
  mk_index
    (<[key := mk_pod (truncate 64 (m_owner_name msg)) (truncate 64 (m_owner_uid msg)) (truncate 64 (m_pod_name msg))
       (truncate 64 (m_ns msg)) (truncate 64 (m_version msg))]> (pods index))
    (containers index) (aws_enrichments index).

Record set_container_pod_msg := mk_container_pod {
  m_pod_uid_suffix : list Z; m_pod_uid_hash : Z; m_name : list Z; m_image : list Z;
}.

(** [K8sContainerSpan::set_container_pod]; [room] is whether a span of a pod can be created. *)
Definition set_container_pod (room : bool) (key : uid_key) (msg : set_container_pod_msg) (index : Index) : Index :=
  let k8s_pod_key := (m_pod_uid_suffix msg, m_pod_uid_hash msg) in
  match pods index !! k8s_pod_key, room with
  | None, false => index
  | found, _ =>
    let image_metadata := DockerImage.DockerImageMetadata_new (m_image msg) in
    mk_index
      (<[k8s_pod_key := default k8s_pod_new found]> (pods index))
      (<[key := mk_container (truncate 64 (m_name msg)) (truncate 64 (DockerImage.version_ image_metadata))
           (Some k8s_pod_key)]> (containers index))
      (aws_enrichments index)
  end.

(** [AwsEnrichmentSpan::aws_enrichment]. *)
Definition aws_enrichment (ip : Z) (msg : AwsEnrichmentInfo) (index : Index) : Index :=
  mk_index (pods index) (containers index) (<[ip := Some msg]> (aws_enrichments index)).

(** [AwsEnrichmentSpan::info], where there is a span. *)
Definition aws_info (index : Index) (ip : Z) : option AwsEnrichmentInfo := mjoin (aws_enrichments index !! ip).

(** The references of containers are to existing pods, as the references keep them. *)
Definition index_ok (index : Index) : Prop :=
  forall key c pod_key, containers index !! key = Some c -> container_pod c = Some pod_key ->
    is_Some (pods index !! pod_key).

Lemma set_pod_detail_ok (key : uid_key) (msg : set_pod_detail_msg) (index : Index) :
  index_ok index -> index_ok (set_pod_detail key msg index).
Proof.
  intros Hok k c pk Hc Hp. cbn in *. destruct (decide (pk = key)) as [->|]; [by rewrite lookup_insert_eq|].
  rewrite lookup_insert_ne by done. by eapply Hok.
Qed.

Lemma set_container_pod_ok (room : bool) (key : uid_key) (msg : set_container_pod_msg) (index : Index) :
  index_ok index -> index_ok (set_container_pod room key msg index).
Proof.
  intros Hok. unfold set_container_pod. set (pk := (m_pod_uid_suffix msg, m_pod_uid_hash msg)).
  assert (H : forall found img, index_ok (mk_index (<[pk := default k8s_pod_new found]> (pods index))
    (<[key := mk_container (truncate 64 (m_name msg)) img (Some pk)]> (containers index)) (aws_enrichments index))).
  { intros found img k c q Hc Hq. cbn in *. destruct (decide (pk = q)) as [->|Hne]; [by rewrite lookup_insert_eq|].
    rewrite lookup_insert_ne by done. destruct (decide (key = k)) as [->|].
    - rewrite lookup_insert_eq in Hc. injection Hc as <-. cbn in Hq. congruence.
    - rewrite lookup_insert_ne in Hc by done. by eapply Hok. }
  destruct (pods index !! pk); [apply H|]. destruct room; [apply H|done].
Qed.
End Matching.
