(* ===== verification/FlowSpan.v ===== *)
(** The matching of the two sides of a flow: reducer/matching/flow_span.{h,cc}, with
    reducer/constants.{h,inl} and reducer/copy_metrics.h.  The agents at the two ends of a
    connection describe it independently; a flow merges what they say into one pair of
    nodes and passes on the metrics of one side.

    Generated code is outside of the model: the calls of a span are outputs ([action]), the
    index is [Matching.Index], the allocation of an [agg_root] succeeds or not, and the data
    base of autonomous systems is an argument. *)
From Stdlib Require Import Ascii String.
From S2P Require Import Prelude IpAddress PollerBase Lookup3 CgroupParser Matching.
Local Open Scope result_scope.

Module Tcp.
Record metrics := mk_metrics {
  active_sockets : Z; sum_retrans : Z; sum_bytes : Z; sum_srtt : Z; sum_delivered : Z; active_rtts : Z;
  syn_timeouts : Z; new_sockets : Z; tcp_resets : Z;
}.
Definition copy_tcp_metrics (src : metrics) : metrics :=
  mk_metrics (active_sockets src) (sum_retrans src) (sum_bytes src) (sum_srtt src) (sum_delivered src)
    (active_rtts src) (syn_timeouts src) (new_sockets src) (tcp_resets src).
End Tcp.

Module Udp.
Record metrics := mk_metrics { active_sockets : Z; addr_changes : Z; packets : Z; bytes : Z; drops : Z }.
Definition copy_udp_metrics (src : metrics) : metrics :=
  mk_metrics (active_sockets src) (addr_changes src) (packets src) (bytes src) (drops src).
End Udp.

Module DnsMetrics.
Record metrics := mk_metrics {
  active_sockets : Z; requests_a : Z; requests_aaaa : Z; responses : Z; timeouts : Z;
  sum_total_time_ns : Z; sum_processing_time_ns : Z;
}.
Definition copy_dns_metrics (src : metrics) : metrics :=
  mk_metrics (active_sockets src) (requests_a src) (requests_aaaa src) (responses src) (timeouts src)
    (sum_total_time_ns src) (sum_processing_time_ns src).
End DnsMetrics.

Module Http.
Record metrics := mk_metrics {
  active_sockets : Z; sum_code_200 : Z; sum_code_400 : Z; sum_code_500 : Z; sum_code_other : Z;
  sum_total_time_ns : Z; sum_processing_time_ns : Z;
}.
Definition copy_http_metrics (src : metrics) : metrics :=
  mk_metrics (active_sockets src) (sum_code_200 src) (sum_code_400 src) (sum_code_500 src) (sum_code_other src)
    (sum_total_time_ns src) (sum_processing_time_ns src).
End Http.

Module FlowSpan.
Import IpAddress.
#[local] Abbreviation uid_key := (list Z * Z)%type.

(** ** reducer/constants.h *)

Definition NONE : Z := 0.
Definition IP : Z := 1.
Definition DNS : Z := 2.
Definition AWS : Z := 3.
Definition INSTANCE_METADATA : Z := 4.
Definition PROCESS : Z := 5.
Definition K8S_CONTAINER : Z := 7.
Definition CONTAINER : Z := 8.
Definition NOMAD : Z := 9.
(** A value of the enumeration is kept, another becomes the default. *)
Definition sanitize_enum (value : Z) : Z := if (0 <=? value) && (value <=? 9) then value else NONE.

Inductive FlowSide := SIDE_A | SIDE_B.
Inductive UpdateDirection := DIR_NONE | A_TO_B | B_TO_A.
#[export] Instance FlowSide_eq_dec : EqDecision FlowSide.
Proof. solve_decision. Defined.
#[export] Instance UpdateDirection_eq_dec : EqDecision UpdateDirection.
Proof. solve_decision. Defined.

Definition kUnknown : list Z := chars "(unknown)".
Definition kCommKubelet : list Z := chars "kubelet".
Definition kPortDNS : Z := 53.

(** [operator~] *)
Definition other_side (side : FlowSide) : FlowSide := match side with SIDE_A => SIDE_B | SIDE_B => SIDE_A end.

(** [u8_to_side], whose assertion fails for other values. *)
Definition u8_to_side (side : Z) : result FlowSide :=
  if side =? 0 then Ok SIDE_A else if side =? 1 then Ok SIDE_B else Undef.

(** An array with an element for each side. *)
Record sides (A : Type) := mk_sides { of_a : A; of_b : A }.
#[global] Arguments mk_sides {A} of_a of_b.
#[global] Arguments of_a {A} s.
#[global] Arguments of_b {A} s.
Definition at_side {A} (side : FlowSide) (s : sides A) : A := match side with SIDE_A => of_a s | SIDE_B => of_b s end.
Definition set_side {A} (side : FlowSide) (x : A) (s : sides A) : sides A :=
  match side with SIDE_A => mk_sides x (of_b s) | SIDE_B => mk_sides (of_a s) x end.

(** ** The span *)

Record AgentInfo := mk_agent { ag_id : list Z; ag_az : list Z; ag_env : list Z; ag_role : list Z; ag_ns : list Z }.
Record TaskInfo := mk_task { comm : list Z; cgroup_name : list Z }.
Record SocketInfo := mk_socket {
  local_addr : IPv6Address; local_port : Z; remote_addr : IPv6Address; remote_port : Z;
  is_connector : Z; remote_dns_name : list Z;
}.
Record K8sInfo := mk_k8s { pod_uid_suffix : list Z; pod_uid_hash : Z }.
Record ContainerInfo := mk_container_info {
  c_name : list Z; c_pod : list Z; c_role : list Z; c_version : list Z; c_ns : list Z; c_type : Z;
}.
Record ServiceInfo := mk_service { s_name : list Z }.

Record NodeData := mk_node {
  id : list Z; az : list Z; role : list Z; role_uid : list Z; version : list Z; env : list Z; ns : list Z;
  node_type : Z; address : list Z; node_comm : list Z; container_name : list Z; node_pod_name : list Z;
}.
Definition NodeData_zero : NodeData := mk_node [] [] [] [] [] [] [] NONE [] [] [] [].

Record agg_root := mk_agg_root { role1 : list Z; az1 : list Z; role2 : list Z; az2 : list Z }.
#[export] Instance agg_root_eq_dec : EqDecision agg_root.
Proof. solve_decision. Defined.

(** The fields of the class, and the references of the span: [k8s_pod1] and [k8s_pod2] are
    those of the sides A and B. *)
Record FlowSpan := mk_flow {
  agent_info_ : sides (option AgentInfo);
  task_info_ : sides (option TaskInfo);
  socket_info_ : sides (option SocketInfo);
  k8s_info_ : sides (option K8sInfo);
  container_info_ : sides (option ContainerInfo);
  service_info_ : sides (option ServiceInfo);
  metrics_update_side_ : option FlowSide;
  n_received_info_messages_ : Z;
  message_count_on_last_update_ : Z;
  flow_agg_root : option agg_root;
  flow_k8s_pods : sides (option uid_key);
}.
Definition both {A} : sides (option A) := mk_sides None None.
Definition FlowSpan_new : FlowSpan := mk_flow both both both both both both None 0 (not32 0) None both.

(** The calls of the span: updates of its own metrics and messages to the aggregation. *)
Inductive action :=
  | tcp_update_to (d : UpdateDirection) (m : Tcp.metrics)
  | udp_update_to (d : UpdateDirection) (m : Udp.metrics)
  | http_update_to (d : UpdateDirection) (m : Http.metrics)
  | dns_update_to (d : UpdateDirection) (m : DnsMetrics.metrics)
  | update_node_of (root : agg_root) (side : FlowSide) (n : NodeData)
  | update_tcp_metrics (root : agg_root) (d : UpdateDirection) (m : Tcp.metrics)
  | update_udp_metrics (root : agg_root) (d : UpdateDirection) (m : Udp.metrics)
  | update_http_metrics (root : agg_root) (d : UpdateDirection) (m : Http.metrics)
  | update_dns_metrics (root : agg_root) (d : UpdateDirection) (m : DnsMetrics.metrics).

(** ** Descriptions of the sides *)

Definition count_message (f : FlowSpan) : FlowSpan :=
  mk_flow (agent_info_ f) (task_info_ f) (socket_info_ f) (k8s_info_ f) (container_info_ f) (service_info_ f)
    (metrics_update_side_ f) (u32 (n_received_info_messages_ f + 1)) (message_count_on_last_update_ f)
    (flow_agg_root f) (flow_k8s_pods f).

Definition agent_info (side : Z) (msg : AgentInfo) (f : FlowSpan) : result FlowSpan :=
  let* side := u8_to_side side in
  Ok (count_message (mk_flow (set_side side (Some msg) (agent_info_ f)) (task_info_ f) (socket_info_ f) (k8s_info_ f)
    (container_info_ f) (service_info_ f) (metrics_update_side_ f) (n_received_info_messages_ f)
    (message_count_on_last_update_ f) (flow_agg_root f) (flow_k8s_pods f))).

Definition task_info (side : Z) (msg : TaskInfo) (f : FlowSpan) : result FlowSpan :=
  let* side := u8_to_side side in
  Ok (count_message (mk_flow (agent_info_ f) (set_side side (Some msg) (task_info_ f)) (socket_info_ f) (k8s_info_ f)
    (container_info_ f) (service_info_ f) (metrics_update_side_ f) (n_received_info_messages_ f)
    (message_count_on_last_update_ f) (flow_agg_root f) (flow_k8s_pods f))).

(** The addresses are the 16 bytes of the message. *)
Definition socket_info (side : Z) (local_addr : list Z) (local_port : Z) (remote_addr : list Z) (remote_port : Z)
    (is_connector : Z) (remote_dns_name : list Z) (f : FlowSpan) : result FlowSpan :=
  let* side := u8_to_side side in
  let msg := mk_socket (v6_from local_addr) local_port (v6_from remote_addr) remote_port is_connector remote_dns_name in
  Ok (count_message (mk_flow (agent_info_ f) (task_info_ f) (set_side side (Some msg) (socket_info_ f)) (k8s_info_ f)
    (container_info_ f) (service_info_ f) (metrics_update_side_ f) (n_received_info_messages_ f)
    (message_count_on_last_update_ f) (flow_agg_root f) (flow_k8s_pods f))).

Definition k8s_info (side : Z) (msg : K8sInfo) (f : FlowSpan) : result FlowSpan :=
  let* side := u8_to_side side in
  Ok (count_message (mk_flow (agent_info_ f) (task_info_ f) (socket_info_ f) (set_side side (Some msg) (k8s_info_ f))
    (container_info_ f) (service_info_ f) (metrics_update_side_ f) (n_received_info_messages_ f)
    (message_count_on_last_update_ f) (flow_agg_root f) (flow_k8s_pods f))).

Definition container_info (side : Z) (name pod role version ns : list Z) (node_type : Z) (f : FlowSpan)
    : result FlowSpan :=
  let* side := u8_to_side side in
  let type := node_type in
  let msg :=
    mk_container_info name pod role version ns (if sanitize_enum type =? type then type else CONTAINER) in
  Ok (count_message (mk_flow (agent_info_ f) (task_info_ f) (socket_info_ f) (k8s_info_ f)
    (set_side side (Some msg) (container_info_ f)) (service_info_ f) (metrics_update_side_ f)
    (n_received_info_messages_ f) (message_count_on_last_update_ f) (flow_agg_root f) (flow_k8s_pods f))).

Definition service_info (side : Z) (msg : ServiceInfo) (f : FlowSpan) : result FlowSpan :=
  let* side := u8_to_side side in
  Ok (count_message (mk_flow (agent_info_ f) (task_info_ f) (socket_info_ f) (k8s_info_ f) (container_info_ f)
    (set_side side (Some msg) (service_info_ f)) (metrics_update_side_ f) (n_received_info_messages_ f)
    (message_count_on_last_update_ f) (flow_agg_root f) (flow_k8s_pods f))).

(** ** Metrics of the sides *)

Definition set_update_side (side : FlowSide) (f : FlowSpan) : FlowSpan :=
  mk_flow (agent_info_ f) (task_info_ f) (socket_info_ f) (k8s_info_ f) (container_info_ f) (service_info_ f)
    (Some side) (n_received_info_messages_ f) (message_count_on_last_update_ f) (flow_agg_root f) (flow_k8s_pods f).

Definition direction_of (side : FlowSide) (is_rx : Z) : UpdateDirection :=
  match side with
  | SIDE_A => if is_rx =? 0 then A_TO_B else B_TO_A
  | SIDE_B => if is_rx =? 0 then B_TO_A else A_TO_B
  end.

Definition metrics_update_direction (side : FlowSide) (is_rx : Z) (force_both_sides : bool) (f : FlowSpan)
    : UpdateDirection * FlowSpan :=
  if force_both_sides then (direction_of side is_rx, f)
  else
    match metrics_update_side_ f with
    | None => (direction_of side is_rx, set_update_side side f)
    | Some s => if decide (s = side) then (direction_of side is_rx, f) else (DIR_NONE, f)
    end.

Definition tcp_update (side is_rx : Z) (msg : Tcp.metrics) (f : FlowSpan) : result (FlowSpan * list action) :=
  let* side := u8_to_side side in
  let '(direction, f) := metrics_update_direction side is_rx false f in
  let point := Tcp.copy_tcp_metrics msg in
  let skip_rtts := negb (is_rx =? 0) in
  let point :=
    if skip_rtts then
      Tcp.mk_metrics (Tcp.active_sockets point) (Tcp.sum_retrans point) (Tcp.sum_bytes point) 0
        (Tcp.sum_delivered point) 0 (Tcp.syn_timeouts point) (Tcp.new_sockets point) (Tcp.tcp_resets point)
    else point in
  let full :=
    match direction with
    | A_TO_B => [tcp_update_to A_TO_B point]
    | B_TO_A => [tcp_update_to B_TO_A point]
    | DIR_NONE => []
    end in
  let rtt_metrics := Tcp.mk_metrics 0 0 0 (Tcp.sum_srtt point) 0 (Tcp.active_rtts point) 0 0 0 in
  let rtts :=
    if negb skip_rtts then
      match direction with
      | A_TO_B => [tcp_update_to B_TO_A rtt_metrics]
      | B_TO_A => [tcp_update_to A_TO_B rtt_metrics]
      | DIR_NONE => [tcp_update_to A_TO_B rtt_metrics; tcp_update_to B_TO_A rtt_metrics]
      end
    else [] in
  Ok (f, full ++ rtts).

Definition udp_update (side is_rx : Z) (msg : Udp.metrics) (f : FlowSpan) : result (FlowSpan * list action) :=
  let* side := u8_to_side side in
  let '(direction, f) := metrics_update_direction side is_rx false f in
  let point := Udp.copy_udp_metrics msg in
  Ok (f,
    match direction with
    | A_TO_B => [udp_update_to A_TO_B point]
    | B_TO_A => [udp_update_to B_TO_A point]
    | DIR_NONE => []
    end).

Definition SC_SERVER : Z := 1.

(** [int] of a [bool] *)
Definition b2z (b : bool) : Z := if b then 1 else 0.

Definition http_update (side client_server : Z) (msg : Http.metrics) (f : FlowSpan) : result (FlowSpan * list action) :=
  let* side := u8_to_side side in
  let is_rx := client_server =? SC_SERVER in
  let '(direction, f) := metrics_update_direction side (b2z is_rx) false f in
  let point := Http.copy_http_metrics msg in
  let point :=
    Http.mk_metrics (Http.active_sockets point) (Http.sum_code_200 point) (Http.sum_code_400 point)
      (Http.sum_code_500 point) (Http.sum_code_other point)
      (if negb is_rx then Http.sum_total_time_ns point else 0)
      (if negb is_rx then 0 else Http.sum_processing_time_ns point) in
  let '(direction, point, f) :=
    match direction with
    | DIR_NONE =>
      let '(direction, f) := metrics_update_direction side (b2z is_rx) true f in
      (direction, Http.mk_metrics 0 0 0 0 0 (Http.sum_total_time_ns point) (Http.sum_processing_time_ns point), f)
    | _ => (direction, point, f)
    end in
  Ok (f,
    match direction with
    | A_TO_B => [http_update_to A_TO_B point]
    | B_TO_A => [http_update_to B_TO_A point]
    | DIR_NONE => []
    end).

Definition dns_update (side client_server : Z) (msg : DnsMetrics.metrics) (f : FlowSpan)
    : result (FlowSpan * list action) :=
  let* side := u8_to_side side in
  let is_rx := client_server =? SC_SERVER in
  let '(direction, f) := metrics_update_direction side (b2z is_rx) false f in
  let point := DnsMetrics.copy_dns_metrics msg in
  let point :=
    DnsMetrics.mk_metrics (DnsMetrics.active_sockets point) (DnsMetrics.requests_a point) (DnsMetrics.requests_aaaa point)
      (DnsMetrics.responses point) (DnsMetrics.timeouts point)
      (if negb is_rx then DnsMetrics.sum_total_time_ns point else 0)
      (if negb is_rx then 0 else DnsMetrics.sum_processing_time_ns point) in
  let '(direction, point, f) :=
    match direction with
    | DIR_NONE =>
      let '(direction, f) := metrics_update_direction side (b2z is_rx) true f in
      (direction,
       DnsMetrics.mk_metrics 0 0 0 0 0 (DnsMetrics.sum_total_time_ns point) (DnsMetrics.sum_processing_time_ns point), f)
    | _ => (direction, point, f)
    end in
  Ok (f,
    match direction with
    | A_TO_B => [dns_update_to A_TO_B point]
    | B_TO_A => [dns_update_to B_TO_A point]
    | DIR_NONE => []
    end).

(** ** Nodes *)

Definition kNoAgentEnvironmentName : list Z := chars "(no agent)".
Definition kAddrInstanceMetadata : IPv6Address := from_host_hextets [0; 0; 0; 0; 0; 0xffff; 0xa9fe; 0xa9fe].

#[export] Instance IPv6Address_eq_dec : EqDecision IPv6Address.
Proof. solve_decision. Defined.

Definition is_empty (s : list Z) : bool := bool_decide (s = []).

(** The comparison of strings by their bytes, and of pairs of strings by [std::tie]. *)
Fixpoint str_ltb (s t : list Z) : bool :=
  match s, t with
  | _, [] => false
  | [], _ :: _ => true
  | x :: s, y :: t => (x <? y) || ((x =? y) && str_ltb s t)
  end.
Definition tie_leb (role_a az_a role_b az_b : list Z) : bool :=
  str_ltb role_a role_b || (negb (str_ltb role_b role_a) && negb (str_ltb az_b az_a)).

Definition root_key (node_a node_b : NodeData) : agg_root :=
  let ip := (node_type node_a =? IP) || (node_type node_b =? IP) in
  let '(role_a, role_b) := (role node_a, role node_b) in
  let '(az_a, az_b) := if ip then (az node_a, az node_b) else ([], []) in
  if tie_leb role_a az_a role_b az_b then
    mk_agg_root (Matching.truncate 80 role_a) (Matching.truncate 32 az_a)
      (Matching.truncate 256 role_b) (Matching.truncate 32 az_b)
  else
    mk_agg_root (Matching.truncate 80 role_b) (Matching.truncate 32 az_b)
      (Matching.truncate 256 role_a) (Matching.truncate 32 az_a).

Definition set_agg_root (root : option agg_root) (f : FlowSpan) : FlowSpan :=
  mk_flow (agent_info_ f) (task_info_ f) (socket_info_ f) (k8s_info_ f) (container_info_ f) (service_info_ f)
    (metrics_update_side_ f) (n_received_info_messages_ f) (message_count_on_last_update_ f) root (flow_k8s_pods f).

Definition set_k8s_pod (side : FlowSide) (key : uid_key) (f : FlowSpan) : FlowSpan :=
  mk_flow (agent_info_ f) (task_info_ f) (socket_info_ f) (k8s_info_ f) (container_info_ f) (service_info_ f)
    (metrics_update_side_ f) (n_received_info_messages_ f) (message_count_on_last_update_ f) (flow_agg_root f)
    (set_side side (Some key) (flow_k8s_pods f)).

Definition remember_count (f : FlowSpan) : FlowSpan :=
  mk_flow (agent_info_ f) (task_info_ f) (socket_info_ f) (k8s_info_ f) (container_info_ f) (service_info_ f)
    (metrics_update_side_ f) (n_received_info_messages_ f) (n_received_info_messages_ f)
    (flow_agg_root f) (flow_k8s_pods f).

(** [room] is whether the allocation of an [agg_root] succeeds. *)
Definition create_agg_root (room : bool) (node_a node_b : NodeData) (f : FlowSpan) : FlowSpan :=
  if is_empty (role node_a) || is_empty (role node_b) then f
  else
    let key := root_key node_a node_b in
    if bool_decide (flow_agg_root f = Some key) then f
    else set_agg_root (if room then Some key else None) f.

Definition update_nodes (room : bool) (node_a node_b : NodeData) (f : FlowSpan) : FlowSpan * list action :=
  let f := create_agg_root room node_a node_b f in
  match flow_agg_root f with
  | None => (f, [])
  | Some root => (f, [update_node_of root SIDE_A node_a; update_node_of root SIDE_B node_b])
  end.

Definition should_attempt_k8s_enrichment (f : FlowSpan) (side : FlowSide) : bool :=
  match at_side side (flow_k8s_pods f) with
  | Some _ => false
  | None => bool_decide (is_Some (at_side side (k8s_info_ f)))
  end.

Definition get_comm (f : FlowSpan) (side : FlowSide) : list Z :=
  match at_side side (task_info_ f) with Some t => comm t | None => [] end.

Definition get_addr_port (f : FlowSpan) (side : FlowSide) : option (IPv6Address * Z) :=
  match at_side side (socket_info_ f) with
  | Some local_info => Some (local_addr local_info, local_port local_info)
  | None =>
    match at_side (other_side side) (socket_info_ f) with
    | Some remote_info => Some (remote_addr remote_info, remote_port remote_info)
    | None => None
    end
  end.

(** What is outside of the flow: [inet_ntop], the data base [an_db] (whether it is there, what
    it knows about an address, and the name of the organization), the flags of the start-up,
    and the place in memory of a string that is hashed. *)
Record Surroundings := mk_surroundings {
  ntop6 : list Z -> option (list Z);
  ntop4 : Z -> option (list Z);
  an_db : option (list Z -> option (option (list Z)));
  aws_enrichment_enabled_ : bool;
  autonomous_system_ip_enabled : bool;
  cfg : Lookup3.config;
  place : list Z -> Z * list Z;
}.

Section with_surroundings.
Context (env : Surroundings).

Definition text_of (a : IPv6Address) : result (list Z) := get (tidy_string (ntop6 env) (ntop4 env) a).

Definition get_id_az (f : FlowSpan) (side : FlowSide) : result (list Z * list Z * bool) :=
  match at_side side (agent_info_ f) with
  | Some agent_info => Ok (ag_id agent_info, ag_az agent_info, false)
  | None =>
    match at_side (other_side side) (socket_info_ f) with
    | None => Ok ([], kUnknown, false)
    | Some socket_info =>
      let* id := text_of (remote_addr socket_info) in
      Ok
        match an_db env with
        | None => (id, kUnknown, false)
        | Some db =>
          match db (v6_write_to (remote_addr socket_info)) with
          | Some (Some organization) => (id, organization, true)
          | _ => (id, kUnknown, false)
          end
        end
    end
  end.

(** The container of the process of a side, by the name of its control group. *)
Definition container_key (f : FlowSpan) (side : FlowSide) : result (option uid_key) :=
  match at_side side (task_info_ f) with
  | None => Ok None
  | Some task_info =>
    let container_id := CgroupParser.container_id (CgroupParser.parse (cgroup_name task_info)) in
    if is_empty container_id then Ok None
    else
      let '(addr, rest) := place env container_id in
      let* key := get (UidKey.make_uid_key (cfg env) addr rest container_id) in
      Ok (Some key)
  end.

Definition get_k8s_pod (f : FlowSpan) (side : FlowSide) (index : Matching.Index) : result (option uid_key) :=
  let by_container :=
    let* key := container_key f side in
    Ok
      match key with
      | Some key => Matching.container_pod (Matching.container_by_key index key)
      | None => None
      end in
  match at_side side (k8s_info_ f) with
  | Some k8s_info =>
    let pod_key := (pod_uid_suffix k8s_info, pod_uid_hash k8s_info) in
    if negb (is_empty (Matching.owner_name (Matching.pod_by_key index pod_key))) then Ok (Some pod_key)
    else by_container
  | None => by_container
  end.

(** The enrichment of a side, in the order of data richness: its type, role, the uid of
    the role, version, name space, the name of its container and the pod it was found in. *)
Record enrichment := mk_enrichment {
  e_type : Z; e_role : list Z; e_role_uid : list Z; e_version : list Z; e_ns : list Z; e_container : list Z;
  e_id : list Z; e_az : list Z; e_pod : option uid_key;
}.

(** Kubernetes. *)
Definition enrich_k8s (f : FlowSpan) (side : FlowSide) (index : Matching.Index) (pod_key : uid_key) (id az : list Z)
    : result enrichment :=
  let pod := Matching.pod_by_key index pod_key in
  let* key := container_key f side in
  Ok
    match key with
    | Some key =>
      let k8s_container := Matching.container_by_key index key in
      mk_enrichment K8S_CONTAINER (Matching.owner_name pod) (Matching.owner_uid pod)
        (if negb (is_empty (Matching.container_version k8s_container)) then Matching.container_version k8s_container
         else Matching.pod_version pod)
        (Matching.pod_ns pod) (Matching.container_name k8s_container) id az (Some pod_key)
    | None =>
      mk_enrichment K8S_CONTAINER (Matching.owner_name pod) (Matching.owner_uid pod) (Matching.pod_version pod)
        (Matching.pod_ns pod) [] id az (Some pod_key)
    end.

(** A side without an agent: AWS, then DNS, then IP, from the socket of the other side. *)
Definition enrich_remote (index : Matching.Index) (flipside_socket_info : SocketInfo) (ns id az : list Z)
    (is_autonomous_system : bool) : enrichment :=
  let aws_info :=
    if aws_enrichment_enabled_ env then Matching.aws_info index (v6_as_int (remote_addr flipside_socket_info))
    else None in
  let fallback :=
    if negb (is_empty (remote_dns_name flipside_socket_info)) then
      mk_enrichment DNS (remote_dns_name flipside_socket_info) [] [] ns [] id az None
    else mk_enrichment IP (if is_autonomous_system then chars "(internet)" else chars "(unknown)") [] [] ns [] id az None in
  match aws_info with
  | Some info =>
    if negb (is_empty (Matching.aws_role info)) && negb (is_empty (Matching.aws_az info)) then
      mk_enrichment AWS (Matching.aws_role info) [] [] ns []
        (if negb (is_empty (Matching.aws_id info)) then Matching.aws_id info ++ chars "/" ++ id else id)
        (Matching.aws_az info) None
    else fallback
  | None => fallback
  end.

Definition enrich (f : FlowSpan) (side : FlowSide) (index : Matching.Index) (ns id az : list Z)
    (is_autonomous_system : bool) : result enrichment :=
  let* pod := get_k8s_pod f side index in
  match pod with
  | Some pod_key => enrich_k8s f side index pod_key id az
  | None =>
    Ok
      match at_side side (container_info_ f), at_side side (agent_info_ f), at_side (other_side side) (socket_info_ f) with
      | Some container, _, _ =>
        mk_enrichment (if sanitize_enum (c_type container) =? c_type container then c_type container else CONTAINER)
          (c_role container) [] (c_version container) (c_ns container) [] id az None
      | None, Some agent_info, _ =>
        let role :=
          match at_side side (service_info_ f), at_side side (task_info_ f) with
          | Some service_info, _ => s_name service_info
          | None, Some task_info => comm task_info
          | None, None => ag_role agent_info
          end in
        mk_enrichment PROCESS role [] [] (ag_ns agent_info) [] id az None
      | None, None, Some flipside_socket_info =>
        enrich_remote index flipside_socket_info ns id az is_autonomous_system
      | None, None, None => mk_enrichment NONE [] [] [] ns [] id az None
      end
  end.

(** The roles of well-known processes, ports and addresses. *)
Definition well_known (f : FlowSpan) (side : FlowSide) (addr : IPv6Address) (port : Z) (e : enrichment) : enrichment :=
  let with_role role :=
    mk_enrichment (e_type e) role (e_role_uid e) (e_version e) (e_ns e) (e_container e) (e_id e) (e_az e) (e_pod e) in
  if bool_decide (get_comm f side = kCommKubelet) then with_role (chars "kubelet")
  else if port =? kPortDNS then with_role (chars "DNS")
  else if bool_decide (addr = kAddrInstanceMetadata) then
    let '(id, az) :=
      match at_side (other_side side) (agent_info_ f) with
      | Some agent_info => (ag_id agent_info, ag_az agent_info)
      | None => (e_id e, e_az e)
      end in
    mk_enrichment INSTANCE_METADATA (chars "instance metadata") (e_role_uid e) (e_version e) (e_ns e) (e_container e)
      id az (e_pod e)
  else e.

Definition resolve_node (f : FlowSpan) (side : FlowSide) (index : Matching.Index) : result (NodeData * FlowSpan) :=
  match get_addr_port f side with
  | None => Ok (NodeData_zero, f)
  | Some (addr, port) =>
    let* address := text_of addr in
    let* (id, az, is_autonomous_system) := get_id_az f side in
    let '(node_env, ns) :=
      match at_side side (agent_info_ f) with
      | Some agent_info => (ag_env agent_info, ag_ns agent_info)
      | None => (kNoAgentEnvironmentName, [])
      end in
    let pod_name := match at_side side (container_info_ f) with Some c => c_pod c | None => [] end in
    let* e := enrich f side index ns id az is_autonomous_system in
    let f := match e_pod e with Some pod_key => set_k8s_pod side pod_key f | None => f end in
    let e := well_known f side addr port e in
    let '(id, address) :=
      if is_autonomous_system && (e_type e =? IP) && negb (autonomous_system_ip_enabled env) then (chars "AS", chars "AS")
      else (e_id e, address) in
    let container_name :=
      if is_empty (e_container e) then
        match at_side side (container_info_ f) with Some c => c_name c | None => [] end
      else e_container e in
    Ok (mk_node id (e_az e) (e_role e) (e_role_uid e) (e_version e) node_env (e_ns e) (e_type e) address
          (get_comm f side) container_name pod_name, f)
  end.

(** The two resolutions read and write different fields, so their order does not matter. *)
Definition update_nodes_if_required (room : bool) (index : Matching.Index) (f : FlowSpan)
    : result (FlowSpan * list action) :=
  let got_messages := negb (n_received_info_messages_ f =? message_count_on_last_update_ f) in
  let update_needed :=
    got_messages || should_attempt_k8s_enrichment f SIDE_A || should_attempt_k8s_enrichment f SIDE_B in
  if negb update_needed then Ok (f, [])
  else
    let* (node_a, f) := resolve_node f SIDE_A index in
    let* (node_b, f) := resolve_node f SIDE_B index in
    let '(f, out) := update_nodes room node_a node_b f in
    Ok (remember_count f, out).

(** ** To the aggregation *)

(** The metrics that the flow has collected in an interval, for one direction. *)
Inductive collected :=
  | tcp_collected (m : Tcp.metrics) | udp_collected (m : Udp.metrics)
  | dns_collected (m : DnsMetrics.metrics) | http_collected (m : Http.metrics).

Definition send_metrics (room : bool) (index : Matching.Index) (dir : UpdateDirection) (m : collected) (f : FlowSpan)
    : result (FlowSpan * list action) :=
  let* (f, out) := update_nodes_if_required room index f in
  match flow_agg_root f with
  | None => Ok (f, out)
  | Some root =>
    Ok (f, out ++
      [match m with
       | tcp_collected m => update_tcp_metrics root dir m
       | udp_collected m => update_udp_metrics root dir m
       | dns_collected m => update_dns_metrics root dir m
       | http_collected m => update_http_metrics root dir m
       end])
  end.

(** ** Histories *)

(** The messages for a flow, and the collected metrics being sent on, with what the index
    knows and whether there is room at that time. *)
Inductive event :=
  | AgentMsg (side : Z) (msg : AgentInfo)
  | TaskMsg (side : Z) (msg : TaskInfo)
  | SocketMsg (side : Z) (local_addr : list Z) (local_port : Z) (remote_addr : list Z) (remote_port : Z)
      (is_connector : Z) (remote_dns_name : list Z)
  | K8sMsg (side : Z) (msg : K8sInfo)
  | ContainerMsg (side : Z) (name pod role version ns : list Z) (node_type : Z)
  | ServiceMsg (side : Z) (msg : ServiceInfo)
  | TcpMsg (side is_rx : Z) (m : Tcp.metrics)
  | UdpMsg (side is_rx : Z) (m : Udp.metrics)
  | HttpMsg (side client_server : Z) (m : Http.metrics)
  | DnsMsg (side client_server : Z) (m : DnsMetrics.metrics)
  | Send (room : bool) (index : Matching.Index) (dir : UpdateDirection) (m : collected).

Definition silently (r : result FlowSpan) : result (FlowSpan * list action) := let* f := r in Ok (f, []).

Definition handle (e : event) (f : FlowSpan) : result (FlowSpan * list action) :=
  match e with
  | AgentMsg side msg => silently (agent_info side msg f)
  | TaskMsg side msg => silently (task_info side msg f)
  | SocketMsg side la lp ra rp c dns => silently (socket_info side la lp ra rp c dns f)
  | K8sMsg side msg => silently (k8s_info side msg f)
  | ContainerMsg side name pod role version ns t => silently (container_info side name pod role version ns t f)
  | ServiceMsg side msg => silently (service_info side msg f)
  | TcpMsg side is_rx m => tcp_update side is_rx m f
  | UdpMsg side is_rx m => udp_update side is_rx m f
  | HttpMsg side cs m => http_update side cs m f
  | DnsMsg side cs m => dns_update side cs m f
  | Send room index dir m => send_metrics room index dir m f
  end.

Fixpoint run (es : list event) (f : FlowSpan) : result (FlowSpan * list action) :=
  match es with
  | [] => Ok (f, [])
  | e :: es => let* (f, out) := handle e f in let* (f, rest) := run es f in Ok (f, out ++ rest)
  end.

(** The side of an event is one of the two, and the addresses are of 16 bytes. *)
Definition side_ok (side : Z) : Prop := side = 0 \/ side = 1.
Definition event_ok (e : event) : Prop :=
  match e with
  | AgentMsg side _ | TaskMsg side _ | K8sMsg side _ | ContainerMsg side _ _ _ _ _ _ | ServiceMsg side _
  | TcpMsg side _ _ | UdpMsg side _ _ | HttpMsg side _ _ | DnsMsg side _ _ => side_ok side
  | SocketMsg side la _ ra _ _ _ =>
    side_ok side /\ (length la = 16%nat /\ Forall is_byte la) /\ (length ra = 16%nat /\ Forall is_byte ra)
  | Send _ _ _ _ => True
  end.

(** The memory after a string holds bytes. *)
Definition surroundings_ok : Prop := forall s, Lookup3.bytes (place env s).2.
End with_surroundings.

(** ** Totality *)

Definition socket_ok (s : SocketInfo) : Prop := v6_ok (local_addr s) /\ v6_ok (remote_addr s).
Definition flow_ok (f : FlowSpan) : Prop :=
  forall side s, at_side side (socket_info_ f) = Some s -> socket_ok s.

Lemma side_of (side : Z) : side_ok side -> exists s, u8_to_side side = Ok s.
Proof. intros [-> | ->]; by eexists. Qed.

Lemma at_set_side {A} (s t : FlowSide) (x : A) (a : sides A) :
  at_side s (set_side t x a) = if decide (s = t) then x else at_side s a.
Proof. by destruct s, t, a. Qed.

Lemma tidy_string_some ntop6 ntop4 (a : IPv6Address) : v6_ok a -> exists t, tidy_string ntop6 ntop4 a = Some t.
Proof.
  intros Ha. unfold tidy_string, to_ipv4. rewrite is_ipv4_spec by done. cbn [mbind option_bind].
  destruct (negb _); [by eexists|]. destruct Ha as [Hl _]. destruct a as [hs]. cbn [hextets_] in *.
  explode hs Hl. by eexists.
Qed.

Section totality.
Context (env : Surroundings) (Henv : surroundings_ok env).

Lemma text_of_ok (a : IPv6Address) : v6_ok a -> exists t, text_of env a = Ok t.
Proof using. intros Ha. unfold text_of. destruct (tidy_string_some (ntop6 env) (ntop4 env) a Ha) as [t ->]. by exists t. Qed.

Lemma hex_bytes (n : nat) (ds : list Z) : CgroupParser.hex n ds -> Lookup3.bytes ds.
Proof using. intros [_ H]. eapply Forall_impl; [exact H|]. cbn. unfold CgroupParser.is_hex_digit. lia. Qed.

(** The key of a container is that of its id, wherever the id is in memory. *)
Lemma container_key_spec (f : FlowSpan) (side : FlowSide) :
  container_key env f side =
  Ok match at_side side (task_info_ f) with
     | Some t =>
       let id := CgroupParser.container_id (CgroupParser.parse (cgroup_name t)) in
       if is_empty id then None else Some (UidKey.uid_key id)
     | None => None
     end.
Proof using Henv.
  unfold container_key. destruct (at_side side (task_info_ f)) as [t|]; [|done]. cbv zeta.
  destruct (CgroupParser.parse_stored (cgroup_name t)) as [[->|Hhex] _]; [done|].
  set (id := CgroupParser.container_id _) in *. unfold is_empty. case_bool_decide as E; [done|].
  pose proof (Henv id) as Hrest. destruct (place env id) as [addr rest]. cbn [snd] in Hrest.
  rewrite UidKey.make_uid_key_spec; [done|apply Forall_app; split; [by eapply hex_bytes|done]|].
  intros _ _ _. unfold zlen. rewrite (proj1 Hhex). apply Nat2Z.is_nonneg.
Qed.

Lemma get_k8s_pod_ok (f : FlowSpan) (side : FlowSide) (index : Matching.Index) :
  exists p, get_k8s_pod env f side index = Ok p.
Proof using Henv.
  unfold get_k8s_pod. rewrite container_key_spec. cbn [rbind].
  destruct (at_side side (k8s_info_ f)); [destruct (negb _)|]; by eexists.
Qed.

Lemma enrich_ok (f : FlowSpan) (side : FlowSide) (index : Matching.Index) (ns id az : list Z) (is_as : bool) :
  exists e, enrich env f side index ns id az is_as = Ok e.
Proof using Henv.
  unfold enrich. destruct (get_k8s_pod_ok f side index) as [[key|] ->]; cbn [rbind]; [|by eexists].
  unfold enrich_k8s. rewrite container_key_spec. by eexists.
Qed.

Lemma get_addr_port_ok (f : FlowSpan) (side : FlowSide) (addr : IPv6Address) (port : Z) :
  flow_ok f -> get_addr_port f side = Some (addr, port) -> v6_ok addr.
Proof using.
  intros Hf H. unfold get_addr_port in H. destruct (at_side side _) as [s|] eqn:E.
  - injection H as <- _. by apply (Hf _ _ E).
  - destruct (at_side (other_side side) _) as [s|] eqn:E2; [|done]. injection H as <- _. by apply (Hf _ _ E2).
Qed.

Lemma get_id_az_ok (f : FlowSpan) (side : FlowSide) : flow_ok f -> exists r, get_id_az env f side = Ok r.
Proof using.
  intros Hf. unfold get_id_az. destruct (at_side side _); [by eexists|].
  destruct (at_side (other_side side) _) as [s|] eqn:E; [|by eexists].
  destruct (text_of_ok (remote_addr s)) as [t ->]; [by apply (Hf _ _ E)|]. by eexists.
Qed.

(** A resolution changes nothing but the pod of its side. *)
Lemma resolve_node_ok (f : FlowSpan) (side : FlowSide) (index : Matching.Index) :
  flow_ok f ->
  exists n pod, resolve_node env f side index = Ok (n, match pod with Some key => set_k8s_pod side key f | None => f end).
Proof using Henv.
  intros Hf. unfold resolve_node. destruct (get_addr_port f side) as [[addr port]|] eqn:E; [|by exists NodeData_zero, None].
  destruct (text_of_ok addr) as [t ->]; [by eapply get_addr_port_ok|]. cbn [rbind].
  destruct (get_id_az_ok f side Hf) as [[[id az] is_as] ->]. cbn [rbind].
  destruct (match at_side side (agent_info_ f) with Some _ => _ | None => _ end) as [nenv ns].
  destruct (enrich_ok f side index ns id az is_as) as [e ->]. cbn [rbind].
  destruct (if _ && _ then _ else _) as [id' address'].
  eexists _, (e_pod e). reflexivity.
Qed.

Lemma flow_ok_pod (side : FlowSide) (pod : option uid_key) (f : FlowSpan) :
  flow_ok f -> flow_ok (match pod with Some key => set_k8s_pod side key f | None => f end).
Proof using. by destruct pod. Qed.

(** An update of the nodes keeps the descriptions of the sides and the side that counts. *)
Definition same_sides (f f' : FlowSpan) : Prop :=
  agent_info_ f' = agent_info_ f /\ task_info_ f' = task_info_ f /\ socket_info_ f' = socket_info_ f /\
  k8s_info_ f' = k8s_info_ f /\ container_info_ f' = container_info_ f /\ service_info_ f' = service_info_ f /\
  metrics_update_side_ f' = metrics_update_side_ f /\ n_received_info_messages_ f' = n_received_info_messages_ f.

Definition is_node_update (a : action) : bool := match a with update_node_of _ _ _ => true | _ => false end.

Lemma update_nodes_same (room : bool) (a b : NodeData) (f : FlowSpan) :
  same_sides f (update_nodes room a b f).1 /\ Forall (fun x => is_node_update x = true) (update_nodes room a b f).2.
Proof using.
  assert (Hc : same_sides f (create_agg_root room a b f)).
  { unfold create_agg_root. destruct (_ || _); [done|]. cbv zeta. by case_bool_decide. }
  unfold update_nodes. destruct (flow_agg_root (create_agg_root room a b f)); (split; [exact Hc|cbn [snd]; auto]).
Qed.

Lemma update_if_required_ok (room : bool) (index : Matching.Index) (f : FlowSpan) :
  flow_ok f ->
  exists f' out, update_nodes_if_required env room index f = Ok (f', out) /\ same_sides f f' /\
    Forall (fun x => is_node_update x = true) out.
Proof using Henv.
  intros Hf. unfold update_nodes_if_required. cbv zeta. destruct (negb (_ || _)); [by exists f, []|].
  destruct (resolve_node_ok f SIDE_A index Hf) as (na & pa & ->). cbn [rbind].
  pose proof (flow_ok_pod SIDE_A pa f Hf) as Hf1. set (f1 := match pa with Some _ => _ | None => _ end) in *.
  destruct (resolve_node_ok f1 SIDE_B index Hf1) as (nb & pb & ->). cbn [rbind].
  set (f2 := match pb with Some _ => _ | None => _ end).
  assert (H2 : same_sides f f2) by (unfold f2, f1; by destruct pa, pb).
  destruct (update_nodes_same room na nb f2) as [H3 H4]. destruct (update_nodes room na nb f2) as [f3 out].
  exists (remember_count f3), out. split; [done|]. split; [|done].
  destruct H2 as (?&?&?&?&?&?&?&?), H3 as (?&?&?&?&?&?&?&?). cbn [fst] in *. unfold same_sides. cbn. intuition congruence.
Qed.

Definition is_sent (a : action) : bool :=
  match a with tcp_update_to _ _ | udp_update_to _ _ | http_update_to _ _ | dns_update_to _ _ => false | _ => true end.

Lemma send_metrics_ok (room : bool) (index : Matching.Index) (d : UpdateDirection) (m : collected) (f : FlowSpan) :
  flow_ok f ->
  exists f' out, send_metrics env room index d m f = Ok (f', out) /\ same_sides f f' /\
    Forall (fun x => is_sent x = true) out.
Proof using Henv.
  intros Hf. unfold send_metrics. destruct (update_if_required_ok room index f Hf) as (f' & out & -> & Hs & Hout).
  cbn [rbind]. assert (Hsent : Forall (fun x => is_sent x = true) out).
  { eapply Forall_impl; [exact Hout|]. by intros []. }
  destruct (flow_agg_root f'); [|by exists f', out]. eexists f', _. split; [done|]. split; [done|].
  apply Forall_app. split; [done|]. constructor; [|done]. by destruct m.
Qed.
End totality.

(** ** What is counted *)

Section totals.
Context {A : Type} (get : A -> Z).
Definition total (l : list A) : Z := foldr (fun m acc => get m + acc) 0 l.
Lemma metrics_total_app (l k : list A) : total (l ++ k) = total l + total k.
Proof.
  induction l as [|x l IH]; [done|]. change (get x + total (l ++ k) = get x + total l + total k). rewrite IH. lia.
Qed.
End totals.

(** The updates of a direction. *)
Definition tcp_to (d : UpdateDirection) : list action -> list Tcp.metrics :=
  omap (fun a => match a with tcp_update_to d' m => if decide (d' = d) then Some m else None | _ => None end).
Definition udp_to (d : UpdateDirection) : list action -> list Udp.metrics :=
  omap (fun a => match a with udp_update_to d' m => if decide (d' = d) then Some m else None | _ => None end).
Definition http_to (d : UpdateDirection) : list action -> list Http.metrics :=
  omap (fun a => match a with http_update_to d' m => if decide (d' = d) then Some m else None | _ => None end).
Definition dns_to (d : UpdateDirection) : list action -> list DnsMetrics.metrics :=
  omap (fun a => match a with dns_update_to d' m => if decide (d' = d) then Some m else None | _ => None end).

(** The messages of a direction, from the sides that [who] selects; [rx] selects those about
    received data, or from servers. *)
Definition selected (who : FlowSide -> bool) (rx : Z -> bool) (d : UpdateDirection) (side is_rx : Z) : bool :=
  match u8_to_side side with
  | Ok s => who s && rx is_rx && bool_decide (direction_of s is_rx = d)
  | _ => false
  end.
Definition server (cs : Z) : Z := b2z (cs =? SC_SERVER).
Definition tcp_from who rx d : list event -> list Tcp.metrics :=
  omap (fun e => match e with TcpMsg side x m => if selected who rx d side x then Some m else None | _ => None end).
Definition udp_from who rx d : list event -> list Udp.metrics :=
  omap (fun e => match e with UdpMsg side x m => if selected who rx d side x then Some m else None | _ => None end).
Definition http_from who rx d : list event -> list Http.metrics :=
  omap (fun e => match e with HttpMsg side x m => if selected who rx d side (server x) then Some m else None | _ => None end).
Definition dns_from who rx d : list event -> list DnsMetrics.metrics :=
  omap (fun e => match e with DnsMsg side x m => if selected who rx d side (server x) then Some m else None | _ => None end).
(** The messages about sent data, of both sides. *)
Definition tcp_sent : list event -> list Tcp.metrics :=
  omap (fun e => match e with TcpMsg _ x m => if x =? 0 then Some m else None | _ => None end).

Definition any {A} (_ : A) : bool := true.
Definition sending (x : Z) : bool := x =? 0.
Definition receiving (x : Z) : bool := negb (x =? 0).

(** The side of the first message with metrics. *)
Definition event_side (e : event) : option FlowSide :=
  match e with
  | TcpMsg side _ _ | UdpMsg side _ _ | HttpMsg side _ _ | DnsMsg side _ _ =>
    match u8_to_side side with Ok s => Some s | _ => None end
  | _ => None
  end.
Definition counting_side (known : option FlowSide) (es : list event) : option FlowSide :=
  match known with Some s => Some s | None => head (omap event_side es) end.

Definition tcp_counters : list (Tcp.metrics -> Z) :=
  [Tcp.active_sockets; Tcp.sum_retrans; Tcp.sum_bytes; Tcp.sum_delivered; Tcp.syn_timeouts; Tcp.new_sockets;
   Tcp.tcp_resets].
Definition http_counters : list (Http.metrics -> Z) :=
  [Http.active_sockets; Http.sum_code_200; Http.sum_code_400; Http.sum_code_500; Http.sum_code_other].
Definition dns_counters : list (DnsMetrics.metrics -> Z) :=
  [DnsMetrics.active_sockets; DnsMetrics.requests_a; DnsMetrics.requests_aaaa; DnsMetrics.responses; DnsMetrics.timeouts].

(** The updates of both directions account for the messages, where [who] is the side that counts. *)
Record balanced (who : FlowSide -> bool) (es : list event) (out : list action) (d : UpdateDirection) : Prop := {
  bal_tcp : Forall (fun get => total get (tcp_to d out) = total get (tcp_from who any d es)) tcp_counters;
  bal_rtt : Forall (fun get => total get (tcp_to d out) = total get (tcp_sent es)) [Tcp.sum_srtt; Tcp.active_rtts];
  bal_udp : udp_to d out = udp_from who any d es;
  bal_http : Forall (fun get => total get (http_to d out) = total get (http_from who any d es)) http_counters;
  bal_http_total :
    total Http.sum_total_time_ns (http_to d out) = total Http.sum_total_time_ns (http_from any sending d es);
  bal_http_processing :
    total Http.sum_processing_time_ns (http_to d out) = total Http.sum_processing_time_ns (http_from any receiving d es);
  bal_dns : Forall (fun get => total get (dns_to d out) = total get (dns_from who any d es)) dns_counters;
  bal_dns_total :
    total DnsMetrics.sum_total_time_ns (dns_to d out) = total DnsMetrics.sum_total_time_ns (dns_from any sending d es);
  bal_dns_processing :
    total DnsMetrics.sum_processing_time_ns (dns_to d out) =
    total DnsMetrics.sum_processing_time_ns (dns_from any receiving d es);
}.

Lemma total_omap {A B C} (get : C -> Z) (h : A -> option C) (g : B -> option C) (l l' : list A) (k k' : list B) :
  total get (omap h l) = total get (omap g k) -> total get (omap h l') = total get (omap g k') ->
  total get (omap h (l ++ l')) = total get (omap g (k ++ k')).
Proof. intros H H'. rewrite !omap_app, !metrics_total_app. lia. Qed.

Lemma totals_omap {A B C} (gets : list (C -> Z)) (h : A -> option C) (g : B -> option C) (l l' : list A) (k k' : list B) :
  Forall (fun get => total get (omap h l) = total get (omap g k)) gets ->
  Forall (fun get => total get (omap h l') = total get (omap g k')) gets ->
  Forall (fun get => total get (omap h (l ++ l')) = total get (omap g (k ++ k'))) gets.
Proof. rewrite !Forall_forall. intros H H' get Hget. apply total_omap; auto. Qed.

Lemma balanced_app (who : FlowSide -> bool) (es fs : list event) (out out' : list action) (d : UpdateDirection) :
  balanced who es out d -> balanced who fs out' d -> balanced who (es ++ fs) (out ++ out') d.
Proof.
  intros [A1 A2 A3 A4 A5 A6 A7 A8 A9] [B1 B2 B3 B4 B5 B6 B7 B8 B9].
  split; try by apply totals_omap. 2-5: by apply total_omap.
  unfold udp_to, udp_from in *. by rewrite !omap_app, A3, B3.
Qed.

(** Events without metrics, and outputs that are not updates. *)
Lemma balanced_quiet (who : FlowSide -> bool) (e : event) (out : list action) (d : UpdateDirection) :
  event_side e = None -> event_ok e -> Forall (fun x => is_sent x = true) out -> balanced who [e] out d.
Proof.
  intros He Hok Hout.
  assert (Hno : forall B (h : action -> option B), (forall a, is_sent a = true -> h a = None) -> omap h out = []).
  { intros B h Hh. induction Hout as [|a out Ha _ IH]; cbn; [done|]. by rewrite Hh. }
  assert (tcp_to d out = [] /\ udp_to d out = [] /\ http_to d out = [] /\ dns_to d out = []) as (E1 & E2 & E3 & E4)
    by (split_and!; apply Hno; by intros []).
  destruct e; cbn [event_side event_ok] in *; try (by destruct (side_of _ Hok) as [s Hs]; rewrite Hs in He).
  all: split; rewrite ?E1, ?E2, ?E3, ?E4; done || by repeat constructor.
Qed.

Definition counts (w : option FlowSide) (s : FlowSide) : bool := bool_decide (w = Some s).

Definition update_handled (e : event) (f : FlowSpan) (r : result (FlowSpan * list action)) : Prop :=
  exists f' out, r = Ok (f', out) /\ socket_info_ f' = socket_info_ f /\
    metrics_update_side_ f' = counting_side (metrics_update_side_ f) [e] /\
    forall d, d <> DIR_NONE -> balanced (counts (metrics_update_side_ f')) [e] out d.

(** By cases of the side, of the direction, of the side that counts and of the direction that
    is looked at: each side of each equation is computed. *)
Ltac by_cases Hs rx f :=
  unfold metrics_update_direction, direction_of;
  destruct Hs as [-> | ->]; cbn [u8_to_side rbind Z.eqb]; destruct rx eqn:Hrx;
  destruct (metrics_update_side_ f) as [[]|] eqn:Hw; eexists _, _; (split; [reflexivity|]); (split; [done|]);
  (split; [done|]); intros [] Hd; try done; rewrite ?Hw; split; cbn; unfold selected, server, sending, receiving; cbn;
  rewrite ?Hrx; try done; repeat constructor; cbn; lia.

Lemma udp_update_balanced (side is_rx : Z) (m : Udp.metrics) (f : FlowSpan) :
  side_ok side -> update_handled (UdpMsg side is_rx m) f (udp_update side is_rx m f).
Proof. intros Hs. unfold udp_update, update_handled. destruct m. by_cases Hs (is_rx =? 0) f. Qed.

Lemma tcp_update_balanced (side is_rx : Z) (m : Tcp.metrics) (f : FlowSpan) :
  side_ok side -> update_handled (TcpMsg side is_rx m) f (tcp_update side is_rx m f).
Proof. intros Hs. unfold tcp_update, update_handled. by_cases Hs (is_rx =? 0) f. Qed.

Lemma http_update_balanced (side cs : Z) (m : Http.metrics) (f : FlowSpan) :
  side_ok side -> update_handled (HttpMsg side cs m) f (http_update side cs m f).
Proof. intros Hs. unfold http_update, update_handled. by_cases Hs (cs =? SC_SERVER) f. Qed.

Lemma dns_update_balanced (side cs : Z) (m : DnsMetrics.metrics) (f : FlowSpan) :
  side_ok side -> update_handled (DnsMsg side cs m) f (dns_update side cs m f).
Proof. intros Hs. unfold dns_update, update_handled. by_cases Hs (cs =? SC_SERVER) f. Qed.

Lemma counting_quiet (w : option FlowSide) (e : event) : event_side e = None -> counting_side w [e] = w.
Proof. intros He. destruct w; [done|]. cbn. by rewrite He. Qed.

Lemma socket_stored (la ra : list Z) :
  (length la = 16%nat /\ Forall is_byte la) -> (length ra = 16%nat /\ Forall is_byte ra) ->
  v6_ok (v6_from la) /\ v6_ok (v6_from ra).
Proof. intros [Ha Hab] [Hr Hrb]. split; by apply (words_hextets 8). Qed.

Section counting.
Context (env : Surroundings) (Henv : surroundings_ok env).

Lemma handle_ok (e : event) (f : FlowSpan) :
  event_ok e -> flow_ok f ->
  exists f' out, handle env e f = Ok (f', out) /\ flow_ok f' /\
    metrics_update_side_ f' = counting_side (metrics_update_side_ f) [e] /\
    forall d, d <> DIR_NONE -> balanced (counts (metrics_update_side_ f')) [e] out d.
Proof using Henv.
  intros He Hf.
  assert (Hquiet : forall r f', event_side e = None -> r = Ok f' -> flow_ok f' ->
    metrics_update_side_ f' = metrics_update_side_ f ->
    exists f'' out, silently r = Ok (f'', out) /\ flow_ok f'' /\
      metrics_update_side_ f'' = counting_side (metrics_update_side_ f) [e] /\
      forall d, d <> DIR_NONE -> balanced (counts (metrics_update_side_ f'')) [e] out d).
  { intros r f' Hq -> Hf' Hm. exists f', []. split; [done|]. split; [done|]. rewrite counting_quiet by done.
    split; [done|]. intros d _. by apply balanced_quiet. }
  assert (Hupdate : forall r, update_handled e f r -> exists f' out, r = Ok (f', out) /\ flow_ok f' /\
    metrics_update_side_ f' = counting_side (metrics_update_side_ f) [e] /\
    forall d, d <> DIR_NONE -> balanced (counts (metrics_update_side_ f')) [e] out d).
  { intros r (f' & out & E & Hs & Hm & Hb). exists f', out. split; [done|]. split; [|done].
    intros side s. rewrite Hs. apply Hf. }
  destruct e; cbn [handle event_ok] in *.
  7: by apply Hupdate, tcp_update_balanced. 7: by apply Hupdate, udp_update_balanced.
  7: by apply Hupdate, http_update_balanced. 7: by apply Hupdate, dns_update_balanced.
  7: { destruct (send_metrics_ok env Henv room index dir m f Hf) as (f' & out & E & (_ & _ & Hs & _ & _ & _ & Hm & _) & Hout).
    exists f', out. split; [done|]. split; [intros side s; rewrite Hs; apply Hf|]. rewrite counting_quiet by done.
    split; [done|]. intros d _. by apply balanced_quiet. }
  3: { destruct He as (Hs & Hl & Hr). destruct (side_of side Hs) as [s E]. unfold socket_info. rewrite E. cbn [rbind].
    eapply Hquiet; [done|reflexivity| |done]. intros t x. cbn. rewrite at_set_side. case_decide; [|apply Hf].
    intros [= <-]. by apply socket_stored. }
  all: destruct (side_of side He) as [s E];
    unfold agent_info, task_info, k8s_info, container_info, service_info; rewrite E; cbn [rbind]; by eapply Hquiet.
Qed.

(** A side that counts does not change any more. *)
Lemma counting_cons (w : option FlowSide) (e : event) (es : list event) :
  counting_side w (e :: es) = counting_side (counting_side w [e]) es.
Proof using. destruct w; [done|]. cbn. by destruct (event_side e). Qed.

Lemma from_quiet (who who' : FlowSide -> bool) (e : event) (d : UpdateDirection) :
  event_side e = None ->
  tcp_from who any d [e] = tcp_from who' any d [e] /\ udp_from who any d [e] = udp_from who' any d [e] /\
  http_from who any d [e] = http_from who' any d [e] /\ dns_from who any d [e] = dns_from who' any d [e].
Proof using.
  intros He. destruct e; try done; cbn in *; unfold selected; by destruct (u8_to_side side).
Qed.

Lemma counting_later (w : option FlowSide) (e : event) (es : list event) (out : list action) (d : UpdateDirection) :
  w = counting_side w [e] ->
  balanced (counts w) [e] out d -> balanced (counts (counting_side w es)) [e] out d.
Proof using.
  destruct w as [s|]; [done|]. intros Hw [H1 H2 H3 H4 H5 H6 H7 H8 H9]. cbn in Hw.
  destruct (event_side e) eqn:He; [done|].
  destruct (from_quiet (counts None) (counts (counting_side None es)) e d He) as (E1 & E2 & E3 & E4).
  rewrite E1 in H1. rewrite E2 in H3. rewrite E3 in H4. rewrite E4 in H7. by split.
Qed.

Lemma run_balanced (es : list event) (f : FlowSpan) :
  Forall event_ok es -> flow_ok f ->
  exists f' out, run env es f = Ok (f', out) /\ flow_ok f' /\
    forall d, d <> DIR_NONE -> balanced (counts (counting_side (metrics_update_side_ f) es)) es out d.
Proof using Henv.
  intros Hes. revert f. induction Hes as [|e es He _ IH]; intros f Hf; cbn [run].
  - exists f, []. split; [done|]. split; [done|]. intros d _. split; done || by repeat constructor.
  - destruct (handle_ok e f He Hf) as (f1 & out1 & -> & Hf1 & Hm & Hb). cbn [rbind].
    destruct (IH f1 Hf1) as (f2 & out2 & -> & Hf2 & Hb2). cbn [rbind]. exists f2, (out1 ++ out2).
    split; [done|]. split; [done|]. intros d Hd. rewrite counting_cons, <- Hm.
    apply (balanced_app _ [e] es); [|by apply Hb2]. apply counting_later; [|by apply Hb].
    rewrite Hm. destruct (metrics_update_side_ f); [done|]. cbn. destruct (event_side e) eqn:E; [done|]. cbn. by rewrite E.
Qed.

(** C7: however the descriptions and the metrics of the two sides of a flow, and the sending
    of what was collected, follow each other, no handler fails, and in each direction every
    metric is counted once.  The counters are those of the messages of one side, that of
    the first message; round trips are those of the data sent by either side, in both
    directions; the total time of HTTP and DNS comes from clients only and the processing
    time from servers only, on either side. *)
Theorem metrics_counted_once (es : list event) :
  Forall event_ok es ->
  exists f out, run env es FlowSpan_new = Ok (f, out) /\
    balanced (counts (head (omap event_side es))) es out A_TO_B /\
    balanced (counts (head (omap event_side es))) es out B_TO_A.
Proof using Henv.
  intros Hes. destruct (run_balanced es FlowSpan_new Hes) as (f & out & E & _ & Hb).
  - by intros [] s.
  - exists f, out. split; [done|]. split; by apply Hb.
Qed.
End counting.

(** ** The pair of nodes *)

Lemma str_ltb_asym (s t : list Z) : str_ltb s t = true -> str_ltb t s = false.
Proof.
  revert t. induction s as [|x s IH]; intros [|y t]; cbn; try done. rewrite orb_true_iff, andb_true_iff.
  intros [H|[H Hst]]; [apply orb_false_iff; split; [lia|apply andb_false_iff; left; lia]|].
  rewrite IH by done. rewrite andb_false_r, orb_false_r. lia.
Qed.

Lemma str_ltb_total (s t : list Z) : str_ltb s t = false -> str_ltb t s = false -> s = t.
Proof.
  revert t. induction s as [|x s IH]; intros [|y t]; cbn; try done.
  rewrite !orb_false_iff, !andb_false_iff. intros [H1 H2] [H3 H4]. assert (x = y) as -> by lia.
  f_equal. apply IH; [destruct H2|destruct H4]; lia || done.
Qed.

(** C38: the two sides of a flow may be the other way round in another flow between the same
    two nodes: the aggregation of both is under the same pair of roles and zones. *)
Theorem root_key_symmetric (node_a node_b : NodeData) : root_key node_a node_b = root_key node_b node_a.
Proof.
  unfold root_key. rewrite (orb_comm (node_type node_b =? IP)). destruct (_ || _); unfold tie_leb;
  destruct (str_ltb (role node_a) (role node_b)) eqn:H1; cbn [orb negb andb].
  all: try rewrite (str_ltb_asym _ _ H1); try done.
  all: destruct (str_ltb (role node_b) (role node_a)) eqn:H2; cbn [orb negb andb]; try done.
  all: pose proof (str_ltb_total _ _ H1 H2) as Hr; rewrite Hr; try done.
  destruct (str_ltb (az node_b) (az node_a)) eqn:H3; cbn [negb].
  - by rewrite (str_ltb_asym _ _ H3).
  - destruct (str_ltb (az node_a) (az node_b)) eqn:H4; [done|]. by rewrite (str_ltb_total _ _ H4 H3).
Qed.

(** Names are not empty, as the agents and the pods give them. *)
Definition named (f : FlowSpan) : Prop :=
  forall side,
    (forall c, at_side side (container_info_ f) = Some c -> c_role c <> []) /\
    (forall s, at_side side (service_info_ f) = Some s -> s_name s <> []) /\
    (forall t, at_side side (task_info_ f) = Some t -> comm t <> []) /\
    (forall a, at_side side (agent_info_ f) = Some a -> ag_role a <> []).
(** An agent that describes a socket describes itself, as the code expects. *)
Definition paired (f : FlowSpan) : Prop :=
  forall side, is_Some (at_side side (socket_info_ f)) -> is_Some (at_side side (agent_info_ f)).
Definition owned (index : Matching.Index) : Prop :=
  forall key pod_key, Matching.container_pod (Matching.container_by_key index key) = Some pod_key ->
    Matching.owner_name (Matching.pod_by_key index pod_key) <> [].

Lemma is_empty_false (s : list Z) : is_empty s = false <-> s <> [].
Proof. unfold is_empty. by rewrite bool_decide_eq_false. Qed.

Section nodes.
Context (env : Surroundings) (Henv : surroundings_ok env).

(** The role of a resolved node, and the pod that is remembered. *)
Lemma resolve_node_spec (f : FlowSpan) (side : FlowSide) (index : Matching.Index) (addr : IPv6Address) (port : Z) :
  flow_ok f -> get_addr_port f side = Some (addr, port) ->
  exists n ns id az is_as e, enrich env f side index ns id az is_as = Ok e /\
    role n = e_role (well_known f side addr port e) /\
    resolve_node env f side index = Ok (n, match e_pod e with Some key => set_k8s_pod side key f | None => f end).
Proof using Henv.
  intros Hf Ha. unfold resolve_node. rewrite Ha.
  destruct (text_of_ok env addr) as [t ->]; [by eapply get_addr_port_ok|]. cbn [rbind].
  destruct (get_id_az_ok env f side Hf) as [[[id az] is_as] ->]. cbn [rbind].
  destruct (match at_side side (agent_info_ f) with Some _ => _ | None => _ end) as [nenv ns].
  destruct (enrich_ok env Henv f side index ns id az is_as) as [e He]. rewrite He. cbn [rbind].
  destruct (if _ && _ then _ else _) as [id' address'].
  eexists _, ns, id, az, is_as, e. split; [done|]. split; [|reflexivity]. cbn [role].
  by destruct (e_pod e).
Qed.

Lemma get_k8s_pod_owned (f : FlowSpan) (side : FlowSide) (index : Matching.Index) (pod_key : uid_key) :
  owned index -> get_k8s_pod env f side index = Ok (Some pod_key) ->
  Matching.owner_name (Matching.pod_by_key index pod_key) <> [].
Proof using Henv.
  intros Ho. unfold get_k8s_pod. rewrite container_key_spec by done. cbn [rbind].
  set (key := match at_side side (task_info_ f) with Some _ => _ | None => _ end).
  assert (Hpod : Ok match key with Some k => Matching.container_pod (Matching.container_by_key index k) | None => None end
    = Ok (Some pod_key) -> Matching.owner_name (Matching.pod_by_key index pod_key) <> []).
  { intros [= E]. destruct key; [by eapply Ho|done]. }
  destruct (at_side side (k8s_info_ f)); [|done]. destruct (is_empty _) eqn:E; [done|].
  intros [= <-]. by apply is_empty_false.
Qed.

Lemma enrich_remote_named (index : Matching.Index) (s : SocketInfo) (ns id az : list Z) (is_as : bool) :
  e_role (enrich_remote env index s ns id az is_as) <> [].
Proof using.
  unfold enrich_remote. cbv zeta.
  assert (Hfall : e_role (if negb (is_empty (remote_dns_name s))
     then mk_enrichment DNS (remote_dns_name s) [] [] ns [] id az None
     else mk_enrichment IP (if is_as then chars "(internet)" else chars "(unknown)") [] [] ns [] id az None) <> []).
  { destruct (is_empty (remote_dns_name s)) eqn:E; [by destruct is_as|]. by apply is_empty_false in E. }
  destruct (if aws_enrichment_enabled_ env then _ else _) as [info|]; [|done].
  destruct (is_empty (Matching.aws_role info)) eqn:E; [done|]. destruct (is_empty (Matching.aws_az info)); [done|].
  by apply is_empty_false in E.
Qed.

Lemma enrich_named (f : FlowSpan) (side : FlowSide) (index : Matching.Index) (ns id az : list Z) (is_as : bool)
    (e : enrichment) :
  named f -> paired f -> owned index -> is_Some (get_addr_port f side) ->
  enrich env f side index ns id az is_as = Ok e -> e_role e <> [].
Proof using Henv.
  intros Hn Hp Ho Ha. destruct (Hn side) as (Hc & Hs & Ht & Hag). unfold enrich.
  destruct (get_k8s_pod env f side index) as [[pk|]| | |] eqn:Hk; try done; cbn [rbind].
  - apply get_k8s_pod_owned in Hk; [|done]. unfold enrich_k8s. rewrite container_key_spec by done. cbn [rbind].
    destruct (match at_side side (task_info_ f) with Some _ => _ | None => _ end); by intros [= <-].
  - intros [= <-]. destruct (at_side side (container_info_ f)) as [c|]; [by apply Hc|].
    destruct (at_side side (agent_info_ f)) as [ag|] eqn:Eag.
    + cbn. destruct (at_side side (service_info_ f)); [by apply Hs|].
      destruct (at_side side (task_info_ f)); [by apply Ht|by apply Hag].
    + destruct (at_side (other_side side) (socket_info_ f)) eqn:Eo; [apply enrich_remote_named|].
      unfold get_addr_port in Ha. rewrite Eo in Ha. destruct (at_side side (socket_info_ f)) eqn:Es; [|by destruct Ha].
      destruct (Hp side) as [x Hx]; [by rewrite Es|congruence].
Qed.

Lemma well_known_role (f : FlowSpan) (side : FlowSide) (addr : IPv6Address) (port : Z) (e : enrichment) :
  e_role e <> [] -> e_role (well_known f side addr port e) <> [].
Proof using.
  intros He. unfold well_known. case_bool_decide; [done|]. destruct (port =? kPortDNS); [done|].
  case_bool_decide; [|done]. by destruct (at_side _ (agent_info_ f)).
Qed.

Lemma resolve_node_named (f : FlowSpan) (side : FlowSide) (index : Matching.Index) :
  flow_ok f -> named f -> paired f -> owned index -> is_Some (get_addr_port f side) ->
  exists n pod, role n <> [] /\
    resolve_node env f side index = Ok (n, match pod with Some key => set_k8s_pod side key f | None => f end).
Proof using Henv.
  intros Hf Hn Hp Ho [[addr port] Ha].
  destruct (resolve_node_spec f side index addr port Hf Ha) as (n & ns & id & az & is_as & e & He & Hr & E).
  exists n, (e_pod e). split; [|done]. rewrite Hr. apply well_known_role. eapply enrich_named; [done..| |done]. by rewrite Ha.
Qed.

Definition metric_action (root : agg_root) (dir : UpdateDirection) (m : collected) : action :=
  match m with
  | tcp_collected m => update_tcp_metrics root dir m
  | udp_collected m => update_udp_metrics root dir m
  | dns_collected m => update_dns_metrics root dir m
  | http_collected m => update_http_metrics root dir m
  end.

(** One agent is enough to know the addresses of both sides. *)
Lemma addr_port_known (f : FlowSpan) (side side' : FlowSide) :
  is_Some (at_side side (socket_info_ f)) -> is_Some (get_addr_port f side').
Proof using.
  intros [s Hs]. unfold get_addr_port.
  destruct side, side'; cbn [other_side at_side] in *; rewrite ?Hs; try done;
    [by destruct (of_b (socket_info_ f))|by destruct (of_a (socket_info_ f))].
Qed.

(** The nodes are looked at again. *)
Definition update_needed (f : FlowSpan) : bool :=
  negb (n_received_info_messages_ f =? message_count_on_last_update_ f) || should_attempt_k8s_enrichment f SIDE_A ||
  should_attempt_k8s_enrichment f SIDE_B.

(** A flow whose nodes are looked at is sent on under the pair of its nodes, which are described before. *)
Lemma send_described (f : FlowSpan) (side : FlowSide) (index : Matching.Index) (dir : UpdateDirection) (m : collected) :
  flow_ok f -> named f -> paired f -> owned index -> is_Some (at_side side (socket_info_ f)) -> update_needed f = true ->
  exists f' na nb, role na <> [] /\ role nb <> [] /\ flow_agg_root f' = Some (root_key na nb) /\
    message_count_on_last_update_ f' = n_received_info_messages_ f' /\
    send_metrics env true index dir m f =
    Ok (f', [update_node_of (root_key na nb) SIDE_A na; update_node_of (root_key na nb) SIDE_B nb;
             metric_action (root_key na nb) dir m]).
Proof using Henv.
  intros Hf Hn Hp Ho Hs Hnew. unfold send_metrics, update_nodes_if_required.
  unfold update_needed in Hnew. rewrite Hnew. cbn [negb].
  destruct (resolve_node_named f SIDE_A index Hf Hn Hp Ho) as (na & pa & Hra & ->); [by eapply addr_port_known|].
  cbn [rbind]. set (f1 := match pa with Some _ => _ | None => _ end).
  assert (H1 : flow_ok f1 /\ named f1 /\ paired f1 /\ is_Some (at_side side (socket_info_ f1))) by (unfold f1; by destruct pa).
  destruct H1 as (Hf1 & Hn1 & Hp1 & Hs1).
  destruct (resolve_node_named f1 SIDE_B index Hf1 Hn1 Hp1 Ho) as (nb & pb & Hrb & ->); [by eapply addr_port_known|].
  cbn [rbind]. set (f2 := match pb with Some _ => _ | None => _ end). clearbody f2.
  unfold update_nodes, create_agg_root. rewrite (proj2 (is_empty_false _) Hra), (proj2 (is_empty_false _) Hrb).
  cbn [orb]. cbv zeta. case_bool_decide as E.
  - rewrite E. cbn [rbind flow_agg_root remember_count]. rewrite E. exists (remember_count f2), na, nb. by destruct m.
  - cbn [set_agg_root flow_agg_root rbind remember_count]. eexists _, na, nb. split; [done|]. split; [done|].
    split; [|split; [|by destruct m]]; done.
Qed.

(** ** Everything that is collected is reported *)

(** The names in a description are not empty. *)
Definition named_event (e : event) : Prop :=
  match e with
  | AgentMsg _ msg => ag_role msg <> []
  | TaskMsg _ msg => comm msg <> []
  | ContainerMsg _ _ _ role _ _ _ => role <> []
  | ServiceMsg _ msg => s_name msg <> []
  | _ => True
  end.

(** What is assumed when a flow is sent on. *)
Definition send_ok (f : FlowSpan) (e : event) : Prop :=
  match e with Send room index _ _ => room = true /\ owned index /\ paired f | _ => True end.
Fixpoint sends_ok (es : list event) (f : FlowSpan) : Prop :=
  match es with
  | [] => True
  | e :: es => send_ok f e /\ match handle env e f with Ok (f', _) => sends_ok es f' | _ => True end
  end.

(** What is sent on after the first socket was described. *)
Fixpoint sends_after (described : bool) (es : list event) : list (UpdateDirection * collected) :=
  match es with
  | [] => []
  | Send _ _ dir m :: es => (if described then [(dir, m)] else []) ++ sends_after described es
  | SocketMsg _ _ _ _ _ _ _ :: es => sends_after true es
  | _ :: es => sends_after described es
  end.

(** The metrics that reach the aggregation, and their pair of nodes. *)
Definition metric_of (a : action) : option (agg_root * (UpdateDirection * collected)) :=
  match a with
  | update_tcp_metrics root dir m => Some (root, (dir, tcp_collected m))
  | update_udp_metrics root dir m => Some (root, (dir, udp_collected m))
  | update_http_metrics root dir m => Some (root, (dir, http_collected m))
  | update_dns_metrics root dir m => Some (root, (dir, dns_collected m))
  | _ => None
  end.
Definition metrics_sent (out : list action) : list (UpdateDirection * collected) := snd <$> omap metric_of out.

(** The two nodes of the pair, which have a role, are described in [pre]. *)
Definition described_in (pre : list action) (root : agg_root) : Prop :=
  exists na nb, role na <> [] /\ role nb <> [] /\ root = root_key na nb /\
    update_node_of root SIDE_A na ∈ pre /\ update_node_of root SIDE_B nb ∈ pre.
Fixpoint nodes_first (pre out : list action) : Prop :=
  match out with
  | [] => True
  | a :: out => match metric_of a with Some (root, _) => described_in pre root | None => True end /\ nodes_first (pre ++ [a]) out
  end.

Lemma nodes_first_app (out1 out2 pre : list action) :
  nodes_first pre out1 -> nodes_first (pre ++ out1) out2 -> nodes_first pre (out1 ++ out2).
Proof using.
  revert pre. induction out1 as [|a out1 IH]; intros pre; [by rewrite app_nil_r|]. intros [Ha H1] H2. split; [done|].
  apply IH; [done|]. by rewrite <- app_assoc.
Qed.

Lemma nodes_first_silent (pre out : list action) : Forall (fun a => metric_of a = None) out -> nodes_first pre out /\ metrics_sent out = [].
Proof using.
  intros H. split; [|unfold metrics_sent]; revert pre; induction H as [|a out Ha _ IH]; intros pre; cbn; try done; rewrite Ha; [by split|].
  exact (IH pre).
Qed.

Lemma described_more (pre out : list action) (root : agg_root) : described_in pre root -> described_in (pre ++ out) root.
Proof using.
  intros (na & nb & H1 & H2 & H3 & H4 & H5). exists na, nb. split_and!; try done; apply elem_of_app; by left.
Qed.

Definition has_socket (f : FlowSpan) : bool :=
  bool_decide (is_Some (of_a (socket_info_ f))) || bool_decide (is_Some (of_b (socket_info_ f))).

(** A flow after [k] descriptions, with the actions [pre]. *)
Record reporting (f : FlowSpan) (k : Z) (pre : list action) : Prop := {
  rp_ok : flow_ok f;
  rp_named : named f;
  rp_count : n_received_info_messages_ f = k;
  rp_last : message_count_on_last_update_ f = not32 0 \/ message_count_on_last_update_ f <= k;
  rp_root : forall root, flow_agg_root f = Some root -> described_in pre root;
  rp_none : has_socket f = false -> flow_agg_root f = None;
  rp_some : has_socket f = true -> message_count_on_last_update_ f = k -> is_Some (flow_agg_root f);
}.

Definition is_description (e : event) : bool :=
  match e with
  | AgentMsg _ _ | TaskMsg _ _ | SocketMsg _ _ _ _ _ _ _ | K8sMsg _ _ | ContainerMsg _ _ _ _ _ _ _ | ServiceMsg _ _ => true
  | _ => false
  end.
Definition is_socket (e : event) : bool := match e with SocketMsg _ _ _ _ _ _ _ => true | _ => false end.

Lemma has_socket_set (s : FlowSide) (x : SocketInfo) (f f' : FlowSpan) :
  socket_info_ f' = set_side s (Some x) (socket_info_ f) -> has_socket f' = true.
Proof using. intros E. unfold has_socket. rewrite E. destruct s; cbn; [done|]. apply orb_true_r. Qed.

(** A description changes one of the fields and the count. *)
Lemma description_handled (e : event) (f f' : FlowSpan) (out : list action) :
  is_description e = true -> named_event e -> named f -> handle env e f = Ok (f', out) ->
  out = [] /\ named f' /\ n_received_info_messages_ f' = u32 (n_received_info_messages_ f + 1) /\
  message_count_on_last_update_ f' = message_count_on_last_update_ f /\ flow_agg_root f' = flow_agg_root f /\
  has_socket f' = has_socket f || is_socket e.
Proof using.
  intros Hd Hne Hn. destruct e; try done; cbn [handle named_event is_socket] in *; unfold silently, agent_info, task_info, socket_info, k8s_info,
    container_info, service_info; destruct (u8_to_side side) as [s| | |] eqn:E; try done; cbn [rbind]; intros [= <- <-].
  all: split; [done|]; split; [|split; [done|split; [done|split; [done|]]]].
  all: try (by rewrite orb_false_r).
  all: try (by rewrite orb_true_r; eapply (has_socket_set s _ f)).
  all: intros t; destruct (Hn t) as (H1 & H2 & H3 & H4); cbn; rewrite ?at_set_side; split_and!; auto; intros x; case_decide; auto;
    by intros [= <-].
Qed.

(** An update changes at most the side that counts. *)
Lemma update_direction_frame (s : FlowSide) (rx : Z) (b : bool) (f : FlowSpan) :
  (metrics_update_direction s rx b f).2 = f \/ (metrics_update_direction s rx b f).2 = set_update_side s f.
Proof using.
  unfold metrics_update_direction. destruct b; [by left|]. destruct (metrics_update_side_ f); [|by right]. case_decide; by left.
Qed.

Lemma update_handled_quietly (e : event) (f f' : FlowSpan) (out : list action) :
  is_description e = false -> (forall room index dir m, e <> Send room index dir m) -> handle env e f = Ok (f', out) ->
  (f' = f \/ exists s, f' = set_update_side s f) /\ Forall (fun a => metric_of a = None) out.
Proof using.
  intros Hd Hs. destruct e; try done; [..|by destruct (Hs room index dir m)];
    cbn [handle]; unfold tcp_update, udp_update, http_update, dns_update; destruct (u8_to_side side) as [s| | |]; cbn [rbind]; try done.
  all: match goal with |- context [metrics_update_direction ?t ?rx false ?g] =>
    pose proof (update_direction_frame t rx false g) as Hf; destruct (metrics_update_direction t rx false g) as [d f1] eqn:Ed end.
  all: cbn [snd] in Hf; cbn [metrics_update_direction]; cbv zeta; intros E.
  all: assert (Hf' : f1 = f \/ exists s, f1 = set_update_side s f) by (destruct Hf as [?|?]; [by left|right; by exists s]).
  all: destruct d; try unfold metrics_update_direction in E; injection E as <- <-; (split; [exact Hf'|]).
  all: repeat case_match; repeat (apply Forall_cons; split; [done|]); constructor.
Qed.
Lemma has_socket_side (f : FlowSpan) : has_socket f = true -> exists side, is_Some (at_side side (socket_info_ f)).
Proof using. unfold has_socket. intros [H|H]%orb_true_iff; apply bool_decide_eq_true in H; [by exists SIDE_A|by exists SIDE_B]. Qed.

Lemma metric_action_of (root : agg_root) (dir : UpdateDirection) (m : collected) : metric_of (metric_action root dir m) = Some (root, (dir, m)).
Proof using. by destruct m. Qed.

(** Without a socket there are no nodes. *)
Lemma send_undescribed (f : FlowSpan) (index : Matching.Index) (dir : UpdateDirection) (m : collected) :
  has_socket f = false -> flow_agg_root f = None ->
  exists f', send_metrics env true index dir m f = Ok (f', []) /\ (f' = f \/ f' = remember_count f).
Proof using.
  intros Hs Hr. apply orb_false_iff in Hs as [Ha Hb]. apply bool_decide_eq_false, eq_None_not_Some in Ha, Hb.
  assert (Hnone : forall side, resolve_node env f side index = Ok (NodeData_zero, f)).
  { intros side. unfold resolve_node, get_addr_port. destruct side; cbn [at_side other_side]; by rewrite Ha, Hb. }
  unfold send_metrics, update_nodes_if_required. cbv zeta. destruct (negb (_ || _)); cbn [rbind].
  - rewrite Hr. exists f. split; [done|by left].
  - rewrite !Hnone. cbn [rbind]. rewrite Hnone. cbn [rbind]. unfold update_nodes, create_agg_root. cbn [role NodeData_zero].
    change (is_empty []) with true. cbn [orb]. rewrite Hr. cbn [rbind flow_agg_root remember_count]. rewrite Hr.
    eexists. split; [done|by right].
Qed.

Lemma send_reported (f : FlowSpan) (k : Z) (pre : list action) (index : Matching.Index) (dir : UpdateDirection) (m : collected) :
  reporting f k pre -> owned index -> paired f ->
  exists f' out, send_metrics env true index dir m f = Ok (f', out) /\ reporting f' k (pre ++ out) /\ has_socket f' = has_socket f /\
    nodes_first pre out /\ metrics_sent out = if has_socket f then [(dir, m)] else [].
Proof using Henv.
  intros Hr Ho Hp. pose proof Hr as [Hok Hn Hc Hl Hroot Hnone Hsome]. destruct (has_socket f) eqn:Hs.
  - destruct (has_socket_side f Hs) as [side Hside]. destruct (update_needed f) eqn:Hu.
    + destruct (send_described f side index dir m Hok Hn Hp Ho Hside Hu) as (f' & na & nb & Hra & Hrb & Hroot' & Hlast & E).
      destruct (send_metrics_ok env Henv true index dir m f Hok) as (f2 & out & E2 & (E3 & E4 & E5 & E6 & E7 & E8 & _ & E10) & _).
      rewrite E in E2. injection E2 as <- <-. eexists f', _. split; [exact E|].
      assert (Hd : forall l, described_in (pre ++ [update_node_of (root_key na nb) SIDE_A na; update_node_of (root_key na nb) SIDE_B nb] ++ l) (root_key na nb)).
      { intros l. exists na, nb. do 3 (split; [done|]). split; apply elem_of_app; right; apply elem_of_app; left; [left|right; left]. }
      assert (Hhs : has_socket f' = true) by (unfold has_socket; by rewrite E5).
      split; [|split; [done|split; [|cbn; by rewrite metric_action_of]]].
      * split; [intros t x; rewrite E5; apply Hok|unfold named; by rewrite E3, E4, E7, E8|by rewrite E10|right; rewrite Hlast, E10, Hc; done| | |].
        -- rewrite Hroot'. intros root [= <-]. apply (Hd [_]).
        -- by rewrite Hhs.
        -- by rewrite Hroot'.
      * cbn. rewrite metric_action_of. split_and!; try done. rewrite <- app_assoc. apply (Hd []).
    + unfold update_needed in Hu. apply orb_false_iff in Hu as [[Hu1 Hu2]%orb_false_iff Hu3]. apply negb_false_iff, Z.eqb_eq in Hu1.
      destruct Hsome as [root Hr0]; [done|lia|]. exists f, [metric_action root dir m].
      unfold send_metrics, update_nodes_if_required. rewrite (proj2 (Z.eqb_eq _ _) Hu1), Hu2, Hu3. cbn [negb orb rbind]. rewrite Hr0.
      split; [by destruct m|]. split; [|split; [done|split; [|cbn; by rewrite metric_action_of]]].
      * split; try done; [|by rewrite Hs]. intros root' E. apply described_more. by apply Hroot.
      * cbn. rewrite metric_action_of. split; [by apply Hroot|done].
  - destruct (send_undescribed f index dir m Hs (Hnone eq_refl)) as (f' & -> & Hf'). exists f', []. rewrite app_nil_r.
    split; [done|]. destruct Hf' as [->| ->]; [by rewrite Hs|]. change (has_socket (remember_count f)) with (has_socket f). rewrite Hs.
    split; [|done]. split; try done; change (has_socket (remember_count f)) with (has_socket f); [right; cbn; lia|by intros _; apply Hnone|by rewrite Hs].
Qed.

Lemma reporting_quiet (f f' : FlowSpan) (k : Z) (pre out : list action) :
  reporting f k pre -> (f' = f \/ exists s, f' = set_update_side s f) -> reporting f' k (pre ++ out) /\ has_socket f' = has_socket f.
Proof using.
  intros [H1 H2 H3 H4 H5 H6 H7] Hf. assert (Hr : forall root, flow_agg_root f = Some root -> described_in (pre ++ out) root)
    by (intros root E; by apply described_more, H5).
  destruct Hf as [->|[s ->]]; (split; [by split|done]).
Qed.

Lemma step_reported (e : event) (es : list event) (f : FlowSpan) (k : Z) (pre : list action) :
  event_ok e -> named_event e -> send_ok f e -> reporting f k pre -> 0 <= k -> k + 1 < not32 0 ->
  exists f1 out1 k1, handle env e f = Ok (f1, out1) /\ reporting f1 k1 (pre ++ out1) /\ k <= k1 <= k + 1 /\
    nodes_first pre out1 /\ metrics_sent out1 ++ sends_after (has_socket f1) es = sends_after (has_socket f) (e :: es).
Proof using Henv.
  intros He Hne Hse Hr Hk Hlen. destruct (handle_ok env Henv e f He (rp_ok _ _ _ Hr)) as (f1 & out1 & E & Hok1 & _). destruct (is_description e) eqn:Hd.
  - destruct (description_handled e f f1 out1 Hd Hne (rp_named _ _ _ Hr) E) as (-> & Hn1 & Hc1 & Hl1 & Hr1 & Hs1).
    exists f1, [], (k + 1). rewrite app_nil_r. split; [done|]. split; [|split; [lia|split; [done|]]].
    + destruct Hr as [H1 H2 H3 H4 H5 H6 H7]. assert (Hnum : not32 0 = 2 ^ 32 - 1) by reflexivity. rewrite Hnum in *.
      rewrite H3, u32_small in Hc1 by lia. split; try done; rewrite ?Hl1, ?Hr1; try done; [|by intros [Hf _]%(eq_trans (eq_sym Hs1))%orb_false_iff; auto|].
      * destruct H4 as [->|H4]; [by left|right; lia].
      * intros _ E1. destruct H4 as [H4|H4]; [rewrite H4 in E1|]; lia.
    + rewrite Hs1. destruct e; try done; cbn [is_socket]; by rewrite ?orb_false_r, ?orb_true_r.
  - assert (Hcase : (exists room index dir m, e = Send room index dir m) \/ forall room index dir m, e <> Send room index dir m)
      by (destruct e; by (right; done) || (left; eauto)).
    destruct Hcase as [(room & index & dir & m & ->)|Hns].
    + destruct Hse as (-> & Ho & Hp). destruct (send_reported f k pre index dir m Hr Ho Hp) as (f2 & out & E2 & Hr2 & Hs2 & Hf2 & Hm2).
      exists f2, out, k. split; [exact E2|]. split; [done|]. split; [lia|]. split; [done|]. rewrite Hm2, Hs2. by destruct (has_socket f).
    + destruct (update_handled_quietly e f f1 out1 Hd Hns E) as [Hf1 Hq].
      destruct (reporting_quiet f f1 k pre out1 Hr Hf1) as [Hr1 Hs1], (nodes_first_silent pre out1 Hq) as [Hq1 Hq2].
      exists f1, out1, k. split; [done|]. split; [done|]. split; [lia|]. split; [done|]. rewrite Hq2, Hs1. destruct e; try done. by destruct (Hns room index dir m).
Qed.

Lemma run_reported (es : list event) (f : FlowSpan) (k : Z) (pre : list action) :
  Forall event_ok es -> Forall named_event es -> sends_ok es f -> reporting f k pre -> 0 <= k -> k + Z.of_nat (length es) < not32 0 ->
  exists f' out, run env es f = Ok (f', out) /\ metrics_sent out = sends_after (has_socket f) es /\ nodes_first pre out.
Proof using Henv.
  intros He. revert f k pre. induction He as [|e es He _ IH]; intros f k pre Hn Hs Hr Hk Hlen; [by exists f, []|].
  apply Forall_cons in Hn as [Hne Hn]. destruct Hs as [Hse Hs]. cbn [length] in Hlen. cbn [run].
  destruct (step_reported e es f k pre He Hne Hse Hr Hk) as (f1 & out1 & k1 & E1 & Hr1 & Hk1 & Hf1 & Hm1); [lia|]. rewrite E1 in Hs |- *. cbn [rbind].
  destruct (IH f1 k1 (pre ++ out1) Hn Hs Hr1) as (f2 & out2 & E2 & Hm2 & Hf2); [lia|lia|].
  rewrite E2. cbn [rbind]. exists f2, (out1 ++ out2). split; [done|]. split; [|by apply nodes_first_app].
  unfold metrics_sent in *. by rewrite omap_app, fmap_app, Hm2.
Qed.

(** C16: one agent is enough to report a flow.  Take any history of fewer than 2^32 - 1 messages
    of a new flow in which the names in the descriptions are not empty, and in which, whenever
    collected metrics are sent on, each described socket has a described agent, the index knows
    the owner of every pod it has a container of, and there is room for the pair of nodes.  Then all that is
    sent on after the first socket was described, by either side, reaches the aggregation, once and in order,
    and nothing that is sent on before; and each of the metrics is sent under a pair of nodes that both have a
    role and have been described to the aggregation before. *)
Theorem flow_reported (es : list event) :
  Forall event_ok es -> Forall named_event es -> Z.of_nat (length es) < 2 ^ 32 - 1 -> sends_ok es FlowSpan_new ->
  exists f out, run env es FlowSpan_new = Ok (f, out) /\ metrics_sent out = sends_after false es /\ nodes_first [] out.
Proof using Henv.
  intros He Hn Hlen Hs. apply (run_reported es FlowSpan_new 0 []); try done. split; try done.
  - by intros [] x.
  - by intros [].
  - by left.
Qed.

(** A side whose container is known, but the details of its pod are not. *)
Record ownerless (f : FlowSpan) (side : FlowSide) (index : Matching.Index) : Prop := {
  own_k8s : forall k, at_side side (k8s_info_ f) = Some k ->
    Matching.owner_name (Matching.pod_by_key index (pod_uid_suffix k, pod_uid_hash k)) = [];
  own_container : exists t pod_key, at_side side (task_info_ f) = Some t /\
    (let id := CgroupParser.container_id (CgroupParser.parse (cgroup_name t)) in
     id <> [] /\ Matching.container_pod (Matching.container_by_key index (UidKey.uid_key id)) = Some pod_key /\
     Matching.owner_name (Matching.pod_by_key index pod_key) = []);
  own_addr : exists addr port, get_addr_port f side = Some (addr, port) /\ port <> kPortDNS /\ addr <> kAddrInstanceMetadata;
  own_comm : get_comm f side <> kCommKubelet;
}.

Lemma ownerless_resolved (f : FlowSpan) (side : FlowSide) (index : Matching.Index) :
  flow_ok f -> ownerless f side index ->
  exists n pod_key, resolve_node env f side index = Ok (n, set_k8s_pod side pod_key f) /\ role n = [].
Proof using Henv.
  intros Hf [Hk (t & pk & Ht & Hid & Hpk & Hown) (addr & port & Ha & Hport & Haddr) Hcomm].
  destruct (resolve_node_spec f side index addr port Hf Ha) as (n & ns & id & az & is_as & e & He & Hr & E).
  set (cid := CgroupParser.container_id _) in *.
  assert (Hkey : container_key env f side = Ok (Some (UidKey.uid_key cid))).
  { rewrite container_key_spec by done. rewrite Ht. cbv zeta. fold cid. by rewrite (proj2 (is_empty_false cid) Hid). }
  assert (Hpod : get_k8s_pod env f side index = Ok (Some pk)).
  { unfold get_k8s_pod. rewrite Hkey. cbn [rbind]. rewrite Hpk.
    destruct (at_side side (k8s_info_ f)) as [k|] eqn:Ek; [|done]. by rewrite (Hk k). }
  assert (Hee : e_pod e = Some pk /\ e_role e = []).
  { unfold enrich in He. rewrite Hpod in He. cbn [rbind] in He. unfold enrich_k8s in He. rewrite Hkey in He.
    cbn [rbind] in He. injection He as <-. done. }
  destruct Hee as [Hp Hrole]. exists n, pk. rewrite E, Hp. split; [done|]. rewrite Hr. unfold well_known.
  rewrite bool_decide_false by done. rewrite (proj2 (Z.eqb_neq _ _) Hport). by rewrite bool_decide_false.
Qed.

(** The pod of a side does not matter to the resolution of the other. *)
Lemma ownerless_pod (f : FlowSpan) (side : FlowSide) (index : Matching.Index) (pod : option uid_key) (s : FlowSide) :
  ownerless f side index -> ownerless (match pod with Some key => set_k8s_pod s key f | None => f end) side index.
Proof using. by destruct pod; intros []. Qed.

(** Nothing is done for a flow without new messages, unless it waits for a pod. *)
Lemma send_silent (f : FlowSpan) (room : bool) (index : Matching.Index) (dir : UpdateDirection) (m : collected) :
  flow_agg_root f = None -> n_received_info_messages_ f = message_count_on_last_update_ f ->
  should_attempt_k8s_enrichment f SIDE_A = false -> should_attempt_k8s_enrichment f SIDE_B = false ->
  send_metrics env room index dir m f = Ok (f, []).
Proof using.
  intros Hr Hn Ha Hb. unfold send_metrics, update_nodes_if_required.
  rewrite (proj2 (Z.eqb_eq _ _) Hn), Ha, Hb. cbn [negb orb rbind]. by rewrite Hr.
Qed.

Definition is_send (e : event) : Prop := match e with Send _ _ _ _ => True | _ => False end.

(** C37: the details of a pod that arrive after a flow of one of its containers are not
    looked at.  Take a flow that was not reported yet and has new descriptions, one side of which is
    found through its container in a pod whose owner is not known yet, while the other side has named
    no pod.  The pod is kept, so that the side has no role; the flow is not reported, and it is not tried
    again when the details are known: whatever is collected later is dropped, until another description
    arrives. *)
Theorem ownerless_pod_silences (f : FlowSpan) (side : FlowSide) (index : Matching.Index) (room : bool)
    (dir : UpdateDirection) (m : collected) :
  flow_ok f -> flow_agg_root f = None -> ownerless f side index -> at_side (other_side side) (k8s_info_ f) = None ->
  n_received_info_messages_ f <> message_count_on_last_update_ f ->
  exists f', send_metrics env room index dir m f = Ok (f', []) /\
    forall later, Forall is_send later -> run env later f' = Ok (f', []).
Proof using Henv.
  intros Hf Hroot Ho Hk Hnew.
  assert (H : exists f', send_metrics env room index dir m f = Ok (f', []) /\ flow_agg_root f' = None /\
    n_received_info_messages_ f' = message_count_on_last_update_ f' /\
    should_attempt_k8s_enrichment f' SIDE_A = false /\ should_attempt_k8s_enrichment f' SIDE_B = false).
  { unfold send_metrics, update_nodes_if_required. rewrite (proj2 (Z.eqb_neq _ _) Hnew). cbn [negb orb].
    destruct side; cbn [other_side at_side] in Hk.
    - destruct (ownerless_resolved f SIDE_A index Hf Ho) as (na & pk & -> & Hra). cbn [rbind].
      destruct (resolve_node_ok env Henv (set_k8s_pod SIDE_A pk f) SIDE_B index Hf) as (nb & pb & ->). cbn [rbind].
      unfold update_nodes, create_agg_root. rewrite Hra. destruct f, pb; cbn in *; subst; cbn;
      (eexists; split; [reflexivity|]); unfold should_attempt_k8s_enrichment; cbn; rewrite ?Hk; repeat case_match; done.
    - destruct (resolve_node_ok env Henv f SIDE_A index Hf) as (na & pa & ->). cbn [rbind].
      set (f1 := match pa with Some _ => _ | None => _ end).
      destruct (ownerless_resolved f1 SIDE_B index) as (nb & pk & -> & Hrb); [by apply flow_ok_pod|by apply ownerless_pod|].
      cbn [rbind]. unfold update_nodes, create_agg_root. rewrite Hrb, orb_true_r. unfold f1. destruct f, pa; cbn in *; subst; cbn;
      (eexists; split; [reflexivity|]); unfold should_attempt_k8s_enrichment; cbn; rewrite ?Hk; repeat case_match; done. }
  destruct H as (f' & E & Hr & Hn & Ha & Hb). exists f'. split; [done|].
  induction 1 as [|ev later Hev _ IH]; [done|]. destruct ev; try done. cbn [run handle].
  rewrite send_silent by done. cbn [rbind]. by rewrite IH.
Qed.
End nodes.
End FlowSpan.

(** A flow between a container on one host and a process on another. *)
Module FlowSpanDemo.
Import IpAddress FlowSpan.

Definition demo_env : Surroundings :=
  mk_surroundings (fun _ => Some (chars "::")) (fun _ => Some (chars "10.0.0.1")) None false false
    (Lookup3.mk_config Lookup3.Little true false) (fun _ => (0, [])).

Lemma demo_env_ok : surroundings_ok demo_env.
Proof. intros s. apply Forall_nil. done. Qed.

Definition addr_1 : list Z := replicate 10 0 ++ [255; 255; 10; 0; 0; 1].
Definition addr_2 : list Z := replicate 10 0 ++ [255; 255; 10; 0; 0; 2].
Definition demo_id : list Z := chars "c45f3e9c19746eabf0a4af63d780ba5c2a657a7352c7ad7acc5d599da5115eef".

Definition descriptions : list event :=
  [AgentMsg 0 (mk_agent (chars "i-1") (chars "us-1") (chars "prod") (chars "agent") (chars "default"));
   TaskMsg 0 (mk_task (chars "nginx") (chars "cri-containerd-" ++ demo_id ++ chars ".scope"));
   SocketMsg 0 addr_1 80 addr_2 5000 0 []].

Definition demo_tcp (bytes : Z) : Tcp.metrics := Tcp.mk_metrics 1 0 bytes 5 3 1 0 0 0.
Definition empty_index : Matching.Index := Matching.mk_index ∅ ∅ ∅.
Definition demo_events : list event :=
  descriptions ++
  [TcpMsg 0 0 (demo_tcp 100); TcpMsg 1 1 (demo_tcp 100); TcpMsg 1 0 (demo_tcp 20); TcpMsg 0 1 (demo_tcp 20);
   Send true empty_index A_TO_B (tcp_collected (demo_tcp 100))].

Lemma demo_events_ok : Forall event_ok demo_events.
Proof.
  assert (Hb : forall l, length l = 16%nat -> forallb (fun b => (0 <=? b) && (b <? 256)) l = true ->
    length l = 16%nat /\ Forall is_byte l).
  { intros l Hl H. split; [done|]. apply List.Forall_forall. intros x Hx. rewrite forallb_forall in H.
    specialize (H x Hx). unfold is_byte. lia. }
  unfold demo_events, descriptions. cbn [app].
  repeat (apply Forall_cons_2;
    [first [by left|by right|done|split; [by left|split; apply Hb; by vm_compute]]|]). apply Forall_nil_2.
Qed.

Lemma metrics_counted_once_witness :
  exists f out, run demo_env demo_events FlowSpan_new = Ok (f, out) /\
    total Tcp.sum_bytes (tcp_to A_TO_B out) = 100 /\ total Tcp.sum_bytes (tcp_to B_TO_A out) = 20.
Proof.
  destruct (metrics_counted_once demo_env demo_env_ok demo_events demo_events_ok) as (f & out & E & Ha & Hb).
  exists f, out. split; [exact E|]. split.
  - pose proof (bal_tcp _ _ _ _ Ha) as H. rewrite Forall_forall in H. rewrite (H Tcp.sum_bytes); [by vm_compute|].
    by apply (list_elem_of_lookup_2 _ 2).
  - pose proof (bal_tcp _ _ _ _ Hb) as H. rewrite Forall_forall in H. rewrite (H Tcp.sum_bytes); [by vm_compute|].
    by apply (list_elem_of_lookup_2 _ 2).
Defined.

(** The flow after the descriptions. *)
Definition described : FlowSpan :=
  match run demo_env descriptions FlowSpan_new with Ok (f, _) => f | _ => FlowSpan_new end.

Lemma described_ok : flow_ok described.
Proof.
  intros side s. destruct side; vm_compute; [|done]. intros [= <-].
  split; (split; [done|]); cbn; repeat (apply Forall_cons_2; [by split|]); apply Forall_nil_2.
Qed.

Lemma empty_index_owned : owned empty_index.
Proof.
  intros key pod_key H. unfold Matching.container_by_key, empty_index in H. cbn [Matching.containers] in H.
  by rewrite lookup_empty in H.
Qed.

(** What is collected is sent on before the socket is described, twice after it, and after more messages. *)
Definition reported_events : list event :=
  Send true empty_index A_TO_B (tcp_collected (demo_tcp 1)) :: descriptions ++
  [Send true empty_index A_TO_B (tcp_collected (demo_tcp 100)); Send true empty_index B_TO_A (tcp_collected (demo_tcp 20));
   ServiceMsg 0 (mk_service (chars "web")); Send true empty_index A_TO_B (tcp_collected (demo_tcp 7))].

Lemma sends_ok_step (e : event) (es : list event) (f f' : FlowSpan) (out : list action) :
  handle demo_env e f = Ok (f', out) -> send_ok f e -> sends_ok demo_env es f' -> sends_ok demo_env (e :: es) f.
Proof. intros E Hs H. split; [exact Hs|]. by rewrite E. Qed.

Ltac send_checked := eapply sends_ok_step;
  [vm_compute; reflexivity
  |first [exact I|split; [reflexivity|split; [exact empty_index_owned|intros [] [x Hx]; vm_compute in Hx |- *; first [discriminate Hx|by eexists]]]]|].

Lemma reported_events_ok : Forall event_ok reported_events /\ Forall named_event reported_events /\ sends_ok demo_env reported_events FlowSpan_new.
Proof.
  split; [|split].
  - apply Forall_cons_2; [done|]. apply Forall_app. split; [|repeat (apply Forall_cons_2; [first [done|by left]|]); apply Forall_nil_2].
    pose proof demo_events_ok as H. unfold demo_events in H. by apply Forall_app in H as [? _].
  - unfold reported_events, descriptions. cbn [app]. repeat (apply Forall_cons_2; [done|]). apply Forall_nil_2.
  - unfold reported_events, descriptions. cbn [app]. repeat send_checked. exact I.
Qed.

Lemma flow_reported_witness :
  exists f out, run demo_env reported_events FlowSpan_new = Ok (f, out) /\
    metrics_sent out = [(A_TO_B, tcp_collected (demo_tcp 100)); (B_TO_A, tcp_collected (demo_tcp 20)); (A_TO_B, tcp_collected (demo_tcp 7))] /\
    nodes_first [] out.
Proof.
  destruct reported_events_ok as (He & Hn & Hs).
  exact (flow_reported demo_env demo_env_ok reported_events He Hn eq_refl Hs).
Defined.

(** The container is known, with a pod that has no details yet. *)
Definition pod_key : list Z * Z := (replicate 64 0, 7).
Definition early_index : Matching.Index :=
  Matching.set_container_pod true (UidKey.uid_key demo_id)
    (Matching.mk_container_pod (replicate 64 0) 7 (chars "web") (chars "docker.io/nginx:1.2")) empty_index.

Lemma described_ownerless : ownerless described SIDE_A early_index.
Proof.
  split.
  - by intros k Hk; vm_compute in Hk.
  - eexists _, pod_key. split; [by vm_compute|]. split; [by vm_compute|]. by split; vm_compute.
  - eexists _, _. split; [by vm_compute|]. by split; vm_compute.
  - by vm_compute.
Qed.

Lemma ownerless_pod_silences_witness :
  exists f', send_metrics demo_env true early_index A_TO_B (tcp_collected (demo_tcp 100)) described = Ok (f', []) /\
    forall later, Forall is_send later -> run demo_env later f' = Ok (f', []).
Proof.
  apply (ownerless_pod_silences demo_env demo_env_ok described SIDE_A early_index).
  - exact described_ok.
  - by vm_compute.
  - exact described_ownerless.
  - by vm_compute.
  - by vm_compute.
Defined.
End FlowSpanDemo.
