(* ===== verification/Ingest.v ===== *)
(** The sockets of the agents, on the ingest cores of the reducer: reducer/ingest/flow_updater.{h,cc},
    container_updater.h, socket_span.{h,cc} and udp_socket_span.{h,cc}.  Each socket that an
    agent describes is one side of a flow; its messages go to the flow's span on a matching
    core ([FlowSpan]).

    The index of the spans is generated code: it is a finite map from the keys, in which a
    flow counts its handles.  What other parts of an agent's span answer is an argument
    ([AgentView]). *)
From Stdlib Require Import Ascii String.
From S2P Require Import Prelude IpAddress NatHandler PollerBase CgroupParser FlowSpan.
Local Open Scope result_scope.

Module Ingest.
Import IpAddress FlowSpan.
#[local] Abbreviation flow_key := (Z * Z * (Z * Z))%type.

(** ** The index *)

Record Cgroup := mk_cgroup {
  cg_name : list Z; cg_service : option (list Z); cg_parent : option Z; cg_pod_uid_suffix : list Z;
  cg_pod_uid_hash : Z; cg_container : option Z;
}.
Record Process := mk_process {
  p_comm : list Z; p_service : option (list Z); p_cgroup : option Z; p_cgroup_override : option Z;
}.
Record Container := mk_container {
  ct_name : list Z; ct_pod_name : list Z; ct_role : list Z; ct_version : list Z; ct_ns : list Z; ct_node_type : Z;
  ct_update_count : Z;
}.
(** [fl_refs] is the number of handles that hold the span. *)
Record Flow := mk_ingest_flow {
  fl_is_connector : Z; fl_process1 : option Z; fl_process2 : option Z; fl_refs : nat;
}.
Definition Flow_new : Flow := mk_ingest_flow 0 None None 0.

Record Index := mk_index {
  agents : gmap Z AgentInfo;
  processes : gmap Z Process;
  cgroups : gmap Z Cgroup;
  containers : gmap Z Container;
  flows : gmap flow_key Flow;
}.
Definition set_flows (m : gmap flow_key Flow) (ix : Index) : Index :=
  mk_index (agents ix) (processes ix) (cgroups ix) (containers ix) m.
Definition set_processes (m : gmap Z Process) (ix : Index) : Index :=
  mk_index (agents ix) m (cgroups ix) (containers ix) (flows ix).

(** What is sent to the matching cores: the start and the end of the span of a flow, and the
    messages for it. *)
Inductive to_matching :=
  | Started (key : flow_key)
  | Message (key : flow_key) (e : event)
  | Ended (key : flow_key).

(** A handle is put back: the span of the last one ends. *)
Definition put_flow (handle : option flow_key) (ix : Index) : Index * list to_matching :=
  match handle with
  | None => (ix, [])
  | Some key =>
    match flows ix !! key with
    | None => (ix, [])
    | Some fl =>
      match fl_refs fl with
      | S (S n) =>
        (set_flows (<[key := mk_ingest_flow (fl_is_connector fl) (fl_process1 fl) (fl_process2 fl) (S n)]> (flows ix)) ix, [])
      | _ => (set_flows (delete key (flows ix)) ix, [Ended key])
      end
    end
  end.

(** ** ContainerUpdater *)

Record ContainerUpdater := mk_container_updater { last_container_loc_ : option Z; last_update_count_ : Z }.
Definition ContainerUpdater_new : ContainerUpdater := mk_container_updater None 0.

Definition side_z (side : FlowSide) : Z := match side with SIDE_A => 0 | SIDE_B => 1 end.

Definition send_container_info (ix : Index) (key : flow_key) (loc : Z) (side : FlowSide) (u : ContainerUpdater)
    : ContainerUpdater * list to_matching :=
  match containers ix !! loc with
  | None => (u, [])
  | Some container =>
    if bool_decide (last_container_loc_ u = Some loc) && (last_update_count_ u =? ct_update_count container) then (u, [])
    else
      let u := mk_container_updater (Some loc) (ct_update_count container) in
      if ct_update_count container =? 0 then (u, [])
      else
        (u, [Message key (ContainerMsg (side_z side) (ct_name container) (ct_pod_name container) (ct_role container)
               (ct_version container) (ct_ns container) (ct_node_type container))])
  end.

(** ** FlowUpdater *)

(** [jb] of a string: its length is a [u16]. *)
Definition jb (s : list Z) : list Z := take (Z.to_nat (u16 (zlen s))) s.

Definition reverse_connector (connector : Z) : Z :=
  if connector =? 1 then 2 else if connector =? 2 then 1 else connector.

Record FlowUpdater := mk_updater {
  fu_local_port_ : Z;
  fu_remote_port_ : Z;
  fu_is_connector_ : Z;
  fu_local_addr_ : IPv6Address;
  fu_remote_addr_ : IPv6Address;
  fu_remote_dns_ : option (list Z);
  process_handle_ : option Z;
  agent_handle_ : option Z;
  flow_handle_ : option flow_key;
  side_ : FlowSide;
  ignore_updates_ : bool;
  container1_updater_ : ContainerUpdater;
  container2_updater_ : ContainerUpdater;
}.

Definition with_flow (fu : FlowUpdater) (key : flow_key) (side : FlowSide) : FlowUpdater :=
  mk_updater (fu_local_port_ fu) (fu_remote_port_ fu) (fu_is_connector_ fu) (fu_local_addr_ fu) (fu_remote_addr_ fu)
    (fu_remote_dns_ fu) (process_handle_ fu) (agent_handle_ fu) (Some key) side (ignore_updates_ fu)
    (container1_updater_ fu) (container2_updater_ fu).
Definition ignoring (fu : FlowUpdater) : FlowUpdater :=
  mk_updater (fu_local_port_ fu) (fu_remote_port_ fu) (fu_is_connector_ fu) (fu_local_addr_ fu) (fu_remote_addr_ fu)
    (fu_remote_dns_ fu) (process_handle_ fu) (agent_handle_ fu) (flow_handle_ fu) (side_ fu) true
    (container1_updater_ fu) (container2_updater_ fu).
Definition with_containers (fu : FlowUpdater) (u1 u2 : ContainerUpdater) : FlowUpdater :=
  mk_updater (fu_local_port_ fu) (fu_remote_port_ fu) (fu_is_connector_ fu) (fu_local_addr_ fu) (fu_remote_addr_ fu)
    (fu_remote_dns_ fu) (process_handle_ fu) (agent_handle_ fu) (flow_handle_ fu) (side_ fu) (ignore_updates_ fu) u1 u2.

(** [std::tie(local_addr_int, local_port_) < std::tie(remote_addr_int, remote_port_)] *)
Definition ordered (fu : FlowUpdater) : bool :=
  let local := v6_as_int (fu_local_addr_ fu) in
  let remote := v6_as_int (fu_remote_addr_ fu) in
  (local <? remote) || ((local =? remote) && (fu_local_port_ fu <? fu_remote_port_ fu)).

Definition key_of (fu : FlowUpdater) : flow_key :=
  let local := (v6_as_int (fu_local_addr_ fu), fu_local_port_ fu) in
  let remote := (v6_as_int (fu_remote_addr_ fu), fu_remote_port_ fu) in
  if ordered fu then (local, remote) else (remote, local).

(** The messages about the process of the socket: its pod, its task and its service. *)
Definition k8s_messages (ix : Index) (key : flow_key) (side : FlowSide) (cgroup : Cgroup) : list to_matching :=
  let info (cg : Cgroup) := [Message key (K8sMsg (side_z side) (mk_k8s (cg_pod_uid_suffix cg) (cg_pod_uid_hash cg)))] in
  let assigned (cg : Cgroup) := negb (nth 0 (cg_pod_uid_suffix cg) 0 =? 0) in
  let own :=
    let cgroup_info := CgroupParser.parse (cg_name cgroup) in
    if negb (is_empty (CgroupParser.pod_id cgroup_info)) && negb (is_empty (CgroupParser.container_id cgroup_info)) &&
       assigned cgroup then info cgroup else [] in
  match cg_parent cgroup ≫= fun loc => cgroups ix !! loc with
  | Some parent => if assigned parent then info parent else own
  | None => own
  end.

Definition process_messages (ix : Index) (key : flow_key) (side : FlowSide) (process : Process) : list to_matching :=
  let cgroup := p_cgroup process ≫= fun loc => cgroups ix !! loc in
  let service_name :=
    match cgroup ≫= cg_service with Some s => s | None => default [] (p_service process) end in
  let cgroup_name := match cgroup with Some cg => cg_name cg | None => [] end in
  match cgroup with Some cg => k8s_messages ix key side cg | None => [] end ++
  [Message key (TaskMsg (side_z side) (mk_task (p_comm process) cgroup_name))] ++
  (if negb (is_empty service_name) then [Message key (ServiceMsg (side_z side) (mk_service service_name))] else []).

(** The messages that describe the socket to its flow. *)
Definition flow_messages (ix : Index) (fu : FlowUpdater) (key : flow_key) (side : FlowSide) : list to_matching :=
  match process_handle_ fu ≫= fun loc => processes ix !! loc with
  | Some p => process_messages ix key side p
  | None => []
  end ++
  [Message key (SocketMsg (side_z side) (v6_write_to (fu_local_addr_ fu)) (fu_local_port_ fu)
     (v6_write_to (fu_remote_addr_ fu)) (fu_remote_port_ fu) (u8 (fu_is_connector_ fu)) (default [] (fu_remote_dns_ fu)))] ++
  match agent_handle_ fu ≫= fun loc => agents ix !! loc with
  | Some a =>
    [Message key (AgentMsg (side_z side) (mk_agent (jb (ag_id a)) (jb (ag_az a)) (jb (ag_env a)) (jb (ag_role a)) (jb (ag_ns a))))]
  | None => []
  end.

Definition side_of_updater (fu : FlowUpdater) : FlowSide := if ordered fu then SIDE_A else SIDE_B.

(** The span of the flow with the connector and the process of the socket, and another handle. *)
Definition joined (ix : Index) (fu : FlowUpdater) (fl : Flow) : Flow :=
  let process := process_handle_ fu ≫= fun loc => processes ix !! loc in
  mk_ingest_flow
    (if fu_is_connector_ fu =? 0 then fl_is_connector fl
     else if ordered fu then fu_is_connector_ fu else reverse_connector (fu_is_connector_ fu))
    (match process, side_of_updater fu with Some _, SIDE_A => process_handle_ fu | _, _ => fl_process1 fl end)
    (match process, side_of_updater fu with Some _, SIDE_B => process_handle_ fu | _, _ => fl_process2 fl end)
    (S (fl_refs fl)).

(** [create_flow]: the key of the flow, unless there is no [room] for its span. *)
Definition create_flow (room : bool) (fu : FlowUpdater) (ix : Index)
    : option flow_key * FlowUpdater * Index * list to_matching :=
  let key := key_of fu in
  let found := flows ix !! key in
  if negb (bool_decide (is_Some found)) && negb room then (None, fu, ix, [])
  else if bool_decide (flow_handle_ fu = Some key) then (Some key, fu, ix, [])
  else
    let started := if bool_decide (is_Some found) then [] else [Started key] in
    let side := side_of_updater fu in
    let about := flow_messages ix fu key side in
    let ix := set_flows (<[key := joined ix fu (default Flow_new found)]> (flows ix)) ix in
    let '(ix, ended) := put_flow (flow_handle_ fu) ix in
    (Some key, with_flow fu key side, ix, started ++ about ++ ended).

(** The constructor.  [side_] has no value before the flow is created, and is not read. *)
Definition FlowUpdater_new (room : bool) (process agent : option Z) (local_addr : IPv6Address) (local_port : Z)
    (remote_addr : IPv6Address) (remote_port is_connector : Z) (remote_dns : option (list Z)) (ix : Index)
    : FlowUpdater * Index * list to_matching :=
  let fu :=
    mk_updater local_port remote_port is_connector local_addr remote_addr remote_dns process agent None SIDE_A false
      ContainerUpdater_new ContainerUpdater_new in
  let '(_, fu, ix, out) := create_flow room fu ix in (fu, ix, out).

(** [operator=] of two updaters: what is assigned, and the handle of the old flow put back. *)
Definition assign_updater (this other : FlowUpdater) (ix : Index) : FlowUpdater * Index * list to_matching :=
  let '(ix, out) := put_flow (flow_handle_ this) ix in
  (mk_updater (fu_local_port_ other) (fu_remote_port_ other) (fu_is_connector_ other) (fu_local_addr_ other)
     (fu_remote_addr_ other) (fu_remote_dns_ other) (process_handle_ other) (agent_handle_ other) (flow_handle_ other)
     (side_ other) (ignore_updates_ other) (container1_updater_ this) (container2_updater_ this), ix, out).

(** The assignment of an updater to an [optional], and its [reset]. *)
Definition assign_optional (this : option FlowUpdater) (other : FlowUpdater) (ix : Index)
    : FlowUpdater * Index * list to_matching :=
  match this with Some fu => assign_updater fu other ix | None => (other, ix, []) end.

Definition reset_optional (this : option FlowUpdater) (ix : Index) : Index * list to_matching :=
  match this with Some fu => put_flow (flow_handle_ fu) ix | None => (ix, []) end.

(** The references of a flow to containers, through its processes. *)
Definition process_at (ix : Index) (loc : option Z) : option Process := loc ≫= fun l => processes ix !! l.
Definition container_of (ix : Index) (cgroup : option Z) : option Z :=
  loc ← cgroup; cg ← cgroups ix !! loc; c ← cg_container cg; if bool_decide (is_Some (containers ix !! c)) then Some c else None.
Definition container_at (ix : Index) (loc : option Z) : option Z := p ← process_at ix loc; container_of ix (p_cgroup p).
Definition override_at (ix : Index) (loc : option Z) : option Z :=
  p ← process_at ix loc; container_of ix (p_cgroup_override p).

Definition docker_proxy : list Z := chars "docker-proxy".
Definition is_docker_proxy (p : option Process) : bool :=
  match p with Some p => bool_decide (p_comm p = docker_proxy) | None => false end.

Definition override_cgroup (loc : option Z) (cgroup : option Z) (ix : Index) : Index :=
  match loc, process_at ix loc with
  | Some l, Some p =>
    set_processes (<[l := mk_process (p_comm p) (p_service p) (p_cgroup p) cgroup]> (processes ix)) ix
  | _, _ => ix
  end.

(** The cgroup of a process, if it is valid. *)
Definition valid_cgroup (ix : Index) (p : option Process) : option Z :=
  p ← p; loc ← p_cgroup p; if bool_decide (is_Some (cgroups ix !! loc)) then Some loc else None.

(** The task again, where the process of the side has another cgroup than its own. *)
Definition override_message (ix : Index) (key : flow_key) (side : FlowSide) (p : option Process) : list to_matching :=
  match p with
  | Some p =>
    match p_cgroup_override p ≫= fun loc => cgroups ix !! loc with
    | Some cgroup => [Message key (TaskMsg (side_z side) (mk_task (p_comm p) (cg_name cgroup)))]
    | None => []
    end
  | None => []
  end.

Definition get_flow_for_update (room : bool) (fu : FlowUpdater) (ix : Index)
    : option flow_key * FlowUpdater * Index * list to_matching :=
  if ignore_updates_ fu then (None, fu, ix, [])
  else
    let '(key, fu, ix, out) := create_flow room fu ix in
    match key with
    | None => (None, fu, ix, out)
    | Some key =>
      let fl := default Flow_new (flows ix !! key) in
      let proc1 := process_at ix (fl_process1 fl) in
      let proc2 := process_at ix (fl_process2 fl) in
      let is_proxy := if is_docker_proxy proc1 then 1 else if is_docker_proxy proc2 then 2 else 0 in
      if negb (is_proxy =? 0) && (is_proxy =? fl_is_connector fl) then
        if is_proxy =? 1 then
          match valid_cgroup ix proc2 with
          | Some cg => (None, ignoring fu, override_cgroup (fl_process1 fl) (Some cg) ix, out)
          | None => (None, fu, ix, out)
          end
        else
          match valid_cgroup ix proc1 with
          | Some cg => (None, ignoring fu, override_cgroup (fl_process2 fl) (Some cg) ix, out)
          | None => (None, fu, ix, out)
          end
      else
        let container1 := container_at ix (fl_process1 fl) in
        let container2 := container_at ix (fl_process2 fl) in
        let override1 := override_at ix (fl_process1 fl) in
        let override2 := override_at ix (fl_process2 fl) in
        if (bool_decide (is_Some override1) && bool_decide (override1 = container2)) ||
           (bool_decide (is_Some override2) && bool_decide (override2 = container1)) then (None, ignoring fu, ix, out)
        else
          let tasks :=
            match side_ fu with
            | SIDE_A => override_message ix key SIDE_A proc1
            | SIDE_B => override_message ix key SIDE_B proc2
            end in
          let '(u1, out1) :=
            match (match override1 with Some _ => override1 | None => container1 end) with
            | Some c => send_container_info ix key c SIDE_A (container1_updater_ fu)
            | None => (container1_updater_ fu, [])
            end in
          let '(u2, out2) :=
            match (match override2 with Some _ => override2 | None => container2 end) with
            | Some c => send_container_info ix key c SIDE_B (container2_updater_ fu)
            | None => (container2_updater_ fu, [])
            end in
          (Some key, with_containers fu u1 u2, ix, out ++ tasks ++ out1 ++ out2)
    end.

(** [tcp_update], [udp_update], [http_update] and [dns_update]: [e] is the message for a side. *)
Definition updater_send (room : bool) (e : Z -> event) (fu : FlowUpdater) (ix : Index)
    : FlowUpdater * Index * list to_matching :=
  let '(key, fu, ix, out) := get_flow_for_update room fu ix in
  match key with
  | None => (fu, ix, out)
  | Some key => (fu, ix, out ++ [Message key (e (side_z (side_ fu)))])
  end.

Definition fu_tcp_update (room : bool) (m : Tcp.metrics) (is_rx : Z) :=
  updater_send room (fun side => TcpMsg side (u8 is_rx) m).
Definition fu_udp_update (room : bool) (m : Udp.metrics) (is_rx : Z) :=
  updater_send room (fun side => UdpMsg side (u8 is_rx) m).
Definition fu_http_update (room : bool) (m : Http.metrics) (client_server : Z) :=
  updater_send room (fun side => HttpMsg side client_server m).
Definition fu_dns_update (room : bool) (m : DnsMetrics.metrics) (client_server : Z) :=
  updater_send room (fun side => DnsMsg side client_server m).

(** ** SocketSpan *)

(** The agent of the connection, as the sockets see it when they handle a message: the
    location of its span, its address books and its processes, the map from private to
    public addresses that all agents share, and whether there is room for another flow. *)
Record AgentView := mk_view {
  agent_loc : option Z;
  find_dns_for_ip : IPv6Address -> option (list Z);
  is_socket_steady_state : bool;
  is_host_address : IPv6Address -> bool;
  get_process : Z -> option Z;
  agent_version : Z * Z * Z;
  addr_map : IPv6Address -> option IPv6Address;
  room : bool;
}.

Record SocketSpan := mk_socket_span {
  ss_local_addr_ : IPv6Address;
  ss_local_port_ : Z;
  ss_remote_addr_ : IPv6Address;
  ss_remote_port_ : Z;
  ss_is_connector_ : Z;
  new_sockets_ : Z;
  original_remote_addr_ : IPv6Address;
  ss_remote_dns_ : option (list Z);
  flow_updater_ : option FlowUpdater;
  ss_process : option Z;
}.
Definition SocketSpan_new : SocketSpan :=
  mk_socket_span IPv6Address_zero 0 IPv6Address_zero 0 0 0 IPv6Address_zero None None None.

Definition with_updater (s : SocketSpan) (fu : option FlowUpdater) : SocketSpan :=
  mk_socket_span (ss_local_addr_ s) (ss_local_port_ s) (ss_remote_addr_ s) (ss_remote_port_ s) (ss_is_connector_ s)
    (new_sockets_ s) (original_remote_addr_ s) (ss_remote_dns_ s) fu (ss_process s).
Definition with_new_sockets (s : SocketSpan) (n : Z) : SocketSpan :=
  mk_socket_span (ss_local_addr_ s) (ss_local_port_ s) (ss_remote_addr_ s) (ss_remote_port_ s) (ss_is_connector_ s)
    n (original_remote_addr_ s) (ss_remote_dns_ s) (flow_updater_ s) (ss_process s).
Definition with_dns (s : SocketSpan) (dns : option (list Z)) : SocketSpan :=
  mk_socket_span (ss_local_addr_ s) (ss_local_port_ s) (ss_remote_addr_ s) (ss_remote_port_ s) (ss_is_connector_ s)
    (new_sockets_ s) (original_remote_addr_ s) dns (flow_updater_ s) (ss_process s).

(** [local_addr.is_localhost() || (local_addr.is_ipv4() && (local_addr.to_ipv4()->is_localhost()))] *)
Definition localhost (a : IPv6Address) : result bool :=
  if v6_is_localhost a then Ok true
  else
    let* ip4 := get (is_ipv4 a) in
    if negb ip4 then Ok false
    else
      let* v4 := get (to_ipv4 a) in
      let* v4 := get v4 in
      Ok (v4_is_localhost v4).

Definition public_addr (v : AgentView) (a : IPv6Address) : IPv6Address := default a (addr_map v a).

Definition get_flow (v : AgentView) (s : SocketSpan) (ix : Index) : result (SocketSpan * Index * list to_matching) :=
  let local_addr := public_addr v (ss_local_addr_ s) in
  let remote_addr := public_addr v (ss_remote_addr_ s) in
  let* local := localhost local_addr in
  if local || (bool_decide (local_addr = remote_addr) && negb (is_host_address v local_addr)) then
    let '(ix, out) := reset_optional (flow_updater_ s) ix in Ok (with_updater s None, ix, out)
  else
    let '(fu, ix, out) :=
      FlowUpdater_new (room v) (ss_process s) (agent_loc v) local_addr (ss_local_port_ s) remote_addr (ss_remote_port_ s)
        (ss_is_connector_ s) (ss_remote_dns_ s) ix in
    let '(fu, ix, out') := assign_optional (flow_updater_ s) fu ix in
    Ok (with_updater s (Some fu), ix, out ++ out').

(** [flow_updater_ && flow_updater_->valid()] *)
Definition updater_valid (s : SocketSpan) : bool :=
  match flow_updater_ s with Some fu => bool_decide (is_Some (flow_handle_ fu)) | None => false end.

Definition set_process (v : AgentView) (pid : Z) (s : SocketSpan) : SocketSpan :=
  match get_process v pid with
  | Some p =>
    mk_socket_span (ss_local_addr_ s) (ss_local_port_ s) (ss_remote_addr_ s) (ss_remote_port_ s) (ss_is_connector_ s)
      (new_sockets_ s) (original_remote_addr_ s) (ss_remote_dns_ s) (flow_updater_ s) (Some p)
  | None => s
  end.

(** What [set_state_ipv4] and [set_state_ipv6] do with the addresses. *)
Definition set_state (v : AgentView) (local remote : IPv6Address) (local_port remote_port tx_rx : Z) (s : SocketSpan)
    (ix : Index) : result (SocketSpan * Index * list to_matching) :=
  if updater_valid s then Ok (s, ix, [])
  else
    let new_sockets := if is_socket_steady_state v then 1 else new_sockets_ s in
    let dns := match ss_remote_dns_ s with Some d => Some d | None => find_dns_for_ip v remote end in
    get_flow v
      (mk_socket_span local local_port remote remote_port tx_rx new_sockets remote dns (flow_updater_ s) (ss_process s)) ix.

Definition ss_set_state_ipv4 (v : AgentView) (dest src dport sport tx_rx : Z) (s : SocketSpan) (ix : Index)
    : result (SocketSpan * Index * list to_matching) :=
  let* local_addr6 := get (to_ipv6 (v4_from src)) in
  let* remote_addr6 := get (to_ipv6 (v4_from dest)) in
  set_state v local_addr6 remote_addr6 sport dport tx_rx s ix.

Definition ss_set_state_ipv6 (v : AgentView) (dest src : list Z) (dport sport tx_rx : Z) (s : SocketSpan) (ix : Index)
    : result (SocketSpan * Index * list to_matching) :=
  set_state v (v6_from src) (v6_from dest) sport dport tx_rx s ix.

(** The update of an optional updater. *)
Definition updater_do (f : FlowUpdater -> Index -> FlowUpdater * Index * list to_matching) (s : SocketSpan) (ix : Index)
    : SocketSpan * Index * list to_matching :=
  match flow_updater_ s with
  | Some fu => let '(fu, ix, out) := f fu ix in (with_updater s (Some fu), ix, out)
  | None => (s, ix, [])
  end.

Definition ss_socket_stats (v : AgentView) (diff_bytes diff_delivered diff_retrans max_srtt is_rx : Z) (s : SocketSpan)
    (ix : Index) : result (SocketSpan * Index * list to_matching) :=
  if 1 <? is_rx then Ok (s, ix, [])
  else
    let diff_bytes := if 2 ^ 56 <? diff_bytes then 0 else diff_bytes in
    let diff_retrans := if 2 ^ 28 <? diff_retrans then 0 else diff_retrans in
    let diff_delivered := if 2 ^ 28 <? diff_delivered then 0 else diff_delivered in
    let stats := Tcp.mk_metrics 1 diff_retrans diff_bytes max_srtt diff_delivered 1 0 (new_sockets_ s) 0 in
    let s := with_new_sockets s 0 in
    let* (s, ix, out) :=
      match ss_remote_dns_ s with
      | Some _ => Ok (s, ix, [])
      | None =>
        match find_dns_for_ip v (original_remote_addr_ s) with
        | Some dns => get_flow v (with_dns s (Some dns)) ix
        | None => Ok (s, ix, [])
        end
      end in
    let '(s, ix, out') := updater_do (fu_tcp_update (room v) stats is_rx) s ix in
    Ok (s, ix, out ++ out').

Definition ss_syn_timeout (v : AgentView) (s : SocketSpan) (ix : Index) : SocketSpan * Index * list to_matching :=
  updater_do (fu_tcp_update (room v) (Tcp.mk_metrics 1 0 0 0 0 0 1 0 0) 0) s ix.

Definition ss_tcp_reset (v : AgentView) (is_rx : Z) (s : SocketSpan) (ix : Index)
    : SocketSpan * Index * list to_matching :=
  updater_do (fu_tcp_update (room v) (Tcp.mk_metrics 1 0 0 0 0 0 0 0 1) is_rx) s ix.

Definition SC_CLIENT : Z := 0.

(** The metrics of one response. *)
Definition http_stats (code latency_ns client_server : Z) : Http.metrics :=
  let total := if client_server =? SC_CLIENT then latency_ns else 0 in
  let processing := if client_server =? SC_SERVER then latency_ns else 0 in
  let is_200 := (200 <=? code) && (code <=? 299) in
  let is_400 := (400 <=? code) && (code <=? 499) in
  let is_500 := (500 <=? code) && (code <=? 599) in
  if is_200 then Http.mk_metrics 1 1 0 0 0 total processing
  else if is_400 then Http.mk_metrics 1 0 1 0 0 total processing
  else if is_500 then Http.mk_metrics 1 0 0 1 0 total processing
  else Http.mk_metrics 1 0 0 0 1 total processing.

Definition ss_http_response (v : AgentView) (code latency_ns client_server : Z) (s : SocketSpan) (ix : Index)
    : SocketSpan * Index * list to_matching :=
  updater_do (fu_http_update (room v) (http_stats code latency_ns client_server) client_server) s ix.

(** [ntohs] *)
Definition ntohs (x : Z) : Z := htons x.

Definition ss_nat_remapping (v : AgentView) (src dst sport dport : Z) (s : SocketSpan) (ix : Index)
    : result (SocketSpan * Index * list to_matching) :=
  let* nat_src := get (to_ipv6 (v4_from src)) in
  let* nat_dst := get (to_ipv6 (v4_from dst)) in
  let '(local_addr, local_port) :=
    if is_host_address v nat_src then (nat_src, ntohs sport) else (ss_local_addr_ s, ss_local_port_ s) in
  get_flow v
    (mk_socket_span local_addr local_port nat_dst (ntohs dport) (ss_is_connector_ s) (new_sockets_ s)
       (original_remote_addr_ s) (ss_remote_dns_ s) (flow_updater_ s) (ss_process s)) ix.

(** The messages of the collector for one TCP socket. *)
Definition socket_handle (v : AgentView) (m : message) (s : SocketSpan) (ix : Index)
    : result (SocketSpan * Index * list to_matching) :=
  match m with
  | new_sock_info _ pid _ => Ok (set_process v pid s, ix, [])
  | set_state_ipv4 _ dest src dport sport _ tx_rx => ss_set_state_ipv4 v dest src dport sport tx_rx s ix
  | set_state_ipv6 _ dest src dport sport _ tx_rx => ss_set_state_ipv6 v dest src dport sport tx_rx s ix
  | socket_stats _ _ bytes delivered retrans srtt is_rx => ss_socket_stats v bytes delivered retrans srtt is_rx s ix
  | syn_timeout _ _ => Ok (ss_syn_timeout v s ix)
  | tcp_reset _ _ is_rx => Ok (ss_tcp_reset v is_rx s ix)
  | http_response _ _ _ code latency cs => Ok (ss_http_response v code latency cs s ix)
  | close_sock_info _ _ => let '(ix, out) := reset_optional (flow_updater_ s) ix in Ok (with_updater s None, ix, out)
  | nat_remapping m =>
    let ft := NatHandler.ft m in ss_nat_remapping v (src_ip ft) (dst_ip ft) (src_port ft) (dst_port ft) s ix
  | _ => Ok (s, ix, [])
  end.

(** ** UdpSocketSpan *)

(** The elements for sent and for received packets are those of the arrays at 0 and 1. *)
Record UdpSocketSpan := mk_udp_span {
  us_local_addr_ : IPv6Address;
  us_local_port_ : Z;
  remote_ip_ : (IPv6Address * Z) * (IPv6Address * Z);
  ignore_udp_ : bool;
  is_dns_ : bool;
  us_flow_updater_ : option FlowUpdater * option FlowUpdater;
  us_process : option Z;
}.
Definition UdpSocketSpan_new : UdpSocketSpan :=
  mk_udp_span IPv6Address_zero 0 ((IPv6Address_zero, 0), (IPv6Address_zero, 0)) false false (None, None) None.

Definition at_rx {A} (is_rx : Z) (p : A * A) : A := if is_rx =? 0 then p.1 else p.2.
Definition set_rx {A} (is_rx : Z) (x : A) (p : A * A) : A * A := if is_rx =? 0 then (x, p.2) else (p.1, x).

Definition us_with_updater (s : UdpSocketSpan) (is_rx : Z) (fu : option FlowUpdater) : UdpSocketSpan :=
  mk_udp_span (us_local_addr_ s) (us_local_port_ s) (remote_ip_ s) (ignore_udp_ s) (is_dns_ s)
    (set_rx is_rx fu (us_flow_updater_ s)) (us_process s).

Definition UDP_ADDRESS_FIX_VERSION : Z * Z * Z := (0, 8, 2082).
(** [VersionInfo::operator<] *)
Definition version_ltb (a b : Z * Z * Z) : bool :=
  let '(a1, a2, a3) := a in
  let '(b1, b2, b3) := b in
  (a1 <? b1) || ((a1 =? b1) && ((a2 <? b2) || ((a2 =? b2) && (a3 <? b3)))).

(** [laddr] is read as four words of 32 bits. *)
Definition us_new_socket (v : AgentView) (pid : Z) (laddr : list Z) (lport : Z) (s : UdpSocketSpan)
    : result UdpSocketSpan :=
  let word i := le_decode (take 4 (drop (4 * i) laddr)) in
  let* local_addr :=
    if Z.lor (Z.lor (word 0%nat) (word 1%nat)) (Z.lxor (word 2%nat) 0xffff0000) =? 0 then get (to_ipv6 (v4_from (word 3%nat)))
    else Ok (v6_from laddr) in
  Ok (mk_udp_span local_addr lport (remote_ip_ s) (ignore_udp_ s || version_ltb (agent_version v) UDP_ADDRESS_FIX_VERSION)
        (is_dns_ s) (us_flow_updater_ s) (match get_process v pid with Some p => Some p | None => us_process s end)).

Definition update_handle (v : AgentView) (is_rx : Z) (s : UdpSocketSpan) (ix : Index)
    : result (UdpSocketSpan * Index * list to_matching) :=
  let '(remote_addr, remote_port) := at_rx is_rx (remote_ip_ s) in
  let remote_dns := default [] (find_dns_for_ip v remote_addr) in
  let local_addr := public_addr v (us_local_addr_ s) in
  let remote_addr := public_addr v remote_addr in
  let* local := localhost local_addr in
  if local || (bool_decide (local_addr = remote_addr) && negb (is_host_address v local_addr)) then
    let '(ix, out) := reset_optional (at_rx is_rx (us_flow_updater_ s)) ix in Ok (us_with_updater s is_rx None, ix, out)
  else
    let '(fu, ix, out) :=
      FlowUpdater_new (room v) (us_process s) (agent_loc v) local_addr (us_local_port_ s) remote_addr remote_port 0
        (Some remote_dns) ix in
    let '(fu, ix, out') := assign_optional (at_rx is_rx (us_flow_updater_ s)) fu ix in
    Ok (us_with_updater s is_rx (Some fu), ix, out ++ out').

Definition us_updater_do (is_rx : Z) (f : FlowUpdater -> Index -> FlowUpdater * Index * list to_matching)
    (s : UdpSocketSpan) (ix : Index) : UdpSocketSpan * Index * list to_matching :=
  match at_rx is_rx (us_flow_updater_ s) with
  | Some fu => let '(fu, ix, out) := f fu ix in (us_with_updater s is_rx (Some fu), ix, out)
  | None => (s, ix, [])
  end.

Definition update_udp_stats (v : AgentView) (is_rx addr_changed packets bytes drops : Z) (s : UdpSocketSpan) (ix : Index)
    : UdpSocketSpan * Index * list to_matching :=
  us_updater_do is_rx (fu_udp_update (room v) (Udp.mk_metrics 1 addr_changed packets bytes drops) is_rx) s ix.

Definition us_stats_addr_unchanged (v : AgentView) (is_rx packets bytes : Z) (s : UdpSocketSpan) (ix : Index)
    : UdpSocketSpan * Index * list to_matching :=
  if 1 <? is_rx then (s, ix, [])
  else if negb (ignore_udp_ s) then update_udp_stats v is_rx 0 packets bytes 0 s ix else (s, ix, []).

(** [udp_stats_addr_changed_v4] and [udp_stats_addr_changed_v6], which differ in the form of the address. *)
Definition us_stats_addr_changed (v : AgentView) (is_rx packets bytes : Z) (raddr : result IPv6Address) (rport : Z)
    (s : UdpSocketSpan) (ix : Index) : result (UdpSocketSpan * Index * list to_matching) :=
  if 1 <? is_rx then Ok (s, ix, [])
  else
    let* remote_addr := raddr in
    let s :=
      mk_udp_span (us_local_addr_ s) (us_local_port_ s) (set_rx is_rx (remote_addr, rport) (remote_ip_ s)) (ignore_udp_ s)
        (is_dns_ s) (us_flow_updater_ s) (us_process s) in
    let* (s, ix, out) :=
      if negb (ignore_udp_ s) || is_dns_ s then update_handle v is_rx s ix else Ok (s, ix, []) in
    let '(s, ix, out') :=
      if negb (ignore_udp_ s) then update_udp_stats v is_rx 1 packets bytes 0 s ix else (s, ix, []) in
    Ok (s, ix, out ++ out').

Definition us_stats_drops_changed (v : AgentView) (drops : Z) (s : UdpSocketSpan) (ix : Index)
    : UdpSocketSpan * Index * list to_matching :=
  update_udp_stats v 1 0 0 0 drops s ix.

Definition update_dns_stats (v : AgentView) (client_server : Z) (m : DnsMetrics.metrics) (is_timeout : bool)
    (s : UdpSocketSpan) (ix : Index) : result (UdpSocketSpan * Index * list to_matching) :=
  let is_rx := if client_server =? SC_CLIENT then 1 else 0 in
  let is_rx := if is_timeout then 0 else is_rx in
  let s :=
    mk_udp_span (us_local_addr_ s) (us_local_port_ s) (remote_ip_ s) (ignore_udp_ s) true (us_flow_updater_ s)
      (us_process s) in
  let* (s, ix, out) :=
    match at_rx is_rx (us_flow_updater_ s) with
    | Some _ => Ok (s, ix, [])
    | None => update_handle v is_rx s ix
    end in
  let '(s, ix, out') := us_updater_do is_rx (fu_dns_update (room v) m client_server) s ix in
  Ok (s, ix, out ++ out').

(** [num4] and [num6] are the numbers of addresses of the answer. *)
Definition us_dns_response (v : AgentView) (num4 num6 latency_ns client_server : Z) (s : UdpSocketSpan) (ix : Index)
    : result (UdpSocketSpan * Index * list to_matching) :=
  let total := if client_server =? SC_CLIENT then latency_ns else 0 in
  let processing := if client_server =? SC_SERVER then latency_ns else 0 in
  update_dns_stats v client_server
    (DnsMetrics.mk_metrics 1 (b2z (0 <? num4)) (b2z (0 <? num6)) 1 0 total processing) false s ix.

(** [dns_response_dep_b], of older agents. *)
Definition us_dns_response_dep_b (v : AgentView) (num4 num6 latency_ns : Z) (s : UdpSocketSpan) (ix : Index)
    : result (UdpSocketSpan * Index * list to_matching) :=
  us_dns_response v num4 num6 latency_ns (if us_local_port_ s =? kPortDNS then SC_SERVER else SC_CLIENT) s ix.

Definition us_dns_timeout (v : AgentView) (s : UdpSocketSpan) (ix : Index)
    : result (UdpSocketSpan * Index * list to_matching) :=
  update_dns_stats v SC_CLIENT (DnsMetrics.mk_metrics 1 0 0 0 1 0 0) true s ix.

(** The messages of the collector for one UDP socket. *)
Definition udp_socket_handle (v : AgentView) (m : message) (s : UdpSocketSpan) (ix : Index)
    : result (UdpSocketSpan * Index * list to_matching) :=
  match m with
  | udp_new_socket _ pid _ laddr lport => let* s := us_new_socket v pid laddr lport s in Ok (s, ix, [])
  | udp_stats_addr_changed_v4 _ _ is_rx packets bytes raddr rport =>
    us_stats_addr_changed v is_rx packets bytes (get (to_ipv6 (v4_from raddr))) rport s ix
  | udp_stats_addr_changed_v6 _ _ is_rx packets bytes raddr rport =>
    us_stats_addr_changed v is_rx packets bytes (Ok (v6_from raddr)) rport s ix
  | udp_stats_addr_unchanged _ _ is_rx packets bytes => Ok (us_stats_addr_unchanged v is_rx packets bytes s ix)
  | udp_stats_drops_changed _ _ drops => Ok (us_stats_drops_changed v drops s ix)
  | dns_response _ _ _ _ ipv4_addrs ipv6_addrs latency cs =>
    us_dns_response v (zlen ipv4_addrs) (zlen ipv6_addrs) latency cs s ix
  | dns_timeout _ _ _ _ _ => us_dns_timeout v s ix
  | udp_destroy_socket _ _ =>
    let '(ix, out) := reset_optional (us_flow_updater_ s).1 ix in
    let '(ix, out') := reset_optional (us_flow_updater_ s).2 ix in
    Ok (us_with_updater (us_with_updater s 0 None) 1 None, ix, out ++ out')
  | _ => Ok (s, ix, [])
  end.

(** * Handles of flows *)

Definition refs (ix : Index) (k : flow_key) : nat := match flows ix !! k with Some fl => fl_refs fl | None => 0 end.
Definition holds (k : flow_key) (fu : FlowUpdater) : nat := if bool_decide (flow_handle_ fu = Some k) then 1 else 0.
Definition holds_opt (k : flow_key) (fu : option FlowUpdater) : nat := from_option (holds k) 0%nat fu.

(** The spans of an index have a handle. *)
Definition live (ix : Index) : Prop := forall k fl, flows ix !! k = Some fl -> fl_refs fl <> 0%nat.

(** What an updater holds is in the index. *)
Definition held (ix : Index) (fu : option FlowUpdater) : Prop := forall k, (holds_opt k fu <= refs ix k)%nat.

(** An operation that replaces [fu] by [fu'] moves the handles accordingly. *)
Definition accounted (fu : option FlowUpdater) (ix : Index) (fu' : option FlowUpdater) (ix' : Index) : Prop :=
  live ix' /\ forall k, (refs ix' k + holds_opt k fu = refs ix k + holds_opt k fu')%nat.

Lemma accounted_refl (fu : option FlowUpdater) (ix : Index) : live ix -> accounted fu ix fu ix.
Proof. by split. Qed.

Lemma held_trans (fu1 fu2 fu3 : option FlowUpdater) (ix1 ix2 ix3 : Index) :
  accounted fu1 ix1 fu2 ix2 -> accounted fu2 ix2 fu3 ix3 -> accounted fu1 ix1 fu3 ix3.
Proof. intros [_ H1] [L2 H2]. split; [done|]. intros k. specialize (H1 k). specialize (H2 k). lia. Qed.

Lemma accounted_held (fu fu' : option FlowUpdater) (ix ix' : Index) :
  held ix fu -> accounted fu ix fu' ix' -> held ix' fu'.
Proof. intros Hh [_ H] k. specialize (Hh k). specialize (H k). lia. Qed.

(** Only the flows and the handle matter. *)
Lemma accounted_same (fu fu' : FlowUpdater) (ix ix' : Index) :
  live ix -> flows ix' = flows ix -> flow_handle_ fu' = flow_handle_ fu -> accounted (Some fu) ix (Some fu') ix'.
Proof.
  intros Hl Hf Hh. unfold accounted, live, refs, holds_opt, from_option, holds. rewrite Hf, Hh. split; [exact Hl|done].
Qed.

Lemma refs_insert (ix : Index) (key k : flow_key) (fl : Flow) :
  refs (set_flows (<[key := fl]> (flows ix)) ix) k = if decide (key = k) then fl_refs fl else refs ix k.
Proof. unfold refs. cbn. case_decide as E; [subst; by rewrite lookup_insert_eq|by rewrite lookup_insert_ne]. Qed.

Lemma live_insert (ix : Index) (key : flow_key) (fl : Flow) :
  live ix -> fl_refs fl <> 0%nat -> live (set_flows (<[key := fl]> (flows ix)) ix).
Proof.
  intros Hl Hfl k x. cbn. destruct (decide (key = k)) as [<-|]; [rewrite lookup_insert_eq; congruence|].
  rewrite lookup_insert_ne by done. apply Hl.
Qed.

(** A handle that is put back was held. *)
Lemma put_flow_spec (handle : option flow_key) (ix : Index) :
  live ix -> (forall key, handle = Some key -> refs ix key <> 0%nat) ->
  live (put_flow handle ix).1 /\
  forall k, (refs (put_flow handle ix).1 k + (if bool_decide (handle = Some k) then 1 else 0) = refs ix k)%nat.
Proof.
  intros Hl Hh. destruct handle as [key|]; cbn [put_flow fst]; [|split; [done|intros k; rewrite bool_decide_false by done; lia]].
  specialize (Hh key eq_refl). unfold refs in Hh at 1. destruct (flows ix !! key) as [fl|] eqn:E; [|done].
  destruct (fl_refs fl) as [|[|n]] eqn:En; [done| |].
  - cbn [fst]. split.
    + intros k x. cbn. intros H. apply lookup_delete_Some in H as [_ H]. by eapply Hl.
    + intros k. unfold refs. cbn. case_bool_decide as Ek.
      * injection Ek as <-. rewrite lookup_delete_eq, E, En. lia.
      * rewrite lookup_delete_ne by congruence. lia.
  - cbn [fst]. split; [by apply live_insert|]. intros k. rewrite refs_insert. cbn [fl_refs].
    case_decide as Ek; case_bool_decide as Eb; try congruence; [|lia]. subst. unfold refs. rewrite E, En. lia.
Qed.

(** After one more handle for [k0] the old one is put back. *)
Lemma put_after_join (fu : FlowUpdater) (ix ix1 : Index) (k0 : flow_key) :
  held ix (Some fu) -> live ix1 -> (forall k, refs ix1 k = refs ix k + (if decide (k0 = k) then 1 else 0))%nat ->
  live (put_flow (flow_handle_ fu) ix1).1 /\
  forall k, (refs (put_flow (flow_handle_ fu) ix1).1 k + holds k fu = refs ix k + (if decide (k0 = k) then 1 else 0))%nat.
Proof.
  intros Hh Hl1 Hr. destruct (put_flow_spec (flow_handle_ fu) ix1 Hl1) as [Hl2 Hr2].
  - intros key Hkey. specialize (Hh key). unfold holds_opt, from_option, holds in Hh. rewrite Hkey in Hh.
    rewrite bool_decide_true in Hh by done. rewrite Hr. lia.
  - split; [done|]. intros k. rewrite <- Hr. apply Hr2.
Qed.

Lemma create_flow_accounted (r : bool) (fu : FlowUpdater) (ix : Index) :
  live ix -> held ix (Some fu) ->
  let '(_, fu', ix', _) := create_flow r fu ix in accounted (Some fu) ix (Some fu') ix'.
Proof.
  intros Hl Hh. unfold create_flow. cbv zeta. destruct (_ && _); [by apply accounted_refl|].
  case_bool_decide; [by apply accounted_refl|].
  set (fl := default Flow_new (flows ix !! key_of fu)).
  destruct (put_after_join fu ix (set_flows (<[key_of fu := joined ix fu fl]> (flows ix)) ix) (key_of fu) Hh) as [Hl2 Hr2].
  - by apply live_insert.
  - intros k. rewrite refs_insert. cbn [joined fl_refs]. case_decide; [subst|lia]. unfold fl, refs.
    destruct (flows ix !! key_of fu); cbn; lia.
  - destruct (put_flow _ _) as [ix2 ended]. cbn [fst] in *. split; [done|]. intros k. cbn [holds_opt from_option].
    rewrite Hr2. unfold holds. cbn [flow_handle_ with_flow]. case_decide; case_bool_decide; congruence || lia.
Qed.

Lemma create_flow_handle (r : bool) (fu : FlowUpdater) (ix : Index) :
  let '(_, fu', _, _) := create_flow r fu ix in fu' = fu \/ fu' = with_flow fu (key_of fu) (side_of_updater fu).
Proof.
  unfold create_flow. cbv zeta. destruct (_ && _); [by left|]. case_bool_decide; [by left|].
  destruct (put_flow _ _). by right.
Qed.

Lemma get_flow_for_update_accounted (r : bool) (fu : FlowUpdater) (ix : Index) :
  live ix -> held ix (Some fu) ->
  let '(_, fu', ix', _) := get_flow_for_update r fu ix in accounted (Some fu) ix (Some fu') ix'.
Proof.
  intros Hl Hh. unfold get_flow_for_update. destruct (ignore_updates_ fu); [by apply accounted_refl|].
  pose proof (create_flow_accounted r fu ix Hl Hh) as Hc. destruct (create_flow r fu ix) as [[[key fu1] ix1] out].
  destruct key as [key|]; [|done]. cbv zeta.
  assert (Hsame : forall fu2 ix2, flows ix2 = flows ix1 -> flow_handle_ fu2 = flow_handle_ fu1 ->
    accounted (Some fu) ix (Some fu2) ix2).
  { intros fu2 ix2 Hf Hk. eapply held_trans; [exact Hc|]. apply accounted_same; [apply Hc|done..]. }
  assert (Hov : forall loc cg, flows (override_cgroup loc cg ix1) = flows ix1).
  { intros loc cg. unfold override_cgroup. destruct loc; [|done]. by destruct (process_at _ _). }
  repeat (case_match; simplify_eq/=; auto).
Qed.

Lemma updater_send_accounted (r : bool) (e : Z -> event) (fu : FlowUpdater) (ix : Index) :
  live ix -> held ix (Some fu) ->
  let '(fu', ix', _) := updater_send r e fu ix in accounted (Some fu) ix (Some fu') ix'.
Proof.
  intros Hl Hh. unfold updater_send. pose proof (get_flow_for_update_accounted r fu ix Hl Hh) as H.
  destruct (get_flow_for_update r fu ix) as [[[key fu1] ix1] out]. by destruct key.
Qed.

Lemma live_held_none (ix : Index) : held ix None.
Proof. intros k. cbn. lia. Qed.

(** A new updater holds its flow besides what is held already. *)
Lemma FlowUpdater_new_accounted (r : bool) process agent la lp ra rp c dns (ix : Index) :
  live ix ->
  let '(fu, ix', _) := FlowUpdater_new r process agent la lp ra rp c dns ix in accounted None ix (Some fu) ix'.
Proof.
  intros Hl. unfold FlowUpdater_new. set (fu := mk_updater _ _ _ _ _ _ _ _ _ _ _ _ _).
  assert (Hno : forall k, holds_opt k (Some fu) = 0%nat) by (intros k; unfold holds_opt, from_option, holds; by rewrite bool_decide_false).
  assert (Hh : held ix (Some fu)) by (intros k; rewrite Hno; lia).
  pose proof (create_flow_accounted r fu ix Hl Hh) as H. destruct (create_flow r fu ix) as [[[key fu1] ix1] out].
  destruct H as [Hl1 H1]. split; [done|]. intros k. specialize (H1 k).
  rewrite Hno in H1. cbn [holds_opt from_option] in *. lia.
Qed.

Lemma reset_accounted (fu : option FlowUpdater) (ix : Index) :
  live ix -> held ix fu -> accounted fu ix None (reset_optional fu ix).1.
Proof.
  intros Hl Hh. destruct fu as [fu|]; [|by apply accounted_refl]. unfold reset_optional.
  destruct (put_flow_spec (flow_handle_ fu) ix Hl) as [Hl2 Hr].
  - intros key Hkey. specialize (Hh key). unfold holds_opt, from_option, holds in Hh. rewrite Hkey in Hh.
    rewrite bool_decide_true in Hh by done. lia.
  - split; [done|]. intros k. specialize (Hr k). unfold holds_opt, from_option, holds. lia.
Qed.

(** The old handle is put back, the new one taken over. *)
Lemma replace_accounted (this : option FlowUpdater) (r : bool) process agent la lp ra rp c dns (ix : Index) :
  live ix -> held ix this ->
  let '(fu, ix1, _) := FlowUpdater_new r process agent la lp ra rp c dns ix in
  let '(fu', ix2, _) := assign_optional this fu ix1 in accounted this ix (Some fu') ix2.
Proof.
  intros Hl Hh. pose proof (FlowUpdater_new_accounted r process agent la lp ra rp c dns ix Hl) as H.
  destruct (FlowUpdater_new _ _ _ _ _ _ _ _ _ ix) as [[fu ix1] out]. destruct H as [Hl1 H1].
  destruct this as [this|]; cbn [assign_optional]; [|by split].
  assert (Hh1 : held ix1 (Some this)) by (intros k; specialize (Hh k); specialize (H1 k); cbn in *; lia).
  destruct (reset_accounted (Some this) ix1 Hl1 Hh1) as [Hl2 H2]. unfold assign_updater, reset_optional in *.
  destruct (put_flow (flow_handle_ this) ix1) as [ix2 ended]. cbn [fst] in *. split; [done|]. intros k.
  specialize (H1 k). specialize (H2 k). unfold holds_opt, from_option, holds in *. cbn [flow_handle_] in *. lia.
Qed.

(** ** Addresses *)

Definition view_ok (v : AgentView) : Prop := forall a b, addr_map v a = Some b -> v6_ok b.

Lemma public_addr_ok (v : AgentView) (a : IPv6Address) : view_ok v -> v6_ok a -> v6_ok (public_addr v a).
Proof. intros Hv Ha. unfold public_addr. destruct (addr_map v a) eqn:E; [by eapply Hv|done]. Qed.

Lemma localhost_ok (a : IPv6Address) : v6_ok a -> exists b, localhost a = Ok b.
Proof.
  intros Ha. unfold localhost. destruct (v6_is_localhost a); [by eexists|]. rewrite is_ipv4_spec by done. cbn [get rbind].
  case_bool_decide as E; cbn [negb]; [|by eexists]. unfold to_ipv4. rewrite is_ipv4_spec by done.
  rewrite bool_decide_true by done. cbn [mbind option_bind negb]. destruct Ha as [Hl _]. destruct a as [hs].
  cbn [hextets_] in *. explode hs Hl. by eexists.
Qed.

Lemma v4_from_ok (x : Z) : v4_ok (v4_from x).
Proof. split; [apply length_le_encode|apply le_encode_bytes]. Qed.

Lemma to_ipv6_from (x : Z) : exists a, to_ipv6 (v4_from x) = Some a /\ v6_ok a.
Proof.
  rewrite (to_ipv6_spec _ (v4_from_ok x)). eexists. split; [done|]. destruct (v4_is_localhost _).
  - split; [done|]. cbn. repeat (apply Forall_cons_2; [by split|]). apply Forall_nil_2.
  - apply v4_mapped_ok, v4_from_ok.
Qed.

Lemma zero_ok : v6_ok IPv6Address_zero.
Proof. split; [done|]. by apply Forall_replicate. Qed.

(** ** Sockets *)

Definition sock_ok (s : SocketSpan) : Prop := v6_ok (ss_local_addr_ s) /\ v6_ok (ss_remote_addr_ s).
Definition bytes16_ok (a : list Z) : Prop := length a = 16%nat /\ Forall is_byte a.
Definition message_ok (m : message) : Prop :=
  match m with
  | set_state_ipv6 _ dest src _ _ _ _ => bytes16_ok dest /\ bytes16_ok src
  | udp_new_socket _ _ _ laddr _ => bytes16_ok laddr
  | udp_stats_addr_changed_v6 _ _ _ _ _ raddr _ => bytes16_ok raddr
  | _ => True
  end.

Lemma v6_from_ok (a : list Z) : bytes16_ok a -> v6_ok (v6_from a).
Proof. intros [Hl Hb]. by apply (words_hextets 8). Qed.

(** An operation of a socket succeeds, keeps its addresses well formed and the handles accounted for. *)
Definition socket_step (s : SocketSpan) (ix : Index) (r : result (SocketSpan * Index * list to_matching)) : Prop :=
  exists s' ix' out, r = Ok (s', ix', out) /\ sock_ok s' /\ accounted (flow_updater_ s) ix (flow_updater_ s') ix'.

Lemma get_flow_step (v : AgentView) (s : SocketSpan) (ix : Index) :
  view_ok v -> sock_ok s -> live ix -> held ix (flow_updater_ s) -> socket_step s ix (get_flow v s ix).
Proof.
  intros Hv [Hla Hra] Hl Hh. unfold get_flow, socket_step. cbv zeta.
  destruct (localhost_ok (public_addr v (ss_local_addr_ s))) as [b ->]; [by apply public_addr_ok|]. cbn [rbind].
  destruct (_ || _).
  - pose proof (reset_accounted (flow_updater_ s) ix Hl Hh) as H. destruct (reset_optional _ ix) as [ix' out].
    by exists (with_updater s None), ix', out.
  - pose proof (replace_accounted (flow_updater_ s) (room v) (ss_process s) (agent_loc v) (public_addr v (ss_local_addr_ s))
      (ss_local_port_ s) (public_addr v (ss_remote_addr_ s)) (ss_remote_port_ s) (ss_is_connector_ s) (ss_remote_dns_ s) ix Hl Hh) as H.
    destruct (FlowUpdater_new _ _ _ _ _ _ _ _ _ ix) as [[fu ix1] out]. destruct (assign_optional _ fu ix1) as [[fu' ix2] out'].
    by exists (with_updater s (Some fu')), ix2, (out ++ out').
Qed.

Lemma updater_do_step (r : bool) (e : Z -> event) (s : SocketSpan) (ix : Index) :
  sock_ok s -> live ix -> held ix (flow_updater_ s) -> socket_step s ix (Ok (updater_do (updater_send r e) s ix)).
Proof.
  intros Hs Hl Hh. unfold updater_do, socket_step. destruct (flow_updater_ s) as [fu|] eqn:E.
  - pose proof (updater_send_accounted r e fu ix Hl Hh) as H. destruct (updater_send r e fu ix) as [[fu' ix'] out].
    by exists (with_updater s (Some fu')), ix', out.
  - exists s, ix, []. rewrite E. split; [done|]. split; [done|]. by apply accounted_refl.
Qed.

Lemma idle_step (s s' : SocketSpan) (ix : Index) :
  sock_ok s' -> live ix -> flow_updater_ s' = flow_updater_ s -> socket_step s ix (Ok (s', ix, [])).
Proof. intros Hs Hl E. exists s', ix, []. rewrite E. split; [done|]. split; [done|]. by apply accounted_refl. Qed.

Lemma socket_stats_step (v : AgentView) bytes delivered retrans srtt is_rx (s : SocketSpan) (ix : Index) :
  view_ok v -> sock_ok s -> live ix -> held ix (flow_updater_ s) ->
  socket_step s ix (ss_socket_stats v bytes delivered retrans srtt is_rx s ix).
Proof.
  intros Hv Hs Hl Hh. unfold ss_socket_stats. destruct (1 <? is_rx); [by apply idle_step|]. cbv zeta.
  set (stats := Tcp.mk_metrics _ _ _ _ _ _ _ _ _). set (s0 := with_new_sockets s 0).
  assert (Hfirst : socket_step s0 ix
    (match ss_remote_dns_ s0 with
     | Some _ => Ok (s0, ix, [])
     | None => match find_dns_for_ip v (original_remote_addr_ s0) with
               | Some dns => get_flow v (with_dns s0 (Some dns)) ix | None => Ok (s0, ix, []) end
     end)).
  { destruct (ss_remote_dns_ s0); [by apply idle_step|]. destruct (find_dns_for_ip _ _) as [dns|]; [|by apply idle_step].
    by apply (get_flow_step v (with_dns s0 (Some dns)) ix). }
  destruct Hfirst as (s1 & ix1 & out1 & -> & Hs1 & Ha1). cbn [rbind].
  pose proof (accounted_held _ _ _ _ (Hh : held ix (flow_updater_ s0)) Ha1) as Hh1.
  destruct (updater_do_step (room v) (fun side => TcpMsg side (u8 is_rx) stats) s1 ix1 Hs1 (proj1 Ha1) Hh1)
    as (s2 & ix2 & out2 & E & Hs2 & Ha2). injection E as E. unfold fu_tcp_update. rewrite E.
  exists s2, ix2, (out1 ++ out2). split; [done|]. split; [done|]. by eapply held_trans.
Qed.

Lemma socket_handle_step (v : AgentView) (m : message) (s : SocketSpan) (ix : Index) :
  view_ok v -> message_ok m -> sock_ok s -> live ix -> held ix (flow_updater_ s) ->
  socket_step s ix (socket_handle v m s ix).
Proof.
  intros Hv Hm Hs Hl Hh.
  assert (Hset : forall a b lp rp c, v6_ok a -> v6_ok b -> socket_step s ix (set_state v a b lp rp c s ix)).
  { intros a b lp rp c Ha Hb. unfold set_state. destruct (updater_valid s); [by apply idle_step|].
    by apply (get_flow_step v (mk_socket_span a lp b rp c _ b _ (flow_updater_ s) (ss_process s)) ix). }
  destruct m; cbn [socket_handle message_ok] in *; try by apply idle_step.
  - apply idle_step; [|done|]; unfold set_process; by destruct (get_process v pid).
  - unfold ss_set_state_ipv4. destruct (to_ipv6_from src) as (a & -> & Ha), (to_ipv6_from dest) as (b & -> & Hb).
    by apply Hset.
  - apply Hset; apply v6_from_ok; apply Hm.
  - pose proof (reset_accounted (flow_updater_ s) ix Hl Hh) as H. destruct (reset_optional _ ix) as [ix' out].
    by exists (with_updater s None), ix', out.
  - by apply socket_stats_step.
  - by apply updater_do_step.
  - by apply updater_do_step.
  - by apply updater_do_step.
  - unfold ss_nat_remapping. destruct (to_ipv6_from (src_ip (NatHandler.ft m))) as (a & -> & Ha),
      (to_ipv6_from (dst_ip (NatHandler.ft m))) as (b & -> & Hb). cbn [get rbind].
    destruct (is_host_address v a).
    + by apply (get_flow_step v (mk_socket_span a _ b _ _ _ _ _ (flow_updater_ s) (ss_process s)) ix).
    + apply (get_flow_step v (mk_socket_span _ _ b _ _ _ _ _ (flow_updater_ s) (ss_process s)) ix); [done| |done|done].
      split; [apply Hs|done].
Qed.

(** ** UDP sockets *)

Definition holds_pair (k : flow_key) (p : option FlowUpdater * option FlowUpdater) : nat :=
  (holds_opt k p.1 + holds_opt k p.2)%nat.
Definition udp_ok (s : UdpSocketSpan) : Prop :=
  v6_ok (us_local_addr_ s) /\ v6_ok (remote_ip_ s).1.1 /\ v6_ok (remote_ip_ s).2.1.
Definition held_pair (ix : Index) (p : option FlowUpdater * option FlowUpdater) : Prop :=
  forall k, (holds_pair k p <= refs ix k)%nat.

Definition udp_step (s : UdpSocketSpan) (ix : Index) (r : result (UdpSocketSpan * Index * list to_matching)) : Prop :=
  exists s' ix' out, r = Ok (s', ix', out) /\ udp_ok s' /\ live ix' /\
    forall k, (refs ix' k + holds_pair k (us_flow_updater_ s) = refs ix k + holds_pair k (us_flow_updater_ s'))%nat.

Lemma held_at (ix : Index) (p : option FlowUpdater * option FlowUpdater) (is_rx : Z) :
  held_pair ix p -> held ix (at_rx is_rx p).
Proof. intros H k. specialize (H k). unfold holds_pair in H. unfold at_rx. destruct (is_rx =? 0); lia. Qed.

(** A step of one of the two updaters. *)
Lemma one_udp_step (s s' : UdpSocketSpan) (ix ix' : Index) (is_rx : Z) (fu' : option FlowUpdater) (out : list to_matching) :
  udp_ok s' -> us_flow_updater_ s' = set_rx is_rx fu' (us_flow_updater_ s) ->
  accounted (at_rx is_rx (us_flow_updater_ s)) ix fu' ix' -> udp_step s ix (Ok (s', ix', out)).
Proof.
  intros Hs E [Hl H]. exists s', ix', out. split; [done|]. split; [done|]. split; [done|]. intros k. rewrite E.
  specialize (H k). unfold holds_pair, at_rx, set_rx in *. destruct (is_rx =? 0); cbn [fst snd]; lia.
Qed.

Lemma udp_idle (s s' : UdpSocketSpan) (ix : Index) :
  udp_ok s' -> live ix -> us_flow_updater_ s' = us_flow_updater_ s -> udp_step s ix (Ok (s', ix, [])).
Proof. intros Hs Hl E. exists s', ix, []. rewrite E. by split_and!. Qed.

(** One step after another. *)
Lemma udp_then (s : UdpSocketSpan) (ix : Index) (r : result (UdpSocketSpan * Index * list to_matching))
    (f : UdpSocketSpan -> Index -> UdpSocketSpan * Index * list to_matching) :
  held_pair ix (us_flow_updater_ s) -> udp_step s ix r ->
  (forall s1 ix1, udp_ok s1 -> live ix1 -> held_pair ix1 (us_flow_updater_ s1) -> udp_step s1 ix1 (Ok (f s1 ix1))) ->
  udp_step s ix (let* (s, ix, out) := r in let '(s, ix, out') := f s ix in Ok (s, ix, out ++ out')).
Proof.
  intros Hh (s1 & ix1 & out1 & -> & Hs1 & Hl1 & H1) Hf. cbn [rbind].
  destruct (Hf s1 ix1 Hs1 Hl1) as (s2 & ix2 & out2 & E & Hs2 & Hl2 & H2).
  { intros k. specialize (Hh k). specialize (H1 k). lia. }
  injection E as E. rewrite E. exists s2, ix2, (out1 ++ out2). split; [done|]. split; [done|]. split; [done|].
  intros k. specialize (H1 k). specialize (H2 k). lia.
Qed.

Lemma update_handle_step (v : AgentView) (is_rx : Z) (s : UdpSocketSpan) (ix : Index) :
  view_ok v -> udp_ok s -> live ix -> held_pair ix (us_flow_updater_ s) -> udp_step s ix (update_handle v is_rx s ix).
Proof.
  intros Hv Hs Hl Hh. unfold update_handle. destruct (at_rx is_rx (remote_ip_ s)) as [ra rp] eqn:E.
  destruct (localhost_ok (public_addr v (us_local_addr_ s))) as [b ->]; [apply public_addr_ok; [done|apply Hs]|]. cbn [rbind].
  pose proof (held_at ix _ is_rx Hh) as Hh1. destruct (_ || _).
  - pose proof (reset_accounted (at_rx is_rx (us_flow_updater_ s)) ix Hl Hh1) as H. destruct (reset_optional _ ix) as [ix' out].
    by eapply one_udp_step.
  - pose proof (replace_accounted (at_rx is_rx (us_flow_updater_ s)) (room v) (us_process s) (agent_loc v)
      (public_addr v (us_local_addr_ s)) (us_local_port_ s) (public_addr v ra) rp 0 (Some (default [] (find_dns_for_ip v ra))) ix Hl Hh1) as H.
    destruct (FlowUpdater_new _ _ _ _ _ _ _ _ _ ix) as [[fu ix1] out]. destruct (assign_optional _ fu ix1) as [[fu' ix2] out'].
    by eapply one_udp_step.
Qed.

Lemma us_updater_do_step (r : bool) (e : Z -> event) (is_rx : Z) (s : UdpSocketSpan) (ix : Index) :
  udp_ok s -> live ix -> held_pair ix (us_flow_updater_ s) ->
  udp_step s ix (Ok (us_updater_do is_rx (updater_send r e) s ix)).
Proof.
  intros Hs Hl Hh. unfold us_updater_do. pose proof (held_at ix _ is_rx Hh) as Hh1.
  destruct (at_rx is_rx (us_flow_updater_ s)) as [fu|] eqn:E; [|by apply udp_idle].
  pose proof (updater_send_accounted r e fu ix Hl Hh1) as H. destruct (updater_send r e fu ix) as [[fu' ix'] out].
  eapply one_udp_step; [done|reflexivity|]. by rewrite E.
Qed.

Lemma update_dns_stats_step (v : AgentView) (cs : Z) (m : DnsMetrics.metrics) (t : bool) (s : UdpSocketSpan) (ix : Index) :
  view_ok v -> udp_ok s -> live ix -> held_pair ix (us_flow_updater_ s) -> udp_step s ix (update_dns_stats v cs m t s ix).
Proof.
  intros Hv Hs Hl Hh. unfold update_dns_stats. cbv zeta.
  set (is_rx := if t then _ else _). set (s0 := mk_udp_span _ _ _ _ _ _ _).
  apply (udp_then s0 ix); [done| |intros; by apply us_updater_do_step].
  destruct (at_rx is_rx (us_flow_updater_ s0)); [by apply udp_idle|by apply update_handle_step].
Qed.

Lemma addr_changed_step (v : AgentView) is_rx packets bytes (ra : result IPv6Address) rp (s : UdpSocketSpan) (ix : Index) :
  (exists a, ra = Ok a /\ v6_ok a) ->
  view_ok v -> udp_ok s -> live ix -> held_pair ix (us_flow_updater_ s) ->
  udp_step s ix (us_stats_addr_changed v is_rx packets bytes ra rp s ix).
Proof.
  intros (a & -> & Ha) Hv Hs Hl Hh. unfold us_stats_addr_changed. destruct (1 <? is_rx); [by apply udp_idle|].
  cbn [rbind]. set (s0 := mk_udp_span _ _ _ _ _ _ _).
  assert (Hs0 : udp_ok s0).
  { destruct Hs as (H1 & H2 & H3). unfold udp_ok, s0, set_rx. by destruct (is_rx =? 0). }
  apply (udp_then s0 ix); [done| |].
  - destruct (_ || _); [by apply update_handle_step|by apply udp_idle].
  - intros s1 ix1 Hs1 Hl1 Hh1. destruct (negb _); [|by apply udp_idle]. by apply us_updater_do_step.
Qed.

Lemma udp_handle_step (v : AgentView) (m : message) (s : UdpSocketSpan) (ix : Index) :
  view_ok v -> message_ok m -> udp_ok s -> live ix -> held_pair ix (us_flow_updater_ s) ->
  udp_step s ix (udp_socket_handle v m s ix).
Proof.
  intros Hv Hm Hs Hl Hh. destruct m; cbn [udp_socket_handle message_ok] in *; try by apply udp_idle.
  - unfold us_new_socket. destruct (_ =? 0).
    + destruct (to_ipv6_from (le_decode (take 4 (drop (4 * 3) laddr)))) as (a & -> & Ha). cbn [get rbind].
      apply udp_idle; [|done..]. split; [done|apply Hs].
    + cbn [rbind]. apply udp_idle; [|done..]. split; [by apply v6_from_ok|apply Hs].
  - destruct (us_flow_updater_ s) as [fu0 fu1] eqn:E. try rewrite E in Hh. cbn [fst snd].
    assert (Hh0 : held ix fu0) by (intros k; specialize (Hh k); unfold holds_pair in Hh; cbn [fst snd] in Hh; lia).
    pose proof (reset_accounted fu0 ix Hl Hh0) as [Hl1 H1]. destruct (reset_optional fu0 ix) as [ix1 out1]. cbn [fst] in *.
    assert (Hh1 : held ix1 fu1).
    { intros k. specialize (Hh k). specialize (H1 k). unfold holds_pair in Hh. change (holds_opt k None) with 0%nat in H1.
      cbn [fst snd] in *. lia. }
    pose proof (reset_accounted fu1 ix1 Hl1 Hh1) as [Hl2 H2]. destruct (reset_optional fu1 ix1) as [ix2 out2]. cbn [fst] in *.
    eexists _, ix2, _. split; [done|]. split; [done|]. split; [done|]. intros k. specialize (H1 k). specialize (H2 k).
    rewrite E. unfold holds_pair. change (holds_opt k None) with 0%nat in *.
    cbn [us_with_updater us_flow_updater_ set_rx Z.eqb fst snd]. change (holds_opt k None) with 0%nat. lia.
  - destruct (to_ipv6_from raddr) as (a & Ea & Ha). apply addr_changed_step; [|done..]. rewrite Ea. by exists a.
  - apply addr_changed_step; [|done..]. eexists. split; [done|]. by apply v6_from_ok.
  - unfold us_stats_addr_unchanged. destruct (1 <? is_rx); [by apply udp_idle|]. destruct (negb _); [|by apply udp_idle].
    by apply us_updater_do_step.
  - by apply us_updater_do_step.
  - by apply update_dns_stats_step.
  - by apply update_dns_stats_step.
Qed.

(** ** All sockets of a core *)

Record Core := mk_core { sockets : list SocketSpan; udp_sockets : list UdpSocketSpan; index : Index }.

(** A span of a socket is created; a message for one arrives; what the index knows of agents,
    processes, control groups and containers changes. *)
Inductive ingest_event :=
  | NewSocket
  | NewUdpSocket
  | SocketMessage (i : nat) (v : AgentView) (m : message)
  | UdpMessage (i : nat) (v : AgentView) (m : message)
  | World (a : gmap Z AgentInfo) (p : gmap Z Process) (g : gmap Z Cgroup) (c : gmap Z Container).

Definition core_handle (e : ingest_event) (c : Core) : result (Core * list to_matching) :=
  match e with
  | NewSocket => Ok (mk_core (sockets c ++ [SocketSpan_new]) (udp_sockets c) (index c), [])
  | NewUdpSocket => Ok (mk_core (sockets c) (udp_sockets c ++ [UdpSocketSpan_new]) (index c), [])
  | SocketMessage i v m =>
    match sockets c !! i with
    | Some s =>
      let* (s, ix, out) := socket_handle v m s (index c) in
      Ok (mk_core (<[i := s]> (sockets c)) (udp_sockets c) ix, out)
    | None => Ok (c, [])
    end
  | UdpMessage i v m =>
    match udp_sockets c !! i with
    | Some s =>
      let* (s, ix, out) := udp_socket_handle v m s (index c) in
      Ok (mk_core (sockets c) (<[i := s]> (udp_sockets c)) ix, out)
    | None => Ok (c, [])
    end
  | World a p g k => Ok (mk_core (sockets c) (udp_sockets c) (mk_index a p g k (flows (index c))), [])
  end.

Fixpoint core_run (es : list ingest_event) (c : Core) : result (Core * list to_matching) :=
  match es with
  | [] => Ok (c, [])
  | e :: es => let* (c, out) := core_handle e c in let* (c, rest) := core_run es c in Ok (c, out ++ rest)
  end.

Definition Core_new : Core := mk_core [] [] (mk_index ∅ ∅ ∅ ∅ ∅).

Definition ingest_event_ok (e : ingest_event) : Prop :=
  match e with SocketMessage _ v m | UdpMessage _ v m => view_ok v /\ message_ok m | _ => True end.

(** The number of updaters that hold a flow. *)
Definition holders (c : Core) (k : flow_key) : nat :=
  (sum_list_with (fun s => holds_opt k (flow_updater_ s)) (sockets c) +
   sum_list_with (fun s => holds_pair k (us_flow_updater_ s)) (udp_sockets c))%nat.

Definition core_ok (c : Core) : Prop :=
  live (index c) /\ Forall sock_ok (sockets c) /\ Forall udp_ok (udp_sockets c) /\
  forall k, refs (index c) k = holders c k.

Lemma sum_insert {A} (f : A -> nat) (l : list A) (i : nat) (x y : A) :
  l !! i = Some x -> (sum_list_with f (<[i := y]> l) + f x = sum_list_with f l + f y)%nat.
Proof.
  revert i. induction l as [|z l IH]; intros [|i] H; simpl in *; try done.
  - injection H as ->. lia.
  - specialize (IH i H). lia.
Qed.

Lemma sum_lookup {A} (f : A -> nat) (l : list A) (i : nat) (x : A) : l !! i = Some x -> (f x <= sum_list_with f l)%nat.
Proof. revert i. induction l as [|z l IH]; intros [|i] H; simpl in *; try done; [injection H as ->; lia|specialize (IH i H); lia]. Qed.

Lemma core_step (e : ingest_event) (c : Core) :
  ingest_event_ok e -> core_ok c -> exists c' out, core_handle e c = Ok (c', out) /\ core_ok c'.
Proof.
  intros He (Hl & Hs & Hu & Hr). destruct e as [| |i v m|i v m|]; cbn [core_handle].
  - eexists _, _. split; [done|]. split; [done|]. split; [apply Forall_app; split; [done|]|split; [done|]].
    + apply Forall_singleton. split; apply zero_ok.
    + intros k. rewrite Hr. unfold holders. cbn [sockets udp_sockets]. rewrite sum_list_with_app. cbn. lia.
  - eexists _, _. split; [done|]. split; [done|]. split; [done|]. split; [apply Forall_app; split; [done|]|].
    + apply Forall_singleton. split_and!; apply zero_ok.
    + intros k. rewrite Hr. unfold holders. cbn [sockets udp_sockets]. rewrite sum_list_with_app. cbn. lia.
  - destruct (sockets c !! i) as [s|] eqn:E; [|by eexists _, _].
    destruct He as [Hv Hm]. destruct (socket_handle_step v m s (index c)) as (s' & ix' & out & -> & Hs' & Hl' & H); try done.
    + by eapply Forall_lookup_1.
    + intros k. rewrite Hr. unfold holders. pose proof (sum_lookup (fun s => holds_opt k (flow_updater_ s)) _ _ _ E). cbn in *. lia.
    + eexists _, out. split; [done|]. split; [done|]. split; [by apply Forall_insert|]. split; [done|]. intros k.
      specialize (H k). rewrite Hr in H. unfold holders in *. cbn [sockets udp_sockets index].
      pose proof (sum_insert (fun s => holds_opt k (flow_updater_ s)) _ _ _ s' E). cbn in *. lia.
  - destruct (udp_sockets c !! i) as [s|] eqn:E; [|by eexists _, _].
    destruct He as [Hv Hm]. destruct (udp_handle_step v m s (index c)) as (s' & ix' & out & -> & Hs' & Hl' & H); try done.
    + by eapply Forall_lookup_1.
    + intros k. rewrite Hr. unfold holders. pose proof (sum_lookup (fun s => holds_pair k (us_flow_updater_ s)) _ _ _ E). cbn in *. lia.
    + eexists _, out. split; [done|]. split; [done|]. split; [done|]. split; [by apply Forall_insert|]. intros k.
      specialize (H k). rewrite Hr in H. unfold holders in *. cbn [sockets udp_sockets index].
      pose proof (sum_insert (fun s => holds_pair k (us_flow_updater_ s)) _ _ _ s' E). cbn in *. lia.
  - by eexists _, _.
Qed.

(** C17: through any history of TCP and UDP sockets, of the processes and containers they
    belong to and of room for flows, no message fails, and the span of a flow is there exactly as long as a
    socket has its handle: none is lost, and none stays after its last socket. *)
Theorem flows_held (es : list ingest_event) :
  Forall ingest_event_ok es ->
  exists c out, core_run es Core_new = Ok (c, out) /\
    forall k, refs (index c) k = holders c k /\ (is_Some (flows (index c) !! k) <-> holders c k <> 0%nat).
Proof.
  intros Hes.
  assert (H : forall c, core_ok c -> exists c' out, core_run es c = Ok (c', out) /\ core_ok c').
  { induction Hes as [|e es He _ IH]; intros c Hc; cbn [core_run]; [by exists c, []|].
    destruct (core_step e c He Hc) as (c1 & out1 & -> & Hc1). cbn [rbind].
    destruct (IH c1 Hc1) as (c2 & out2 & -> & Hc2). cbn [rbind]. by exists c2, (out1 ++ out2). }
  destruct (H Core_new) as (c & out & E & Hl & _ & _ & Hr).
  { split; [by intros k fl Hk|]. split; [constructor|]. split; [constructor|]. by intros k. }
  exists c, out. split; [done|]. intros k. split; [apply Hr|]. rewrite <- Hr. unfold refs.
  destruct (flows (index c) !! k) as [fl|] eqn:Ek; [|by split; [intros [? ?]|]].
  split; [intros _; by eapply Hl|by eexists].
Qed.
End Ingest.
