(* ===== verification/FlowSystem.v ===== *)
(** The two ends of a connection and their flow: the sockets that two agents describe
    ([Ingest]) and the span that matches them ([FlowSpan]). *)
From Stdlib Require Import Ascii String.
From S2P Require Import Prelude IpAddress NatHandler PollerBase CgroupParser FlowSpan Ingest.
Local Open Scope result_scope.

Module FlowSystem.
Import IpAddress FlowSpan Ingest.
#[local] Abbreviation flow_key := (Z * Z * (Z * Z))%type.

(** ** Messages without metrics *)

(** Descriptions for the flow [k], and its start. *)
Definition description (k : flow_key) (x : to_matching) : Prop :=
  x = Started k \/ exists e, x = Message k e /\ event_side e = None /\ event_ok e.
Definition descriptions_of (k : flow_key) (out : list to_matching) : Prop := Forall (description k) out.

(** The flow of a message. *)
Definition flow_of (x : to_matching) : flow_key := match x with Started k | Message k _ | Ended k => k end.
Definition for_flow (k : flow_key) (out : list to_matching) : Prop := Forall (fun x => flow_of x = k) out.

Lemma described_flow (k : flow_key) (out : list to_matching) : descriptions_of k out -> for_flow k out.
Proof. intros H. eapply Forall_impl; [exact H|]. by intros x [->|(e & -> & _)]. Qed.

Lemma side_z_ok (side : FlowSide) : side_ok (side_z side).
Proof. destruct side; [by left|by right]. Qed.

Lemma side_z_back (side : FlowSide) : u8_to_side (side_z side) = Ok side.
Proof. by destruct side. Qed.

Lemma describes (k : flow_key) (e : event) : event_side e = None -> event_ok e -> description k (Message k e).
Proof. intros He Hok. right. by exists e. Qed.

Lemma process_messages_described (ix : Index) (k : flow_key) (side : FlowSide) (p : Process) :
  descriptions_of k (process_messages ix k side p).
Proof.
  unfold process_messages, descriptions_of. cbv zeta. rewrite !Forall_app. split_and!.
  - destruct (p_cgroup p ≫= _) as [cg|]; [|constructor]. unfold k8s_messages. cbv zeta.
    assert (Hinfo : forall c, Forall (description k) [Message k (K8sMsg (side_z side) (mk_k8s (cg_pod_uid_suffix c) (cg_pod_uid_hash c)))])
      by (intros c; apply Forall_singleton, describes; [done|apply side_z_ok]).
    repeat case_match; auto; constructor.
  - apply Forall_singleton, describes; [done|apply side_z_ok].
  - destruct (negb _); [|constructor]. apply Forall_singleton, describes; [done|apply side_z_ok].
Qed.

Lemma v6_write_ok (a : IPv6Address) : v6_ok a -> bytes16_ok (v6_write_to a).
Proof.
  intros [Hl Hh]. unfold v6_write_to, bytes16. destruct a as [hs]. cbn [hextets_] in *. split.
  - explode hs Hl. done.
  - apply Forall_concat, Forall_fmap. eapply Forall_impl; [exact Hh|]. intros h _. apply le_encode_bytes.
Qed.

Lemma flow_messages_described (ix : Index) (fu : FlowUpdater) (k : flow_key) (side : FlowSide) :
  v6_ok (fu_local_addr_ fu) -> v6_ok (fu_remote_addr_ fu) -> descriptions_of k (flow_messages ix fu k side).
Proof.
  intros Hl Hr. unfold flow_messages, descriptions_of. rewrite !Forall_app. split_and!.
  - destruct (process_handle_ fu ≫= _); [apply process_messages_described|constructor].
  - apply Forall_singleton, describes; [done|]. split; [apply side_z_ok|]. split; by apply v6_write_ok.
  - destruct (agent_handle_ fu ≫= _); [|constructor]. apply Forall_singleton, describes; [done|apply side_z_ok].
Qed.

Lemma container_described (ix : Index) (k : flow_key) (loc : Z) (side : FlowSide) (u : ContainerUpdater) :
  descriptions_of k (send_container_info ix k loc side u).2.
Proof.
  unfold send_container_info. destruct (containers ix !! loc); [|constructor]. destruct (_ && _); [constructor|].
  cbv zeta. destruct (_ =? 0); [constructor|]. apply Forall_singleton, describes; [done|apply side_z_ok].
Qed.

(** ** Attached sockets *)

(** No process stands in for another. *)
Definition plain (ix : Index) : Prop :=
  forall loc p, processes ix !! loc = Some p -> p_comm p <> docker_proxy /\ p_cgroup_override p = None.

(** An updater that holds the flow of its addresses. *)
Record attached (fu : FlowUpdater) (ix : Index) (k : flow_key) : Prop := {
  at_handle : flow_handle_ fu = Some k;
  at_key : key_of fu = k;
  at_updater_side : side_ fu = side_of_updater fu;
  at_ignore : ignore_updates_ fu = false;
  at_flow : is_Some (flows ix !! k);
}.

Lemma create_flow_attached (r : bool) (fu : FlowUpdater) (ix : Index) (k : flow_key) :
  attached fu ix k -> create_flow r fu ix = (Some k, fu, ix, []).
Proof.
  intros [Hh Hk Hs Hi Hf]. unfold create_flow. rewrite Hk. rewrite (bool_decide_true _ Hf). cbn [negb andb].
  by rewrite bool_decide_true.
Qed.

Lemma plain_proxy (ix : Index) (loc : option Z) : plain ix -> is_docker_proxy (process_at ix loc) = false.
Proof.
  intros Hp. unfold is_docker_proxy, process_at. destruct loc as [l|]; [|done]. cbn.
  destruct (processes ix !! l) eqn:E; [|done]. apply bool_decide_eq_false. by apply (Hp _ _ E).
Qed.

Lemma plain_override (ix : Index) (loc : option Z) :
  plain ix -> override_at ix loc = None /\ forall k side, override_message ix k side (process_at ix loc) = [].
Proof.
  intros Hp. unfold override_at, override_message, process_at. destruct loc as [l|]; [|done]. cbn.
  destruct (processes ix !! l) eqn:E; [|done]. cbn. by rewrite (proj2 (Hp _ _ E)).
Qed.

Lemma get_flow_attached (r : bool) (fu : FlowUpdater) (ix : Index) (k : flow_key) :
  plain ix -> attached fu ix k ->
  exists u1 u2 out, get_flow_for_update r fu ix = (Some k, with_containers fu u1 u2, ix, out) /\ descriptions_of k out.
Proof.
  intros Hp Ha. unfold get_flow_for_update. rewrite (at_ignore _ _ _ Ha), (create_flow_attached r fu ix k Ha). cbv zeta.
  set (fl := default Flow_new (flows ix !! k)). rewrite !plain_proxy by done. cbn [Z.eqb negb andb].
  destruct (plain_override ix (fl_process1 fl) Hp) as [-> E1], (plain_override ix (fl_process2 fl) Hp) as [-> E2].
  rewrite !(bool_decide_false (is_Some None)) by (by intros [? ?]). cbn [andb orb]. rewrite E1, E2.
  set (r1 := match container_at ix (fl_process1 fl) with Some _ => _ | None => _ end).
  set (r2 := match container_at ix (fl_process2 fl) with Some _ => _ | None => _ end).
  assert (H1 : descriptions_of k r1.2) by (unfold r1; destruct (container_at ix (fl_process1 fl)); [apply container_described|constructor]).
  assert (H2 : descriptions_of k r2.2) by (unfold r2; destruct (container_at ix (fl_process2 fl)); [apply container_described|constructor]).
  destruct r1 as [u1 out1], r2 as [u2 out2]. exists u1, u2. eexists. split; [reflexivity|].
  unfold descriptions_of in *. rewrite !Forall_app. split_and!; [constructor|by destruct (side_ fu)|done|done].
Qed.

(** An update of an attached updater: descriptions, and then the message. *)
Lemma updater_send_attached (r : bool) (e : Z -> event) (fu : FlowUpdater) (ix : Index) (k : flow_key) :
  plain ix -> attached fu ix k ->
  exists u1 u2 out, updater_send r e fu ix =
    (with_containers fu u1 u2, ix, out ++ [Message k (e (side_z (side_of_updater fu)))]) /\ descriptions_of k out.
Proof.
  intros Hp Ha. unfold updater_send. destruct (get_flow_attached r fu ix k Hp Ha) as (u1 & u2 & out & -> & Hout).
  exists u1, u2, out. split; [|done]. cbn [side_ with_containers]. by rewrite (at_updater_side _ _ _ Ha).
Qed.

(** ** A socket and its messages *)

(** The messages for a flow, and those of them with metrics. *)
Definition events_of (k : flow_key) : list to_matching -> list event :=
  omap (fun x => match x with Message k' e => if decide (k' = k) then Some e else None | _ => None end).
Definition metrics_of : list event -> list event := filter (fun e => is_Some (event_side e)).

Lemma described_events (k : flow_key) (out : list to_matching) :
  descriptions_of k out -> metrics_of (events_of k out) = [] /\ Forall event_ok (events_of k out).
Proof.
  induction 1 as [|x out Hx _ [IH1 IH2]]; [done|]. destruct Hx as [->|(e & -> & He & Hok)]; cbn; [done|].
  rewrite decide_True by done. split; [|by constructor]. unfold metrics_of in *. rewrite filter_cons_False; [done|].
  rewrite He. by intros [? ?].
Qed.

(** The public addresses and the ports of the two ends. *)
Record ends := mk_ends { e_local : IPv6Address; e_lport : Z; e_remote : IPv6Address; e_rport : Z }.

Definition updater_at (en : ends) (fu : FlowUpdater) : Prop :=
  fu_local_addr_ fu = e_local en /\ fu_local_port_ fu = e_lport en /\ fu_remote_addr_ fu = e_remote en /\
  fu_remote_port_ fu = e_rport en.

Definition ends_ordered (en : ends) : bool :=
  let local := v6_as_int (e_local en) in
  let remote := v6_as_int (e_remote en) in
  (local <? remote) || ((local =? remote) && (e_lport en <? e_rport en)).
Definition ends_key (en : ends) : flow_key :=
  let local := (v6_as_int (e_local en), e_lport en) in
  let remote := (v6_as_int (e_remote en), e_rport en) in
  if ends_ordered en then (local, remote) else (remote, local).
Definition ends_side (en : ends) : FlowSide := if ends_ordered en then SIDE_A else SIDE_B.

Lemma updater_at_key (en : ends) (fu : FlowUpdater) :
  updater_at en fu -> key_of fu = ends_key en /\ side_of_updater fu = ends_side en.
Proof. intros (E1 & E2 & E3 & E4). unfold key_of, side_of_updater, ordered, ends_key, ends_side, ends_ordered. by rewrite E1, E2, E3, E4. Qed.

(** Ends on different hosts, none of which is the local host. *)
Definition ends_ok (en : ends) : Prop :=
  v6_ok (e_local en) /\ v6_ok (e_remote en) /\ localhost (e_local en) = Ok false /\ e_local en <> e_remote en.

(** The socket is between these ends, as the map [am] of public addresses has them. *)
Definition between (am : IPv6Address -> option IPv6Address) (en : ends) (s : SocketSpan) : Prop :=
  default (ss_local_addr_ s) (am (ss_local_addr_ s)) = e_local en /\ ss_local_port_ s = e_lport en /\
  default (ss_remote_addr_ s) (am (ss_remote_addr_ s)) = e_remote en /\ ss_remote_port_ s = e_rport en.

Record joined_flow (am : IPv6Address -> option IPv6Address) (en : ends) (s : SocketSpan) (ix : Index) : Prop := {
  jf_between : between am en s;
  jf_updater : exists fu, flow_updater_ s = Some fu /\ updater_at en fu /\ attached fu ix (ends_key en);
  jf_plain : plain ix;
  jf_live : live ix;
}.

(** A new updater for a flow: whether its span is there or not, the updater is attached to it. *)
Lemma new_updater_attached (process agent : option Z) (en : ends) (c : Z) (dns : option (list Z)) (ix : Index) :
  v6_ok (e_local en) -> v6_ok (e_remote en) ->
  exists fu fl out, FlowUpdater_new true process agent (e_local en) (e_lport en) (e_remote en) (e_rport en) c dns ix =
    (fu, set_flows (<[ends_key en := fl]> (flows ix)) ix, out) /\
    fl_refs fl = S (refs ix (ends_key en)) /\ updater_at en fu /\
    flow_handle_ fu = Some (ends_key en) /\ side_ fu = side_of_updater fu /\ ignore_updates_ fu = false /\
    descriptions_of (ends_key en) out.
Proof.
  intros Hl Hr. unfold FlowUpdater_new. set (fu := mk_updater _ _ _ _ _ _ _ _ _ _ _ _ _).
  assert (Hat : updater_at en fu) by done. destruct (updater_at_key en fu Hat) as [Hk Hs].
  unfold create_flow. rewrite Hk, Hs, andb_false_r. cbv zeta. rewrite bool_decide_false by done. cbn [put_flow flow_handle_ fu].
  exists (with_flow fu (ends_key en) (ends_side en)), (joined ix fu (default Flow_new (flows ix !! ends_key en))).
  eexists. split; [reflexivity|]. split; [unfold refs; cbn; by destruct (flows ix !! ends_key en)|].
  split; [done|]. split; [done|]. split; [by rewrite <- Hs|]. split; [done|].
  unfold descriptions_of. rewrite !Forall_app. split; [|split; [by apply flow_messages_described|constructor]].
  case_bool_decide; [constructor|]. apply Forall_singleton. by left.
Qed.

Lemma lookup_joined (k : flow_key) (fl : Flow) (ix : Index) : flows (set_flows (<[k := fl]> (flows ix)) ix) !! k = Some fl.
Proof. cbn. apply lookup_insert_eq. Qed.

(** [get_flow] of a socket without an updater, or whose updater has this flow already. *)
Lemma get_flow_joins (v : AgentView) (en : ends) (s : SocketSpan) (ix : Index) :
  ends_ok en -> room v = true -> between (addr_map v) en s -> plain ix -> live ix ->
  (flow_updater_ s = None \/ exists fu, flow_updater_ s = Some fu /\ attached fu ix (ends_key en)) ->
  exists fu ix' out, get_flow v s ix = Ok (with_updater s (Some fu), ix', out) /\
    joined_flow (addr_map v) en (with_updater s (Some fu)) ix' /\ descriptions_of (ends_key en) out.
Proof.
  intros (Hl & Hr & Hloc & Hne) Hroom Hb Hp Hlive Hfu. destruct Hb as (E1 & E2 & E3 & E4).
  unfold get_flow, public_addr. rewrite E1, E3, Hloc, E2, E4, Hroom. cbn [rbind orb].
  rewrite bool_decide_false by done. cbn [andb].
  destruct (new_updater_attached (ss_process s) (agent_loc v) en (ss_is_connector_ s) (ss_remote_dns_ s) ix Hl Hr)
    as (fu & fl & out & -> & Hrefs & Hat & Hh & Hs & Hi & Hout).
  set (k := ends_key en) in *. set (ix1 := set_flows (<[k := fl]> (flows ix)) ix).
  assert (Hlive1 : live ix1) by (apply live_insert; [done|by rewrite Hrefs]).
  assert (Hat1 : forall fu' ix2, flows ix2 = flows ix1 \/ is_Some (flows ix2 !! k) ->
    flow_handle_ fu' = flow_handle_ fu -> updater_at en fu' -> side_ fu' = side_of_updater fu' -> ignore_updates_ fu' = false ->
    attached fu' ix2 k).
  { intros fu' ix2 Hf Hh' Hu Hs' Hi'. split; [congruence|apply (updater_at_key en fu' Hu)|done|done|].
    destruct Hf as [->|?]; [|done]. unfold ix1. rewrite lookup_joined. by eexists. }
  destruct Hfu as [Hnone|(this & Hthis & Ha)].
  - rewrite Hnone. cbn [assign_optional]. rewrite app_nil_r. exists fu, ix1, out. split; [done|]. split; [|done].
    split; [done| |done|done]. exists fu. split; [done|]. split; [done|]. apply Hat1; try done. by left.
  - rewrite Hthis. cbn [assign_optional]. unfold assign_updater. rewrite (at_handle _ _ _ Ha). cbn [put_flow].
    unfold ix1 at 1. rewrite lookup_joined, Hrefs.
    destruct (at_flow _ _ _ Ha) as [fl0 Hfl0]. unfold refs. rewrite Hfl0.
    destruct (fl_refs fl0) as [|n] eqn:En; [by destruct (Hlive k fl0 Hfl0)|].
    eexists _, _, (out ++ []). split; [reflexivity|]. rewrite app_nil_r. split; [|done].
    split; [done| |done|by apply live_insert]. eexists. split; [done|]. split; [done|].
    apply Hat1; try done. right. rewrite lookup_joined. by eexists.
Qed.

(** What a message measures, for a socket that has [n] new sockets to report; [None] is a
    message that is not about this. *)
Definition capped (bound x : Z) : Z := if bound <? x then 0 else x.
Definition measured (n : Z) (m : message) : option (Z -> event) :=
  match m with
  | socket_stats _ _ bytes delivered retrans srtt is_rx =>
    Some (fun side => TcpMsg side (u8 is_rx)
      (Tcp.mk_metrics 1 (capped (2 ^ 28) retrans) (capped (2 ^ 56) bytes) srtt (capped (2 ^ 28) delivered) 1 0 n 0))
  | syn_timeout _ _ => Some (fun side => TcpMsg side 0 (Tcp.mk_metrics 1 0 0 0 0 0 1 0 0))
  | tcp_reset _ _ is_rx => Some (fun side => TcpMsg side (u8 is_rx) (Tcp.mk_metrics 1 0 0 0 0 0 0 0 1))
  | http_response _ _ _ code latency cs => Some (fun side => HttpMsg side cs (http_stats code latency cs))
  | _ => None
  end.
(** The messages about TCP of a socket that stays where it is. *)
Definition tcp_message (m : message) : Prop :=
  match m with
  | socket_stats _ _ _ _ _ _ is_rx | tcp_reset _ _ is_rx => is_rx = 0 \/ is_rx = 1
  | http_response _ _ _ _ _ cs => cs = 0 \/ cs = 1
  | syn_timeout _ _ | new_sock_info _ _ _ | set_state_ipv4 _ _ _ _ _ _ _ => True
  | set_state_ipv6 _ dest src _ _ _ _ => bytes16_ok dest /\ bytes16_ok src
  | _ => False
  end.
Definition pending (n : Z) (m : message) : Z := match m with socket_stats _ _ _ _ _ _ _ => 0 | _ => n end.

(** A message of the socket: it stays joined, and what is sent to the flow is descriptions and
    what the message measures. *)
Definition joined_step (am : IPv6Address -> option IPv6Address) (en : ends) (n : Z) (m : message)
    (r : result (SocketSpan * Index * list to_matching)) : Prop :=
  exists s' ix' out, r = Ok (s', ix', out) /\ joined_flow am en s' ix' /\ new_sockets_ s' = pending n m /\
    for_flow (ends_key en) out /\ Forall event_ok (events_of (ends_key en) out) /\
    metrics_of (events_of (ends_key en) out) =
      match measured n m with Some e => [e (side_z (ends_side en))] | None => [] end.

Lemma updater_do_joined (am : IPv6Address -> option IPv6Address) (en : ends) (r : bool) (e : Z -> event) (s : SocketSpan) (ix : Index) :
  joined_flow am en s ix -> is_Some (event_side (e (side_z (ends_side en)))) -> event_ok (e (side_z (ends_side en))) ->
  exists fu u1 u2 out, flow_updater_ s = Some fu /\
    updater_do (updater_send r e) s ix = (with_updater s (Some (with_containers fu u1 u2)), ix, out) /\
    joined_flow am en (with_updater s (Some (with_containers fu u1 u2))) ix /\ for_flow (ends_key en) out /\
    Forall event_ok (events_of (ends_key en) out) /\ metrics_of (events_of (ends_key en) out) = [e (side_z (ends_side en))].
Proof.
  intros [Hb (fu & Hfu & Hat & Ha) Hp Hl] Hside Hok. unfold updater_do. rewrite Hfu.
  destruct (updater_send_attached r e fu ix (ends_key en) Hp Ha) as (u1 & u2 & out & -> & Hout).
  destruct (updater_at_key en fu Hat) as [_ ->]. eexists fu, u1, u2, _. split; [done|]. split; [reflexivity|]. split.
  - split; [done| |done|done]. exists (with_containers fu u1 u2). split; [done|]. split; [done|]. by destruct Ha.
  - split; [apply Forall_app; split; [by apply described_flow|by apply Forall_singleton]|]. destruct (described_events _ _ Hout) as [H1 H2]. unfold events_of in *. rewrite omap_app. cbn. rewrite decide_True by done.
    split; [apply Forall_app; split; [done|by constructor]|]. unfold metrics_of in *. rewrite filter_app, H1.
    cbn [app]. by rewrite filter_cons_True.
Qed.

Lemma u8_bit (x : Z) : x = 0 \/ x = 1 -> u8 x = x.
Proof. by intros [-> | ->]. Qed.

Lemma side_known (en : ends) : match u8_to_side (side_z (ends_side en)) with Ok s => Some s | _ => None end = Some (ends_side en).
Proof. by rewrite side_z_back. Qed.

Lemma socket_stats_joined (v : AgentView) (en : ends) t sk bytes delivered retrans srtt is_rx (s : SocketSpan) (ix : Index) :
  ends_ok en -> room v = true -> is_rx = 0 \/ is_rx = 1 -> joined_flow (addr_map v) en s ix ->
  joined_step (addr_map v) en (new_sockets_ s) (socket_stats t sk bytes delivered retrans srtt is_rx)
    (ss_socket_stats v bytes delivered retrans srtt is_rx s ix).
Proof.
  intros Hen Hroom Hrx Hj. unfold ss_socket_stats. rewrite (proj2 (Z.ltb_ge 1 is_rx)) by (destruct Hrx; lia). cbv zeta.
  set (s0 := with_new_sockets s 0).
  assert (Hfirst : exists s1 ix1 out1,
    match ss_remote_dns_ s0 with
    | Some _ => Ok (s0, ix, [])
    | None => match find_dns_for_ip v (original_remote_addr_ s0) with
              | Some dns => get_flow v (with_dns s0 (Some dns)) ix | None => Ok (s0, ix, []) end
    end = Ok (s1, ix1, out1) /\ joined_flow (addr_map v) en s1 ix1 /\ new_sockets_ s1 = 0 /\ descriptions_of (ends_key en) out1).
  { assert (Hj0 : joined_flow (addr_map v) en s0 ix) by (by destruct Hj).
    assert (Hsame : exists s1 ix1 out1, Ok (s0, ix, []) = Ok (s1, ix1, out1) /\ joined_flow (addr_map v) en s1 ix1 /\
      new_sockets_ s1 = 0 /\ descriptions_of (ends_key en) out1)
      by (exists s0, ix, []; split; [done|]; split; [exact Hj0|]; split; [done|constructor]).
    destruct (ss_remote_dns_ s0); [exact Hsame|]. destruct (find_dns_for_ip _ _) as [dns|]; [|exact Hsame].
    destruct Hj0 as [Hb (fu & Hfu & Hat & Ha) Hp Hl].
    destruct (get_flow_joins v en (with_dns s0 (Some dns)) ix Hen Hroom Hb Hp Hl) as (fu' & ix' & out & E & Hj' & Hout).
    - right. by exists fu.
    - eexists _, ix', out. split; [exact E|]. by split. }
  destruct Hfirst as (s1 & ix1 & out1 & -> & Hj1 & Hn1 & Hout1). cbn [rbind].
  unfold fu_tcp_update. set (e := fun side => TcpMsg side (u8 is_rx) (Tcp.mk_metrics _ _ _ _ _ _ _ _ _)).
  destruct (updater_do_joined (addr_map v) en (room v) e s1 ix1 Hj1) as (fu & u1 & u2 & out2 & _ & E & Hj2 & Hfl & Hok & Hm).
  { cbn. rewrite side_known. by eexists. } { apply side_z_ok. }
  rewrite E. eexists _, _, _. split; [reflexivity|]. split; [done|]. split; [done|].
  split; [apply Forall_app; split; [by apply described_flow|done]|]. destruct (described_events _ _ Hout1) as [H1 H2]. unfold events_of, metrics_of in *. rewrite omap_app, filter_app, H1, Hm.
  split; [by apply Forall_app|done].
Qed.

Lemma socket_handle_joined (v : AgentView) (en : ends) (m : message) (s : SocketSpan) (ix : Index) :
  ends_ok en -> room v = true -> tcp_message m -> joined_flow (addr_map v) en s ix ->
  joined_step (addr_map v) en (new_sockets_ s) m (socket_handle v m s ix).
Proof.
  intros Hen Hroom Hm Hj.
  assert (Hidle : forall s', between (addr_map v) en s' -> flow_updater_ s' = flow_updater_ s -> new_sockets_ s' = new_sockets_ s ->
    measured (new_sockets_ s) m = None -> pending (new_sockets_ s) m = new_sockets_ s ->
    joined_step (addr_map v) en (new_sockets_ s) m (Ok (s', ix, []))).
  { intros s' Hb Hfu Hn Hme Hpe. exists s', ix, []. rewrite Hme, Hpe. split; [done|]. split; [|split_and!; done || constructor].
    destruct Hj as [_ Hu Hp Hl]. split; [done|by rewrite Hfu|done|done]. }
  assert (Hvalid : updater_valid s = true).
  { destruct Hj as [_ (fu & Hfu & _ & Ha) _ _]. unfold updater_valid. rewrite Hfu, (at_handle _ _ _ Ha).
    apply bool_decide_eq_true. by eexists. }
  assert (Hset : forall a b lp rp c, set_state v a b lp rp c s ix = Ok (s, ix, [])) by (intros; unfold set_state; by rewrite Hvalid).
  assert (Hdo : forall e, measured (new_sockets_ s) m = Some e -> pending (new_sockets_ s) m = new_sockets_ s ->
    is_Some (event_side (e (side_z (ends_side en)))) -> event_ok (e (side_z (ends_side en))) ->
    joined_step (addr_map v) en (new_sockets_ s) m (Ok (updater_do (updater_send (room v) e) s ix))).
  { intros e Hme Hpe Hside Hok. destruct (updater_do_joined (addr_map v) en (room v) e s ix Hj Hside Hok)
      as (fu & u1 & u2 & out & Hfu & -> & Hj' & Hfl & Hok' & Hmt).
    eexists _, _, _. rewrite Hme, Hpe. by split_and!. }
  destruct m; cbn [socket_handle tcp_message] in *; try done.
  - apply Hidle; try done; unfold set_process; destruct (get_process v pid); try done; apply Hj.
  - unfold ss_set_state_ipv4. destruct (to_ipv6_from src) as (a & -> & _), (to_ipv6_from dest) as (b & -> & _). cbn [get rbind].
    rewrite Hset. apply Hidle; try done; apply Hj.
  - unfold ss_set_state_ipv6. rewrite Hset. apply Hidle; try done; apply Hj.
  - by apply socket_stats_joined.
  - apply Hdo; try done; [cbn; rewrite side_known; by eexists|apply side_z_ok].
  - apply Hdo; try done; [cbn; rewrite side_known; by eexists|apply side_z_ok].
  - apply Hdo; try done; [cbn; rewrite side_known; by eexists|apply side_z_ok].
Qed.

(** ** Histories of a socket *)

Fixpoint socket_run (ms : list (AgentView * message)) (s : SocketSpan) (ix : Index)
    : result (SocketSpan * Index * list to_matching) :=
  match ms with
  | [] => Ok (s, ix, [])
  | (v, m) :: ms =>
    let* (s, ix, out) := socket_handle v m s ix in
    let* (s, ix, rest) := socket_run ms s ix in
    Ok (s, ix, out ++ rest)
  end.

(** What a history measures. *)
Fixpoint measured_all (n : Z) (ms : list message) : list (Z -> event) :=
  match ms with
  | [] => []
  | m :: ms => match measured n m with Some e => [e] | None => [] end ++ measured_all (pending n m) ms
  end.

Definition on_network (am : IPv6Address -> option IPv6Address) (vm : AgentView * message) : Prop :=
  addr_map vm.1 = am /\ room vm.1 = true /\ tcp_message vm.2.

Lemma socket_run_joined (am : IPv6Address -> option IPv6Address) (en : ends) (ms : list (AgentView * message)) :
  ends_ok en -> Forall (on_network am) ms -> forall s ix, joined_flow am en s ix ->
  exists s' ix' out, socket_run ms s ix = Ok (s', ix', out) /\ for_flow (ends_key en) out /\ Forall event_ok (events_of (ends_key en) out) /\
    metrics_of (events_of (ends_key en) out) = (fun e => e (side_z (ends_side en))) <$> measured_all (new_sockets_ s) (snd <$> ms).
Proof.
  intros Hen Hms. induction Hms as [|[v m] ms (Ham & Hroom & Hm) _ IH]; intros s ix Hj; cbn [socket_run].
  { exists s, ix, []. split; [done|]. split; [constructor|done]. }
  cbn [fst snd] in *. subst am.
  destruct (socket_handle_joined v en m s ix Hen Hroom Hm Hj) as (s1 & ix1 & out1 & -> & Hj1 & Hn1 & Hf1 & Hok1 & Hm1). cbn [rbind].
  destruct (IH s1 ix1 Hj1) as (s2 & ix2 & out2 & -> & Hf2 & Hok2 & Hm2). cbn [rbind].
  exists s2, ix2, (out1 ++ out2). split; [done|]. split; [by apply Forall_app|]. unfold events_of, metrics_of in *. rewrite omap_app, filter_app.
  split; [by apply Forall_app|]. rewrite Hm1, Hm2, Hn1. cbn [fmap list_fmap snd measured_all]. rewrite fmap_app.
  by destruct (measured (new_sockets_ s) m).
Qed.

(** A new socket between two IPv4 addresses. *)
Definition ipv6_of (x : Z) : IPv6Address := default IPv6Address_zero (to_ipv6 (v4_from x)).
Definition ends_of (am : IPv6Address -> option IPv6Address) (src sport dest dport : Z) : ends :=
  mk_ends (default (ipv6_of src) (am (ipv6_of src))) sport (default (ipv6_of dest) (am (ipv6_of dest))) dport.
Definition connection (src sport dest dport t sk tx_rx : Z) : message := set_state_ipv4 t dest src dport sport sk tx_rx.
Definition initial (v : AgentView) : Z := if is_socket_steady_state v then 1 else 0.

Lemma connect_joined (v : AgentView) (src sport dest dport t sk tx_rx : Z) (ix : Index) :
  let en := ends_of (addr_map v) src sport dest dport in
  ends_ok en -> room v = true -> plain ix -> live ix ->
  exists s ix' out, socket_handle v (connection src sport dest dport t sk tx_rx) SocketSpan_new ix = Ok (s, ix', out) /\
    joined_flow (addr_map v) en s ix' /\ new_sockets_ s = initial v /\ descriptions_of (ends_key en) out.
Proof.
  intros en Hen Hroom Hp Hl. cbn [socket_handle connection]. unfold ss_set_state_ipv4.
  assert (Hv6 : forall x, get (to_ipv6 (v4_from x)) = Ok (ipv6_of x)).
  { intros x. unfold ipv6_of. by destruct (to_ipv6_from x) as (a & -> & _). }
  rewrite !Hv6. cbn [rbind]. unfold set_state. cbn [updater_valid SocketSpan_new flow_updater_ ss_remote_dns_ new_sockets_ ss_process].
  set (s := mk_socket_span _ _ _ _ _ _ _ _ _ _).
  destruct (get_flow_joins v en s ix Hen Hroom) as (fu & ix' & out & E & Hj & Hout); [done|done|done|by left|].
  eexists _, ix', out. split; [exact E|]. split; [done|]. split; [|done]. unfold initial. done.
Qed.

Lemma connected_run (am : IPv6Address -> option IPv6Address) (v : AgentView) (src sport dest dport t sk tx_rx : Z)
    (ms : list (AgentView * message)) (ix : Index) :
  let en := ends_of am src sport dest dport in
  ends_ok en -> addr_map v = am -> room v = true -> plain ix -> live ix -> Forall (on_network am) ms ->
  exists s ix' out, socket_run ((v, connection src sport dest dport t sk tx_rx) :: ms) SocketSpan_new ix = Ok (s, ix', out) /\
    for_flow (ends_key en) out /\ Forall event_ok (events_of (ends_key en) out) /\
    metrics_of (events_of (ends_key en) out) = (fun e => e (side_z (ends_side en))) <$> measured_all (initial v) (snd <$> ms).
Proof.
  intros en Hen <- Hroom Hp Hl Hms. subst en. cbn [socket_run].
  destruct (connect_joined v src sport dest dport t sk tx_rx ix Hen Hroom Hp Hl) as (s1 & ix1 & out1 & -> & Hj & Hn & Hout).
  cbn [rbind]. destruct (socket_run_joined _ _ ms Hen Hms s1 ix1 Hj) as (s2 & ix2 & out2 & -> & Hf & Hok & Hm). cbn [rbind].
  exists s2, ix2, (out1 ++ out2). split; [done|]. split; [apply Forall_app; split; [by apply described_flow|done]|]. destruct (described_events _ _ Hout) as [H1 H2].
  unfold events_of, metrics_of in *. rewrite omap_app, filter_app, H1, Hm, Hn.
  split; [by apply Forall_app|done].
Qed.

(** ** Both ends *)

Definition reversed_ends (en : ends) : ends := mk_ends (e_remote en) (e_rport en) (e_local en) (e_lport en).

Lemma v6_as_int_inj (a b : IPv6Address) : v6_ok a -> v6_ok b -> v6_as_int a = v6_as_int b -> a = b.
Proof.
  intros Ha Hb E. unfold v6_as_int in E. destruct (v6_write_ok a Ha) as [La Ba], (v6_write_ok b Hb) as [Lb Bb].
  unfold v6_write_to in *.
  assert (Er : reverse (bytes16 (hextets_ a)) = reverse (bytes16 (hextets_ b))).
  { rewrite <- (le_encode_decode (reverse (bytes16 (hextets_ a)))) by (by apply Forall_reverse).
    rewrite <- (le_encode_decode (reverse (bytes16 (hextets_ b)))) by (by apply Forall_reverse).
    by rewrite !length_reverse, La, Lb, E. }
  apply (inj reverse) in Er. destruct a as [xs], b as [ys]. cbn [hextets_] in *. f_equal.
  rewrite <- (words_bytes xs), <- (words_bytes ys) by (apply Ha || apply Hb). by rewrite Er.
Qed.

(** The two ends describe the same flow, from opposite sides: what one sends and what the other
    receives have the same direction. *)
Lemma ends_agree (en : ends) :
  v6_ok (e_local en) -> v6_ok (e_remote en) -> e_local en <> e_remote en ->
  ends_key (reversed_ends en) = ends_key en /\ ends_side (reversed_ends en) = other_side (ends_side en) /\
  direction_of (ends_side (reversed_ends en)) 1 = direction_of (ends_side en) 0 /\
  direction_of (ends_side (reversed_ends en)) 0 = direction_of (ends_side en) 1.
Proof.
  intros Hl Hr Hne. assert (Hint : v6_as_int (e_local en) <> v6_as_int (e_remote en)) by (intros E; by apply v6_as_int_inj in E).
  assert (Ho : ends_ordered (reversed_ends en) = negb (ends_ordered en)).
  { unfold ends_ordered, reversed_ends. cbn [e_local e_remote e_lport e_rport].
    rewrite (proj2 (Z.eqb_neq _ _) Hint), (proj2 (Z.eqb_neq (v6_as_int (e_remote en)) _)) by congruence. cbn [andb].
    rewrite !orb_false_r. lia. }
  unfold ends_key, ends_side. rewrite Ho. by destruct (ends_ordered en).
Qed.

(** The metrics of the messages of a side, and nothing of descriptions. *)
Lemma tcp_from_metrics who rx d (es : list event) : tcp_from who rx d es = tcp_from who rx d (metrics_of es).
Proof.
  induction es as [|e es IH]; [done|]. unfold metrics_of in *. rewrite filter_cons. case_decide as He.
  - cbn. destruct e; try done. destruct (selected _ _ _ _ _); [by f_equal|done].
  - rewrite <- IH. destruct e; try done. cbn in *. unfold selected. destruct (u8_to_side side); try done. by destruct He.
Qed.

Lemma http_from_metrics who rx d (es : list event) : http_from who rx d es = http_from who rx d (metrics_of es).
Proof.
  induction es as [|e es IH]; [done|]. unfold metrics_of in *. rewrite filter_cons. case_decide as He.
  - cbn. destruct e; try done. destruct (selected _ _ _ _ _); [by f_equal|done].
  - rewrite <- IH. destruct e; try done. cbn in *. unfold selected. destruct (u8_to_side side); try done. by destruct He.
Qed.

(** All messages of one side. *)
Definition of_side (side : FlowSide) (es : list event) : Prop := Forall (fun e => event_side e = Some side) es.

Lemma from_one_side (who : FlowSide -> bool) (side : FlowSide) (d : UpdateDirection) (es : list event) :
  of_side side es ->
  tcp_from who any d es = (if who side then tcp_from any any d es else []) /\
  http_from who any d es = (if who side then http_from any any d es else []).
Proof.
  induction 1 as [|e es He _ [IH1 IH2]]; [by destruct (who side)|].
  assert (Hsel : forall z, match u8_to_side z with Ok s => Some s | _ => None end = Some side ->
    forall x, selected who any d z x = who side && selected any any d z x).
  { intros z Hz x. unfold selected. destruct (u8_to_side z); try done. injection Hz as ->. by destruct (who side). }
  split; destruct e; cbn in *; try done; rewrite (Hsel _ He); rewrite ?IH1, ?IH2; by destruct (who side), (selected any any d _ _).
Qed.

Lemma measured_of_side (side : FlowSide) (n : Z) (ms : list message) :
  of_side side ((fun e => e (side_z side)) <$> measured_all n ms).
Proof.
  revert n. induction ms as [|m ms IH]; intros n; cbn [measured_all]; [constructor|]. rewrite fmap_app.
  apply Forall_app. split; [|apply IH]. destruct m; try constructor; try constructor; cbn; by rewrite side_z_back.
Qed.

Lemma total_permutation {A} (get : A -> Z) (l k : list A) : l ≡ₚ k -> total get l = total get k.
Proof. induction 1; cbn; unfold total in *; cbn; lia. Qed.

(** What an agent measures of its end. *)
Definition sent (en : ends) (v : AgentView) (ms : list (AgentView * message)) : list event :=
  (fun e => e (side_z (ends_side en))) <$> measured_all (initial v) (snd <$> ms).

(** The totals of the updates in a direction are those of these measurements. *)
Definition counted_as (out : list action) (es : list event) (d : UpdateDirection) : Prop :=
  Forall (fun get => total get (tcp_to d out) = total get (tcp_from any any d es)) tcp_counters /\
  Forall (fun get => total get (http_to d out) = total get (http_from any any d es)) http_counters.

Lemma no_metrics (es : list event) : head (omap event_side es) = None -> metrics_of es = [].
Proof.
  induction es as [|e es IH]; [done|]. unfold metrics_of in *. rewrite filter_cons. intros H. cbn in H.
  destruct (event_side e) eqn:He; [done|]. rewrite decide_False by (by intros [? ?]). by apply IH.
Qed.

(** The side that counts is one of the two, unless there are no metrics. *)
Lemma winner_cases (s : FlowSide) (es ex ey : list event) :
  es ≡ₚ ex ++ ey -> head (omap event_side es) <> Some (other_side s) ->
  head (omap event_side es) = Some s \/ metrics_of ex = [].
Proof.
  intros Hp Hw. destruct (head (omap event_side es)) as [s'|] eqn:E; [left; by destruct s, s'|right].
  apply no_metrics in E. assert (H : metrics_of (ex ++ ey) = []).
  { apply Permutation_nil. rewrite <- E. unfold metrics_of. by rewrite Hp. }
  unfold metrics_of in *. rewrite filter_app in H. by apply app_nil in H as [? _].
Qed.

(** The messages that are counted, of one from each side. *)
Lemma merged_totals (w : option FlowSide) (s : FlowSide) (es ex ey : list event) (d : UpdateDirection) :
  es ≡ₚ ex ++ ey -> of_side s (metrics_of ex) -> of_side (other_side s) (metrics_of ey) ->
  (forall get, total get (tcp_from (counts w) any d es) =
    total get (if counts w s then tcp_from any any d (metrics_of ex) else []) +
    total get (if counts w (other_side s) then tcp_from any any d (metrics_of ey) else [])) /\
  (forall get, total get (http_from (counts w) any d es) =
    total get (if counts w s then http_from any any d (metrics_of ex) else []) +
    total get (if counts w (other_side s) then http_from any any d (metrics_of ey) else [])).
Proof.
  intros Hp Hx Hy. destruct (from_one_side (counts w) s d _ Hx) as [<- <-], (from_one_side (counts w) _ d _ Hy) as [<- <-].
  rewrite <- !tcp_from_metrics, <- !http_from_metrics. split; intros get; rewrite <- metrics_total_app; apply total_permutation.
  - unfold tcp_from. by rewrite Hp, omap_app.
  - unfold http_from. by rewrite Hp, omap_app.
Qed.

(** Of two sets of messages, one from each side, one is counted. *)
Lemma one_side_counted (s : FlowSide) (es ex ey : list event) (out : list action) :
  es ≡ₚ ex ++ ey -> of_side s (metrics_of ex) -> of_side (other_side s) (metrics_of ey) ->
  (forall d, d <> DIR_NONE -> balanced (counts (head (omap event_side es))) es out d) ->
  (forall d, d <> DIR_NONE -> counted_as out (metrics_of ex) d) \/ (forall d, d <> DIR_NONE -> counted_as out (metrics_of ey) d).
Proof.
  intros Hp Hx Hy Hb. pose proof (winner_cases s es ex ey Hp) as Hcases.
  pose proof (fun d => merged_totals (head (omap event_side es)) s es ex ey d Hp Hx Hy) as Hm.
  revert Hb Hcases Hm. generalize (head (omap event_side es)) as w. intros w Hb Hcases Hm.
  destruct (decide (w = Some (other_side s))) as [->|Hw]; [right|left]; intros d Hd;
    destruct (Hb d Hd) as [H1 _ _ H4 _ _ _ _ _], (Hm d) as [Htcp Hhttp]; unfold counts in Htcp, Hhttp.
  - rewrite bool_decide_false in Htcp, Hhttp by (by destruct s). rewrite bool_decide_true in Htcp, Hhttp by done.
    split; eapply Forall_impl; [exact H1|intros get ->; apply Htcp|exact H4|intros get ->; apply Hhttp].
  - rewrite (bool_decide_false (w = Some (other_side s))) in Htcp, Hhttp by done.
    assert (E : forall {B} (l : list B), (metrics_of ex = [] -> l = []) -> (if bool_decide (w = Some s) then l else []) = l).
    { intros B l Hl. case_bool_decide; [done|]. destruct (Hcases Hw) as [?|Hnil]; [done|]. by rewrite (Hl Hnil). }
    split; eapply Forall_impl; [exact H1|intros get ->; rewrite Htcp|exact H4|intros get ->; rewrite Hhttp];
      rewrite E by (by intros ->); apply Z.add_0_r.
Qed.

(** C5: a connection between two hosts with an agent each is counted once.  Each agent reports its
    end as a socket, with statistics, resets, timeouts and HTTP responses; whatever the cores know about
    processes and names, as long as there is room for the flow and no process stands in for another,
    every message that either socket causes is for one and the same flow, which gets from each agent, as
    from opposite sides, exactly the metrics that agent has measured.  In whatever order these
    messages arrive, the counters of the flow are in each direction those that one of the
    two agents has measured. *)
Theorem connection_counted_once (env : Surroundings) (Henv : surroundings_ok env)
    (am : IPv6Address -> option IPv6Address) (a p b q : Z) (vx vy : AgentView) (tx ty skx sky cx cy : Z)
    (msx msy : list (AgentView * message)) (ixx ixy : Index) :
  let en := ends_of am a p b q in
  ends_ok en -> ends_ok (reversed_ends en) ->
  addr_map vx = am -> room vx = true -> plain ixx -> live ixx -> Forall (on_network am) msx ->
  addr_map vy = am -> room vy = true -> plain ixy -> live ixy -> Forall (on_network am) msy ->
  exists sx ix1 outx sy ix2 outy,
    socket_run ((vx, connection a p b q tx skx cx) :: msx) SocketSpan_new ixx = Ok (sx, ix1, outx) /\
    socket_run ((vy, connection b q a p ty sky cy) :: msy) SocketSpan_new ixy = Ok (sy, ix2, outy) /\
    for_flow (ends_key en) (outx ++ outy) /\ ends_side (reversed_ends en) = other_side (ends_side en) /\
    metrics_of (events_of (ends_key en) outx) = sent en vx msx /\
    metrics_of (events_of (ends_key en) outy) = sent (reversed_ends en) vy msy /\
    direction_of (ends_side (reversed_ends en)) 1 = direction_of (ends_side en) 0 /\
    forall es, es ≡ₚ events_of (ends_key en) outx ++ events_of (ends_key en) outy ->
      exists f out, run env es FlowSpan_new = Ok (f, out) /\
        ((forall d, d <> DIR_NONE -> counted_as out (sent en vx msx) d) \/
         (forall d, d <> DIR_NONE -> counted_as out (sent (reversed_ends en) vy msy) d)).
Proof.
  intros en Hen Hen' Hax Hrx Hpx Hlx Hmx Hay Hry Hpy Hly Hmy.
  destruct (connected_run am vx a p b q tx skx cx msx ixx Hen Hax Hrx Hpx Hlx Hmx) as (sx & ix1 & outx & Ex & Hfx & Hokx & Hmtx).
  destruct (connected_run am vy b q a p ty sky cy msy ixy Hen' Hay Hry Hpy Hly Hmy) as (sy & ix2 & outy & Ey & Hfy & Hoky & Hmty).
  fold en in Ex, Hfx, Hokx, Hmtx. change (ends_of am b q a p) with (reversed_ends en) in *.
  destruct Hen as (Hl & Hr & _ & Hne). destruct (ends_agree en Hl Hr Hne) as (Hkey & Hside & Hdir & _).
  rewrite Hkey in *. exists sx, ix1, outx, sy, ix2, outy. do 2 (split; [done|]). split; [by apply Forall_app|].
  do 4 (split; [done|]). intros es Hes.
  destruct (run_balanced env Henv es FlowSpan_new) as (f & out & E & _ & Hb).
  { rewrite Hes. by apply Forall_app. } { by intros [] s. }
  exists f, out. split; [done|]. unfold sent. rewrite <- Hmtx, <- Hmty.
  apply (one_side_counted (ends_side en) es _ _ out Hes); [rewrite Hmtx|rewrite Hmty, Hside|exact Hb]; apply measured_of_side.
Qed.

(** ** Containers of UDP sockets *)

(** The flows that are told about a container, and those that are told about packets. *)
Definition told_container : list to_matching -> list flow_key :=
  omap (fun x => match x with Message k (ContainerMsg _ _ _ _ _ _ _) => Some k | _ => None end).
Definition told_packets : list to_matching -> list flow_key :=
  omap (fun x => match x with Message k (UdpMsg _ _ _) => Some k | _ => None end).
Definition told_nothing (out : list to_matching) : Prop := told_container out = [] /\ told_packets out = [].

Lemma told_nothing_app (l k : list to_matching) : told_nothing l -> told_nothing k -> told_nothing (l ++ k).
Proof. intros [H1 H2] [H3 H4]. unfold told_nothing, told_container, told_packets in *. rewrite !omap_app, H1, H2, H3, H4. done. Qed.

Lemma flow_messages_told (ix : Index) (fu : FlowUpdater) (k : flow_key) (side : FlowSide) : told_nothing (flow_messages ix fu k side).
Proof.
  unfold flow_messages. repeat apply told_nothing_app; [|done|by destruct (agent_handle_ fu ≫= _)].
  destruct (process_handle_ fu ≫= _) as [p|]; [|done]. unfold process_messages. cbv zeta.
  repeat apply told_nothing_app; [|done|by destruct (negb _)]. destruct (p_cgroup p ≫= _) as [cg|]; [|done].
  unfold k8s_messages. cbv zeta. repeat case_match; done.
Qed.

(** The tables other than that of the flows, and the flows there are not. *)
Definition same_world (ix ix' : Index) : Prop :=
  agents ix' = agents ix /\ processes ix' = processes ix /\ cgroups ix' = cgroups ix /\ containers ix' = containers ix.

Lemma put_flow_others (handle : option flow_key) (ix : Index) (k : flow_key) :
  handle <> Some k ->
  same_world ix (put_flow handle ix).1 /\ flows (put_flow handle ix).1 !! k = flows ix !! k /\
  (forall k', flows ix !! k' = None -> flows (put_flow handle ix).1 !! k' = None) /\ told_nothing (put_flow handle ix).2.
Proof.
  intros Hk. unfold put_flow. destruct handle as [k0|]; [|done]. destruct (flows ix !! k0) as [fl|] eqn:E; [|done].
  assert (k0 <> k) by congruence.
  destruct (fl_refs fl) as [|[|n]]; (split; [done|]); cbn [fst snd flows set_flows];
    (split; [by first [rewrite lookup_delete_ne|rewrite lookup_insert_ne]|]); (split; [|done]); intros k' Hk';
    [apply lookup_delete_None; by right|apply lookup_delete_None; by right|]; rewrite lookup_insert_ne; congruence.
Qed.

#[export] Instance ContainerUpdater_eq_dec : EqDecision ContainerUpdater.
Proof. solve_decision. Defined.

(** Where a socket sends to, and what an updater remembers of the container of a side. *)
Definition ends_to (v : AgentView) (s : UdpSocketSpan) (d : IPv6Address * Z) : ends :=
  mk_ends (public_addr v (us_local_addr_ s)) (us_local_port_ s) (public_addr v d.1) d.2.
Definition container_updater (side : FlowSide) (fu : FlowUpdater) : ContainerUpdater :=
  match side with SIDE_A => container1_updater_ fu | SIDE_B => container2_updater_ fu end.

(** The process of the socket is in the container [c], and the container is known. *)
Record contained (ix : Index) (loc c : Z) (ct : Container) : Prop := {
  cd_plain : plain ix;
  cd_process : container_at ix (Some loc) = Some c;
  cd_container : containers ix !! c = Some ct;
  cd_told : ct_update_count ct <> 0;
}.

Lemma contained_same (ix ix' : Index) (loc c : Z) (ct : Container) : same_world ix ix' -> contained ix loc c ct -> contained ix' loc c ct.
Proof.
  intros (Ea & Ep & Ec & Et) [H1 H2 H3 H4]. split; [unfold plain; by rewrite Ep| |by rewrite Et|done].
  unfold container_at, process_at, container_of in *. by rewrite Ep, Ec, Et.
Qed.

(** The update of an updater that has just been attached to a new flow: the container is
    told unless the updater remembers it. *)
Lemma update_contained (e : Z -> event) (fu : FlowUpdater) (ix : Index) (en : ends) (loc c : Z) (ct : Container) :
  contained ix loc c ct -> updater_at en fu -> attached fu ix (ends_key en) ->
  flows ix !! ends_key en = Some (mk_ingest_flow 0 (if ends_ordered en then Some loc else None)
    (if ends_ordered en then None else Some loc) 1) ->
  exists fu' out, updater_send true e fu ix = (fu', ix, out ++ [Message (ends_key en) (e (side_z (ends_side en)))]) /\
    told_packets out = [] /\ flow_handle_ fu' = Some (ends_key en) /\
    container_updater (ends_side en) fu' = mk_container_updater (Some c) (ct_update_count ct) /\
    told_container out =
      if decide (container_updater (ends_side en) fu = mk_container_updater (Some c) (ct_update_count ct)) then [] else [ends_key en].
Proof.
  intros [Hp Hc Hct Hn] Hat Ha Hfl. destruct (updater_at_key en fu Hat) as [_ Hside].
  unfold updater_send, get_flow_for_update. rewrite (at_ignore _ _ _ Ha), (create_flow_attached true fu ix _ Ha). cbv zeta.
  rewrite Hfl. cbn [from_option Datatypes.id fl_process1 fl_process2]. rewrite !plain_proxy by done. cbn [Z.eqb negb andb].
  destruct (plain_override ix (if ends_ordered en then Some loc else None) Hp) as [-> E1],
    (plain_override ix (if ends_ordered en then None else Some loc) Hp) as [-> E2].
  rewrite !(bool_decide_false (is_Some None)) by (by intros [? ?]). cbn [andb orb]. rewrite E1, E2.
  rewrite (at_updater_side _ _ _ Ha), Hside.
  assert (Hsend : forall side u, exists out, send_container_info ix (ends_key en) c side u =
      (mk_container_updater (Some c) (ct_update_count ct), out) /\ told_packets out = [] /\
      told_container out = if decide (u = mk_container_updater (Some c) (ct_update_count ct)) then [] else [ends_key en]).
  { intros side [l n]. unfold send_container_info. rewrite Hct. cbn [last_container_loc_ last_update_count_].
    destruct (bool_decide_reflect (l = Some c)) as [->|Hl], (Z.eqb_spec n (ct_update_count ct)) as [->|Hl2]; cbn [andb];
      [eexists; rewrite decide_True by done; done|rewrite (proj2 (Z.eqb_neq _ _) Hn), decide_False by congruence; by eexists..]. }
  unfold ends_side. destruct (ends_ordered en) eqn:Ho; rewrite Hc; cbn [container_at process_at mbind option_bind].
  - destruct (Hsend SIDE_A (container1_updater_ fu)) as (out & -> & H1 & H2). eexists _, out. rewrite !app_nil_r.
    cbn [app side_ with_containers]. rewrite (at_updater_side _ _ _ Ha), Hside. unfold ends_side. rewrite Ho.
    split; [reflexivity|]. split; [done|]. split; [apply (at_handle _ _ _ Ha)|]. by split.
  - destruct (Hsend SIDE_B (container2_updater_ fu)) as (out & -> & H1 & H2). eexists _, out.
    cbn [app side_ with_containers]. rewrite (at_updater_side _ _ _ Ha), Hside. unfold ends_side. rewrite Ho.
    split; [reflexivity|]. split; [done|]. split; [apply (at_handle _ _ _ Ha)|]. by split.
Qed.

(** An updater that starts the span of its flow. *)
Lemma new_updater_fresh (loc c : Z) (ct : Container) (agent : option Z) (en : ends) (dns : option (list Z)) (ix : Index) :
  contained ix loc c ct -> flows ix !! ends_key en = None ->
  let fl := mk_ingest_flow 0 (if ends_ordered en then Some loc else None) (if ends_ordered en then None else Some loc) 1 in
  exists fu out, FlowUpdater_new true (Some loc) agent (e_local en) (e_lport en) (e_remote en) (e_rport en) 0 dns ix =
    (fu, set_flows (<[ends_key en := fl]> (flows ix)) ix, out) /\
    updater_at en fu /\ flow_handle_ fu = Some (ends_key en) /\ side_ fu = side_of_updater fu /\ ignore_updates_ fu = false /\
    (forall side, container_updater side fu = ContainerUpdater_new) /\ told_nothing out.
Proof.
  intros Hc Hnone fl. assert (exists p, processes ix !! loc = Some p) as [p Hloc].
  { pose proof (cd_process _ _ _ _ Hc) as E. unfold container_at, process_at in E. cbn in E.
    destruct (processes ix !! loc); [by eexists|done]. }
  unfold FlowUpdater_new. set (fu := mk_updater _ _ _ _ _ _ _ _ _ _ _ _ _).
  assert (Hat : updater_at en fu) by done. destruct (updater_at_key en fu Hat) as [Hk Hs].
  unfold create_flow. rewrite Hk, Hs, Hnone. rewrite bool_decide_false by (by intros [? ?]). cbn [negb andb]. cbv zeta.
  rewrite bool_decide_false by done. cbn [put_flow flow_handle_ fu].
  assert (Hj : joined ix fu Flow_new = fl).
  { unfold joined. cbn [process_handle_ fu mbind option_bind]. rewrite Hloc, Hs. unfold ends_side, fl. cbn. by destruct (ends_ordered en). }
  cbn [from_option]. rewrite Hj. exists (with_flow fu (ends_key en) (ends_side en)). eexists. split; [reflexivity|].
  split; [done|]. split; [done|]. split; [by rewrite <- Hs|]. split; [done|]. split; [by intros []|].
  apply told_nothing_app; [done|]. apply told_nothing_app; [apply flow_messages_told|done].
Qed.

Lemma at_set_rx {A} (is_rx : Z) (x : A) (p : A * A) : at_rx is_rx (set_rx is_rx x p) = x.
Proof. unfold at_rx, set_rx. by destruct (is_rx =? 0). Qed.

(** The assignment of the updater of a flow that was started with the span [fl]: it is
    attached to the flow, and remembers what the one before it has told its own flow. *)
Lemma assign_fresh (en : ends) (this : option FlowUpdater) (fu : FlowUpdater) (fl : Flow) (ix : Index) :
  let k := ends_key en in
  let ix1 := set_flows (<[k := fl]> (flows ix)) ix in
  updater_at en fu -> flow_handle_ fu = Some k -> side_ fu = side_of_updater fu -> ignore_updates_ fu = false ->
  container_updater (ends_side en) fu = ContainerUpdater_new ->
  (forall fu, this = Some fu -> flow_handle_ fu <> Some k) ->
  exists fu1 ix2 out1, assign_optional this fu ix1 = (fu1, ix2, out1) /\
    updater_at en fu1 /\ attached fu1 ix2 k /\ same_world ix ix2 /\ flows ix2 !! k = Some fl /\
    (forall k', k' <> k -> flows ix !! k' = None -> flows ix2 !! k' = None) /\ told_nothing out1 /\
    container_updater (ends_side en) fu1 = from_option (container_updater (ends_side en)) ContainerUpdater_new this.
Proof.
  intros k ix1 Hat Hfh Hsd Hign Hnew Hh.
  assert (Hix1 : forall k', k' <> k -> flows ix !! k' = None -> flows ix1 !! k' = None)
    by (intros k' Hk' E; cbn; by rewrite lookup_insert_ne).
  destruct this as [this|]; cbn [assign_optional].
  - unfold assign_updater. destruct (put_flow_others (flow_handle_ this) ix1 k) as (Hw & Hk & Hothers & Ht1); [by apply Hh|].
    destruct (put_flow (flow_handle_ this) ix1) as [ix2 out1]. cbn [fst snd] in *. unfold ix1 in Hk. rewrite lookup_joined in Hk.
    eexists _, ix2, out1. split; [reflexivity|]. split; [done|]. split; [|split; [done|split; [done|]]].
    + split; [done|apply (updater_at_key en); done|done|done|by rewrite Hk].
    + split; [auto|]. split; [done|]. by destruct (ends_side en).
  - exists fu, ix1, []. split; [done|]. split; [done|]. split; [|split; [done|split; [apply lookup_joined|]]].
    + split; [done|by apply (updater_at_key en)|done|done|]. unfold ix1. by rewrite lookup_joined.
    + split; [done|]. split; [done|]. exact Hnew.
Qed.

(** One message about packets to another address. *)
Lemma move_contained (v : AgentView) (is_rx packets bytes : Z) (d : IPv6Address * Z) (s : UdpSocketSpan) (ix : Index)
    (loc c : Z) (ct : Container) :
  let en := ends_to v s d in
  let told := mk_container_updater (Some c) (ct_update_count ct) in
  room v = true -> is_rx = 0 \/ is_rx = 1 -> ignore_udp_ s = false -> us_process s = Some loc -> contained ix loc c ct -> ends_ok en ->
  flows ix !! ends_key en = None ->
  (forall fu, at_rx is_rx (us_flow_updater_ s) = Some fu -> flow_handle_ fu <> Some (ends_key en)) ->
  exists s' ix' out fu', us_stats_addr_changed v is_rx packets bytes (Ok d.1) d.2 s ix = Ok (s', ix', out) /\
    us_local_addr_ s' = us_local_addr_ s /\ us_local_port_ s' = us_local_port_ s /\ ignore_udp_ s' = false /\ us_process s' = Some loc /\
    at_rx is_rx (us_flow_updater_ s') = Some fu' /\ flow_handle_ fu' = Some (ends_key en) /\
    container_updater (ends_side en) fu' = told /\ same_world ix ix' /\
    (forall k, k <> ends_key en -> flows ix !! k = None -> flows ix' !! k = None) /\ told_packets out = [ends_key en] /\
    told_container out =
      match at_rx is_rx (us_flow_updater_ s) with
      | Some fu => if decide (container_updater (ends_side en) fu = told) then [] else [ends_key en]
      | None => [ends_key en]
      end.
Proof.
  intros en told Hroom Hrx Hig Hpr Hc Hen Hnone Hh. unfold us_stats_addr_changed.
  rewrite (proj2 (Z.ltb_ge 1 is_rx)) by (destruct Hrx; lia). cbn [rbind ignore_udp_]. rewrite Hig. cbn [negb orb].
  unfold update_handle. cbn [remote_ip_ us_local_addr_ us_local_port_ us_process us_flow_updater_]. rewrite at_set_rx.
  destruct Hen as (Hl & Hr & Hloc & Hne). cbn [e_local e_remote en ends_to] in Hloc, Hne. rewrite Hloc. cbn [rbind orb].
  rewrite bool_decide_false by done. cbn [andb]. rewrite Hroom, Hpr.
  destruct (new_updater_fresh loc c ct (agent_loc v) en (Some (default [] (find_dns_for_ip v d.1))) ix Hc Hnone)
    as (fu & out0 & E0 & Hat & Hfh & Hsd & Hign & Hnew & Ht0). cbn [e_local e_lport e_remote e_rport en ends_to] in E0. rewrite E0.
  fold en. set (fl := mk_ingest_flow _ _ _ _) in *.
  destruct (assign_fresh en (at_rx is_rx (us_flow_updater_ s)) fu fl ix Hat Hfh Hsd Hign (Hnew _) Hh) as (fu1 & ix2 & out1 & -> & Hat1 & Ha1 & Hw1 & Hk1 & Hoth1 & Ht1 & Hcu). cbn [rbind us_with_updater ignore_udp_ negb].
  unfold update_udp_stats, us_updater_do, us_with_updater. cbn [us_flow_updater_]. rewrite at_set_rx, Hroom.
  destruct (update_contained (fun side => UdpMsg side (u8 is_rx) (Udp.mk_metrics 1 1 packets bytes 0)) fu1 ix2 en loc c ct
    (contained_same _ _ _ _ _ Hw1 Hc) Hat1 Ha1 Hk1) as (fu2 & out2 & E2 & Hp2 & Hh2 & Hc2 & Ht2).
  unfold fu_udp_update. rewrite E2.
  eexists _, ix2, _, fu2. split; [reflexivity|]. cbn [us_with_updater us_local_addr_ us_local_port_ ignore_udp_ us_process us_flow_updater_].
  do 4 (split; [done|]). split; [apply at_set_rx|]. do 2 (split; [done|]). split; [done|]. split; [done|].
  destruct (told_nothing_app _ _ Ht0 Ht1) as [H1 H2]. unfold told_packets, told_container in *. rewrite !omap_app.
  rewrite !omap_app in H1, H2. rewrite H1, H2, Hp2, Ht2, Hcu. cbn [app omap list_omap]. split; [done|]. rewrite app_nil_r.
  destruct (at_rx is_rx (us_flow_updater_ s)); [done|]. by rewrite decide_False.
Qed.

(** The packets of a direction of a socket, to one address after the other. *)
Fixpoint us_sends (v : AgentView) (is_rx : Z) (ds : list (IPv6Address * Z * (Z * Z))) (s : UdpSocketSpan) (ix : Index)
    : result (UdpSocketSpan * Index * list to_matching) :=
  match ds with
  | [] => Ok (s, ix, [])
  | (d, (packets, bytes)) :: ds =>
    let* (s, ix, out) := us_stats_addr_changed v is_rx packets bytes (Ok d.1) d.2 s ix in
    let* (s, ix, rest) := us_sends v is_rx ds s ix in
    Ok (s, ix, out ++ rest)
  end.

(** Addresses on the same side of the key of their flow, which is not there yet. *)
Definition fresh_to (v : AgentView) (s : UdpSocketSpan) (ix : Index) (side : FlowSide) (d : IPv6Address * Z) : Prop :=
  ends_ok (ends_to v s d) /\ ends_side (ends_to v s d) = side /\ flows ix !! ends_key (ends_to v s d) = None.

Lemma sends_contained (v : AgentView) (is_rx : Z) (loc c : Z) (ct : Container) (side : FlowSide) (ds : list (IPv6Address * Z * (Z * Z))) :
  room v = true -> is_rx = 0 \/ is_rx = 1 -> forall s ix, ignore_udp_ s = false -> us_process s = Some loc -> contained ix loc c ct ->
  let key d := ends_key (ends_to v s d) in
  Forall (fresh_to v s ix side) ds.*1 -> NoDup (key <$> ds.*1) ->
  (forall fu, at_rx is_rx (us_flow_updater_ s) = Some fu ->
    container_updater side fu = mk_container_updater (Some c) (ct_update_count ct) /\
    forall d, d ∈ ds.*1 -> flow_handle_ fu <> Some (key d)) ->
  exists s' ix' out, us_sends v is_rx ds s ix = Ok (s', ix', out) /\ told_packets out = key <$> ds.*1 /\
    told_container out = match at_rx is_rx (us_flow_updater_ s) with Some _ => [] | None => take 1 (key <$> ds.*1) end.
Proof.
  intros Hroom Hrx. induction ds as [|[d [packets bytes]] ds IH]; intros s ix Hig Hpr Hc key Hds Hnd Hfu.
  { exists s, ix, []. by destruct (at_rx _ _). }
  cbn [fmap list_fmap fst] in *. apply Forall_cons in Hds as [(Hen & Hside & Hnone) Hds]. apply NoDup_cons in Hnd as [Hnew Hnd].
  destruct (move_contained v is_rx packets bytes d s ix loc c ct Hroom Hrx Hig Hpr Hc Hen Hnone)
    as (s1 & ix1 & out1 & fu1 & E1 & El & Ep & Hig1 & Hpr1 & Hfu1 & Hh1 & Hc1 & Hw1 & Hoth & Hp1 & Ht1).
  { intros fu E. apply (Hfu fu E). left. }
  cbn [us_sends]. rewrite E1. cbn [rbind].
  assert (Hends : forall d', ends_to v s1 d' = ends_to v s d') by (intros d'; unfold ends_to; by rewrite El, Ep).
  assert (Hdiff : forall d', d' ∈ ds.*1 -> key d' <> key d).
  { intros d' Hd' E. apply Hnew. rewrite <- E. apply list_elem_of_fmap. by exists d'. }
  destruct (IH s1 ix1 Hig1 Hpr1 (contained_same _ _ _ _ _ Hw1 Hc)) as (s2 & ix2 & out2 & E2 & Hp2 & Ht2).
  - apply Forall_forall. intros d' Hd'. pose proof (proj1 (Forall_forall _ _) Hds d' Hd') as (H1 & H2 & H3). unfold fresh_to.
    rewrite Hends. split; [done|]. split; [done|]. apply Hoth; [by apply Hdiff|done].
  - erewrite list_fmap_ext; [exact Hnd|]. intros ? d' _. cbn. by rewrite Hends.
  - intros fu. rewrite Hfu1. intros [= <-]. rewrite <- Hside. split; [done|]. intros d' Hd'. rewrite Hh1, Hends. intros [= E].
    by apply (Hdiff d').
  - rewrite E2. cbn [rbind]. exists s2, ix2, (out1 ++ out2). split; [done|]. rewrite Hfu1 in Ht2.
    unfold told_packets, told_container in *. rewrite !omap_app, Hp1, Hp2, Ht1, Ht2. rewrite app_nil_r. split.
    + cbn [app]. f_equal. apply list_fmap_ext. intros ? d' _. cbn. by rewrite Hends.
    + destruct (at_rx is_rx (us_flow_updater_ s)) as [fu|]; [|done]. rewrite decide_True; [done|].
      rewrite Hside. by apply (Hfu fu).
Qed.

(** C36: a UDP socket that sends to several addresses tells only the flow to the first of them about
    the container of its process.  Let the socket have no updater yet in this direction and its process be in
    a container that has a name, and let it exchange packets with any number of different addresses, whose flows
    are new and which are on the same side of the local address in the order of addresses.  Each of the flows
    is told about its packets, but only the first one about the container: the assignment of the updater for
    the next address keeps what the old one remembers to have told the flow to the address before. *)
Theorem container_forgotten (v : AgentView) (is_rx : Z) (s : UdpSocketSpan) (ix : Index) (loc c : Z) (ct : Container)
    (side : FlowSide) (ds : list (IPv6Address * Z * (Z * Z))) :
  let key d := ends_key (ends_to v s d) in
  room v = true -> is_rx = 0 \/ is_rx = 1 -> ignore_udp_ s = false -> us_process s = Some loc ->
  at_rx is_rx (us_flow_updater_ s) = None -> contained ix loc c ct ->
  Forall (fresh_to v s ix side) ds.*1 -> NoDup (key <$> ds.*1) ->
  exists s' ix' out, us_sends v is_rx ds s ix = Ok (s', ix', out) /\
    told_packets out = key <$> ds.*1 /\ told_container out = take 1 (key <$> ds.*1).
Proof.
  intros key Hroom Hrx Hig Hpr Hno Hc Hds Hnd.
  destruct (sends_contained v is_rx loc c ct side ds Hroom Hrx s ix Hig Hpr Hc Hds Hnd) as (s' & ix' & out & E & Hp & Ht).
  - intros fu. by rewrite Hno.
  - exists s', ix', out. by rewrite Hno in Ht.
Qed.
End FlowSystem.

Module FlowSystemDemo.
Import IpAddress FlowSpan Ingest FlowSystem.
#[local] Abbreviation flow_key := (Z * Z * (Z * Z))%type.

Definition no_map (_ : IPv6Address) : option IPv6Address := None.
Definition demo_view : AgentView :=
  mk_view None (fun _ => None) true (fun _ => false) (fun pid => Some pid) (0, 9, 0) no_map true.
Definition demo_index : Index := mk_index ∅ ∅ ∅ ∅ ∅.

(** 10.0.0.1 and 10.0.0.2, in network byte order. *)
Definition host_1 : Z := 10 + 2 ^ 24.
Definition host_2 : Z := 10 + 2 * 2 ^ 24.
Definition demo_ends : ends := ends_of no_map host_1 80 host_2 5000.
Definition stats_of (bytes is_rx : Z) : AgentView * message := (demo_view, socket_stats 0 1 bytes 1 0 5 is_rx).

Lemma demo_index_ok : plain demo_index /\ live demo_index.
Proof.
  split; [intros loc p H|intros k fl H]; unfold demo_index in H; cbn [processes flows] in H; by rewrite lookup_empty in H.
Qed.

Lemma demo_ends_ok : ends_ok demo_ends /\ ends_ok (reversed_ends demo_ends).
Proof.
  assert (H : v6_ok (e_local demo_ends) /\ v6_ok (e_remote demo_ends)).
  { split; (split; [by vm_compute|]); vm_compute; repeat (apply Forall_cons_2; [by split|]); apply Forall_nil_2. }
  destruct H as [Ha Hb]. split; (split; [done|]); (split; [done|]); by split; vm_compute.
Qed.

Lemma demo_on_network (ms : list (AgentView * message)) :
  Forall (fun vm => exists b rx, vm = stats_of b rx /\ (rx = 0 \/ rx = 1)) ms -> Forall (on_network no_map) ms.
Proof. intros H. eapply Forall_impl; [exact H|]. by intros vm (b & rx & -> & Hrx). Qed.

Lemma connection_counted_once_witness :
  let msx := [stats_of 100 0; stats_of 20 1] in
  let msy := [stats_of 100 1; stats_of 20 0] in
  exists sx ix1 outx sy ix2 outy,
    socket_run ((demo_view, connection host_1 80 host_2 5000 0 1 2) :: msx) SocketSpan_new demo_index = Ok (sx, ix1, outx) /\
    socket_run ((demo_view, connection host_2 5000 host_1 80 0 1 1) :: msy) SocketSpan_new demo_index = Ok (sy, ix2, outy) /\
    for_flow (ends_key demo_ends) (outx ++ outy) /\ ends_side (reversed_ends demo_ends) = other_side (ends_side demo_ends) /\
    metrics_of (events_of (ends_key demo_ends) outx) = sent demo_ends demo_view msx /\
    metrics_of (events_of (ends_key demo_ends) outy) = sent (reversed_ends demo_ends) demo_view msy /\
    direction_of (ends_side (reversed_ends demo_ends)) 1 = direction_of (ends_side demo_ends) 0 /\
    forall es, es ≡ₚ events_of (ends_key demo_ends) outx ++ events_of (ends_key demo_ends) outy ->
      exists f out, run FlowSpanDemo.demo_env es FlowSpan_new = Ok (f, out) /\
        ((forall d, d <> DIR_NONE -> counted_as out (sent demo_ends demo_view msx) d) \/
         (forall d, d <> DIR_NONE -> counted_as out (sent (reversed_ends demo_ends) demo_view msy) d)).
Proof.
  destruct demo_index_ok as [Hplain Hlive].
  assert (Hnet : forall b0 b1 r0 r1, (r0 = 0 \/ r0 = 1) -> (r1 = 0 \/ r1 = 1) -> Forall (on_network no_map) [stats_of b0 r0; stats_of b1 r1]).
  { intros b0 b1 r0 r1 H0 H1. apply demo_on_network. apply Forall_cons_2; [by eexists _, _|]. apply Forall_cons_2; [by eexists _, _|].
    apply Forall_nil_2. }
  apply (connection_counted_once FlowSpanDemo.demo_env FlowSpanDemo.demo_env_ok no_map host_1 80 host_2 5000 demo_view demo_view
    0 0 1 1 2 1 [stats_of 100 0; stats_of 20 1] [stats_of 100 1; stats_of 20 0] demo_index demo_index).
  all: first [exact (proj1 demo_ends_ok)|exact (proj2 demo_ends_ok)|exact Hplain|exact Hlive|reflexivity|idtac].
  - apply Hnet; auto.
  - apply Hnet; auto.
Defined.

(** ** Containers *)

(** A process in a container that has a name. *)
Definition demo_world : ingest_event :=
  World ∅ {[1 := mk_process (chars "nginx") None (Some 2) None]}
    {[2 := mk_cgroup (chars "web") None None [] 0 (Some 3)]}
    {[3 := mk_container (chars "web") [] (chars "web") [] [] CONTAINER 1]}.
Definition new_udp : ingest_event :=
  UdpMessage 0 demo_view (udp_new_socket 0 1 7 (replicate 10 0 ++ [255; 255; 10; 0; 0; 1]) 53000).
Definition packets_to (host : Z) : ingest_event :=
  UdpMessage 0 demo_view (udp_stats_addr_changed_v4 0 7 0 1 100 host 8125).

Definition host_3 : Z := 10 + 3 * 2 ^ 24.
Definition nginx : Container := mk_container (chars "web") [] (chars "web") [] [] CONTAINER 1.
Definition contained_index : Index :=
  mk_index ∅ {[1 := mk_process (chars "nginx") None (Some 2) None]} {[2 := mk_cgroup (chars "web") None None [] 0 (Some 3)]}
    {[3 := nginx]} ∅.
Definition contained_socket : UdpSocketSpan :=
  mk_udp_span (ipv6_of host_1) 53000 ((IPv6Address_zero, 0), (IPv6Address_zero, 0)) false false (None, None) (Some 1).
Definition destinations : list (IPv6Address * Z * (Z * Z)) :=
  [((ipv6_of host_2, 8125), (1, 100)); ((ipv6_of host_3, 8125), (2, 300))].
Definition flow_to (host : Z) : flow_key := ends_key (ends_of no_map host_1 53000 host 8125).

Lemma demo_contained : contained contained_index 1 3 nginx.
Proof.
  split; [|by vm_compute..]. intros loc p. cbn [contained_index processes]. intros [<- <-]%lookup_singleton_Some. by split.
Qed.

Lemma container_forgotten_witness :
  exists s' ix' out, us_sends demo_view 0 destinations contained_socket contained_index = Ok (s', ix', out) /\
    told_packets out = [flow_to host_2; flow_to host_3] /\ told_container out = [flow_to host_2].
Proof.
  apply (container_forgotten demo_view 0 contained_socket contained_index 1 3 nginx SIDE_A destinations); try reflexivity.
  - by left.
  - exact demo_contained.
  - repeat (apply Forall_cons_2; [|]); [..|apply Forall_nil_2];
      (split; [|by vm_compute]); (split; [|split; [|by vm_compute]]); (split; [by vm_compute|]); vm_compute;
      repeat (apply Forall_cons_2; [by split|]); apply Forall_nil_2.
  - by apply (bool_decide_unpack _).
Defined.

Lemma demo_core_ok : Forall ingest_event_ok [demo_world; NewUdpSocket; new_udp; packets_to host_2].
Proof.
  assert (Hv : view_ok demo_view) by done.
  apply Forall_cons_2; [done|]. apply Forall_cons_2; [done|]. apply Forall_cons_2; [|apply Forall_singleton; by split].
  split; [done|]. split; [done|]. cbn. repeat (apply Forall_cons_2; [by split|]). apply Forall_nil_2.
Qed.

Lemma flows_held_witness :
  exists c out, core_run [demo_world; NewUdpSocket; new_udp; packets_to host_2] Core_new = Ok (c, out) /\
    forall k, refs (index c) k = holders c k /\ (is_Some (flows (index c) !! k) <-> holders c k <> 0%nat).
Proof. exact (flows_held _ demo_core_ok). Defined.
End FlowSystemDemo.
